(* ===== verification/_CoqProject ===== *)
-Q . S2P
Prelude.v
Riscv.v
Memory.v
Kalloc.v
Vm.v
VmInv.v
VmSys.v
VmWalk.v
VmMap.v
CowCopy.v
Cow.v
KernelExample.v
CowFork.v
CowFault.v
CowWrite.v
VmCopyin.v
CowCopyout.v
CowProps.v
VmProps.v
SortBase.v
SortCount.v
SortCountInv.v
SortCountSort.v
SortCountProof.v
SortCountWhole.v
SortKeys.v
SortMerge.v
SortMergeProof.v
SortProps.v
FileManager.v
FileManagerProof.v
FileManagerLive.v
FileManagerProps.v
Bytes.v
Bio.v
BioProof.v
Log.v
LogProof.v
LogCrash.v
LogProps.v
Txn.v
TxnOps.v
Fs.v
FsBlocks.v
FsInode.v
FsWrite.v
FsFrame.v
FsDir.v
FsProps.v
FsWriteProps.v
Mkfs.v
Partial.v
Proc.v
ProcInv.v
ProcEffect.v
ProcSafe.v
ProcReach.v
ProcProps.v
Pipe.v
Ftable.v
FtableProof.v
FtableRefs.v
Sysfile.v
Descriptors.v
Syscall.v
FdProps.v
TrapProps.v
Locks.v
Grep.v
Sh.v
ShProof.v
ShProps.v
Umalloc.v
UmallocProof.v
Ring.v
Console.v
Uart.v
Virtio.v
VirtioProps.v
Ulib.v
