(* ===== verification/Prelude.v ===== *)
(** * A verification of xv6 with copy-on-write fork, the LAZY file manager
      and the LAZY sorter

    The repository holds three programs in C.  [initial-xv6/src] is the xv6
    teaching kernel for RISC-V with a copy-on-write [fork]
    ([kernel/kalloc.c] counts references to pages, [kernel/vm.c] shares them,
    [kernel/trap.c] copies them on a page fault), its user library and
    programs.  [concurrency/partA.c] is a file manager that serves read,
    write and delete requests in a thread each.  [concurrency/partB.c] sorts
    file records with a distributed count sort or merge sort.  This
    development translates their algorithms into Rocq and proves what makes
    them correct.

    ** How the code is modelled

    A C function is a Rocq function in the monad [M S] of this file: a state
    of type [S] goes in; a value and a state come out ([Ok]), or the message
    of the [panic] or of the out-of-bounds access that stops the program
    ([Panic]), or [Diverge].  [wp] is the weakest precondition of such a
    program: it holds only of runs that end with a value, so a triple
    [wp m s Q] says that the code returns, without panic, in a state where
    [Q] holds.  [Partial] has the form that also allows panics ([wlp]), and
    the rules for relations that every run of a program keeps ([keeping]).
    Integers are [Z] with their wrap-around written out ([u8], [u16], [u32],
    [u64], [i32]); so does the [int] [nextpid] of kernel/proc.c, and the
    theorems on pids speak of the runs in which it has not overflowed yet.  Loops and recursion that are not bounded by a constant
    take fuel; the bound is part of the definition and the theorems show that
    it is enough (they exclude [Diverge]).  The free list, the page-table
    walks, the sleeping loops and the command parser are the main ones: a list
    walk gets the number of pages, a walk of the path one step per byte of the
    path, a [freewalk] the three levels of a page table, a chain of disk
    descriptors one step more than there are descriptors.

    Sequential parts of the kernel are modelled for one hart: a lock is a flag,
    acquiring a held lock panics, and a code path is one turn from the moment
    it gets the CPU to the moment it gives it up ([sched], [sleep]).
    Interleavings are modelled where the code's correctness is about them, as
    step relations whose reachable states carry the theorems: the spinlock,
    the sleep-lock with [sleep] and [wakeup] ([Locks]); the process table
    ([ProcInv]); traps and system calls of all processes ([FdProps]); writers
    and readers of a pipe ([Pipe]); the console and the UART with their
    interrupts ([Console], [Uart]); the callers of the disk driver, its
    interrupt and the device ([Virtio]); the threads of the file manager
    ([FileManager]) and of both sorts ([SortCount], [SortMerge],
    [SortProps]).  A crash of the machine is a prefix of the writes made to
    the disk ([LogCrash]).

    Layers meet at interfaces, and a client is proved against the interface:
    - [Bio.BlockStore]: what a block cache promises; [BioProof] discharges it
      for kernel/bio.c, [Log] is written against it;
    - [Txn.Txn]: what a store with transactions promises; [Txn] discharges it
      for the log over any block store, [TxnOps] for a transaction by itself,
      and [Fs] is written against it; [Txn.LogArea] is where the log lies;
    - [TxnOps.Ops]: [begin_op] and [end_op] for the layers above the file
      system, [Ftable] and [Sysfile];
    - [Proc.Files]: what the process code asks of the open-file table
      ([filedup], [fileclose], ...); [Sysfile] discharges it for kernel/file.c;
    - [Ftable.Devices]: the drivers in [devsw]; [Sysfile.Channels] and
      [Syscall.Clocks]: the addresses that processes sleep on;
    - [Virtio.BlockDevice]: a device each of whose steps is one that the virtio
      specification allows.

    ** The files

    Kernel memory.  [Riscv]: kernel/riscv.h and kernel/memlayout.h.
    [Memory]: bytes, 64-bit words and kernel/string.c.  [Kalloc]:
    kernel/kalloc.c with its reference counts and [kinit].
    [Vm]: kernel/vm.c.  [VmInv]: the system invariant [Sinv] (page tables are
    trees of private pages; the reference count of a page is the number of
    its mappings; the free list holds the other pages; no page that can be
    written is shared), [VmSys]: the elementary steps against it, [VmWalk],
    [VmMap], [CowCopy]: [walk], [mappages], [uvmunmap], [uvmcopy].  [Cow]:
    [iscowpage] and the page fault branch of [usertrap] in kernel/trap.c, and
    what user code sees ([user_load], [user_store]).  [CowFork], [CowFault],
    [CowWrite], [VmCopyin], [CowCopyout]: the theorems on fork, the fault,
    and the copies between kernel and user.  [KernelExample]: a concrete
    machine.  [CowProps], [VmProps]: the properties with their witnesses: a
    fork gives the child the parent's memory, a fault is invisible, a write
    reaches one address space, [copyin], [copyinstr] and [copyout] agree with
    the loads and stores of the program, pages are neither lost nor handed
    out twice.

    Disk and file system.  [Bytes]: integers in byte buffers.  [Virtio],
    [VirtioProps]: kernel/virtio_disk.c: descriptors are neither lost nor
    freed twice, and a transfer makes the buffer and its block equal.  [Bio],
    [BioProof]: kernel/bio.c, the LRU list and the invariant that a block has
    one buffer.  [Log], [LogProof], [LogCrash], [LogProps]: kernel/log.c: a
    commit is atomic under any number of crashes, log absorption, the
    reservation of [begin_op].  [Txn], [TxnOps]: transactions.  [Fs]:
    kernel/fs.c (blocks, inodes, block map, [readi], [writei], directories,
    path names); [FsBlocks], [FsInode], [FsWrite], [FsFrame], [FsDir]:
    [balloc] and [bfree] against the set of free blocks, the round trip of an
    inode through the disk, the bytes [readi] answers, the bytes of a file
    after [writei] and of the files it does not write, the table of inodes,
    [dirlookup] and [skipelem]; [FsProps], [FsWriteProps]: the properties.
    [Mkfs]: mkfs/mkfs.c, and that the kernel reads from its image the files
    it was given.

    Processes, pipes, locks.  [Proc]: kernel/proc.c.  [ProcInv]: turns of the
    kernel and the invariant [table_ok]; [ProcEffect], [ProcSafe],
    [ProcReach]: every turn keeps it, and which leave the open files
    alone; [ProcProps]: what [fork], [exit] and
    [wait] do.  [Pipe]: kernel/pipe.c is a queue of bytes.  [Locks]:
    kernel/spinlock.c and kernel/sleeplock.c.

    Files, system calls, traps.  [Ftable]: kernel/file.c and [pipealloc];
    [FtableProof]: [fileread] and [filewrite] down to what the disk holds
    after a crash; [FtableRefs]: the invariant of reference counts and pipe
    ends.  [Sysfile]: kernel/sysfile.c and the arguments of system calls.
    [Syscall]: kernel/sysproc.c, kernel/exec.c, the dispatch of
    kernel/syscall.c and kernel/trap.c.  [Descriptors]: each of
    these against the invariant that a file's reference count is the number of
    descriptors that name it; [FdProps]: the kernel as one system of turns
    over traps, and that invariant in its reachable states; [TrapProps]: a
    process that traps when it is killed ends, no turn ends in user code with
    its process killed (but see the findings for [yield]), and [exec] puts the
    arguments inside the stack page.

    Devices and user programs.  [Ring]: ring buffers.  [Console]: the line
    discipline of kernel/console.c against a line editor.  [Uart]: the
    transmit queue of kernel/uart.c.  [Grep]: user/grep.c against a semantics
    of its patterns.  [Sh], [ShProof], [ShProps]: the parser of user/sh.c
    against a grammar, and the descriptors of the programs it runs.
    [Umalloc], [UmallocProof]: user/umalloc.c.  [Ulib]: user/ulib.c, both
    printfs and user/wc.c.

    LAZY file manager.  [FileManager]: [process_req] of concurrency/partA.c as
    a transition system, [FileManagerProof]: its invariants,
    [FileManagerLive]: progress and a bound on the steps,
    [FileManagerProps]: the properties.  The limits hold whatever [malloc] left
    in [time_requests], which [main] does not set; that every request is
    answered needs zeros there.

    LAZY sorter.  [SortBase]: records, keys, comparisons of
    concurrency/partB.c.  [SortCount], [SortCountInv], [SortCountProof],
    [SortCountSort], [SortCountWhole], [SortKeys]: the count sorts.
    [SortMerge], [SortMergeProof]: the merge sorts.  [SortProps]:
    [lazy_sort] and the properties, by id for ids less than 2^31 - 2 apart.

    ** What the model takes as parameters

    [strptime]/[mktime] of the C library order the timestamps of the sorter,
    [qsort] answers a sorted permutation; the disk device follows the virtio
    specification and does not fail, and above its driver a block is
    transferred atomically; in the file layer the copy between kernel and user
    memory is an oracle that says which pieces succeed, and how many bytes a
    failed [either_copyin] has put into the buffer.

    ** What modelling found

    The behaviours below are in the definitions as the code has them:
    [copyout] writes to pages without the write permission; [kill] of pid 0
    marks an unused slot ([ProcProps.kill_zero_kills_next_child]);
    [piperead] loses a byte when [copyout] fails; [grep] ignores a last line
    without newline; mkfs makes the log one block shorter than the kernel
    reserves ([LogProps.mkfs_log_too_small]); [malloc] near 4 GB answers a
    block it does not have ([UmallocProof.malloc_wraps_around]); [writei]
    leaves bytes unlogged in the cache when a user copy fails half way (the
    theorems on [writei] are for copies that move all or nothing);
    [nextpid] overflows; a process killed while it is runnable after a timer
    interrupt runs user code until its next trap;
    [sys_waitx] copies uninitialised words to user memory when it fails, and
    [sys_sleep] takes a negative time for a very long one; the user printf
    prints the low half of a 64-bit number ([Ulib.percent_l_truncates]); the
    sorter's name keys collide and can be negative
    ([SortProps.count_sort_names_out_of_bounds]), ids too far apart make it
    store outside of [global_count] ([SortProps.far_ids_crash]), and its second
    count sort reads past an array; the file manager can spin for ever, for a
    request that shares a slot of [time_requests]
    ([FileManagerProps.delete_spins_forever]) or for a count that [malloc] left
    there ([FileManagerProps.dirty_delete_spins_forever]).

    ** Not modelled

    The boot-time kernel page table ([kvmmake], [kvminit]), [fsinit],
    [usertrapret] and the trap vectors, [consolewrite], [uartinit] and
    [uartputc_sync], the handshake of [virtio_disk_init], kernel/start.c,
    main.c, plic.c, ramdisk.c and the assembly files: machine set-up, device
    registers and register moves.  Of user/: the programs that are a few system
    calls in a row (cat, ls, echo, rm, mkdir, ln, kill, init, zombie) and the
    test programs (usertests.c and the others).  In mkfs.c the host files are what
    [open] and [read] answer, and writing the image does not fail.
    concurrency/testcase.c
    prints random input.  Of concurrency/partA.c the parsing of the input and
    the printing of bullets, and of partB.c the random test data and its check,
    are left out.
*)
From stdpp Require Export base tactics gmap list list_numbers numbers strings sorting fin_maps.
From Stdlib Require Export ZArith.
From Stdlib Require Import Lia.

Open Scope Z_scope.

(** ** Results of C code, and the state-and-error monad *)

(** A run of a C function ends with a value, stops in [panic] (or in an
    access outside of an array, with the message that says which), or does
    not end within the fuel it was given. *)
Inductive res (A : Type) : Type :=
| Ok (a : A)
| Panic (msg : string)
| Diverge.
Arguments Ok {A} a.
Arguments Panic {A} msg.
Arguments Diverge {A}.

Definition M (St A : Type) : Type := St → res (A * St).

Global Instance M_ret {St} : MRet (M St) := λ A a s, Ok (a, s).
Global Instance M_bind {St} : MBind (M St) := λ A B f m s,
  match m s with
  | Ok (a, s') => f a s'
  | Panic msg => Panic msg
  | Diverge => Diverge
  end.

Definition panic {St A} (msg : string) : M St A := λ _, Panic msg.
Definition gets {St A} (f : St → A) : M St A := λ s, Ok (f s, s).
Definition modify {St} (f : St → St) : M St unit := λ s, Ok (tt, f s).

(** [while_ n body a] is a C loop whose loop variables are [a]: the body
    answers [inl a'] to go round again and [inr b] to leave with [b]. *)
Fixpoint while_ {St A B} (fuel : nat) (body : A → M St (A + B)) (a : A) : M St B :=
  match fuel with
  | O => λ _, Diverge
  | S f => r ← body a;
           match r with
           | inl a' => while_ f body a'
           | inr b => mret b
           end
  end.

(** A [for] loop over the values a loop variable takes. *)
Fixpoint foreach {St A} (f : A → M St unit) (l : list A) : M St unit :=
  match l with
  | [] => mret tt
  | x :: l' => f x;; foreach f l'
  end.

(** [lift_m get put m] runs [m] on the part of a larger state that [get]
    selects and [put] writes back. *)
Definition lift_m {S1 S2 A} (get : S2 → S1) (put : S1 → S2 → S2) (m : M S1 A) : M S2 A :=
  λ s, match m (get s) with
       | Ok (a, s1) => Ok (a, put s1 s)
       | Panic msg => Panic msg
       | Diverge => Diverge
       end.

(** ** Total-correctness specifications

    [wp m s Q]: from [s] the code [m] returns (it neither panics nor runs
    for ever), and its value and final state satisfy [Q]. *)
Definition wp {St A} (m : M St A) (s : St) (Q : A → St → Prop) : Prop :=
  match m s with
  | Ok (a, s') => Q a s'
  | _ => False
  end.

Section wp_rules.
Context {St : Type}.

Lemma wp_ret {A} (a : A) (s : St) (Q : A → St → Prop) : Q a s → wp (mret a) s Q.
Proof. done. Qed.

Lemma wp_bind {A B} (m : M St A) (f : A → M St B) s Q :
  wp m s (λ a s', wp (f a) s' Q) → wp (m ≫= f) s Q.
Proof. unfold wp, mbind, M_bind. by destruct (m s) as [[a s']| |]. Qed.

Lemma wp_bind_inv {A B} (m : M St A) (f : A → M St B) s Q :
  wp (m ≫= f) s Q → wp m s (λ a s', wp (f a) s' Q).
Proof. unfold wp, mbind, M_bind. by destruct (m s) as [[a s']| |]. Qed.

Lemma wp_mono {A} (m : M St A) s (P Q : A → St → Prop) :
  wp m s P → (∀ a s', P a s' → Q a s') → wp m s Q.
Proof. unfold wp. destruct (m s) as [[a s']| |]; naive_solver. Qed.

Lemma wp_gets {A} (f : St → A) s Q : Q (f s) s → wp (gets f) s Q.
Proof. done. Qed.

Lemma wp_modify (f : St → St) s Q : Q tt (f s) → wp (modify f) s Q.
Proof. done. Qed.

Lemma wp_ok {A} (m : M St A) s (Q : A → St → Prop) :
  wp m s Q → ∃ a s', m s = Ok (a, s') ∧ Q a s'.
Proof. unfold wp. destruct (m s) as [[a s']| |]; [eauto|done..]. Qed.

Lemma ok_wp {A} (m : M St A) s a s' (Q : A → St → Prop) :
  m s = Ok (a, s') → Q a s' → wp m s Q.
Proof. unfold wp. by intros ->. Qed.

(** The loop rule: an invariant and a measure that every turn decreases. *)
Lemma wp_while {A B} (I : A → St → Prop) (V : A → nat)
    (body : A → M St (A + B)) (Q : B → St → Prop) :
  (∀ a s, I a s → wp (body a) s (λ r s',
     match r with
     | inl a' => I a' s' ∧ (V a' < V a)%nat
     | inr b => Q b s'
     end)) →
  ∀ fuel a s, I a s → (V a < fuel)%nat → wp (while_ fuel body a) s Q.
Proof.
  intros Hbody fuel. induction fuel as [|n IH]; intros a s HI HV; [lia|]; simpl.
  apply wp_bind. eapply wp_mono; [by apply Hbody|].
  intros [a'|b] s'; simpl; [|done]. intros [HI' HV']. apply IH; [done|lia].
Qed.

Lemma while_ext {A B} (b1 b2 : A → M St (A + B)) : (∀ a s, b1 a s = b2 a s) →
  ∀ n a s, while_ n b1 a s = while_ n b2 a s.
Proof.
  intros Hb. induction n as [|n IH]; intros a s; [done|]. simpl. unfold mbind, M_bind.
  rewrite Hb. destruct (b2 a s) as [[[a'|b] s']| |]; try done.
Qed.

(** The rule for [foreach]: the invariant may speak of the part done. *)
Lemma wp_foreach {A} (I : list A → St → Prop) (f : A → M St unit) (l : list A) s Q :
  I [] s →
  (∀ l1 x l2 s, l = l1 ++ x :: l2 → I l1 s → wp (f x) s (λ _ s', I (l1 ++ [x]) s')) →
  (∀ s, I l s → Q tt s) →
  wp (foreach f l) s Q.
Proof.
  intros H0 Hf HQ.
  cut (∀ l2 l1 s, l = l1 ++ l2 → I l1 s → wp (foreach f l2) s Q).
  { intros Hcut. by apply (Hcut l []). }
  induction l2 as [|x l2 IH]; intros l1 s' Hl HI; simpl.
  - apply wp_ret, HQ. rewrite app_nil_r in Hl. by rewrite Hl.
  - apply wp_bind. eapply wp_mono; [by eapply Hf|]. intros [] s'' HI'.
    apply (IH (l1 ++ [x])); [|done]. by rewrite <- app_assoc.
Qed.

(** The same for a loop [for(i = 0; i < n; i++)], with an invariant that
    speaks of [i]. *)
Lemma wp_for (I : nat → St → Prop) (f : Z → M St unit) (n : nat) s Q :
  I O s →
  (∀ k s, (k < n)%nat → I k s → wp (f (Z.of_nat k)) s (λ _ s', I (S k) s')) →
  (∀ s, I n s → Q tt s) →
  wp (foreach f (seqZ 0 (Z.of_nat n))) s Q.
Proof.
  intros H0 Hf HQ. apply (wp_foreach (λ l1, I (length l1))); [done| |].
  - intros l1 x l2 s' El HI. assert (seqZ 0 (Z.of_nat n) !! length l1 = Some x) as Hx.
    { rewrite El. apply list_lookup_middle. done. }
    apply lookup_seqZ in Hx as [-> Hlt]. rewrite Z.add_0_l, length_app, Nat.add_1_r. apply Hf; [lia|done].
  - intros s'. rewrite length_seqZ, Nat2Z.id. apply HQ.
Qed.
End wp_rules.

Lemma wp_lift {S1 S2 A} (get : S2 → S1) (put : S1 → S2 → S2) (m : M S1 A) s Q :
  wp m (get s) (λ a s1, Q a (put s1 s)) → wp (lift_m get put m) s Q.
Proof. unfold wp, lift_m. by destruct (m (get s)) as [[a s1]| |]. Qed.

(** ** Automation *)

(** One step of a program under [wp]. *)
Ltac wp_step :=
  lazymatch goal with
  | |- wp (mbind _ _) _ _ => apply wp_bind
  | |- wp (mret _) _ _ => apply wp_ret
  | |- wp (gets _) _ _ => apply wp_gets
  | |- wp (modify _) _ _ => apply wp_modify
  end; cbv beta.
Ltac wp_steps := repeat wp_step.

(** Use the specification [H] of the call at the head of the program. *)
Ltac wp_call H := eapply wp_mono; [eapply H|cbv beta].

(** Case analysis on the boolean tests of the code, as propositions. *)
Ltac bool_prop :=
  repeat match goal with
  | H : (_ =? _) = true |- _ => apply Z.eqb_eq in H
  | H : (_ =? _) = false |- _ => apply Z.eqb_neq in H
  | H : (_ <? _) = true |- _ => apply Z.ltb_lt in H
  | H : (_ <? _) = false |- _ => apply Z.ltb_ge in H
  | H : (_ <=? _) = true |- _ => apply Z.leb_le in H
  | H : (_ <=? _) = false |- _ => apply Z.leb_gt in H
  | H : (_ >? _) = true |- _ => rewrite Z.gtb_ltb in H
  | H : (_ >? _) = false |- _ => rewrite Z.gtb_ltb in H
  | H : (_ >=? _) = true |- _ => rewrite Z.geb_leb in H
  | H : (_ >=? _) = false |- _ => rewrite Z.geb_leb in H
  | H : negb _ = true |- _ => apply negb_true_iff in H
  | H : negb _ = false |- _ => apply negb_false_iff in H
  | H : (_ && _)%bool = true |- _ => apply andb_true_iff in H as [? ?]
  | H : (_ || _)%bool = false |- _ => apply orb_false_iff in H as [? ?]
  end.

Ltac case_if :=
  match goal with
  | |- context [if ?b then _ else _] =>
      lazymatch type of b with bool => destruct b eqn:?; bool_prop end
  end.

(** Linear arithmetic with division and remainder. *)
Ltac div_lia := Z.to_euclidean_division_equations; lia.

(** ** Machine integers *)

Definition u8 (z : Z) : Z := z mod 2 ^ 8.
Definition u16 (z : Z) : Z := z mod 2 ^ 16.
Definition u32 (z : Z) : Z := z mod 2 ^ 32.
Definition u64 (z : Z) : Z := z mod 2 ^ 64.
Definition i32 (z : Z) : Z := (z + 2 ^ 31) mod 2 ^ 32 - 2 ^ 31.

Lemma u64_small z : 0 ≤ z < 2 ^ 64 → u64 z = z.
Proof. apply Z.mod_small. Qed.
Lemma u64_range z : 0 ≤ u64 z < 2 ^ 64.
Proof. apply Z.mod_pos_bound. lia. Qed.
Lemma u32_small z : 0 ≤ z < 2 ^ 32 → u32 z = z.
Proof. apply Z.mod_small. Qed.
Lemma u32_range z : 0 ≤ u32 z < 2 ^ 32.
Proof. apply Z.mod_pos_bound. lia. Qed.
Lemma u8_small z : 0 ≤ z < 2 ^ 8 → u8 z = z.
Proof. apply Z.mod_small. Qed.
Lemma u8_range z : 0 ≤ u8 z < 2 ^ 8.
Proof. apply Z.mod_pos_bound. lia. Qed.
Lemma i32_small z : - 2 ^ 31 ≤ z < 2 ^ 31 → i32 z = z.
Proof. unfold i32. intros. rewrite Z.mod_small; lia. Qed.
Lemma i32_range z : - 2 ^ 31 ≤ i32 z < 2 ^ 31.
Proof. unfold i32. pose proof (Z.mod_pos_bound (z + 2 ^ 31) (2 ^ 32)). lia. Qed.

Create HintDb mach.
#[export] Hint Resolve u64_range u32_range u8_range i32_range : mach.

(** ** Lists and bounded quantifiers *)

Lemma Forall_seqZ_iff (P : Z → Prop) m n :
  Forall P (seqZ m n) ↔ ∀ i, m ≤ i < m + n → P i.
Proof. rewrite Forall_forall. setoid_rewrite elem_of_seqZ. done. Qed.

Lemma filter_ext_in {A} (P Q : A → Prop) `{!∀ x, Decision (P x), !∀ x, Decision (Q x)} (l : list A) :
  (∀ x, x ∈ l → P x ↔ Q x) → filter P l = filter Q l.
Proof.
  induction l as [|x l IH]; intros Hpq; [done|]. rewrite !filter_cons.
  rewrite IH by (intros; apply Hpq; by right). specialize (Hpq x (list_elem_of_here _ _)).
  repeat case_decide; tauto.
Qed.

(** ** Arrays *)

(** Array accesses with an [int] index. *)
Definition getZ {A} (l : list A) (i : Z) : option A :=
  if decide (0 ≤ i) then l !! Z.to_nat i else None.
Definition setZ {A} (l : list A) (i : Z) (x : A) : list A :=
  if decide (0 ≤ i) then <[Z.to_nat i := x]> l else l.

Lemma getZ_lt {A} (l : list A) i x : getZ l i = Some x → 0 ≤ i < Z.of_nat (length l).
Proof. unfold getZ. case_decide; [|done]. intros E%lookup_lt_Some. lia. Qed.

Lemma getZ_is_Some {A} (l : list A) i : 0 ≤ i < Z.of_nat (length l) → is_Some (getZ l i).
Proof. intros Hi. unfold getZ. rewrite decide_True by lia. apply lookup_lt_is_Some. lia. Qed.

Lemma getZ_setZ {A} (l : list A) i j x y : getZ l i = Some y →
  getZ (setZ l i x) j = if decide (i = j) then Some x else getZ l j.
Proof.
  intros Hi. pose proof (getZ_lt _ _ _ Hi). unfold getZ, setZ. rewrite (decide_True _ _ (proj1 H)).
  destruct (decide (0 ≤ j)); [|by rewrite decide_False by lia]. case_decide as E.
  - subst. apply list_lookup_insert_eq. lia.
  - apply list_lookup_insert_ne. lia.
Qed.

Lemma length_setZ {A} (l : list A) i x : length (setZ l i x) = length l.
Proof. unfold setZ. case_decide; [apply length_insert|done]. Qed.

Lemma setZ_id {A} (l : list A) i x : getZ l i = Some x → setZ l i x = l.
Proof. unfold getZ, setZ. case_decide; [|done]. apply list_insert_id. Qed.

Lemma alter_insert {A} (l : list A) i x f : l !! i = Some x → alter f i l = <[i := f x]> l.
Proof.
  intros Hi. apply list_eq. intros j. destruct (decide (i = j)) as [->|Hne].
  - rewrite list_lookup_alter_eq, Hi, list_lookup_insert_eq by (by eapply lookup_lt_Some). done.
  - by rewrite list_lookup_alter_ne, list_lookup_insert_ne.
Qed.

Lemma sum_list_with_insert {A} (g : A → nat) (l : list A) t x y : l !! t = Some x →
  (sum_list_with g (<[t := y]> l) + g x = sum_list_with g l + g y)%nat.
Proof.
  revert t. induction l as [|z l IH]; intros [|t] Hx; simpl in *; simplify_eq; [lia|].
  specialize (IH t Hx). lia.
Qed.

(** ** Counting the entries of a map *)

Section countm.
Context `{Countable K} {A : Type} (P : K * A → Prop) `{!∀ x, Decision (P x)}.

Definition countm (m : gmap K A) : Z := Z.of_nat (size (filter P m)).

Lemma countm_insert m i x : m !! i = None →
  countm (<[i := x]> m) = countm m + (if decide (P (i, x)) then 1 else 0).
Proof.
  intros Hi. unfold countm. case_decide as HP.
  - rewrite map_filter_insert_True by done. rewrite map_size_insert_None; [lia|].
    by rewrite map_lookup_filter_None; left.
  - rewrite map_filter_insert_False by done. rewrite delete_id by done. lia.
Qed.

Lemma countm_delete m i x : m !! i = Some x →
  countm (delete i m) = countm m - (if decide (P (i, x)) then 1 else 0).
Proof.
  intros Hi. pose proof (countm_insert (delete i m) i x (lookup_delete_eq m i)) as E.
  rewrite insert_delete_id in E by done. lia.
Qed.

Lemma countm_replace m i x y : m !! i = Some x →
  countm (<[i := y]> m) =
  countm m - (if decide (P (i, x)) then 1 else 0) + (if decide (P (i, y)) then 1 else 0).
Proof.
  intros Hi. rewrite <- insert_delete_eq, countm_insert by apply lookup_delete_eq.
  by rewrite (countm_delete m i x).
Qed.

Lemma countm_pos m i x : m !! i = Some x → P (i, x) → 0 < countm m.
Proof.
  intros Hi HP. pose proof (countm_delete m i x Hi) as E. rewrite decide_True in E by done.
  unfold countm in *. lia.
Qed.

Lemma countm_unique m i j x y : m !! i = Some x → m !! j = Some y →
  P (i, x) → P (j, y) → countm m ≤ 1 → i = j.
Proof.
  intros Hi Hj HPx HPy Hc. destruct (decide (i = j)) as [|Hne]; [done|].
  pose proof (countm_delete m i x Hi) as E. rewrite decide_True in E by done.
  assert (0 < countm (delete i m)); [|lia].
  apply (countm_pos _ j y); [by rewrite lookup_delete_ne|done].
Qed.

Lemma countm_nonneg m : 0 ≤ countm m.
Proof. unfold countm. lia. Qed.

Lemma countm_zero m i x : countm m = 0 → m !! i = Some x → ¬ P (i, x).
Proof. intros Hc Hi HP. pose proof (countm_pos m i x Hi HP). lia. Qed.

Lemma countm_empty m : (∀ i x, m !! i = Some x → ¬ P (i, x)) → countm m = 0.
Proof.
  intros HP. unfold countm. assert (filter P m = ∅) as ->; [|done].
  apply map_empty. intros i. apply map_lookup_filter_None. right. intros x Hx. by apply HP.
Qed.
End countm.

Lemma countm_imap `{Countable K} {A} (P : K * A → Prop) `{!∀ x, Decision (P x)}
    (f : K → A → A) (m : gmap K A) :
  (∀ i x, m !! i = Some x → P (i, f i x) ↔ P (i, x)) →
  countm P (map_imap (λ i x, Some (f i x)) m) = countm P m.
Proof.
  induction m as [|i x m Hi IH] using map_ind; intros Hf; [done|].
  erewrite map_imap_insert_Some by done.
  rewrite !countm_insert by (try done; by rewrite map_lookup_imap, Hi).
  rewrite IH.
  - f_equal. specialize (Hf i x (lookup_insert_eq _ _ _)). repeat case_decide; tauto.
  - intros j y Hj. apply Hf. rewrite lookup_insert_ne; [done|]. intros ->. congruence.
Qed.
