(* ===== verification/Riscv.v ===== *)
(** kernel/riscv.h and kernel/memlayout.h: the constants and macros of the
    Sv39 paging scheme, at their 64-bit width, and their arithmetic meaning. *)
From S2P Require Import Prelude.

(** ** Definitions *)

Definition PGSIZE : Z := 4096.
Definition PGSHIFT : Z := 12.

Definition PGROUNDUP (sz : Z) : Z := Z.land (u64 (sz + PGSIZE - 1)) (Z.lnot (PGSIZE - 1)).
Definition PGROUNDDOWN (a : Z) : Z := Z.land a (Z.lnot (PGSIZE - 1)).

Definition PTE_V : Z := Z.shiftl 1 0.
Definition PTE_R : Z := Z.shiftl 1 1.
Definition PTE_W : Z := Z.shiftl 1 2.
Definition PTE_X : Z := Z.shiftl 1 3.
Definition PTE_U : Z := Z.shiftl 1 4.
Definition PTE_COW : Z := Z.shiftl 1 8.

Definition PA2PTE (pa : Z) : Z := u64 (Z.shiftl (Z.shiftr pa 12) 10).
Definition PTE2PA (pte : Z) : Z := u64 (Z.shiftl (Z.shiftr pte 10) 12).
Definition PTE_FLAGS (pte : Z) : Z := Z.land pte 0x3FF.

Definition PXMASK : Z := 0x1FF.
Definition PXSHIFT (level : Z) : Z := PGSHIFT + 9 * level.
Definition PX (level va : Z) : Z := Z.land (Z.shiftr va (PXSHIFT level)) PXMASK.

Definition MAXVA : Z := Z.shiftl 1 (9 + 9 + 9 + 12 - 1).

Definition SATP_SV39 : Z := Z.shiftl 8 60.
Definition MAKE_SATP (pagetable : Z) : Z := Z.lor SATP_SV39 (Z.shiftr pagetable 12).

Definition KERNBASE : Z := 0x80000000.
Definition PHYSTOP : Z := KERNBASE + 128 * 1024 * 1024.
Definition TRAMPOLINE : Z := MAXVA - PGSIZE.
Definition KSTACK (p : Z) : Z := TRAMPOLINE - (p + 1) * 2 * PGSIZE.
Definition TRAPFRAME : Z := TRAMPOLINE - PGSIZE.

Definition UART0 : Z := 0x10000000.
Definition UART0_IRQ : Z := 10.
Definition VIRTIO0 : Z := 0x10001000.
Definition VIRTIO0_IRQ : Z := 1.
Definition PLIC : Z := 0x0c000000.
Definition PLIC_SENABLE (hart : Z) : Z := PLIC + 0x2080 + hart * 0x100.
Definition PLIC_SPRIORITY (hart : Z) : Z := PLIC + 0x201000 + hart * 0x2000.
Definition PLIC_SCLAIM (hart : Z) : Z := PLIC + 0x201004 + hart * 0x2000.

Definition SSTATUS_SPP : Z := Z.shiftl 1 8.
Definition SSTATUS_SPIE : Z := Z.shiftl 1 5.
Definition SSTATUS_SIE : Z := Z.shiftl 1 1.

(** The truth value of the C expression [x & f]. *)
Definition has (x f : Z) : bool := negb (Z.land x f =? 0).

(** The page a physical address lies in. *)
Definition page_of (a : Z) : Z := a / PGSIZE.

(** ** Arithmetic meaning of the macros *)

Lemma land_lnot_pgmask a : Z.land a (Z.lnot (PGSIZE - 1)) = a / PGSIZE * PGSIZE.
Proof.
  change (Z.lnot (PGSIZE - 1)) with (Z.lnot (Z.ones 12)).
  rewrite <- Z.ldiff_land, Z.ldiff_ones_r by lia.
  rewrite Z.shiftr_div_pow2, Z.shiftl_mul_pow2 by lia. done.
Qed.

Lemma PGROUNDDOWN_eq a : PGROUNDDOWN a = a / PGSIZE * PGSIZE.
Proof. apply land_lnot_pgmask. Qed.

Lemma PGROUNDUP_eq a : 0 ≤ a → a + PGSIZE ≤ 2 ^ 64 →
  PGROUNDUP a = (a + PGSIZE - 1) / PGSIZE * PGSIZE.
Proof.
  intros. unfold PGROUNDUP. rewrite u64_small by (unfold PGSIZE in *; lia).
  apply land_lnot_pgmask.
Qed.

Lemma PGROUNDUP_aligned n : 0 ≤ n → (n + 1) * PGSIZE ≤ 2 ^ 64 →
  PGROUNDUP (n * PGSIZE) = n * PGSIZE.
Proof.
  intros. rewrite PGROUNDUP_eq by (unfold PGSIZE in *; lia). f_equal.
  unfold PGSIZE. symmetry. apply (Z.div_unique _ _ _ (4096 - 1)); lia.
Qed.

Lemma PX_eq l va : 0 ≤ l → PX l va = va / 2 ^ (12 + 9 * l) mod 512.
Proof.
  intros. unfold PX, PXSHIFT, PXMASK, PGSHIFT. change 0x1FF with (Z.ones 9).
  rewrite Z.land_ones, Z.shiftr_div_pow2 by lia. done.
Qed.

Lemma PX_range l va : 0 ≤ l → 0 ≤ PX l va < 512.
Proof. intros. rewrite PX_eq by done. apply Z.mod_pos_bound. lia. Qed.

Lemma PA2PTE_eq n : 0 ≤ n < 2 ^ 52 → PA2PTE (n * PGSIZE) = n * 1024.
Proof.
  intros. unfold PA2PTE. change PGSIZE with (2 ^ 12).
  rewrite Z.shiftr_div_pow2, Z.div_mul, Z.shiftl_mul_pow2 by lia.
  apply u64_small. lia.
Qed.

Lemma PTE_FLAGS_eq x : PTE_FLAGS x = x mod 1024.
Proof. unfold PTE_FLAGS. change 0x3FF with (Z.ones 10). by rewrite Z.land_ones. Qed.

Lemma PTE_FLAGS_range x : 0 ≤ PTE_FLAGS x < 1024.
Proof. rewrite PTE_FLAGS_eq. apply Z.mod_pos_bound. lia. Qed.

Lemma shiftr_flags fl : 0 ≤ fl < 1024 → Z.shiftr fl 10 = 0.
Proof. intros. rewrite Z.shiftr_div_pow2 by lia. apply Z.div_small. lia. Qed.

(** Encoding a physical page and its flags, then decoding, is the identity. *)
Lemma PTE2PA_mkpte n fl : 0 ≤ n < 2 ^ 52 → 0 ≤ fl < 1024 →
  PTE2PA (Z.lor (PA2PTE (n * PGSIZE)) fl) = n * PGSIZE.
Proof.
  intros. rewrite PA2PTE_eq by lia. unfold PTE2PA.
  rewrite Z.shiftr_lor, (shiftr_flags fl), Z.lor_0_r by lia.
  rewrite Z.shiftr_div_pow2 by lia. change 1024 with (2 ^ 10).
  rewrite Z.div_mul, Z.shiftl_mul_pow2 by lia.
  unfold PGSIZE. apply u64_small. lia.
Qed.

Lemma PTE_FLAGS_mkpte n fl : 0 ≤ n < 2 ^ 52 → 0 ≤ fl < 1024 →
  PTE_FLAGS (Z.lor (PA2PTE (n * PGSIZE)) fl) = fl.
Proof.
  intros. rewrite PA2PTE_eq by lia. unfold PTE_FLAGS.
  rewrite Z.land_lor_distr_l. change 0x3FF with (Z.ones 10).
  rewrite !Z.land_ones by lia. change 1024 with (2 ^ 10).
  rewrite Z.mod_mul, Z.lor_0_l by lia. apply Z.mod_small. lia.
Qed.

Lemma lor_flags n fl : 0 ≤ fl < 1024 → Z.lor (n * 1024) fl = n * 1024 + fl.
Proof.
  intros. symmetry. apply Z.add_nocarry_lor. change 1024 with (2 ^ 10).
  rewrite <- Z.shiftl_mul_pow2 by lia.
  rewrite <- (Z.mod_small fl (2 ^ 10)), <- Z.land_ones by lia.
  rewrite (Z.land_comm fl), Z.land_assoc.
  assert (Z.land (Z.shiftl n 10) (Z.ones 10) = 0) as ->; [|done].
  rewrite Z.land_ones, Z.shiftl_mul_pow2 by lia. by apply Z.mod_mul.
Qed.

Lemma mkpte_range n fl : 0 ≤ n < 2 ^ 52 → 0 ≤ fl < 1024 →
  0 ≤ Z.lor (PA2PTE (n * PGSIZE)) fl < 2 ^ 64.
Proof. intros. rewrite PA2PTE_eq, lor_flags by lia. lia. Qed.

(** ** Flag bits *)

Lemma has_pow2 x k : 0 ≤ k → has x (2 ^ k) = Z.testbit x k.
Proof.
  intros Hk. unfold has. destruct (Z.testbit x k) eqn:Hb.
  - apply negb_true_iff, Z.eqb_neq. intros E.
    assert (Z.testbit (Z.land x (2 ^ k)) k = true) as Hc.
    { rewrite Z.land_spec, Hb, Z.pow2_bits_true by lia. done. }
    rewrite E, Z.bits_0 in Hc. done.
  - apply negb_false_iff, Z.eqb_eq. apply Z.bits_inj'. intros i Hi.
    rewrite Z.land_spec, Z.bits_0, Z.pow2_bits_eqb by lia.
    destruct (Z.eqb_spec k i) as [->|]; [by rewrite Hb|apply andb_false_r].
Qed.

Lemma has_V x : has x PTE_V = Z.testbit x 0.
Proof. by apply (has_pow2 x 0). Qed.
Lemma has_R x : has x PTE_R = Z.testbit x 1.
Proof. by apply (has_pow2 x 1). Qed.
Lemma has_W x : has x PTE_W = Z.testbit x 2.
Proof. by apply (has_pow2 x 2). Qed.
Lemma has_X x : has x PTE_X = Z.testbit x 3.
Proof. by apply (has_pow2 x 3). Qed.
Lemma has_U x : has x PTE_U = Z.testbit x 4.
Proof. by apply (has_pow2 x 4). Qed.
Lemma has_COW x : has x PTE_COW = Z.testbit x 8.
Proof. by apply (has_pow2 x 8). Qed.
