(* ===== verification/Memory.v ===== *)
(** Byte-addressed physical memory, the 64-bit loads and stores the kernel
    makes, and the memory and string routines of kernel/string.c on it. *)
From S2P Require Import Prelude Riscv.

(** ** Definitions *)

(** RAM as a finite map from addresses to bytes; a byte never written reads
    as 0.  Theorems quantify over all contents. *)
Abbreviation mem := (gmap Z Z).

Definition ld8 (m : mem) (a : Z) : Z := u8 (default 0 (m !! a)).
Definition st8 (m : mem) (a v : Z) : mem := <[a := u8 v]> m.

(** Little-endian loads and stores of [n] bytes. *)
Fixpoint ldn (n : nat) (m : mem) (a : Z) : Z :=
  match n with
  | O => 0
  | S n' => ld8 m a + 256 * ldn n' m (a + 1)
  end.
Fixpoint stn (n : nat) (m : mem) (a v : Z) : mem :=
  match n with
  | O => m
  | S n' => stn n' (st8 m a v) (a + 1) (v / 256)
  end.
Definition ld64 : mem → Z → Z := ldn 8.
Definition st64 : mem → Z → Z → mem := stn 8.
Definition ld32 : mem → Z → Z := ldn 4.
Definition st32 : mem → Z → Z → mem := stn 4.

(** The bytes at [a .. a+n-1]. *)
Definition bytes_at (m : mem) (a : Z) (n : nat) : list Z :=
  (λ i, ld8 m (a + Z.of_nat i)) <$> seq 0 n.

(** *** kernel/string.c *)

Fixpoint memset_loop (m : mem) (cdst c i : Z) (k : nat) : mem :=
  match k with
  | O => m
  | S k' => memset_loop (st8 m (cdst + i) c) cdst c (i + 1) k'
  end.
Definition memset (m : mem) (dst c n : Z) : mem :=
  memset_loop m dst c 0 (Z.to_nat n).

Fixpoint memcmp_loop (m : mem) (s1 s2 : Z) (k : nat) : Z :=
  match k with
  | O => 0
  | S k' => if ld8 m s1 =? ld8 m s2 then memcmp_loop m (s1 + 1) (s2 + 1) k'
            else ld8 m s1 - ld8 m s2
  end.
Definition memcmp (m : mem) (v1 v2 n : Z) : Z := memcmp_loop m v1 v2 (Z.to_nat n).

(** [*--d = *--s] and [*d++ = *s++], [k] times. *)
Fixpoint copy_down (m : mem) (d s : Z) (k : nat) : mem :=
  match k with
  | O => m
  | S k' => copy_down (st8 m (d - 1) (ld8 m (s - 1))) (d - 1) (s - 1) k'
  end.
Fixpoint copy_up (m : mem) (d s : Z) (k : nat) : mem :=
  match k with
  | O => m
  | S k' => copy_up (st8 m d (ld8 m s)) (d + 1) (s + 1) k'
  end.
Definition memmove (m : mem) (dst src n : Z) : mem :=
  if n =? 0 then m
  else if (src <? dst) && (dst <? src + n) then
    copy_down m (dst + n) (src + n) (Z.to_nat n)
  else copy_up m dst src (Z.to_nat n).

Definition memcpy (m : mem) (dst src n : Z) : mem := memmove m dst src n.

Fixpoint strncmp_loop (m : mem) (p q : Z) (k : nat) : Z :=
  match k with
  | O => 0
  | S k' => if negb (ld8 m p =? 0) && (ld8 m p =? ld8 m q)
            then strncmp_loop m (p + 1) (q + 1) k'
            else ld8 m p - ld8 m q
  end.
Definition strncmp (m : mem) (p q n : Z) : Z := strncmp_loop m p q (Z.to_nat n).

Fixpoint zero_fill (m : mem) (s : Z) (k : nat) : mem :=
  match k with
  | O => m
  | S k' => zero_fill (st8 m s 0) (s + 1) k'
  end.
Fixpoint strncpy_loop (m : mem) (s t : Z) (k : nat) : mem :=
  match k with
  | O => m
  | S k' => let c := ld8 m t in
            let m' := st8 m s c in
            if c =? 0 then zero_fill m' (s + 1) k'
            else strncpy_loop m' (s + 1) (t + 1) k'
  end.
Definition strncpy (m : mem) (s t n : Z) : mem := strncpy_loop m s t (Z.to_nat n).

Fixpoint safestrcpy_loop (m : mem) (s t : Z) (k : nat) : mem :=
  match k with
  | O => st8 m s 0
  | S k' => let c := ld8 m t in
            let m' := st8 m s c in
            if c =? 0 then st8 m' (s + 1) 0
            else safestrcpy_loop m' (s + 1) (t + 1) k'
  end.
Definition safestrcpy (m : mem) (s t n : Z) : mem :=
  if n <=? 0 then m else safestrcpy_loop m s t (Z.to_nat (n - 1)).

(** [strlen] scans to the first NUL; [fuel] bounds the scan. *)
Fixpoint strlen_loop (m : mem) (s n : Z) (fuel : nat) : option Z :=
  match fuel with
  | O => None
  | S f => if ld8 m (s + n) =? 0 then Some n else strlen_loop m s (n + 1) f
  end.
Definition strlen (fuel : nat) (m : mem) (s : Z) : option Z := strlen_loop m s 0 fuel.

Arguments memset : simpl never.
Arguments memmove : simpl never.
Arguments ld64 : simpl never.
Arguments st64 : simpl never.

(** ** Loads after stores *)

Lemma ld8_range m a : 0 ≤ ld8 m a < 256.
Proof. apply (u8_range _). Qed.

Lemma u8_idemp v : u8 (u8 v) = u8 v.
Proof. apply u8_small, u8_range. Qed.

Lemma u8_ld8 m a : u8 (ld8 m a) = ld8 m a.
Proof. apply u8_idemp. Qed.

Lemma ld8_st8 m a b v : ld8 (st8 m a v) b = if decide (a = b) then u8 v else ld8 m b.
Proof.
  unfold ld8, st8. rewrite lookup_insert. case_decide; simpl; [|done].
  apply u8_idemp.
Qed.
Lemma ld8_st8_eq m a v : ld8 (st8 m a v) a = u8 v.
Proof. rewrite ld8_st8. by rewrite decide_True. Qed.
Lemma ld8_st8_ne m a b v : a ≠ b → ld8 (st8 m a v) b = ld8 m b.
Proof. intros. rewrite ld8_st8. by rewrite decide_False. Qed.

Lemma ldn_ext n m m' a :
  (∀ b, a ≤ b < a + Z.of_nat n → ld8 m' b = ld8 m b) → ldn n m' a = ldn n m a.
Proof.
  revert a. induction n as [|n IH]; intros a Heq; simpl; [done|].
  rewrite Heq by lia. rewrite (IH (a + 1)); [done|]. intros. apply Heq. lia.
Qed.

Lemma ldn_range n m a : 0 ≤ ldn n m a < 256 ^ Z.of_nat n.
Proof.
  revert a. induction n as [|n IH]; intros a; simpl ldn.
  - simpl. lia.
  - rewrite Nat2Z.inj_succ, Z.pow_succ_r by lia.
    pose proof (ld8_range m a). specialize (IH (a + 1)). nia.
Qed.

Lemma ld8_stn_out n m a v b :
  ¬ (a ≤ b < a + Z.of_nat n) → ld8 (stn n m a v) b = ld8 m b.
Proof.
  revert m a v. induction n as [|n IH]; intros m a v Hb; simpl; [done|].
  rewrite IH by lia. apply ld8_st8_ne. lia.
Qed.

Lemma ldn_stn_same n m a v : ldn n (stn n m a v) a = v mod 256 ^ Z.of_nat n.
Proof.
  revert m a v. induction n as [|n IH]; intros m a v; simpl ldn.
  - simpl. by rewrite Z.mod_1_r.
  - simpl stn. rewrite IH, ld8_stn_out, ld8_st8_eq by lia.
    rewrite Nat2Z.inj_succ, Z.pow_succ_r by lia.
    unfold u8. change (2 ^ 8) with 256.
    rewrite Z.rem_mul_r by lia. done.
Qed.

Lemma ldn_stn_disjoint n k m a b v :
  b + Z.of_nat k ≤ a ∨ a + Z.of_nat n ≤ b → ldn k (stn n m a v) b = ldn k m b.
Proof. intros. apply ldn_ext. intros. apply ld8_stn_out. lia. Qed.

Lemma st8_stn_comm n m a b v y : b < a → st8 (stn n m a v) b y = stn n (st8 m b y) a v.
Proof.
  revert m a v. induction n as [|n IH]; intros m a v Hb; simpl; [done|].
  rewrite IH by lia. f_equal. apply insert_insert_ne. lia.
Qed.

Lemma stn_twice n m a x y : stn n (stn n m a x) a y = stn n m a y.
Proof.
  revert m a x y. induction n as [|n IH]; intros m a x y; simpl; [done|].
  rewrite st8_stn_comm by lia. rewrite IH. f_equal. apply insert_insert_eq.
Qed.

Lemma st64_twice m a x y : st64 (st64 m a x) a y = st64 m a y.
Proof. apply stn_twice. Qed.

Lemma ld64_st64_same m a v : 0 ≤ v < 2 ^ 64 → ld64 (st64 m a v) a = v.
Proof. intros. unfold ld64, st64. rewrite ldn_stn_same. by apply Z.mod_small. Qed.
Lemma ld64_st64_disjoint m a b v : b + 8 ≤ a ∨ a + 8 ≤ b → ld64 (st64 m a v) b = ld64 m b.
Proof. intros. by apply ldn_stn_disjoint. Qed.
Lemma ld64_range m a : 0 ≤ ld64 m a < 2 ^ 64.
Proof. apply (ldn_range 8). Qed.
Lemma ld64_ext m m' a : (∀ b, a ≤ b < a + 8 → ld8 m' b = ld8 m b) → ld64 m' a = ld64 m a.
Proof. apply (ldn_ext 8). Qed.
Lemma ld8_st64_out m a v b : ¬ (a ≤ b < a + 8) → ld8 (st64 m a v) b = ld8 m b.
Proof. apply (ld8_stn_out 8). Qed.

(** ** [memset] and [memmove] *)

Lemma ld8_memset_loop m d c i k a : 
  ld8 (memset_loop m d c i k) a =
  if decide (d + i ≤ a < d + i + Z.of_nat k) then u8 c else ld8 m a.
Proof.
  revert m i. induction k as [|k IH]; intros m i; simpl.
  - rewrite decide_False by lia. done.
  - rewrite IH, ld8_st8. repeat case_decide; first [done | lia].
Qed.

Lemma ld8_memset m d c n a :
  ld8 (memset m d c n) a = if decide (d ≤ a < d + n) then u8 c else ld8 m a.
Proof.
  unfold memset. rewrite ld8_memset_loop.
  repeat case_decide; first [done | lia].
Qed.

Lemma ld64_memset_zero m d n a : d ≤ a → a + 8 ≤ d + n → ld64 (memset m d 0 n) a = 0.
Proof.
  intros. unfold ld64. simpl ldn. rewrite !ld8_memset.
  rewrite !decide_True by lia. done.
Qed.

Lemma ld8_copy_up m d s k a : (d ≤ s ∨ s + Z.of_nat k ≤ d) →
  ld8 (copy_up m d s k) a =
  if decide (d ≤ a < d + Z.of_nat k) then ld8 m (s + (a - d)) else ld8 m a.
Proof.
  revert m d s. induction k as [|k IH]; intros m d s Hds; simpl.
  - rewrite decide_False by lia. done.
  - rewrite IH by lia. rewrite !ld8_st8, u8_ld8.
    repeat case_decide; try lia; try done; f_equal; lia.
Qed.

Lemma ld8_copy_down m d s k a : s ≤ d →
  ld8 (copy_down m d s k) a =
  if decide (d - Z.of_nat k ≤ a < d) then ld8 m (s + (a - d)) else ld8 m a.
Proof.
  revert m d s. induction k as [|k IH]; intros m d s Hds; simpl.
  - rewrite decide_False by lia. done.
  - rewrite IH by lia. rewrite !ld8_st8, u8_ld8.
    repeat case_decide; try lia; try done; f_equal; lia.
Qed.

(** [memmove] behaves as if it read the whole source before it wrote,
    however the two ranges overlap. *)
Lemma ld8_memmove m d s n a : 0 ≤ n →
  ld8 (memmove m d s n) a = if decide (d ≤ a < d + n) then ld8 m (s + (a - d)) else ld8 m a.
Proof.
  intros Hn. unfold memmove. destruct (n =? 0) eqn:E0; bool_prop.
  { rewrite decide_False by lia. done. }
  destruct ((s <? d) && (d <? s + n))%bool eqn:E; bool_prop.
  - rewrite ld8_copy_down by lia.
    repeat case_decide; try lia; try done; f_equal; lia.
  - apply andb_false_iff in E. rewrite ld8_copy_up by (destruct E; bool_prop; lia).
    repeat case_decide; try lia; done.
Qed.

(** ** Pages *)

(** [m'] differs from [m] only inside page [p] (an address, page aligned). *)
Definition mem_frame (p : Z) (m m' : mem) : Prop :=
  ∀ a, ¬ (p ≤ a < p + PGSIZE) → ld8 m' a = ld8 m a.

Lemma mem_frame_refl p m : mem_frame p m m.
Proof. done. Qed.
Lemma mem_frame_trans p m1 m2 m3 :
  mem_frame p m1 m2 → mem_frame p m2 m3 → mem_frame p m1 m3.
Proof. unfold mem_frame. intros H1 H2 a Ha. by rewrite H2, H1. Qed.
Lemma mem_frame_memset p m c : mem_frame p m (memset m p c PGSIZE).
Proof. intros a Ha. rewrite ld8_memset. by rewrite decide_False. Qed.
Lemma mem_frame_st64 p m a v : p ≤ a → a + 8 ≤ p + PGSIZE → mem_frame p m (st64 m a v).
Proof. intros ?? b Hb. apply ld8_st64_out. lia. Qed.
Lemma mem_frame_memmove p m d s n : 0 ≤ n → p ≤ d → d + n ≤ p + PGSIZE →
  mem_frame p m (memmove m d s n).
Proof. intros ??? b Hb. rewrite ld8_memmove by done. rewrite decide_False; [done|lia]. Qed.

Lemma mem_frame_ld64 p m m' a : mem_frame p m m' →
  a + 8 ≤ p ∨ p + PGSIZE ≤ a → ld64 m' a = ld64 m a.
Proof. intros Hf Ha. apply ld64_ext. intros b Hb. apply Hf. lia. Qed.

(** From here on these are used through their lemmas. *)
Global Opaque memset memmove ld64 st64.

Create HintDb memf.
#[export] Hint Resolve mem_frame_refl mem_frame_memset mem_frame_st64 : memf.
