(* ===== verification/Kalloc.v ===== *)
(** kernel/kalloc.c: the physical page allocator with the per-page reference
    counts that copy-on-write fork relies on.

    The free list is the code's: a chain of page addresses threaded through
    the first word of the free pages, in [ram].  Its two spinlocks are kept
    as held/free flags: on one hart, acquiring a lock already held panics
    and releasing one not held panics (kernel/spinlock.c), and a section
    between acquire and release is not interleaved with another.  [kinit] puts
    every page of physical memory above the kernel on the free list. *)
From S2P Require Import Prelude Riscv Memory.

(** ** Definitions *)

(** Addresses the linker script and trampoline.S define. *)
Class Layout := {
  kend : Z;        (* [end]: first address after the kernel *)
  etext : Z;
  trampoline : Z
}.

Class LayoutOk `{L : Layout} : Prop := {
  kend_range : KERNBASE ≤ kend ≤ PHYSTOP;
  trampoline_aligned : trampoline mod PGSIZE = 0;
  trampoline_range : KERNBASE ≤ trampoline ∧ trampoline + PGSIZE ≤ kend
}.

(** [kmem], [ref_page_lock], [reference_counter] and the RAM. *)
Record kst := KSt {
  kmem_lock : bool;
  ref_page_lock : bool;
  freelist : Z;
  reference_counter : gmap Z Z;
  ram : mem
}.

Definition set_kmem_lock (b : bool) (s : kst) : kst :=
  KSt b (ref_page_lock s) (freelist s) (reference_counter s) (ram s).
Definition set_ref_lock (b : bool) (s : kst) : kst :=
  KSt (kmem_lock s) b (freelist s) (reference_counter s) (ram s).
Definition set_freelist (f : Z) (s : kst) : kst :=
  KSt (kmem_lock s) (ref_page_lock s) f (reference_counter s) (ram s).
Definition set_refs (r : gmap Z Z) (s : kst) : kst :=
  KSt (kmem_lock s) (ref_page_lock s) (freelist s) r (ram s).
Definition set_ram (m : mem) (s : kst) : kst :=
  KSt (kmem_lock s) (ref_page_lock s) (freelist s) (reference_counter s) m.

Definition acquire_kmem : M kst unit := λ s,
  if kmem_lock s then Panic "acquire" else Ok (tt, set_kmem_lock true s).
Definition release_kmem : M kst unit := λ s,
  if kmem_lock s then Ok (tt, set_kmem_lock false s) else Panic "release".
Definition acquire_ref : M kst unit := λ s,
  if ref_page_lock s then Panic "acquire" else Ok (tt, set_ref_lock true s).
Definition release_ref : M kst unit := λ s,
  if ref_page_lock s then Ok (tt, set_ref_lock false s) else Panic "release".

(** [reference_counter[pa/PGSIZE]] *)
Definition refcount (s : kst) (pa : Z) : Z := default 0 (reference_counter s !! page_of pa).
Definition get_ref (pa : Z) : M kst Z := gets (λ s, refcount s pa).
Definition put_ref (pa v : Z) : M kst unit :=
  modify (λ s, set_refs (<[page_of pa := v]> (reference_counter s)) s).

Definition update_ram (f : mem → mem) : M kst unit := modify (λ s, set_ram (f (ram s)) s).
Definition load64 (a : Z) : M kst Z := gets (λ s, ld64 (ram s) a).
Definition store64 (a v : Z) : M kst unit := update_ram (λ m, st64 m a v).

Section kalloc.
Context `{L : Layout}.

Definition kfree (pa : Z) : M kst unit :=
  if negb (pa mod PGSIZE =? 0) || (pa <? kend) || (PHYSTOP <=? pa) then panic "kfree"
  else
    acquire_ref;;
    c0 ← get_ref pa;
    (if c0 <=? 0 then panic "decrementing freed page" else mret tt);;
    release_ref;;
    acquire_ref;;
    c ← get_ref pa;
    if c =? 1 then
      put_ref pa 0;;
      release_ref;;
      update_ram (λ m, memset m pa 1 PGSIZE);;
      acquire_kmem;;
      f ← gets freelist;
      store64 pa f;;
      modify (set_freelist pa);;
      release_kmem
    else if c >? 1 then
      put_ref pa (c - 1);;
      release_ref
    else mret tt.

Definition kalloc : M kst Z :=
  acquire_kmem;;
  r ← gets freelist;
  (if r =? 0 then mret tt
   else n ← load64 r; modify (set_freelist n));;
  release_kmem;;
  if r =? 0 then mret r
  else
    update_ram (λ m, memset m r 5 PGSIZE);;
    acquire_ref;;
    put_ref r 1;;
    release_ref;;
    mret r.

(** [for(; p + PGSIZE <= pa_end; p += PGSIZE) kfree(p);] *)
Definition freerange (pa_start pa_end : Z) : M kst unit :=
  let p0 := PGROUNDUP pa_start in
  foreach (λ i, kfree (p0 + i * PGSIZE)) (seqZ 0 ((pa_end - p0) / PGSIZE)).

Definition kinit : M kst unit :=
  modify (set_kmem_lock false);;
  modify (set_ref_lock false);;
  foreach (λ i, acquire_ref;;
                modify (λ s, set_refs (<[i := 1]> (reference_counter s)) s);;
                release_ref)
          (seqZ 0 (PHYSTOP / PGSIZE));;
  freerange kend PHYSTOP.

(** *** Invariant *)

(** A page the allocator may hand out. *)
Definition vpage (p : Z) : Prop := p mod PGSIZE = 0 ∧ kend ≤ p ∧ p < PHYSTOP.

(** All of them. *)
Definition first_page : Z := (kend + PGSIZE - 1) / PGSIZE.
Definition npages : Z := PHYSTOP / PGSIZE - first_page.
Definition pages : list Z := (λ i, i * PGSIZE) <$> seqZ first_page npages.

(** [freelist] heads a chain through exactly the pages [l]. *)
Fixpoint fl_rep (m : mem) (head : Z) (l : list Z) : Prop :=
  match l with
  | [] => head = 0
  | p :: l' => head = p ∧ fl_rep m (ld64 m p) l'
  end.

Global Instance fl_rep_dec m h l : Decision (fl_rep m h l).
Proof. revert h. induction l as [|p l IH]; intros h; simpl; apply _. Defined.

(** The allocator's invariant: the free list is a duplicate-free chain of
    valid pages, and a page has count 0 exactly when it is on the list. *)
Definition kinv (s : kst) (fl : list Z) : Prop :=
  kmem_lock s = false ∧ ref_page_lock s = false ∧
  fl_rep (ram s) (freelist s) fl ∧ NoDup fl ∧ Forall (λ p, p ∈ pages) fl ∧
  Forall (λ p, 0 ≤ refcount s p ∧ (refcount s p = 0 ↔ p ∈ fl)) pages.
End kalloc.

(** ** Lemmas *)

Lemma wp_acquire_kmem s (Q : unit → kst → Prop) :
  kmem_lock s = false → Q tt (set_kmem_lock true s) → wp acquire_kmem s Q.
Proof. unfold wp, acquire_kmem. by intros ->. Qed.
Lemma wp_release_kmem s (Q : unit → kst → Prop) :
  kmem_lock s = true → Q tt (set_kmem_lock false s) → wp release_kmem s Q.
Proof. unfold wp, release_kmem. by intros ->. Qed.
Lemma wp_acquire_ref s (Q : unit → kst → Prop) :
  ref_page_lock s = false → Q tt (set_ref_lock true s) → wp acquire_ref s Q.
Proof. unfold wp, acquire_ref. by intros ->. Qed.
Lemma wp_release_ref s (Q : unit → kst → Prop) :
  ref_page_lock s = true → Q tt (set_ref_lock false s) → wp release_ref s Q.
Proof. unfold wp, release_ref. by intros ->. Qed.

Ltac kst_simpl :=
  cbn [kmem_lock ref_page_lock freelist reference_counter ram
       set_kmem_lock set_ref_lock set_freelist set_refs set_ram].

(** One step of allocator code. *)
Ltac k_step :=
  lazymatch goal with
  | |- wp acquire_kmem _ _ => apply wp_acquire_kmem; [reflexivity|]
  | |- wp release_kmem _ _ => apply wp_release_kmem; [reflexivity|]
  | |- wp acquire_ref _ _ => apply wp_acquire_ref; [reflexivity|]
  | |- wp release_ref _ _ => apply wp_release_ref; [reflexivity|]
  | |- wp (get_ref _) _ _ => unfold get_ref
  | |- wp (put_ref _ _) _ _ => unfold put_ref
  | |- wp (load64 _) _ _ => unfold load64
  | |- wp (store64 _ _) _ _ => unfold store64
  | |- wp (update_ram _) _ _ => unfold update_ram
  | _ => wp_step
  end; kst_simpl.
Ltac k_steps := repeat k_step.

Section kalloc_lemmas.
Context `{L : Layout} `{!LayoutOk}.

Lemma elem_of_pages p : p ∈ pages ↔ vpage p.
Proof.
  unfold pages, vpage, npages, first_page. rewrite list_elem_of_fmap.
  setoid_rewrite elem_of_seqZ. pose proof kend_range as Hk.
  unfold PHYSTOP, KERNBASE, PGSIZE in *. split.
  - intros (i & -> & Hi). rewrite Z.mod_mul by lia. div_lia.
  - intros (Hm & Hlo & Hhi). exists (p / 4096). div_lia.
Qed.

Lemma vpage_eq p : vpage p → ∃ n, p = n * PGSIZE ∧ 0 ≤ n < 2 ^ 20.
Proof.
  intros (Hm & Hlo & Hhi). pose proof kend_range. exists (p / PGSIZE).
  unfold PHYSTOP, KERNBASE, PGSIZE in *. div_lia.
Qed.

Lemma vpage_pos p : vpage p → 0 < p ∧ p < 2 ^ 56.
Proof. intros (_ & Hlo & Hhi). pose proof kend_range. unfold PHYSTOP, KERNBASE in *. lia. Qed.

(** Two valid pages are equal or do not overlap. *)
Lemma vpage_disjoint p q : vpage p → vpage q → p ≠ q → p + PGSIZE ≤ q ∨ q + PGSIZE ≤ p.
Proof.
  intros (n & -> & Hn)%vpage_eq (k & -> & Hk)%vpage_eq Hne.
  unfold PGSIZE in *. lia.
Qed.

Lemma page_of_inj p q : vpage p → vpage q → page_of p = page_of q → p = q.
Proof.
  intros (n & -> & Hn)%vpage_eq (k & -> & Hk)%vpage_eq. unfold page_of.
  rewrite !Z.div_mul by done. by intros ->.
Qed.

Lemma refcount_put s p q v : vpage p → vpage q →
  refcount (set_refs (<[page_of p := v]> (reference_counter s)) s) q =
  if decide (p = q) then v else refcount s q.
Proof.
  intros Hp Hq. unfold refcount; simpl. rewrite lookup_insert.
  destruct (decide (page_of p = page_of q)) as [E|E].
  - apply page_of_inj in E; [|done..]. by rewrite decide_True.
  - rewrite decide_False; [done|congruence].
Qed.

(** The chain only depends on the first word of the pages on it. *)
Lemma fl_rep_ext m m' h l :
  Forall (λ p, ld64 m' p = ld64 m p) l → fl_rep m h l → fl_rep m' h l.
Proof.
  intros Hl. revert h. induction Hl as [|p l Hp Hl IH]; intros h; simpl; [done|].
  intros [-> Hrep]. split; [done|]. rewrite Hp. by apply IH.
Qed.

Lemma fl_rep_frame m m' q h l :
  mem_frame q m m' → vpage q → Forall vpage l → q ∉ l → fl_rep m h l → fl_rep m' h l.
Proof.
  intros Hf Hq Hl Hni. apply fl_rep_ext. rewrite Forall_forall in *. intros p Hp.
  apply (mem_frame_ld64 q); [done|].
  destruct (vpage_disjoint p q); [by apply Hl|done|by intros ->|..]; unfold PGSIZE in *; lia.
Qed.

(** ** Consequences of the invariant *)

Lemma kinv_vpages s fl : kinv s fl → Forall vpage fl.
Proof.
  intros (_ & _ & _ & _ & Hp & _). eapply Forall_impl; [done|]. intros p. apply elem_of_pages.
Qed.

Lemma kinv_ref s fl p : kinv s fl → vpage p →
  0 ≤ refcount s p ∧ (refcount s p = 0 ↔ p ∈ fl).
Proof.
  intros (_ & _ & _ & _ & _ & Hr) Hp. rewrite Forall_forall in Hr.
  by apply Hr, elem_of_pages.
Qed.

Lemma kinv_ref_pos s fl p : kinv s fl → vpage p → 0 < refcount s p → p ∉ fl.
Proof. intros Hk Hp Hr Hin. apply (kinv_ref s) in Hin; [lia|done..]. Qed.

(** A write inside an allocated page keeps the invariant. *)
Lemma kinv_frame s fl q m' :
  kinv s fl → vpage q → 0 < refcount s q → mem_frame q (ram s) m' → kinv (set_ram m' s) fl.
Proof.
  intros Hk Hq Hr Hf. pose proof (kinv_ref_pos _ _ _ Hk Hq Hr) as Hni.
  pose proof (kinv_vpages _ _ Hk). destruct Hk as (?&?&?&?&?&?).
  repeat split; try done. by eapply fl_rep_frame.
Qed.

(** Changing the count of an allocated page to another positive number. *)
Lemma kinv_put s fl q v :
  kinv s fl → vpage q → 0 < refcount s q → 0 < v →
  kinv (set_refs (<[page_of q := v]> (reference_counter s)) s) fl.
Proof.
  intros Hk Hq Hr Hv. pose proof (kinv_ref_pos _ _ _ Hk Hq Hr) as Hni.
  destruct Hk as (?&?&?&?&?&Hrs). repeat split; try done.
  rewrite Forall_forall in *. intros p Hp. specialize (Hrs p Hp).
  rewrite refcount_put by (try done; by apply elem_of_pages).
  case_decide as E; [|done]. subst p. split; [lia|]. split; [lia|done].
Qed.

(** ** Specifications *)

(** [kalloc] with an empty list returns 0 and changes nothing. *)
Lemma kalloc_empty s (Q : Z → kst → Prop) :
  kinv s [] → Q 0 s → wp kalloc s Q.
Proof.
  intros (Hl & Hr & Hf & _) HQ. simpl in Hf. destruct s as [kl rl f rc m]; simpl in *; subst.
  unfold kalloc. k_steps. exact HQ.
Qed.

(** What a successful [kalloc] guarantees. *)
Definition kalloc_post (s : kst) (p : Z) (s' : kst) : Prop :=
  mem_frame p (ram s) (ram s') ∧
  reference_counter s' = <[page_of p := 1]> (reference_counter s) ∧
  ∀ a, p ≤ a < p + PGSIZE → ld8 (ram s') a = 5.

Lemma kalloc_cons s p fl :
  kinv s (p :: fl) → wp kalloc s (λ r s', r = p ∧ kinv s' fl ∧ kalloc_post s p s').
Proof.
  intros Hk. pose proof (kinv_vpages _ _ Hk) as Hv. apply Forall_cons in Hv as [Hp Hv].
  destruct Hk as (Hl & Hr & [Hf Hrep] & Hnd & Hin & Hrc). apply NoDup_cons in Hnd as [Hni Hnd].
  pose proof (vpage_pos p Hp). destruct s as [kl rl f rc m]; simpl in *; subst.
  assert (mem_frame p m (memset m p 5 PGSIZE)) as Hfr by apply mem_frame_memset.
  unfold kalloc. k_steps. rewrite (proj2 (Z.eqb_neq p 0)) by lia. k_steps.
  split; [done|]. unfold kinv, kalloc_post; kst_simpl.
  split; [|split; [done|split; [done|]]].
  - split; [done|split; [done|split; [by eapply fl_rep_frame|split; [done|split]]]].
    + by apply Forall_cons in Hin as [_ Hin].
    + rewrite Forall_forall in *. intros q Hq. specialize (Hrc q Hq).
      pose proof (refcount_put (KSt false false p rc m) p q 1 Hp (proj1 (elem_of_pages q) Hq)) as E.
      unfold refcount in *; cbn in E, Hrc |- *. rewrite E. case_decide as Hpq.
      * subst q. split; [lia|]. split; [lia|done].
      * rewrite elem_of_cons in Hrc. destruct Hrc as [Hrc0 Hrc]. split; [done|].
        rewrite Hrc. split; [intros [?|?]; congruence|auto].
  - intros a Ha. rewrite ld8_memset. by rewrite decide_True.
Qed.

(** The guard of [kfree] passes on a valid page. *)
Lemma kfree_guard p : vpage p →
  negb (p mod PGSIZE =? 0) || (p <? kend) || (PHYSTOP <=? p) = false.
Proof.
  intros (Hm & Hlo & Hhi). rewrite Hm, (proj2 (Z.ltb_ge _ _)), (proj2 (Z.leb_gt _ _)) by lia.
  done.
Qed.

(** [kfree] of a shared page drops one reference and nothing else. *)
Lemma kfree_shared s fl p :
  kinv s fl → vpage p → 1 < refcount s p →
  wp (kfree p) s (λ _ s', kinv s' fl ∧
    s' = set_refs (<[page_of p := refcount s p - 1]> (reference_counter s)) s).
Proof.
  intros Hk Hp Hr. pose proof Hk as (Hl & Hrl & _).
  pose proof (kinv_put s fl p (refcount s p - 1) Hk Hp ltac:(lia) ltac:(lia)) as Hk'.
  destruct s as [kl rl f rc m]; simpl in *; subst.
  unfold kfree. rewrite kfree_guard by done. k_steps.
  unfold refcount in *; cbn [reference_counter] in Hr; kst_simpl.
  rewrite (proj2 (Z.leb_gt _ 0)) by lia. k_steps.
  rewrite (proj2 (Z.eqb_neq _ 1)), Z.gtb_ltb, (proj2 (Z.ltb_lt 1 _)) by lia. k_steps. done.
Qed.

(** [kfree] of a page with one reference puts it at the head of the list. *)
Lemma kfree_last s fl p :
  kinv s fl → vpage p → refcount s p = 1 →
  wp (kfree p) s (λ _ s', kinv s' (p :: fl) ∧ mem_frame p (ram s) (ram s') ∧
    reference_counter s' = <[page_of p := 0]> (reference_counter s)).
Proof.
  intros Hk Hp Hr. pose proof (kinv_vpages _ _ Hk) as Hv.
  pose proof (kinv_ref_pos _ _ _ Hk Hp ltac:(lia)) as Hni.
  pose proof Hk as (Hl & Hrl & Hrep & Hnd & Hin & Hrc). pose proof (vpage_pos p Hp).
  destruct s as [kl rl f rc m]; simpl in *; subst.
  unfold kfree. rewrite kfree_guard by done. k_steps.
  unfold refcount in Hr |- *; cbn [reference_counter] in Hr; kst_simpl. rewrite !Hr.
  change (1 <=? 0) with false; cbv iota. k_steps.
  unfold refcount; kst_simpl. rewrite ?Hr.
  change (1 =? 1) with true; cbv iota. k_steps.
  set (m' := st64 (memset m p 1 PGSIZE) p f).
  assert (mem_frame p m m') as Hfr.
  { eapply mem_frame_trans; [apply mem_frame_memset|].
    apply mem_frame_st64; unfold PGSIZE; lia. }
  assert (0 ≤ f < 2 ^ 64) as Hf.
  { destruct fl as [|q fl']; simpl in Hrep; [lia|].
    destruct Hrep as [-> _]. apply Forall_cons in Hv as [Hq _]. pose proof (vpage_pos q Hq). lia. }
  split; [|done]. unfold kinv; kst_simpl.
  split; [done|split; [done|split; [|split; [|split]]]].
  - split; [done|]. unfold m'. rewrite ld64_st64_same by done. by eapply fl_rep_frame.
  - by apply NoDup_cons.
  - apply Forall_cons. split; [by apply elem_of_pages|done].
  - rewrite Forall_forall in *. intros q Hq. specialize (Hrc q Hq).
    pose proof (refcount_put (KSt false false f rc m) p q 0 Hp (proj1 (elem_of_pages q) Hq)) as E.
    unfold refcount in *; cbn in E, Hrc |- *. rewrite E. rewrite elem_of_cons.
    case_decide as Hpq; [subst q; split; [lia|split; auto]|].
    destruct Hrc as [Hrc0 Hrc]. split; [done|]. rewrite Hrc.
    split; [auto|intros [?|?]; congruence].
Qed.

(** [kfree] of a free page panics: a double free never corrupts the list. *)
Lemma kfree_free s fl p :
  kinv s fl → p ∈ fl → kfree p s = Panic "decrementing freed page".
Proof.
  intros Hk Hin. pose proof (kinv_vpages _ _ Hk) as Hv. rewrite Forall_forall in Hv.
  specialize (Hv p Hin). destruct (kinv_ref _ _ _ Hk Hv) as [_ Hr]. apply Hr in Hin. clear Hr.
  destruct Hk as (Hl & Hrl & _). destruct s as [kl rl f rc m]; simpl in *; subst.
  unfold kfree. rewrite kfree_guard by done.
  unfold mbind, M_bind, acquire_ref, release_ref, get_ref, put_ref, gets, modify; simpl.
  unfold refcount in *; simpl in *. by rewrite Hin.
Qed.
End kalloc_lemmas.

Section kinit.
Context `{L : Layout} `{!LayoutOk}.

Lemma PGROUNDUP_kend : PGROUNDUP kend = first_page * PGSIZE.
Proof.
  pose proof kend_range. unfold first_page, PHYSTOP, KERNBASE, PGSIZE in *.
  rewrite PGROUNDUP_eq by (unfold PGSIZE; lia). done.
Qed.

Lemma freerange_count : (PHYSTOP - PGROUNDUP kend) / PGSIZE = npages.
Proof.
  rewrite PGROUNDUP_kend. unfold npages, PHYSTOP, KERNBASE, PGSIZE. div_lia.
Qed.

(** All counts are 1 after the first loop. *)
Lemma kinit_counts s n : 0 ≤ n → ref_page_lock s = false →
  wp (foreach (λ i, acquire_ref;;
                modify (λ s, set_refs (<[i := 1]> (reference_counter s)) s);;
                release_ref) (seqZ 0 n)) s (λ _ s',
    (∀ i, 0 ≤ i < n → reference_counter s' !! i = Some 1) ∧
    kmem_lock s' = kmem_lock s ∧ ref_page_lock s' = false ∧ freelist s' = freelist s ∧ ram s' = ram s).
Proof.
  intros Hn Hl. eapply (wp_foreach (λ l s', (∀ i, i ∈ l → reference_counter s' !! i = Some 1) ∧
    kmem_lock s' = kmem_lock s ∧ ref_page_lock s' = false ∧ freelist s' = freelist s ∧ ram s' = ram s)).
  - split; [|done]. intros i Hi. by apply elem_of_nil in Hi.
  - intros l1 x l2 s1 _ (Hc & Hk & Hr & Hf & Hm). destruct s1 as [kl rl f rc m]; simpl in *; subst.
    k_steps. split; [|done]. intros i. rewrite elem_of_app, list_elem_of_singleton. intros Hi.
    rewrite lookup_insert. case_decide; [done|]. apply Hc. destruct Hi; [done|congruence].
  - intros s1 (Hc & Hrest). split; [|done]. intros i Hi. apply Hc, elem_of_seqZ. lia.
Qed.

(** [freerange] over pages with one reference each. *)
Lemma freerange_ok s : kinv s [] → (∀ p, vpage p → refcount s p = 1) →
  wp (freerange kend PHYSTOP) s (λ _ s', kinv s' (reverse pages)).
Proof.
  intros Hk Hone. unfold freerange. rewrite freerange_count, PGROUNDUP_kend.
  eapply (wp_foreach (λ l s', kinv s' (reverse ((λ i, first_page * PGSIZE + i * PGSIZE) <$> l)) ∧
    ∀ i, 0 ≤ i < npages → i ∉ l → refcount s' (first_page * PGSIZE + i * PGSIZE) = 1)).
  - split; [done|]. intros i Hi _. apply Hone, elem_of_pages. unfold pages.
    rewrite list_elem_of_fmap. exists (first_page + i). rewrite elem_of_seqZ. split; lia.
  - intros l1 x l2 s1 El (Hk1 & Hr1).
    assert (NoDup (seqZ 0 npages)) as Hnd by apply NoDup_seqZ. rewrite El in Hnd.
    apply NoDup_app in Hnd as (_ & Hdis & _).
    assert (x ∉ l1) as Hx by (intros Hx; apply (Hdis x Hx); left).
    assert (0 ≤ x < npages) as Hxr.
    { assert (x ∈ seqZ 0 npages) as Hin by (rewrite El, elem_of_app; right; left).
      rewrite elem_of_seqZ in Hin. lia. }
    assert (∀ i, 0 ≤ i < npages → vpage (first_page * PGSIZE + i * PGSIZE)) as Hvp.
    { intros i Hi. apply elem_of_pages. unfold pages. rewrite list_elem_of_fmap.
      exists (first_page + i). rewrite elem_of_seqZ. split; lia. }
    wp_call kfree_last; [done|by apply Hvp|by apply Hr1|].
    intros [] s2 (Hk2 & _ & Hrc). rewrite fmap_app, reverse_app. split; [done|].
    intros i Hi Hni. rewrite not_elem_of_app, list_elem_of_singleton in Hni. destruct Hni as [Hni Hne].
    specialize (Hr1 i Hi Hni). unfold refcount in *. rewrite Hrc, lookup_insert_ne; [done|].
    intros E. apply page_of_inj in E; [unfold PGSIZE in E; lia|by apply Hvp..].
  - intros s1 [Hk1 _]. unfold pages. rewrite <- (Z.add_0_r first_page), <- fmap_add_seqZ, <- list_fmap_compose.
    replace (((λ i, i * PGSIZE) ∘ Z.add first_page) <$> seqZ 0 npages) with
      ((λ i, first_page * PGSIZE + i * PGSIZE) <$> seqZ 0 npages); [done|].
    apply list_fmap_ext. intros _ i _. simpl. lia.
Qed.

Lemma kinit_ok s : freelist s = 0 →
  wp kinit s (λ _ s', kinv s' (reverse pages) ∧ NoDup pages ∧ (∀ p, p ∈ pages ↔ vpage p)).
Proof.
  intros Hf. unfold kinit. do 2 (apply wp_bind, wp_modify). apply wp_bind.
  wp_call kinit_counts; [unfold PHYSTOP, KERNBASE, PGSIZE; div_lia|done|].
  intros [] s1 (Hc & Hk & Hr & Hf1 & Hm). kst_simpl. cbn in Hk, Hf1.
  assert (∀ p, vpage p → refcount s1 p = 1) as Hone.
  { intros p Hp. pose proof (vpage_eq p Hp) as (n & -> & _). unfold refcount, page_of.
    rewrite Hc; [done|]. destruct Hp as (_ & Hlo & Hhi). pose proof kend_range.
    unfold PHYSTOP, KERNBASE, PGSIZE in *. div_lia. }
  wp_call freerange_ok; [|done|].
  - split; [done|]. split; [done|]. split; [simpl; congruence|]. split; [by apply NoDup_nil|]. split; [done|].
    rewrite Forall_forall. intros p Hp. rewrite Hone by (by apply elem_of_pages).
    split; [lia|]. split; [lia|]. by intros ?%elem_of_nil.
  - intros [] s2 Hk2. split; [done|]. split; [|apply elem_of_pages].
    unfold pages. apply NoDup_fmap_2; [|apply NoDup_seqZ]. intros i j E. unfold PGSIZE in E. lia.
Qed.
End kinit.
