(* ===== verification/Vm.v ===== *)
(** kernel/vm.c: Sv39 page tables in physical memory, the operations that
    build, copy and tear down user address spaces, and the copies between
    kernel and user memory, as programs over the allocator's state.

    A [pagetable_t] and a [pte_t *] are physical addresses; a page table page
    is 512 little-endian 64-bit words of [ram].  Kernel buffers that are not
    pages ([src] of copyout, [dst] of copyin and copyinstr) are byte lists. *)
From S2P Require Import Prelude Riscv Memory Kalloc.

(** ** Definitions *)

(** Writing a kernel buffer to consecutive addresses ([memmove] from it). *)
Fixpoint write_bytes (m : mem) (a : Z) (bs : list Z) : mem :=
  match bs with
  | [] => m
  | b :: bs' => write_bytes (st8 m a b) (a + 1) bs'
  end.

Section vm.
Context `{L : Layout}.

(** The loop of [walk] from [level] down: [pagetable] is the page at [level]. *)
Fixpoint walk_loop (level : nat) (pagetable va : Z) (alloc : bool) : M kst Z :=
  match level with
  | O => mret (pagetable + 8 * PX 0 va)
  | S l =>
      let pte := pagetable + 8 * PX (Z.of_nat level) va in
      v ← load64 pte;
      if has v PTE_V then walk_loop l (PTE2PA v) va alloc
      else if negb alloc then mret 0
      else
        p ← kalloc;
        if p =? 0 then mret 0
        else
          update_ram (λ m, memset m p 0 PGSIZE);;
          store64 pte (Z.lor (PA2PTE p) PTE_V);;
          walk_loop l p va alloc
  end.

Definition walk (pagetable va : Z) (alloc : bool) : M kst Z :=
  if MAXVA <=? va then panic "walk" else walk_loop 2 pagetable va alloc.

Definition walkaddr (pagetable va : Z) : M kst Z :=
  if MAXVA <=? va then mret 0
  else
    pte ← walk pagetable va false;
    if pte =? 0 then mret 0
    else
      v ← load64 pte;
      if negb (has v PTE_V) then mret 0
      else if negb (has v PTE_U) then mret 0
      else mret (PTE2PA v).

(** Enough turns for a loop over the pages from [a] up to [lim]: beyond
    MAXVA the call to [walk] panics. *)
Definition page_fuel (a lim : Z) : nat :=
  Z.to_nat (Z.min (lim - a) MAXVA / PGSIZE + 2).

Definition mappages (pagetable va size pa perm : Z) : M kst Z :=
  if size =? 0 then panic "mappages: size"
  else
    let a0 := PGROUNDDOWN va in
    let last := PGROUNDDOWN (u64 (va + size - 1)) in
    while_ (page_fuel a0 (if a0 <=? last then last else MAXVA))
      (λ '(a, pa),
        pte ← walk pagetable a true;
        if pte =? 0 then mret (inr (-1))
        else
          v ← load64 pte;
          if has v PTE_V then panic "mappages: remap"
          else
            store64 pte (Z.lor (Z.lor (PA2PTE pa) perm) PTE_V);;
            if a =? last then mret (inr 0)
            else mret (inl (a + PGSIZE, pa + PGSIZE)))
      (a0, pa).

Definition kvmmap (kpgtbl va pa sz perm : Z) : M kst unit :=
  r ← mappages kpgtbl va sz pa perm;
  if negb (r =? 0) then panic "kvmmap" else mret tt.

Definition uvmunmap (pagetable va npages : Z) (do_free : bool) : M kst unit :=
  if negb (va mod PGSIZE =? 0) then panic "uvmunmap: not aligned"
  else
    let lim := u64 (va + npages * PGSIZE) in
    while_ (page_fuel va lim)
      (λ a,
        if negb (a <? lim) then mret (inr tt)
        else
          pte ← walk pagetable a false;
          if pte =? 0 then panic "uvmunmap: walk"
          else
            v ← load64 pte;
            if negb (has v PTE_V) then panic "uvmunmap: not mapped"
            else if PTE_FLAGS v =? PTE_V then panic "uvmunmap: not a leaf"
            else
              (if do_free then kfree (PTE2PA v) else mret tt);;
              store64 pte 0;;
              mret (inl (a + PGSIZE)))
      va.

Definition uvmcreate : M kst Z :=
  pagetable ← kalloc;
  if pagetable =? 0 then mret 0
  else
    update_ram (λ m, memset m pagetable 0 PGSIZE);;
    mret pagetable.

Definition uvmfirst (pagetable : Z) (src : list Z) : M kst unit :=
  if PGSIZE <=? Z.of_nat (length src) then panic "uvmfirst: more than a page"
  else
    m0 ← kalloc;
    update_ram (λ m, memset m m0 0 PGSIZE);;
    mappages pagetable 0 PGSIZE m0 (Z.lor (Z.lor (Z.lor PTE_W PTE_R) PTE_X) PTE_U);;
    update_ram (λ m, write_bytes m m0 src).

Definition uvmdealloc (pagetable oldsz newsz : Z) : M kst Z :=
  if oldsz <=? newsz then mret oldsz
  else
    (if PGROUNDUP newsz <? PGROUNDUP oldsz then
       uvmunmap pagetable (PGROUNDUP newsz)
         ((PGROUNDUP oldsz - PGROUNDUP newsz) / PGSIZE) true
     else mret tt);;
    mret newsz.

Definition uvmalloc (pagetable oldsz newsz xperm : Z) : M kst Z :=
  if newsz <? oldsz then mret oldsz
  else
    let oldsz := PGROUNDUP oldsz in
    while_ (page_fuel oldsz newsz)
      (λ a,
        if negb (a <? newsz) then mret (inr newsz)
        else
          m0 ← kalloc;
          if m0 =? 0 then
            uvmdealloc pagetable a oldsz;; mret (inr 0)
          else
            update_ram (λ m, memset m m0 0 PGSIZE);;
            r ← mappages pagetable a PGSIZE m0 (Z.lor (Z.lor PTE_R PTE_U) xperm);
            if negb (r =? 0) then
              kfree m0;; uvmdealloc pagetable a oldsz;; mret (inr 0)
            else mret (inl (a + PGSIZE)))
      oldsz.

(** The recursion of [freewalk] follows the three levels of the tree;
    [depth] bounds it. *)
Fixpoint freewalk (depth : nat) (pagetable : Z) : M kst unit :=
  match depth with
  | O => λ _, Diverge
  | S d =>
      foreach (λ i,
        pte ← load64 (pagetable + 8 * i);
        if has pte PTE_V && negb (has pte (Z.lor (Z.lor PTE_R PTE_W) PTE_X)) then
          freewalk d (PTE2PA pte);;
          store64 (pagetable + 8 * i) 0
        else if has pte PTE_V then panic "freewalk: leaf"
        else mret tt) (seqZ 0 512);;
      kfree pagetable
  end.

Definition uvmfree (pagetable sz : Z) : M kst unit :=
  (if 0 <? sz then uvmunmap pagetable 0 (PGROUNDUP sz / PGSIZE) true else mret tt);;
  freewalk 3 pagetable.

(** The flag changes of [uvmcopy], on the PTE and on [flags] alike. *)
Definition cow_flags (f : Z) : Z := Z.land (Z.lor f PTE_COW) (Z.lnot PTE_W).

(** Copy-on-write copy of the address space [old] into [new]: no page is
    copied, writable pages become read-only and COW in both tables. *)
Definition uvmcopy (old new sz : Z) : M kst Z :=
  while_ (page_fuel 0 sz)
    (λ i,
      if negb (i <? sz) then mret (inr 0)
      else
        pte ← walk old i false;
        if pte =? 0 then panic "uvmcopy: pte should exist"
        else
          v ← load64 pte;
          if negb (has v PTE_V) then panic "uvmcopy: page not present"
          else
            let pa := PTE2PA v in
            let flags := PTE_FLAGS v in
            flags ← (if has v PTE_W then
                       store64 pte (cow_flags v);; mret (cow_flags flags)
                     else mret flags);
            r ← mappages new i PGSIZE pa flags;
            if negb (r =? 0) then
              uvmunmap new 0 (i / PGSIZE) true;; mret (inr (-1))
            else
              acquire_ref;;
              c ← get_ref pa;
              put_ref pa (c + 1);;
              release_ref;;
              mret (inl (i + PGSIZE)))
    0.

Definition uvmclear (pagetable va : Z) : M kst unit :=
  pte ← walk pagetable va false;
  if pte =? 0 then panic "uvmclear"
  else v ← load64 pte; store64 pte (Z.land v (Z.lnot PTE_U)).

(** The part of [copyout] that gives the process a private copy of the COW
    page at [va0]; 0 on success. *)
Definition copyout_cow (pagetable va0 my_pte : Z) : M kst Z :=
  v ← load64 my_pte;
  let pa := PTE2PA v in
  acquire_ref;;
  c ← get_ref pa;
  if c <=? 0 then release_ref;; mret (-1)
  else
    release_ref;;
    v ← load64 my_pte;
    let flags := Z.land (Z.lor (PTE_FLAGS v) PTE_W) (Z.lnot PTE_COW) in
    new_page ← kalloc;
    if new_page =? 0 then mret (-1)
    else
      update_ram (λ m, memmove m new_page pa PGSIZE);;
      uvmunmap pagetable (PGROUNDUP va0) 1 true;;
      r ← mappages pagetable va0 PGSIZE new_page flags;
      if negb (r =? 0) then kfree new_page;; mret (-1)
      else mret 0.

Definition copyout (pagetable dstva : Z) (src : list Z) : M kst Z :=
  while_ (S (length src))
    (λ '(dstva, src),
      let len := Z.of_nat (length src) in
      if negb (0 <? len) then mret (inr 0)
      else
        let va0 := PGROUNDDOWN dstva in
        if (MAXVA <=? va0) || negb (va0 mod PGSIZE =? 0) then mret (inr (-1))
        else
          my_pte ← walk pagetable va0 false;
          if my_pte =? 0 then mret (inr (-1))
          else
            v ← load64 my_pte;
            if negb (has v PTE_V) || negb (has v PTE_U) then mret (inr (-1))
            else
              rc ← (if has v PTE_COW then copyout_cow pagetable va0 my_pte else mret 0);
              if negb (rc =? 0) then mret (inr (-1))
              else
                pa0 ← walkaddr pagetable va0;
                if pa0 =? 0 then mret (inr (-1))
                else
                  let n0 := PGSIZE - (dstva - va0) in
                  let n := if n0 >? len then len else n0 in
                  update_ram (λ m, write_bytes m (pa0 + (dstva - va0)) (take (Z.to_nat n) src));;
                  mret (inl (va0 + PGSIZE, drop (Z.to_nat n) src)))
    (dstva, src).

(** [copyin] answers the bytes read, or None for its -1. *)
Definition copyin (pagetable srcva len : Z) : M kst (option (list Z)) :=
  while_ (S (Z.to_nat len))
    (λ '(dst, srcva, len),
      if negb (0 <? len) then mret (inr (Some dst))
      else
        let va0 := PGROUNDDOWN srcva in
        pa0 ← walkaddr pagetable va0;
        if pa0 =? 0 then mret (inr None)
        else
          let n0 := PGSIZE - (srcva - va0) in
          let n := if n0 >? len then len else n0 in
          bs ← gets (λ s, bytes_at (ram s) (pa0 + (srcva - va0)) (Z.to_nat n));
          mret (inl (dst ++ bs, va0 + PGSIZE, len - n)))
    ([], srcva, len).

(** The inner loop of [copyinstr]: at most [n] bytes from [p]; the flag says
    whether the NUL was met. *)
Fixpoint copyinstr_page (m : mem) (p : Z) (n : nat) : list Z * bool :=
  match n with
  | O => ([], false)
  | S n' =>
      if ld8 m p =? 0 then ([0], true)
      else let '(bs, got) := copyinstr_page m (p + 1) n' in (ld8 m p :: bs, got)
  end.

Definition copyinstr (pagetable srcva max : Z) : M kst (option (list Z)) :=
  while_ (S (Z.to_nat max))
    (λ '(dst, srcva, max, got_null),
      if (got_null : bool) then mret (inr (Some dst))
      else if negb (0 <? max) then mret (inr None)
      else
        let va0 := PGROUNDDOWN srcva in
        pa0 ← walkaddr pagetable va0;
        if pa0 =? 0 then mret (inr None)
        else
          let n0 := PGSIZE - (srcva - va0) in
          let n := if n0 >? max then max else n0 in
          '(bs, got) ← gets (λ s, copyinstr_page (ram s) (pa0 + (srcva - va0)) (Z.to_nat n));
          mret (inl (dst ++ bs, va0 + PGSIZE, max - n, got)))
    ([], srcva, max, false).
End vm.

(** ** Abstract address spaces *)

(** A page table as the tree the code builds: the page at each (level,
    prefix), where the prefix of a virtual address at a level is the
    address without the index bits of that level and below; and the leaf
    entry of each virtual page. *)
Record ptree := PTree {
  pt_nodes : gmap (Z * Z) Z;
  pt_leaves : gmap Z Z
}.

Section ptree.
Context `{L : Layout}.

(** First virtual page that is not user memory. *)
Definition UVPN : Z := TRAPFRAME / PGSIZE.

Definition mkpte (pa flags : Z) : Z := Z.lor (PA2PTE pa) flags.

(** A leaf entry as [mappages] writes it. *)
Definition leaf_ok (pte : Z) : Prop :=
  has pte PTE_V = true ∧ PTE_FLAGS pte ≠ PTE_V ∧
  PTE2PA pte mod PGSIZE = 0 ∧ PTE2PA pte < 2 ^ 56 ∧
  pte = mkpte (PTE2PA pte) (PTE_FLAGS pte).

(** The word a node of [t] at key [k] must hold at index [i]. *)
Definition entry_ok (t : ptree) (k : Z * Z) (i w : Z) : Prop :=
  if decide (k.1 = 0) then
    match pt_leaves t !! (k.2 * 512 + i) with
    | Some pte => w = pte
    | None => has w PTE_V = false
    end
  else
    match pt_nodes t !! (k.1 - 1, k.2 * 512 + i) with
    | Some q => w = mkpte q PTE_V
    | None => has w PTE_V = false
    end.

Definition node_ok (m : mem) (t : ptree) (k : Z * Z) (p : Z) : Prop :=
  Forall (λ i, entry_ok t k i (ld64 m (p + 8 * i))) (seqZ 0 512).

Definition node_key_ok (t : ptree) (k : Z * Z) : Prop :=
  k = (2, 0) ∨ ((k.1 = 0 ∨ k.1 = 1) ∧ 0 ≤ k.2 ∧ is_Some (pt_nodes t !! (k.1 + 1, k.2 / 512))).

(** [t] is the page table with root page [root] stored in [m]. *)
Definition pt_wf (m : mem) (root : Z) (t : ptree) : Prop :=
  pt_nodes t !! (2, 0) = Some root ∧
  map_Forall (λ k p, node_key_ok t k ∧ p ∈ pages ∧ node_ok m t k p) (pt_nodes t) ∧
  map_Forall (λ v pte, 0 ≤ v ∧ is_Some (pt_nodes t !! (0, v / 512)) ∧ leaf_ok pte ∧
                       (v < UVPN → PTE2PA pte ∈ pages)) (pt_leaves t).

(** How often the page [p] is mapped as user memory, and used as a node. *)
Definition refs_in (t : ptree) (p : Z) : Z :=
  countm (λ x, x.1 < UVPN ∧ PTE2PA x.2 = p) (pt_leaves t).
Definition nodes_in (t : ptree) (p : Z) : Z :=
  countm (λ x, x.2 = p) (pt_nodes t).

Global Instance entry_ok_dec t k i w : Decision (entry_ok t k i w).
Proof. unfold entry_ok. repeat case_match; apply _. Defined.
Global Instance leaf_ok_dec pte : Decision (leaf_ok pte).
Proof. apply _. Defined.
Global Instance node_key_ok_dec t k : Decision (node_key_ok t k).
Proof. unfold node_key_ok. destruct k. apply _. Defined.
Global Instance pt_wf_dec m root t : Decision (pt_wf m root t).
Proof. unfold pt_wf, node_ok. apply _. Defined.
End ptree.
