(* ===== verification/VmInv.v ===== *)
(** The invariant that ties the reference counts of kalloc.c to the page
    tables of vm.c, and the lemmas on how one memory write or one count
    update moves it.

    [ts] is the set of page tables in memory, by root page.  Every page's
    count is the number of user mappings of it, plus one if it is a page
    table page, plus [ext]: the references held outside of any table
    (a page just allocated, a trapframe, a kernel stack). *)
From S2P Require Import Prelude Riscv Memory Kalloc Vm.

(** ** Definitions *)

Definition total (f : ptree → Z) (ts : gmap Z ptree) : Z :=
  map_fold (λ _ t acc, f t + acc) 0 ts.

Section inv_defs.
Context `{L : Layout}.

Definition refs (ts : gmap Z ptree) (p : Z) : Z := total (λ t, refs_in t p) ts.
Definition nodesn (ts : gmap Z ptree) (p : Z) : Z := total (λ t, nodes_in t p) ts.
Definition ext_add (ext : Z → Z) (p d : Z) : Z → Z :=
  λ q, if decide (p = q) then ext q + d else ext q.

Definition page_ok (s : kst) (ts : gmap Z ptree) (ext : Z → Z) (p : Z) : Prop :=
  refcount s p = refs ts p + nodesn ts p + ext p ∧
  (refcount s p = 0 → refs ts p = 0 ∧ nodesn ts p = 0) ∧
  (0 < nodesn ts p → nodesn ts p = 1 ∧ refs ts p = 0 ∧ ext p = 0).

Definition Sinv (s : kst) (fl : list Z) (ts : gmap Z ptree) (ext : Z → Z) : Prop :=
  kinv s fl ∧ map_Forall (λ root t, pt_wf (ram s) root t) ts ∧
  Forall (page_ok s ts ext) pages.

Global Instance kinv_dec s fl : Decision (kinv s fl).
Proof. unfold kinv. apply _. Defined.
Global Instance page_ok_dec s ts ext p : Decision (page_ok s ts ext p).
Proof. unfold page_ok. apply _. Defined.
Global Instance Sinv_dec s fl ts ext : Decision (Sinv s fl ts ext).
Proof. unfold Sinv. apply _. Defined.
End inv_defs.

(** ** Sums over the page tables *)

Lemma total_delete f ts r t : ts !! r = Some t → total f ts = f t + total f (delete r ts).
Proof.
  intros Hr. rewrite <- (insert_delete_id ts r t) at 1 by done.
  unfold total. rewrite map_fold_insert_L; [done| |apply lookup_delete_eq].
  intros. lia.
Qed.

Lemma total_insert f ts r t' : total f (<[r := t']> ts) = f t' + total f (delete r ts).
Proof.
  rewrite (total_delete f _ r t') by apply lookup_insert_eq.
  by rewrite delete_insert_eq.
Qed.

Lemma total_update f ts r t t' : ts !! r = Some t →
  total f (<[r := t']> ts) = total f ts + (f t' - f t).
Proof. intros Hr. rewrite total_insert, (total_delete f ts r t) by done. lia. Qed.


Lemma total_nonneg f ts : (∀ t, 0 ≤ f t) → 0 ≤ total f ts.
Proof.
  intros Hf. unfold total. apply (map_fold_weak_ind (λ acc _, 0 ≤ acc)); [lia|].
  intros r t ts' acc _ Hacc. specialize (Hf t). lia.
Qed.

(** ** Sv39 indices and prefixes *)

(** The prefix of [va] at [level]: what selects the page table page there. *)
Definition prefix (level va : Z) : Z := va / 2 ^ (12 + 9 * (level + 1)).

Lemma prefix_step l va : 0 ≤ l → prefix l va * 512 + PX l va = prefix (l - 1) va.
Proof.
  intros. unfold prefix. rewrite PX_eq by done.
  replace (12 + 9 * (l + 1)) with ((12 + 9 * l) + 9) by lia.
  rewrite Z.pow_add_r, <- Z.div_div by lia. change (2 ^ 9) with 512.
  replace (12 + 9 * (l - 1 + 1)) with (12 + 9 * l) by lia.
  rewrite (Z.div_mod (va / 2 ^ (12 + 9 * l)) 512) at 3 by lia. lia.
Qed.

Lemma prefix_top va : 0 ≤ va < MAXVA → prefix 2 va = 0.
Proof. intros. apply Z.div_small. change MAXVA with (2 ^ 38) in *. lia. Qed.

Lemma prefix_0 va : prefix 0 va = va / PGSIZE / 512.
Proof. unfold prefix, PGSIZE. rewrite Z.div_div by lia. done. Qed.

Lemma prefix_bot va : prefix (-1) va = va / PGSIZE.
Proof. done. Qed.

Lemma vpn_split va : prefix 0 va * 512 + PX 0 va = va / PGSIZE.
Proof. by rewrite prefix_step. Qed.

Lemma key_split a b i j : 0 ≤ i < 512 → 0 ≤ j < 512 →
  a * 512 + i = b * 512 + j → a = b ∧ i = j.
Proof. lia. Qed.

(** ** Leaf entries *)

Section wf_lemmas.
Context `{L : Layout} `{!LayoutOk}.

Lemma mkpte_leaf_range pte : leaf_ok pte → 0 ≤ pte < 2 ^ 64.
Proof.
  intros (_ & _ & Hm & Hlt & E). rewrite E. unfold mkpte.
  pose proof (u64_range (Z.shiftl (Z.shiftr pte 10) 12)) as Hr. fold (PTE2PA pte) in Hr.
  assert (PTE2PA pte = PTE2PA pte / PGSIZE * PGSIZE) as -> by (unfold PGSIZE in *; div_lia).
  apply mkpte_range; [unfold PGSIZE in *; div_lia|apply PTE_FLAGS_range].
Qed.

Lemma mkpte_V_range q : vpage q → 0 ≤ mkpte q PTE_V < 2 ^ 64.
Proof. intros (n & -> & Hn)%vpage_eq. apply mkpte_range; [lia|done]. Qed.

Lemma mkpte_V_has q : has (mkpte q PTE_V) PTE_V = true.
Proof.
  rewrite has_V. unfold mkpte. rewrite Z.lor_spec. apply orb_true_r.
Qed.

Lemma mkpte_V_pa q : vpage q → PTE2PA (mkpte q PTE_V) = q.
Proof. intros (n & -> & Hn)%vpage_eq. apply PTE2PA_mkpte; [lia|done]. Qed.

Lemma has_0 f : has 0 f = false.
Proof. done. Qed.

(** ** How [pt_wf] follows memory writes *)

Lemma pt_wf_node m root t k p i : pt_wf m root t → pt_nodes t !! k = Some p →
  0 ≤ i < 512 → entry_ok t k i (ld64 m (p + 8 * i)).
Proof.
  intros (_ & Hn & _) Hk Hi. apply Hn in Hk as (_ & _ & Hok).
  unfold node_ok in Hok. rewrite Forall_seqZ_iff in Hok. apply Hok. lia.
Qed.

Lemma pt_wf_node_page m root t k p : pt_wf m root t → pt_nodes t !! k = Some p → vpage p.
Proof. intros (_ & Hn & _) Hk. apply Hn in Hk as (_ & Hp & _). by apply elem_of_pages. Qed.

Lemma pt_wf_leaf m root t v pte : pt_wf m root t → pt_leaves t !! v = Some pte →
  leaf_ok pte ∧ 0 ≤ v ∧ is_Some (pt_nodes t !! (0, v / 512)) ∧ (v < UVPN → vpage (PTE2PA pte)).
Proof.
  intros (_ & _ & Hl) Hv. apply Hl in Hv as (? & ? & ? & Hu). split; [done|].
  split; [done|split; [done|]]. intros Hlt%Hu. by apply elem_of_pages.
Qed.

Lemma pt_wf_frame m m' root t q : pt_wf m root t → mem_frame q m m' → vpage q →
  (∀ k, pt_nodes t !! k ≠ Some q) → pt_wf m' root t.
Proof.
  intros (Hr & Hn & Hl) Hf Hq Hno. split; [done|split; [|done]].
  intros k p Hk. pose proof (Hn k p Hk) as (? & Hp & Hok). split; [done|split; [done|]].
  unfold node_ok in *. rewrite Forall_seqZ_iff in *. intros i Hi.
  rewrite (mem_frame_ld64 q m); [by apply Hok|done|].
  apply elem_of_pages in Hp. destruct (vpage_disjoint p q Hp Hq); [|unfold PGSIZE in *; lia..].
  intros ->. by apply (Hno k).
Qed.

(** Words of one page after a store to another word. *)
Lemma ld64_page_other m p q i j w : vpage p → vpage q → 0 ≤ i < 512 → 0 ≤ j < 512 →
  (p, i) ≠ (q, j) → ld64 (st64 m (p + 8 * i) w) (q + 8 * j) = ld64 m (q + 8 * j).
Proof.
  intros Hp Hq Hi Hj Hne. apply ld64_st64_disjoint.
  destruct (decide (p = q)) as [->|Hpq].
  - assert (i ≠ j) by congruence. lia.
  - destruct (vpage_disjoint p q Hp Hq Hpq); unfold PGSIZE in *; lia.
Qed.

(** Setting, changing or clearing one leaf entry. *)
Lemma pt_wf_leaf_upd m root t pre p i w (o : option Z) :
  pt_wf m root t → pt_nodes t !! (0, pre) = Some p →
  (∀ k, pt_nodes t !! k = Some p → k = (0, pre)) →
  0 ≤ i < 512 → 0 ≤ w < 2 ^ 64 →
  match o with
  | Some pte => w = pte ∧ leaf_ok pte ∧ (pre * 512 + i < UVPN → vpage (PTE2PA pte))
  | None => has w PTE_V = false
  end →
  pt_wf (st64 m (p + 8 * i) w) root
    (PTree (pt_nodes t) (partial_alter (λ _, o) (pre * 512 + i) (pt_leaves t))).
Proof.
  intros Hwf Hp Hu Hi Hw Ho. pose proof Hwf as (Hr & Hn & Hl). split; [done|split]; simpl.
  - intros k q Hk. pose proof (Hn k q Hk) as (Hkey & Hq & Hok). split; [done|split; [done|]].
    unfold node_ok in *. rewrite Forall_seqZ_iff in *. intros j Hj.
    specialize (Hok j Hj). apply elem_of_pages in Hq.
    pose proof (pt_wf_node_page _ _ _ _ _ Hwf Hp) as Hvp.
    destruct (decide ((p, i) = (q, j))) as [[= <- <-]|Hne].
    + pose proof (Hu k Hk) as ->. rewrite ld64_st64_same by done.
      unfold entry_ok; cbn [fst snd pt_nodes pt_leaves]. rewrite decide_True by done.
      rewrite lookup_partial_alter_eq. destruct o; [by destruct Ho as [-> _]|done].
    + rewrite ld64_page_other by (done || lia). unfold entry_ok in *; cbn [fst snd pt_nodes pt_leaves].
      case_decide as Hk0; [|done]. rewrite lookup_partial_alter_ne; [done|].
      intros E. apply key_split in E as [Epre <-]; [|lia..].
      apply Hne. f_equal. destruct k as [k1 k2]; simpl in *; subst. congruence.
  - intros v pte. rewrite lookup_partial_alter. case_decide as E; [|apply Hl].
    intros ->. destruct Ho as (-> & Hleaf & Hpg). subst v.
    pose proof (Hn _ _ Hp) as ([Hk|(_ & Hpre & _)] & _); [done|]; simpl in Hpre.
    split; [lia|split; [|split; [done|intros ?; apply elem_of_pages; auto]]].
    replace ((pre * 512 + i) / 512) with pre; [by eauto|].
    rewrite Z.div_add_l, Z.div_small by lia. lia.
Qed.

(** Linking a zeroed page in as a new page table page. *)
Lemma pt_wf_node_add m m1 root t l pre p q i :
  pt_wf m root t → pt_nodes t !! (l, pre) = Some p →
  (∀ k, pt_nodes t !! k = Some p → k = (l, pre)) →
  0 ≤ i < 512 → l = 1 ∨ l = 2 →
  pt_nodes t !! (l - 1, pre * 512 + i) = None →
  vpage q → (∀ k, pt_nodes t !! k ≠ Some q) →
  mem_frame q m m1 → (∀ j, 0 ≤ j < 512 → ld64 m1 (q + 8 * j) = 0) →
  pt_wf (st64 m1 (p + 8 * i) (mkpte q PTE_V)) root
    (PTree (<[(l - 1, pre * 512 + i) := q]> (pt_nodes t)) (pt_leaves t)).
Proof.
  intros Hwf Hp Hu Hi Hlev Hnone Hq Hnoq Hf Hz.
  pose proof (pt_wf_frame _ _ _ _ _ Hwf Hf Hq Hnoq) as Hwf1.
  pose proof (pt_wf_node_page _ _ _ _ _ Hwf Hp) as Hvp.
  pose proof Hwf1 as (Hr & Hn & Hl).
  assert (p ≠ q) as Hpq by (intros ->; by apply (Hnoq (l, pre))).
  assert (0 ≤ pre) as Hpre.
  { pose proof (Hn _ _ Hp) as ([[= _ ->]|(_ & ? & _)] & _); [lia|done]. }
  assert ((l - 1, pre * 512 + i) ≠ (2, 0)) as Hk0 by (intros [= ??]; lia).
  assert (∀ k, is_Some (pt_nodes t !! k) →
    is_Some (<[(l - 1, pre * 512 + i) := q]> (pt_nodes t) !! k)) as Hmono.
  { intros k Hk. rewrite lookup_insert. case_decide; [by eauto|done]. }
  split; [simpl; by rewrite lookup_insert_ne by done|split]; simpl.
  - intros k r. rewrite lookup_insert. case_decide as E.
    + intros [= <-]. subst k. split; [|split; [by apply elem_of_pages|]].
      * right. simpl. split; [lia|split; [lia|]].
        replace (l - 1 + 1) with l by lia.
        rewrite Z.div_add_l, (Z.div_small i) by lia. rewrite Z.add_0_r. apply Hmono. eauto.
      * unfold node_ok. rewrite Forall_seqZ_iff. intros j Hj.
        rewrite ld64_page_other by (done || lia || congruence). rewrite Hz by lia.
        unfold entry_ok; cbn [fst snd pt_nodes pt_leaves]. case_decide as Hl0.
        -- destruct (pt_leaves t !! _) as [pte|] eqn:El; [|done].
           apply Hl in El as (_ & [x Hx] & _).
           rewrite Z.div_add_l, (Z.div_small j), Z.add_0_r in Hx by lia.
           rewrite <- Hl0, Hnone in Hx. done.
        -- rewrite lookup_insert_ne by (intros [= ??]; lia).
           destruct (pt_nodes t !! (l - 1 - 1, _)) as [r|] eqn:El; [|done].
           apply Hn in El as ([E|(_ & _ & [x Hx])] & _); [apply pair_eq in E; lia|]; simpl in Hx.
           rewrite Z.div_add_l, (Z.div_small j), Z.add_0_r in Hx by lia.
           replace (l - 1 - 1 + 1) with (l - 1) in Hx by lia. rewrite Hnone in Hx. done.
    + intros Hk. pose proof (Hn k r Hk) as (Hkey & Hr' & Hok).
      split; [|split; [done|]].
      { destruct Hkey as [->|(? & ? & ?)]; [by left|right; simpl; auto]. }
      unfold node_ok in *. rewrite Forall_seqZ_iff in *. intros j Hj. specialize (Hok j Hj).
      apply elem_of_pages in Hr'.
      destruct (decide ((p, i) = (r, j))) as [[= <- <-]|Hne].
      * pose proof (Hu k Hk) as ->. rewrite ld64_st64_same by (by apply mkpte_V_range).
        unfold entry_ok; cbn [fst snd pt_nodes pt_leaves]. rewrite decide_False by lia. by rewrite lookup_insert_eq.
      * rewrite ld64_page_other by (done || lia). unfold entry_ok in *; cbn [fst snd pt_nodes pt_leaves].
        case_decide as Hk1; [done|]. rewrite lookup_insert_ne; [done|].
        intros [= E1 E2]. apply key_split in E2 as [E2 <-]; [|lia..].
        apply Hne. f_equal. assert (k = (l, pre)) as -> by (destruct k; simpl in *; f_equal; lia).
        congruence.
  - intros v pte Hv. apply Hl in Hv as (? & ? & ? & ?). split; [done|split; [by apply Hmono|done]].
Qed.
End wf_lemmas.
