(* ===== verification/VmSys.v ===== *)
(** The steps of vm.c against the system invariant [Sinv]: allocating and
    freeing a page, taking a reference, writing a data page, and setting,
    changing or clearing one entry of a page table. *)
From S2P Require Import Prelude Riscv Memory Kalloc Vm VmInv.

(** ** Definitions *)

Section sys_defs.
Context `{L : Layout}.

(** What the (possible) entry [o] of virtual page [v] contributes to the
    user mappings of page [q]. *)
Definition leaf_cnt (v : Z) (o : option Z) (q : Z) : Z :=
  match o with
  | Some pte => if decide (v < UVPN ∧ PTE2PA pte = q) then 1 else 0
  | None => 0
  end.

(** From [s] to [s'] page tables may have grown out of free pages; every
    page in use keeps its count, its role, and, if it is data, its bytes. *)
Definition grows (s : kst) (ts : gmap Z ptree) (s' : kst) (ts' : gmap Z ptree) : Prop :=
  ∀ q, vpage q → 0 < refcount s q →
    refcount s' q = refcount s q ∧ nodesn ts' q = nodesn ts q ∧
    (nodesn ts q = 0 → ∀ a, q ≤ a < q + PGSIZE → ld8 (ram s') a = ld8 (ram s) a).
End sys_defs.

Section sys.
Context `{L : Layout} `{!LayoutOk}.
Implicit Types (s : kst) (fl : list Z) (ts : gmap Z ptree) (ext : Z → Z) (t : ptree).

(** ** Reading the invariant *)

Lemma refs_in_nonneg t p : 0 ≤ refs_in t p.
Proof. apply countm_nonneg. Qed.
Lemma nodes_in_nonneg t p : 0 ≤ nodes_in t p.
Proof. apply countm_nonneg. Qed.
Lemma refs_nonneg ts p : 0 ≤ refs ts p.
Proof. apply total_nonneg. intros. apply refs_in_nonneg. Qed.
Lemma nodesn_nonneg ts p : 0 ≤ nodesn ts p.
Proof. apply total_nonneg. intros. apply nodes_in_nonneg. Qed.

Lemma Sinv_kinv s fl ts ext : Sinv s fl ts ext → kinv s fl.
Proof. by intros (? & _). Qed.
Lemma Sinv_wf s fl ts ext r t : Sinv s fl ts ext → ts !! r = Some t → pt_wf (ram s) r t.
Proof. intros (_ & Hw & _) Hr. by apply Hw. Qed.
Lemma Sinv_page s fl ts ext p : Sinv s fl ts ext → vpage p → page_ok s ts ext p.
Proof. intros (_ & _ & Hp) Hv. rewrite Forall_forall in Hp. by apply Hp, elem_of_pages. Qed.

Lemma nodesn_pos ts r t k p : ts !! r = Some t → pt_nodes t !! k = Some p → 0 < nodesn ts p.
Proof.
  intros Hr Hk. unfold nodesn. rewrite (total_delete _ ts r t) by done.
  assert (0 < nodes_in t p) by (by apply (countm_pos _ _ k p)).
  pose proof (nodesn_nonneg (delete r ts) p). unfold nodesn in *. lia.
Qed.

Lemma refs_pos ts r t v pte : ts !! r = Some t → pt_leaves t !! v = Some pte → v < UVPN →
  0 < refs ts (PTE2PA pte).
Proof.
  intros Hr Hk Hv. unfold refs. rewrite (total_delete _ ts r t) by done.
  assert (0 < refs_in t (PTE2PA pte)) by (by apply (countm_pos _ _ v pte)).
  pose proof (refs_nonneg (delete r ts) (PTE2PA pte)). unfold refs in *. lia.
Qed.

Lemma Sinv_not_node ts q r t k : nodesn ts q = 0 → ts !! r = Some t → pt_nodes t !! k ≠ Some q.
Proof. intros Hq Hr Hk. pose proof (nodesn_pos _ _ _ _ _ Hr Hk). lia. Qed.

(** A page table page belongs to one table, at one place, and has one
    reference. *)
Lemma Sinv_node s fl ts ext r t k p : Sinv s fl ts ext → ts !! r = Some t →
  pt_nodes t !! k = Some p →
  vpage p ∧ refcount s p = 1 ∧ nodesn ts p = 1 ∧ refs ts p = 0 ∧ ext p = 0.
Proof.
  intros HS Hr Hk. pose proof (nodesn_pos _ _ _ _ _ Hr Hk) as Hpos.
  pose proof (pt_wf_node_page _ _ _ _ _ (Sinv_wf _ _ _ _ _ _ HS Hr) Hk) as Hv.
  destruct (Sinv_page _ _ _ _ _ HS Hv) as (Hc & _ & Hn). split; [done|]. lia.
Qed.

Lemma Sinv_node_unique s fl ts ext r t k p r' t' k' : Sinv s fl ts ext →
  ts !! r = Some t → pt_nodes t !! k = Some p →
  ts !! r' = Some t' → pt_nodes t' !! k' = Some p → r = r' ∧ k = k'.
Proof.
  intros HS Hr Hk Hr' Hk'. destruct (Sinv_node _ _ _ _ _ _ _ _ HS Hr Hk) as (_ & _ & H1 & _).
  pose proof H1 as H1'. unfold nodesn in H1'. rewrite (total_delete _ ts r t) in H1' by done.
  assert (0 < nodes_in t p) by (by apply (countm_pos _ _ k p)).
  destruct (decide (r = r')) as [<-|Hne].
  - split; [done|]. assert (t' = t) as -> by congruence.
    apply (countm_unique (λ x, x.2 = p) (pt_nodes t) k k' p p); try done.
    pose proof (nodesn_nonneg (delete r ts) p). unfold nodesn, nodes_in in *. lia.
  - assert (0 < nodesn (delete r ts) p); [|unfold nodesn in *; lia].
    apply (nodesn_pos _ r' t' k'); [by rewrite lookup_delete_ne|done].
Qed.

(** A page mapped in user memory is allocated data. *)
Lemma Sinv_leaf s fl ts ext r t v pte : Sinv s fl ts ext → ts !! r = Some t →
  pt_leaves t !! v = Some pte → v < UVPN →
  vpage (PTE2PA pte) ∧ 0 < refcount s (PTE2PA pte) ∧ nodesn ts (PTE2PA pte) = 0.
Proof.
  intros HS Hr Hv Hu. pose proof (Sinv_wf _ _ _ _ _ _ HS Hr) as Hw.
  destruct (pt_wf_leaf _ _ _ _ _ Hw Hv) as (_ & _ & _ & Hp). specialize (Hp Hu).
  pose proof (refs_pos _ _ _ _ _ Hr Hv Hu) as Hpos. split; [done|].
  destruct (Sinv_page _ _ _ _ _ HS Hp) as (Hc & H0 & Hn).
  pose proof (nodesn_nonneg ts (PTE2PA pte)).
  assert (0 ≤ refcount s (PTE2PA pte)) by (by apply (kinv_ref _ _ _ (Sinv_kinv _ _ _ _ HS))).
  split; [|lia]. destruct (decide (refcount s (PTE2PA pte) = 0)) as [E|]; [|lia].
  apply H0 in E. lia.
Qed.

Lemma Sinv_free s fl ts ext p : Sinv s fl ts ext → p ∈ fl →
  vpage p ∧ refcount s p = 0 ∧ refs ts p = 0 ∧ nodesn ts p = 0 ∧ ext p = 0.
Proof.
  intros HS Hin. pose proof (kinv_vpages _ _ (Sinv_kinv _ _ _ _ HS)) as Hv.
  rewrite Forall_forall in Hv. specialize (Hv p Hin). split; [done|].
  destruct (kinv_ref _ _ _ (Sinv_kinv _ _ _ _ HS) Hv) as [_ Hr]. apply Hr in Hin.
  destruct (Sinv_page _ _ _ _ _ HS Hv) as (Hc & H0 & _). specialize (H0 Hin). lia.
Qed.

(** ** The token account [ext] up to pointwise equality *)

Global Instance Sinv_proper s fl ts :
  Proper (pointwise_relation Z (=) ==> iff) (Sinv s fl ts).
Proof.
  assert (∀ e e', pointwise_relation Z (=) e e' → Sinv s fl ts e → Sinv s fl ts e') as Himp.
  { intros e e' He (Hk & Hw & Hp). split; [done|split; [done|]].
    eapply Forall_impl; [exact Hp|]. intros p. unfold page_ok. by rewrite He. }
  intros e e' He. split; apply Himp; [done|by symmetry].
Qed.

Lemma Sinv_ext_eq s fl ts e e' : Sinv s fl ts e → (∀ p, e p = e' p) → Sinv s fl ts e'.
Proof. intros HS He. eapply (Sinv_proper s fl ts); [|exact HS]. intros p. by rewrite He. Qed.

Lemma ext_add_eq e p d : ext_add e p d p = e p + d.
Proof. unfold ext_add. by rewrite decide_True. Qed.
Lemma ext_add_ne e p q d : p ≠ q → ext_add e p d q = e q.
Proof. intros. unfold ext_add. by rewrite decide_False. Qed.
Lemma ext_add_cancel e p d q : ext_add (ext_add e p d) p (- d) q = e q.
Proof. unfold ext_add. case_decide; lia. Qed.

(** ** Writes to data pages and counts *)

Lemma Sinv_data_write s fl ts ext q m' :
  Sinv s fl ts ext → vpage q → 0 < refcount s q → nodesn ts q = 0 →
  mem_frame q (ram s) m' → Sinv (set_ram m' s) fl ts ext.
Proof.
  intros HS Hq Hr Hn Hf. pose proof HS as (Hk & Hw & Hp).
  split; [by eapply kinv_frame|split; [|done]].
  intros r t Ht. eapply pt_wf_frame; [by apply Hw|done|done|].
  intros k. by eapply Sinv_not_node.
Qed.

Lemma Sinv_incref s fl ts ext q :
  Sinv s fl ts ext → vpage q → 0 < refcount s q → nodesn ts q = 0 →
  Sinv (set_refs (<[page_of q := refcount s q + 1]> (reference_counter s)) s) fl ts
       (ext_add ext q 1).
Proof.
  intros HS Hq Hr Hn. pose proof HS as (Hk & Hw & Hp).
  split; [apply kinv_put; (done || lia)|split; [done|]].
  rewrite Forall_forall in *. intros p Hin. pose proof (Hp p Hin) as (Hq1 & Hq2 & Hq3).
  unfold page_ok. rewrite refcount_put by (done || by apply elem_of_pages).
  unfold ext_add. case_decide as E; [subst p|done]. lia.
Qed.

(** ** Allocation and freeing *)

Lemma Sinv_kalloc s fl ts ext :
  Sinv s fl ts ext →
  wp kalloc s (λ r s',
    (r = 0 ∧ s' = s ∧ fl = []) ∨
    (∃ fl', fl = r :: fl' ∧ vpage r ∧ Sinv s' fl' ts (ext_add ext r 1) ∧ kalloc_post s r s' ∧
       nodesn ts r = 0 ∧ refcount s' r = 1)).
Proof.
  intros HS. pose proof HS as (Hk & Hw & Hp). destruct fl as [|q fl'].
  { apply kalloc_empty; [done|]. by left. }
  wp_call kalloc_cons; [done|]. intros r s' (-> & Hk' & Hpost). right. exists fl'.
  destruct (Sinv_free _ _ _ _ q HS) as (Hq & Hr0 & Hrf & Hn0 & He0); [by left|].
  destruct Hpost as (Hf & Hrc & H5).
  assert (∀ p, vpage p → refcount s' p = if decide (q = p) then 1 else refcount s p) as Href.
  { intros p Hvp. rewrite <- (refcount_put s q p 1) by done. unfold refcount. by rewrite Hrc. }
  split; [done|split; [done|split; [|split; [done|split; [done|]]]]].
  - split; [done|split].
    + intros r t Ht. eapply pt_wf_frame; [by apply Hw|done|done|]. intros k. by eapply Sinv_not_node.
    + rewrite Forall_forall in *. intros p Hin. pose proof (Hp p Hin) as (Hq1 & Hq2 & Hq3).
      unfold page_ok. rewrite Href by (by apply elem_of_pages).
      unfold ext_add. case_decide as E; [subst p|done]. lia.
  - rewrite Href by done. by rewrite decide_True.
Qed.

(** What [kfree] of a page with an outside reference does. *)
Definition kfree_post s (p : Z) s' : Prop :=
  mem_frame p (ram s) (ram s') ∧
  (1 < refcount s p → ram s' = ram s) ∧
  (∀ q, vpage q → refcount s' q = if decide (p = q) then refcount s p - 1 else refcount s q).

Lemma Sinv_kfree s fl ts ext p :
  Sinv s fl ts ext → vpage p → 0 < ext p →
  wp (kfree p) s (λ _ s', ∃ fl', Sinv s' fl' ts (ext_add ext p (-1)) ∧ kfree_post s p s' ∧
    (fl' = fl ∨ fl' = p :: fl)).
Proof.
  intros HS Hv He. pose proof HS as (Hk & Hw & Hp).
  destruct (Sinv_page _ _ _ _ _ HS Hv) as (Hc & Hz & Hnd).
  pose proof (nodesn_nonneg ts p). pose proof (refs_nonneg ts p).
  assert (nodesn ts p = 0) as Hn0 by lia.
  assert (0 < refcount s p) as Hpos by lia.
  assert (∀ s' fl', kinv s' fl' → mem_frame p (ram s) (ram s') →
    (∀ q, vpage q → refcount s' q = if decide (p = q) then refcount s p - 1 else refcount s q) →
    Sinv s' fl' ts (ext_add ext p (-1))) as Hbuild.
  { intros s' fl' Hk' Hf Href. split; [done|split].
    - intros r t Ht. eapply pt_wf_frame; [by apply Hw|done|done|]. intros k. by eapply Sinv_not_node.
    - rewrite Forall_forall in *. intros q Hin. pose proof (Hp q Hin) as (Hq1 & Hq2 & Hq3).
      unfold page_ok. rewrite Href by (by apply elem_of_pages).
      unfold ext_add. case_decide as E; [subst q|done]. lia. }
  destruct (decide (1 < refcount s p)) as [Hgt|Hle].
  - wp_call kfree_shared; [done..|]. intros [] s' (Hk' & ->). exists fl.
    assert (∀ q, vpage q → refcount (set_refs (<[page_of p:=refcount s p - 1]> (reference_counter s)) s) q
      = if decide (p = q) then refcount s p - 1 else refcount s q) as Href
      by (intros; by apply refcount_put).
    split; [by apply Hbuild|]. split; [|by left]. by split; [|split].
  - wp_call kfree_last; [done|done|lia|]. intros [] s' (Hk' & Hf & Hrc). exists (p :: fl).
    assert (∀ q, vpage q → refcount s' q = if decide (p = q) then refcount s p - 1 else refcount s q) as Href.
    { intros q Hq. replace (refcount s p - 1) with 0 by lia.
      rewrite <- (refcount_put s p q 0) by done. unfold refcount. by rewrite Hrc. }
    split; [by apply Hbuild|]. split; [|by right]. by split; [|split; [lia|]].
Qed.

(** ** Updating one entry of a page table *)

Lemma leaf_cnt_range v o q : 0 ≤ leaf_cnt v o q ≤ 1.
Proof. unfold leaf_cnt. destruct o; [case_decide|]; lia. Qed.

Lemma refs_in_upd t v o q :
  refs_in (PTree (pt_nodes t) (partial_alter (λ _, o) v (pt_leaves t))) q =
  refs_in t q - leaf_cnt v (pt_leaves t !! v) q + leaf_cnt v o q.
Proof.
  unfold refs_in, leaf_cnt; simpl. destruct o as [pte|].
  - change (partial_alter _ v (pt_leaves t)) with (<[v := pte]> (pt_leaves t)).
    destruct (pt_leaves t !! v) as [old|] eqn:E.
    + rewrite (countm_replace _ _ v old) by done. done.
    + rewrite countm_insert by done. simpl. lia.
  - change (partial_alter _ v (pt_leaves t)) with (delete v (pt_leaves t)).
    destruct (pt_leaves t !! v) as [old|] eqn:E.
    + rewrite (countm_delete _ _ v old) by done. simpl. lia.
    + rewrite delete_id by done. lia.
Qed.

(** The table [t] with the entry of virtual page [v] set to [o]. *)
Definition leaf_set t (v : Z) (o : option Z) : ptree :=
  PTree (pt_nodes t) (partial_alter (λ _, o) v (pt_leaves t)).

Lemma refs_leaf_set ts root t v o q : ts !! root = Some t →
  refs (<[root := leaf_set t v o]> ts) q =
  refs ts q - leaf_cnt v (pt_leaves t !! v) q + leaf_cnt v o q.
Proof.
  intros Ht. unfold refs. rewrite (total_update _ ts root t) by done.
  unfold leaf_set. rewrite refs_in_upd. lia.
Qed.

Lemma nodesn_leaf_set ts root t v o q : ts !! root = Some t →
  nodesn (<[root := leaf_set t v o]> ts) q = nodesn ts q.
Proof.
  intros Ht. unfold nodesn. rewrite (total_update _ ts root t) by done.
  unfold leaf_set, nodes_in; simpl. lia.
Qed.

(** The tables stay well formed when one entry of one of them is written,
    from any memory [m] in which they are. *)
Lemma tables_leaf_set s fl ts ext m root t pre p i w (o : option Z) :
  Sinv s fl ts ext → map_Forall (λ r t, pt_wf m r t) ts →
  ts !! root = Some t → pt_nodes t !! (0, pre) = Some p →
  0 ≤ i < 512 → 0 ≤ w < 2 ^ 64 →
  match o with
  | Some pte => w = pte ∧ leaf_ok pte ∧ (pre * 512 + i < UVPN → vpage (PTE2PA pte))
  | None => has w PTE_V = false
  end →
  map_Forall (λ r t, pt_wf (st64 m (p + 8 * i) w) r t)
    (<[root := leaf_set t (pre * 512 + i) o]> ts).
Proof.
  intros HS Hwf Ht Hp Hi Hw Ho. destruct (Sinv_node _ _ _ _ _ _ _ _ HS Ht Hp) as (Hv & _).
  intros r u. rewrite lookup_insert. case_decide as E.
  - subst r. intros [= <-]. eapply pt_wf_leaf_upd; try done; [by apply Hwf|].
    intros k Hk'. symmetry. by eapply (Sinv_node_unique s fl ts ext root t (0, pre) p root t k).
  - intros Hu. eapply (pt_wf_frame m _ r u p); [by apply Hwf| |done|].
    { apply mem_frame_st64; unfold PGSIZE; lia. }
    intros k Hk'. destruct (Sinv_node_unique _ _ _ _ _ _ _ _ _ _ _ HS Ht Hp Hu Hk'). congruence.
Qed.

Lemma Sinv_leaf_upd s fl ts ext root t pre p i w (o : option Z) :
  Sinv s fl ts ext → ts !! root = Some t → pt_nodes t !! (0, pre) = Some p →
  0 ≤ i < 512 → 0 ≤ w < 2 ^ 64 →
  match o with
  | Some pte => w = pte ∧ leaf_ok pte ∧
      (pre * 512 + i < UVPN → vpage (PTE2PA pte) ∧ 0 < refcount s (PTE2PA pte) ∧
                              nodesn ts (PTE2PA pte) = 0)
  | None => has w PTE_V = false
  end →
  Sinv (set_ram (st64 (ram s) (p + 8 * i) w) s) fl
    (<[root := leaf_set t (pre * 512 + i) o]> ts)
    (λ q, ext q + leaf_cnt (pre * 512 + i) (pt_leaves t !! (pre * 512 + i)) q
                - leaf_cnt (pre * 512 + i) o q).
Proof.
  intros HS Ht Hp Hi Hw Ho. destruct (Sinv_node _ _ _ _ _ _ _ _ HS Ht Hp) as (Hv & Hr1 & Hn1 & _).
  pose proof HS as (Hk & Hwf & Hpg). split; [|split].
  - eapply kinv_frame; [done|done|lia|]. apply mem_frame_st64; unfold PGSIZE; lia.
  - eapply tables_leaf_set; try done. destruct o as [pte|]; [|done].
    destruct Ho as (-> & Hlf & Hpa). split; [done|split; [done|]].
    intros Hlt. by apply Hpa in Hlt as (? & _).
  - rewrite Forall_forall in *. intros q Hin. pose proof (Hpg q Hin) as (Hq1 & Hq2 & Hq3).
    unfold page_ok. change (refcount (set_ram _ s) q) with (refcount s q).
    pose proof (refs_nonneg (<[root := leaf_set t (pre * 512 + i) o]> ts) q) as Hnn.
    rewrite refs_leaf_set in Hnn |- * by done. rewrite nodesn_leaf_set by done.
    set (v := pre * 512 + i) in *. pose proof (leaf_cnt_range v (pt_leaves t !! v) q).
    assert (leaf_cnt v o q = 1 → 0 < refcount s q ∧ nodesn ts q = 0) as Hnew.
    { unfold leaf_cnt. destruct o as [pte|]; [|lia]. case_decide as Hd; [|lia].
      destruct Hd as [Hd <-]. destruct Ho as (_ & _ & Ho). intros _. by apply Ho. }
    pose proof (leaf_cnt_range v o q). pose proof (refs_nonneg ts q). lia.
Qed.

(** Freeing the page of a user mapping and then clearing the entry, the
    order of [uvmunmap]. *)
Lemma Sinv_unmap_free s fl ts ext root t pre p i pte :
  Sinv s fl ts ext → ts !! root = Some t → pt_nodes t !! (0, pre) = Some p →
  0 ≤ i < 512 → pt_leaves t !! (pre * 512 + i) = Some pte → pre * 512 + i < UVPN →
  0 ≤ ext (PTE2PA pte) →
  wp (kfree (PTE2PA pte)) s (λ _ s1, ∃ fl',
    Sinv (set_ram (st64 (ram s1) (p + 8 * i) 0) s1) fl'
      (<[root := leaf_set t (pre * 512 + i) None]> ts) ext ∧
    kfree_post s (PTE2PA pte) s1 ∧ (fl' = fl ∨ fl' = PTE2PA pte :: fl)).
Proof.
  intros HS Ht Hp Hi Hl Hu He. set (pa := PTE2PA pte) in *.
  destruct (Sinv_leaf _ _ _ _ _ _ _ _ HS Ht Hl Hu) as (Hv & Hr & Hn0).
  destruct (Sinv_node _ _ _ _ _ _ _ _ HS Ht Hp) as (Hvp & Hp1 & Hpn & _).
  pose proof (refs_pos _ _ _ _ _ Ht Hl Hu) as Hrf. fold pa in Hv, Hr, Hn0, Hrf.
  assert (p ≠ pa) as Hppa by (intros ->; lia).
  pose proof HS as (Hk & Hwf & Hpg).
  assert (∀ s1 fl', kinv s1 fl' → kfree_post s pa s1 →
    Sinv (set_ram (st64 (ram s1) (p + 8 * i) 0) s1) fl'
      (<[root := leaf_set t (pre * 512 + i) None]> ts) ext) as Hbuild.
  { intros s1 fl' Hk1 (Hf & _ & Href). split; [|split].
    - eapply (kinv_frame _ _ p); [done|done| |].
      + rewrite Href by done. rewrite decide_False by congruence. lia.
      + apply mem_frame_st64; unfold PGSIZE; lia.
    - eapply tables_leaf_set; try done.
      intros r u Hu'. eapply pt_wf_frame; [by apply Hwf|done|done|]. intros k. by eapply Sinv_not_node.
    - rewrite Forall_forall in *. intros q Hin. pose proof (Hpg q Hin) as (Hq1 & Hq2 & Hq3).
      unfold page_ok. change (refcount (set_ram _ s1) q) with (refcount s1 q).
      rewrite Href by (by apply elem_of_pages).
      rewrite refs_leaf_set, nodesn_leaf_set, Hl by done. unfold leaf_cnt.
      destruct (decide (pa = q)) as [<-|Hne].
      + rewrite decide_True by done. pose proof (refs_nonneg ts pa). lia.
      + rewrite decide_False by (intros [_ ?]; done). lia. }
  destruct (decide (1 < refcount s pa)) as [Hgt|Hle].
  - wp_call kfree_shared; [done..|]. intros [] s' (Hk' & ->). exists fl.
    assert (kfree_post s pa (set_refs (<[page_of pa:=refcount s pa - 1]> (reference_counter s)) s)) as Hpost.
    { split; [done|split; [done|]]. intros. by apply refcount_put. }
    split; [by apply Hbuild|]. split; [done|by left].
  - wp_call kfree_last; [done|done|lia|]. intros [] s' (Hk' & Hf & Hrc). exists (pa :: fl).
    assert (kfree_post s pa s') as Hpost.
    { split; [done|split; [lia|]]. intros q Hq. replace (refcount s pa - 1) with 0 by lia.
      rewrite <- (refcount_put s pa q 0) by done. unfold refcount. by rewrite Hrc. }
    split; [by apply Hbuild|]. split; [done|by right].
Qed.

(** Linking a zeroed, freshly allocated page in as a page table page. *)
Lemma Sinv_node_add s fl ts ext root t l pre p q i m1 :
  Sinv s fl ts ext → ts !! root = Some t → pt_nodes t !! (l, pre) = Some p →
  0 ≤ i < 512 → l = 1 ∨ l = 2 →
  pt_nodes t !! (l - 1, pre * 512 + i) = None →
  vpage q → refcount s q = 1 → nodesn ts q = 0 → ext q = 1 →
  mem_frame q (ram s) m1 → (∀ j, 0 ≤ j < 512 → ld64 m1 (q + 8 * j) = 0) →
  Sinv (set_ram (st64 m1 (p + 8 * i) (mkpte q PTE_V)) s) fl
    (<[root := PTree (<[(l - 1, pre * 512 + i) := q]> (pt_nodes t)) (pt_leaves t)]> ts)
    (ext_add ext q (-1)).
Proof.
  intros HS Ht Hp Hi Hl Hnone Hq Hr1 Hn0 He1 Hf Hz.
  destruct (Sinv_node _ _ _ _ _ _ _ _ HS Ht Hp) as (Hv & Hp1 & Hpn & _).
  pose proof (Sinv_data_write _ _ _ _ _ _ HS Hq ltac:(lia) Hn0 Hf) as HS1.
  assert (mem_frame p m1 (st64 m1 (p + 8 * i) (mkpte q PTE_V))) as Hf2
    by (apply mem_frame_st64; unfold PGSIZE; lia).
  set (t' := PTree (<[(l - 1, pre * 512 + i):=q]> (pt_nodes t)) (pt_leaves t)).
  assert (∀ x, refs (<[root:=t']> ts) x = refs ts x) as Hrefs.
  { intros x. unfold refs. rewrite (total_update _ ts root t t') by done.
    unfold t', refs_in; simpl. lia. }
  assert (∀ x, nodesn (<[root:=t']> ts) x = nodesn ts x + (if decide (q = x) then 1 else 0)) as Hnodes.
  { intros x. unfold nodesn. rewrite (total_update _ ts root t t') by done.
    unfold t', nodes_in. cbn [pt_nodes]. rewrite countm_insert by done. simpl. lia. }
  pose proof HS1 as (Hk1 & Hw1 & Hpg). split; [|split].
  - apply (kinv_frame (set_ram m1 s) fl p); try done. unfold refcount in *; simpl; lia.
  - intros r u. rewrite lookup_insert. case_decide as E.
    + subst r. intros [= <-]. eapply pt_wf_node_add; try done.
      * destruct HS as (_ & Hwf & _). by apply Hwf.
      * intros k Hk'. symmetry. by eapply (Sinv_node_unique s fl ts ext root t (l, pre) p root t k).
      * intros k. by eapply Sinv_not_node.
    + intros Hu. eapply pt_wf_frame; [by apply Hw1|exact Hf2|done|]. intros k Hk'.
      destruct (Sinv_node_unique _ _ _ _ _ _ _ _ _ _ _ HS Ht Hp Hu Hk'). congruence.
  - rewrite Forall_forall in *. intros x Hin. pose proof (Hpg x Hin) as (Hq1 & Hq2 & Hq3).
    unfold page_ok. change (refcount (set_ram _ s) x) with (refcount s x) in *.
    rewrite Hrefs, Hnodes. unfold ext_add.
    pose proof (refs_nonneg ts x). case_decide as E; [subst x|]; lia.
Qed.

(** ** Growth *)

Lemma grows_refl s ts : grows s ts s ts.
Proof. done. Qed.

Lemma grows_trans s1 ts1 s2 ts2 s3 ts3 :
  grows s1 ts1 s2 ts2 → grows s2 ts2 s3 ts3 → grows s1 ts1 s3 ts3.
Proof.
  intros H12 H23 q Hq Hr. destruct (H12 q Hq Hr) as (E1 & E2 & E3).
  destruct (H23 q Hq ltac:(lia)) as (F1 & F2 & F3).
  split; [lia|split; [lia|]]. intros Hn a Ha. rewrite F3 by (done || lia). by apply E3.
Qed.
End sys.
