(* ===== verification/VmWalk.v ===== *)
(** Specifications of [walk], [walkaddr], [mappages] and [uvmunmap]. *)
From S2P Require Import Prelude Riscv Memory Kalloc Vm VmInv VmSys.

Section walk.
Context `{L : Layout} `{!LayoutOk}.
Implicit Types (s : kst) (fl : list Z) (ts : gmap Z ptree) (ext : Z → Z) (t : ptree).

(** ** Paths in the tree *)

Lemma prefix_div l va : 0 ≤ l → prefix l va / 512 = prefix (l + 1) va.
Proof.
  intros. unfold prefix. assert (0 < 2 ^ (12 + 9 * (l + 1))) by (apply Z.pow_pos_nonneg; lia).
  rewrite Z.div_div by lia.
  f_equal. replace (12 + 9 * (l + 1 + 1)) with (12 + 9 * (l + 1) + 9) by lia.
  rewrite (Z.pow_add_r 2 _ 9) by lia. lia.
Qed.

Lemma prefix_nonneg l va : 0 ≤ va → 0 ≤ prefix l va.
Proof.
  intros. unfold prefix. destruct (decide (0 ≤ 12 + 9 * (l + 1))).
  - apply Z.div_pos; [done|]. apply Z.pow_pos_nonneg; lia.
  - rewrite Z.pow_neg_r by lia. by rewrite Zdiv_0_r.
Qed.

(** Where there is a page table page, there are the ones above it. *)
Lemma pt_wf_parent m root t l va : pt_wf m root t → l = 0 ∨ l = 1 →
  is_Some (pt_nodes t !! (l, prefix l va)) → is_Some (pt_nodes t !! (l + 1, prefix (l + 1) va)).
Proof.
  intros (_ & Hn & _) Hl [p Hp]. apply Hn in Hp as ([E|(_ & _ & Hs)] & _).
  - apply pair_eq in E. lia.
  - simpl in Hs. by rewrite prefix_div in Hs by lia.
Qed.

Lemma pt_wf_path m root t l va : pt_wf m root t → 0 ≤ l ≤ 2 →
  is_Some (pt_nodes t !! (0, prefix 0 va)) → is_Some (pt_nodes t !! (l, prefix l va)).
Proof.
  intros Hwf Hl H0. assert (l = 0 ∨ l = 1 ∨ l = 2) as [-> | [-> | ->]] by lia; [done|..].
  - by apply (pt_wf_parent _ _ _ 0 va Hwf); [left|].
  - apply (pt_wf_parent _ _ _ 1 va Hwf); [by right|].
    by apply (pt_wf_parent _ _ _ 0 va Hwf); [left|].
Qed.

(** What the loop of [walk] reads at one level. *)
Lemma pt_wf_step m root t l va p : pt_wf m root t → 1 ≤ l →
  pt_nodes t !! (l, prefix l va) = Some p →
  match pt_nodes t !! (l - 1, prefix (l - 1) va) with
  | Some q => ld64 m (p + 8 * PX l va) = mkpte q PTE_V ∧ vpage q
  | None => has (ld64 m (p + 8 * PX l va)) PTE_V = false
  end.
Proof.
  intros Hwf Hl Hp. pose proof (pt_wf_node _ _ _ _ _ (PX l va) Hwf Hp (PX_range l va ltac:(lia))) as He.
  unfold entry_ok in He. cbn [fst snd] in He. rewrite decide_False, prefix_step in He by lia.
  destruct (pt_nodes t !! (l - 1, prefix (l - 1) va)) as [q|] eqn:E; [|done].
  split; [done|]. by eapply pt_wf_node_page.
Qed.

(** ** Lookup *)

Lemma walk_loop_ro s root t level p va :
  pt_wf (ram s) root t → (level ≤ 2)%nat →
  pt_nodes t !! (Z.of_nat level, prefix (Z.of_nat level) va) = Some p →
  walk_loop level p va false s =
  Ok (match pt_nodes t !! (0, prefix 0 va) with Some p0 => p0 + 8 * PX 0 va | None => 0 end, s).
Proof.
  intros Hwf. revert p. induction level as [|l IH]; intros p Hl Hp.
  { change (Z.of_nat 0) with 0 in Hp. rewrite Hp. done. }
  cbn [walk_loop]. unfold mbind, M_bind, load64, gets.
  pose proof (pt_wf_step _ _ _ (Z.of_nat (S l)) _ _ Hwf ltac:(lia) Hp) as Hs.
  replace (Z.of_nat (S l) - 1) with (Z.of_nat l) in Hs by lia.
  destruct (pt_nodes t !! (Z.of_nat l, prefix (Z.of_nat l) va)) as [q|] eqn:E.
  - destruct Hs as [-> Hq]. rewrite mkpte_V_has, mkpte_V_pa by done. apply IH; [lia|done].
  - rewrite Hs. simpl. destruct (pt_nodes t !! (0, prefix 0 va)) eqn:E0; [|done].
    destruct (pt_wf_path _ _ _ (Z.of_nat l) va Hwf ltac:(lia)) as [x Hx]; [by eauto|congruence].
Qed.

Lemma walk_loop_path s root t level p va alloc p0 :
  pt_wf (ram s) root t → (level ≤ 2)%nat →
  pt_nodes t !! (Z.of_nat level, prefix (Z.of_nat level) va) = Some p →
  pt_nodes t !! (0, prefix 0 va) = Some p0 →
  walk_loop level p va alloc s = Ok (p0 + 8 * PX 0 va, s).
Proof.
  intros Hwf. revert p. induction level as [|l IH]; intros p Hl Hp H0.
  { change (Z.of_nat 0) with 0 in Hp. simplify_eq. done. }
  cbn [walk_loop]. unfold mbind, M_bind, load64, gets.
  pose proof (pt_wf_step _ _ _ (Z.of_nat (S l)) _ _ Hwf ltac:(lia) Hp) as Hs.
  replace (Z.of_nat (S l) - 1) with (Z.of_nat l) in Hs by lia.
  destruct (pt_wf_path _ _ _ (Z.of_nat l) va Hwf ltac:(lia)) as [q E]; [by eauto|].
  rewrite E in Hs. destruct Hs as [-> Hq].
  rewrite mkpte_V_has, mkpte_V_pa by done. apply IH; [lia|done..].
Qed.

Lemma walk_root root t m va : pt_wf m root t → 0 ≤ va < MAXVA →
  pt_nodes t !! (Z.of_nat 2, prefix (Z.of_nat 2) va) = Some root.
Proof. intros (Hr & _) Hva. change (Z.of_nat 2) with 2. by rewrite prefix_top. Qed.

Lemma walk_lookup s root t va : pt_wf (ram s) root t → 0 ≤ va < MAXVA →
  walk root va false s =
  Ok (match pt_nodes t !! (0, prefix 0 va) with Some p0 => p0 + 8 * PX 0 va | None => 0 end, s).
Proof.
  intros Hwf Hva. unfold walk. rewrite (proj2 (Z.leb_gt _ _)) by lia.
  eapply walk_loop_ro; [done|lia|by eapply walk_root].
Qed.

Lemma walk_slot s root t va alloc p0 : pt_wf (ram s) root t → 0 ≤ va < MAXVA →
  pt_nodes t !! (0, prefix 0 va) = Some p0 →
  walk root va alloc s = Ok (p0 + 8 * PX 0 va, s).
Proof.
  intros Hwf Hva H0. unfold walk. rewrite (proj2 (Z.leb_gt _ _)) by lia.
  eapply walk_loop_path; [done|lia|by eapply walk_root|done].
Qed.

(** The leaf entry of a virtual address, as [walk] finds it. *)
Lemma leaf_slot m root t va pte : pt_wf m root t → 0 ≤ va →
  pt_leaves t !! (va / PGSIZE) = Some pte →
  ∃ p0, pt_nodes t !! (0, prefix 0 va) = Some p0 ∧ vpage p0 ∧ ld64 m (p0 + 8 * PX 0 va) = pte.
Proof.
  intros Hwf Hva Hl. destruct (pt_wf_leaf _ _ _ _ _ Hwf Hl) as (_ & _ & [p0 H0] & _).
  rewrite <- prefix_0 in H0. exists p0. split; [done|]. split; [by eapply pt_wf_node_page|].
  pose proof (pt_wf_node _ _ _ _ _ (PX 0 va) Hwf H0 (PX_range 0 va ltac:(lia))) as He.
  unfold entry_ok in He. cbn [fst snd] in He. rewrite decide_True, vpn_split, Hl in He by done. done.
Qed.

Lemma noleaf_slot m root t va p0 : pt_wf m root t → 0 ≤ va →
  pt_leaves t !! (va / PGSIZE) = None → pt_nodes t !! (0, prefix 0 va) = Some p0 →
  has (ld64 m (p0 + 8 * PX 0 va)) PTE_V = false.
Proof.
  intros Hwf Hva Hl H0.
  pose proof (pt_wf_node _ _ _ _ _ (PX 0 va) Hwf H0 (PX_range 0 va ltac:(lia))) as He.
  unfold entry_ok in He. cbn [fst snd] in He. rewrite decide_True, vpn_split, Hl in He by done. done.
Qed.

Lemma slot_pos p va : vpage p → p + 8 * PX 0 va =? 0 = false.
Proof. intros Hp%vpage_pos. apply Z.eqb_neq. pose proof (PX_range 0 va). lia. Qed.

(** [walkaddr] answers the physical page of a valid user mapping, else 0. *)
Lemma walkaddr_lookup s root t va : pt_wf (ram s) root t → 0 ≤ va →
  walkaddr root va s =
  Ok (if decide (va < MAXVA) then
        match pt_leaves t !! (va / PGSIZE) with
        | Some pte => if has pte PTE_U then PTE2PA pte else 0
        | None => 0
        end
      else 0, s).
Proof.
  intros Hwf Hva. unfold walkaddr. case_decide as Hlt.
  - rewrite (proj2 (Z.leb_gt _ _)) by lia.
    unfold mbind, M_bind. rewrite (walk_lookup _ _ t) by (done || lia).
    destruct (pt_leaves t !! (va / PGSIZE)) as [pte|] eqn:El.
    + destruct (leaf_slot _ _ _ _ _ Hwf Hva El) as (p0 & -> & Hp & Hld).
      rewrite slot_pos by done. unfold load64, gets. rewrite Hld.
      destruct (pt_wf_leaf _ _ _ _ _ Hwf El) as ((-> & _) & _). simpl.
      by destruct (has pte PTE_U).
    + destruct (pt_nodes t !! (0, prefix 0 va)) as [p0|] eqn:E0; [|done].
      rewrite slot_pos by (by eapply pt_wf_node_page). unfold load64, gets.
      by rewrite (noleaf_slot _ _ _ _ _ Hwf Hva El E0).
  - rewrite (proj2 (Z.leb_le _ _)) by lia. done.
Qed.

(** ** Allocation of missing page table pages *)

Definition walk_post s fl ts ext root t (va r : Z) s' : Prop :=
  ∃ fl' nodes',
    let t' := PTree nodes' (pt_leaves t) in
    Sinv s' fl' (<[root := t']> ts) ext ∧ pt_nodes t ⊆ nodes' ∧ fl' `suffix_of` fl ∧
    grows s ts s' (<[root := t']> ts) ∧
    ((r = 0 ∧ fl' = [] ∧ pt_nodes t !! (0, prefix 0 va) = None) ∨
     (∃ p0, nodes' !! (0, prefix 0 va) = Some p0 ∧ vpage p0 ∧ r = p0 + 8 * PX 0 va)) ∧
    (is_Some (pt_nodes t !! (0, prefix 0 va)) → nodes' = pt_nodes t ∧ s' = s ∧ fl' = fl).

(** One new page table page: zeroed and linked in at level [l]. *)
Lemma link_page s fl ts ext root t l p q va s1 :
  Sinv s (q :: fl) ts ext → ts !! root = Some t → l = 1 ∨ l = 2 →
  pt_nodes t !! (l, prefix l va) = Some p →
  pt_nodes t !! (l - 1, prefix (l - 1) va) = None →
  Sinv s1 fl ts (ext_add ext q 1) → kalloc_post s q s1 → nodesn ts q = 0 → refcount s1 q = 1 →
  let s2 := set_ram (st64 (memset (ram s1) q 0 PGSIZE) (p + 8 * PX l va) (mkpte q PTE_V)) s1 in
  let ts2 := <[root := PTree (<[(l - 1, prefix (l - 1) va) := q]> (pt_nodes t)) (pt_leaves t)]> ts in
  Sinv s2 fl ts2 ext ∧ grows s ts s2 ts2.
Proof.
  intros HS Ht Hl Hp Hnone HS1 (Hf & Hrc & _) Hn0 Hr1 s2 ts2.
  destruct (Sinv_free _ _ _ _ q HS) as (Hq & Hq0 & _ & _ & He0); [by left|].
  destruct (Sinv_node _ _ _ _ _ _ _ _ HS Ht Hp) as (Hvp & Hp1 & Hpn & _).
  assert (mem_frame q (ram s1) (memset (ram s1) q 0 PGSIZE)) as Hf1 by apply mem_frame_memset.
  assert (Sinv s2 fl ts2 ext) as HS2.
  { eapply Sinv_ext_eq; [|apply (ext_add_cancel _ q 1)]. unfold s2, ts2.
    rewrite <- prefix_step in * by lia. eapply Sinv_node_add; try done.
    - apply PX_range. lia.
    - rewrite ext_add_eq. lia.
    - intros j Hj. apply ld64_memset_zero; unfold PGSIZE; lia. }
  split; [done|]. intros x Hx Hxr.
  assert (x ≠ q) as Hxq by (intros ->; lia).
  split; [|split].
  - unfold s2. change (refcount s1 x = refcount s x).
    pose proof (refcount_put s q x 1 Hq Hx) as E. rewrite decide_False in E by congruence.
    rewrite <- E. unfold refcount. by rewrite Hrc.
  - unfold nodesn, ts2. rewrite (total_update _ ts root t) by done.
    unfold nodes_in; cbn [pt_nodes]. rewrite countm_insert by done. simpl.
    rewrite decide_False by congruence. lia.
  - intros Hxn a Ha. assert (x ≠ p) as Hxp by (intros ->; lia). unfold s2; cbn [ram set_ram].
    rewrite ld8_st64_out.
    + rewrite (Hf1 a), (Hf a); [done|..];
        destruct (vpage_disjoint x q Hx Hq Hxq); unfold PGSIZE in *; lia.
    + pose proof (PX_range l va ltac:(lia)).
      destruct (vpage_disjoint x p Hx Hvp Hxp); unfold PGSIZE in *; lia.
Qed.

Lemma walk_loop_alloc level : ∀ s fl ts ext root t p va,
  Sinv s fl ts ext → ts !! root = Some t → (level ≤ 2)%nat →
  pt_nodes t !! (Z.of_nat level, prefix (Z.of_nat level) va) = Some p →
  wp (walk_loop level p va true) s (walk_post s fl ts ext root t va).
Proof.
  induction level as [|l IH]; intros s fl ts ext root t p va HS Ht Hl Hp.
  - apply wp_ret. exists fl, (pt_nodes t). change (Z.of_nat 0) with 0 in Hp.
    cbv zeta. replace (PTree (pt_nodes t) (pt_leaves t)) with t by (by destruct t).
    rewrite insert_id by done. split; [done|split; [done|split; [done|split; [apply grows_refl|]]]].
    split; [|done]. right. exists p. split; [done|]. split; [|done]. by eapply Sinv_node.
  - cbn [walk_loop]. apply wp_bind. unfold load64. apply wp_gets.
    pose proof (Sinv_wf _ _ _ _ _ _ HS Ht) as Hwf.
    pose proof (pt_wf_step _ _ _ (Z.of_nat (S l)) _ _ Hwf ltac:(lia) Hp) as Hs.
    destruct (pt_nodes t !! (Z.of_nat (S l) - 1, _)) as [q|] eqn:E.
    { destruct Hs as [-> Hq]. rewrite mkpte_V_has, mkpte_V_pa by done.
      replace (Z.of_nat (S l) - 1) with (Z.of_nat l) in E by lia. apply IH; (done || lia). }
    rewrite Hs. cbn [negb]. assert (pt_nodes t !! (0, prefix 0 va) = None) as Hno.
    { apply eq_None_not_Some. intros Hs0. 
      destruct (pt_wf_path _ _ _ (Z.of_nat (S l) - 1) va Hwf ltac:(lia) Hs0) as [x Hx]. congruence. }
    apply wp_bind. wp_call Sinv_kalloc; [done|].
    intros q s1 [(-> & -> & ->)|(fl1 & -> & Hq & HS1 & Hpost & Hn0 & Hr1)].
    { apply wp_ret. exists [], (pt_nodes t).
      cbv zeta. replace (PTree (pt_nodes t) (pt_leaves t)) with t by (by destruct t).
      rewrite insert_id by done. split; [done|split; [done|split; [done|split; [apply grows_refl|]]]].
      split; [by left|]. intros [? ?]. congruence. }
    rewrite (proj2 (Z.eqb_neq q 0)) by (pose proof (vpage_pos q Hq); lia).
    unfold update_ram, store64, update_ram. apply wp_bind, wp_modify, wp_bind, wp_modify. cbn [ram set_ram].
    destruct (link_page s fl1 ts ext root t (Z.of_nat (S l)) p q va s1) as [HS2 Hg]; try done; [lia|].
    eapply wp_mono; [eapply (IH _ fl1 _ ext root)|].
    { exact HS2. } { apply lookup_insert_eq. } { lia. }
    { cbn [pt_nodes]. replace (Z.of_nat (S l) - 1) with (Z.of_nat l) by lia. apply lookup_insert_eq. }
    intros r s3 (fl' & nodes' & HS3 & Hsub & Hsuf & Hg3 & Hr & _). cbn [pt_nodes pt_leaves] in *.
    rewrite insert_insert_eq in HS3, Hg3. exists fl', nodes'.
    split; [done|]. split; [|split; [by apply suffix_cons_r|split; [by eapply grows_trans|split]]].
    + etrans; [|exact Hsub]. by apply insert_subseteq.
    + destruct Hr as [(-> & -> & Hr)|Hr]; [|by right]. left. done.
    + intros [? ?]. congruence.
Qed.

Lemma walk_alloc s fl ts ext root t va :
  Sinv s fl ts ext → ts !! root = Some t → 0 ≤ va < MAXVA →
  wp (walk root va true) s (walk_post s fl ts ext root t va).
Proof.
  intros HS Ht Hva. pose proof (Sinv_wf _ _ _ _ _ _ HS Ht) as Hwf.
  destruct (pt_nodes t !! (0, prefix 0 va)) as [p0|] eqn:E0.
  - eapply ok_wp; [by eapply walk_slot|]. exists fl, (pt_nodes t).
    cbv zeta. replace (PTree (pt_nodes t) (pt_leaves t)) with t by (by destruct t).
    rewrite insert_id by done. split; [done|split; [done|split; [done|split; [apply grows_refl|]]]].
    split; [|done]. right. exists p0. split; [done|]. split; [|done]. by eapply Sinv_node.
  - unfold walk. rewrite (proj2 (Z.leb_gt _ _)) by lia.
    eapply walk_loop_alloc; [done|done|lia|by eapply walk_root].
Qed.
End walk.
