(* ===== verification/VmMap.v ===== *)
(** Specifications of [mappages] for one page and of [uvmunmap]. *)
From S2P Require Import Prelude Riscv Memory Kalloc Vm VmInv VmSys VmWalk.

(** ** Definitions *)

(** The virtual pages outside of [v0 .. v0+n-1]. *)
Definition outside (v0 n : Z) (x : Z * Z) : Prop := ¬ (v0 ≤ x.1 < v0 + n).
Global Instance outside_dec v0 n x : Decision (outside v0 n x).
Proof. unfold outside. apply _. Defined.

Section map_defs.
Context `{L : Layout}.

(** What [mappages] of one page establishes: the mapping is there, or page
    table pages ran out and only empty page table pages were added. *)
Definition map_post (s : kst) (fl : list Z) (ts : gmap Z ptree) (ext : Z → Z)
    (root : Z) (t : ptree) (v pte r : Z) (s' : kst) : Prop :=
  ∃ fl' nodes',
    pt_nodes t ⊆ nodes' ∧ fl' `suffix_of` fl ∧
    (is_Some (pt_nodes t !! (0, v / 512)) → nodes' = pt_nodes t ∧ fl' = fl ∧ r = 0) ∧
    ((r = -1 ∧ fl' = [] ∧
      Sinv s' fl' (<[root := PTree nodes' (pt_leaves t)]> ts) ext ∧
      grows s ts s' (<[root := PTree nodes' (pt_leaves t)]> ts)) ∨
     (r = 0 ∧
      Sinv s' fl' (<[root := PTree nodes' (<[v := pte]> (pt_leaves t))]> ts)
        (λ q, ext q - leaf_cnt v (Some pte) q) ∧
      grows s ts s' (<[root := PTree nodes' (<[v := pte]> (pt_leaves t))]> ts))).

(** Data pages that are still allocated have kept their bytes. *)
Definition shrinks (s : kst) (ts : gmap Z ptree) (s' : kst) : Prop :=
  ∀ q, vpage q → 0 < refcount s q →
    refcount s' q ≤ refcount s q ∧
    (nodesn ts q = 0 → 0 < refcount s' q →
     ∀ a, q ≤ a < q + PGSIZE → ld8 (ram s') a = ld8 (ram s) a).
End map_defs.

Section map.
Context `{L : Layout} `{!LayoutOk}.
Implicit Types (s : kst) (fl : list Z) (ts : gmap Z ptree) (ext : Z → Z) (t : ptree).

(** ** Page arithmetic *)

Lemma page_addr v : (v * PGSIZE) / PGSIZE = v.
Proof. unfold PGSIZE. by rewrite Z.div_mul. Qed.

Lemma page_aligned v : (v * PGSIZE) mod PGSIZE = 0.
Proof. unfold PGSIZE. by rewrite Z.mod_mul. Qed.

Lemma prefix_page v : prefix 0 (v * PGSIZE) = v / 512.
Proof. by rewrite prefix_0, page_addr. Qed.

Lemma page_split v : v / 512 * 512 + PX 0 (v * PGSIZE) = v.
Proof. rewrite <- prefix_page, vpn_split. apply page_addr. Qed.

Lemma MAXVA_pages : MAXVA = 2 ^ 26 * PGSIZE.
Proof. done. Qed.
Lemma UVPN_lt : UVPN < 2 ^ 26.
Proof. done. Qed.

Lemma leaf_ok_mk n f : 0 ≤ n < 2 ^ 44 → 0 ≤ f < 1024 → has f PTE_V = true → f ≠ PTE_V →
  leaf_ok (mkpte (n * PGSIZE) f).
Proof.
  intros Hn Hf HV Hne. unfold leaf_ok, mkpte. rewrite PTE2PA_mkpte, PTE_FLAGS_mkpte by lia.
  split; [|split; [done|split; [apply page_aligned|split; [unfold PGSIZE; lia|done]]]].
  rewrite has_V in *. rewrite Z.lor_spec, HV. apply orb_true_r.
Qed.

(** ** One page mapped *)

Lemma mappages_one_eq root v pa perm s : 0 ≤ v < 2 ^ 26 →
  mappages root (v * PGSIZE) PGSIZE pa perm s =
  (pte ← walk root (v * PGSIZE) true;
   if pte =? 0 then mret (-1)
   else w ← load64 pte;
        if has w PTE_V then panic "mappages: remap"
        else store64 pte (mkpte pa (Z.lor perm PTE_V));; mret 0) s.
Proof.
  intros Hv. unfold mappages. change (PGSIZE =? 0) with false; cbv iota.
  rewrite !PGROUNDDOWN_eq, page_addr. rewrite u64_small by (unfold PGSIZE; lia).
  replace ((v * PGSIZE + PGSIZE - 1) / PGSIZE) with v by (unfold PGSIZE; div_lia).
  cbv zeta. rewrite Z.leb_refl. unfold page_fuel. rewrite Z.sub_diag.
  change (Z.to_nat (Z.min 0 MAXVA / PGSIZE + 2)) with 2%nat.
  cbn [while_]. unfold mbind, M_bind.
  destruct (walk root (v * PGSIZE) true s) as [[pte s1]| |]; [|done..].
  destruct (pte =? 0); [done|]. destruct (load64 pte s1) as [[w s2]| |]; [|done..].
  destruct (has w PTE_V); [done|]. unfold mkpte. rewrite Z.lor_assoc.
  destruct (store64 pte _ s2) as [[[] s3]| |]; [|done..].
  by rewrite Z.eqb_refl.
Qed.

Lemma mappages_one s fl ts ext root t v pa perm :
  Sinv s fl ts ext → ts !! root = Some t → 0 ≤ v < 2 ^ 26 → pt_leaves t !! v = None →
  leaf_ok (mkpte pa (Z.lor perm PTE_V)) → PTE2PA (mkpte pa (Z.lor perm PTE_V)) = pa →
  (v < UVPN → vpage pa ∧ 0 < refcount s pa ∧ nodesn ts pa = 0) →
  wp (mappages root (v * PGSIZE) PGSIZE pa perm) s
     (map_post s fl ts ext root t v (mkpte pa (Z.lor perm PTE_V))).
Proof.
  intros HS Ht Hv Hl Hok Hpa Hu. set (pte := mkpte pa (Z.lor perm PTE_V)) in *.
  assert (0 ≤ v * PGSIZE < MAXVA) as Hva by (rewrite MAXVA_pages; unfold PGSIZE; lia).
  unfold wp. rewrite mappages_one_eq by done. fold pte.
  match goal with |- match ?m s with _ => _ end => change (wp m s
    (map_post s fl ts ext root t v pte)) end.
  apply wp_bind. wp_call walk_alloc; [done..|].
  intros r s1 (fl' & nodes' & HS1 & Hsub & Hsuf & Hg & Hr & Hpath). cbv zeta in *.
  rewrite prefix_page in *.
  destruct Hr as [(-> & -> & Hnone)|(p0 & Hp0 & Hvp & ->)].
  { apply wp_ret. exists [], nodes'. split; [done|split; [done|split]].
    - intros [x Hx]. congruence.
    - by left. }
  rewrite slot_pos by done. apply wp_bind. unfold load64. apply wp_gets.
  set (t1 := PTree nodes' (pt_leaves t)) in *. set (ts1 := <[root:=t1]> ts) in *.
  assert (ts1 !! root = Some t1) as Ht1 by apply lookup_insert_eq.
  pose proof (Sinv_wf _ _ _ _ _ _ HS1 Ht1) as Hwf1.
  rewrite (noleaf_slot _ root t1) by (first [done | lia | by rewrite page_addr | by rewrite prefix_page]).
  apply wp_bind. unfold store64, update_ram. apply wp_modify, wp_ret.
  assert (Sinv (set_ram (st64 (ram s1) (p0 + 8 * PX 0 (v * PGSIZE)) pte) s1) fl'
     (<[root := leaf_set t1 v (Some pte)]> ts1) (λ q, ext q - leaf_cnt v (Some pte) q)) as HS2.
  { eapply Sinv_ext_eq.
    - rewrite <- (page_split v) at 2. eapply Sinv_leaf_upd; try done.
      + apply PX_range. lia.
      + by apply mkpte_leaf_range.
      + rewrite page_split, Hpa. split; [done|split; [done|]]. intros Hlt.
        destruct (Hu Hlt) as (Hvp' & Hrc & Hn). destruct (Hg pa Hvp' Hrc) as (-> & -> & _). done.
    - intros q; simpl. rewrite page_split, Hl. simpl. lia. }
  exists fl', nodes'. unfold ts1 in HS2. rewrite insert_insert_eq in HS2.
  split; [done|split; [done|split]].
  { intros Hx. destruct (Hpath Hx) as (? & _ & ?). done. }
  right. split; [done|]. split; [exact HS2|].
  eapply grows_trans; [exact Hg|]. fold ts1.
  intros q Hq Hrc. split; [done|]. split.
  - pose proof (nodesn_leaf_set ts1 root t1 v (Some pte) q Ht1) as E. unfold ts1 in E at 1.
    rewrite insert_insert_eq in E. exact E.
  - intros Hnq a Ha. cbn [ram set_ram]. apply ld8_st64_out.
    assert (q ≠ p0) as Hne.
    { intros ->. pose proof (nodesn_pos ts1 root t1 _ _ Ht1 Hp0). lia. }
    pose proof (PX_range 0 (v * PGSIZE)). destruct (vpage_disjoint q p0 Hq Hvp Hne); unfold PGSIZE in *; lia.
Qed.

(** ** Unmapping *)

Lemma shrinks_refl s ts : shrinks s ts s.
Proof. intros q _ _. split; [lia|done]. Qed.

(** One turn of the loop of [uvmunmap] with [do_free] on a user page. *)
Definition unmap_body root : Z → M kst unit := λ a,
  pte ← walk root a false;
  if pte =? 0 then panic "uvmunmap: walk"
  else
    v ← load64 pte;
    if negb (has v PTE_V) then panic "uvmunmap: not mapped"
    else if PTE_FLAGS v =? PTE_V then panic "uvmunmap: not a leaf"
    else kfree (PTE2PA v);; store64 pte 0.

Lemma unmap_one s fl ts ext root t v pte :
  Sinv s fl ts ext → ts !! root = Some t → 0 ≤ v → v < UVPN →
  pt_leaves t !! v = Some pte → 0 ≤ ext (PTE2PA pte) →
  wp (unmap_body root (v * PGSIZE)) s (λ _ s', ∃ fl',
    Sinv s' fl' (<[root := leaf_set t v None]> ts) ext ∧ shrinks s ts s' ∧
    (fl' = fl ∨ fl' = PTE2PA pte :: fl) ∧
    (∀ q, vpage q → refcount s' q = refcount s q - if decide (PTE2PA pte = q) then 1 else 0)).
Proof.
  intros HS Ht Hv0 Hv Hl He. pose proof (Sinv_wf _ _ _ _ _ _ HS Ht) as Hwf.
  assert (0 ≤ v * PGSIZE < MAXVA) as Hva
    by (pose proof UVPN_lt; rewrite MAXVA_pages; unfold PGSIZE; lia).
  destruct (leaf_slot _ _ _ (v * PGSIZE) pte Hwf ltac:(lia)) as (p0 & Hp0 & Hvp & Hld);
    [by rewrite page_addr|].
  destruct (pt_wf_leaf _ _ _ _ _ Hwf Hl) as ((HV & Hne & _) & _).
  unfold unmap_body. apply wp_bind. eapply ok_wp; [by eapply walk_slot|].
  rewrite slot_pos by done. apply wp_bind. unfold load64. apply wp_gets.
  rewrite Hld, HV, (proj2 (Z.eqb_neq _ _)) by done. cbn [negb].
  rewrite prefix_page in Hp0. apply wp_bind.
  eapply wp_mono; [eapply (Sinv_unmap_free s fl ts ext root t (v / 512) p0 (PX 0 (v * PGSIZE)) pte);
    try done; [apply PX_range; lia|by rewrite page_split..]|].
  rewrite page_split. intros [] s1 (fl' & HS1 & (Hf & Hsame & Href) & Hfl).
  unfold store64, update_ram. apply wp_modify. exists fl'.
  destruct (Sinv_leaf _ _ _ _ _ _ _ _ HS Ht Hl Hv) as (Hvpa & _ & Hn0).
  destruct (Sinv_node _ _ _ _ _ _ _ _ HS Ht Hp0) as (_ & _ & Hpn & _).
  split; [done|split; [|split; [done|]]].
  - intros q Hq Hr. change (refcount (set_ram _ s1) q) with (refcount s1 q).
    rewrite Href by done. split; [case_decide; subst; lia|].
    intros Hnq Hpos a Ha. cbn [ram set_ram].
    assert (q ≠ p0) as Hne0 by (intros ->; lia).
    rewrite ld8_st64_out
      by (pose proof (PX_range 0 (v * PGSIZE)); destruct (vpage_disjoint q p0 Hq Hvp Hne0); unfold PGSIZE in *; lia).
    destruct (decide (PTE2PA pte = q)) as [<-|Hne1]; [by rewrite Hsame by lia|].
    apply Hf. destruct (vpage_disjoint q (PTE2PA pte) Hq Hvpa); [congruence|unfold PGSIZE in *; lia..].
  - intros q Hq. change (refcount (set_ram _ s1) q) with (refcount s1 q).
    rewrite Href by done. case_decide; subst; lia.
Qed.

Lemma filter_outside_0 (l : gmap Z Z) v0 : filter (outside v0 0) l = l.
Proof. apply map_filter_id. intros i x _. unfold outside; simpl. lia. Qed.

Lemma filter_outside_S (l : gmap Z Z) v0 k : 0 ≤ k →
  filter (outside v0 (k + 1)) l = delete (v0 + k) (filter (outside v0 k) l).
Proof.
  intros Hk. apply map_eq. intros i. apply option_eq. intros x.
  rewrite lookup_delete_Some, !map_lookup_filter_Some. unfold outside; simpl.
  split; intros; destruct_and?; repeat split; try done; lia.
Qed.

(** [uvmunmap] with [do_free] drops exactly the mappings of the range, and
    one reference for each. *)
Lemma uvmunmap_free s fl ts ext root t v0 n :
  Sinv s fl ts ext → ts !! root = Some t → 0 ≤ v0 → 0 ≤ n → v0 + n ≤ UVPN →
  (∀ v, v0 ≤ v < v0 + n → is_Some (pt_leaves t !! v)) → (∀ p, 0 ≤ ext p) →
  wp (uvmunmap root (v0 * PGSIZE) n true) s (λ _ s', ∃ fl',
    Sinv s' fl' (<[root := PTree (pt_nodes t) (filter (outside v0 n) (pt_leaves t))]> ts) ext ∧
    shrinks s ts s').
Proof.
  intros HS Ht Hv0 Hn Hu Hall Hext. unfold uvmunmap. rewrite page_aligned. simpl negb. cbv iota.
  pose proof UVPN_lt as Hul. rewrite u64_small by (unfold PGSIZE; lia).
  set (lim := v0 * PGSIZE + n * PGSIZE).
  eapply (wp_while (λ a s', ∃ k fl', a = (v0 + k) * PGSIZE ∧ 0 ≤ k ≤ n ∧
    Sinv s' fl' (<[root := PTree (pt_nodes t) (filter (outside v0 k) (pt_leaves t))]> ts) ext ∧
    shrinks s ts s') (λ a, Z.to_nat ((lim - a) / PGSIZE))).
  - intros a s' (k & fl' & -> & Hk & HS' & Hsh).
    destruct (decide (k = n)) as [->|Hkn].
    { rewrite (proj2 (Z.ltb_ge _ _)) by (unfold lim; lia). apply wp_ret. eauto. }
    rewrite (proj2 (Z.ltb_lt _ _)) by (unfold lim, PGSIZE; lia). cbn [negb].
    destruct (Hall (v0 + k)) as [pte Hpte]; [lia|].
    set (tk := PTree (pt_nodes t) (filter (outside v0 k) (pt_leaves t))) in *.
    set (tsk := <[root:=tk]> ts) in *.
    assert (tsk !! root = Some tk) as Htk by apply lookup_insert_eq.
    assert (pt_leaves tk !! (v0 + k) = Some pte) as Hlk.
    { simpl. apply map_lookup_filter_Some. split; [done|]. unfold outside; simpl. lia. }
    pose proof (unmap_one _ _ _ _ _ _ (v0 + k) pte HS' Htk ltac:(lia) ltac:(lia) Hlk (Hext _)) as Hone.
    unfold unmap_body in Hone. apply wp_bind_inv in Hone. apply wp_bind.
    eapply wp_mono; [exact Hone|]. cbv beta. intros r s1 Hw.
    destruct (r =? 0); [done|]. apply wp_bind_inv in Hw. apply wp_bind.
    eapply wp_mono; [exact Hw|]. cbv beta. intros w s2 Hw2.
    destruct (negb (has w PTE_V)); [done|]. destruct (PTE_FLAGS w =? PTE_V); [done|].
    apply wp_bind_inv in Hw2. apply wp_bind. eapply wp_mono; [exact Hw2|]. cbv beta.
    intros [] s3 Hw3. apply wp_bind. eapply wp_mono; [exact Hw3|].
    intros [] s4 (fl4 & HS4 & Hsh4 & _ & Hrc4). apply wp_ret. split.
    + exists (k + 1), fl4. split; [lia|split; [lia|split]].
      * unfold tsk in HS4. rewrite insert_insert_eq in HS4. rewrite filter_outside_S by lia. exact HS4.
      * intros q Hq Hr. destruct (Hsh q Hq Hr) as [Hle Hb].
        assert (refcount s4 q ≤ refcount s' q) as Hle4 by (rewrite Hrc4 by done; case_decide; lia).
        split; [lia|]. intros Hnq Hpos a Ha.
        assert (0 < refcount s' q) as Hpos' by lia.
        destruct (Hsh4 q Hq Hpos') as [_ Hb4]. rewrite Hb4 by
          (try done; unfold tsk, tk; rewrite <- Hnq; unfold nodesn;
           rewrite (total_update _ ts root t) by done; unfold nodes_in; simpl; lia).
        by apply Hb.
    + unfold lim, PGSIZE. clear -Hk Hkn. div_lia.
  - exists 0, fl. rewrite filter_outside_0. split; [lia|split; [lia|split; [|apply shrinks_refl]]].
    replace (PTree (pt_nodes t) (pt_leaves t)) with t by (by destruct t). by rewrite insert_id.
  - unfold page_fuel, lim. rewrite Z.min_l by (rewrite MAXVA_pages; unfold PGSIZE; lia).
    unfold PGSIZE. clear -Hn. div_lia.
Qed.
End map.
