(* ===== verification/CowCopy.v ===== *)
(** Copy-on-write fork: what [uvmcopy] of kernel/vm.c does to the page
    tables, the reference counts and the memory of parent and child. *)
From S2P Require Import Prelude Riscv Memory Kalloc Vm VmInv VmSys VmWalk VmMap.

(** ** Definitions *)

(** The entry a writable page gets in both tables; others are copied. *)
Definition cow_pte (pte : Z) : Z := if has pte PTE_W then cow_flags pte else pte.

(** The parent's entries once the first [k] virtual pages have been shared,
    and the child's entries for them. *)
Definition cow_upto (k : Z) (l : gmap Z Z) : gmap Z Z :=
  map_imap (λ v pte, Some (if decide (v < k) then cow_pte pte else pte)) l.
Definition cow_child (k : Z) (l : gmap Z Z) : gmap Z Z :=
  filter (λ x, x.1 < k) (cow_pte <$> l).

Section cow_defs.
Context `{L : Layout}.

(** Pages in use stay in use, keep their role and, if data, their bytes. *)
Definition preserves (s : kst) (ts : gmap Z ptree) (s' : kst) (ts' : gmap Z ptree) : Prop :=
  ∀ q, vpage q → 0 < refcount s q →
    refcount s q ≤ refcount s' q ∧ nodesn ts' q = nodesn ts q ∧
    (nodesn ts q = 0 → ∀ a, q ≤ a < q + PGSIZE → ld8 (ram s') a = ld8 (ram s) a).

(** The number of pages [sz] bytes take. *)
Definition pages_of (sz : Z) : Z := (sz + PGSIZE - 1) / PGSIZE.

Definition uvmcopy_post (s : kst) (ts : gmap Z ptree) (ext : Z → Z)
    (old new sz : Z) (told tnew : ptree) (r : Z) (s' : kst) : Prop :=
  ∃ fl' nodes' k leaves',
    let ts' := <[new := PTree nodes' leaves']>
                 (<[old := PTree (pt_nodes told) (cow_upto k (pt_leaves told))]> ts) in
    pt_nodes tnew ⊆ nodes' ∧ Sinv s' fl' ts' ext ∧ preserves s ts s' ts' ∧
    ((r = 0 ∧ k = pages_of sz ∧ leaves' = cow_child k (pt_leaves told) ∪ pt_leaves tnew) ∨
     (r = -1 ∧ 0 ≤ k ≤ pages_of sz ∧ leaves' = pt_leaves tnew)).
End cow_defs.

(** ** Bits of COW entries *)

Section cow_bits.
Context `{L : Layout} `{!LayoutOk}.

Lemma cow_flags_testbit x i : 0 ≤ i →
  Z.testbit (cow_flags x) i = if decide (i = 8) then true else if decide (i = 2) then false else Z.testbit x i.
Proof.
  intros Hi. unfold cow_flags, PTE_COW, PTE_W.
  rewrite Z.land_spec, Z.lor_spec, Z.lnot_spec by done.
  change (1 ≪ 8) with (2 ^ 8). change (1 ≪ 2) with (2 ^ 2).
  rewrite !Z.pow2_bits_eqb by lia.
  destruct (Z.eqb_spec 8 i), (Z.eqb_spec 2 i); repeat case_decide; try lia; cbn [negb];
    by rewrite ?orb_true_r, ?orb_false_r, ?andb_true_r, ?andb_false_r.
Qed.

Lemma cow_flags_high x : Z.shiftr (cow_flags x) 10 = Z.shiftr x 10.
Proof.
  apply Z.bits_inj'. intros i Hi. rewrite !Z.shiftr_spec by done.
  rewrite cow_flags_testbit by lia. by rewrite !decide_False by lia.
Qed.

Lemma cow_flags_pa x : PTE2PA (cow_flags x) = PTE2PA x.
Proof. unfold PTE2PA. by rewrite cow_flags_high. Qed.

Lemma cow_flags_low x : PTE_FLAGS (cow_flags x) = cow_flags (PTE_FLAGS x).
Proof.
  apply Z.bits_inj'. intros i Hi. unfold PTE_FLAGS. change 0x3FF with (Z.ones 10).
  rewrite Z.land_spec, !cow_flags_testbit, Z.land_spec by done.
  destruct (decide (i < 10)).
  - rewrite Z.ones_spec_low by lia. repeat case_decide; rewrite ?andb_true_r; done.
  - rewrite Z.ones_spec_high by lia. rewrite !decide_False by lia. by rewrite !andb_false_r.
Qed.

Lemma cow_flags_small f : 0 ≤ f < 1024 → 0 ≤ cow_flags f < 1024.
Proof.
  intros Hf. rewrite <- (Z.mod_small f 1024), <- PTE_FLAGS_eq, <- cow_flags_low by lia.
  apply PTE_FLAGS_range.
Qed.

Lemma has_V_flags x : has (PTE_FLAGS x) PTE_V = has x PTE_V.
Proof.
  rewrite !has_V. unfold PTE_FLAGS. change 0x3FF with (Z.ones 10).
  by rewrite Z.land_spec, Z.ones_spec_low, andb_true_r by lia.
Qed.

Lemma cow_pte_pa x : PTE2PA (cow_pte x) = PTE2PA x.
Proof. unfold cow_pte. case_match; [apply cow_flags_pa|done]. Qed.

Lemma cow_pte_no_W x : has (cow_pte x) PTE_W = false.
Proof.
  unfold cow_pte. destruct (has x PTE_W) eqn:E; [|done].
  rewrite has_W, cow_flags_testbit by done. done.
Qed.

Lemma cow_pte_U x : has (cow_pte x) PTE_U = has x PTE_U.
Proof.
  unfold cow_pte. case_match; [|done]. rewrite !has_U, cow_flags_testbit by done. done.
Qed.

Lemma cow_pte_idemp x : cow_pte (cow_pte x) = cow_pte x.
Proof. unfold cow_pte at 1. by rewrite cow_pte_no_W. Qed.

Lemma pa_page_number pte : leaf_ok pte → ∃ n, PTE2PA pte = n * PGSIZE ∧ 0 ≤ n < 2 ^ 44.
Proof.
  intros (_ & _ & Hm & Hlt & _). exists (PTE2PA pte / PGSIZE).
  pose proof (u64_range (Z.shiftl (Z.shiftr pte 10) 12)) as Hr. fold (PTE2PA pte) in Hr.
  unfold PGSIZE in *. div_lia.
Qed.

Lemma lor_V_id f : has f PTE_V = true → Z.lor f PTE_V = f.
Proof.
  intros Hf. rewrite has_V in Hf. apply Z.bits_inj'. intros i Hi. rewrite Z.lor_spec.
  unfold PTE_V. change (1 ≪ 0) with (2 ^ 0). rewrite Z.pow2_bits_eqb by lia.
  destruct (Z.eqb_spec 0 i) as [<-|]; [by rewrite Hf|apply orb_false_r].
Qed.

(** An entry rebuilt from its page and its (changed) flags. *)
Lemma leaf_rebuild pte f : leaf_ok pte → 0 ≤ f < 1024 → has f PTE_V = true → f ≠ PTE_V →
  leaf_ok (mkpte (PTE2PA pte) f) ∧ PTE2PA (mkpte (PTE2PA pte) f) = PTE2PA pte ∧
  PTE_FLAGS (mkpte (PTE2PA pte) f) = f.
Proof.
  intros Hok Hf HV Hne. destruct (pa_page_number pte Hok) as (n & -> & Hn).
  split; [by apply leaf_ok_mk|]. unfold mkpte. split; [apply PTE2PA_mkpte|apply PTE_FLAGS_mkpte]; lia.
Qed.

Lemma mkpte_inj_bits x y : leaf_ok x → 0 ≤ y → Z.shiftr x 10 = Z.shiftr y 10 →
  y = mkpte (PTE2PA x) (PTE_FLAGS y).
Proof.
  intros (_ & _ & _ & _ & E) Hy Hs.
  assert (Z.shiftr (mkpte (PTE2PA x) (PTE_FLAGS x)) 10 = Z.shiftr (PA2PTE (PTE2PA x)) 10) as E1.
  { unfold mkpte. rewrite Z.shiftr_lor, (shiftr_flags (PTE_FLAGS x)), Z.lor_0_r by apply PTE_FLAGS_range. done. }
  rewrite <- E, Hs in E1. clear E. unfold mkpte.
  assert (∀ i, 0 ≤ i < 10 → Z.testbit (PA2PTE (PTE2PA x)) i = false) as Hlow.
  { intros i Hi. unfold PA2PTE, u64. rewrite <- Z.land_ones by lia. rewrite Z.land_spec.
    rewrite Z.shiftl_spec_low by lia. done. }
  apply Z.bits_inj'. intros i Hi. rewrite Z.lor_spec. unfold PTE_FLAGS.
  change 0x3FF with (Z.ones 10). rewrite Z.land_spec.
  destruct (decide (i < 10)).
  - rewrite Hlow, Z.ones_spec_low by lia. by rewrite andb_true_r.
  - rewrite Z.ones_spec_high, andb_false_r, orb_false_r by lia.
    replace i with ((i - 10) + 10) by lia. rewrite <- !Z.shiftr_spec by lia. by rewrite E1.
Qed.

Lemma cow_flags_nonneg x : 0 ≤ x → 0 ≤ cow_flags x.
Proof.
  intros Hx. unfold cow_flags. apply Z.land_nonneg. left. apply Z.lor_nonneg. done.
Qed.

Lemma cow_pte_mk pte : leaf_ok pte →
  cow_pte pte = mkpte (PTE2PA pte) (if has pte PTE_W then cow_flags (PTE_FLAGS pte) else PTE_FLAGS pte).
Proof.
  intros Hok. pose proof (mkpte_leaf_range pte Hok). unfold cow_pte. case_match.
  - rewrite <- cow_flags_low. apply mkpte_inj_bits; [done|apply cow_flags_nonneg; lia|].
    symmetry. apply cow_flags_high.
  - by destruct Hok as (_ & _ & _ & _ & <-).
Qed.

Lemma cow_flags_V f : has f PTE_V = true → has (cow_flags f) PTE_V = true.
Proof. rewrite !has_V, cow_flags_testbit by done. done. Qed.

Lemma cow_flags_ne_V f : cow_flags f ≠ PTE_V.
Proof.
  intros E. assert (Z.testbit (cow_flags f) 8 = true) as Hb by (by rewrite cow_flags_testbit).
  rewrite E in Hb. done.
Qed.

(** The flags [uvmcopy] hands to [mappages] rebuild the COW entry. *)
Lemma cow_map_args pte : leaf_ok pte →
  let flags := if has pte PTE_W then cow_flags (PTE_FLAGS pte) else PTE_FLAGS pte in
  mkpte (PTE2PA pte) (Z.lor flags PTE_V) = cow_pte pte ∧ leaf_ok (cow_pte pte).
Proof.
  intros Hok flags. pose proof Hok as (HV & Hne & _). rewrite cow_pte_mk by done. fold flags.
  pose proof (PTE_FLAGS_range pte).
  assert (has flags PTE_V = true) as HVf.
  { unfold flags. case_match; [apply cow_flags_V|]; by rewrite has_V_flags. }
  split; [by rewrite lor_V_id|]. apply leaf_rebuild; [done| |done|].
  - unfold flags. case_match; [by apply cow_flags_small|done].
  - unfold flags. case_match; [apply cow_flags_ne_V|done].
Qed.

(** ** The maps of entries *)

Lemma cow_upto_lookup k l v :
  cow_upto k l !! v = (λ pte, if decide (v < k) then cow_pte pte else pte) <$> l !! v.
Proof. unfold cow_upto. rewrite map_lookup_imap. by destruct (l !! v). Qed.

Lemma cow_upto_0 l : (∀ v, is_Some (l !! v) → 0 ≤ v) → cow_upto 0 l = l.
Proof.
  intros Hl. apply map_eq. intros v. rewrite cow_upto_lookup. destruct (l !! v) eqn:E; [|done].
  simpl. rewrite decide_False; [done|]. assert (0 ≤ v) by eauto. lia.
Qed.

Lemma cow_upto_S k l pte : l !! k = Some pte →
  partial_alter (λ _, Some (cow_pte pte)) k (cow_upto k l) = cow_upto (k + 1) l.
Proof.
  intros Hk. apply map_eq. intros v. rewrite lookup_partial_alter, !cow_upto_lookup.
  case_decide as E.
  - subst v. rewrite Hk. simpl. by rewrite decide_True by lia.
  - destruct (l !! v); [|done]. simpl. f_equal. repeat case_decide; (done || lia).
Qed.

Lemma cow_child_lookup k l v :
  cow_child k l !! v = if decide (v < k) then cow_pte <$> l !! v else None.
Proof.
  unfold cow_child. apply option_eq. intros x. rewrite map_lookup_filter_Some, lookup_fmap. simpl.
  case_decide; naive_solver.
Qed.

Lemma cow_child_0 l : (∀ v, is_Some (l !! v) → 0 ≤ v) → cow_child 0 l = ∅.
Proof.
  intros Hl. apply map_eq. intros v. rewrite cow_child_lookup, lookup_empty.
  case_decide; [|done]. destruct (l !! v) eqn:E; [|done]. assert (0 ≤ v) by eauto. lia.
Qed.

Lemma cow_child_S k l l2 pte : l !! k = Some pte →
  <[k := cow_pte pte]> (cow_child k l ∪ l2) = cow_child (k + 1) l ∪ l2.
Proof.
  intros Hk. rewrite insert_union_l. f_equal. apply map_eq. intros v.
  rewrite lookup_insert, !cow_child_lookup. case_decide as E.
  - subst v. rewrite Hk. simpl. by rewrite decide_True by lia.
  - repeat case_decide; (done || lia).
Qed.

Lemma cow_child_drop k l l2 : 0 ≤ k → (∀ v, is_Some (l !! v) → 0 ≤ v) →
  (∀ v, 0 ≤ v < k → l2 !! v = None) →
  filter (outside 0 k) (cow_child k l ∪ l2) = l2.
Proof.
  intros Hk Hl H2. apply map_eq. intros v. apply option_eq. intros x.
  rewrite map_lookup_filter_Some, lookup_union_Some_raw, cow_child_lookup. unfold outside; simpl.
  split.
  - intros [[Hc|[_ Hx]] Hout]; [|done]. case_decide as Hv; [|done].
    destruct (l !! v) as [y|] eqn:E; [|done]. assert (0 ≤ v) by (apply Hl; by eauto). lia.
  - intros Hx. assert (¬ (0 ≤ v < k)) as Hout by (intros Hv; rewrite H2 in Hx; done).
    split; [|lia]. right. split; [|done]. case_decide as Hv; [|done].
    destruct (l !! v) as [y|] eqn:E; [|done]. assert (0 ≤ v) by (apply Hl; by eauto). lia.
Qed.

Lemma refs_in_cow_upto n k l q : refs_in (PTree n (cow_upto k l)) q = refs_in (PTree n l) q.
Proof.
  unfold refs_in; simpl. apply countm_imap. intros v pte _. simpl.
  case_decide; [by rewrite cow_pte_pa|done].
Qed.
End cow_bits.

(** ** The copy *)

Section uvmcopy.
Context `{L : Layout} `{!LayoutOk}.
Implicit Types (s : kst) (fl : list Z) (ts : gmap Z ptree) (ext : Z → Z) (t : ptree).

Lemma preserves_refl s ts : preserves s ts s ts.
Proof. intros q _ _. split; [lia|done]. Qed.

Lemma preserves_trans s1 ts1 s2 ts2 s3 ts3 :
  preserves s1 ts1 s2 ts2 → preserves s2 ts2 s3 ts3 → preserves s1 ts1 s3 ts3.
Proof.
  intros H12 H23 q Hq Hr. destruct (H12 q Hq Hr) as (E1 & E2 & E3).
  destruct (H23 q Hq ltac:(lia)) as (F1 & F2 & F3).
  split; [lia|split; [lia|]]. intros Hn a Ha. rewrite F3 by (done || lia). by apply E3.
Qed.

Lemma grows_preserves s1 ts1 s2 ts2 : grows s1 ts1 s2 ts2 → preserves s1 ts1 s2 ts2.
Proof. intros Hg q Hq Hr. destruct (Hg q Hq Hr) as (? & ? & ?). split; [lia|done]. Qed.

(** Changing the flags of one user mapping in place. *)
Lemma leaf_reflag s fl ts ext root t v p0 pte pte' :
  Sinv s fl ts ext → ts !! root = Some t → pt_nodes t !! (0, v / 512) = Some p0 →
  pt_leaves t !! v = Some pte → v < UVPN → leaf_ok pte' → PTE2PA pte' = PTE2PA pte →
  let s' := set_ram (st64 (ram s) (p0 + 8 * PX 0 (v * PGSIZE)) pte') s in
  let ts' := <[root := leaf_set t v (Some pte')]> ts in
  Sinv s' fl ts' ext ∧ grows s ts s' ts'.
Proof.
  intros HS Ht Hp0 Hl Hv Hok Hpa s' ts'.
  destruct (Sinv_leaf _ _ _ _ _ _ _ _ HS Ht Hl Hv) as (Hvp & Hr & Hn).
  destruct (Sinv_node _ _ _ _ _ _ _ _ HS Ht Hp0) as (Hvp0 & _ & Hn1 & _).
  split.
  - eapply Sinv_ext_eq.
    + unfold s', ts'. rewrite <- (page_split v) at 2. eapply Sinv_leaf_upd; try done.
      * apply PX_range. lia.
      * by apply mkpte_leaf_range.
      * rewrite Hpa. done.
    + intros q. rewrite page_split, Hl. unfold leaf_cnt. rewrite Hpa. lia.
  - intros q Hq Hrq. split; [done|]. split; [by apply nodesn_leaf_set|].
    intros Hnq a Ha. unfold s'; cbn [ram set_ram]. apply ld8_st64_out.
    assert (q ≠ p0) as Hne by (intros ->; lia).
    pose proof (PX_range 0 (v * PGSIZE)). destruct (vpage_disjoint q p0 Hq Hvp0 Hne); unfold PGSIZE in *; lia.
Qed.

(** The part of a turn that marks the parent's entry. *)
Definition cow_mark (pte v : Z) : M kst Z :=
  if has v PTE_W then store64 pte (cow_flags v);; mret (cow_flags (PTE_FLAGS v))
  else mret (PTE_FLAGS v).

Lemma cow_mark_ok s fl ts ext root t k l p0 pte :
  Sinv s fl ts ext → ts !! root = Some t → pt_leaves t = cow_upto k l →
  pt_nodes t !! (0, k / 512) = Some p0 → l !! k = Some pte → leaf_ok pte → k < UVPN →
  wp (cow_mark (p0 + 8 * PX 0 (k * PGSIZE)) pte) s (λ flags s',
    let ts' := <[root := PTree (pt_nodes t) (cow_upto (k + 1) l)]> ts in
    flags = (if has pte PTE_W then cow_flags (PTE_FLAGS pte) else PTE_FLAGS pte) ∧
    Sinv s' fl ts' ext ∧ grows s ts s' ts').
Proof.
  intros HS Ht El Hp0 Hl Hok Hk. destruct (cow_map_args pte Hok) as [_ Hcok].
  assert (pt_leaves t !! k = Some pte) as Hlk.
  { rewrite El, cow_upto_lookup, Hl. simpl. by rewrite decide_False by lia. }
  assert (PTree (pt_nodes t) (cow_upto (k + 1) l) = leaf_set t k (Some (cow_pte pte))) as Hset.
  { unfold leaf_set. rewrite El. by rewrite cow_upto_S. }
  unfold cow_mark. destruct (has pte PTE_W) eqn:HW.
  - apply wp_bind. unfold store64, update_ram. apply wp_modify, wp_ret. cbv zeta.
    split; [done|]. rewrite Hset.
    replace (cow_flags pte) with (cow_pte pte) by (unfold cow_pte; by rewrite HW).
    eapply leaf_reflag; try done. apply cow_pte_pa.
  - apply wp_ret. cbv zeta. split; [done|]. rewrite Hset.
    assert (leaf_set t k (Some (cow_pte pte)) = t) as ->.
    { unfold leaf_set, cow_pte. rewrite HW. destruct t as [n lv]; simpl in *. f_equal.
      change (partial_alter (λ _, Some pte) k lv) with (<[k:=pte]> lv). by apply insert_id. }
    rewrite insert_id by done. split; [done|apply grows_refl].
Qed.

(** Taking the reference after a successful [mappages]. *)
Lemma incref_ok s fl ts ext pa v pte :
  Sinv s fl ts (λ q, ext q - leaf_cnt v (Some pte) q) → PTE2PA pte = pa → v < UVPN →
  vpage pa → 0 < refcount s pa → nodesn ts pa = 0 →
  wp (acquire_ref;; c ← get_ref pa; put_ref pa (c + 1);; release_ref) s (λ _ s',
    Sinv s' fl ts ext ∧ preserves s ts s' ts ∧ refcount s' pa = refcount s pa + 1).
Proof.
  intros HS Hpa Hv Hvp Hr Hn. pose proof (Sinv_incref _ _ _ _ _ HS Hvp Hr Hn) as HS'.
  pose proof (Sinv_kinv _ _ _ _ HS) as (Hl1 & Hl2 & _).
  assert (∀ q, vpage q → refcount (set_refs (<[page_of pa:=refcount s pa + 1]> (reference_counter s)) s) q
    = if decide (pa = q) then refcount s pa + 1 else refcount s q) as Href
    by (intros; by apply refcount_put).
  destruct s as [kl rl f rc m]; simpl in Hl1, Hl2; subst kl rl.
  apply wp_bind. k_step. k_steps. kst_simpl.
  split; [|split].
  - eapply Sinv_ext_eq; [exact HS'|]. intros q. unfold ext_add, leaf_cnt. rewrite Hpa.
    repeat case_decide; try lia; naive_solver.
  - intros q Hq Hrq. specialize (Href q Hq). unfold refcount in *; cbn in Href |- *.
    rewrite Href. split; [case_decide; subst; lia|done].
  - specialize (Href pa Hvp). unfold refcount in *; cbn in Href |- *. rewrite Href.
    by rewrite decide_True.
Qed.

Lemma nodesn_new_leaves ts r n l l' q : nodesn (<[r := PTree n l]> ts) q = nodesn (<[r := PTree n l']> ts) q.
Proof. unfold nodesn. by rewrite !total_insert. Qed.

(** The tables when [k] pages have been shared. *)
Definition cow_ts ts (old new : Z) (told : ptree) (nodes' : gmap (Z * Z) Z) (k : Z) (leaves' : gmap Z Z) :=
  <[new := PTree nodes' leaves']>
    (<[old := PTree (pt_nodes told) (cow_upto k (pt_leaves told))]> ts).

(** Once the child's part is gone, every page has its references of before. *)
Lemma refs_cow_ts ts old new told tnew n' k q :
  ts !! old = Some told → ts !! new = Some tnew → old ≠ new →
  refs (cow_ts ts old new told n' k (pt_leaves tnew)) q = refs ts q.
Proof.
  intros Ho Hn Hne. unfold refs, cow_ts.
  rewrite (total_update _ _ new tnew) by (by rewrite lookup_insert_ne).
  rewrite (total_update _ _ old told) by done.
  rewrite refs_in_cow_upto. unfold refs_in; simpl. lia.
Qed.

(** Undoing the copy restores the counts. *)
Lemma preserves_undo s fl ts ext s1 s2 fl2 old new told tnew n' k l1 :
  Sinv s fl ts ext → ts !! old = Some told → ts !! new = Some tnew → old ≠ new →
  preserves s ts s1 (cow_ts ts old new told n' k l1) →
  shrinks s1 (cow_ts ts old new told n' k l1) s2 →
  Sinv s2 fl2 (cow_ts ts old new told n' k (pt_leaves tnew)) ext →
  preserves s ts s2 (cow_ts ts old new told n' k (pt_leaves tnew)).
Proof.
  intros HS Ho Hn Hne Hp Hs HS2 q Hq Hr. destruct (Hp q Hq Hr) as (E1 & E2 & E3).
  assert (nodesn (cow_ts ts old new told n' k (pt_leaves tnew)) q = nodesn ts q) as EN
    by (rewrite <- E2; apply nodesn_new_leaves).
  destruct (Sinv_page _ _ _ _ _ HS Hq) as (Hc & _).
  destruct (Sinv_page _ _ _ _ _ HS2 Hq) as (Hc2 & _).
  rewrite refs_cow_ts, EN in Hc2 by done.
  destruct (Hs q Hq ltac:(lia)) as (F1 & F2).
  split; [lia|split; [done|]]. intros Hn0 a Ha. rewrite F2 by (done || lia). by apply E3.
Qed.

Definition uvmcopy_body (old new sz i : Z) : M kst (Z + Z) :=
  if negb (i <? sz) then mret (inr 0)
  else
    pte ← walk old i false;
    if pte =? 0 then panic "uvmcopy: pte should exist"
    else
      v ← load64 pte;
      if negb (has v PTE_V) then panic "uvmcopy: page not present"
      else
        flags ← cow_mark pte v;
        r ← mappages new i PGSIZE (PTE2PA v) flags;
        if negb (r =? 0) then
          uvmunmap new 0 (i / PGSIZE) true;; mret (inr (-1))
        else
          (acquire_ref;; c ← get_ref (PTE2PA v); put_ref (PTE2PA v) (c + 1);; release_ref);;
          mret (inl (i + PGSIZE)).

Lemma uvmcopy_unfold old new sz s :
  uvmcopy old new sz s = while_ (page_fuel 0 sz) (uvmcopy_body old new sz) 0 s.
Proof.
  apply while_ext. clear s. intros a s. unfold uvmcopy_body, cow_mark.
  destruct (negb (a <? sz)); [done|]. unfold mbind, M_bind, load64, gets, store64, update_ram, modify, mret, M_ret.
  destruct (walk old a false s) as [[pte s1]| |]; [|done..].
  destruct (pte =? 0); [done|]. destruct (negb _); [done|].
  destruct (has _ PTE_W); repeat (case_match; simplify_eq; try done).
Qed.

Lemma cow_ts_mark ts old new told n k k' l : old ≠ new →
  <[old := PTree (pt_nodes told) (cow_upto k' (pt_leaves told))]> (cow_ts ts old new told n k l) =
  cow_ts ts old new told n k' l.
Proof. intros Hne. unfold cow_ts. by rewrite insert_insert_ne, insert_insert_eq by done. Qed.

Lemma cow_ts_new ts old new told n k l n' l' :
  <[new := PTree n' l']> (cow_ts ts old new told n k l) = cow_ts ts old new told n' k l'.
Proof. unfold cow_ts. by rewrite insert_insert_eq. Qed.

Definition uvmcopy_inv s ts ext (old new : Z) (told tnew : ptree) (k : Z) s' : Prop :=
  ∃ fl' n', let ts' := cow_ts ts old new told n' k (cow_child k (pt_leaves told) ∪ pt_leaves tnew) in
    pt_nodes tnew ⊆ n' ∧ Sinv s' fl' ts' ext ∧ preserves s ts s' ts'.

Section turn.
Context s fl ts ext (old new sz : Z) (told tnew : ptree).
Context (HS : Sinv s fl ts ext) (Ho : ts !! old = Some told) (Hn : ts !! new = Some tnew).
Context (Hne : old ≠ new) (Hsz : 0 ≤ sz ≤ UVPN * PGSIZE) (Hext : ∀ p, 0 ≤ ext p).
Context (Hmapped : ∀ v, 0 ≤ v < pages_of sz → is_Some (pt_leaves told !! v)).
Context (Hfree : ∀ v, 0 ≤ v < pages_of sz → pt_leaves tnew !! v = None).

Lemma told_nonneg v : is_Some (pt_leaves told !! v) → 0 ≤ v.
Proof. intros [pte Hv]. by destruct (pt_wf_leaf _ _ _ _ _ (Sinv_wf _ _ _ _ _ _ HS Ho) Hv) as (_ & ? & _). Qed.

(** The failed turn: what was mapped so far is unmapped again. *)
Lemma uvmcopy_fail k n' fl' s' :
  0 ≤ k ≤ pages_of sz → pages_of sz ≤ UVPN → pt_nodes tnew ⊆ n' →
  let ts1 := cow_ts ts old new told n' (k + 1) (cow_child k (pt_leaves told) ∪ pt_leaves tnew) in
  Sinv s' fl' ts1 ext → preserves s ts s' ts1 → k + 1 ≤ pages_of sz →
  wp (uvmunmap new 0 k true;; mret (inr (-1) : Z + Z)) s' (λ r s2,
    r = inr (-1) ∧ uvmcopy_post s ts ext old new sz told tnew (-1) s2).
Proof.
  intros Hk Hp Hsub ts1 HS1 Hpr Hk1. apply wp_bind. change 0 with (0 * PGSIZE) at 1.
  wp_call (uvmunmap_free s' fl' ts1 ext new
    (PTree n' (cow_child k (pt_leaves told) ∪ pt_leaves tnew)) 0 k); try done; try lia.
  - apply lookup_insert_eq.
  - intros v Hv. simpl. apply lookup_union_is_Some. left. rewrite cow_child_lookup.
    rewrite decide_True by lia. apply fmap_is_Some, Hmapped. lia.
  - intros [] s2 (fl2 & HS2 & Hsh). apply wp_ret. split; [done|].
    unfold ts1, cow_ts in HS2. cbn [pt_nodes pt_leaves] in HS2. rewrite insert_insert_eq in HS2.
    rewrite cow_child_drop in HS2 by (try lia; try apply told_nonneg; intros; apply Hfree; lia).
    exists fl2, n', (k + 1), (pt_leaves tnew). split; [done|]. split; [done|]. split.
    + by eapply (preserves_undo s fl ts ext s' s2 fl2 old new told tnew).
    + right. split; [done|]. split; [lia|done].
Qed.

Definition turn_post k (r : Z + Z) s2 : Prop :=
  (r = inl ((k + 1) * PGSIZE) ∧ uvmcopy_inv s ts ext old new told tnew (k + 1) s2) ∨
  (r = inr (-1) ∧ uvmcopy_post s ts ext old new sz told tnew (-1) s2).

(** The second half of a turn: mapping the shared page in the child. *)
Lemma uvmcopy_map k pte fl1 n1 s2 : 0 ≤ k < pages_of sz → pages_of sz ≤ UVPN →
  pt_leaves told !! k = Some pte → leaf_ok pte → pt_nodes tnew ⊆ n1 →
  let ts2 := cow_ts ts old new told n1 (k + 1) (cow_child k (pt_leaves told) ∪ pt_leaves tnew) in
  Sinv s2 fl1 ts2 ext → preserves s ts s2 ts2 →
  wp (r ← mappages new (k * PGSIZE) PGSIZE (PTE2PA pte)
            (if has pte PTE_W then cow_flags (PTE_FLAGS pte) else PTE_FLAGS pte);
      if negb (r =? 0) then uvmunmap new 0 (k * PGSIZE / PGSIZE) true;; mret (inr (-1))
      else (acquire_ref;; c ← get_ref (PTE2PA pte); put_ref (PTE2PA pte) (c + 1);; release_ref);;
           mret (inl (k * PGSIZE + PGSIZE))) s2 (turn_post k).
Proof.
  intros Hk Hpu Hpte Hok Hsub ts2 HS2 Hpr2. pose proof UVPN_lt as Hul.
  set (lv := cow_child k (pt_leaves told) ∪ pt_leaves tnew) in *.
  destruct (cow_map_args pte Hok) as [Emk Hcok].
  assert (ts2 !! old = Some (PTree (pt_nodes told) (cow_upto (k + 1) (pt_leaves told)))) as Ho2.
  { unfold ts2, cow_ts. by rewrite lookup_insert_ne, lookup_insert_eq by done. }
  assert (vpage (PTE2PA pte) ∧ 0 < refcount s2 (PTE2PA pte) ∧ nodesn ts2 (PTE2PA pte) = 0) as Hpa.
  { rewrite <- (cow_pte_pa pte). eapply (Sinv_leaf _ _ _ _ _ _ k); [done..| |lia]. simpl.
    rewrite cow_upto_lookup, Hpte. simpl. by rewrite decide_True by lia. }
  apply wp_bind. eapply wp_mono.
  { eapply (mappages_one s2 fl1 ts2 ext new (PTree n1 lv) k); try done.
    - apply lookup_insert_eq.
    - lia.
    - simpl. apply lookup_union_None. rewrite cow_child_lookup, decide_False by lia. split; [done|].
      apply Hfree. lia.
    - by rewrite Emk.
    - rewrite Emk. apply cow_pte_pa. }
  rewrite Emk. intros r s3 (fl3 & n3 & Hsub3 & _ & _ & Hcase). cbn [pt_nodes pt_leaves] in *.
  unfold ts2 in Hcase. rewrite !cow_ts_new in Hcase. fold ts2 in Hcase.
  assert (pt_nodes tnew ⊆ n3) as Hsub' by (by etrans).
  destruct Hcase as [(-> & _ & HS3 & Hg3)|(-> & HS3 & Hg3)].
  - cbn [negb Z.eqb]. rewrite page_addr. wp_call uvmcopy_fail; try done; try lia.
    + eapply preserves_trans; [done|by apply grows_preserves].
    + intros r s4 [-> Hpost]. by right.
  - rewrite Z.eqb_refl. cbn [negb]. unfold lv in HS3, Hg3. rewrite cow_child_S in HS3, Hg3 by done.
    destruct Hpa as (Hq & Hr2 & Hn2). destruct (Hg3 _ Hq Hr2) as (Er3 & En3 & _).
    apply wp_bind. eapply wp_mono.
    { eapply (incref_ok s3 fl3 _ ext (PTE2PA pte) k (cow_pte pte)); try done; try lia.
      apply cow_pte_pa. }
    intros [] s4 (HS4 & Hpr4 & _). apply wp_ret. left. split; [f_equal; lia|].
    exists fl3, n3. cbv zeta. split; [done|split; [done|]].
    eapply preserves_trans; [done|]. eapply preserves_trans; [by apply grows_preserves|done].
Qed.

(** A turn either shares one page or fails and undoes the copy. *)
Lemma uvmcopy_turn k s1 : 0 ≤ k < pages_of sz →
  uvmcopy_inv s ts ext old new told tnew k s1 →
  wp (uvmcopy_body old new sz (k * PGSIZE)) s1 (turn_post k).
Proof.
  intros Hk (fl1 & n1 & Hsub & HS1 & Hpr). cbv zeta in *.
  assert (pages_of sz ≤ UVPN) as Hpu by (unfold pages_of, PGSIZE in *; div_lia).
  assert (k * PGSIZE < sz) as Hlt by (unfold pages_of, PGSIZE in *; div_lia).
  pose proof UVPN_lt as Hul.
  assert (0 ≤ k * PGSIZE < MAXVA) as Hva by (rewrite MAXVA_pages; unfold PGSIZE; lia).
  destruct (Hmapped k ltac:(lia)) as [pte Hpte].
  set (ts1 := cow_ts _ _ _ _ _ _ _) in HS1, Hpr.
  set (t1 := PTree (pt_nodes told) (cow_upto k (pt_leaves told))).
  assert (ts1 !! old = Some t1) as Ho1 by (unfold ts1, cow_ts; rewrite lookup_insert_ne, lookup_insert_eq; done).
  pose proof (Sinv_wf _ _ _ _ _ _ HS1 Ho1) as Hwf1.
  assert (pt_leaves t1 !! k = Some pte) as Hlk.
  { simpl. rewrite cow_upto_lookup, Hpte. simpl. by rewrite decide_False by lia. }
  destruct (leaf_slot _ _ _ (k * PGSIZE) pte Hwf1 ltac:(lia)) as (p0 & Hp0 & Hvp & Hld);
    [by rewrite page_addr|].
  destruct (pt_wf_leaf _ _ _ _ _ Hwf1 Hlk) as (Hok & _ & _ & Hvpa).
  unfold uvmcopy_body. rewrite (proj2 (Z.ltb_lt _ _)) by lia. simpl negb. cbv iota.
  apply wp_bind. eapply ok_wp; [by eapply walk_slot|]. rewrite slot_pos by done.
  apply wp_bind, wp_gets. rewrite Hld. pose proof Hok as (HV & _). rewrite HV. simpl negb. cbv iota.
  rewrite prefix_page in Hp0.
  apply wp_bind. wp_call (cow_mark_ok s1 fl1 ts1 ext old t1 k (pt_leaves told) p0 pte); try done; try lia.
  intros flags s2 (-> & HS2 & Hg2). cbv zeta in HS2, Hg2. cbn [t1 pt_nodes] in HS2, Hg2.
  unfold ts1 in HS2, Hg2. rewrite cow_ts_mark in HS2, Hg2 by done. fold ts1 in Hg2.
  eapply uvmcopy_map; try done. eapply preserves_trans; [done|by apply grows_preserves].
Qed.

Lemma uvmcopy_ok :
  wp (uvmcopy old new sz) s (uvmcopy_post s ts ext old new sz told tnew).
Proof.
  unfold wp. rewrite uvmcopy_unfold.
  change (wp (while_ (page_fuel 0 sz) (uvmcopy_body old new sz) 0) s
    (uvmcopy_post s ts ext old new sz told tnew)).
  assert (pages_of sz ≤ UVPN) as Hpu by (unfold pages_of, PGSIZE in *; div_lia).
  eapply (wp_while (λ i s', ∃ k, i = k * PGSIZE ∧ 0 ≤ k ≤ pages_of sz ∧
    uvmcopy_inv s ts ext old new told tnew k s') (λ i, Z.to_nat (pages_of sz - i / PGSIZE))).
  - intros i s1 (k & -> & Hk & Hinv). destruct (decide (k = pages_of sz)) as [->|Hne'].
    + unfold uvmcopy_body. rewrite (proj2 (Z.ltb_ge _ _)) by (unfold pages_of, PGSIZE in *; div_lia).
      apply wp_ret. destruct Hinv as (fl1 & n1 & Hsub & HS1 & Hpr).
      exists fl1, n1, (pages_of sz), (cow_child (pages_of sz) (pt_leaves told) ∪ pt_leaves tnew).
      split; [done|]. split; [done|]. split; [done|]. by left.
    + wp_call (uvmcopy_turn k s1); [lia|done|]. intros r s2 [(-> & Hinv2)|(-> & Hpost)]; [|done].
      rewrite !page_addr. split; [|lia]. exists (k + 1). split; [done|]. split; [lia|done].
  - exists 0. split; [done|]. split; [unfold pages_of, PGSIZE in *; div_lia|].
    exists fl, (pt_nodes tnew). cbv zeta. unfold cow_ts.
    rewrite cow_upto_0, cow_child_0, (left_id_L ∅ (∪)) by apply told_nonneg.
    replace (PTree (pt_nodes told) (pt_leaves told)) with told by (by destruct told).
    replace (PTree (pt_nodes tnew) (pt_leaves tnew)) with tnew by (by destruct tnew).
    rewrite !insert_id by (try done; by rewrite insert_id).
    split; [done|]. split; [done|apply preserves_refl].
  - unfold page_fuel, pages_of. pose proof UVPN_lt. unfold PGSIZE, UVPN, TRAPFRAME in *.
    rewrite Z.min_l by (rewrite MAXVA_pages; unfold PGSIZE; lia). change (0 / 4096) with 0. div_lia.
Qed.
End turn.
End uvmcopy.
