(* ===== verification/Cow.v ===== *)
(** The copy-on-write page fault of kernel/trap.c, what user programs see of
    their memory, and why no write of one process shows in another. *)
From S2P Require Import Prelude Riscv Memory Kalloc Vm VmInv VmSys VmWalk VmMap CowCopy.

(** ** Definitions *)

Section cow_trap.
Context `{L : Layout}.

(** [iscowpage] for the running process, of size [sz]. *)
Definition iscowpage (sz pagetable va : Z) : M kst bool :=
  if negb (va <? sz) then mret false
  else
    pte ← walk pagetable va false;
    if pte =? 0 then mret false
    else v ← load64 pte; mret (has v PTE_V && has v PTE_COW).

(** The branch of [usertrap] for a load or store page fault on a COW page:
    true when the process resumes, false when it ends in [exit(-1)]. *)
Definition cow_fault (pagetable va : Z) : M kst bool :=
  let page_va := PGROUNDDOWN va in
  req_pte ← walk pagetable va false;
  if req_pte =? 0 then mret false
  else
    v ← load64 req_pte;
    if negb (has v PTE_V) then mret false
    else
      let pa := PTE2PA v in
      if pa =? 0 then mret false
      else
        acquire_ref;;
        c ← get_ref pa;
        if c >? 1 then
          release_ref;;
          v ← load64 req_pte;
          let flags := Z.land (Z.lor (PTE_FLAGS v) PTE_W) (Z.lnot PTE_COW) in
          new_page ← kalloc;
          if new_page =? 0 then mret false
          else
            update_ram (λ m, memmove m new_page pa PGSIZE);;
            uvmunmap pagetable page_va 1 true;;
            r ← mappages pagetable page_va PGSIZE new_page flags;
            if negb (r =? 0) then kfree new_page;; mret false
            else mret true
        else if c =? 1 then
          release_ref;;
          v ← load64 req_pte;
          store64 req_pte (Z.land v (Z.lnot PTE_COW));;
          v ← load64 req_pte;
          store64 req_pte (Z.lor v PTE_W);;
          mret true
        else release_ref;; mret false.

(** *** What the processor does for a user program *)

(** The byte user code sees at [va]. *)
Definition user_byte (s : kst) (pagetable va : Z) : option Z :=
  match walkaddr pagetable va s with
  | Ok (pa, _) => if pa =? 0 then None else Some (ld8 (ram s) (pa + va mod PGSIZE))
  | _ => None
  end.

(** A store by user code: it needs a valid, user, writable mapping, and
    faults (false) without. *)
Definition user_store (pagetable va b : Z) : M kst bool :=
  if MAXVA <=? va then mret false
  else
    pte ← walk pagetable va false;
    if pte =? 0 then mret false
    else
      v ← load64 pte;
      if has v PTE_V && has v PTE_U && has v PTE_W then
        update_ram (λ m, st8 m (PTE2PA v + va mod PGSIZE) b);; mret true
      else mret false.

(** A store instruction with its fault handled and retried, as it runs on
    this kernel; false if the process is killed. *)
Definition user_write (sz pagetable va b : Z) : M kst bool :=
  done1 ← user_store pagetable va b;
  if (done1 : bool) then mret true
  else
    cow ← iscowpage sz pagetable va;
    if (cow : bool) then
      resumed ← cow_fault pagetable va;
      if (resumed : bool) then user_store pagetable va b else mret false
    else mret false.

(** *** Invariants and views *)

(** The bytes of an address space, from its page table tree. *)
Definition uview (m : mem) (t : ptree) (va : Z) : option Z :=
  match pt_leaves t !! (va / PGSIZE) with
  | Some pte => if has pte PTE_U then Some (ld8 m (PTE2PA pte + va mod PGSIZE)) else None
  | None => None
  end.

(** A page mapped writable is mapped once and referenced by nothing else. *)
Definition wexcl (s : kst) (ts : gmap Z ptree) : Prop :=
  map_Forall (λ _ t, map_Forall (λ v pte,
    v < UVPN → has pte PTE_W = true → refcount s (PTE2PA pte) = 1) (pt_leaves t)) ts.

Definition cow_inv (s : kst) (fl : list Z) (ts : gmap Z ptree) (ext : Z → Z) : Prop :=
  Sinv s fl ts ext ∧ wexcl s ts.

Global Instance wexcl_dec s ts : Decision (wexcl s ts).
Proof. unfold wexcl. apply _. Defined.
Global Instance cow_inv_dec s fl ts ext : Decision (cow_inv s fl ts ext).
Proof. unfold cow_inv. apply _. Defined.

(** Every address space still shows its user the same bytes. *)
Definition same_views (s : kst) (ts : gmap Z ptree) (s' : kst) (ts' : gmap Z ptree) : Prop :=
  ∀ r t, ts !! r = Some t → ∃ t', ts' !! r = Some t' ∧
    ∀ va, 0 ≤ va < TRAPFRAME → uview (ram s') t' va = uview (ram s) t va.
End cow_trap.

(** The flags of a private copy, and the entry of a page that is no longer
    shared. *)
Definition own_flags (f : Z) : Z := Z.land (Z.lor f PTE_W) (Z.lnot PTE_COW).
Definition own_pte (pte : Z) : Z := Z.lor (Z.land pte (Z.lnot PTE_COW)) PTE_W.

(** ** Lemmas *)

Section cow_lemmas.
Context `{L : Layout} `{!LayoutOk}.
Implicit Types (s : kst) (fl : list Z) (ts : gmap Z ptree) (ext : Z → Z) (t : ptree).

Lemma own_flags_testbit x i : 0 ≤ i →
  Z.testbit (own_flags x) i = if decide (i = 8) then false else if decide (i = 2) then true else Z.testbit x i.
Proof.
  intros Hi. unfold own_flags, PTE_COW, PTE_W.
  rewrite Z.land_spec, Z.lor_spec, Z.lnot_spec by done.
  change (1 ≪ 8) with (2 ^ 8). change (1 ≪ 2) with (2 ^ 2).
  rewrite !Z.pow2_bits_eqb by lia.
  destruct (Z.eqb_spec 8 i), (Z.eqb_spec 2 i); repeat case_decide; try lia; cbn [negb];
    by rewrite ?orb_true_r, ?orb_false_r, ?andb_true_r, ?andb_false_r.
Qed.

Lemma own_pte_flags x : own_pte x = own_flags x.
Proof.
  apply Z.bits_inj'. intros i Hi. rewrite own_flags_testbit by done.
  unfold own_pte, PTE_COW, PTE_W. rewrite Z.lor_spec, Z.land_spec, Z.lnot_spec by done.
  change (1 ≪ 8) with (2 ^ 8). change (1 ≪ 2) with (2 ^ 2).
  rewrite !Z.pow2_bits_eqb by lia.
  destruct (Z.eqb_spec 8 i), (Z.eqb_spec 2 i); repeat case_decide; try lia; cbn [negb];
    by rewrite ?orb_true_r, ?orb_false_r, ?andb_true_r, ?andb_false_r.
Qed.

Lemma own_flags_has x : has (own_flags x) PTE_W = true ∧ has (own_flags x) PTE_COW = false ∧
  has (own_flags x) PTE_U = has x PTE_U ∧ has (own_flags x) PTE_V = has x PTE_V.
Proof. by rewrite !has_W, !has_COW, !has_U, !has_V, !own_flags_testbit. Qed.

Lemma own_flags_ne_V x : own_flags x ≠ PTE_V.
Proof. intros E. destruct (own_flags_has x) as [HW _]. by rewrite E in HW. Qed.

Lemma own_flags_high x : Z.shiftr (own_flags x) 10 = Z.shiftr x 10.
Proof.
  apply Z.bits_inj'. intros i Hi. rewrite !Z.shiftr_spec by done.
  rewrite own_flags_testbit by lia. by rewrite !decide_False by lia.
Qed.

Lemma own_flags_pa x : PTE2PA (own_flags x) = PTE2PA x.
Proof. unfold PTE2PA. by rewrite own_flags_high. Qed.

Lemma own_flags_low x : PTE_FLAGS (own_flags x) = own_flags (PTE_FLAGS x).
Proof.
  apply Z.bits_inj'. intros i Hi. unfold PTE_FLAGS. change 0x3FF with (Z.ones 10).
  rewrite Z.land_spec, !own_flags_testbit, Z.land_spec by done.
  destruct (decide (i < 10)).
  - rewrite Z.ones_spec_low by lia. repeat case_decide; rewrite ?andb_true_r; done.
  - rewrite Z.ones_spec_high by lia. rewrite !decide_False by lia. by rewrite !andb_false_r.
Qed.

Lemma own_flags_small f : 0 ≤ f < 1024 → 0 ≤ own_flags f < 1024.
Proof.
  intros Hf. rewrite <- (Z.mod_small f 1024), <- PTE_FLAGS_eq, <- own_flags_low by lia.
  apply PTE_FLAGS_range.
Qed.

Lemma own_flags_nonneg x : 0 ≤ x → 0 ≤ own_flags x.
Proof. intros Hx. unfold own_flags. apply Z.land_nonneg. left. apply Z.lor_nonneg. done. Qed.

(** The entry of the private copy at page [np]. *)
Lemma own_copy_pte pte np : leaf_ok pte → vpage np →
  let pte' := mkpte np (Z.lor (own_flags (PTE_FLAGS pte)) PTE_V) in
  leaf_ok pte' ∧ PTE2PA pte' = np ∧ has pte' PTE_W = true ∧ has pte' PTE_COW = false ∧
  has pte' PTE_U = has pte PTE_U.
Proof.
  intros Hok (n & -> & Hn)%vpage_eq. cbv zeta. pose proof Hok as (HV & _).
  set (f := own_flags (PTE_FLAGS pte)).
  destruct (own_flags_has (PTE_FLAGS pte)) as (HW & HC & HU & HVf). fold f in HW, HC, HU, HVf.
  rewrite has_V_flags, HV in HVf. rewrite lor_V_id by done.
  assert (0 ≤ f < 1024) as Hf by (apply own_flags_small, PTE_FLAGS_range).
  split; [apply leaf_ok_mk; try done; [lia|apply own_flags_ne_V]|]. unfold mkpte.
  split; [by apply PTE2PA_mkpte; [lia|]|].
  assert (∀ i, 0 ≤ i < 10 → Z.testbit (Z.lor (PA2PTE (n * PGSIZE)) f) i = Z.testbit f i) as Hb.
  { intros i Hi. rewrite Z.lor_spec, PA2PTE_eq by lia. change 1024 with (2 ^ 10).
    by rewrite Z.mul_pow2_bits_low by lia. }
  rewrite !has_W, !has_COW, !has_U, !Hb by lia. rewrite has_W, has_COW, has_U in *.
  split; [done|split; [done|]]. rewrite HU. unfold PTE_FLAGS. change 0x3FF with (Z.ones 10).
  by rewrite has_U, Z.land_spec, Z.ones_spec_low, andb_true_r by lia.
Qed.

(** The entry made writable in place. *)
Lemma own_pte_ok pte : leaf_ok pte →
  leaf_ok (own_pte pte) ∧ PTE2PA (own_pte pte) = PTE2PA pte ∧ has (own_pte pte) PTE_W = true ∧
  has (own_pte pte) PTE_COW = false ∧ has (own_pte pte) PTE_U = has pte PTE_U.
Proof.
  intros Hok. rewrite own_pte_flags. destruct (own_flags_has pte) as (HW & HC & HU & HV).
  split; [|split; [apply own_flags_pa|done]].
  pose proof (mkpte_leaf_range pte Hok).
  rewrite (mkpte_inj_bits pte (own_flags pte)); [|done|apply own_flags_nonneg; lia|by rewrite own_flags_high].
  rewrite own_flags_low. destruct Hok as (HV' & Hok'). apply leaf_rebuild.
  - by split.
  - apply own_flags_small, PTE_FLAGS_range.
  - rewrite <- own_flags_low, has_V_flags. congruence.
  - apply own_flags_ne_V.
Qed.

(** ** Views *)

Lemma vpn_user va : 0 ≤ va < TRAPFRAME → 0 ≤ va / PGSIZE < UVPN.
Proof.
  change TRAPFRAME with (UVPN * PGSIZE). intros. split; [apply Z.div_pos; unfold PGSIZE; lia|].
  apply Z.div_lt_upper_bound; unfold PGSIZE in *; lia.
Qed.

Lemma off_range va : 0 ≤ va mod PGSIZE < PGSIZE.
Proof. by apply Z.mod_pos_bound. Qed.

Lemma user_byte_view s fl ts ext root t va :
  Sinv s fl ts ext → ts !! root = Some t → 0 ≤ va < TRAPFRAME →
  user_byte s root va = uview (ram s) t va.
Proof.
  intros HS Ht Hva. pose proof (Sinv_wf _ _ _ _ _ _ HS Ht) as Hwf.
  unfold user_byte, uview. erewrite walkaddr_lookup by (done || lia).
  rewrite decide_True by (change TRAPFRAME with (MAXVA - 2 * PGSIZE) in Hva; unfold PGSIZE in Hva; lia).
  destruct (pt_leaves t !! (va / PGSIZE)) as [pte|] eqn:El; [|done].
  destruct (has pte PTE_U); [|done].
  destruct (Sinv_leaf _ _ _ _ _ _ _ _ HS Ht El (proj2 (vpn_user _ Hva))) as (Hv & _).
  apply vpage_pos in Hv. by rewrite (proj2 (Z.eqb_neq _ _)) by lia.
Qed.

Lemma user_byte_same s fl ts ts0 ext s' fl' ts' ext' r va :
  Sinv s fl ts ext → Sinv s' fl' ts' ext' → ts0 ⊆ ts → same_views s ts0 s' ts' → is_Some (ts0 !! r) →
  0 ≤ va < TRAPFRAME → user_byte s' r va = user_byte s r va.
Proof.
  intros HS HS' Hsub Hv [t Ht0] Hva. destruct (Hv r t Ht0) as (t' & Ht' & Hsame).
  assert (ts !! r = Some t) as Ht by (by eapply lookup_weaken).
  rewrite (user_byte_view s fl ts ext r t), (user_byte_view s' fl' ts' ext' r t') by done. by apply Hsame.
Qed.

Lemma same_views_refl s ts : same_views s ts s ts.
Proof. intros r t Ht. by exists t. Qed.

Lemma same_views_trans s1 ts1 s2 ts2 s3 ts3 :
  same_views s1 ts1 s2 ts2 → same_views s2 ts2 s3 ts3 → same_views s1 ts1 s3 ts3.
Proof.
  intros H12 H23 r t Ht. destruct (H12 r t Ht) as (t2 & Ht2 & E2).
  destruct (H23 r t2 Ht2) as (t3 & Ht3 & E3). exists t3. split; [done|].
  intros va Hva. by rewrite E3, E2.
Qed.

(** Two leaf entries that show the same bytes. *)
Definition same_leaf s s' (o o' : option Z) : Prop :=
  match o, o' with
  | Some pte, Some pte' => has pte' PTE_U = has pte PTE_U ∧
      ∀ d, 0 ≤ d < PGSIZE → ld8 (ram s') (PTE2PA pte' + d) = ld8 (ram s) (PTE2PA pte + d)
  | None, None => True
  | _, _ => False
  end.

Lemma same_leaf_view s s' t t' va :
  same_leaf s s' (pt_leaves t !! (va / PGSIZE)) (pt_leaves t' !! (va / PGSIZE)) →
  uview (ram s') t' va = uview (ram s) t va.
Proof.
  unfold uview, same_leaf. destruct (pt_leaves t !! (va / PGSIZE)), (pt_leaves t' !! (va / PGSIZE)); try done.
  intros [-> Hd]. destruct (has _ PTE_U); [|done]. by rewrite Hd by apply off_range.
Qed.

(** A page table entry that still points to a page that kept its bytes. *)
Lemma leaf_preserved s fl ts ext s' ts' r t v pte pte' :
  Sinv s fl ts ext → preserves s ts s' ts' → ts !! r = Some t → pt_leaves t !! v = Some pte → v < UVPN →
  has pte' PTE_U = has pte PTE_U → PTE2PA pte' = PTE2PA pte →
  same_leaf s s' (Some pte) (Some pte').
Proof.
  intros HS Hp Ht Hl Hv HU HP. destruct (Sinv_leaf _ _ _ _ _ _ _ _ HS Ht Hl Hv) as (Hq & Hr & Hn).
  destruct (Hp _ Hq Hr) as (_ & _ & Hb). split; [done|]. intros d Hd. rewrite HP. apply Hb; [done|lia].
Qed.

Lemma leaf_preserved_same s fl ts ext s' ts' r t v :
  Sinv s fl ts ext → preserves s ts s' ts' → ts !! r = Some t → v < UVPN →
  same_leaf s s' (pt_leaves t !! v) (pt_leaves t !! v).
Proof.
  intros HS Hp Ht Hv. destruct (pt_leaves t !! v) as [pte|] eqn:E; [|done].
  by eapply leaf_preserved.
Qed.

(** ** A page with one reference has one mapping *)

Lemma Sinv_leaf_unique s fl ts ext r t v pte r' t' v' pte' :
  Sinv s fl ts ext → (∀ p, 0 ≤ ext p) →
  ts !! r = Some t → pt_leaves t !! v = Some pte → v < UVPN →
  ts !! r' = Some t' → pt_leaves t' !! v' = Some pte' → v' < UVPN →
  PTE2PA pte' = PTE2PA pte → refcount s (PTE2PA pte) = 1 → r = r' ∧ v = v' ∧ ext (PTE2PA pte) = 0.
Proof.
  intros HS Hext Hr Hl Hv Hr' Hl' Hv' E Hc.
  destruct (Sinv_leaf _ _ _ _ _ _ _ _ HS Hr Hl Hv) as (Hq & _ & Hn0).
  destruct (Sinv_page _ _ _ _ _ HS Hq) as (Hc' & _). set (q := PTE2PA pte) in *.
  specialize (Hext q). pose proof (refs_pos _ _ _ _ _ Hr Hl Hv) as Hpos. fold q in Hpos.
  assert (refs ts q = 1) as H1 by lia. pose proof H1 as H1'.
  unfold refs in H1'. rewrite (total_delete _ ts r t) in H1' by done.
  assert (0 < refs_in t q) by (by apply (countm_pos _ _ v pte)).
  destruct (decide (r = r')) as [<-|Hne].
  - assert (t' = t) as -> by congruence. split; [done|split; [|lia]].
    apply (countm_unique (λ x, x.1 < UVPN ∧ PTE2PA x.2 = q) (pt_leaves t) v v' pte pte'); try done.
    pose proof (refs_nonneg (delete r ts) q). unfold refs, refs_in in *. lia.
  - assert (0 < refs (delete r ts) q); [|unfold refs in *; lia].
    rewrite <- E. eapply (refs_pos _ r' t' v' pte'); [by rewrite lookup_delete_ne|done..].
Qed.
End cow_lemmas.
