(* ===== verification/KernelExample.v ===== *)
(** A small machine state on which the theorems about the kernel are tried
    out: twelve pages above the kernel, two address spaces, a free list. *)
From S2P Require Import Prelude Riscv Memory Kalloc Vm VmInv VmSys CowCopy Cow.

Module Example.

(** A kernel that leaves twelve pages of RAM. *)
Definition layout : Layout :=
  {| kend := PHYSTOP - 12 * PGSIZE; etext := KERNBASE + PGSIZE; trampoline := KERNBASE + PGSIZE |}.

Lemma layout_ok : @LayoutOk layout.
Proof. by split. Qed.

(** The i-th of the twelve pages. *)
Definition pg (i : Z) : Z := PHYSTOP - 12 * PGSIZE + i * PGSIZE.

(** Page table pages 0, 1, 2 of the parent and 3, 4, 5 of the child; page 6
    holds the parent's one page, mapped read-write at 0; 7 to 11 are free. *)
Definition rwx_user : Z := 0x1F.
Definition parent : Z := pg 0.
Definition child : Z := pg 3.
Definition memory : mem :=
  foldr (λ x m, st64 m x.1 x.2) (st8 ∅ (pg 6) 65)
    [(pg 0, mkpte (pg 1) PTE_V); (pg 1, mkpte (pg 2) PTE_V); (pg 2, mkpte (pg 6) rwx_user);
     (pg 3, mkpte (pg 4) PTE_V); (pg 4, mkpte (pg 5) PTE_V);
     (pg 7, pg 8); (pg 8, pg 9); (pg 9, pg 10); (pg 10, pg 11)].
Definition counts : gmap Z Z := list_to_map ((λ i, (page_of (pg i), 1)) <$> seqZ 0 7).
Definition free : list Z := pg <$> seqZ 7 5.
Definition state : kst := KSt false false (pg 7) counts memory.

Definition t_parent : ptree :=
  PTree {[ (2, 0) := pg 0; (1, 0) := pg 1; (0, 0) := pg 2 ]} {[ 0 := mkpte (pg 6) rwx_user ]}.
Definition t_child : ptree := PTree {[ (2, 0) := pg 3; (1, 0) := pg 4; (0, 0) := pg 5 ]} ∅.
Definition tables : gmap Z ptree := {[ parent := t_parent; child := t_child ]}.
Definition no_ext : Z → Z := λ _, 0.

Lemma state_inv : @cow_inv layout state free tables no_ext.
Proof. apply (bool_decide_unpack _). vm_compute. exact I. Qed.

(** The same machine after a fork by hand: both address spaces map page 6 at
    0, copy-on-write. *)
Definition cow_user : Z := cow_flags rwx_user.
Definition shared_memory (flags : Z) : mem :=
  st64 (st64 memory (pg 2) (mkpte (pg 6) flags)) (pg 5) (mkpte (pg 6) flags).
Definition shared_state (flags : Z) : kst :=
  KSt false false (pg 7) (<[page_of (pg 6) := 2]> counts) (shared_memory flags).
Definition shared_tables (flags : Z) : gmap Z ptree :=
  {[ parent := PTree (pt_nodes t_parent) {[ 0 := mkpte (pg 6) flags ]};
     child := PTree (pt_nodes t_child) {[ 0 := mkpte (pg 6) flags ]} ]}.

Lemma shared_inv : @cow_inv layout (shared_state cow_user) free (shared_tables cow_user) no_ext.
Proof. apply (bool_decide_unpack _). vm_compute. exact I. Qed.

(** Read-only sharing, as [uvmcopy] leaves a page of program text. *)
Definition text_user : Z := 0x1B.
Lemma text_inv : @cow_inv layout (shared_state text_user) free (shared_tables text_user) no_ext.
Proof. apply (bool_decide_unpack _). vm_compute. exact I. Qed.

End Example.
