(* ===== verification/CowFork.v ===== *)
(** Fork with copy-on-write: parent and child see the same memory, nobody
    else notices, and no page stays writable while it is shared. *)
From S2P Require Import Prelude Riscv Memory Kalloc Vm VmInv VmSys VmWalk VmMap CowCopy Cow.

Section fork.
Context `{L : Layout} `{!LayoutOk}.
Context (s : kst) (fl : list Z) (ts : gmap Z ptree) (ext : Z → Z) (old new sz : Z) (told tnew : ptree).
Context (HC : cow_inv s fl ts ext) (Ho : ts !! old = Some told) (Hn : ts !! new = Some tnew).
Context (Hne : old ≠ new) (Hsz : 0 ≤ sz ≤ UVPN * PGSIZE) (Hext : ∀ p, 0 ≤ ext p).
Context (Hmapped : ∀ v, 0 ≤ v < pages_of sz → is_Some (pt_leaves told !! v)).
Context (Hfree : ∀ v, 0 ≤ v < pages_of sz → pt_leaves tnew !! v = None).
Let HS : Sinv s fl ts ext := proj1 HC.

Lemma pages_of_UVPN : pages_of sz ≤ UVPN.
Proof. unfold pages_of, PGSIZE in *; div_lia. Qed.

Lemma old_nonneg v : is_Some (pt_leaves told !! v) → 0 ≤ v.
Proof. by eapply told_nonneg. Qed.

(** The parent's entries show the same bytes as before. *)
Lemma old_leaf s' ts' k v : preserves s ts s' ts' → v < UVPN →
  same_leaf s s' (pt_leaves told !! v) (cow_upto k (pt_leaves told) !! v).
Proof.
  intros Hp Hv. rewrite cow_upto_lookup. destruct (pt_leaves told !! v) as [pte|] eqn:E; [|done]. simpl.
  eapply (leaf_preserved _ _ ts _ _ ts' old told v); try done; case_decide; try done;
    [apply cow_pte_U|apply cow_pte_pa].
Qed.

(** The child's entries show the parent's bytes. *)
Lemma child_leaf s' ts' v : preserves s ts s' ts' → 0 ≤ v < pages_of sz →
  same_leaf s s' (pt_leaves told !! v)
    ((cow_child (pages_of sz) (pt_leaves told) ∪ pt_leaves tnew) !! v).
Proof.
  intros Hp Hv. pose proof pages_of_UVPN. destruct (Hmapped v Hv) as [pte E]. rewrite E.
  rewrite (lookup_union_Some_l _ _ v (cow_pte pte)).
  - eapply (leaf_preserved _ _ ts _ _ ts' old told v); try done; [lia|apply cow_pte_U|apply cow_pte_pa].
  - rewrite cow_child_lookup, E, decide_True by lia. done.
Qed.

(** Everybody but the child sees what it saw. *)
Lemma fork_others s' n' k l' : preserves s ts s' (cow_ts ts old new told n' k l') →
  same_views s (delete new ts) s' (cow_ts ts old new told n' k l').
Proof.
  intros Hp r t. rewrite lookup_delete_Some. intros [Hr Ht]. unfold cow_ts.
  rewrite lookup_insert_ne by done. rewrite lookup_insert. case_decide as E.
  - subst r. assert (t = told) as -> by congruence. eexists. split; [done|]. intros va Hva.
    apply same_leaf_view. simpl. eapply old_leaf; [done|]. by apply vpn_user.
  - exists t. split; [done|]. intros va Hva. apply same_leaf_view.
    eapply leaf_preserved_same; try done. by apply vpn_user.
Qed.

(** A failed fork leaves the child's table as it was, too. *)
Lemma fork_fail_views s' n' k : preserves s ts s' (cow_ts ts old new told n' k (pt_leaves tnew)) →
  same_views s ts s' (cow_ts ts old new told n' k (pt_leaves tnew)).
Proof.
  intros Hp r t Ht. destruct (decide (r = new)) as [->|Hr].
  - assert (t = tnew) as -> by congruence. eexists. split; [apply lookup_insert_eq|]. intros va Hva.
    apply same_leaf_view. simpl. eapply leaf_preserved_same; try done. by apply vpn_user.
  - apply (fork_others _ _ _ _ Hp). by rewrite lookup_delete_ne.
Qed.

(** ** Writable pages stay exclusive *)

(** A writable entry after the copy was one before, and no page shared by
    the copy is its page. *)
Lemma fork_writable n' k l' r t v pte : l' = pt_leaves tnew ∨ l' = cow_child k (pt_leaves told) ∪ pt_leaves tnew →
  cow_ts ts old new told n' k l' !! r = Some t → pt_leaves t !! v = Some pte → has pte PTE_W = true →
  ∃ t0, ts !! r = Some t0 ∧ pt_leaves t0 !! v = Some pte ∧ (r = old → k ≤ v).
Proof.
  intros Hl' Hr Hv HW. unfold cow_ts in Hr. rewrite lookup_insert in Hr. case_decide as En.
  - subst r. injection Hr as <-. simpl in Hv. exists tnew. split; [done|]. split; [|done].
    destruct Hl' as [->| ->]; [done|]. apply lookup_union_Some_raw in Hv as [Hv|[_ Hv]]; [|done].
    rewrite cow_child_lookup in Hv. case_decide; [|done].
    destruct (pt_leaves told !! v) as [x|]; [|done]. injection Hv as <-. by rewrite cow_pte_no_W in HW.
  - rewrite lookup_insert in Hr. case_decide as Eo.
    + subst r. injection Hr as <-. simpl in Hv. exists told. split; [done|].
      rewrite cow_upto_lookup in Hv. destruct (pt_leaves told !! v) as [x|]; [|done].
      injection Hv as <-. case_decide; [by rewrite cow_pte_no_W in HW|]. split; [done|lia].
    + exists t. split; [done|]. split; [done|]. by intros ->.
Qed.

(** Adding the child's entries adds no reference to a page the parent does
    not map among them. *)
Lemma refs_in_child n' k q : k ≤ pages_of sz →
  (∀ v pte, 0 ≤ v < k → pt_leaves told !! v = Some pte → PTE2PA pte ≠ q) →
  refs_in (PTree n' (cow_child k (pt_leaves told) ∪ pt_leaves tnew)) q = refs_in tnew q.
Proof.
  intros Hk Hno. unfold refs_in, countm; simpl. do 2 f_equal. apply map_eq. intros v. apply option_eq. intros pte.
  rewrite !map_lookup_filter_Some, lookup_union_Some_raw, cow_child_lookup. simpl. split.
  - intros [[Hv|[_ Hv]] [Hu E]]; [|done]. case_decide; [|done].
    destruct (pt_leaves told !! v) as [x|] eqn:Ex; [|done]. injection Hv as <-.
    rewrite cow_pte_pa in E. exfalso. apply (Hno v x); [|done..].
    split; [|lia]. apply old_nonneg. by rewrite Ex.
  - intros [Hv Hu]. split; [|done]. right. split; [|done]. case_decide; [|done].
    destruct (pt_leaves told !! v) as [x|] eqn:Ex; [|done].
    assert (0 ≤ v) by (apply old_nonneg; by rewrite Ex). rewrite Hfree in Hv by lia. done.
Qed.

Lemma fork_wexcl s' fl' n' k l' : 0 ≤ k ≤ pages_of sz →
  l' = pt_leaves tnew ∨ l' = cow_child k (pt_leaves told) ∪ pt_leaves tnew →
  Sinv s' fl' (cow_ts ts old new told n' k l') ext →
  preserves s ts s' (cow_ts ts old new told n' k l') →
  wexcl s' (cow_ts ts old new told n' k l').
Proof.
  intros Hk Hl' HS' Hp r t Hr v pte Hv Hu HW.
  destruct (fork_writable _ _ _ _ _ _ _ Hl' Hr Hv HW) as (t0 & Hr0 & Hv0 & Hold).
  pose proof (proj2 HC r t0 Hr0 v pte Hv0 Hu HW) as H1.
  destruct (Sinv_leaf _ _ _ _ _ _ _ _ HS Hr0 Hv0 Hu) as (Hq & Hpos & Hn0).
  destruct (Sinv_page _ _ _ _ _ HS Hq) as (Hc & _).
  destruct (Sinv_page _ _ _ _ _ HS' Hq) as (Hc' & _).
  destruct (Hp _ Hq Hpos) as (_ & En & _).
  assert (refs (cow_ts ts old new told n' k l') (PTE2PA pte) = refs ts (PTE2PA pte)) as E; [|lia].
  rewrite <- (refs_cow_ts ts old new told tnew n' k) by done.
  unfold refs, cow_ts. rewrite !total_insert. f_equal.
  destruct Hl' as [->| ->]; [done|]. rewrite refs_in_child; [done|lia|].
  intros v' pte' Hv' Hl E. pose proof pages_of_UVPN.
  destruct (Sinv_leaf_unique s fl ts ext r t0 v pte old told v' pte') as (-> & -> & _); try done; [lia|].
  specialize (Hold eq_refl). lia.
Qed.

(** ** What fork guarantees *)

Definition fork_post (r : Z) (s' : kst) : Prop :=
  ∃ fl' ts', cow_inv s' fl' ts' ext ∧
    (r = -1 ∧ (∀ q, is_Some (ts !! q) → ∀ va, 0 ≤ va < TRAPFRAME → user_byte s' q va = user_byte s q va) ∨
     r = 0 ∧
     (∀ q, is_Some (ts !! q) → q ≠ new → ∀ va, 0 ≤ va < TRAPFRAME → user_byte s' q va = user_byte s q va) ∧
     (∀ va, 0 ≤ va < sz → user_byte s' new va = user_byte s old va)).

Lemma uvmcopy_fork : wp (uvmcopy old new sz) s fork_post.
Proof.
  wp_call uvmcopy_ok; try done. intros r s' (fl' & n' & k & l' & Hsub & HS' & Hp & Hcase).
  cbv zeta in *. fold (cow_ts ts old new told n' k l') in HS', Hp.
  pose proof pages_of_UVPN as Hpu.
  assert (0 ≤ pages_of sz) as Hp0 by (unfold pages_of, PGSIZE; div_lia).
  exists fl', (cow_ts ts old new told n' k l'). split.
  { split; [done|]. eapply fork_wexcl; try done; destruct Hcase as [(? & ? & ?)|(? & ? & ?)]; (lia || tauto). }
  destruct Hcase as [(-> & -> & ->)|(-> & Hk & ->)]; [right|left]; (split; [done|]).
  - split.
    + intros q Hq Hqn va Hva. eapply (user_byte_same _ _ ts (delete new ts)); try done.
      * apply delete_subseteq.
      * by apply fork_others.
      * by rewrite lookup_delete_ne.
    + intros va Hva. change TRAPFRAME with (UVPN * PGSIZE) in *.
      rewrite (user_byte_view s fl ts ext old told) by (done || (change TRAPFRAME with (UVPN * PGSIZE); lia)).
      erewrite (user_byte_view s' _ _ _ new); [|done|apply lookup_insert_eq|change TRAPFRAME with (UVPN * PGSIZE); lia].
      apply same_leaf_view. eapply child_leaf; [done|]. unfold pages_of, PGSIZE in *. div_lia.
  - intros q Hq va Hva. eapply user_byte_same; try done. by apply fork_fail_views.
Qed.
End fork.
