(* ===== verification/CowFault.v ===== *)
(** The copy-on-write fault: it is invisible to every program and leaves the
    faulting page private and writable. *)
From S2P Require Import Prelude Riscv Memory Kalloc Vm VmInv VmSys VmWalk VmMap CowCopy Cow.

Section fault.
Context `{L : Layout} `{!LayoutOk}.
Implicit Types (s : kst) (fl : list Z) (ts : gmap Z ptree) (ext : Z → Z) (t : ptree).

Lemma leaf_set_lookup t v o v' : pt_leaves (leaf_set t v o) !! v' =
  if decide (v = v') then o else pt_leaves t !! v'.
Proof. unfold leaf_set; simpl. rewrite lookup_partial_alter. done. Qed.

Lemma leaf_set_insert t v pte : PTree (pt_nodes t) (<[v := pte]> (filter (outside v 1) (pt_leaves t))) =
  leaf_set t v (Some pte).
Proof.
  unfold leaf_set. f_equal. apply map_eq. intros i. rewrite lookup_partial_alter, lookup_insert.
  case_decide; [done|]. apply option_eq. intros x. rewrite map_lookup_filter_Some. unfold outside; simpl.
  split; [by intros [? _]|]. intros. split; [done|lia].
Qed.

(** Writable pages stay exclusive when one entry is given a page of its own. *)
Lemma own_wexcl s fl ts ext s' fl' root t v pte pte' :
  Sinv s fl ts ext → wexcl s ts → (∀ p, 0 ≤ ext p) →
  ts !! root = Some t → pt_leaves t !! v = Some pte → v < UVPN →
  Sinv s' fl' (<[root := leaf_set t v (Some pte')]> ts) ext →
  refcount s' (PTE2PA pte') = 1 →
  (PTE2PA pte' ≠ PTE2PA pte → refs ts (PTE2PA pte') = 0) →
  wexcl s' (<[root := leaf_set t v (Some pte')]> ts).
Proof.
  intros HS Hw Hext Ht Hl Hv HS' Hc' Hnew r t2 Hr v2 pte2 Hl2 Hv2 HW.
  assert (pte2 = pte' ∨ ∃ t0, ts !! r = Some t0 ∧ pt_leaves t0 !! v2 = Some pte2 ∧ (r, v2) ≠ (root, v)) as [->|Hother].
  { rewrite lookup_insert in Hr. case_decide as E; [subst r|].
    - injection Hr as <-. rewrite leaf_set_lookup in Hl2. case_decide as Ev; [left; congruence|].
      right. exists t. split; [done|]. split; [done|congruence].
    - right. exists t2. split; [done|]. split; [done|congruence]. }
  { done. }
  destruct Hother as (t0 & Hr0 & Hl0 & Hne). pose proof (Hw r t0 Hr0 v2 pte2 Hl0 Hv2 HW) as H1.
  destruct (Sinv_leaf _ _ _ _ _ _ _ _ HS Hr0 Hl0 Hv2) as (Hq & _).
  destruct (Sinv_page _ _ _ _ _ HS Hq) as (Hc & _). destruct (Sinv_page _ _ _ _ _ HS' Hq) as (Hc2 & _).
  rewrite refs_leaf_set, nodesn_leaf_set, Hl in Hc2 by done. unfold leaf_cnt in Hc2.
  assert (PTE2PA pte ≠ PTE2PA pte2) as N1.
  { intros E. destruct (Sinv_leaf_unique s fl ts ext r t0 v2 pte2 root t v pte) as (-> & -> & _); done. }
  rewrite decide_False in Hc2 by naive_solver. rewrite decide_False in Hc2; [lia|].
  intros [_ E]. pose proof (refs_pos _ _ _ _ _ Hr0 Hl0 Hv2) as Hp. rewrite <- E in Hp, N1.
  rewrite Hnew in Hp by congruence. lia.
Qed.

(** Views when only the page of one entry has moved. *)
Lemma own_views s fl ts ext s' root t v pte pte' :
  Sinv s fl ts ext → ts !! root = Some t → pt_leaves t !! v = Some pte →
  same_leaf s s' (Some pte) (Some pte') →
  (∀ r t2 v2 pte2, ts !! r = Some t2 → pt_leaves t2 !! v2 = Some pte2 → v2 < UVPN →
     (r, v2) ≠ (root, v) → same_leaf s s' (Some pte2) (Some pte2)) →
  same_views s ts s' (<[root := leaf_set t v (Some pte')]> ts).
Proof.
  intros HS Ht Hl Hsame Hother r t2 Hr. rewrite lookup_insert.
  assert (∀ va, 0 ≤ va < TRAPFRAME → (r, va / PGSIZE) ≠ (root, v) →
    same_leaf s s' (pt_leaves t2 !! (va / PGSIZE)) (pt_leaves t2 !! (va / PGSIZE))) as Hsl.
  { intros va Hva Hne. destruct (pt_leaves t2 !! (va / PGSIZE)) eqn:E; [|done].
    eapply Hother; try done. by apply vpn_user. }
  case_decide as E.
  - subst r. assert (t2 = t) as -> by congruence. eexists. split; [done|]. intros va Hva.
    apply same_leaf_view. rewrite leaf_set_lookup. case_decide as Ev.
    + rewrite <- Ev, Hl. done.
    + apply Hsl; [done|congruence].
  - exists t2. split; [done|]. intros va Hva. apply same_leaf_view, Hsl; [done|congruence].
Qed.

(** Copying the page, dropping the shared one and mapping the copy. *)
Lemma cow_replace s fl ts ext root t v pte np :
  Sinv s fl ts (ext_add ext np 1) → (∀ p, 0 ≤ ext p) → vpage np → refcount s np = 1 → nodesn ts np = 0 →
  ts !! root = Some t → pt_leaves t !! v = Some pte → 0 ≤ v < UVPN →
  let pte' := mkpte np (Z.lor (own_flags (PTE_FLAGS pte)) PTE_V) in
  let ts' := <[root := leaf_set t v (Some pte')]> ts in
  wp (update_ram (λ m, memmove m np (PTE2PA pte) PGSIZE);;
      uvmunmap root (v * PGSIZE) 1 true;;
      mappages root (v * PGSIZE) PGSIZE np (own_flags (PTE_FLAGS pte))) s (λ r s',
    r = 0 ∧ ∃ fl', Sinv s' fl' ts' ext ∧ refcount s' np = 1 ∧ same_views s ts s' ts').
Proof.
  intros HS Hext Hnp Hr1 Hn0 Ht Hl Hv pte' ts'.
  pose proof (Sinv_wf _ _ _ _ _ _ HS Ht) as Hwf.
  destruct (pt_wf_leaf _ _ _ _ _ Hwf Hl) as (Hok & _ & Hnode & _).
  destruct (own_copy_pte pte np Hok Hnp) as (Hok' & Hpa' & HW' & HC' & HU'). fold pte' in Hok', Hpa', HW', HC', HU'.
  destruct (Sinv_page _ _ _ _ _ HS Hnp) as (Hcn & _). rewrite ext_add_eq in Hcn.
  assert (refs ts np = 0 ∧ ext np = 0) as [Hrn Hen].
  { pose proof (refs_nonneg ts np). pose proof (Hext np). lia. }
  destruct (Sinv_leaf _ _ _ _ _ _ _ _ HS Ht Hl (proj2 Hv)) as (Hq & Hrq & Hnq).
  assert (PTE2PA pte ≠ np) as Hne.
  { intros E. pose proof (refs_pos _ _ _ _ _ Ht Hl (proj2 Hv)) as Hp. rewrite E in Hp. lia. }
  apply wp_bind. unfold update_ram. apply wp_modify.
  set (s2 := set_ram (memmove (ram s) np (PTE2PA pte) PGSIZE) s).
  assert (mem_frame np (ram s) (ram s2)) as Hf by (apply mem_frame_memmove; unfold PGSIZE; lia).
  assert (Sinv s2 fl ts (ext_add ext np 1)) as HS2 by (apply (Sinv_data_write s fl ts _ np); (done || lia)).
  apply wp_bind. wp_call (uvmunmap_free s2 fl ts (ext_add ext np 1) root t v 1); try done; try lia.
  { intros v' Hv'. replace v' with v by lia. by rewrite Hl. }
  { intros p. unfold ext_add. case_decide; [|done]. specialize (Hext p). lia. }
  intros [] s3 (fl3 & HS3 & Hsh).
  set (t3 := PTree (pt_nodes t) (filter (outside v 1) (pt_leaves t))) in *.
  assert (∀ q, nodesn (<[root := t3]> ts) q = nodesn ts q) as Hnodes3.
  { intros q. rewrite <- (insert_id ts root t) at 2 by done. destruct t. apply nodesn_new_leaves. }
  assert (0 < refcount s3 np) as Hr3.
  { destruct (Sinv_page _ _ _ _ _ HS3 Hnp) as (Hc & _). rewrite ext_add_eq, Hnodes3 in Hc.
    pose proof (refs_nonneg (<[root := t3]> ts) np). lia. }
  eapply wp_mono.
  { eapply (mappages_one s3 fl3 (<[root := t3]> ts) (ext_add ext np 1) root t3 v); try done.
    - apply lookup_insert_eq.
    - pose proof UVPN_lt. lia.
    - simpl. apply map_lookup_filter_None. right. intros x _. unfold outside; simpl. lia.
    - intros _. rewrite Hnodes3. done. }
  fold pte'. intros r s4 (fl4 & n4 & _ & _ & Hex & Hcase). cbn [t3 pt_nodes pt_leaves] in *.
  destruct (Hex Hnode) as (-> & -> & ->). destruct Hcase as [[? _]|(_ & HS4 & Hg)]; [done|].
  rewrite insert_insert_eq, leaf_set_insert in HS4, Hg. fold ts' in HS4, Hg.
  destruct (Hg np Hnp Hr3) as (Er4 & _ & Eb4).
  assert (∀ q, vpage q → 0 < refcount s q → 0 < refcount s3 q → q ≠ np → nodesn ts q = 0 →
     ∀ d, 0 ≤ d < PGSIZE → ld8 (ram s4) (q + d) = ld8 (ram s) (q + d)) as Hkeep.
  { intros q Hvq Hrq0 Hrq3 Hqn Hnq0 d Hd. destruct (Hg q Hvq Hrq3) as (_ & _ & ->); [|by rewrite Hnodes3|lia].
    destruct (Hsh q Hvq Hrq0) as (_ & ->); [|done|done|lia]. apply Hf.
    destruct (vpage_disjoint q np Hvq Hnp Hqn); lia. }
  split; [done|]. exists fl3. split; [|split].
  - eapply Sinv_ext_eq; [exact HS4|]. intros q. unfold ext_add, leaf_cnt. rewrite Hpa'.
    repeat case_decide; (lia || naive_solver lia).
  - rewrite Er4. destruct (Hsh np Hnp) as [Hle _]; [change (0 < refcount s np); lia|].
    change (refcount s2 np) with (refcount s np) in Hle. lia.
  - eapply own_views; try done.
    + split; [done|]. intros d Hd. rewrite Hpa', Eb4; [|by rewrite Hnodes3|lia].
      assert (0 < refcount s2 np) as Hr2 by (change (0 < refcount s np); lia).
      destruct (Hsh np Hnp Hr2) as (_ & Hb3). rewrite Hb3 by (done || lia). simpl. rewrite ld8_memmove by done. rewrite decide_True by lia. f_equal. lia.
    + intros r2 t2 v2 pte2 Hr2 Hl2 Hv2 Hne2. split; [done|].
      destruct (Sinv_leaf _ _ _ _ _ _ _ _ HS Hr2 Hl2 Hv2) as (Hq2 & Hrq2 & Hnq2).
      assert (PTE2PA pte2 ≠ np) as Hne3.
      { intros E. pose proof (refs_pos _ _ _ _ _ Hr2 Hl2 Hv2) as Hp. rewrite E in Hp. lia. }
      assert (∃ t2', <[root := t3]> ts !! r2 = Some t2' ∧ pt_leaves t2' !! v2 = Some pte2) as (t2' & Hr2' & Hl2').
      { rewrite lookup_insert. case_decide as E; [|by exists t2]. subst r2. eexists. split; [done|]. simpl.
        assert (t2 = t) as -> by congruence. apply map_lookup_filter_Some. split; [done|].
        unfold outside; simpl. assert (v2 ≠ v) by congruence. lia. }
      destruct (Sinv_leaf _ _ _ _ _ _ _ _ HS3 Hr2' Hl2' Hv2) as (_ & Hr32 & _).
      by apply Hkeep.
Qed.

Lemma wp_bind3 {A B C D} (m1 : M kst A) (m2 : M kst B) (m3 : M kst C) (k : C → M kst D) s Q :
  wp (m1;; m2;; m3) s (λ c s', wp (k c) s' Q) → wp (m1;; m2;; c ← m3; k c) s Q.
Proof.
  unfold wp, mbind, M_bind. destruct (m1 s) as [[a s1]| |]; [|done..].
  destruct (m2 s1) as [[b s2]| |]; [|done..]. by destruct (m3 s2) as [[c s3]| |].
Qed.

(** Allocation changes no view. *)
Lemma kalloc_views s fl ts ext np s1 : Sinv s (np :: fl) ts ext → kalloc_post s np s1 → same_views s ts s1 ts.
Proof.
  intros HS (Hf & _) r t Ht. exists t. split; [done|]. intros va Hva. apply same_leaf_view.
  destruct (pt_leaves t !! (va / PGSIZE)) as [pte|] eqn:E; [|done]. split; [done|]. intros d Hd.
  destruct (Sinv_leaf _ _ _ _ _ _ _ _ HS Ht E (proj2 (vpn_user va Hva))) as (Hq & Hr & _).
  destruct (Sinv_free _ _ _ _ np HS) as (Hnp & Hr0 & _); [by left|].
  apply Hf. destruct (vpage_disjoint (PTE2PA pte) np) as [?|?]; try done; [by intros <-; lia|lia..].
Qed.

(** The whole sequence from the allocation on, for a continuation that
    answers [bad] when there is no page and [good] otherwise. *)
Lemma cow_own_page {A} (good bad : A) s fl ts ext root t v pte :
  cow_inv s fl ts ext → (∀ p, 0 ≤ ext p) →
  ts !! root = Some t → pt_leaves t !! v = Some pte → 0 ≤ v < UVPN →
  wp (new_page ← kalloc;
      if new_page =? 0 then mret bad
      else
        update_ram (λ m, memmove m new_page (PTE2PA pte) PGSIZE);;
        uvmunmap root (v * PGSIZE) 1 true;;
        r ← mappages root (v * PGSIZE) PGSIZE new_page (own_flags (PTE_FLAGS pte));
        if negb (r =? 0) then kfree new_page;; mret bad else mret good) s (λ r s',
    (r = bad ∧ fl = [] ∧ s' = s) ∨
    (r = good ∧ ∃ fl' pte', let ts' := <[root := leaf_set t v (Some pte')]> ts in
       cow_inv s' fl' ts' ext ∧ same_views s ts s' ts' ∧ refcount s' (PTE2PA pte') = 1 ∧
       has pte' PTE_W = true ∧ has pte' PTE_COW = false ∧ has pte' PTE_U = has pte PTE_U)).
Proof.
  intros [HS Hw] Hext Ht Hl Hv. apply wp_bind. wp_call Sinv_kalloc; [done|].
  intros np s1 [(-> & -> & ->)|(fl' & -> & Hnp & HS1 & Hpost & Hn0 & Hr1)].
  { apply wp_ret. by left. }
  destruct (pt_wf_leaf _ _ _ _ _ (Sinv_wf _ _ _ _ _ _ HS Ht) Hl) as (Hok & _).
  destruct (own_copy_pte pte np Hok Hnp) as (_ & Hpa' & HW' & HC' & HU').
  rewrite (proj2 (Z.eqb_neq np 0)) by (apply vpage_pos in Hnp; lia).
  apply wp_bind3. wp_call cow_replace; try done. intros r s2 (-> & fl2 & HS2 & Hr2 & Hviews).
  rewrite Z.eqb_refl. cbn [negb]. apply wp_ret. right. split; [done|].
  exists fl2. eexists. cbv zeta. split; [split; [exact HS2|]|].
  - eapply (own_wexcl s _ ts ext _ _ _ _ _ pte); try done; [lia|by rewrite Hpa'|].
    intros _. rewrite Hpa'. by destruct (Sinv_free _ _ _ _ np HS) as (_ & _ & ? & _); [left|].
  - split; [|by rewrite Hpa']. eapply same_views_trans; [by eapply kalloc_views|done].
Qed.

(** ** The fault handler *)

Definition fault_post s fl ts ext root t v pte (resumed : bool) s' : Prop :=
  (resumed = false ∧ fl = [] ∧ s' = s) ∨
  (resumed = true ∧ ∃ fl' pte', let ts' := <[root := leaf_set t v (Some pte')]> ts in
     cow_inv s' fl' ts' ext ∧ same_views s ts s' ts' ∧ refcount s' (PTE2PA pte') = 1 ∧
     has pte' PTE_W = true ∧ has pte' PTE_COW = false ∧ has pte' PTE_U = has pte PTE_U).

(** Making the entry of a page with one reference writable in place. *)
Lemma own_in_place s fl ts ext root t v pte p0 :
  cow_inv s fl ts ext → (∀ p, 0 ≤ ext p) → ts !! root = Some t →
  pt_nodes t !! (0, v / 512) = Some p0 → pt_leaves t !! v = Some pte → v < UVPN →
  refcount s (PTE2PA pte) = 1 →
  let s' := set_ram (st64 (ram s) (p0 + 8 * PX 0 (v * PGSIZE)) (own_pte pte)) s in
  let ts' := <[root := leaf_set t v (Some (own_pte pte))]> ts in
  cow_inv s' fl ts' ext ∧ same_views s ts s' ts' ∧ refcount s' (PTE2PA (own_pte pte)) = 1.
Proof.
  intros [HS Hw] Hext Ht Hp0 Hl Hv H1 s' ts'.
  destruct (pt_wf_leaf _ _ _ _ _ (Sinv_wf _ _ _ _ _ _ HS Ht) Hl) as (Hok & _).
  destruct (own_pte_ok pte Hok) as (Hok' & Hpa & HW & HC & HU).
  destruct (leaf_reflag s fl ts ext root t v p0 pte (own_pte pte)) as [HS' Hg]; try done.
  assert (refcount s' (PTE2PA (own_pte pte)) = 1) as H1' by (by rewrite Hpa).
  split; [split; [done|]|split; [|done]].
  - by eapply (own_wexcl s fl ts ext _ _ _ _ _ pte).
  - eapply own_views; try done.
    + by eapply (leaf_preserved s fl ts ext s' ts'); try done; apply grows_preserves.
    + intros r t2 v2 pte2 Hr2 Hl2 Hv2 _.
      by eapply (leaf_preserved s fl ts ext s' ts'); try done; apply grows_preserves.
Qed.

Lemma own_clear_range pte : leaf_ok pte → 0 ≤ Z.land pte (Z.lnot PTE_COW) < 2 ^ 64.
Proof.
  intros Hok%mkpte_leaf_range. rewrite <- (Z.mod_small pte (2 ^ 64)), <- Z.land_ones by lia.
  rewrite <- Z.land_assoc, (Z.land_comm (Z.ones 64)), Z.land_assoc, Z.land_ones by lia.
  by apply Z.mod_pos_bound.
Qed.

Lemma PX_0_page va : PX 0 (va / PGSIZE * PGSIZE) = PX 0 va.
Proof. rewrite !PX_eq by done. change (2 ^ (12 + 9 * 0)) with PGSIZE. by rewrite page_addr. Qed.

Lemma cow_fault_ok s fl ts ext root t va pte :
  cow_inv s fl ts ext → (∀ p, 0 ≤ ext p) → ts !! root = Some t →
  0 ≤ va < TRAPFRAME → pt_leaves t !! (va / PGSIZE) = Some pte →
  wp (cow_fault root va) s (fault_post s fl ts ext root t (va / PGSIZE) pte).
Proof.
  intros HC Hext Ht Hva Hl. pose proof HC as [HS Hw]. pose proof (vpn_user va Hva) as Hv.
  pose proof (Sinv_wf _ _ _ _ _ _ HS Ht) as Hwf.
  assert (va < MAXVA) as Hmax by (change TRAPFRAME with (MAXVA - 2 * PGSIZE) in Hva; unfold PGSIZE in Hva; lia).
  assert (0 ≤ va < MAXVA) as Hva' by lia.
  destruct (leaf_slot _ _ _ va pte Hwf ltac:(lia) Hl) as (p0 & Hp0 & Hvp0 & Hld).
  destruct (pt_wf_leaf _ _ _ _ _ Hwf Hl) as (Hok & _). pose proof Hok as (HV & _).
  destruct (Sinv_leaf _ _ _ _ _ _ _ _ HS Ht Hl (proj2 Hv)) as (Hq & Hr & Hn0).
  pose proof (Sinv_kinv _ _ _ _ HS) as (Hk1 & Hk2 & _).
  unfold cow_fault. apply wp_bind. eapply ok_wp; [by eapply walk_slot|]. rewrite slot_pos by done.
  apply wp_bind, wp_gets. rewrite Hld, HV. cbn [negb].
  rewrite (proj2 (Z.eqb_neq (PTE2PA pte) 0)) by (apply vpage_pos in Hq; lia).
  rewrite PGROUNDDOWN_eq.
  apply wp_bind, wp_acquire_ref; [done|]. apply wp_bind, wp_gets.
  change (refcount (set_ref_lock true s) (PTE2PA pte)) with (refcount s (PTE2PA pte)).
  assert (set_ref_lock false (set_ref_lock true s) = s) as Hlock.
  { destruct s; simpl in *; by subst. }
  destruct (refcount s (PTE2PA pte) >? 1) eqn:E1; bool_prop.
  - apply wp_bind, wp_release_ref; [done|]. rewrite Hlock. apply wp_bind, wp_gets. rewrite Hld.
    by apply (cow_own_page true false).
  - bool_prop. assert (refcount s (PTE2PA pte) = 1) as E2 by lia.
    rewrite E2. change (1 =? 1) with true. cbv iota.
    apply wp_bind, wp_release_ref; [done|]. rewrite Hlock. k_steps. rewrite Hld.
    rewrite ld64_st64_same, st64_twice by (by apply own_clear_range).
    assert (p0 + 8 * PX 0 va = p0 + 8 * PX 0 (va / PGSIZE * PGSIZE)) as -> by (by rewrite PX_0_page).
    rewrite prefix_0 in Hp0. fold (own_pte pte).
    destruct (own_in_place s fl ts ext root t (va / PGSIZE) pte p0) as (HC' & Hsv & Hr'); try done; [lia|].
    destruct (own_pte_ok pte Hok) as (_ & _ & HW' & HCW' & HU').
    right. split; [done|]. exists fl, (own_pte pte). done.
Qed.
End fault.
