(* ===== verification/CowWrite.v ===== *)
(** Writes to user memory under copy-on-write: a store instruction with its
    fault, and the kernel's [copyout], change the bytes of one address space
    and of no other. *)
From S2P Require Import Prelude Riscv Memory Kalloc Vm VmInv VmSys VmWalk VmMap CowCopy Cow CowFault.

(** ** Definitions *)

(** From [s] to [s'] the bytes [bs] were written at [a] in the address space
    [root], and no user byte of any address space changed otherwise. *)
Definition wrote (root a : Z) (bs : list Z) (s : kst) (ts : gmap Z ptree)
    (s' : kst) (ts' : gmap Z ptree) : Prop :=
  ∀ r t, ts !! r = Some t → ∃ t', ts' !! r = Some t' ∧ ∀ va, 0 ≤ va < TRAPFRAME →
    uview (ram s') t' va =
    if decide (r = root ∧ a ≤ va < a + Z.of_nat (length bs))
    then u8 <$> bs !! Z.to_nat (va - a) else uview (ram s) t va.

(** ** Lemmas *)

Section write.
Context `{L : Layout} `{!LayoutOk}.
Implicit Types (s : kst) (fl : list Z) (ts : gmap Z ptree) (ext : Z → Z) (t : ptree).

Lemma ld8_write_bytes bs : ∀ m a x,
  ld8 (write_bytes m a bs) x =
  if decide (a ≤ x < a + Z.of_nat (length bs)) then u8 (default 0 (bs !! Z.to_nat (x - a))) else ld8 m x.
Proof.
  induction bs as [|b bs IH]; intros m a x; simpl.
  { rewrite decide_False; [done|lia]. }
  rewrite IH, ld8_st8. destruct (decide (a = x)) as [->|Hne].
  - rewrite decide_False by lia. rewrite decide_True by lia. by rewrite Z.sub_diag.
  - destruct (decide (a + 1 ≤ x < a + 1 + Z.of_nat (length bs))).
    + rewrite decide_True by lia. replace (Z.to_nat (x - a)) with (S (Z.to_nat (x - (a + 1)))) by lia. done.
    + by rewrite decide_False by lia.
Qed.

Lemma wrote_nil root a s ts s' ts' : same_views s ts s' ts' → wrote root a [] s ts s' ts'.
Proof.
  intros Hv r t Ht. destruct (Hv r t Ht) as (t' & Ht' & E). exists t'. split; [done|].
  intros va Hva. rewrite decide_False by (simpl; lia). by apply E.
Qed.

Lemma wrote_trans root a bs1 bs2 s1 ts1 s2 ts2 s3 ts3 :
  wrote root a bs1 s1 ts1 s2 ts2 → wrote root (a + Z.of_nat (length bs1)) bs2 s2 ts2 s3 ts3 →
  wrote root a (bs1 ++ bs2) s1 ts1 s3 ts3.
Proof.
  intros W1 W2 r t Ht. destruct (W1 r t Ht) as (t2 & Ht2 & E2). destruct (W2 r t2 Ht2) as (t3 & Ht3 & E3).
  exists t3. split; [done|]. intros va Hva. rewrite E3, E2 by done. rewrite length_app.
  destruct (decide (r = root)) as [->|]; [|by rewrite !decide_False by tauto].
  destruct (decide (a ≤ va)); [|by rewrite !decide_False by lia].
  destruct (decide (va < a + Z.of_nat (length bs1))).
  - rewrite decide_False, !decide_True by lia. by rewrite lookup_app_l by lia.
  - destruct (decide (va < a + Z.of_nat (length bs1) + Z.of_nat (length bs2))).
    + rewrite !decide_True by lia. rewrite lookup_app_r by lia. do 2 f_equal. lia.
    + by rewrite !decide_False by lia.
Qed.

Lemma wrote_same root a bs s1 ts1 s2 ts2 s3 ts3 :
  same_views s1 ts1 s2 ts2 → wrote root a bs s2 ts2 s3 ts3 → wrote root a bs s1 ts1 s3 ts3.
Proof.
  intros Hv Hw. change bs with ([] ++ bs). eapply wrote_trans; [by apply wrote_nil|].
  simpl. by rewrite Z.add_0_r.
Qed.

(** Writing into a page that one address space maps and nothing else
    references. *)
Lemma write_page s fl ts ext root t v pte o bs :
  cow_inv s fl ts ext → (∀ p, 0 ≤ ext p) → ts !! root = Some t → pt_leaves t !! v = Some pte → 0 ≤ v < UVPN →
  has pte PTE_U = true → refcount s (PTE2PA pte) = 1 → 0 ≤ o → o + Z.of_nat (length bs) ≤ PGSIZE →
  let s' := set_ram (write_bytes (ram s) (PTE2PA pte + o) bs) s in
  cow_inv s' fl ts ext ∧ wrote root (v * PGSIZE + o) bs s ts s' ts.
Proof.
  intros [HS Hw] Hext Ht Hl Hv HU H1 Ho Hlen s'.
  destruct (Sinv_leaf _ _ _ _ _ _ _ _ HS Ht Hl (proj2 Hv)) as (Hq & Hr & Hn0).
  split; [split; [|done]|].
  { apply (Sinv_data_write s fl ts ext (PTE2PA pte)); try done. intros a Ha.
    rewrite ld8_write_bytes. rewrite decide_False; [done|lia]. }
  intros r t2 Ht2. exists t2. split; [done|]. intros va Hva. pose proof (vpn_user va Hva) as Hvu.
  pose proof (off_range va) as Hoff. pose proof (Z.div_mod va PGSIZE ltac:(done)) as Edm.
  unfold uview. destruct (decide (r = root ∧ va / PGSIZE = v)) as [[-> Ev]|Hne].
  - assert (t2 = t) as -> by congruence. rewrite Ev, Hl, HU. unfold s'; cbn [ram set_ram].
    rewrite ld8_write_bytes. case_decide as D1.
    + rewrite decide_True by (split; [done|]; unfold PGSIZE in *; lia).
      replace (PTE2PA pte + va mod PGSIZE - (PTE2PA pte + o)) with (va - (v * PGSIZE + o)) by (unfold PGSIZE in *; lia).
      destruct (bs !! Z.to_nat (va - (v * PGSIZE + o))) eqn:Eb; [done|].
      apply lookup_ge_None in Eb. unfold PGSIZE in *. lia.
    + rewrite decide_False; [done|]. unfold PGSIZE in *; lia.
  - rewrite decide_False by (intros [-> Hx]; apply Hne; split; [done|];
      symmetry; apply Z.div_unique with (va - v * PGSIZE); unfold PGSIZE in *; lia).
    destruct (pt_leaves t2 !! (va / PGSIZE)) as [pte2|] eqn:E2; [|done].
    destruct (has pte2 PTE_U); [|done]. f_equal. unfold s'; cbn [ram set_ram].
    rewrite ld8_write_bytes, decide_False; [done|].
    destruct (Sinv_leaf _ _ _ _ _ _ _ _ HS Ht2 E2 (proj2 Hvu)) as (Hq2 & _).
    assert (PTE2PA pte2 ≠ PTE2PA pte) as Hd.
    { intros E. destruct (Sinv_leaf_unique s fl ts ext root t v pte r t2 (va / PGSIZE) pte2) as (-> & -> & _); try done; [lia..|].
      by apply Hne. }
    destruct (vpage_disjoint _ _ Hq2 Hq Hd); lia.
Qed.

Lemma va_user_max va : 0 ≤ va < TRAPFRAME → 0 ≤ va < MAXVA.
Proof. change TRAPFRAME with (MAXVA - 2 * PGSIZE). unfold PGSIZE. lia. Qed.

(** Looking the entry of a user address up, as the handlers do it. *)
Lemma walk_entry s fl ts ext root t va : Sinv s fl ts ext → ts !! root = Some t → 0 ≤ va < TRAPFRAME →
  match pt_leaves t !! (va / PGSIZE) with
  | Some pte => ∃ p, walk root va false s = Ok (p, s) ∧ p =? 0 = false ∧ ld64 (ram s) p = pte ∧ leaf_ok pte
  | None => ∃ p, walk root va false s = Ok (p, s) ∧ (p =? 0 = false → has (ld64 (ram s) p) PTE_V = false)
  end.
Proof.
  intros HS Ht Hva. pose proof (Sinv_wf _ _ _ _ _ _ HS Ht) as Hwf. pose proof (va_user_max va Hva).
  destruct (pt_leaves t !! (va / PGSIZE)) as [pte|] eqn:El.
  - destruct (leaf_slot _ _ _ va pte Hwf ltac:(lia) El) as (p0 & Hp0 & Hvp0 & Hld).
    eexists. split; [by eapply walk_slot|]. split; [by apply slot_pos|]. split; [done|].
    by destruct (pt_wf_leaf _ _ _ _ _ Hwf El).
  - eexists. split; [by eapply walk_lookup|]. destruct (pt_nodes t !! (0, prefix 0 va)) eqn:E0; [|done].
    intros _. by eapply noleaf_slot; [done|lia|..].
Qed.

Lemma user_store_ok s fl ts ext root t va b :
  cow_inv s fl ts ext → (∀ p, 0 ≤ ext p) → ts !! root = Some t → 0 ≤ va < TRAPFRAME →
  wp (user_store root va b) s (λ r s',
    let ok := match pt_leaves t !! (va / PGSIZE) with
              | Some pte => has pte PTE_U && has pte PTE_W | None => false end in
    r = ok ∧ if ok then cow_inv s' fl ts ext ∧ wrote root va [b] s ts s' ts else s' = s).
Proof.
  intros HC Hext Ht Hva. pose proof HC as [HS Hw]. pose proof (va_user_max va Hva).
  pose proof (walk_entry s fl ts ext root t va HS Ht Hva) as He.
  unfold user_store. rewrite (proj2 (Z.leb_gt _ _)) by lia.
  destruct (pt_leaves t !! (va / PGSIZE)) as [pte|] eqn:El.
  - destruct He as (p & Hp & Hp0 & Hld & Hok). apply wp_bind. eapply ok_wp; [done|]. rewrite Hp0.
    apply wp_bind, wp_gets. rewrite Hld. pose proof Hok as (HV & _). rewrite HV.
    destruct (has pte PTE_U) eqn:HU, (has pte PTE_W) eqn:HW; cbn [andb]; try (by apply wp_ret).
    apply wp_bind. unfold update_ram. apply wp_modify, wp_ret. split; [done|].
    pose proof (vpn_user va Hva) as Hv. pose proof (off_range va).
    pose proof (Hw root t Ht _ pte El (proj2 Hv) HW) as Hc1.
    destruct (write_page s fl ts ext root t (va / PGSIZE) pte (va mod PGSIZE) [b]) as [HC' Hwr]; try done; try lia.
    { simpl. lia. }
    split; [done|]. replace (va / PGSIZE * PGSIZE + va mod PGSIZE) with va in Hwr; [done|].
    rewrite (Z.mul_comm _ PGSIZE). by apply Z.div_mod.
  - destruct He as (p & Hp & Hp0). apply wp_bind. eapply ok_wp; [done|].
    destruct (p =? 0) eqn:E0; [by apply wp_ret|]. apply wp_bind, wp_gets. rewrite Hp0 by done.
    by apply wp_ret.
Qed.

Lemma iscowpage_ok s fl ts ext sz root t va :
  Sinv s fl ts ext → ts !! root = Some t → 0 ≤ va < TRAPFRAME →
  iscowpage sz root va s = Ok ((va <? sz) && match pt_leaves t !! (va / PGSIZE) with
    | Some pte => has pte PTE_COW | None => false end, s).
Proof.
  intros HS Ht Hva. unfold iscowpage. destruct (va <? sz); [|done]. cbn [negb andb].
  pose proof (walk_entry s fl ts ext root t va HS Ht Hva) as He.
  unfold mbind, M_bind. destruct (pt_leaves t !! (va / PGSIZE)) as [pte|] eqn:El.
  - destruct He as (p & -> & -> & Hld & HV & _). unfold load64, gets. by rewrite Hld, HV.
  - destruct He as (p & -> & Hp0). destruct (p =? 0) eqn:E0; [done|]. unfold load64, gets.
    by rewrite Hp0 by done.
Qed.

(** A store instruction: it takes effect exactly when the page is writable
    or copy-on-write within the process, unless memory has run out. *)
Definition user_write_post s fl ts ext (sz root : Z) t (va b : Z) (r : bool) s' : Prop :=
  ∃ fl' ts', cow_inv s' fl' ts' ext ∧
    if r then wrote root va [b] s ts s' ts'
    else same_views s ts s' ts' ∧
         (fl = [] ∨ ∀ pte, pt_leaves t !! (va / PGSIZE) = Some pte →
            has pte PTE_U = false ∨ has pte PTE_W = false ∧ (has pte PTE_COW = false ∨ sz ≤ va)).

Lemma user_write_ok s fl ts ext sz root t va b :
  cow_inv s fl ts ext → (∀ p, 0 ≤ ext p) → ts !! root = Some t → 0 ≤ va < TRAPFRAME →
  wp (user_write sz root va b) s (user_write_post s fl ts ext sz root t va b).
Proof.
  intros HC Hext Ht Hva. pose proof HC as [HS Hw]. unfold user_write.
  apply wp_bind. wp_call user_store_ok; try done. intros r s1 [-> Hr]. cbv zeta in Hr.
  destruct (match pt_leaves t !! _ with Some _ => _ | None => false end) eqn:Eok.
  { apply wp_ret. destruct Hr. by exists fl, ts. }
  subst s1. apply wp_bind. eapply ok_wp; [by eapply iscowpage_ok|].
  destruct (pt_leaves t !! (va / PGSIZE)) as [pte|] eqn:El.
  2:{ rewrite andb_false_r. apply wp_ret. exists fl, ts. split; [done|]. split; [apply same_views_refl|].
      right. intros ? E. congruence. }
  destruct ((va <? sz) && has pte PTE_COW) eqn:Ecow.
  - apply wp_bind. wp_call cow_fault_ok; try done. intros res s2 [(-> & -> & ->)|(-> & fl2 & pte2 & HC2 & Hsv & Hr1 & HW2 & HC2' & HU2)].
    { apply wp_ret. exists [], ts. split; [done|]. split; [apply same_views_refl|by left]. }
    cbv zeta in *. wp_call user_store_ok; try done; [apply lookup_insert_eq|].
    intros r s3 [-> Hr]. cbv zeta in *. rewrite leaf_set_lookup, decide_True in * by done.
    rewrite HU2, HW2, andb_true_r in *. destruct (has pte PTE_U) eqn:EU.
    + destruct Hr as [HC3 Hwr]. eexists fl2, _. split; [exact HC3|]. by eapply wrote_same.
    + subst s3. eexists fl2, _. split; [exact HC2|]. split; [done|]. right. intros ? E. left. congruence.
  - apply wp_ret. exists fl, ts. split; [done|]. split; [apply same_views_refl|]. right.
    intros ? E. assert (pte0 = pte) as -> by congruence.
    destruct (has pte PTE_U); [right|by left]. simpl in Eok. split; [done|].
    destruct (va <? sz) eqn:Esz; bool_prop; [left; done|right; lia].
Qed.
End write.
