(* ===== verification/VmCopyin.v ===== *)
(** [copyin] and [copyinstr] read exactly what user code would read. *)
From S2P Require Import Prelude Riscv Memory Kalloc Vm VmInv VmSys VmWalk VmMap CowCopy Cow CowWrite.

(** ** Definitions *)

(** The [n] bytes user code sees from [va] on, if all are mapped. *)
Fixpoint user_bytes (s : kst) (pagetable va : Z) (n : nat) : option (list Z) :=
  match n with
  | O => Some []
  | S n' => b ← user_byte s pagetable va; bs ← user_bytes s pagetable (va + 1) n'; Some (b :: bs)
  end.

(** The NUL-terminated string user code sees at [va], of at most [n] bytes
    with its NUL. *)
Fixpoint user_string (s : kst) (pagetable va : Z) (n : nat) : option (list Z) :=
  match n with
  | O => None
  | S n' => b ← user_byte s pagetable va;
            if b =? 0 then Some [0]
            else bs ← user_string s pagetable (va + 1) n'; Some (b :: bs)
  end.

(** ** Lemmas *)

Section copyin.
Context `{L : Layout} `{!LayoutOk}.
Context (s : kst) (fl : list Z) (ts : gmap Z ptree) (ext : Z → Z) (root : Z) (t : ptree).
Context (HS : Sinv s fl ts ext) (Ht : ts !! root = Some t).

Lemma user_bytes_app va n m :
  user_bytes s root va (n + m) =
  (bs1 ← user_bytes s root va n; bs2 ← user_bytes s root (va + Z.of_nat n) m; Some (bs1 ++ bs2)).
Proof.
  revert va. induction n as [|n IH]; intros va; simpl.
  { rewrite Z.add_0_r. by destruct (user_bytes s root va m). }
  destruct (user_byte s root va); [|done]. simpl. rewrite IH.
  replace (va + Z.of_nat (S n)) with (va + 1 + Z.of_nat n) by lia.
  destruct (user_bytes s root (va + 1) n); [|done]. simpl.
  by destruct (user_bytes s root (va + 1 + Z.of_nat n) m).
Qed.

(** What [walkaddr] says of a page, it says of each byte in it. *)
Lemma walkaddr_page va : 0 ≤ va < TRAPFRAME →
  let va0 := PGROUNDDOWN va in
  ∃ pa, walkaddr root va0 s = Ok (pa, s) ∧
    ∀ a, va0 ≤ a < va0 + PGSIZE →
      user_byte s root a = if pa =? 0 then None else Some (ld8 (ram s) (pa + (a - va0))).
Proof.
  intros Hva va0. pose proof (vpn_user va Hva) as Hv. pose proof (Sinv_wf _ _ _ _ _ _ HS Ht) as Hwf.
  assert (va0 = va / PGSIZE * PGSIZE) as E0 by apply PGROUNDDOWN_eq.
  assert (0 ≤ va0 < TRAPFRAME) as Hva0.
  { rewrite E0. change TRAPFRAME with (UVPN * PGSIZE). unfold PGSIZE in *. lia. }
  eexists. split; [apply walkaddr_lookup; [done|lia]|].
  pose proof (va_user_max va0 Hva0). rewrite decide_True by lia.
  intros a Ha. assert (0 ≤ a < TRAPFRAME) as Hat.
  { split; [lia|]. rewrite E0 in Ha. change TRAPFRAME with (UVPN * PGSIZE). unfold PGSIZE in *. lia. }
  rewrite (user_byte_view s fl ts ext root t) by done. unfold uview.
  assert (a / PGSIZE = va0 / PGSIZE ∧ a mod PGSIZE = a - va0) as [-> ->].
  { rewrite E0 in *. rewrite page_addr. unfold PGSIZE in *. div_lia. }
  destruct (pt_leaves t !! (va0 / PGSIZE)) as [pte|] eqn:El; [|done].
  destruct (has pte PTE_U); [|done].
  destruct (Sinv_leaf _ _ _ _ _ _ _ _ HS Ht El) as (Hq & _); [rewrite E0, page_addr; lia|].
  apply vpage_pos in Hq. by rewrite (proj2 (Z.eqb_neq _ _)) by lia.
Qed.

Lemma user_bytes_page pa va0 a n : va0 ≤ a → a + Z.of_nat n ≤ va0 + PGSIZE →
  (∀ a, va0 ≤ a < va0 + PGSIZE → user_byte s root a = Some (ld8 (ram s) (pa + (a - va0)))) →
  user_bytes s root a n = Some (bytes_at (ram s) (pa + (a - va0)) n).
Proof.
  intros Hlo Hhi Hb. revert a Hlo Hhi. induction n as [|n IH]; intros a Hlo Hhi; [done|]. simpl.
  rewrite Hb by lia. simpl. rewrite IH by lia. simpl. f_equal.
  unfold bytes_at. simpl. rewrite Z.add_0_r. f_equal. rewrite <- (fmap_S_seq 0 n), <- list_fmap_compose.
  apply list_fmap_ext. intros _ i _. simpl. f_equal. lia.
Qed.

(** The number of bytes a turn handles. *)
Lemma turn_bytes va len : 0 ≤ va → 0 < len →
  let va0 := PGROUNDDOWN va in
  let n := if PGSIZE - (va - va0) >? len then len else PGSIZE - (va - va0) in
  va0 ≤ va < va0 + PGSIZE ∧ 0 < n ≤ len ∧ va + n ≤ va0 + PGSIZE ∧
  (n < len → va + n = va0 + PGSIZE).
Proof.
  intros Hva Hlen va0 n. assert (va0 = va / PGSIZE * PGSIZE) as E0 by apply PGROUNDDOWN_eq.
  assert (va0 ≤ va < va0 + PGSIZE) by (rewrite E0; unfold PGSIZE; div_lia).
  unfold n. case_if; lia.
Qed.

Lemma next_page_end va : 0 ≤ va < TRAPFRAME → PGROUNDDOWN va + PGSIZE ≤ TRAPFRAME.
Proof.
  intros Hva%vpn_user. rewrite PGROUNDDOWN_eq. change TRAPFRAME with (UVPN * PGSIZE).
  unfold PGSIZE in *. lia.
Qed.

Definition copyin_body : list Z * Z * Z → M kst (list Z * Z * Z + option (list Z)) :=
  λ '(dst, srcva, len),
    if negb (0 <? len) then mret (inr (Some dst))
    else
      let va0 := PGROUNDDOWN srcva in
      pa0 ← walkaddr root va0;
      if pa0 =? 0 then mret (inr None)
      else
        let n0 := PGSIZE - (srcva - va0) in
        let n := if n0 >? len then len else n0 in
        bs ← gets (λ s, bytes_at (ram s) (pa0 + (srcva - va0)) (Z.to_nat n));
        mret (inl (dst ++ bs, va0 + PGSIZE, len - n)).

Lemma copyin_loop fuel : ∀ dst va len, (Z.to_nat len < fuel)%nat → 0 ≤ va → 0 ≤ len →
  va + len ≤ TRAPFRAME →
  while_ fuel copyin_body (dst, va, len) s =
  Ok ((dst ++.) <$> user_bytes s root va (Z.to_nat len), s).
Proof.
  induction fuel as [|fuel IH]; intros dst va len Hf Hva Hlen Hend; [lia|]. cbn [while_].
  unfold mbind at 1, M_bind at 1, copyin_body at 1.
  destruct (0 <? len) eqn:E0; cbn [negb]; bool_prop.
  2:{ assert (len = 0) as -> by lia. simpl. by rewrite app_nil_r. }
  destruct (turn_bytes va len Hva E0) as (Hpg & Hn & Hfit & Hnext). cbv zeta in *.
  set (n := if PGSIZE - (va - PGROUNDDOWN va) >? len then len else _) in *.
  destruct (walkaddr_page va ltac:(lia)) as (pa & Hwa & Hb). cbv zeta in *.
  unfold mbind at 1, M_bind at 1. rewrite Hwa.
  replace (Z.to_nat len) with (Z.to_nat n + Z.to_nat (len - n))%nat by lia.
  rewrite user_bytes_app. revert Hb. destruct (pa =? 0); intros Hb.
  - replace (Z.to_nat n) with (S (pred (Z.to_nat n))) by lia. cbn [user_bytes].
    by rewrite Hb by lia.
  - rewrite (user_bytes_page pa (PGROUNDDOWN va) va (Z.to_nat n)) by (done || lia).
    simpl. pose proof (next_page_end va ltac:(lia)).
    change (while_ fuel copyin_body (dst ++ bytes_at (ram s) (pa + (va - PGROUNDDOWN va)) (Z.to_nat n),
      PGROUNDDOWN va + PGSIZE, len - n) s = Ok ((dst ++.) <$>
      (bs2 ← user_bytes s root (va + Z.of_nat (Z.to_nat n)) (Z.to_nat (len - n));
       Some (bytes_at (ram s) (pa + (va - PGROUNDDOWN va)) (Z.to_nat n) ++ bs2)), s)).
    rewrite IH by lia. destruct (decide (n < len)) as [Hlt|Hge].
    + replace (va + Z.of_nat (Z.to_nat n)) with (PGROUNDDOWN va + PGSIZE) by lia.
      destruct (user_bytes s root (PGROUNDDOWN va + PGSIZE) (Z.to_nat (len - n))); [|done]. simpl.
      by rewrite app_assoc.
    + replace (len - n) with 0 by lia. simpl. by rewrite !app_nil_r.
Qed.

Lemma copyin_ok va len : 0 ≤ va → 0 ≤ len → va + len ≤ TRAPFRAME →
  copyin root va len s = Ok (user_bytes s root va (Z.to_nat len), s).
Proof.
  intros Hva Hlen Hend. change (copyin root va len) with (while_ (S (Z.to_nat len)) copyin_body ([], va, len)).
  rewrite copyin_loop by lia. by destruct (user_bytes s root va (Z.to_nat len)).
Qed.

(** The inner loop over one page, against the reference string. *)
Lemma copyinstr_page_string pa va0 k : ∀ a n, va0 ≤ a → a + Z.of_nat k ≤ va0 + PGSIZE →
  (∀ a, va0 ≤ a < va0 + PGSIZE → user_byte s root a = Some (ld8 (ram s) (pa + (a - va0)))) →
  user_string s root a (k + n) =
  let '(bs, got) := copyinstr_page (ram s) (pa + (a - va0)) k in
  if got then Some bs else (bs ++.) <$> user_string s root (a + Z.of_nat k) n.
Proof.
  induction k as [|k IH]; intros a n Hlo Hhi Hb.
  { simpl. rewrite Z.add_0_r. by destruct (user_string s root a n). }
  cbn [Nat.add user_string copyinstr_page]. rewrite Hb by lia. simpl.
  destruct (ld8 (ram s) (pa + (a - va0)) =? 0); [done|].
  rewrite IH by (done || lia). replace (pa + (a - va0) + 1) with (pa + (a + 1 - va0)) by lia.
  destruct (copyinstr_page (ram s) (pa + (a + 1 - va0)) k) as [bs [|]]; [done|].
  replace (a + 1 + Z.of_nat k) with (a + Z.of_nat (S k)) by lia.
  by destruct (user_string s root (a + Z.of_nat (S k)) n).
Qed.

Definition copyinstr_body : list Z * Z * Z * bool → M kst (list Z * Z * Z * bool + option (list Z)) :=
  λ '(dst, srcva, max, got_null),
    if (got_null : bool) then mret (inr (Some dst))
    else if negb (0 <? max) then mret (inr None)
    else
      let va0 := PGROUNDDOWN srcva in
      pa0 ← walkaddr root va0;
      if pa0 =? 0 then mret (inr None)
      else
        let n0 := PGSIZE - (srcva - va0) in
        let n := if n0 >? max then max else n0 in
        '(bs, got) ← gets (λ s, copyinstr_page (ram s) (pa0 + (srcva - va0)) (Z.to_nat n));
        mret (inl (dst ++ bs, va0 + PGSIZE, max - n, got)).

Lemma copyinstr_loop fuel : ∀ dst va max, (Z.to_nat max < fuel)%nat → 0 ≤ va → 0 ≤ max →
  va + max ≤ TRAPFRAME →
  while_ fuel copyinstr_body (dst, va, max, false) s =
  Ok ((dst ++.) <$> user_string s root va (Z.to_nat max), s).
Proof.
  induction fuel as [|fuel IH]; intros dst va max Hf Hva Hmax Hend; [lia|]. cbn [while_].
  unfold mbind at 1, M_bind at 1, copyinstr_body at 1.
  destruct (0 <? max) eqn:E0; cbn [negb]; bool_prop.
  2:{ assert (max = 0) as -> by lia. done. }
  destruct (turn_bytes va max Hva E0) as (Hpg & Hn & Hfit & Hnext). cbv zeta in *.
  set (n := if PGSIZE - (va - PGROUNDDOWN va) >? max then max else _) in *.
  destruct (walkaddr_page va ltac:(lia)) as (pa & Hwa & Hb). cbv zeta in *.
  unfold mbind at 1, M_bind at 1. rewrite Hwa.
  replace (Z.to_nat max) with (Z.to_nat n + Z.to_nat (max - n))%nat by lia.
  revert Hb. destruct (pa =? 0); intros Hb.
  - replace (Z.to_nat n) with (S (pred (Z.to_nat n))) by lia. cbn [Nat.add user_string].
    by rewrite Hb by lia.
  - rewrite (copyinstr_page_string pa (PGROUNDDOWN va)) by (done || lia).
    unfold mbind at 1, M_bind at 1, gets at 1.
    destruct (copyinstr_page (ram s) (pa + (va - PGROUNDDOWN va)) (Z.to_nat n)) as [bs got].
    unfold mret at 1, M_ret at 1. destruct got.
    + destruct fuel; [lia|]. done.
    + pose proof (next_page_end va ltac:(lia)). rewrite IH by lia. destruct (decide (n < max)) as [Hlt|Hge].
      * replace (va + Z.of_nat (Z.to_nat n)) with (PGROUNDDOWN va + PGSIZE) by lia.
        destruct (user_string s root (PGROUNDDOWN va + PGSIZE) (Z.to_nat (max - n))); [|done]. simpl.
        by rewrite app_assoc.
      * by replace (max - n) with 0 by lia.
Qed.

Lemma copyinstr_ok va max : 0 ≤ va → 0 ≤ max → va + max ≤ TRAPFRAME →
  copyinstr root va max s = Ok (user_string s root va (Z.to_nat max), s).
Proof.
  intros Hva Hmax Hend.
  change (copyinstr root va max) with (while_ (S (Z.to_nat max)) copyinstr_body ([], va, max, false)).
  rewrite copyinstr_loop by lia. by destruct (user_string s root va (Z.to_nat max)).
Qed.
End copyin.
