(* ===== verification/CowCopyout.v ===== *)
(** [copyout] under copy-on-write: the kernel's writes to user memory reach
    exactly the bytes asked for, in exactly one address space. *)
From S2P Require Import Prelude Riscv Memory Kalloc Vm VmInv VmSys VmWalk VmMap CowCopy Cow CowFault CowWrite.

Section copyout.
Context `{L : Layout} `{!LayoutOk}.
Implicit Types (s : kst) (fl : list Z) (ts : gmap Z ptree) (ext : Z → Z) (t : ptree).

(** One turn of the loop. *)
Definition copyout_body (pagetable : Z) : Z * list Z → M kst (Z * list Z + Z) := λ '(dstva, src),
  let len := Z.of_nat (length src) in
  if negb (0 <? len) then mret (inr 0)
  else
    let va0 := PGROUNDDOWN dstva in
    if (MAXVA <=? va0) || negb (va0 mod PGSIZE =? 0) then mret (inr (-1))
    else
      my_pte ← walk pagetable va0 false;
      if my_pte =? 0 then mret (inr (-1))
      else
        v ← load64 my_pte;
        if negb (has v PTE_V) || negb (has v PTE_U) then mret (inr (-1))
        else
          rc ← (if has v PTE_COW then copyout_cow pagetable va0 my_pte else mret 0);
          if negb (rc =? 0) then mret (inr (-1))
          else
            pa0 ← walkaddr pagetable va0;
            if pa0 =? 0 then mret (inr (-1))
            else
              let n0 := PGSIZE - (dstva - va0) in
              let n := if n0 >? len then len else n0 in
              update_ram (λ m, write_bytes m (pa0 + (dstva - va0)) (take (Z.to_nat n) src));;
              mret (inl (va0 + PGSIZE, drop (Z.to_nat n) src)).

Lemma copyout_unfold root dstva src :
  copyout root dstva src = while_ (S (length src)) (copyout_body root) (dstva, src).
Proof. reflexivity. Qed.

(** A user page the kernel may write: already private, or copy-on-write. *)
Definition may_write t v : Prop := ∀ pte, pt_leaves t !! v = Some pte → has pte PTE_U = true →
  has pte PTE_W = true ∨ has pte PTE_COW = true.

(** Getting the page at [v] private. *)
Definition own_post s fl ts ext (root : Z) t (v : Z) (r : Z) s' : Prop :=
  (r = -1 ∧ fl = [] ∧ s' = s) ∨
  (r = 0 ∧ ∃ fl' t' pte', let ts' := <[root := t']> ts in
     cow_inv s' fl' ts' ext ∧ same_views s ts s' ts' ∧ pt_leaves t' !! v = Some pte' ∧
     (∀ v', v' ≠ v → pt_leaves t' !! v' = pt_leaves t !! v') ∧
     refcount s' (PTE2PA pte') = 1 ∧ has pte' PTE_W = true ∧ has pte' PTE_U = true).

Lemma copyout_cow_ok s fl ts ext root t v pte my_pte :
  cow_inv s fl ts ext → (∀ p, 0 ≤ ext p) → ts !! root = Some t → 0 ≤ v < UVPN →
  pt_leaves t !! v = Some pte → has pte PTE_U = true → ld64 (ram s) my_pte = pte →
  wp (copyout_cow root (v * PGSIZE) my_pte) s (own_post s fl ts ext root t v).
Proof.
  intros HC Hext Ht Hv Hl HU Hld. pose proof HC as [HS Hw].
  destruct (Sinv_leaf _ _ _ _ _ _ _ _ HS Ht Hl (proj2 Hv)) as (Hq & Hr & Hn0).
  pose proof (Sinv_kinv _ _ _ _ HS) as (Hk1 & Hk2 & _). pose proof UVPN_lt.
  assert (set_ref_lock false (set_ref_lock true s) = s) as Hlock.
  { destruct s; simpl in *; by subst. }
  unfold copyout_cow. apply wp_bind, wp_gets. rewrite Hld.
  apply wp_bind, wp_acquire_ref; [done|]. apply wp_bind, wp_gets.
  change (refcount (set_ref_lock true s) (PTE2PA pte)) with (refcount s (PTE2PA pte)).
  rewrite (proj2 (Z.leb_gt _ _)) by lia.
  apply wp_bind, wp_release_ref; [done|]. rewrite Hlock. apply wp_bind, wp_gets. rewrite Hld.
  rewrite PGROUNDUP_aligned by (unfold PGSIZE; lia).
  eapply wp_mono; [by apply (cow_own_page 0 (-1))|].
  intros r s' [(-> & -> & ->)|(-> & fl' & pte' & HC' & Hsv & Hr1 & HW' & _ & HU')]; [by left|].
  right. split; [done|]. exists fl', (leaf_set t v (Some pte')), pte'. cbv zeta. split; [done|]. split; [done|].
  split; [by rewrite leaf_set_lookup, decide_True|]. split; [|by rewrite HU'].
  intros v' Hne. by rewrite leaf_set_lookup, decide_False.
Qed.

Lemma copyout_own s fl ts ext root t v pte my_pte :
  cow_inv s fl ts ext → (∀ p, 0 ≤ ext p) → ts !! root = Some t → 0 ≤ v < UVPN →
  pt_leaves t !! v = Some pte → has pte PTE_U = true → may_write t v → ld64 (ram s) my_pte = pte →
  wp (if has pte PTE_COW then copyout_cow root (v * PGSIZE) my_pte else mret 0) s
    (own_post s fl ts ext root t v).
Proof.
  intros HC Hext Ht Hv Hl HU Hmw Hld. destruct (has pte PTE_COW) eqn:EC; [by eapply copyout_cow_ok|].
  apply wp_ret. right. split; [done|]. exists fl, t, pte. cbv zeta. rewrite insert_id by done.
  destruct (Hmw pte Hl HU) as [HW|]; [|congruence]. split; [done|]. split; [apply same_views_refl|].
  split; [done|]. split; [done|]. split; [|done]. destruct HC as [_ Hw]. apply (Hw root t Ht v pte Hl); [lia|done].
Qed.

(** What a turn does: it writes up to the end of the page or of the buffer,
    or it fails without an effect. *)
Definition turn_ok s fl ts ext root t d src (r : Z * list Z + Z) s' : Prop :=
  (r = inr (-1) ∧ s' = s ∧ (fl = [] ∨ uview (ram s) t d = None)) ∨
  (∃ fl' t' n, let ts' := <[root := t']> ts in
     r = inl ((d / PGSIZE + 1) * PGSIZE, drop n src) ∧ (0 < n)%nat ∧
     n = Nat.min (length src) (Z.to_nat (PGSIZE - d mod PGSIZE)) ∧
     cow_inv s' fl' ts' ext ∧ wrote root d (take n src) s ts s' ts' ∧
     (∀ v', v' ≠ d / PGSIZE → pt_leaves t' !! v' = pt_leaves t !! v')).

Lemma copyout_turn s fl ts ext root t d src :
  cow_inv s fl ts ext → (∀ p, 0 ≤ ext p) → ts !! root = Some t →
  0 ≤ d < TRAPFRAME → src ≠ [] → may_write t (d / PGSIZE) →
  wp (copyout_body root (d, src)) s (turn_ok s fl ts ext root t d src).
Proof.
  intros HC Hext Ht Hd Hsrc Hmw. pose proof HC as [HS Hw].
  assert (0 < length src)%nat as Hlen by (destruct src; simpl; [done|lia]).
  pose proof (vpn_user d Hd) as Hv. pose proof (off_range d) as Hoff.
  pose proof (Z.div_mod d PGSIZE ltac:(done)) as Edm.
  set (v := d / PGSIZE) in *. set (va0 := v * PGSIZE).
  assert (0 ≤ va0 < TRAPFRAME) as Hva0.
  { change TRAPFRAME with (UVPN * PGSIZE). unfold va0, PGSIZE. lia. }
  pose proof (va_user_max va0 Hva0). assert (va0 / PGSIZE = v) as Ev by apply page_addr.
  unfold copyout_body. rewrite (proj2 (Z.ltb_lt _ _)) by lia. cbn [negb].
  rewrite PGROUNDDOWN_eq. fold v. fold va0. rewrite (proj2 (Z.leb_gt MAXVA va0)) by lia.
  unfold va0 at 1. rewrite page_aligned. cbn [orb negb Z.eqb].
  pose proof (walk_entry s fl ts ext root t va0 HS Ht Hva0) as He. rewrite Ev in He.
  assert (uview (ram s) t d = None ∨ ∃ pte, pt_leaves t !! v = Some pte ∧ has pte PTE_U = true) as Hview.
  { unfold uview. fold v. destruct (pt_leaves t !! v) as [pte|]; [|by left].
    destruct (has pte PTE_U) eqn:HU; [right|by left]. by exists pte. }
  apply wp_bind. destruct (pt_leaves t !! v) as [pte|] eqn:El.
  2:{ destruct Hview as [Hnone|(? & ? & _)]; [|done]. destruct He as (p & Hp & Hp0). eapply ok_wp; [done|].
      destruct (p =? 0) eqn:E0; [apply wp_ret; left; tauto|]. apply wp_bind, wp_gets. rewrite Hp0 by done.
      apply wp_ret. left; tauto. }
  destruct He as (p & Hp & Hp0 & Hld & Hok). eapply ok_wp; [done|]. rewrite Hp0.
  apply wp_bind, wp_gets. rewrite Hld. pose proof Hok as (HV & _). rewrite HV. cbn [negb orb].
  destruct (has pte PTE_U) eqn:HU; cbn [negb].
  2:{ apply wp_ret. left. destruct Hview as [?|(? & ? & ?)]; [tauto|congruence]. }
  apply wp_bind. wp_call copyout_own; try done.
  intros rc s1 [(-> & -> & ->)|(-> & fl1 & t1 & pte1 & HC1 & Hsv & Hl1 & Hother & Hr1 & HW1 & HU1)].
  { cbn [Z.eqb negb]. apply wp_ret. left; tauto. }
  cbv zeta in *. rewrite Z.eqb_refl. cbn [negb]. pose proof HC1 as [HS1 _].
  pose proof (lookup_insert_eq ts root t1) as Ht1.
  destruct (Sinv_leaf _ _ _ _ _ _ _ _ HS1 Ht1 Hl1 (proj2 Hv)) as (Hq1 & _). apply vpage_pos in Hq1.
  apply wp_bind. eapply ok_wp; [eapply walkaddr_lookup; [by eapply Sinv_wf|lia]|].
  rewrite decide_True by lia. rewrite Ev, Hl1, HU1, (proj2 (Z.eqb_neq _ _)) by lia.
  apply wp_bind. unfold update_ram. apply wp_modify, wp_ret. right.
  set (n := Nat.min (length src) (Z.to_nat (PGSIZE - d mod PGSIZE))).
  assert (d - va0 = d mod PGSIZE) as Eo by (unfold va0; lia). rewrite Eo.
  assert (Z.to_nat (if PGSIZE - d mod PGSIZE >? Z.of_nat (length src) then Z.of_nat (length src)
                    else PGSIZE - d mod PGSIZE) = n) as ->.
  { unfold n. clear -Hoff. generalize dependent (d mod PGSIZE). intros o Ho. case_if; lia. }
  exists fl1, t1, n. cbv zeta. split; [fold v; do 2 f_equal; unfold va0, PGSIZE; lia|].
  split; [unfold n; lia|]. split; [done|].
  destruct (write_page s1 fl1 (<[root := t1]> ts) ext root t1 v pte1 (d mod PGSIZE) (take n src)) as [HC2 Hwr]; try done.
  { lia. }
  { rewrite length_take. unfold n. lia. }
  split; [done|]. split; [|done]. replace (v * PGSIZE + d mod PGSIZE) with d in Hwr by lia.
  by eapply wrote_same.
Qed.

Section loop.
Context s fl ts ext (root : Z) (t : ptree) (d0 : Z) (src0 : list Z).
Context (HC : cow_inv s fl ts ext) (Hext : ∀ p, 0 ≤ ext p) (Ht : ts !! root = Some t).
Context (Hd0 : 0 ≤ d0) (Hend : d0 + Z.of_nat (length src0) ≤ TRAPFRAME).
Context (Hmw : ∀ v, d0 / PGSIZE ≤ v ≤ (d0 + Z.of_nat (length src0) - 1) / PGSIZE → may_write t v).

Definition copyout_post (r : Z) s' : Prop := ∃ fl' ts' j,
  (j ≤ length src0)%nat ∧ cow_inv s' fl' ts' ext ∧ wrote root d0 (take j src0) s ts s' ts' ∧
  ((r = 0 ∧ j = length src0) ∨
   (r = -1 ∧ (fl' = [] ∨ ∃ va, d0 ≤ va < d0 + Z.of_nat (length src0) ∧ uview (ram s) t va = None))).

Definition copyout_inv (a : Z * list Z) s' : Prop := ∃ fl' ts' t' j,
  (j ≤ length src0)%nat ∧ a.2 = drop j src0 ∧ (a.2 ≠ [] → a.1 = d0 + Z.of_nat j) ∧
  cow_inv s' fl' ts' ext ∧ wrote root d0 (take j src0) s ts s' ts' ∧ ts' !! root = Some t' ∧
  (a.2 ≠ [] → ∀ v, a.1 / PGSIZE ≤ v ≤ (d0 + Z.of_nat (length src0) - 1) / PGSIZE → may_write t' v).

Lemma copyout_ok : wp (copyout root d0 src0) s copyout_post.
Proof.
  rewrite copyout_unfold. apply (wp_while copyout_inv (λ a, length a.2)); [|  |simpl; lia].
  - intros [d src] s1 (fl1 & ts1 & t1 & j & Hj & Esrc & Ed & HC1 & Hw1 & Ht1 & Hmw1). simpl in *.
    destruct src as [|b src'] eqn:Es.
    { apply wp_ret. exists fl1, ts1, j. split; [done|]. split; [done|]. split; [done|]. left. split; [done|].
      apply (f_equal length) in Esrc. rewrite length_drop in Esrc. simpl in Esrc. lia. }
    rewrite <- Es in *. assert (src ≠ []) as Hne by (by rewrite Es). clear Es. specialize (Ed Hne). specialize (Hmw1 Hne).
    assert (length src = length src0 - j)%nat as Hl by (by rewrite Esrc, length_drop).
    assert (0 < length src)%nat as Hpos by (destruct src; simpl; [done|lia]).
    wp_call (copyout_turn s1 fl1 ts1 ext root t1 d src); try done; try lia.
    { apply Hmw1. split; [done|]. apply Z.div_le_mono; [done|lia]. }
    intros r s2 [(-> & -> & Hfail)|(fl2 & t2 & n & -> & Hn0 & Hn & HC2 & Hw2 & Hoth)].
    + exists fl1, ts1, j. split; [done|]. split; [done|]. split; [done|]. right. split; [done|].
      destruct Hfail as [->|Hnone]; [by left|right]. exists d. split; [lia|].
      destruct (Hw1 root t Ht) as (t1' & Ht1' & E1). assert (t1' = t1) as -> by congruence.
      rewrite E1, decide_False in Hnone by (try lia; rewrite length_take; lia). done.
    + cbv zeta in *. split; [|simpl; rewrite length_drop; lia].
      exists fl2, (<[root := t2]> ts1), t2, (j + n)%nat. simpl.
      pose proof (off_range d). pose proof (Z.div_mod d PGSIZE ltac:(done)) as Edm.
      assert (drop n src ≠ [] → (d / PGSIZE + 1) * PGSIZE = d0 + Z.of_nat (j + n)) as Hnext.
      { intros Hd. assert (0 < length (drop n src))%nat by (destruct (drop n src); simpl; [done|lia]).
        rewrite length_drop in *. rewrite Z.mul_add_distr_r. unfold PGSIZE in *. lia. }
      split; [lia|]. split; [by rewrite Esrc, drop_drop|]. split; [exact Hnext|]. split; [done|].
      split; [|split; [apply lookup_insert_eq|]].
      * rewrite <- (take_take_drop src0 j n), <- Esrc.
        eapply wrote_trans; [done|]. rewrite length_take, Nat.min_l by lia. by rewrite <- Ed.
      * intros Hd v Hv. rewrite page_addr in Hv. intros pte Hpte. rewrite Hoth in Hpte by lia.
        revert Hpte. apply Hmw1. lia.
  - exists fl, ts, t, 0%nat. simpl. split; [lia|]. split; [done|]. split; [lia|]. split; [done|].
    split; [apply wrote_nil, same_views_refl|]. split; [done|]. intros _. done.
Qed.
End loop.
End copyout.
