(* ===== verification/CowProps.v ===== *)
(** The properties of the copy-on-write virtual memory system, each with its
    witness on the example machine. *)
From S2P Require Import Prelude Riscv Memory Kalloc Vm VmInv VmSys VmWalk VmMap.
From S2P Require Import CowCopy Cow KernelExample CowFork CowFault CowWrite VmCopyin CowCopyout.

Section cow_props.
Context `{L : Layout} `{!LayoutOk}.
Implicit Types (s : kst) (fl : list Z) (ts : gmap Z ptree) (ext : Z → Z) (t : ptree).

Lemma wrote_user_byte s fl ts ext s' fl' ts' ext' root a bs q va :
  Sinv s fl ts ext → Sinv s' fl' ts' ext' → wrote root a bs s ts s' ts' → is_Some (ts !! q) →
  0 ≤ va < TRAPFRAME →
  user_byte s' q va = if decide (q = root ∧ a ≤ va < a + Z.of_nat (length bs))
                      then u8 <$> bs !! Z.to_nat (va - a) else user_byte s q va.
Proof.
  intros HS HS' Hw [t Ht] Hva. destruct (Hw q t Ht) as (t' & Ht' & E).
  rewrite (user_byte_view s fl ts ext q t), (user_byte_view s' fl' ts' ext' q t') by done. by apply E.
Qed.

Lemma tables_kept s ts s' ts' q : same_views s ts s' ts' → is_Some (ts !! q) → is_Some (ts' !! q).
Proof. intros Hv [t Ht]. destruct (Hv q t Ht) as (t' & -> & _). by eauto. Qed.
End cow_props.

(** C1: [uvmcopy], the memory part of fork, always returns.  With 0 the child
    sees exactly the parent's memory; with -1 (no page left for the child's
    page table) nothing has been mapped for it.  Either way the parent and
    every other process see their memory unchanged, and the invariant holds
    again: counts match the mappings, and no page is mapped writable while
    more than one mapping references it. *)
Theorem fork_copies_memory `{L : Layout} `{!LayoutOk} s fl ts ext old new sz told tnew :
  cow_inv s fl ts ext → (∀ p, 0 ≤ ext p) →
  ts !! old = Some told → ts !! new = Some tnew → old ≠ new → 0 ≤ sz ≤ TRAPFRAME →
  (∀ v, 0 ≤ v < pages_of sz → is_Some (pt_leaves told !! v) ∧ pt_leaves tnew !! v = None) →
  ∃ r s' fl' ts', uvmcopy old new sz s = Ok (r, s') ∧ cow_inv s' fl' ts' ext ∧ (r = 0 ∨ r = -1) ∧
    (∀ q va, is_Some (ts !! q) → q ≠ new ∨ r = -1 → 0 ≤ va < TRAPFRAME →
       user_byte s' q va = user_byte s q va) ∧
    (r = 0 → ∀ va, 0 ≤ va < sz → user_byte s' new va = user_byte s old va).
Proof.
  intros HC Hext Ho Hn Hne Hsz Hpages. destruct (wp_ok (uvmcopy old new sz) s
    (fork_post s ts ext old new sz)) as (r & s' & E & fl' & ts' & HC' & Hcase).
  { apply (uvmcopy_fork s fl ts ext old new sz told tnew); try done; intros; by apply Hpages. }
  exists r, s', fl', ts'. split; [done|]. split; [done|].
  destruct Hcase as [[-> Hall]|(-> & Hoth & Hch)]; (split; [lia|]); split; try done.
  - intros q va Hq _ Hva. by apply Hall.
  - intros q va Hq [Hqn|]; [|done]. by apply Hoth.
Qed.

Lemma fork_copies_memory_witness :
  ∃ r s' fl' ts', @uvmcopy Example.layout Example.parent Example.child 4096 Example.state = Ok (r, s') ∧
    @cow_inv Example.layout s' fl' ts' Example.no_ext ∧ (r = 0 ∨ r = -1) ∧
    (∀ q va, is_Some (Example.tables !! q) → q ≠ Example.child ∨ r = -1 → 0 ≤ va < TRAPFRAME →
       user_byte s' q va = user_byte Example.state q va) ∧
    (r = 0 → ∀ va, 0 ≤ va < 4096 → user_byte s' Example.child va = user_byte Example.state Example.parent va).
Proof.
  apply (@fork_copies_memory Example.layout Example.layout_ok Example.state Example.free Example.tables
    Example.no_ext Example.parent Example.child 4096 Example.t_parent Example.t_child).
  - exact Example.state_inv.
  - intros p. done.
  - reflexivity.
  - reflexivity.
  - done.
  - done.
  - intros v Hv. change (pages_of 4096) with 1 in Hv. assert (v = 0) as -> by lia. by split; [eexists|].
Defined.

(** C2: the page-fault handler for copy-on-write pages is transparent.  It
    either lets the process resume, with its page private, writable and no
    longer COW, and every byte of every address space as before; or it kills
    the process, only when no page is free, having changed nothing. *)
Theorem cow_fault_transparent `{L : Layout} `{!LayoutOk} s fl ts ext root t va pte :
  cow_inv s fl ts ext → (∀ p, 0 ≤ ext p) → ts !! root = Some t → 0 ≤ va < TRAPFRAME →
  pt_leaves t !! (va / PGSIZE) = Some pte →
  ∃ resumed s', cow_fault root va s = Ok (resumed, s') ∧
    (resumed = false → fl = [] ∧ s' = s) ∧
    (resumed = true → ∃ fl' ts' t' pte', cow_inv s' fl' ts' ext ∧
       (∀ q a, is_Some (ts !! q) → 0 ≤ a < TRAPFRAME → user_byte s' q a = user_byte s q a) ∧
       ts' !! root = Some t' ∧ pt_leaves t' !! (va / PGSIZE) = Some pte' ∧
       has pte' PTE_W = true ∧ has pte' PTE_COW = false ∧ has pte' PTE_U = has pte PTE_U ∧
       refcount s' (PTE2PA pte') = 1).
Proof.
  intros HC Hext Ht Hva Hl. destruct (wp_ok _ _ _ (cow_fault_ok s fl ts ext root t va pte HC Hext Ht Hva Hl))
    as (res & s' & E & [(-> & ? & ->)|(-> & fl' & pte' & HC' & Hsv & Hr & HW & HCW & HU)]).
  { by exists false, s. }
  cbv zeta in *. eexists true, s'. split; [done|]. split; [done|]. intros _.
  eexists fl', _, _, pte'. split; [exact HC'|]. split.
  - intros q a Hq Ha. destruct HC as [HS _], HC' as [HS' _]. by eapply (user_byte_same s fl ts ts).
  - split; [apply lookup_insert_eq|]. split; [|done]. by rewrite leaf_set_lookup, decide_True.
Qed.

Lemma cow_fault_transparent_witness :
  ∃ resumed s', @cow_fault Example.layout Example.child 5 (Example.shared_state Example.cow_user) = Ok (resumed, s') ∧
    (resumed = false → Example.free = [] ∧ s' = Example.shared_state Example.cow_user) ∧
    (resumed = true → ∃ fl' ts' t' pte', @cow_inv Example.layout s' fl' ts' Example.no_ext ∧
       (∀ q a, is_Some (Example.shared_tables Example.cow_user !! q) → 0 ≤ a < TRAPFRAME →
          user_byte s' q a = user_byte (Example.shared_state Example.cow_user) q a) ∧
       ts' !! Example.child = Some t' ∧ pt_leaves t' !! (5 / PGSIZE) = Some pte' ∧
       has pte' PTE_W = true ∧ has pte' PTE_COW = false ∧
       has pte' PTE_U = has (mkpte (Example.pg 6) Example.cow_user) PTE_U ∧
       refcount s' (PTE2PA pte') = 1).
Proof.
  apply (@cow_fault_transparent Example.layout Example.layout_ok _ Example.free
    (Example.shared_tables Example.cow_user) Example.no_ext Example.child
    (PTree (pt_nodes Example.t_child) {[ 0 := mkpte (Example.pg 6) Example.cow_user ]}) 5).
  - exact Example.shared_inv.
  - intros p. done.
  - reflexivity.
  - done.
  - reflexivity.
Defined.

(** C6: a store instruction of a user program, with its fault and the retry,
    changes that byte of that address space and no byte of any address space
    besides; if the process is killed instead, memory had run out or it had
    no right to write there, and no byte changed. *)
Theorem user_write_isolated `{L : Layout} `{!LayoutOk} s fl ts ext sz root t va b :
  cow_inv s fl ts ext → (∀ p, 0 ≤ ext p) → ts !! root = Some t → 0 ≤ va < TRAPFRAME →
  ∃ written s' fl' ts', user_write sz root va b s = Ok (written, s') ∧ cow_inv s' fl' ts' ext ∧
    (∀ q a, is_Some (ts !! q) → 0 ≤ a < TRAPFRAME →
       user_byte s' q a = if decide (written = true ∧ q = root ∧ a = va) then Some (u8 b)
                          else user_byte s q a) ∧
    (written = false → fl = [] ∨ ∀ pte, pt_leaves t !! (va / PGSIZE) = Some pte →
       has pte PTE_U = false ∨ has pte PTE_W = false ∧ (has pte PTE_COW = false ∨ sz ≤ va)).
Proof.
  intros HC Hext Ht Hva. destruct (wp_ok _ _ _ (user_write_ok s fl ts ext sz root t va b HC Hext Ht Hva))
    as (w & s' & E & fl' & ts' & HC' & Hpost). exists w, s', fl', ts'. split; [done|]. split; [done|].
  pose proof HC as [HS _]. pose proof HC' as [HS' _]. destruct w.
  - split; [|done]. intros q a Hq Ha. rewrite (wrote_user_byte s fl ts ext s' fl' ts' ext root va [b]) by done.
    simpl. destruct (decide (q = root ∧ a = va)) as [[-> ->]|Hne].
    + by rewrite !decide_True, Z.sub_diag by lia.
    + rewrite !decide_False by (intros (?&?&?) || intros (?&?); apply Hne; split; [done|lia]). done.
  - destruct Hpost as [Hsv Hwhy]. split; [|done]. intros q a Hq Ha. rewrite decide_False by (by intros (?&_)).
    by eapply (user_byte_same s fl ts ts).
Qed.

Lemma user_write_isolated_witness :
  ∃ written s',
    @user_write Example.layout 4096 Example.child 0 66 (Example.shared_state Example.cow_user) = Ok (written, s') ∧
    user_byte s' Example.parent 0 = Some 65.
Proof.
  destruct (@user_write_isolated Example.layout Example.layout_ok (Example.shared_state Example.cow_user)
    Example.free (Example.shared_tables Example.cow_user) Example.no_ext 4096 Example.child
    (PTree (pt_nodes Example.t_child) {[ 0 := mkpte (Example.pg 6) Example.cow_user ]}) 0 66)
    as (w & s' & _ & _ & E & _ & Hb & _).
  - exact Example.shared_inv.
  - intros p. done.
  - reflexivity.
  - done.
  - exists w, s'. split; [exact E|]. rewrite (Hb Example.parent 0); [|eexists; reflexivity|split; reflexivity || discriminate].
    rewrite decide_False; [vm_compute; reflexivity|]. intros (_ & Hq & _). vm_compute in Hq. done.
Defined.

(** C31: [copyout] to pages that are writable or copy-on-write answers 0 after
    writing exactly the bytes of [src] at [dstva] in that address space; it
    answers -1 only when a page of the range is not mapped for the user or
    memory has run out, having written a prefix.  No other byte of any
    address space changes. *)
Theorem copyout_writes_exactly `{L : Layout} `{!LayoutOk} s fl ts ext root t dstva src :
  cow_inv s fl ts ext → (∀ p, 0 ≤ ext p) → ts !! root = Some t →
  0 ≤ dstva → dstva + Z.of_nat (length src) ≤ TRAPFRAME →
  (∀ v, dstva / PGSIZE ≤ v ≤ (dstva + Z.of_nat (length src) - 1) / PGSIZE → may_write t v) →
  ∃ r s' fl' ts' j, copyout root dstva src s = Ok (r, s') ∧ cow_inv s' fl' ts' ext ∧
    (j ≤ length src)%nat ∧
    (∀ q a, is_Some (ts !! q) → 0 ≤ a < TRAPFRAME →
       user_byte s' q a = if decide (q = root ∧ dstva ≤ a < dstva + Z.of_nat j)
                          then u8 <$> src !! Z.to_nat (a - dstva) else user_byte s q a) ∧
    (r = 0 ∧ j = length src ∨
     r = -1 ∧ (fl' = [] ∨ ∃ va, dstva ≤ va < dstva + Z.of_nat (length src) ∧ user_byte s root va = None)).
Proof.
  intros HC Hext Ht Hd Hend Hmw.
  destruct (wp_ok _ _ _ (copyout_ok s fl ts ext root t dstva src HC Hext Ht Hd Hend Hmw))
    as (r & s' & E & fl' & ts' & j & Hj & HC' & Hw & Hcase).
  pose proof HC as [HS _]. pose proof HC' as [HS' _].
  exists r, s', fl', ts', j. split; [done|]. split; [done|]. split; [done|]. split.
  - intros q a Hq Ha. rewrite (wrote_user_byte s fl ts ext s' fl' ts' ext root dstva (take j src)) by done.
    rewrite length_take, Nat.min_l by lia. case_decide as Hin; [|done]. by rewrite lookup_take_lt by lia.
  - destruct Hcase as [?|(-> & [?|(va & Hva & Hnone)])]; [by left|right; split; [done|by left]|].
    right. split; [done|]. right. exists va. split; [done|]. by rewrite (user_byte_view s fl ts ext root t) by (done || lia).
Qed.

Lemma copyout_writes_exactly_witness :
  ∃ r s',
    @copyout Example.layout Example.child 0 [1; 2; 3] (Example.shared_state Example.cow_user) = Ok (r, s') ∧
    user_byte s' Example.parent 0 = Some 65.
Proof.
  destruct (@copyout_writes_exactly Example.layout Example.layout_ok (Example.shared_state Example.cow_user)
    Example.free (Example.shared_tables Example.cow_user) Example.no_ext Example.child
    (PTree (pt_nodes Example.t_child) {[ 0 := mkpte (Example.pg 6) Example.cow_user ]}) 0 [1; 2; 3])
    as (r & s' & _ & _ & j & E & _ & _ & Hb & _).
  - exact Example.shared_inv.
  - intros p. done.
  - reflexivity.
  - done.
  - done.
  - intros v _ pte Hpte _. right. simpl in Hpte.
    apply lookup_singleton_Some in Hpte as [_ <-]. reflexivity.
  - exists r, s'. split; [exact E|]. rewrite (Hb Example.parent 0); [|eexists; reflexivity|split; reflexivity || discriminate].
    rewrite decide_False; [vm_compute; reflexivity|]. intros (Hq & _). vm_compute in Hq. done.
Defined.

(** [copyout] checks for PTE_V, PTE_U and PTE_COW but not for PTE_W: on a
    read-only page that two processes share (program text after a fork) it
    succeeds, and the write shows in the other process. *)
Theorem copyout_writes_shared_text :
  let s := Example.shared_state Example.text_user in
  @cow_inv Example.layout s Example.free (Example.shared_tables Example.text_user) Example.no_ext ∧
  ∃ s', @copyout Example.layout Example.child 0 [66] s = Ok (0, s') ∧
    user_byte s Example.parent 0 = Some 65 ∧ user_byte s' Example.parent 0 = Some 66.
Proof.
  split; [exact Example.text_inv|]. eexists. split; [vm_compute; reflexivity|].
  split; vm_compute; reflexivity.
Qed.

(** [copyin] answers exactly the bytes the user program would load from
    the range, and fails exactly when one of them is not mapped for it. *)
Theorem copyin_reads_user_memory `{L : Layout} `{!LayoutOk} s fl ts ext root t srcva len :
  Sinv s fl ts ext → ts !! root = Some t → 0 ≤ srcva → 0 ≤ len → srcva + len ≤ TRAPFRAME →
  copyin root srcva len s = Ok (user_bytes s root srcva (Z.to_nat len), s).
Proof. intros HS Ht. by apply (copyin_ok s fl ts ext root t). Qed.

Lemma copyin_reads_user_memory_witness :
  copyin Example.parent 4090 6 Example.state =
  Ok (user_bytes Example.state Example.parent 4090 6, Example.state).
Proof.
  apply (@copyin_reads_user_memory Example.layout Example.layout_ok _ Example.free Example.tables
    Example.no_ext Example.parent Example.t_parent 4090 6).
  - exact (proj1 Example.state_inv).
  - reflexivity.
  - done.
  - done.
  - done.
Defined.

(** [copyinstr] answers the NUL-terminated string the user program sees
    at the address, and fails exactly when it meets an unmapped byte or [max]
    bytes without a NUL. *)
Theorem copyinstr_reads_user_string `{L : Layout} `{!LayoutOk} s fl ts ext root t srcva max :
  Sinv s fl ts ext → ts !! root = Some t → 0 ≤ srcva → 0 ≤ max → srcva + max ≤ TRAPFRAME →
  copyinstr root srcva max s = Ok (user_string s root srcva (Z.to_nat max), s).
Proof. intros HS Ht. by apply (copyinstr_ok s fl ts ext root t). Qed.

Lemma copyinstr_reads_user_string_witness :
  copyinstr Example.parent 0 128 Example.state =
  Ok (user_string Example.state Example.parent 0 128, Example.state).
Proof.
  apply (@copyinstr_reads_user_string Example.layout Example.layout_ok _ Example.free Example.tables
    Example.no_ext Example.parent Example.t_parent 0 128).
  - exact (proj1 Example.state_inv).
  - reflexivity.
  - done.
  - done.
  - done.
Defined.
