(* ===== verification/VmProps.v ===== *)
(** Properties of the allocator, of the memory routines and of single
    mappings, each with its witness. *)
From S2P Require Import Prelude Riscv Memory Kalloc Vm VmInv VmSys VmWalk VmMap.
From S2P Require Import CowCopy Cow KernelExample CowFault CowWrite.

(** The physical address [walkaddr] answers, 0 for none. *)
Definition translate (s : kst) (pagetable va : Z) : Z :=
  match walkaddr pagetable va s with Ok (pa, _) => pa | _ => 0 end.

Section vm_props.
Context `{L : Layout} `{!LayoutOk}.

Lemma translate_eq s fl ts ext r t va : Sinv s fl ts ext → ts !! r = Some t → 0 ≤ va < MAXVA →
  translate s r va = match pt_leaves t !! (va / PGSIZE) with
                     | Some pte => if has pte PTE_U then PTE2PA pte else 0
                     | None => 0 end.
Proof.
  intros HS Ht Hva. unfold translate. rewrite (walkaddr_lookup s r t) by (lia || by eapply Sinv_wf).
  by rewrite decide_True by lia.
Qed.

Lemma mkpte_has_U pa perm : vpage pa → 0 ≤ perm < 1024 →
  has (mkpte pa (Z.lor perm PTE_V)) PTE_U = has perm PTE_U.
Proof.
  intros (n & -> & Hn)%vpage_eq Hp. unfold mkpte. rewrite !has_U, !Z.lor_spec, PA2PTE_eq by lia.
  change 1024 with (2 ^ 10). rewrite Z.mul_pow2_bits_low by lia. by rewrite orb_false_l, orb_false_r.
Qed.

Lemma map_perm pa perm : vpage pa → 0 ≤ perm < 1024 → perm ≠ 0 → perm ≠ PTE_V →
  leaf_ok (mkpte pa (Z.lor perm PTE_V)) ∧ PTE2PA (mkpte pa (Z.lor perm PTE_V)) = pa.
Proof.
  intros (n & -> & Hn)%vpage_eq Hp Hp0 Hp1.
  assert (0 ≤ Z.lor perm PTE_V < 1024) as Hr.
  { rewrite <- (Z.mod_small perm 1024), <- (Z.mod_small PTE_V 1024) by done.
    change 1024 with (2 ^ 10). rewrite <- !Z.land_ones, <- Z.land_lor_distr_l, Z.land_ones by lia.
    by apply Z.mod_pos_bound. }
  split; [|by apply PTE2PA_mkpte; [lia|]]. apply leaf_ok_mk; [lia|done| |].
  - rewrite has_V, Z.lor_spec. apply orb_true_r.
  - intros E. destruct (decide (has perm PTE_V = true)) as [HV|HV]; [by rewrite lor_V_id in E|].
    apply Hp0. apply Z.bits_inj'. intros i Hi. rewrite Z.bits_0.
    destruct (decide (i = 0)) as [->|Hi0]; [rewrite <- has_V; by destruct (has perm PTE_V)|].
    assert (Z.testbit (Z.lor perm PTE_V) i = Z.testbit PTE_V i) as Eb by by rewrite E.
    rewrite Z.lor_spec in Eb. assert (Z.testbit PTE_V i = false) as EV.
    { change PTE_V with (2 ^ 0). rewrite Z.pow2_bits_eqb by lia. apply Z.eqb_neq. lia. }
    rewrite EV, orb_false_r in Eb. done.
Qed.
End vm_props.

(** [kinit] from zero-initialised globals returns with the free list
    holding exactly the page-aligned pages between the end of the kernel and
    PHYSTOP, each once, all with reference count 0. *)
Theorem kinit_frees_all_memory `{L : Layout} `{!LayoutOk} s : freelist s = 0 →
  ∃ s', kinit s = Ok (tt, s') ∧ kinv s' (reverse pages) ∧ NoDup pages ∧
        (∀ p, p ∈ pages ↔ p mod PGSIZE = 0 ∧ kend ≤ p ∧ p < PHYSTOP).
Proof.
  intros Hf. destruct (wp_ok _ _ _ (kinit_ok s Hf)) as ([] & s' & E & Hk). exists s'. exact (conj E Hk).
Qed.

Lemma kinit_frees_all_memory_witness :
  ∃ s', @kinit Example.layout (KSt false false 0 ∅ ∅) = Ok (tt, s') ∧
        @kinv Example.layout s' (reverse (@pages Example.layout)).
Proof.
  destruct (@kinit_frees_all_memory Example.layout Example.layout_ok (KSt false false 0 ∅ ∅) eq_refl)
    as (s' & E & Hk & _).
  exists s'. exact (conj E Hk).
Defined.

(** [kalloc] answers 0 and changes nothing when no page is free; else it
    takes the head of the free list, sets its count to 1 and fills it with 5,
    leaving every other page's count and bytes alone. *)
Theorem kalloc_hands_out_page `{L : Layout} `{!LayoutOk} s fl : kinv s fl →
  ∃ r s', kalloc s = Ok (r, s') ∧
    match fl with
    | [] => r = 0 ∧ s' = s
    | p :: fl' => r = p ∧ kinv s' fl' ∧ refcount s p = 0 ∧ refcount s' p = 1 ∧
        (∀ q, vpage q → q ≠ p → refcount s' q = refcount s q) ∧
        (∀ a, ld8 (ram s') a = if decide (p ≤ a < p + PGSIZE) then 5 else ld8 (ram s) a)
    end.
Proof.
  intros Hk. destruct fl as [|p fl'].
  - destruct (wp_ok kalloc s (λ r s', r = 0 ∧ s' = s)) as (r & s' & E & H').
    { by apply kalloc_empty. } by exists r, s'.
  - destruct (wp_ok _ _ _ (kalloc_cons s p fl' Hk)) as (r & s' & E & -> & Hk' & Hf & Hrc & H5).
    pose proof (kinv_vpages _ _ Hk) as [Hp _]%Forall_cons.
    exists p, s'. split; [done|]. split; [done|]. split; [done|].
    split; [by apply (kinv_ref _ _ _ Hk Hp); left|].
    assert (∀ q, vpage q → refcount s' q = if decide (p = q) then 1 else refcount s q) as Hq.
    { intros q Hq. rewrite <- (refcount_put s p q 1) by done. unfold refcount. by rewrite Hrc. }
    split; [rewrite Hq by done; by rewrite decide_True|].
    split; [intros q Hvq Hne; rewrite Hq by done; by rewrite decide_False by done|].
    intros a. case_decide; [by apply H5|by apply Hf].
Qed.

Lemma kalloc_hands_out_page_witness :
  ∃ r s', kalloc Example.state = Ok (r, s') ∧ r = Example.pg 7 ∧ refcount s' r = 1.
Proof.
  destruct (@kalloc_hands_out_page Example.layout Example.layout_ok Example.state Example.free)
    as (r & s' & E & Hr & _ & _ & Hc & _).
  - exact (proj1 (proj1 Example.state_inv)).
  - exists r, s'. split; [exact E|]. split; [exact Hr|]. rewrite Hr. exact Hc.
Defined.

(** [kfree] of a page in use drops one reference; the page goes back on
    the free list exactly when that was the last one, and the bytes of every
    other page stay; [kfree] of a page already free panics. *)
Theorem kfree_drops_reference `{L : Layout} `{!LayoutOk} s fl p : kinv s fl → vpage p →
  if decide (p ∈ fl) then kfree p s = Panic "decrementing freed page"
  else ∃ s', kfree p s = Ok (tt, s') ∧
    kinv s' (if decide (refcount s p = 1) then p :: fl else fl) ∧
    (∀ q, vpage q → refcount s' q = refcount s q - if decide (q = p) then 1 else 0) ∧
    (∀ a, ¬ (refcount s p = 1 ∧ p ≤ a < p + PGSIZE) → ld8 (ram s') a = ld8 (ram s) a).
Proof.
  intros Hk Hp. case_decide as Hin; [by apply (kfree_free s fl)|].
  destruct (kinv_ref _ _ _ Hk Hp) as [Hr0 Hr].
  assert (refcount s p ≠ 0) as Hne by (intros E; by apply Hin, Hr).
  assert (∀ s' v, reference_counter s' = <[page_of p := v]> (reference_counter s) → v = refcount s p - 1 →
    ∀ q, vpage q → refcount s' q = refcount s q - if decide (q = p) then 1 else 0) as Hcount.
  { intros s' v E -> q Hq. pose proof (refcount_put s p q (refcount s p - 1) Hp Hq) as E'.
    unfold refcount in *. simpl in E'. rewrite E, E'. repeat case_decide; subst; (lia || done). }
  destruct (decide (refcount s p = 1)) as [H1|H1].
  - destruct (wp_ok _ _ _ (kfree_last s fl p Hk Hp H1)) as ([] & s' & E & Hk' & Hf & Hrc).
    exists s'. split; [done|]. split; [done|]. split; [apply (Hcount s' 0); [done|lia]|].
    intros a Ha. apply Hf. tauto.
  - destruct (wp_ok _ _ _ (kfree_shared s fl p Hk Hp ltac:(lia))) as ([] & s' & E & Hk' & ->).
    eexists. split; [done|]. split; [done|]. split; [by eapply Hcount|done].
Qed.

Lemma kfree_drops_reference_witness :
  ∃ s', @kfree Example.layout (Example.pg 6) (Example.shared_state Example.cow_user) = Ok (tt, s') ∧
        @kinv Example.layout s' Example.free.
Proof.
  destruct (@kfree_drops_reference Example.layout Example.layout_ok (Example.shared_state Example.cow_user)
    Example.free (Example.pg 6)) as (s' & E & Hk & _).
  - exact (proj1 (proj1 Example.shared_inv)).
  - split; [reflexivity|]. split; [discriminate|reflexivity].
  - exists s'. exact (conj E Hk).
Defined.

(** [memmove] moves [n] bytes correctly also when the two regions
    overlap, in either direction, and touches nothing else. *)
Theorem memmove_overlap m dst src n a : 0 ≤ n →
  ld8 (memmove m dst src n) a =
  if decide (dst ≤ a < dst + n) then ld8 m (src + (a - dst)) else ld8 m a.
Proof. apply ld8_memmove. Qed.

Lemma memmove_overlap_witness :
  ld8 (memmove (write_bytes ∅ 0 [1; 2; 3; 4]) 1 0 3) 3 = 3.
Proof. rewrite memmove_overlap; [vm_compute; reflexivity|discriminate]. Defined.

(** after [mappages] of one unmapped page answers 0, the page is
    translated to [pa] (if PTE_U was asked for) and every other address of
    every address space is translated as before; when it answers -1, because
    page table pages ran out, no translation has changed. *)
Theorem mappages_adds_translation `{L : Layout} `{!LayoutOk} s fl ts ext root t v pa perm :
  Sinv s fl ts ext → ts !! root = Some t → 0 ≤ v < 2 ^ 26 → pt_leaves t !! v = None →
  vpage pa → 0 < refcount s pa → nodesn ts pa = 0 → 0 ≤ perm < 1024 → perm ≠ 0 → perm ≠ PTE_V →
  ∃ r s', mappages root (v * PGSIZE) PGSIZE pa perm s = Ok (r, s') ∧
    (r = 0 ∨ r = -1 ∧ freelist s' = 0) ∧
    ∀ q a, is_Some (ts !! q) → 0 ≤ a < MAXVA →
      translate s' q a =
      if decide (r = 0 ∧ q = root ∧ a / PGSIZE = v)
      then (if has perm PTE_U then pa else 0) else translate s q a.
Proof.
  intros HS Ht Hv Hl Hpa Hr Hn Hperm H0 H1. destruct (map_perm pa perm Hpa Hperm H0 H1) as [Hok HPA].
  destruct (wp_ok _ _ _ (mappages_one s fl ts ext root t v pa perm HS Ht Hv Hl Hok HPA (λ _, conj Hpa (conj Hr Hn))))
    as (r & s' & E & fl' & n' & _ & _ & _ & Hcase).
  exists r, s'. split; [done|]. destruct Hcase as [(-> & -> & HS' & _)|(-> & HS' & _)].
  - split; [right; split; [done|]; by destruct HS' as ((_ & _ & ? & _) & _)|].
    intros q a [tq Htq] Ha. rewrite decide_False by (by intros [? _]).
    rewrite (translate_eq s fl ts ext q tq) by done. destruct (decide (root = q)) as [<-|Hne].
    + erewrite (translate_eq s'); [|done|apply lookup_insert_eq|done]. simpl. by assert (tq = t) as -> by congruence.
    + by erewrite (translate_eq s'); [|done|by rewrite lookup_insert_ne|done].
  - split; [by left|]. intros q a [tq Htq] Ha. rewrite (translate_eq s fl ts ext q tq) by done.
    destruct (decide (root = q)) as [<-|Hne].
    + erewrite (translate_eq s'); [|done|apply lookup_insert_eq|done]. simpl. rewrite lookup_insert.
      assert (tq = t) as -> by congruence. destruct (decide (v = a / PGSIZE)) as [Ev|Ev].
      * rewrite decide_True by done. by rewrite HPA, mkpte_has_U.
      * rewrite decide_False by (intros (_ & _ & ?); congruence). done.
    + erewrite (translate_eq s'); [|done|by rewrite lookup_insert_ne|done].
      by rewrite decide_False by (intros (_ & ? & _); congruence).
Qed.

Lemma mappages_adds_translation_witness :
  ∃ r s', mappages Example.child (3 * PGSIZE) PGSIZE (Example.pg 6) 0x13 Example.state = Ok (r, s') ∧
    (r = 0 ∨ r = -1 ∧ freelist s' = 0).
Proof.
  destruct (@mappages_adds_translation Example.layout Example.layout_ok Example.state Example.free
    Example.tables Example.no_ext Example.child Example.t_child 3 (Example.pg 6) 0x13) as (r & s' & E & Hr & _).
  - exact (proj1 Example.state_inv).
  - reflexivity.
  - split; [discriminate|reflexivity].
  - reflexivity.
  - split; [reflexivity|]. split; [discriminate|reflexivity].
  - vm_compute. reflexivity.
  - vm_compute. reflexivity.
  - split; [discriminate|reflexivity].
  - discriminate.
  - discriminate.
  - exists r, s'. exact (conj E Hr).
Defined.

(** [uvmunmap] with [do_free] of mapped user pages removes exactly these
    mappings and drops one reference for each; what any address space still
    maps shows the same bytes as before. *)
Theorem uvmunmap_releases_pages `{L : Layout} `{!LayoutOk} s fl ts ext root t v0 n :
  Sinv s fl ts ext → ts !! root = Some t → 0 ≤ v0 → 0 ≤ n → v0 + n ≤ UVPN →
  (∀ v, v0 ≤ v < v0 + n → is_Some (pt_leaves t !! v)) → (∀ p, 0 ≤ ext p) →
  ∃ s' fl' t', uvmunmap root (v0 * PGSIZE) n true s = Ok (tt, s') ∧
    Sinv s' fl' (<[root := t']> ts) ext ∧
    (∀ v, pt_leaves t' !! v = if decide (v0 ≤ v < v0 + n) then None else pt_leaves t !! v) ∧
    (∀ q a, is_Some (ts !! q) → 0 ≤ a < TRAPFRAME →
       user_byte s' q a = if decide (q = root ∧ v0 ≤ a / PGSIZE < v0 + n) then None else user_byte s q a).
Proof.
  intros HS Ht Hv0 Hn Hu Hall Hext.
  destruct (wp_ok _ _ _ (uvmunmap_free s fl ts ext root t v0 n HS Ht Hv0 Hn Hu Hall Hext))
    as ([] & s' & E & fl' & HS' & Hsh).
  eexists s', fl', _. split; [done|]. split; [exact HS'|].
  assert (∀ v, filter (outside v0 n) (pt_leaves t) !! v =
    if decide (v0 ≤ v < v0 + n) then None else pt_leaves t !! v) as Hfl.
  { intros v. apply option_eq. intros x. rewrite map_lookup_filter_Some. unfold outside; simpl.
    case_decide; naive_solver. }
  split; [exact Hfl|]. intros q a [tq Htq] Ha. pose proof (vpn_user a Ha) as Hva.
  rewrite (user_byte_view s fl ts ext q tq) by done.
  assert (∃ tq', <[root := PTree (pt_nodes t) (filter (outside v0 n) (pt_leaves t))]> ts !! q = Some tq' ∧
    pt_leaves tq' !! (a / PGSIZE) = if decide (q = root ∧ v0 ≤ a / PGSIZE < v0 + n) then None
                                    else pt_leaves tq !! (a / PGSIZE)) as (tq' & Htq' & El).
  { rewrite lookup_insert. case_decide as Eq; [subst q|].
    - eexists. split; [done|]. simpl. rewrite Hfl. assert (tq = t) as -> by congruence.
      repeat case_decide; (done || tauto).
    - exists tq. split; [done|]. by rewrite decide_False by (intros [? _]; congruence). }
  rewrite (user_byte_view s' fl' _ ext q tq') by done. unfold uview. rewrite El.
  case_decide as Hd; [done|]. destruct (pt_leaves tq !! (a / PGSIZE)) as [pte|] eqn:Ep; [|done].
  destruct (has pte PTE_U); [|done]. f_equal.
  destruct (Sinv_leaf _ _ _ _ _ _ _ _ HS Htq Ep (proj2 Hva)) as (Hq & Hr & Hnd).
  destruct (Sinv_leaf _ _ _ _ _ _ _ _ HS' Htq' El (proj2 Hva)) as (_ & Hr' & _).
  destruct (Hsh _ Hq Hr) as (_ & Hb). apply Hb; [done|done|]. pose proof (off_range a). lia.
Qed.

Lemma uvmunmap_releases_pages_witness :
  ∃ s', @uvmunmap Example.layout Example.parent (0 * PGSIZE) 1 true (Example.shared_state Example.cow_user) = Ok (tt, s') ∧
    user_byte s' Example.child 0 = user_byte (Example.shared_state Example.cow_user) Example.child 0.
Proof.
  destruct (@uvmunmap_releases_pages Example.layout Example.layout_ok (Example.shared_state Example.cow_user)
    Example.free (Example.shared_tables Example.cow_user) Example.no_ext Example.parent
    (PTree (pt_nodes Example.t_parent) {[ 0 := mkpte (Example.pg 6) Example.cow_user ]}) 0 1)
    as (s' & _ & _ & E & _ & _ & Hb).
  - exact (proj1 Example.shared_inv).
  - reflexivity.
  - discriminate.
  - discriminate.
  - discriminate.
  - intros v Hv. assert (v = 0) as -> by lia. eexists. reflexivity.
  - intros p. discriminate.
  - exists s'. split; [exact E|]. rewrite (Hb Example.child 0); [|eexists; reflexivity|split; reflexivity || discriminate].
    rewrite decide_False; [reflexivity|]. intros (Hq & _). vm_compute in Hq. discriminate.
Defined.
