(* ===== verification/SortBase.v ===== *)
(** concurrency/partB.c: the file records, the C strings, the three keys and
    the comparison functions of the lazy sorter. *)
From S2P Require Import Prelude.

(** ** Definitions *)

(** A C string is the list of its bytes before the NUL. *)
Record File := mkFile { name : list Z; id : Z; timestamp : list Z }.

Global Instance File_eq_dec : EqDecision File.
Proof. solve_decision. Defined.

(** [strcmp] of string.h: the sign of the first difference of unsigned
    bytes, the terminating NUL included. *)
Fixpoint strcmp (a b : list Z) : Z :=
  match a, b with
  | [], [] => 0
  | [], y :: _ => - y
  | x :: _, [] => x
  | x :: a', y :: b' => if x =? y then strcmp a' b' else x - y
  end.

(** [toupper] of ctype.h in the C locale. *)
Definition toupper (c : Z) : Z := if (97 <=? c) && (c <=? 122) then c - 32 else c.

(** The character at [i] counts as its letter's place in the alphabet while
    [i] is before ".txt", and as 0 from there on. *)
Definition index_digit (base26_part : list Z) (i : nat) : Z :=
  if Z.of_nat i <? i32 (Z.of_nat (length base26_part) - 4) then
    toupper (default 0 (base26_part !! i)) - 65 + 1
  else 0.

Definition convert_to_index (filename : list Z) : Z :=
  let base26_part := drop 4 filename in
  foldl (λ index i, i32 (index * 26 + index_digit base26_part i)) 0 (seq 0 4).

Definition convert_filename_to_file_index (min_filename filename : list Z) : Z :=
  i32 (convert_to_index filename - convert_to_index min_filename).

(** Seconds since [min_timestamp]; [mktime_of] is [strptime] followed by
    [mktime], which depends on the machine's time zone. *)
Definition convert_timestamp_to_seconds (mktime_of : list Z → Z)
    (min_timestamp timestamp : list Z) : Z :=
  i32 (mktime_of timestamp - mktime_of min_timestamp).

(** The comparison functions handed to [qsort], 32-bit difference included. *)
Definition compare_by_name (a b : File) : Z := strcmp (name a) (name b).
Definition compare_by_id (a b : File) : Z := i32 (id a - id b).
Definition compare_by_timestamp (a b : File) : Z := strcmp (timestamp a) (timestamp b).

(** None is the code's NULL. *)
Definition get_comparison_function (sort_column_flag : Z) : option (File → File → Z) :=
  if sort_column_flag =? 0 then Some compare_by_name
  else if sort_column_flag =? 1 then Some compare_by_id
  else if sort_column_flag =? 2 then Some compare_by_timestamp
  else None.

(** The global variables [get_max_min_values] sets. *)
Record minmax := MinMax {
  max_value : Z; min_value : Z;
  min_filename : list Z; max_filename : list Z;
  min_timestamp : list Z; max_timestamp : list Z
}.

(** One turn of its loop. *)
Definition minmax_turn (sort_column_flag : Z) (g : minmax) (f : File) : minmax :=
  if sort_column_flag =? 0 then
    MinMax (max_value g) (min_value g)
      (if strcmp (name f) (min_filename g) <? 0 then name f else min_filename g)
      (if strcmp (name f) (max_filename g) >? 0 then name f else max_filename g)
      (min_timestamp g) (max_timestamp g)
  else if sort_column_flag =? 2 then
    MinMax (max_value g) (min_value g) (min_filename g) (max_filename g)
      (if strcmp (timestamp f) (min_timestamp g) <? 0 then timestamp f else min_timestamp g)
      (if strcmp (timestamp f) (max_timestamp g) >? 0 then timestamp f else max_timestamp g)
  else
    MinMax (if id f >? max_value g then id f else max_value g)
      (if id f <? min_value g then id f else min_value g)
      (min_filename g) (max_filename g) (min_timestamp g) (max_timestamp g).

(** None when there is no [files[0]] to read. *)
Definition get_max_min_values (mktime_of : list Z → Z) (sort_column_flag : Z)
    (files : list File) : option minmax :=
  match files with
  | [] => None
  | f :: rest =>
      let g := foldl (minmax_turn sort_column_flag)
        (MinMax (id f) (id f) (name f) (name f) (timestamp f) (timestamp f)) rest in
      Some
        (if sort_column_flag =? 0 then
           MinMax (convert_filename_to_file_index (min_filename g) (max_filename g))
             (convert_filename_to_file_index (min_filename g) (min_filename g))
             (min_filename g) (max_filename g) (min_timestamp g) (max_timestamp g)
         else if sort_column_flag =? 2 then
           MinMax (convert_timestamp_to_seconds mktime_of (min_timestamp g) (max_timestamp g))
             (convert_timestamp_to_seconds mktime_of (min_timestamp g) (min_timestamp g))
             (min_filename g) (max_filename g) (min_timestamp g) (max_timestamp g)
         else g)
  end.

(** The bucket [count_local] puts a file in. *)
Definition bucket_index (mktime_of : list Z → Z) (sort_column_flag : Z) (g : minmax) (f : File) : Z :=
  if sort_column_flag =? 0 then convert_filename_to_file_index (min_filename g) (name f)
  else if sort_column_flag =? 2 then convert_timestamp_to_seconds mktime_of (min_timestamp g) (timestamp f)
  else i32 (id f - min_value g).

(** A C string in memory has bytes 1 to 255. *)
Definition cstring (s : list Z) : Prop := Forall (λ c, 0 < c < 256) s.

(** ** Lemmas *)

Lemma strcmp_refl s : strcmp s s = 0.
Proof. induction s as [|c s IH]; simpl; [done|]. by rewrite Z.eqb_refl. Qed.

Lemma strcmp_eq a b : cstring a → cstring b → strcmp a b = 0 → a = b.
Proof.
  intros Ha. revert b. induction Ha as [|x a Hx Ha IH]; intros b Hb; destruct Hb as [|y b Hy Hb]; simpl; try (done || lia).
  case_if; [|lia]. intros E. f_equal; [done|]. by apply IH.
Qed.

Lemma strcmp_antisym a b : Z.sgn (strcmp b a) = - Z.sgn (strcmp a b).
Proof.
  revert b. induction a as [|x a IH]; intros [|y b]; simpl; try done.
  - by rewrite Z.sgn_opp, Z.opp_involutive.
  - by rewrite Z.sgn_opp.
  - rewrite (Z.eqb_sym y x). case_if; [apply IH|]. rewrite <- Z.sgn_opp. f_equal. lia.
Qed.

Lemma strcmp_trans a b c : cstring a → cstring b → cstring c →
  strcmp a b ≤ 0 → strcmp b c ≤ 0 → strcmp a c ≤ 0.
Proof.
  intros Ha. revert b c. induction Ha as [|x a Hx Ha IH]; intros b c Hb Hc;
    destruct Hb as [|y b Hy Hb], Hc as [|z c Hz Hc]; simpl; try lia.
  repeat case_if; try lia. subst. by apply IH.
Qed.

Lemma strcmp_total a b : strcmp a b ≤ 0 ∨ strcmp b a ≤ 0.
Proof. pose proof (strcmp_antisym a b). destruct (strcmp a b), (strcmp b a); simpl in *; lia. Qed.
