(* ===== verification/SortCount.v ===== *)
(** concurrency/partB.c, first phase of the distributed count sort: the
    threads of [count_local] fill the buckets of [global_count] under one
    mutex per bucket.

    Every access to a shared bucket is a step of its own: taking the mutex,
    reading and writing [frequency], reading and writing [head], releasing
    the mutex; any thread may take the next step. *)
From S2P Require Import Prelude SortBase.

(** ** Definitions *)

(** A [file_count]; the nodes from [head] on carry these files.  [b_lock] is
    the thread that holds the mutex. *)
Record bucket := Bucket { b_freq : Z; b_head : list File; b_size : Z; b_lock : option nat }.

(** Where a thread is in the body of its loop. *)
Inductive cpc :=
| PLock                       (* at pthread_mutex_lock *)
| PFreq                       (* frequency++, before the read *)
| PFreqW (v : Z)              (* frequency++, having read v *)
| PHead                       (* head = global_count[index]->head *)
| PPush (h : list File)       (* having read h, before writing the new head *)
| PUnlock.

Global Instance cpc_eq_dec : EqDecision cpc.
Proof. solve_decision. Defined.

(** A thread of [count_local]: its [i], its [e], its place. *)
Record cth := CTh { c_i : Z; c_end : Z; c_pc : cpc }.

Definition cstate : Type := list bucket * list cth.

Section count_local.
Context (files : list File) (idx : File → Z).

(** The next step of thread [t]: None when it has returned, waits for a
    mutex, or would leave an array. *)
Definition cstep (t : nat) (σ : cstate) : option cstate :=
  let '(bs, ths) := σ in
  match ths !! t with
  | None => None
  | Some th =>
      let '(CTh i e pc) := th in
      if e <? i then None
      else
        f ← getZ files i;
        b ← getZ bs (idx f);
        match pc with
        | PLock =>
            match b_lock b with
            | Some _ => None
            | None => Some (setZ bs (idx f) (Bucket (b_freq b) (b_head b) (b_size b) (Some t)),
                            <[t := CTh i e PFreq]> ths)
            end
        | PFreq => Some (bs, <[t := CTh i e (PFreqW (b_freq b))]> ths)
        | PFreqW v =>
            Some (setZ bs (idx f) (Bucket (i32 (v + 1)) (b_head b) (b_size b) (b_lock b)),
                  <[t := CTh i e PHead]> ths)
        | PHead => Some (bs, <[t := CTh i e (PPush (b_head b))]> ths)
        | PPush h =>
            Some (setZ bs (idx f) (Bucket (b_freq b) (f :: h) (b_size b) (b_lock b)),
                  <[t := CTh i e PUnlock]> ths)
        | PUnlock =>
            Some (setZ bs (idx f) (Bucket (b_freq b) (b_head b) (b_size b) None),
                  <[t := CTh (i + 1) e PLock]> ths)
        end
  end.

Definition count_step (σ σ' : cstate) : Prop := ∃ t, cstep t σ = Some σ'.

(** A thread has returned. *)
Definition c_done (th : cth) : Prop := c_end th < c_i th.

(** *** The invariant *)

(** The files between two positions. *)
Definition slice (a b : Z) : list File := take (Z.to_nat (b - a)) (drop (Z.to_nat a) files).

(** What a thread that started at [s] has put into buckets so far. *)
Definition pushed (s : Z) (th : cth) : list File :=
  slice s (match c_pc th with PUnlock => c_i th + 1 | _ => c_i th end).

(** A thread is in the critical section of bucket [j]. *)
Definition in_cs (j : Z) (th : cth) : Prop :=
  c_pc th ≠ PLock ∧ c_i th ≤ c_end th ∧ idx <$> getZ files (c_i th) = Some j.

Definition pc_ok (b : bucket) (pc : cpc) : Prop :=
  match pc with
  | PLock => False
  | PFreq | PUnlock => b_freq b = Z.of_nat (length (b_head b))
  | PFreqW v => v = b_freq b ∧ b_freq b = Z.of_nat (length (b_head b))
  | PHead => b_freq b = Z.of_nat (length (b_head b)) + 1
  | PPush h => h = b_head b ∧ b_freq b = Z.of_nat (length (b_head b)) + 1
  end.

Definition lock_ok (j : Z) (b : bucket) (ths : list cth) : Prop :=
  match b_lock b with
  | None => b_freq b = Z.of_nat (length (b_head b)) ∧ ∀ t th, ths !! t = Some th → ¬ in_cs j th
  | Some t => ∃ th, ths !! t = Some th ∧ in_cs j th ∧ pc_ok b (c_pc th) ∧
                    ∀ t' th', ths !! t' = Some th' → in_cs j th' → t' = t
  end.

(** The threads' pieces: where each starts and ends. *)
Definition pieces_ok (ps : list (Z * Z)) (ths : list cth) : Prop :=
  Forall2 (λ p th, 0 ≤ p.1 ≤ c_i th ∧ c_i th ≤ p.2 + 1 ∧ c_end th = p.2 ∧ p.2 < Z.of_nat (length files) ∧
                   (c_pc th ≠ PLock → c_i th ≤ p.2)) ps ths.

Definition all_pushed (ps : list (Z * Z)) (ths : list cth) : list File :=
  concat (zip_with (λ p, pushed p.1) ps ths).

Definition count_inv (ps : list (Z * Z)) (σ : cstate) : Prop :=
  pieces_ok ps σ.2 ∧
  ∀ j b, getZ σ.1 j = Some b →
    b_head b ≡ₚ filter (λ f, idx f = j) (all_pushed ps σ.2) ∧ lock_ok j b σ.2.

(** Steps a thread has yet to take. *)
Definition c_left (th : cth) : nat :=
  (6 * Z.to_nat (c_end th + 1 - c_i th) -
   match c_pc th with PLock => 0 | PFreq => 1 | PFreqW _ => 2 | PHead => 3 | PPush _ => 4 | PUnlock => 5 end)%nat.
Definition c_measure (σ : cstate) : nat := sum_list_with c_left σ.2.
End count_local.
