(* ===== verification/SortCountInv.v ===== *)
(** Why the threads of [count_local] count right: the invariant of
    SortCount holds in every reachable state, no thread ever leaves an array,
    some thread can always go on, and every run ends. *)
From S2P Require Import Prelude SortBase SortCount.

Section count.
Context (files : list File) (idx : File → Z).
Notation cstep := (cstep files idx).
Notation count_inv := (count_inv files idx).
Notation in_cs := (in_cs files idx).
Notation lock_ok := (lock_ok files idx).
Implicit Types (bs : list bucket) (ths : list cth) (ps : list (Z * Z)).

(** ** What the threads have pushed *)

Lemma slice_snoc s i f : 0 ≤ s ≤ i → getZ files i = Some f →
  slice files s (i + 1) = slice files s i ++ [f].
Proof.
  intros Hs. unfold getZ, slice. rewrite decide_True by lia. intros Hf.
  replace (Z.to_nat (i + 1 - s)) with (S (Z.to_nat (i - s))) by lia.
  apply take_S_r. rewrite lookup_drop. rewrite <- Hf. f_equal. lia.
Qed.

Lemma concat_insert_app {A} (L : list (list A)) t y l : L !! t = Some y →
  concat (<[t := y ++ l]> L) ≡ₚ l ++ concat L.
Proof.
  intros Ht. rewrite <- (take_drop_middle L t y Ht) at 2.
  rewrite insert_take_drop by (by eapply lookup_lt_Some).
  rewrite !concat_app, !concat_cons, <- !app_assoc.
  rewrite (Permutation_app_swap_app (concat (take t L)) y). 
  rewrite (Permutation_app_swap_app (concat (take t L)) y).
  rewrite (Permutation_app_swap_app (concat (take t L)) l).
  rewrite (Permutation_app_swap_app y l). done.
Qed.

Lemma all_pushed_insert ps ths t p th th' l : ps !! t = Some p → ths !! t = Some th →
  pushed files p.1 th' = pushed files p.1 th ++ l →
  all_pushed files ps (<[t := th']> ths) ≡ₚ l ++ all_pushed files ps ths.
Proof.
  intros Hs Ht Hp. unfold all_pushed. rewrite <- (list_insert_id ps t p) at 1 by done.
  rewrite <- insert_zip_with, Hp. apply concat_insert_app. rewrite lookup_zip_with, Hs, Ht. done.
Qed.

(** ** Locks *)

Lemma in_cs_at j i e pc f : getZ files i = Some f → in_cs j (CTh i e pc) ↔ pc ≠ PLock ∧ i ≤ e ∧ idx f = j.
Proof. intros Hf. unfold SortCount.in_cs; simpl. rewrite Hf. simpl. naive_solver. Qed.

(** A step of a thread leaves the locks of other buckets alone. *)
Lemma lock_ok_other j b ths t th th' : lock_ok j b ths → ths !! t = Some th →
  ¬ in_cs j th → ¬ in_cs j th' → lock_ok j b (<[t := th']> ths).
Proof.
  intros Hl Ht Hn Hn'. assert (t < length ths)%nat as Hlt by (by eapply lookup_lt_Some).
  unfold SortCount.lock_ok in *. destruct (b_lock b) as [t0|].
  - destruct Hl as (th0 & Ht0 & Hcs & Hpc & Hu).
    assert (t ≠ t0) by (intros ->; simplify_eq; done).
    exists th0. rewrite list_lookup_insert_ne by done. split; [done|]. split; [done|]. split; [done|].
    intros t' th2. rewrite list_lookup_insert. case_decide; [|apply Hu].
    intros [= <-] ?. done.
  - destruct Hl as [Hf Hno]. split; [done|]. intros t' th2. rewrite list_lookup_insert.
    case_decide; [|apply Hno]. by intros [= <-].
Qed.

(** ... and keeps the lock it holds. *)
Lemma lock_ok_own j b ths t th' : (t < length ths)%nat → b_lock b = Some t →
  in_cs j th' → pc_ok b (c_pc th') →
  (∀ t' th0, ths !! t' = Some th0 → in_cs j th0 → t' = t) → lock_ok j b (<[t := th']> ths).
Proof.
  intros Hlt Hb Hcs Hpc Hu. unfold SortCount.lock_ok. rewrite Hb. exists th'.
  rewrite list_lookup_insert_eq by done. split; [done|]. split; [done|]. split; [done|].
  intros t' th0. rewrite list_lookup_insert. case_decide as E; [|apply Hu].
  intros _ _. by destruct E as [-> _].
Qed.

(** A thread in the critical section holds the lock, alone. *)
Lemma lock_owner j b ths t th : lock_ok j b ths → ths !! t = Some th → in_cs j th →
  b_lock b = Some t ∧ pc_ok b (c_pc th) ∧ ∀ t' th', ths !! t' = Some th' → in_cs j th' → t' = t.
Proof.
  unfold SortCount.lock_ok. intros Hl Ht Hcs. destruct (b_lock b) as [t0|].
  - destruct Hl as (th0 & Ht0 & _ & Hpc & Hu). pose proof (Hu t th Ht Hcs) as ->. simplify_eq. done.
  - destruct Hl as [_ Hno]. by destruct (Hno t th Ht).
Qed.

(** ** One step *)

(** How a step of thread [t] from [CTh i e pc] to [th'] must change the
    bucket [b] of its file [f] into [b'] to keep the invariant. *)
Lemma inv_step ps bs ths t i e pc f b b' th' l :
  count_inv ps (bs, ths) → ths !! t = Some (CTh i e pc) → i ≤ e →
  getZ files i = Some f → getZ bs (idx f) = Some b →
  c_end th' = e → i ≤ c_i th' ≤ e + 1 → (c_pc th' ≠ PLock → c_i th' = i) →
  (∀ s, 0 ≤ s ≤ i → pushed files s th' = pushed files s (CTh i e pc) ++ l) →
  (∀ j, j ≠ idx f → filter (λ f, idx f = j) l = []) →
  b_head b' ≡ₚ filter (λ f0, idx f0 = idx f) l ++ b_head b →
  lock_ok (idx f) b' (<[t := th']> ths) →
  count_inv ps (setZ bs (idx f) b', <[t := th']> ths).
Proof.
  intros [Hp Hb] Ht Hi Hf Hbf He Hi' Hpc Hpush Hother Hhead Hlock. simpl in *. split; simpl.
  - destruct (Forall2_lookup_r _ _ _ _ _ Hp Ht) as (p & Hps & Hok). simpl in Hok.
    rewrite <- (list_insert_id ps t p) by done. apply Forall2_insert; [done|].
    destruct Hok as (? & ? & <- & ? & _). repeat split; try lia.
    intros Hne. rewrite Hpc by done. lia.
  - intros j b0. rewrite (getZ_setZ _ _ _ _ _ Hbf).
    destruct (Forall2_lookup_r _ _ _ _ _ Hp Ht) as (p & Hps & Hok). simpl in Hok.
    pose proof (all_pushed_insert ps ths t p (CTh i e pc) th' l Hps Ht (Hpush p.1 ltac:(lia))) as Hall.
    rewrite Hall, filter_app. case_decide as Ej.
    + intros [= <-]. subst j. split; [|done]. rewrite Hhead. f_equiv. by apply Hb.
    + intros Hj. destruct (Hb j b0 Hj) as [Hh Hl]. rewrite Hother by done. split; [done|].
      eapply lock_ok_other; [done|done| |].
      * rewrite (in_cs_at _ _ _ _ f) by done. intros (_ & _ & ?). done.
      * destruct th' as [i' e' pc']; simpl in *. intros (Hne & _ & Hx). simpl in *.
        rewrite Hpc, Hf in Hx by done. simpl in Hx. congruence.
Qed.

Lemma pushed_len files0 p th : (length (pushed files0 p th) ≤ length files0)%nat.
Proof. unfold pushed, slice. rewrite length_take, length_drop. lia. Qed.

(** Steps that push nothing. *)
Lemma inv_step_quiet ps bs ths t i e pc f b b' pc' :
  count_inv ps (bs, ths) → ths !! t = Some (CTh i e pc) → i ≤ e →
  getZ files i = Some f → getZ bs (idx f) = Some b →
  pc ≠ PUnlock → pc' ≠ PUnlock → b_head b' = b_head b →
  lock_ok (idx f) b' (<[t := CTh i e pc']> ths) →
  count_inv ps (setZ bs (idx f) b', <[t := CTh i e pc']> ths).
Proof.
  intros Hinv Ht Hi Hf Hb Hpc Hpc' Hh Hl. eapply (inv_step ps bs ths t i e pc f b b' _ []); try done; simpl; try lia.
  - intros s Hs. rewrite app_nil_r. unfold pushed; simpl. destruct pc, pc'; done.
  - by rewrite Hh.
Qed.

Lemma count_bound ps bs ths f b :
  count_inv ps (bs, ths) → getZ bs (idx f) = Some b →
  (length (b_head b) ≤ length (all_pushed files ps ths))%nat.
Proof.
  intros [_ Hb] Hbf. destruct (Hb _ _ Hbf) as [Hh _]. apply Permutation_length in Hh.
  rewrite Hh. apply length_filter.
Qed.

Lemma cstep_inv ps σ σ' t :
  count_inv ps σ → Z.of_nat (length (all_pushed files ps σ.2)) + 1 < 2 ^ 31 →
  cstep t σ = Some σ' → count_inv ps σ'.
Proof.
  destruct σ as [bs ths]. intros Hinv Hlen. simpl in Hlen. unfold SortCount.cstep.
  destruct (ths !! t) as [[i e pc]|] eqn:Ht; [|done].
  destruct (e <? i) eqn:Hie; [done|]. bool_prop.
  destruct (getZ files i) as [f|] eqn:Hf; [|done]. simpl.
  destruct (getZ bs (idx f)) as [b|] eqn:Hb; [|done]. simpl.
  assert (t < length ths)%nat as Hlt by (by eapply lookup_lt_Some).
  pose proof (count_bound _ _ _ _ _ Hinv Hb) as Hbound.
  pose proof Hinv as [_ Hbs]. destruct (Hbs _ _ Hb) as [Hperm Hlock]. simpl in Hlock, Hperm.
  destruct (decide (pc = PLock)) as [->|Hpc].
  { destruct (b_lock b) eqn:Elock; [done|]. intros [= <-].
    unfold SortCount.lock_ok in Hlock. rewrite Elock in Hlock. destruct Hlock as [Hfr Hno].
    eapply inv_step_quiet; try done. apply lock_ok_own; try done.
    - by apply in_cs_at with (f := f).
    - intros t' th' Ht' Hcs. by destruct (Hno t' th'). }
  destruct (lock_owner (idx f) b ths t (CTh i e pc) Hlock Ht) as (Hown & Hok & Hu).
  { by apply in_cs_at with (f := f). }
  simpl in Hok.
  assert (∀ pc', pc' ≠ PLock → in_cs (idx f) (CTh i e pc')) as Hcs'.
  { intros pc' Hne. by apply in_cs_at with (f := f). }
  destruct pc as [| |v| |h|]; try done; intros [= <-].
  - rewrite <- (setZ_id bs (idx f) b) at 1 by done. eapply inv_step_quiet; try done.
    apply lock_ok_own; try done. by apply Hcs'.
  - destruct Hok as [-> Hfr]. eapply inv_step_quiet; try done.
    apply lock_ok_own; try done; [by apply Hcs'|]. simpl. rewrite i32_small by lia. lia.
  - rewrite <- (setZ_id bs (idx f) b) at 1 by done. eapply inv_step_quiet; try done.
    apply lock_ok_own; try done. by apply Hcs'.
  - destruct Hok as [-> Hfr]. eapply (inv_step ps bs ths t i e _ f b _ _ [f]); try done; simpl; try lia.
    + intros s Hs. unfold pushed; simpl. by apply slice_snoc.
    + intros j Hj. by rewrite filter_cons_False, filter_nil by congruence.
    + by rewrite filter_cons_True, filter_nil by done.
    + apply lock_ok_own; try done; [by apply Hcs'|]. simpl. lia.
  - eapply (inv_step ps bs ths t i e _ f b _ _ []); try done; simpl; try lia.
    + intros s Hs. unfold pushed; simpl. by rewrite app_nil_r.
    + split; [done|]. intros t' th'. rewrite list_lookup_insert. case_decide as E.
      * intros [= <-] (Hne & _). done.
      * intros Ht' Hcs. apply E. by rewrite (Hu t' th' Ht' Hcs).
Qed.

(** No thread is ever stuck at an array bound: while one has not returned,
    some thread can take a step. *)
Lemma count_progress ps bs ths t i e pc :
  count_inv ps (bs, ths) → (∀ f, f ∈ files → is_Some (getZ bs (idx f))) →
  ths !! t = Some (CTh i e pc) → i ≤ e → ∃ t' σ', cstep t' (bs, ths) = Some σ'.
Proof.
  intros Hinv Hidx. revert t i e pc.
  assert (∀ t i e pc, ths !! t = Some (CTh i e pc) → i ≤ e →
    ∃ f b, getZ files i = Some f ∧ getZ bs (idx f) = Some b) as Hget.
  { intros t i e pc Ht Hi. destruct Hinv as [Hp _].
    destruct (Forall2_lookup_r _ _ _ _ _ Hp Ht) as (p & _ & Hok). simpl in Hok.
    destruct (getZ_is_Some files i ltac:(lia)) as [f Hf].
    destruct (Hidx f) as [b Hb]; [|by exists f, b].
    unfold getZ in Hf. case_decide; [|done]. by eapply list_elem_of_lookup_2. }
  assert (∀ t i e pc, ths !! t = Some (CTh i e pc) → i ≤ e → pc ≠ PLock →
    ∃ σ', cstep t (bs, ths) = Some σ') as Hcs.
  { intros t i e pc Ht Hi Hpc. destruct (Hget t i e pc Ht Hi) as (f & b & Hf & Hb).
    unfold SortCount.cstep. rewrite Ht, (proj2 (Z.ltb_ge _ _)), Hf by lia. simpl. rewrite Hb. simpl.
    destruct pc; try done; by eexists. }
  intros t i e pc Ht Hi. destruct (decide (pc = PLock)) as [->|Hpc]; [|by exists t; eapply Hcs].
  destruct (Hget t i e PLock Ht Hi) as (f & b & Hf & Hb).
  destruct (b_lock b) as [t0|] eqn:El.
  - destruct Hinv as [_ Hbs]. destruct (Hbs _ _ Hb) as [_ Hl]. simpl in Hl.
    unfold SortCount.lock_ok in Hl. rewrite El in Hl. destruct Hl as ([i0 e0 pc0] & Ht0 & (Hne & Hle & _) & _).
    exists t0. by eapply Hcs.
  - exists t. unfold SortCount.cstep. rewrite Ht, (proj2 (Z.ltb_ge _ _)), Hf by lia. simpl. rewrite Hb. simpl.
    rewrite El. by eexists.
Qed.

(** Every step brings the threads closer to their end. *)
Lemma cstep_measure t σ σ' : cstep t σ = Some σ' → (c_measure σ' < c_measure σ)%nat.
Proof.
  destruct σ as [bs ths]. unfold SortCount.cstep, c_measure.
  destruct (ths !! t) as [[i e pc]|] eqn:Ht; [|done].
  destruct (e <? i) eqn:Hie; [done|]. bool_prop.
  destruct (getZ files i) as [f|]; [|done]. simpl. destruct (getZ bs (idx f)) as [b|]; [|done]. simpl.
  assert (∀ th', (c_left th' < c_left (CTh i e pc))%nat →
    (sum_list_with c_left (<[t:=th']> ths) < sum_list_with c_left ths)%nat) as Hdec.
  { intros th' Hlt. pose proof (sum_list_with_insert c_left ths t _ th' Ht). lia. }
  destruct pc; [destruct (b_lock b); [done|]|..]; intros [= <-]; simpl; apply Hdec; unfold c_left; simpl; lia.
Qed.
End count.
