(* ===== verification/SortCountSort.v ===== *)
(** concurrency/partB.c, the whole count sort: [distributed_count_sort] as a
    transition system over its threads, and [non_distributed_count_sort] as
    the function it computes on one thread. *)
From S2P Require Import Prelude SortBase SortCount.

(** ** Definitions *)

Definition NUM_PROCESSES : Z := 8.

(** [chunck_size[i]] for the [n] entries that remain, [left_over] of them one
    larger. *)
Fixpoint chunk_sizes (n : nat) (base_size left_over : Z) : list Z :=
  match n with
  | O => []
  | S n' => if negb (left_over =? 0) then base_size + 1 :: chunk_sizes n' base_size (left_over - 1)
            else base_size :: chunk_sizes n' base_size left_over
  end.

Definition chunck_size (total_files : Z) : list Z :=
  chunk_sizes (Z.to_nat NUM_PROCESSES) (total_files / NUM_PROCESSES) (total_files mod NUM_PROCESSES).

(** The loop that starts the threads: (start, end) of each thread used. *)
Fixpoint spawn (chunks : list Z) (elements_covered total_files : Z) : list (Z * Z) :=
  match chunks with
  | [] => []
  | c :: cs =>
      (elements_covered, elements_covered + c - 1) ::
      (if elements_covered + c =? total_files then [] else spawn cs (elements_covered + c) total_files)
  end.

(** [global_count], an array for [max_value - min_value + 2] pointers, with a
    bucket in each slot up to [max_value - min_value]; None when the loop
    leaves the array.  Both numbers are [int]s: a negative one asks [malloc]
    for more than there is, and the array has no slot. *)
Definition init_global_count (max_value min_value : Z) : option (list bucket) :=
  let last := i32 (max_value - min_value) in
  let slots := i32 (i32 (max_value - min_value) + 2) in
  if (0 <=? last) && (slots <=? last) then None
  else Some (replicate (Z.to_nat (last + 1)) (Bucket 0 [] 0 None)).

Definition count_threads (ps : list (Z * Z)) : list cth := (λ p, CTh p.1 p.2 PLock) <$> ps.

(** *** Compaction and prefix sums, by the main thread *)

(** [new_global_count]: the buckets that are not empty, as indices into
    [global_count] (the code stores pointers to the same structs). *)
Definition compact (bs : list bucket) : list nat :=
  filter (λ j, from_option b_freq 0 (bs !! j) ≠ 0) (seq 0 (length bs)).

Definition set_bucket (bs : list bucket) (j : nat) (freq size : Z) : list bucket :=
  match bs !! j with
  | Some b => <[j := Bucket freq (b_head b) size (b_lock b)]> bs
  | None => bs
  end.

(** [new_global_count[i]->size = frequency; frequency += the one before] for
    [n] values of [i] from [i] on; None past the end of the array. *)
Fixpoint prefix_sums (ngc : list nat) (i n : nat) (bs : list bucket) : option (list bucket) :=
  match n with
  | O => Some bs
  | S n' =>
      j ← ngc !! i; b ← bs !! j;
      j0 ← ngc !! (i - 1)%nat; b0 ← bs !! j0;
      prefix_sums ngc (S i) n' (set_bucket bs j (i32 (b_freq b + b_freq b0)) (b_freq b))
  end.

(** [size_of_new_global_count] is a global that starts at [size0]. *)
Definition sum_buckets (size0 : Z) (bs : list bucket) : option (list nat * list bucket) :=
  let ngc := compact bs in
  let size := size0 + Z.of_nat (length ngc) in
  if 0 <? size then
    j ← ngc !! 0%nat; b ← bs !! j;
    bs' ← prefix_sums ngc 1 (Z.to_nat size - 1) (set_bucket bs j (b_freq b) (b_freq b));
    Some (ngc, bs')
  else Some (ngc, bs).

(** *** [populate_output] *)

(** The inner loop: the writes to [output], and [elements] after it. *)
Fixpoint populate_list (head : list File) (index elements : Z) : list (Z * File) * Z :=
  match head with
  | [] => ([], elements)
  | f :: next =>
      if elements =? 0 then ([], 0)
      else let '(ws, r) := populate_list next (index - 1) (elements - 1) in ((index, f) :: ws, r)
  end.

(** The writes of a thread, in order; the buckets are only read. *)
Fixpoint populate_output (fuel : nat) (ngc : list nat) (bs : list bucket)
    (s : nat) (elements : Z) (list_offset index_adder : nat) : option (list (Z * File)) :=
  if elements =? 0 then Some []
  else
    match fuel with
    | O => None
    | S fuel' =>
        j ← ngc !! s; b ← bs !! j;
        let head := drop list_offset (b_head b) in
        let list_offset' := (list_offset - length (b_head b))%nat in
        let index := b_freq b - 1 - Z.of_nat index_adder in
        let '(ws, elements') := populate_list head index elements in
        rest ← populate_output fuel' ngc bs (S s) elements' list_offset' 0;
        Some (ws ++ rest)
    end.

(** The main thread's walk over the lists past the elements of one thread. *)
Fixpoint advance (fuel : nat) (ngc : list nat) (bs : list bucket)
    (chunk : Z) (curr_list previous : nat) : option (nat * nat) :=
  if negb (0 <? chunk) then Some (curr_list, previous)
  else
    match fuel with
    | O => None
    | S fuel' =>
        j ← ngc !! curr_list; b ← bs !! j;
        if chunk <? b_size b - Z.of_nat previous then
          advance fuel' ngc bs 0 curr_list (previous + Z.to_nat chunk)
        else advance fuel' ngc bs (chunk - (b_size b - Z.of_nat previous)) (S curr_list) 0
    end.

(** Starting the threads: the writes each will do. *)
Fixpoint populate_plan (fuel : nat) (ngc : list nat) (bs : list bucket) (chunks : list Z)
    (curr_list previous : nat) : option (list (list (Z * File))) :=
  match chunks with
  | [] => Some []
  | c :: cs =>
      ws ← populate_output fuel ngc bs curr_list c previous previous;
      '(curr', prev') ← advance fuel ngc bs c curr_list previous;
      wss ← populate_plan fuel ngc bs cs curr' prev';
      Some (ws :: wss)
  end.

(** *** The whole program *)

Inductive dstate :=
| DCount (σ : cstate)                                     (* threads of count_local *)
| DPopulate (output : list (option File)) (wss : list (list (Z * File)))
| DDone (files : list File)
| DCrash.

Section program.
Context (mktime_of : list Z → Z) (sort_column_flag size0 : Z) (files : list File).
Let total_files := Z.of_nat (length files).

(** One more turn of a list loop than there are lists: enough fuel. *)
Definition list_fuel : nat := S (S (length files)).

(** A thread of [populate_output] does its next write. *)
Definition wstep (t : nat) (output : list (option File)) (wss : list (list (Z * File))) : option dstate :=
  match wss !! t with
  | Some ((i, f) :: ws) =>
      Some (match getZ output i with
            | Some _ => DPopulate (setZ output i (Some f)) (<[t := ws]> wss)
            | None => DCrash
            end)
  | _ => None
  end.

(** Once all threads of the first phase are joined. *)
Definition after_count (bs : list bucket) : dstate :=
  match sum_buckets size0 bs with
  | None => DCrash
  | Some (ngc, bs') =>
      match populate_plan list_fuel ngc bs'
              (take (length (spawn (chunck_size total_files) 0 total_files)) (chunck_size total_files)) 0 0 with
      | None => DCrash
      | Some wss => DPopulate (replicate (length files) None) wss
      end
  end.

(** Once all threads of the second phase are joined: [memcpy] to [files]. *)
Definition after_populate (output : list (option File)) : dstate :=
  match mapM (λ o, o) output with Some fs => DDone fs | None => DCrash end.

Inductive dstep (idx : File → Z) : dstate → dstate → Prop :=
| d_count t σ σ' : cstep files idx t σ = Some σ' → dstep idx (DCount σ) (DCount σ')
| d_join_count bs ths : Forall c_done ths → dstep idx (DCount (bs, ths)) (after_count bs)
| d_write t output wss σ' : wstep t output wss = Some σ' → dstep idx (DPopulate output wss) σ'
| d_join_write output wss : Forall (.= []) wss → dstep idx (DPopulate output wss) (after_populate output).

(** Up to the start of the first threads. *)
Definition d_start (g : minmax) : dstate :=
  match init_global_count (max_value g) (min_value g) with
  | Some bs => DCount (bs, count_threads (spawn (chunck_size total_files) 0 total_files))
  | None => DCrash
  end.

(** The single-threaded variant: [count_local] on each piece in turn, then
    [populate_output] for each piece in turn. *)
Definition push (idx : File → Z) (obs : option (list bucket)) (f : File) : option (list bucket) :=
  bs ← obs; b ← getZ bs (idx f);
  Some (setZ bs (idx f) (Bucket (i32 (b_freq b + 1)) (f :: b_head b) (b_size b) (b_lock b))).

Definition count_seq (idx : File → Z) (ps : list (Z * Z)) (bs : list bucket) : option (list bucket) :=
  foldl (λ obs p, foldl (push idx) obs (slice files p.1 (p.2 + 1))) (Some bs) ps.

Definition write_all (output : list (option File)) (ws : list (Z * File)) : option (list (option File)) :=
  foldl (λ o w, out ← o; _ ← getZ out w.1; Some (setZ out w.1 (Some w.2))) (Some output) ws.

Definition non_distributed_count_sort : option (list File) :=
  g ← get_max_min_values mktime_of sort_column_flag files;
  let idx := bucket_index mktime_of sort_column_flag g in
  let chunks := chunck_size total_files in
  let ps := spawn chunks 0 total_files in
  bs ← init_global_count (max_value g) (min_value g);
  bs ← count_seq idx ps bs;
  '(ngc, bs') ← sum_buckets size0 bs;
  wss ← populate_plan list_fuel ngc bs' (take (length ps) chunks) 0 0;
  out ← write_all (replicate (length files) None) (concat wss);
  mapM (λ o, o) out.
End program.

(** ** Lemmas *)

(** The buckets there are when the ids are not too far apart. *)
Lemma init_global_count_ok max_value min_value K : K = i32 (max_value - min_value) → 0 ≤ K < 2 ^ 31 - 2 →
  init_global_count max_value min_value = Some (replicate (Z.to_nat (K + 1)) (Bucket 0 [] 0 None)).
Proof.
  intros -> HK. unfold init_global_count. rewrite (i32_small (_ + 2)) by lia.
  by rewrite (proj2 (Z.leb_gt (_ + 2) _)), andb_false_r by lia.
Qed.
