(* ===== verification/SortCountProof.v ===== *)
(** The second phase of the count sort: the prefix sums give each file its
    place, the threads of [populate_output] between them write every place
    exactly once, and any interleaving of their writes gives the same array. *)
From S2P Require Import Prelude SortBase SortCount SortCountSort.

(** ** Definitions *)

(** Elements before the [s]-th list. *)
Definition before (hs : list (list File)) (s : nat) : nat := sum_list_with length (take s hs).

(** The writes for one list whose last place is [F - 1]: backwards from there. *)
Definition list_writes (F : Z) (h : list File) : list (Z * File) :=
  imap (λ p f, (F - 1 - Z.of_nat p, f)) h.

(** The writes for the lists from the [s]-th on. *)
Definition writes_from (hs : list (list File)) (s : nat) : list (Z * File) :=
  concat (imap (λ i h, list_writes (Z.of_nat (before hs (S (s + i)))) h) (drop s hs)).

(** The array the writes make: each list the other way round. *)
Definition laid_out (hs : list (list File)) : list File := concat (reverse <$> hs).

(** [ngc] and [bs] describe the non-empty lists [hs] with their prefix sums. *)
Definition lists_ok (ngc : list nat) (bs : list bucket) (hs : list (list File)) : Prop :=
  length ngc = length hs ∧
  ∀ s h, hs !! s = Some h → h ≠ [] ∧ ∃ j b, ngc !! s = Some j ∧ bs !! j = Some b ∧ b_head b = h ∧
    b_freq b = Z.of_nat (before hs (S s)) ∧ b_size b = Z.of_nat (length h).

(** A place in the lists: element [p] of list [s], or the end. *)
Definition place (hs : list (list File)) (s p : nat) : Prop :=
  (∃ h, hs !! s = Some h ∧ (p < length h)%nat) ∨ (s = length hs ∧ p = 0%nat).

(** ** Lemmas *)

Lemma before_S hs s h : hs !! s = Some h → before hs (S s) = (before hs s + length h)%nat.
Proof.
  intros Hs. unfold before. rewrite (take_S_r _ _ _ Hs). rewrite sum_list_with_app. simpl. lia.
Qed.

Lemma writes_from_S hs s h : hs !! s = Some h →
  writes_from hs s = list_writes (Z.of_nat (before hs (S s))) h ++ writes_from hs (S s).
Proof.
  intros Hs. unfold writes_from. rewrite (drop_S _ _ _ Hs). simpl. rewrite Nat.add_0_r. f_equal. f_equal.
  apply imap_ext. intros i h' _. simpl. do 3 f_equal. lia.
Qed.

Lemma writes_from_end hs s : (length hs ≤ s)%nat → writes_from hs s = [].
Proof. intros Hs. unfold writes_from. by rewrite drop_ge by done. Qed.

Lemma length_list_writes F h : length (list_writes F h) = length h.
Proof. apply length_imap. Qed.

Lemma length_writes hs s : length (writes_from hs s) = sum_list_with length (drop s hs).
Proof.
  remember (length hs - s)%nat as n eqn:En. revert s En.
  induction n as [|n IH]; intros s En.
  - rewrite writes_from_end, drop_ge by lia. done.
  - destruct (lookup_lt_is_Some_2 hs s) as [h Hh]; [lia|].
    rewrite (writes_from_S _ _ _ Hh), (drop_S _ _ _ Hh), length_app, length_list_writes, IH by lia. done.
Qed.

Lemma drop_list_writes F h p : drop p (list_writes F h) = list_writes (F - Z.of_nat p) (drop p h).
Proof.
  unfold list_writes. rewrite <- (take_drop p h) at 1. rewrite imap_app, drop_app.
  rewrite length_imap, length_take. rewrite drop_ge by (rewrite length_imap, length_take; lia). simpl.
  destruct (decide (p ≤ length h)%nat).
  - rewrite Nat.min_l, Nat.sub_diag by lia. simpl. apply imap_ext. intros i f _. simpl. f_equal. lia.
  - rewrite (drop_ge h) by lia. simpl. by rewrite drop_nil.
Qed.

(** ** The writes of a thread *)

Lemma populate_list_spec h : ∀ F c, 0 ≤ c →
  populate_list h (F - 1) c = (take (Z.to_nat c) (list_writes F h), c - Z.min c (Z.of_nat (length h))).
Proof.
  induction h as [|f h IH]; intros F c Hc.
  { cbn [populate_list list_writes imap length]. rewrite take_nil. f_equal. lia. }
  cbn [populate_list]. destruct (c =? 0) eqn:E; bool_prop.
  { subst c. done. }
  rewrite (IH (F - 1)) by lia. replace (Z.to_nat c) with (S (Z.to_nat (c - 1))) by lia. simpl.
  f_equal; [|simpl; lia]. f_equal; [f_equal; lia|]. f_equal. unfold list_writes.
  apply imap_ext. intros i x _. simpl. f_equal. lia.
Qed.

Section lists.
Context (ngc : list nat) (bs : list bucket) (hs : list (list File)) (Hok : lists_ok ngc bs hs).

Lemma populate_output_spec fuel : ∀ s c p, place hs s p → 0 ≤ c →
  (Z.to_nat c ≤ length (drop p (writes_from hs s)))%nat → (length hs - s < fuel)%nat →
  populate_output fuel ngc bs s c p p = Some (take (Z.to_nat c) (drop p (writes_from hs s))).
Proof.
  induction fuel as [|fuel IH]; intros s c p Hpl Hc Hlen Hfuel; [lia|]. cbn [populate_output].
  destruct (c =? 0) eqn:E; bool_prop; [by subst c|].
  destruct Hpl as [(h & Hh & Hp)|[-> ->]]; [|rewrite writes_from_end in Hlen by lia; simpl in Hlen; lia].
  destruct Hok as [_ Hl]. destruct (Hl s h Hh) as (Hne & j & b & Hj & Hb & Hhead & Hfreq & _).
  rewrite Hj. simpl. rewrite Hb. simpl. rewrite Hhead, Hfreq.
  replace (Z.of_nat (before hs (S s)) - 1 - Z.of_nat p) with (Z.of_nat (before hs (S s)) - Z.of_nat p - 1) by lia.
  rewrite populate_list_spec, length_drop by done.
  rewrite (writes_from_S _ _ _ Hh) in Hlen |- *.
  rewrite drop_app, length_list_writes in Hlen |- *. rewrite length_app, drop_list_writes, length_list_writes, length_drop in Hlen.
  replace (p - length h)%nat with 0%nat in * by lia. rewrite drop_0 in Hlen |- *.
  rewrite drop_list_writes, take_app, length_list_writes, length_drop.
  rewrite IH; [simpl| | | |].
  - rewrite ?drop_0. do 3 f_equal. lia.
  - destruct (decide (S s < length hs)%nat) as [Hlt|Hge].
    + left. destruct (lookup_lt_is_Some_2 hs (S s) Hlt) as [h' Hh']. exists h'. split; [done|].
      destruct (Hl _ _ Hh') as [Hne' _]. destruct h'; simpl; [done|lia].
    + right. apply lookup_lt_Some in Hh. split; [lia|done].
  - lia.
  - rewrite drop_0. lia.
  - apply lookup_lt_Some in Hh. lia.
Qed.

Lemma place_next s h : hs !! s = Some h → place hs (S s) 0.
Proof.
  intros Hh. destruct (decide (S s < length hs)%nat) as [Hlt|Hge].
  - left. destruct (lookup_lt_is_Some_2 hs (S s) Hlt) as [h' Hh']. exists h'. split; [done|].
    destruct Hok as [_ Hl]. destruct (Hl _ _ Hh') as [Hne' _]. destruct h'; simpl; [done|lia].
  - right. apply lookup_lt_Some in Hh. split; [lia|done].
Qed.

Lemma advance_spec fuel : ∀ s c p, place hs s p → 0 ≤ c →
  (Z.to_nat c ≤ length (drop p (writes_from hs s)))%nat → (S (length hs - s) < fuel)%nat →
  ∃ s' p', advance fuel ngc bs c s p = Some (s', p') ∧ place hs s' p' ∧ (s ≤ s')%nat ∧
    drop p' (writes_from hs s') = drop (Z.to_nat c) (drop p (writes_from hs s)).
Proof.
  induction fuel as [|fuel IH]; intros s c p Hpl Hc Hlen Hfuel; [lia|]. cbn [advance].
  destruct (0 <? c) eqn:E; cbn [negb]; bool_prop.
  2:{ assert (c = 0) as -> by lia. by exists s, p. }
  destruct Hpl as [(h & Hh & Hp)|[-> ->]]; [|rewrite writes_from_end in Hlen by lia; simpl in Hlen; lia].
  destruct Hok as [_ Hl]. destruct (Hl s h Hh) as (Hne & j & b & Hj & Hb & _ & _ & Hsize).
  rewrite Hj. simpl. rewrite Hb. simpl. rewrite Hsize.
  destruct (c <? Z.of_nat (length h) - Z.of_nat p) eqn:Ec; bool_prop.
  - destruct fuel as [|fuel]; [lia|]. simpl.
    exists s, (p + Z.to_nat c)%nat. split; [done|]. split; [left; exists h; split; [done|lia]|]. split; [done|].
    by rewrite drop_drop.
  - rewrite (writes_from_S _ _ _ Hh) in Hlen |- *. rewrite drop_app, length_list_writes in Hlen |- *.
    rewrite length_app, drop_list_writes, length_list_writes, length_drop in Hlen.
    replace (p - length h)%nat with 0%nat in * by lia. rewrite drop_0 in Hlen |- *.
    destruct (IH (S s) (c - (Z.of_nat (length h) - Z.of_nat p)) 0%nat) as (s' & p' & E' & Hpl' & Hs' & Hd).
    + by eapply place_next.
    + lia.
    + rewrite drop_0. lia.
    + apply lookup_lt_Some in Hh. lia.
    + exists s', p'. split; [done|]. split; [done|]. split; [lia|]. rewrite Hd, drop_0.
      rewrite drop_list_writes, drop_app, length_list_writes, length_drop.
      rewrite (drop_ge (list_writes _ _)) by (rewrite length_list_writes, length_drop; lia). simpl. f_equal. lia.
Qed.

Lemma populate_plan_spec fuel chunks : ∀ s p, place hs s p → Forall (λ c, 0 ≤ c) chunks →
  (sum_list_with Z.to_nat chunks ≤ length (drop p (writes_from hs s)))%nat →
  (S (length hs) < fuel)%nat →
  ∃ wss, populate_plan fuel ngc bs chunks s p = Some wss ∧
    concat wss = take (sum_list_with Z.to_nat chunks) (drop p (writes_from hs s)).
Proof.
  induction chunks as [|c chunks IH]; intros s p Hpl Hc Hlen Hfuel; [by exists []|].
  apply Forall_cons in Hc as [Hc0 Hc]. cbn [populate_plan sum_list_with] in *.
  rewrite populate_output_spec by (done || lia). simpl.
  destruct (advance_spec fuel s c p Hpl Hc0 ltac:(lia) ltac:(lia)) as (s' & p' & -> & Hpl' & _ & Hd). simpl.
  destruct (IH s' p' Hpl' Hc) as (wss & -> & Hw); [rewrite Hd, length_drop; lia|done|].
  simpl. eexists. split; [done|]. simpl. rewrite Hw, Hd.
  by rewrite take_take_drop.
Qed.
End lists.

(** ** Prefix sums *)

Section sums.
Context (ngc : list nat) (hs : list (list File)) (Hnd : NoDup ngc).
Context (Hbound : Z.of_nat (sum_list_with length hs) < 2 ^ 31).

(** The first [k] lists have their prefix sums. *)
Definition partial (bs : list bucket) (k : nat) : Prop :=
  ∀ s h, hs !! s = Some h → ∃ j b, ngc !! s = Some j ∧ bs !! j = Some b ∧ b_head b = h ∧
    if decide (s < k)%nat then b_freq b = Z.of_nat (before hs (S s)) ∧ b_size b = Z.of_nat (length h)
    else b_freq b = Z.of_nat (length h).

Lemma partial_step bs k h j b freq : partial bs k → hs !! k = Some h → ngc !! k = Some j →
  bs !! j = Some b → b_head b = h → freq = Z.of_nat (before hs (S k)) →
  partial (set_bucket bs j freq (Z.of_nat (length h))) (S k).
Proof.
  intros Hp Hh Hj Hb Hhd -> s h' Hh'. destruct (Hp s h' Hh') as (j' & b' & Hj' & Hb' & Hhd' & Hc).
  unfold set_bucket. rewrite Hb. destruct (decide (s = k)) as [->|Hne].
  - assert (j' = j) as -> by congruence. assert (b' = b) as -> by congruence. assert (h' = h) as -> by congruence.
    exists j, (Bucket (Z.of_nat (before hs (S k))) (b_head b) (Z.of_nat (length h)) (b_lock b)).
    split; [done|]. split; [apply list_lookup_insert_eq; by eapply lookup_lt_Some|].
    split; [done|]. by rewrite decide_True by lia.
  - assert (j ≠ j') by (intros ->; apply Hne; by eapply NoDup_lookup).
    exists j', b'. split; [done|]. split; [by rewrite list_lookup_insert_ne|]. split; [done|].
    repeat case_decide; (done || lia).
Qed.

Lemma before_le s : (before hs s ≤ sum_list_with length hs)%nat.
Proof.
  unfold before. rewrite <- (take_drop s hs) at 2. rewrite sum_list_with_app. lia.
Qed.

Lemma prefix_sums_ok n : ∀ k bs, partial bs k → (1 ≤ k)%nat → (k + n = length hs)%nat →
  ∃ bs', prefix_sums ngc k n bs = Some bs' ∧ partial bs' (length hs).
Proof.
  induction n as [|n IH]; intros k bs Hp Hk Hlen; simpl.
  { exists bs. split; [done|]. by replace (length hs) with k by lia. }
  destruct (lookup_lt_is_Some_2 hs k) as [h Hh]; [lia|].
  destruct (lookup_lt_is_Some_2 hs (k - 1)) as [h0 Hh0]; [lia|].
  destruct (Hp k h Hh) as (j & b & Hj & Hb & Hhd & Hc). rewrite decide_False in Hc by lia.
  destruct (Hp (k - 1)%nat h0 Hh0) as (j0 & b0 & Hj0 & Hb0 & _ & Hc0). rewrite decide_True in Hc0 by lia.
  rewrite Hj. simpl. rewrite Hb. simpl. rewrite Hj0. simpl. rewrite Hb0. simpl.
  replace (S (k - 1)) with k in Hc0 by lia. destruct Hc0 as [Hc0 _]. rewrite Hc, Hc0.
  apply IH; [|lia|lia]. eapply partial_step; try done.
  pose proof (before_le (S k)) as Hle. rewrite (before_S _ _ _ Hh) in *. rewrite i32_small by lia. lia.
Qed.
End sums.

(** The lists of the non-empty buckets. *)
Definition heads (bs : list bucket) : list (list File) := filter (.≠ []) (b_head <$> bs).

Lemma compact_heads bs : (∀ j b, bs !! j = Some b → b_freq b = Z.of_nat (length (b_head b))) →
  (λ j, from_option b_head [] (bs !! j)) <$> compact bs = heads bs.
Proof.
  intros Hf. unfold compact, heads. induction bs as [|b bs IH] using rev_ind; [done|].
  rewrite length_app. simpl. rewrite seq_app, fmap_app, !filter_app, fmap_app. f_equal.
  - rewrite <- IH.
    + rewrite (filter_ext_in _ (λ j, from_option b_freq 0 (bs !! j) ≠ 0)).
      * apply list_fmap_ext. intros i j Hj. apply list_elem_of_lookup_2, list_elem_of_filter in Hj as [_ Hj].
        apply elem_of_seq in Hj. by rewrite lookup_app_l by lia.
      * intros j Hj. apply elem_of_seq in Hj. by rewrite lookup_app_l by lia.
    + intros j b' Hj. apply (Hf j). rewrite lookup_app_l; [done|]. by eapply lookup_lt_Some.
  - simpl. pose proof (Hf (length bs) b ltac:(by rewrite lookup_app_r, Nat.sub_diag)) as Hb.
    rewrite !filter_cons. rewrite lookup_app_r, Nat.sub_diag by lia. simpl. rewrite Hb.
    destruct (decide (b_head b = [])) as [E|E].
    + rewrite E, !decide_False by (intros Hx; by apply Hx). done.
    + rewrite !decide_True by (try done; destruct (b_head b); simpl; (done || lia)). rewrite fmap_cons.
      by rewrite lookup_app_r, Nat.sub_diag by lia.
Qed.

Lemma sum_buckets_ok bs :
  (∀ j b, bs !! j = Some b → b_freq b = Z.of_nat (length (b_head b))) →
  Z.of_nat (sum_list_with length (heads bs)) < 2 ^ 31 →
  ∃ ngc bs', sum_buckets 0 bs = Some (ngc, bs') ∧ lists_ok ngc bs' (heads bs).
Proof.
  intros Hf Hb. unfold sum_buckets. pose proof (compact_heads bs Hf) as Eh.
  assert (NoDup (compact bs)) as Hnd by (apply NoDup_filter, NoDup_seq).
  assert (length (compact bs) = length (heads bs)) as El by (by rewrite <- Eh, length_fmap).
  assert (∀ s h, heads bs !! s = Some h → h ≠ []) as Hne.
  { intros s h Hh. apply list_elem_of_lookup_2 in Hh. unfold heads in Hh. by apply list_elem_of_filter in Hh as [? _]. }
  assert (partial (compact bs) (heads bs) bs 0) as H0.
  { intros s h Hh. pose proof Hh as Hh'. rewrite <- Eh in Hh'. apply list_lookup_fmap_Some in Hh' as (j & Hj & Hs).
    exists j. apply Hne in Hh as Hn. destruct (bs !! j) as [b|] eqn:Ej; [|done]. simpl in Hj. exists b.
    split; [done|]. split; [done|]. split; [done|]. rewrite decide_False by lia. subst h. by apply (Hf j). }
  destruct (0 <? 0 + Z.of_nat (length (compact bs))) eqn:Esz; bool_prop.
  - destruct (lookup_lt_is_Some_2 (heads bs) 0) as [h Hh]; [lia|].
    destruct (H0 0%nat h Hh) as (j & b & Hj & Hbj & Hhd & Hc). rewrite decide_False in Hc by lia.
    rewrite Hj. simpl. rewrite Hbj. simpl. rewrite Hc.
    destruct (prefix_sums_ok (compact bs) (heads bs) Hnd Hb (Z.to_nat (0 + Z.of_nat (length (compact bs))) - 1) 1
      (set_bucket bs j (Z.of_nat (length h)) (Z.of_nat (length h)))) as (bs' & -> & Hp); [|lia|lia|].
    { eapply partial_step; try done. rewrite (before_S _ _ _ Hh). done. }
    simpl. exists (compact bs), bs'. split; [done|]. split; [done|]. intros s h' Hh'. split; [by eapply Hne|].
    destruct (Hp s h' Hh') as (j' & b' & ? & ? & ? & Hc'). exists j', b'.
    rewrite decide_True in Hc' by (by eapply lookup_lt_Some). naive_solver.
  - exists (compact bs), bs. split; [done|]. split; [done|]. intros s h Hh. apply lookup_lt_Some in Hh. lia.
Qed.

(** ** Where the writes go *)

Lemma length_laid_out hs : length (laid_out hs) = sum_list_with length hs.
Proof.
  unfold laid_out. induction hs as [|h hs IH]; [done|].
  rewrite fmap_cons, concat_cons, length_app, length_reverse, IH. done.
Qed.

Lemma laid_out_lookup hs s h p f : hs !! s = Some h → h !! p = Some f →
  laid_out hs !! (before hs s + (length h - 1 - p))%nat = Some f.
Proof.
  intros Hs Hp. apply lookup_lt_Some in Hp as Hlt.
  assert (laid_out hs = laid_out (take s hs) ++ reverse h ++ laid_out (drop (S s) hs)) as ->.
  { unfold laid_out. rewrite <- (take_drop_middle hs s h Hs) at 1.
    by rewrite fmap_app, concat_app, fmap_cons, concat_cons. }
  pose proof (length_laid_out (take s hs)) as Hl.
  rewrite lookup_app_r by (rewrite Hl; unfold before; lia). rewrite Hl. unfold before.
  replace (sum_list_with length (take s hs) + (length h - 1 - p) - sum_list_with length (take s hs))%nat
    with (length h - 1 - p)%nat by lia.
  rewrite lookup_app_l by (rewrite length_reverse; lia). rewrite reverse_lookup by lia.
  rewrite <- Hp. f_equal. lia.
Qed.

Lemma elem_of_concat {A} (L : list (list A)) x : x ∈ concat L ↔ ∃ l, l ∈ L ∧ x ∈ l.
Proof.
  induction L as [|l L IH]; simpl; [set_solver|]. rewrite elem_of_app, IH. set_solver.
Qed.

Lemma writes_elem_inv hs i f : (i, f) ∈ writes_from hs 0 →
  0 ≤ i ∧ laid_out hs !! Z.to_nat i = Some f.
Proof.
  unfold writes_from, list_writes. rewrite elem_of_concat. intros (ws & Hws & Hw).
  apply elem_of_lookup_imap in Hws as (s & h & -> & Hs). rewrite drop_0 in Hs.
  apply elem_of_lookup_imap in Hw as (p & f' & [= -> ->] & Hp). apply lookup_lt_Some in Hp as Hlt.
  simpl. rewrite (before_S _ _ _ Hs). split; [lia|]. rewrite <- (laid_out_lookup hs s h p f') by done. f_equal. lia.
Qed.

Lemma writes_elem hs s h p f : hs !! s = Some h → h !! p = Some f →
  (Z.of_nat (before hs s + (length h - 1 - p)), f) ∈ writes_from hs 0.
Proof.
  intros Hs Hp. apply lookup_lt_Some in Hp as Hlt. unfold writes_from. apply elem_of_concat.
  exists (list_writes (Z.of_nat (before hs (S s))) h). split; [|unfold list_writes].
  - apply elem_of_lookup_imap. exists s, h. rewrite drop_0. done.
  - apply elem_of_lookup_imap. exists p, f. split; [|done].
    rewrite (before_S _ _ _ Hs). f_equal. lia.
Qed.

Lemma laid_out_place hs : ∀ i, (i < length (laid_out hs))%nat →
  ∃ s h p f, hs !! s = Some h ∧ h !! p = Some f ∧ i = (before hs s + (length h - 1 - p))%nat.
Proof.
  induction hs as [|h hs IH]; intros i; rewrite length_laid_out; cbn [sum_list_with]; [simpl; lia|].
  intros Hi. destruct (decide (i < length h)%nat) as [Hlt|Hge].
  - destruct (lookup_lt_is_Some_2 h (length h - 1 - i)) as [f Hf]; [lia|].
    exists 0%nat, h, (length h - 1 - i)%nat, f. split; [done|]. split; [done|]. unfold before; simpl. lia.
  - destruct (IH (i - length h)%nat) as (s & h' & p & f & Hs & Hp & Ei); [rewrite length_laid_out; lia|].
    exists (S s), h', p, f. split; [done|]. split; [done|]. unfold before in *. simpl. lia.
Qed.

(** ** The threads that write *)

Definition write_inv (O : list File) (output : list (option File)) (ws : list (Z * File)) : Prop :=
  length output = length O ∧
  (∀ i f, output !! i = Some (Some f) → O !! i = Some f) ∧
  (∀ i f, (i, f) ∈ ws → 0 ≤ i ∧ O !! Z.to_nat i = Some f) ∧
  (∀ i, (i < length O)%nat → (∃ f, output !! i = Some (Some f)) ∨ ∃ f, (Z.of_nat i, f) ∈ ws).

Global Instance write_inv_proper O output : Proper ((≡ₚ) ==> iff) (write_inv O output).
Proof.
  intros ws ws' Hp. unfold write_inv. repeat (apply and_iff_compat_l || apply and_iff_compat_r).
  f_equiv; [by setoid_rewrite Hp|]. setoid_rewrite Hp. done.
Qed.

Lemma write_inv_start hs :
  write_inv (laid_out hs) (replicate (length (laid_out hs)) None) (writes_from hs 0).
Proof.
  split; [by rewrite length_replicate|]. split; [|split].
  - intros i f [? _]%lookup_replicate. done.
  - apply writes_elem_inv.
  - intros i Hi. right. destruct (laid_out_place hs i Hi) as (s & h & p & f & Hs & Hp & ->).
    exists f. by apply writes_elem.
Qed.

Lemma write_inv_step O output i f ws : write_inv O output ((i, f) :: ws) →
  is_Some (getZ output i) ∧ write_inv O (setZ output i (Some f)) ws.
Proof.
  intros (Hlen & Hok & Hw & Hall). destruct (Hw i f) as [Hi Hf]; [by left|].
  apply lookup_lt_Some in Hf as Hlt. split; [apply getZ_is_Some; lia|].
  unfold setZ. rewrite decide_True by done. split; [by rewrite length_insert|]. split; [|split].
  - intros k f' Hk. rewrite list_lookup_insert in Hk. case_decide as E; [|by apply Hok].
    destruct E as [<- _]. by simplify_eq.
  - intros k f' Hk. apply Hw. by right.
  - intros k Hk. destruct (decide (Z.to_nat i = k)) as [<-|Hne].
    + left. exists f. apply list_lookup_insert_eq. lia.
    + destruct (Hall k Hk) as [[f' Hf']|[f' Hf']].
      * left. exists f'. by rewrite list_lookup_insert_ne.
      * right. exists f'. apply elem_of_cons in Hf' as [[= E ->]|?]; [lia|done].
Qed.

Lemma write_inv_done O output : write_inv O output [] → mapM (λ o, o) output = Some O.
Proof.
  intros (Hlen & Hok & _ & Hall). apply mapM_Some_2, Forall2_same_length_lookup_2; [done|].
  intros i o f Ho Hf. destruct (Hall i) as [[f' Hf']|[f' Hf']]; [by eapply lookup_lt_Some| |by apply elem_of_nil in Hf'].
  assert (o = Some f') as -> by congruence. apply Hok in Hf'. congruence.
Qed.

Lemma concat_next {A} (wss : list (list A)) t w ws : wss !! t = Some (w :: ws) →
  concat wss ≡ₚ w :: concat (<[t := ws]> wss).
Proof.
  intros Ht. rewrite <- (take_drop_middle wss t (w :: ws) Ht) at 1.
  rewrite insert_take_drop by (by eapply lookup_lt_Some). rewrite !concat_app, !concat_cons.
  rewrite <- app_comm_cons. symmetry. apply Permutation_middle.
Qed.
