(* ===== verification/SortCountWhole.v ===== *)
(** The distributed count sort as a whole: whatever the interleaving, no
    access leaves an array, no thread blocks for ever, the program ends, and
    it ends with the files sorted by their bucket index. *)
From S2P Require Import Prelude SortBase SortCount SortCountInv SortCountSort SortCountProof.

Section filters.
Context {A} (P : A → Prop) `{!∀ x, Decision (P x)}.
Lemma filter_none (l : list A) : (∀ x, x ∈ l → ¬ P x) → filter P l = [].
Proof.
  induction l as [|x l IH]; intros Hn; [done|]. rewrite filter_cons_False by (apply Hn; by left).
  apply IH. intros y Hy. apply Hn. by right.
Qed.
Lemma filter_id (l : list A) : (∀ x, x ∈ l → P x) → filter P l = l.
Proof.
  induction l as [|x l IH]; intros Hn; [done|]. rewrite filter_cons_True by (apply Hn; by left).
  f_equal. apply IH. intros y Hy. apply Hn. by right.
Qed.
End filters.

(** ** Chunks *)

Lemma chunk_sizes_sum n : ∀ base left, 0 ≤ base → 0 ≤ left →
  Forall (λ c, 0 ≤ c) (chunk_sizes n base left) ∧
  Z.of_nat (sum_list_with Z.to_nat (chunk_sizes n base left)) = Z.of_nat n * base + Z.min left (Z.of_nat n).
Proof.
  induction n as [|n IH]; intros base left Hb Hl; cbn [chunk_sizes]; [split; [done|simpl; lia]|].
  destruct (left =? 0) eqn:E; cbn [negb sum_list_with]; bool_prop.
  - subst left. destruct (IH base 0 Hb ltac:(lia)) as [H1 H2]. split; [by constructor|]. lia.
  - destruct (IH base (left - 1) Hb ltac:(lia)) as [H1 H2]. split; [constructor; [lia|done]|]. lia.
Qed.

Lemma chunck_size_sum total : 0 ≤ total →
  Forall (λ c, 0 ≤ c) (chunck_size total) ∧ Z.of_nat (sum_list_with Z.to_nat (chunck_size total)) = total.
Proof.
  intros Ht. unfold chunck_size, NUM_PROCESSES.
  assert (0 ≤ total / 8 ∧ 0 ≤ total mod 8 < 8 ∧ total = 8 * (total / 8) + total mod 8) as (H1 & H2 & H3) by div_lia.
  destruct (chunk_sizes_sum 8 (total / 8) (total mod 8) H1 ltac:(lia)) as [Hc Hs].
  split; [done|]. change (Z.to_nat 8) with 8%nat. rewrite Hs. lia.
Qed.

Section pieces.
Context (files : list File).

Lemma slice_app a b c : 0 ≤ a ≤ b → b ≤ c → slice files a c = slice files a b ++ slice files b c.
Proof.
  intros Hab Hbc. unfold slice. replace (Z.to_nat (c - a)) with (Z.to_nat (b - a) + Z.to_nat (c - b))%nat by lia.
  rewrite <- take_take_drop, drop_drop. do 3 f_equal. lia.
Qed.

Lemma slice_empty a : slice files a a = [].
Proof. unfold slice. by rewrite Z.sub_diag. Qed.

(** The pieces the loop starts threads for. *)
Lemma spawn_ok chunks : ∀ covered total, 0 ≤ covered → chunks ≠ [] → Forall (λ c, 0 ≤ c) chunks →
  covered + Z.of_nat (sum_list_with Z.to_nat chunks) = total →
  let ps := spawn chunks covered total in
  Forall (λ p, covered ≤ p.1 ∧ p.1 ≤ p.2 + 1 ∧ p.2 + 1 ≤ total) ps ∧
  concat ((λ p, slice files p.1 (p.2 + 1)) <$> ps) = slice files covered total ∧
  Z.of_nat (sum_list_with (λ p, Z.to_nat (p.2 + 1 - p.1)) ps) = total - covered ∧
  Z.of_nat (sum_list_with Z.to_nat (take (length ps) chunks)) = total - covered ∧
  Forall (λ c, 0 ≤ c) (take (length ps) chunks).
Proof.
  induction chunks as [|c chunks IH]; intros covered total Hc Hne Hall Hsum; [done|].
  apply Forall_cons in Hall as [Hc0 Hall]. cbn [spawn]. cbn [sum_list_with] in Hsum.
  destruct (covered + c =? total) eqn:E; bool_prop; cbv zeta.
  - assert (covered + c - 1 + 1 = total) as E1 by lia.
    split; [by repeat constructor; simpl; lia|]. split; [simpl; by rewrite app_nil_r, E1|].
    split; [simpl; lia|]. split; [simpl; lia|]. by repeat constructor.
  - destruct chunks as [|c2 chunks]; [simpl in Hsum; lia|].
    destruct (IH (covered + c) total) as (H1 & H2 & H3 & H4 & H5); [lia|done|done|lia|]. cbv zeta in *.
    split; [constructor; [simpl in *; lia|]; eapply Forall_impl; [exact H1|]; intros p; simpl; lia|].
    split; [rewrite fmap_cons, concat_cons, H2; simpl; replace (covered + c - 1 + 1) with (covered + c) by lia;
            symmetry; apply slice_app; simpl in *; lia|].
    cbn [length take sum_list_with fst snd]. split; [lia|]. split; [lia|]. by constructor.
Qed.

Lemma slice_all : slice files 0 (Z.of_nat (length files)) = files.
Proof. unfold slice. rewrite drop_0, take_ge; [done|]. lia. Qed.

Lemma pieces_start qs : all_pushed files qs (count_threads qs) = [].
Proof.
  unfold all_pushed, count_threads. rewrite zip_with_fmap_r, zip_with_diag.
  induction qs as [|[s e] l IH]; [done|]. rewrite fmap_cons, concat_cons, IH.
  unfold pushed; simpl. by rewrite slice_empty.
Qed.

(** What has been pushed is never more than there is. *)
Lemma pieces_len qs ths : pieces_ok files qs ths →
  (length (all_pushed files qs ths) ≤ sum_list_with (λ p, Z.to_nat (p.2 + 1 - p.1)) qs)%nat.
Proof.
  unfold all_pushed. intros Hp.
  induction Hp as [|[s e] [i e' pc] qs ths (H1 & H2 & H3 & H4 & H5) Hp IH]; simpl; [done|]. simpl in *.
  rewrite length_app.
  assert (length (pushed files s (CTh i e' pc)) ≤ Z.to_nat (e + 1 - s))%nat; [|lia].
  unfold pushed, slice; simpl. rewrite length_take, length_drop. destruct pc; try lia. specialize (H5 ltac:(done)). lia.
Qed.

Lemma pieces_done qs ths : pieces_ok files qs ths → Forall c_done ths →
  all_pushed files qs ths = concat ((λ p, slice files p.1 (p.2 + 1)) <$> qs).
Proof.
  unfold all_pushed. intros Hp Hd. f_equal.
  induction Hp as [|[s e] [i e' pc] qs ths (H1 & H2 & H3 & H4 & H5) Hp IH]; [done|].
  apply Forall_cons in Hd as [Hd0 Hd]. unfold c_done in Hd0. simpl in *. f_equal; [|by apply IH].
  unfold pushed; simpl. destruct (decide (pc = PLock)) as [->|Hne]; [f_equal; lia|].
  specialize (H5 Hne). lia.
Qed.
End pieces.

(** ** The first phase *)

Section phase1.
Context (files : list File) (idx : File → Z) (K : Z).
Context (Hidx : ∀ f, f ∈ files → 0 ≤ idx f ≤ K) (Hlen : Z.of_nat (length files) + 1 < 2 ^ 31).
Let total := Z.of_nat (length files).
Let ps := spawn (chunck_size total) 0 total.
Let init : cstate := (replicate (Z.to_nat (K + 1)) (Bucket 0 [] 0 None), count_threads ps).

Lemma ps_ok :
  Forall (λ p, 0 ≤ p.1 ∧ p.1 ≤ p.2 + 1 ∧ p.2 + 1 ≤ total) ps ∧
  concat ((λ p, slice files p.1 (p.2 + 1)) <$> ps) = files ∧
  Z.of_nat (sum_list_with (λ p, Z.to_nat (p.2 + 1 - p.1)) ps) = total ∧
  Z.of_nat (sum_list_with Z.to_nat (take (length ps) (chunck_size total))) = total ∧
  Forall (λ c, 0 ≤ c) (take (length ps) (chunck_size total)).
Proof.
  destruct (chunck_size_sum total ltac:(unfold total; lia)) as [Hc Hs].
  assert (chunck_size total ≠ []) as Hne.
  { unfold chunck_size, NUM_PROCESSES. change (Z.to_nat 8) with 8%nat. cbn [chunk_sizes]. by case_match. }
  destruct (spawn_ok files (chunck_size total) 0 total ltac:(lia) Hne Hc ltac:(lia)) as (H1 & H2 & H3 & H4 & H5).
  rewrite Z.sub_0_r in H3, H4. unfold total in H2 at 2. by rewrite slice_all in H2.
Qed.

Lemma init_inv : count_inv files idx ps init.
Proof.
  destruct ps_ok as (Hps & _). split; simpl.
  - unfold pieces_ok, count_threads. apply Forall2_fmap_r, Forall_Forall2_diag. eapply Forall_impl; [exact Hps|].
    intros [s e]; simpl. unfold total. intros. repeat split; try lia. done.
  - intros j b Hb. unfold getZ in Hb. case_decide; [|done]. apply lookup_replicate in Hb as [-> _]. simpl.
    rewrite pieces_start.
    split; [done|]. split; [done|]. intros t th Ht. unfold count_threads in Ht.
    apply list_lookup_fmap_Some in Ht as (p & -> & _). by intros [? _].
Qed.

Lemma cstep_inv_init t (σ σ' : cstate) : count_inv files idx ps σ → length σ.1 = Z.to_nat (K + 1) →
  cstep files idx t σ = Some σ' → count_inv files idx ps σ' ∧ length σ'.1 = Z.to_nat (K + 1).
Proof.
  intros Hinv Hl Hs. split.
  - eapply cstep_inv; [done| |done]. destruct Hinv as [Hp _]. pose proof (pieces_len files ps σ.2 Hp). destruct ps_ok as (_ & _ & E & _).
    unfold total in *. lia.
  - rewrite <- Hl. destruct σ as [bs ths]. simpl. unfold cstep in Hs.
    destruct (ths !! t) as [[i e pc]|]; [|done]. destruct (e <? i); [done|].
    destruct (getZ files i) as [f|]; [|done]. simpl in Hs. destruct (getZ bs (idx f)) as [b|]; [|done]. simpl in Hs.
    destruct pc; [destruct (b_lock b); [done|]|..]; injection Hs as <-; simpl; by rewrite ?length_setZ.
Qed.

(** When all threads have returned, each bucket holds its files. *)
Lemma count_done bs ths : count_inv files idx ps (bs, ths) → Forall c_done ths →
  ∀ j b, bs !! j = Some b → b_head b ≡ₚ filter (λ f, idx f = Z.of_nat j) files ∧
    b_freq b = Z.of_nat (length (b_head b)).
Proof.
  intros [Hp Hb] Hd j b Hj. destruct (Hb (Z.of_nat j) b) as [Hh Hl].
  { unfold getZ. simpl. by rewrite decide_True, Nat2Z.id by lia. }
  simpl in *. assert (all_pushed files ps ths = files) as Eall.
  { rewrite pieces_done by done. apply ps_ok. }
  rewrite Eall in Hh. split; [done|]. unfold lock_ok in Hl. destruct (b_lock b) as [t|]; [|by destruct Hl].
  destruct Hl as (th & Ht & (_ & Hle & _) & _). rewrite Forall_lookup in Hd. specialize (Hd _ _ Ht).
  unfold c_done in Hd. lia.
Qed.
End phase1.

(** ** The result *)

Definition by_index (idx : File → Z) : relation File := λ a b, idx a ≤ idx b.

Section result.
Context (files : list File) (idx : File → Z).

Lemma laid_out_heads bs : laid_out (heads bs) = concat ((λ b, reverse (b_head b)) <$> bs).
Proof.
  unfold laid_out, heads. induction bs as [|b bs IH]; [done|]. rewrite !fmap_cons, filter_cons, concat_cons.
  case_decide as E; [by rewrite fmap_cons, concat_cons, IH|].
  by rewrite E.
Qed.

Lemma all_same_sorted j (l : list File) : (∀ f, f ∈ l → idx f = j) → StronglySorted (by_index idx) l.
Proof.
  induction l as [|f l IH]; intros Hj; [constructor|]. constructor.
  - apply IH. intros g Hg. apply Hj. by right.
  - apply Forall_forall. intros g Hg. unfold by_index. rewrite (Hj f), (Hj g) by (by left || by right). done.
Qed.

Lemma laid_out_prefix bs k : (k ≤ length bs)%nat → (∀ f, f ∈ files → 0 ≤ idx f) →
  (∀ j b, bs !! j = Some b → b_head b ≡ₚ filter (λ f, idx f = Z.of_nat j) files) →
  let O := concat ((λ b, reverse (b_head b)) <$> take k bs) in
  O ≡ₚ filter (λ f, idx f < Z.of_nat k) files ∧ StronglySorted (by_index idx) O.
Proof.
  intros Hk H0 Hh. induction k as [|k IH]; simpl.
  { split; [|constructor]. rewrite filter_none; [done|]. intros f Hf. specialize (H0 f Hf). lia. }
  destruct IH as [IHp IHs]; [lia|]. destruct (lookup_lt_is_Some_2 bs k) as [b Hb]; [lia|].
  rewrite (take_S_r _ _ _ Hb), fmap_app, concat_app. cbn [fmap list_fmap concat]. rewrite app_nil_r.
  assert (∀ f, f ∈ reverse (b_head b) → idx f = Z.of_nat k) as Hsame.
  { intros f. rewrite reverse_Permutation, (Hh k b Hb), list_elem_of_filter. by intros [? _]. }
  split.
  - rewrite IHp, reverse_Permutation, (Hh k b Hb).
    rewrite <- (filter_app_complement (λ f, idx f < Z.of_nat k) (filter (λ f, idx f < Z.of_nat (S k)) files)).
    rewrite !list_filter_filter. apply Permutation_app.
    + erewrite filter_ext_in; [done|]. intros f _. simpl. lia.
    + erewrite filter_ext_in; [done|]. intros f _. simpl. lia.
  - apply StronglySorted_app. split; [|split; [done|by eapply all_same_sorted]].
    intros f g Hf Hg. unfold by_index. rewrite (Hsame g Hg).
    rewrite IHp, list_elem_of_filter in Hf. lia.
Qed.

Lemma laid_out_sorted bs K : length bs = Z.to_nat (K + 1) → (∀ f, f ∈ files → 0 ≤ idx f ≤ K) →
  (∀ j b, bs !! j = Some b → b_head b ≡ₚ filter (λ f, idx f = Z.of_nat j) files) →
  laid_out (heads bs) ≡ₚ files ∧ StronglySorted (by_index idx) (laid_out (heads bs)).
Proof.
  intros Hl Hidx Hh. rewrite laid_out_heads.
  destruct (laid_out_prefix bs (length bs)) as [Hp Hs]; [lia|intros; by apply Hidx|done|].
  rewrite firstn_all in Hp, Hs. split; [|done]. rewrite Hp, filter_id; [done|].
  intros f Hf. specialize (Hidx f Hf). rewrite Hl. lia.
Qed.
End result.

(** ** The program as a whole *)

Section program.
Context (mktime_of : list Z → Z) (flag : Z) (files : list File) (idx : File → Z) (K : Z).
Context (Hidx : ∀ f, f ∈ files → 0 ≤ idx f ≤ K) (Hlen : Z.of_nat (length files) + 1 < 2 ^ 31).
Let total := Z.of_nat (length files).
Let ps := spawn (chunck_size total) 0 total.

Definition sorted_result (fs : list File) : Prop := fs ≡ₚ files ∧ StronglySorted (by_index idx) fs.

Definition d_inv (σ : dstate) : Prop :=
  match σ with
  | DCount c => count_inv files idx ps c ∧ length c.1 = Z.to_nat (K + 1)
  | DPopulate output wss =>
      (length (concat wss) ≤ length files)%nat ∧ ∃ O, sorted_result O ∧ write_inv O output (concat wss)
  | DDone fs => sorted_result fs
  | DCrash => False
  end.

Lemma nonempty_sum (hs : list (list File)) : Forall (.≠ []) hs → (length hs ≤ sum_list_with length hs)%nat.
Proof. induction 1 as [|[|f h] l Hh _ IH]; simpl in *; [lia|done|lia]. Qed.

(** From filled buckets the main thread gets a plan: the threads together
    will do exactly the writes that lay the buckets out. *)
Lemma plan_ok bs : length bs = Z.to_nat (K + 1) →
  (∀ j b, bs !! j = Some b → b_head b ≡ₚ filter (λ f, idx f = Z.of_nat j) files ∧
     b_freq b = Z.of_nat (length (b_head b))) →
  ∃ ngc bs' wss, sum_buckets 0 bs = Some (ngc, bs') ∧
    populate_plan (list_fuel files) ngc bs' (take (length ps) (chunck_size total)) 0 0 = Some wss ∧
    concat wss = writes_from (heads bs) 0 ∧ sorted_result (laid_out (heads bs)) ∧
    length (writes_from (heads bs) 0) = length files.
Proof.
  intros Hl Hb. destruct (laid_out_sorted files idx bs K Hl Hidx) as [Hp Hs].
  { intros j b Hj. by apply Hb. }
  assert (sum_list_with length (heads bs) = length files) as Hsum.
  { by rewrite <- length_laid_out, Hp. }
  destruct (sum_buckets_ok bs) as (ngc & bs' & E & Hok); [intros j b Hj; by eapply Hb|rewrite Hsum; lia|].
  destruct (ps_ok files) as (_ & _ & _ & Hch & Hch0). fold total in Hch, Hch0. fold ps in Hch, Hch0.
  assert (sum_list_with Z.to_nat (take (length ps) (chunck_size total)) = length files) as Hcs.
  { apply (inj Z.of_nat). exact Hch. }
  assert (length (writes_from (heads bs) 0) = length files) as Hw by (by rewrite length_writes, drop_0).
  assert (length (heads bs) ≤ length files)%nat as Hlh.
  { rewrite <- Hsum. apply nonempty_sum. rewrite Forall_forall. by intros h [? _]%list_elem_of_filter. }
  destruct (populate_plan_spec ngc bs' (heads bs) Hok (list_fuel files) (take (length ps) (chunck_size total)) 0 0)
    as (wss & Ew & Hcw); [|done|rewrite drop_0, Hw, Hcs; lia|unfold list_fuel; lia|].
  { destruct (heads bs) as [|h l] eqn:Eh; [by right|left]. exists h. split; [done|].
    destruct Hok as [_ Hl']. destruct (Hl' 0%nat h eq_refl) as [Hne _]. destruct h; simpl; [done|lia]. }
  exists ngc, bs', wss. split; [done|]. split; [done|].
  rewrite Hcw, drop_0, Hcs, take_ge by (rewrite Hw; lia). done.
Qed.

(** Filling the buckets leads to the writing threads, never to a crash. *)
Lemma after_count_ok bs : length bs = Z.to_nat (K + 1) →
  (∀ j b, bs !! j = Some b → b_head b ≡ₚ filter (λ f, idx f = Z.of_nat j) files ∧
     b_freq b = Z.of_nat (length (b_head b))) →
  d_inv (after_count 0 files bs).
Proof.
  intros Hl Hb. destruct (plan_ok bs Hl Hb) as (ngc & bs' & wss & Es & Ep & Hcw & Hres & Hw).
  unfold after_count. rewrite Es. fold total. fold ps. rewrite Ep. simpl. rewrite Hcw. split; [lia|].
  exists (laid_out (heads bs)). split; [done|]. destruct Hres as [Hp _].
  rewrite <- (Permutation_length Hp). apply write_inv_start.
Qed.

Lemma d_step_inv σ σ' : d_inv σ → dstep 0 files idx σ σ' → d_inv σ'.
Proof.
  intros Hinv Hs. destruct Hs as [t c c' Hc|bs ths Hd|t output wss σ' Hw|output wss Hd]; simpl in Hinv.
  - destruct Hinv as [Hinv Hl]. simpl. by eapply cstep_inv_init.
  - destruct Hinv as [Hinv Hl]. apply after_count_ok; [done|]. by apply (count_done files idx bs ths).
  - destruct Hinv as (Hle & O & HO & Hinv). unfold wstep in Hw.
    destruct (wss !! t) as [[|[i f] ws]|] eqn:Ht; [done| |done].
    rewrite (concat_next _ _ _ _ Ht) in Hinv. apply write_inv_step in Hinv as [[x Hx] Hinv].
    apply concat_next, Permutation_length in Ht. simpl in Ht.
    rewrite Hx in Hw. injection Hw as <-. split; [lia|]. by exists O.
  - destruct Hinv as (_ & O & HO & Hinv). assert (concat wss = []) as E.
    { clear -Hd. induction Hd as [|ws wss -> _ IH]; [done|]. by rewrite concat_cons, IH. }
    rewrite E in Hinv. unfold after_populate. by rewrite (write_inv_done _ _ Hinv).
Qed.

(** Until it is done, the program can take a step. *)
Lemma d_progress σ : d_inv σ → (∃ fs, σ = DDone fs) ∨ ∃ σ', dstep 0 files idx σ σ'.
Proof.
  destruct σ as [[bs ths]|output wss|fs|]; simpl; intros Hinv; [| |by left; eexists|done].
  - right. destruct Hinv as [Hinv Hl]. destruct (decide (Forall c_done ths)) as [Hd|Hd].
    { eexists. by apply d_join_count. }
    apply not_Forall_Exists in Hd; [|apply _]. apply Exists_exists in Hd as ([i e pc] & Hin & Hd).
    apply list_elem_of_lookup in Hin as [t Ht]. unfold c_done in Hd; simpl in Hd.
    assert (∀ f, f ∈ files → is_Some (getZ bs (idx f))) as Hb.
    { intros f Hf. apply getZ_is_Some. specialize (Hidx f Hf). simpl in Hl. lia. }
    destruct (count_progress files idx ps bs ths t i e pc Hinv Hb Ht ltac:(lia)) as (t' & σ' & Hs).
    eexists. by eapply d_count.
  - right. destruct (decide (Forall (.= []) wss)) as [Hd|Hd]; [eexists; by apply d_join_write|].
    apply not_Forall_Exists in Hd; [|apply _]. apply Exists_exists in Hd as (ws & Hin & Hd).
    apply list_elem_of_lookup in Hin as [t Ht]. destruct ws as [|[i f] ws]; [by destruct Hd|].
    eexists. eapply (d_write _ _ _ t). unfold wstep. by rewrite Ht.
Qed.

(** Each step lowers a measure, so every run ends. *)
Definition d_measure (σ : dstate) : nat :=
  match σ with
  | DCount c => S (S (c_measure c + length files))
  | DPopulate output wss => S (length (concat wss))
  | _ => 0
  end.

Lemma d_step_measure σ σ' : d_inv σ → dstep 0 files idx σ σ' → (d_measure σ' < d_measure σ)%nat.
Proof.
  intros Hinv Hs. pose proof (d_step_inv _ _ Hinv Hs) as Hinv'.
  destruct Hs as [t c c' Hc|bs ths Hd|t output wss σ' Hw|output wss Hd]; simpl in Hinv.
  - apply cstep_measure in Hc. simpl. lia.
  - assert (d_measure (after_count 0 files bs) ≤ S (length files))%nat; [|simpl; lia].
    unfold after_count. destruct (sum_buckets 0 bs) as [[ngc bs']|] eqn:Esb; [|simpl; lia].
    destruct (populate_plan _ _ _ _ _ _) as [wss|] eqn:Epl; [|simpl; lia]. simpl.
    unfold after_count in Hinv'. rewrite Esb, Epl in Hinv'. simpl in Hinv'. lia.
  - unfold wstep in Hw. destruct (wss !! t) as [[|[i f] ws]|] eqn:Ht; [done| |done].
    apply concat_next in Ht. apply Permutation_length in Ht. simpl in Ht.
    injection Hw as <-. case_match; simpl; lia.
  - unfold after_populate. case_match; simpl; lia.
Qed.
End program.
