(* ===== verification/SortKeys.v ===== *)
(** The single-threaded count sort is a stable sort.  The bucket indices of the
    count sort: in range, and ordered like the ids and the timestamps they
    come from. *)
From S2P Require Import Prelude SortBase SortCount SortCountInv SortCountSort SortCountProof SortCountWhole.

(** ** Lemmas *)

Section seq.
Context (files : list File) (idx : File → Z) (K : Z).
Context (Hidx : ∀ f, f ∈ files → 0 ≤ idx f ≤ K) (Hlen : Z.of_nat (length files) + 1 < 2 ^ 31).

(** The buckets after counting [l], one file after the other. *)
Definition counted (l : list File) (bs : list bucket) : Prop :=
  length bs = Z.to_nat (K + 1) ∧
  ∀ j b, bs !! j = Some b → b_head b = reverse (filter (λ f, idx f = Z.of_nat j) l) ∧
    b_freq b = Z.of_nat (length (b_head b)).

Lemma counted_init : counted [] (replicate (Z.to_nat (K + 1)) (Bucket 0 [] 0 None)).
Proof.
  split; [apply length_replicate|]. intros j b [-> _]%lookup_replicate. done.
Qed.

Lemma push_ok l bs f : counted l bs → f ∈ files → (length l < length files)%nat →
  ∃ bs', push idx (Some bs) f = Some bs' ∧ counted (l ++ [f]) bs'.
Proof.
  intros [Hl Hb] Hf Hlt. specialize (Hidx f Hf). destruct (getZ_is_Some bs (idx f)) as [b Eb]; [lia|].
  unfold push. simpl. rewrite Eb. simpl. eexists. split; [done|].
  pose proof Eb as Eb'. unfold getZ in Eb'. rewrite decide_True in Eb' by lia.
  destruct (Hb _ _ Eb') as [Hh Hfr]. split; [by rewrite length_setZ|]. intros j b' Hj.
  rewrite filter_app, reverse_app. unfold setZ in Hj. rewrite decide_True in Hj by lia.
  rewrite list_lookup_insert in Hj. case_decide as E.
  - destruct E as [<- _]. injection Hj as <-. simpl. rewrite filter_cons_True by lia. rewrite filter_nil.
    split; [by rewrite Hh|]. rewrite i32_small; [lia|].
    assert (length (b_head b) ≤ length l)%nat; [|lia]. rewrite Hh, length_reverse. apply length_filter.
  - destruct (Hb j b' Hj) as [Hh' Hfr']. split; [|done]. rewrite filter_cons_False; [done|].
    intros Ej. apply E. split; [lia|]. apply lookup_lt_Some in Hj. lia.
Qed.

Lemma push_list_ok l2 : ∀ l1 bs, counted l1 bs → (∀ f, f ∈ l2 → f ∈ files) →
  (length l1 + length l2 ≤ length files)%nat →
  ∃ bs', foldl (push idx) (Some bs) l2 = Some bs' ∧ counted (l1 ++ l2) bs'.
Proof.
  induction l2 as [|f l2 IH]; intros l1 bs Hc Hin Hle; simpl in *.
  { exists bs. by rewrite app_nil_r. }
  destruct (push_ok l1 bs f Hc) as (bs' & E & Hc'); [apply Hin; by left|lia|].
  simpl in E. rewrite E. destruct (IH (l1 ++ [f]) bs' Hc') as (bs2 & E2 & Hc2).
  - intros g Hg. apply Hin. by right.
  - rewrite length_app. simpl. lia.
  - exists bs2. split; [done|]. by rewrite <- app_assoc in Hc2.
Qed.

Lemma count_seq_fold ps : ∀ obs,
  foldl (λ obs p, foldl (push idx) obs (slice files p.1 (p.2 + 1))) obs ps =
  foldl (push idx) obs (concat ((λ p, slice files p.1 (p.2 + 1)) <$> ps)).
Proof.
  induction ps as [|p ps IH]; intros obs; [done|]. rewrite fmap_cons, concat_cons, foldl_app. simpl. apply IH.
Qed.

Lemma count_seq_ok :
  ∃ bs, count_seq files idx (spawn (chunck_size (Z.of_nat (length files))) 0 (Z.of_nat (length files)))
          (replicate (Z.to_nat (K + 1)) (Bucket 0 [] 0 None)) = Some bs ∧ counted files bs.
Proof.
  unfold count_seq. rewrite count_seq_fold. destruct (ps_ok files) as (_ & -> & _).
  destruct (push_list_ok files [] _ counted_init) as (bs & E & Hc); [done|simpl; lia|].
  by exists bs.
Qed.

Lemma write_all_ok ws : ∀ O output, write_inv O output ws →
  ∃ output', write_all output ws = Some output' ∧ write_inv O output' [].
Proof.
  unfold write_all. induction ws as [|[i f] ws IH]; intros O output Hw; simpl; [by exists output|].
  apply write_inv_step in Hw as [[x Hx] Hw]. simpl. rewrite Hx. simpl. by apply IH.
Qed.

(** The files with index [j], in their order. *)
Lemma laid_out_stable bs : counted files bs →
  ∀ j, filter (λ f, idx f = j) (laid_out (heads bs)) = filter (λ f, idx f = j) files.
Proof.
  intros [Hl Hb] j. rewrite laid_out_heads.
  assert (∀ k, (k ≤ length bs)%nat →
    filter (λ f, idx f = j) (concat ((λ b, reverse (b_head b)) <$> take k bs)) =
    if decide (0 ≤ j < Z.of_nat k) then filter (λ f, idx f = j) files else []) as Hk.
  { induction k as [|k IH]; intros Hle; simpl; [by rewrite decide_False by lia|].
    destruct (lookup_lt_is_Some_2 bs k) as [b Hbk]; [lia|]. destruct (Hb k b Hbk) as [Hh _].
    rewrite (take_S_r _ _ _ Hbk), fmap_app, concat_app, filter_app, IH by lia. cbn [fmap list_fmap concat].
    rewrite app_nil_r, Hh, reverse_involutive, list_filter_filter.
    destruct (decide (j = Z.of_nat k)) as [->|Hne].
    - rewrite decide_False by lia. rewrite decide_True by lia. simpl.
      apply filter_ext_in. intros f _. simpl. tauto.
    - rewrite (filter_none (λ f, idx f = j ∧ idx f = Z.of_nat k) files) by (intros f _; lia). rewrite app_nil_r.
      repeat case_decide; (done || lia). }
  specialize (Hk (length bs) ltac:(lia)). rewrite firstn_all in Hk. rewrite Hk. case_decide as Hd; [done|].
  symmetry. apply filter_none. intros f Hf E. specialize (Hidx f Hf). lia.
Qed.

Lemma counted_perm bs : counted files bs →
  ∀ j b, bs !! j = Some b → b_head b ≡ₚ filter (λ f, idx f = Z.of_nat j) files.
Proof. intros [_ Hb] j b Hj. destruct (Hb j b Hj) as [-> _]. apply reverse_Permutation. Qed.

(** The whole run. *)
Lemma count_sort_run mktime_of flag g : get_max_min_values mktime_of flag files = Some g →
  idx = bucket_index mktime_of flag g → K = i32 (max_value g - min_value g) → 0 ≤ K < 2 ^ 31 - 2 →
  ∃ fs, non_distributed_count_sort mktime_of flag 0 files = Some fs ∧ sorted_result files idx fs ∧
    ∀ j, filter (λ f, idx f = j) fs = filter (λ f, idx f = j) files.
Proof.
  intros Hg Ei EK HK. destruct count_seq_ok as (bs & Ec & Hc). pose proof Hc as [Hl Hb].
  destruct (plan_ok files idx K Hidx Hlen bs Hl) as (ngc & bs' & wss & Es & Ep & Hcw & Hres & Hw).
  { intros j b Hj. split; [by apply counted_perm with bs|]. by apply (Hb j b). }
  destruct (write_all_ok (writes_from (heads bs) 0) _ _ (write_inv_start (heads bs))) as (out & Ew & Hout).
  exists (laid_out (heads bs)). split; [|split; [done|by apply laid_out_stable]].
  unfold non_distributed_count_sort. rewrite Hg. simpl. rewrite <- Ei. rewrite (init_global_count_ok _ _ K EK HK). simpl. rewrite Ec.
  simpl. rewrite Es. simpl. rewrite Ep. simpl. destruct Hres as [Hp _].
  rewrite Hcw, <- (Permutation_length Hp), Ew. simpl. by apply write_inv_done.
Qed.
End seq.

Section ids.
Context (mktime_of : list Z → Z) (flag : Z) (Hflag : flag ≠ 0 ∧ flag ≠ 2).

Lemma minmax_turn_id g f : minmax_turn flag g f =
  MinMax (Z.max (id f) (max_value g)) (Z.min (id f) (min_value g))
    (min_filename g) (max_filename g) (min_timestamp g) (max_timestamp g).
Proof.
  unfold minmax_turn. rewrite !(proj2 (Z.eqb_neq flag _)) by apply Hflag. f_equal; case_if; lia.
Qed.

Lemma fold_minmax_id l : ∀ g, let g' := foldl (minmax_turn flag) g l in
  min_value g' ≤ min_value g ∧ max_value g ≤ max_value g' ∧
  (∀ f, f ∈ l → min_value g' ≤ id f ≤ max_value g') ∧
  (min_value g' = min_value g ∨ ∃ f, f ∈ l ∧ id f = min_value g') ∧
  (max_value g' = max_value g ∨ ∃ f, f ∈ l ∧ id f = max_value g').
Proof.
  induction l as [|f l IH]; intros g; simpl.
  { split; [lia|]. split; [lia|]. split; [intros f []%elem_of_nil|]. auto. }
  destruct (IH (minmax_turn flag g f)) as (H1 & H2 & H3 & H4 & H5).
  assert (min_value (minmax_turn flag g f) = Z.min (id f) (min_value g) ∧
          max_value (minmax_turn flag g f) = Z.max (id f) (max_value g)) as [Emn Emx] by (by rewrite minmax_turn_id).
  set (g' := foldl (minmax_turn flag) (minmax_turn flag g f) l) in *.
  split; [lia|]. split; [lia|]. split; [|split].
  - intros f' [->|Hf']%elem_of_cons; [lia|by apply H3].
  - destruct H4 as [E|(f' & ? & ?)]; [|right; exists f'; split; [by right|done]].
    destruct (decide (id f ≤ min_value g)); [right; exists f; split; [by left|lia]|left; lia].
  - destruct H5 as [E|(f' & ? & ?)]; [|right; exists f'; split; [by right|done]].
    destruct (decide (max_value g ≤ id f)); [right; exists f; split; [by left|lia]|left; lia].
Qed.

Lemma minmax_id files g : get_max_min_values mktime_of flag files = Some g →
  (∀ f, f ∈ files → min_value g ≤ id f ≤ max_value g) ∧
  (∃ f, f ∈ files ∧ id f = min_value g) ∧ (∃ f, f ∈ files ∧ id f = max_value g).
Proof.
  destruct files as [|f l]; [done|]. unfold get_max_min_values.
  rewrite !(proj2 (Z.eqb_neq flag _)) by apply Hflag. intros [= <-].
  destruct (fold_minmax_id l (MinMax (id f) (id f) (name f) (name f) (timestamp f) (timestamp f)))
    as (H1 & H2 & H3 & H4 & H5). simpl in *. split; [|split].
  - intros f' [->|Hf']%elem_of_cons; [lia|by apply H3].
  - destruct H4 as [->|(f' & ? & ?)]; [exists f; split; [by left|done]|exists f'; split; [by right|congruence]].
  - destruct H5 as [->|(f' & ? & ?)]; [exists f; split; [by left|done]|exists f'; split; [by right|congruence]].
Qed.

(** With ids less than 2^31 - 2 apart, the index is the distance to the least,
    and there is memory for the buckets. *)
Lemma id_index files g : get_max_min_values mktime_of flag files = Some g →
  (∀ f f', f ∈ files → f' ∈ files → id f - id f' < 2 ^ 31 - 2) →
  i32 (max_value g - min_value g) = max_value g - min_value g ∧ 0 ≤ max_value g - min_value g < 2 ^ 31 - 2 ∧
  ∀ f, f ∈ files → bucket_index mktime_of flag g f = id f - min_value g ∧
                   0 ≤ id f - min_value g ≤ max_value g - min_value g.
Proof.
  intros Hg Hd. destruct (minmax_id files g Hg) as (Hr & (fmin & Hmin & Emin) & (fmax & Hmax & Emax)).
  pose proof (Hd fmax fmin Hmax Hmin). pose proof (Hr fmin Hmin). split; [apply i32_small; lia|]. split; [lia|].
  intros f Hf. specialize (Hr f Hf). split; [|lia]. unfold bucket_index.
  rewrite !(proj2 (Z.eqb_neq flag _)) by apply Hflag. apply i32_small. lia.
Qed.
End ids.

Section stamps.
Context (mktime_of : list Z → Z).

Lemma fold_minmax_ts l : ∀ g, Forall (λ f, cstring (timestamp f)) l →
  cstring (min_timestamp g) → cstring (max_timestamp g) →
  let g' := foldl (minmax_turn 2) g l in
  cstring (min_timestamp g') ∧ cstring (max_timestamp g') ∧
  strcmp (min_timestamp g') (min_timestamp g) ≤ 0 ∧ strcmp (max_timestamp g) (max_timestamp g') ≤ 0 ∧
  (∀ f, f ∈ l → strcmp (min_timestamp g') (timestamp f) ≤ 0 ∧ strcmp (timestamp f) (max_timestamp g') ≤ 0) ∧
  (min_timestamp g' = min_timestamp g ∨ ∃ f, f ∈ l ∧ timestamp f = min_timestamp g') ∧
  (max_timestamp g' = max_timestamp g ∨ ∃ f, f ∈ l ∧ timestamp f = max_timestamp g').
Proof.
  induction l as [|f l IH]; intros g Hl Hmin Hmax; simpl.
  { split; [done|]. split; [done|]. rewrite !strcmp_refl. split; [lia|]. split; [lia|].
    split; [intros f []%elem_of_nil|]. auto. }
  apply Forall_cons in Hl as [Hf Hl].
  set (mn := if strcmp (timestamp f) (min_timestamp g) <? 0 then timestamp f else min_timestamp g).
  set (mx := if strcmp (timestamp f) (max_timestamp g) >? 0 then timestamp f else max_timestamp g).
  assert (minmax_turn 2 g f = MinMax (max_value g) (min_value g) (min_filename g) (max_filename g) mn mx) as -> by done.
  assert (cstring mn ∧ strcmp mn (min_timestamp g) ≤ 0 ∧ strcmp mn (timestamp f) ≤ 0 ∧ (mn = timestamp f ∨ mn = min_timestamp g)) as (Mn & Mn1 & Mn2 & Mn3).
  { pose proof (strcmp_antisym (timestamp f) (min_timestamp g)). unfold mn. case_if; rewrite ?strcmp_refl.
    - repeat split; auto; lia.
    - repeat split; auto; try lia. }
  assert (cstring mx ∧ strcmp (max_timestamp g) mx ≤ 0 ∧ strcmp (timestamp f) mx ≤ 0 ∧ (mx = timestamp f ∨ mx = max_timestamp g)) as (Mx & Mx1 & Mx2 & Mx3).
  { pose proof (strcmp_antisym (timestamp f) (max_timestamp g)). unfold mx. case_if; rewrite ?strcmp_refl.
    - repeat split; auto; lia.
    - repeat split; auto; lia. }
  destruct (IH (MinMax (max_value g) (min_value g) (min_filename g) (max_filename g) mn mx) Hl Mn Mx)
    as (H1 & H2 & H3 & H4 & H5 & H6 & H7). cbn [min_timestamp max_timestamp] in *.
  split; [done|]. split; [done|]. split; [by eapply strcmp_trans with mn|]. split; [by eapply strcmp_trans with mx|].
  split; [|split].
  - intros f' [->|Hf']%elem_of_cons; [|by apply H5]. split; [by eapply strcmp_trans with mn|by eapply strcmp_trans with mx].
  - destruct H6 as [E|(f' & ? & ?)]; [|right; exists f'; split; [by right|done]].
    destruct Mn3 as [E'|E']; [right; exists f; split; [by left|congruence]|left; congruence].
  - destruct H7 as [E|(f' & ? & ?)]; [|right; exists f'; split; [by right|done]].
    destruct Mx3 as [E'|E']; [right; exists f; split; [by left|congruence]|left; congruence].
Qed.

Lemma minmax_ts files g : get_max_min_values mktime_of 2 files = Some g →
  Forall (λ f, cstring (timestamp f)) files →
  (∀ f, f ∈ files → strcmp (min_timestamp g) (timestamp f) ≤ 0 ∧ strcmp (timestamp f) (max_timestamp g) ≤ 0) ∧
  (∃ f, f ∈ files ∧ timestamp f = min_timestamp g) ∧ (∃ f, f ∈ files ∧ timestamp f = max_timestamp g) ∧
  max_value g = i32 (mktime_of (max_timestamp g) - mktime_of (min_timestamp g)) ∧ min_value g = 0.
Proof.
  destruct files as [|f l]; [done|]. intros Hg [Hf Hl]%Forall_cons. cbn in Hg. injection Hg as <-.
  destruct (fold_minmax_ts l (MinMax (id f) (id f) (name f) (name f) (timestamp f) (timestamp f)) Hl Hf Hf)
    as (_ & _ & H3 & H4 & H5 & H6 & H7). cbn [min_timestamp max_timestamp max_value min_value] in *.
  split; [|split; [|split; [|split]]].
  - intros f' [->|Hf']%elem_of_cons; [done|by apply H5].
  - destruct H6 as [->|(f' & ? & ?)]; [exists f; split; [by left|done]|exists f'; split; [by right|congruence]].
  - destruct H7 as [->|(f' & ? & ?)]; [exists f; split; [by left|done]|exists f'; split; [by right|congruence]].
  - done.
  - unfold convert_timestamp_to_seconds. by rewrite Z.sub_diag.
Qed.

(** If [mktime] follows the order of the timestamp strings and they are less
    than 2^31 - 2 seconds apart, so do the indices. *)
Lemma ts_index files g : get_max_min_values mktime_of 2 files = Some g →
  Forall (λ f, cstring (timestamp f)) files →
  (∀ a b, a ∈ files → b ∈ files → strcmp (timestamp a) (timestamp b) < 0 →
     mktime_of (timestamp a) < mktime_of (timestamp b)) →
  (∀ a b, a ∈ files → b ∈ files → mktime_of (timestamp a) - mktime_of (timestamp b) < 2 ^ 31 - 2) →
  let K := i32 (max_value g - min_value g) in
  0 ≤ K < 2 ^ 31 - 2 ∧ ∀ f, f ∈ files → 0 ≤ bucket_index mktime_of 2 g f ≤ K ∧
    bucket_index mktime_of 2 g f = mktime_of (timestamp f) - mktime_of (min_timestamp g).
Proof.
  intros Hg Hc Hmono Hd K. destruct (minmax_ts files g Hg Hc) as (Hr & (fmin & Hmin & Emin) & (fmax & Hmax & Emax) & EM & Em).
  assert (∀ a b, a ∈ files → b ∈ files → strcmp (timestamp a) (timestamp b) ≤ 0 →
    mktime_of (timestamp a) ≤ mktime_of (timestamp b)) as Hle.
  { intros a b Ha Hb Hab. destruct (decide (strcmp (timestamp a) (timestamp b) = 0)) as [E|E].
    - rewrite Forall_forall in Hc. by rewrite (strcmp_eq _ _ (Hc a Ha) (Hc b Hb) E).
    - specialize (Hmono a b Ha Hb). lia. }
  assert (mktime_of (timestamp fmin) ≤ mktime_of (timestamp fmax)) as L0.
  { apply Hle; [done|done|]. destruct (Hr fmax Hmax) as [H1 _]. by rewrite <- Emin in H1. }
  pose proof (Hd fmax fmin Hmax Hmin) as D. rewrite Emin in D, L0. rewrite Emax in D, L0.
  assert (K = mktime_of (max_timestamp g) - mktime_of (min_timestamp g)) as ->.
  { unfold K. rewrite Em, EM, Z.sub_0_r. by rewrite !i32_small by (rewrite ?i32_small; lia). }
  split; [lia|]. intros f Hf. destruct (Hr f Hf) as [H1 H2]. rewrite <- Emin in H1. rewrite <- Emax in H2.
  pose proof (Hle _ _ Hmin Hf H1) as L1. pose proof (Hle _ _ Hf Hmax H2) as L2. rewrite Emin in L1. rewrite Emax in L2.
  assert (bucket_index mktime_of 2 g f = mktime_of (timestamp f) - mktime_of (min_timestamp g)) as E.
  { unfold bucket_index, convert_timestamp_to_seconds. simpl. apply i32_small. lia. }
  rewrite E. split; [lia|done].
Qed.
End stamps.
