(* ===== verification/SortMerge.v ===== *)
(** concurrency/partB.c, the merge sorts: [merge], the sequential
    [merge_sort_non_distributed], the fork/join [merge_sort] as a transition
    system over its tree of threads, and [lazy_sort]. *)
From S2P Require Import Prelude SortBase SortCount.

(** ** Definitions *)

Definition MAX_LEVEL_MERGE_SORT : Z := 5.
Definition LAZY_THRESHOLD : Z := 42.

(** Whether [merge] takes the left element; None when [sort_way] is none of
    the three, where the code's loop makes no progress. *)
Definition takes_left (sort_way : Z) (a b : File) : option bool :=
  if sort_way =? 0 then Some (strcmp (name a) (name b) <=? 0)
  else if sort_way =? 1 then Some (id a <=? id b)
  else if sort_way =? 2 then Some (strcmp (timestamp a) (timestamp b) <=? 0)
  else None.

(** [files[s]], ..., [files[e]]; None outside of the array. *)
Definition read_range (files : list File) (s e : Z) : option (list File) :=
  mapM (getZ files) (seqZ s (e - s + 1)).

(** The three loops of [merge] that fill [tempfiles]. *)
Fixpoint merge_loop (fuel : nat) (files : list File) (sort_way s1 e1 s2 e2 : Z)
    (tempfiles : list File) : option (list File) :=
  if (s1 <=? e1) && (s2 <=? e2) then
    match fuel with
    | O => None
    | S fuel' =>
        a ← getZ files s1; b ← getZ files s2;
        match takes_left sort_way a b with
        | Some true => merge_loop fuel' files sort_way (s1 + 1) e1 s2 e2 (tempfiles ++ [a])
        | Some false => merge_loop fuel' files sort_way s1 e1 (s2 + 1) e2 (tempfiles ++ [b])
        | None => merge_loop fuel' files sort_way s1 e1 s2 e2 tempfiles
        end
    end
  else l1 ← read_range files s1 e1; l2 ← read_range files s2 e2; Some (tempfiles ++ l1 ++ l2).

(** [files[i] = tempfiles[i-s]] for [i] from [s] to [e]. *)
Definition write_back (files tempfiles : list File) (s e : Z) : option (list File) :=
  foldl (λ ofs i, fs ← ofs; f ← getZ tempfiles (i - s); _ ← getZ fs i; Some (setZ fs i f))
    (Some files) (seqZ s (e - s + 1)).

Definition merge (files : list File) (s e sort_way : Z) : option (list File) :=
  let mid := Z.quot (s + e) 2 in
  tempfiles ← merge_loop (Z.to_nat (e - s + 2)) files sort_way s mid (mid + 1) e [];
  write_back files tempfiles s e.

Fixpoint merge_sort_non_distributed (fuel : nat) (files : list File) (s e sort_way : Z) : option (list File) :=
  match fuel with
  | O => None
  | S fuel' =>
      if s =? e then Some files
      else
        let mid := Z.quot (s + e) 2 in
        files1 ← merge_sort_non_distributed fuel' files s mid sort_way;
        files2 ← merge_sort_non_distributed fuel' files1 (mid + 1) e sort_way;
        merge files2 s e sort_way
  end.

(** The threads of [merge_sort]: one that has yet to run on [s .. e], one
    that waits in pthread_join for its two children, one that has returned. *)
Inductive mtask :=
| MRun (s e level : Z)
| MPar (left right : mtask) (s e : Z)
| MDone.

Section merge_sort.
Context (sort_way sort_column_flag max_level : Z).

(** [qsort] may answer any sorted permutation. *)
Definition qsort (seg seg' : list File) : Prop :=
  match get_comparison_function sort_column_flag with
  | Some cmp => seg' ≡ₚ seg ∧ StronglySorted (λ a b, cmp a b ≤ 0) seg'
  | None => False
  end.

(** The array with [seg'] in place of as many elements from [s] on. *)
Definition splice (files : list File) (s : Z) (seg' : list File) : list File :=
  take (Z.to_nat s) files ++ seg' ++ drop (Z.to_nat s + length seg') files.

(** One step of one of the threads. *)
Inductive mstep : list File * mtask → list File * mtask → Prop :=
| m_single fs s level : mstep (fs, MRun s s level) (fs, MDone)
| m_fork fs s e level : s ≠ e → level < max_level →
    let mid := Z.quot (s + e) 2 in
    mstep (fs, MRun s e level)
          (fs, MPar (MRun s mid (level + 1)) (MRun (mid + 1) e (level + 1)) s e)
| m_qsort fs s e level seg' : s ≠ e → ¬ level < max_level →
    qsort (slice fs s (e + 1)) seg' →
    mstep (fs, MRun s e level) (splice fs s seg', MDone)
| m_left fs fs' l l' r s e : mstep (fs, l) (fs', l') → mstep (fs, MPar l r s e) (fs', MPar l' r s e)
| m_right fs fs' l r r' s e : mstep (fs, r) (fs', r') → mstep (fs, MPar l r s e) (fs', MPar l r' s e)
| m_merge fs fs' s e : merge fs s e sort_way = Some fs' →
    mstep (fs, MPar MDone MDone s e) (fs', MDone).
End merge_sort.

(** The order [merge] keeps. *)
Definition way_le (sort_way : Z) : relation File := λ a b, takes_left sort_way a b = Some true.

Global Instance way_le_dec sort_way : RelDecision (way_le sort_way).
Proof. intros a b. unfold way_le. apply _. Defined.

Definition file_wf (f : File) : Prop := cstring (name f) ∧ cstring (timestamp f).

(** ** Lemmas *)

Lemma way_le_trans w a b c : file_wf a → file_wf b → file_wf c →
  way_le w a b → way_le w b c → way_le w a c.
Proof.
  intros [Na Ta] [Nb Tb] [Nc Tc]. unfold way_le, takes_left.
  repeat case_if; intros [= H1] [= H2]; bool_prop; do 2 f_equal.
  - f_equal. apply Z.leb_le. by eapply strcmp_trans with (name b).
  - f_equal. apply Z.leb_le. lia.
  - f_equal. apply Z.leb_le. by eapply strcmp_trans with (timestamp b).
Qed.

Lemma way_le_total w a b : 0 ≤ w ≤ 2 → way_le w a b ∨ way_le w b a.
Proof.
  intros Hw. unfold way_le, takes_left. repeat case_if; try lia.
  - destruct (strcmp_total (name a) (name b)); [left|right]; f_equal; by apply Z.leb_le.
  - destruct (Z.le_ge_cases (id a) (id b)); [left|right]; f_equal; by apply Z.leb_le.
  - destruct (strcmp_total (timestamp a) (timestamp b)); [left|right]; f_equal; by apply Z.leb_le.
Qed.

Lemma takes_left_spec w a b : 0 ≤ w ≤ 2 →
  takes_left w a b = Some (bool_decide (way_le w a b)).
Proof.
  intros Hw. destruct (takes_left w a b) as [[|]|] eqn:E.
  - by rewrite bool_decide_true.
  - rewrite bool_decide_false; [done|]. unfold way_le. congruence.
  - exfalso. revert E. unfold takes_left. repeat case_if; try done; lia.
Qed.

(** ** Ranges *)

Lemma read_range_slice files s e : 0 ≤ s → e < Z.of_nat (length files) → s ≤ e + 1 →
  read_range files s e = Some (slice files s (e + 1)).
Proof.
  intros Hs He Hse. unfold read_range, slice. replace (e - s + 1) with (e + 1 - s) by lia.
  remember (Z.to_nat (e + 1 - s)) as n eqn:En. replace (e + 1 - s) with (Z.of_nat n) by lia.
  assert (s + Z.of_nat n ≤ Z.of_nat (length files)) as Hb by lia. clear En He Hse. revert s Hs Hb.
  induction n as [|n IH]; intros s Hs Hb; [done|].
  rewrite seqZ_cons by lia. destruct (lookup_lt_is_Some_2 files (Z.to_nat s)) as [f Hf]; [lia|].
  assert (getZ files s = Some f) as Hg by (unfold getZ; by rewrite decide_True by lia).
  cbn [mapM]. rewrite Hg. simpl.
  rewrite (drop_S _ _ _ Hf). simpl.
  replace (Z.pred (Z.of_nat (S n))) with (Z.of_nat n) by lia. replace (Z.succ s) with (s + 1) by lia.
  rewrite IH by lia. simpl. replace (Z.to_nat (s + 1)) with (S (Z.to_nat s)) by lia. done.
Qed.

Lemma slice_cons files s e f : getZ files s = Some f → s ≤ e →
  slice files s (e + 1) = f :: slice files (s + 1) (e + 1).
Proof.
  unfold getZ, slice. case_decide; [|done]. intros Hf He.
  replace (Z.to_nat (e + 1 - s)) with (S (Z.to_nat (e + 1 - (s + 1)))) by lia.
  rewrite (drop_S _ _ _ Hf). simpl. by replace (Z.to_nat (s + 1)) with (S (Z.to_nat s)) by lia.
Qed.

Lemma length_slice files s e : 0 ≤ s → s ≤ e + 1 → e < Z.of_nat (length files) →
  length (slice files s (e + 1)) = Z.to_nat (e + 1 - s).
Proof. intros. unfold slice. rewrite length_take, length_drop. lia. Qed.

Lemma slice_nil files s e : e < s → slice files s (e + 1) = [].
Proof. intros. unfold slice. by replace (Z.to_nat (e + 1 - s)) with 0%nat by lia. Qed.

(** ** [merge] is the merge of two lists *)

Lemma merge_loop_spec w files fuel : 0 ≤ w ≤ 2 → ∀ s1 e1 s2 e2 tmp,
  0 ≤ s1 ≤ e1 + 1 → e1 < Z.of_nat (length files) → 0 ≤ s2 ≤ e2 + 1 → e2 < Z.of_nat (length files) →
  (Z.to_nat (e1 + 1 - s1) + Z.to_nat (e2 + 1 - s2) ≤ fuel)%nat →
  merge_loop fuel files w s1 e1 s2 e2 tmp =
  Some (tmp ++ list_merge (way_le w) (slice files s1 (e1 + 1)) (slice files s2 (e2 + 1))).
Proof.
  intros Hw. induction fuel as [|fuel IH]; intros s1 e1 s2 e2 tmp H1 He1 H2 He2 Hf; cbn [merge_loop].
  { rewrite (proj2 (Z.leb_gt s1 e1)) by lia. simpl.
    rewrite !read_range_slice by lia. simpl. rewrite !slice_nil by lia. done. }
  destruct ((s1 <=? e1) && (s2 <=? e2)) eqn:E.
  - bool_prop. destruct (getZ_is_Some files s1) as [a Ha]; [lia|]. destruct (getZ_is_Some files s2) as [b Hb]; [lia|].
    rewrite Ha. simpl. rewrite Hb. simpl. rewrite takes_left_spec by done.
    rewrite (slice_cons files s1 e1 a), (slice_cons files s2 e2 b) by (done || lia). rewrite list_merge_cons.
    case_bool_decide as Hab.
    + rewrite decide_True by done. rewrite IH by lia. rewrite (slice_cons files s2 e2 b) by (done || lia).
      by rewrite <- app_assoc.
    + rewrite decide_False by done. rewrite IH by lia. rewrite (slice_cons files s1 e1 a) by (done || lia).
      by rewrite <- app_assoc.
  - rewrite !read_range_slice by lia. simpl. do 2 f_equal.
    apply andb_false_iff in E as [E|E]; bool_prop.
    + rewrite (slice_nil files s1) by lia. by rewrite list_merge_nil_l.
    + rewrite (slice_nil files s2) by lia. by rewrite list_merge_nil_r, app_nil_r.
Qed.

Lemma write_back_spec files tmp s e : 0 ≤ s → s ≤ e + 1 → e < Z.of_nat (length files) →
  length tmp = Z.to_nat (e + 1 - s) → write_back files tmp s e = Some (splice files s tmp).
Proof.
  intros Hs Hse He Hl. unfold write_back. replace (e - s + 1) with (e + 1 - s) by lia.
  rewrite <- (Z2Nat.id (e + 1 - s)) by lia. rewrite <- Hl.
  assert (∀ n, (n ≤ length tmp)%nat →
    foldl (λ ofs i, fs ← ofs; f ← getZ tmp (i - s); _ ← getZ fs i; Some (setZ fs i f)) (Some files) (seqZ s (Z.of_nat n))
    = Some (splice files s (take n tmp))) as Hn.
  { induction n as [|n IH]; intros Hle.
    { simpl. unfold splice. rewrite take_0. simpl. by rewrite Nat.add_0_r, take_drop. }
    replace (Z.of_nat (S n)) with (Z.of_nat n + 1) by lia. rewrite seqZ_app, foldl_app, IH by lia.
    destruct (lookup_lt_is_Some_2 tmp n) as [f Hf]; [lia|].
    rewrite seqZ_cons, seqZ_nil by lia. simpl.
    assert (getZ tmp (s + Z.of_nat n - s) = Some f) as ->.
    { unfold getZ. rewrite decide_True by lia. rewrite <- Hf. f_equal. lia. }
    simpl. assert (length (take n tmp) = n) as Ln by (rewrite length_take; lia).
    assert (length (take (Z.to_nat s) files) = Z.to_nat s) as Ls by (rewrite length_take; lia).
    destruct (getZ_is_Some (splice files s (take n tmp)) (s + Z.of_nat n)) as [x ->].
    { unfold splice. rewrite !length_app, length_drop, Ln, Ls. lia. }
    simpl. f_equal. unfold setZ, splice. rewrite decide_True by lia. rewrite (take_S_r _ _ _ Hf), !length_app, Ln. simpl.
    destruct (lookup_lt_is_Some_2 files (Z.to_nat s + n)) as [y Hy]; [lia|].
    rewrite (drop_S _ _ _ Hy). replace (Z.to_nat (s + Z.of_nat n)) with (Z.to_nat s + n)%nat by lia.
    rewrite insert_app_r_alt by lia. f_equal. rewrite Ls. replace (Z.to_nat s + n - Z.to_nat s)%nat with n by lia.
    rewrite insert_app_r_alt by lia. rewrite Ln, Nat.sub_diag. simpl. rewrite <- app_assoc. simpl.
    do 3 f_equal. lia. }
  rewrite Hn by lia. by rewrite firstn_all.
Qed.

Lemma merge_spec w files s e : 0 ≤ w ≤ 2 → 0 ≤ s < e → e < Z.of_nat (length files) →
  let mid := Z.quot (s + e) 2 in
  merge files s e w = Some (splice files s
    (list_merge (way_le w) (slice files s (mid + 1)) (slice files (mid + 1) (e + 1)))).
Proof.
  intros Hw Hs He mid. assert (s ≤ mid < e) as Hm.
  { unfold mid. rewrite Z.quot_div_nonneg by lia. div_lia. }
  unfold merge. fold mid. rewrite merge_loop_spec by lia. simpl. apply write_back_spec; [lia..|].
  rewrite merge_Permutation, length_app, !length_slice by lia. lia.
Qed.
