(* ===== verification/SortMergeProof.v ===== *)
(** The merge sorts sort: the sequential one is stable, and the fork/join one
    ends in a sorted array whatever the order its threads run in. *)
From S2P Require Import Prelude SortBase SortCount SortCountWhole SortMerge.

(** ** Splitting arrays *)

Lemma range_split (files : list File) s e : 0 ≤ s → s ≤ e + 1 → e < Z.of_nat (length files) →
  ∃ P Q, files = P ++ slice files s (e + 1) ++ Q ∧ Z.of_nat (length P) = s ∧
         Z.of_nat (length (slice files s (e + 1))) = e + 1 - s.
Proof.
  intros Hs Hse He. exists (take (Z.to_nat s) files), (drop (Z.to_nat (e + 1)) files). split; [|split].
  - unfold slice. rewrite <- (take_drop (Z.to_nat s) files) at 1. f_equal.
    rewrite <- (take_drop (Z.to_nat (e + 1 - s)) (drop (Z.to_nat s) files)) at 1. f_equal.
    rewrite drop_drop. f_equal. lia.
  - rewrite length_take. lia.
  - rewrite length_slice by lia. lia.
Qed.

Lemma slice_mid (P A Q : list File) s e : Z.of_nat (length P) = s → Z.of_nat (length A) = e - s →
  slice (P ++ A ++ Q) s e = A.
Proof.
  intros HP HA. unfold slice. rewrite drop_app_length' by lia. apply take_app_length'. lia.
Qed.

Lemma splice_mid (P A A' Q : list File) s : Z.of_nat (length P) = s → length A' = length A →
  splice (P ++ A ++ Q) s A' = P ++ A' ++ Q.
Proof.
  intros HP HA. unfold splice. rewrite take_app_length' by lia. do 2 f_equal.
  rewrite app_assoc. apply drop_app_length'. rewrite length_app. lia.
Qed.

(** ** Merging sorted lists *)

Section merging.
Context (w : Z) (Hw : 0 ≤ w ≤ 2).
Notation R := (way_le w).

(** [x] and [y] have equal keys. *)
Definition ties (w : Z) (x y : File) : Prop := way_le w x y ∧ way_le w y x.
Global Instance ties_dec x : ∀ y, Decision (ties w x y).
Proof. intros y. unfold ties. apply _. Defined.

Lemma merge_strong l1 l2 : Forall file_wf (l1 ++ l2) → StronglySorted R l1 → StronglySorted R l2 →
  StronglySorted R (list_merge R l1 l2).
Proof.
  revert l2. induction l1 as [|x1 l1 IH1]; intros l2 Hwf H1 H2; [by rewrite list_merge_nil_l|].
  induction l2 as [|x2 l2 IH2]; [by rewrite list_merge_nil_r|].
  rewrite list_merge_cons. apply StronglySorted_inv in H1 as [S1 F1]. pose proof H2 as H2'.
  apply StronglySorted_inv in H2 as [S2 F2].
  assert (∀ y, y ∈ x1 :: l1 ++ x2 :: l2 → file_wf y) as Hin by (by rewrite <- Forall_forall).
  rewrite Forall_forall in F1, F2.
  assert (file_wf x1) as W1 by (apply Hin; by left).
  assert (file_wf x2) as W2 by (apply Hin; right; apply elem_of_app; right; by left).
  case_decide as Hx.
  - constructor.
    + apply IH1; [by apply Forall_cons in Hwf as [_ ?]|done|done].
    + rewrite Forall_forall. intros y. rewrite merge_Permutation. intros [Hy|[->|Hy]%elem_of_cons]%elem_of_app; [by apply F1|done|].
      apply (way_le_trans w x1 x2 y); [done|done| |exact Hx|by apply F2].
      apply Hin. right. apply elem_of_app. right. by right.
  - destruct (way_le_total w x1 x2 Hw) as [?|Hx']; [done|]. constructor.
    + apply IH2; [|done]. revert Hwf. simpl. rewrite !Forall_cons, !Forall_app, Forall_cons. tauto.
    + rewrite Forall_forall. intros y. rewrite merge_Permutation.
      intros [[->|Hy]%elem_of_cons|Hy]%elem_of_app; [done| |by apply F2].
      apply (way_le_trans w x2 x1 y); [done|done| |exact Hx'|by apply F1].
      apply Hin. right. apply elem_of_app. by left.
Qed.

Lemma merge_stable x l1 l2 : Forall file_wf (x :: l1 ++ l2) → StronglySorted R l1 → StronglySorted R l2 →
  filter (ties w x) (list_merge R l1 l2) = filter (ties w x) l1 ++ filter (ties w x) l2.
Proof.
  revert l2. induction l1 as [|x1 l1 IH1]; intros l2 Hwf H1 H2; [by rewrite list_merge_nil_l|].
  induction l2 as [|x2 l2 IH2]; [by rewrite list_merge_nil_r, filter_nil, app_nil_r|].
  rewrite list_merge_cons. pose proof H1 as H1'. apply StronglySorted_inv in H1 as [S1 F1].
  assert (∀ y, y ∈ x :: x1 :: l1 ++ x2 :: l2 → file_wf y) as Hin by (by rewrite <- Forall_forall).
  assert (file_wf x ∧ file_wf x1 ∧ file_wf x2) as (Wx & W1 & W2).
  { split; [apply Hin; by left|]. split; [apply Hin; right; by left|].
    apply Hin. do 2 right. apply elem_of_app. right. by left. }
  case_decide as Hx.
  - rewrite !(filter_cons _ x1), IH1 by (try done; revert Hwf; simpl; rewrite !Forall_cons; tauto).
    case_decide; done.
  - apply StronglySorted_inv in H2 as [S2 F2].
    rewrite (filter_cons _ x2), IH2 by (try done; revert Hwf; simpl; rewrite !Forall_cons, !Forall_app, Forall_cons; tauto).
    rewrite (filter_cons _ x2 l2). case_decide as Ht; [|done].
    rewrite (filter_none (ties w x) (x1 :: l1)); [done|].
    intros y Hy [Hxy Hyx]. apply Hx. destruct Ht as [Hx2 _].
    assert (file_wf y) as Wy.
    { apply Hin. right. apply elem_of_cons in Hy as [->|Hy]; [by left|right; apply elem_of_app; by left]. }
    rewrite Forall_forall in F1. apply (way_le_trans w x1 x x2); [done..| |done].
    apply elem_of_cons in Hy as [->|Hy]; [done|]. apply (way_le_trans w x1 y x); [done..|by apply F1|done].
Qed.
End merging.

(** ** The sequential merge sort *)

Section sorts.
Context (w : Z) (Hw : 0 ≤ w ≤ 2).
Notation R := (way_le w).

Definition stable_sort_of (seg seg' : list File) : Prop :=
  seg' ≡ₚ seg ∧ StronglySorted R seg' ∧
  ∀ x, file_wf x → filter (ties w x) seg' = filter (ties w x) seg.

Lemma stable_merge A A' B B' : Forall file_wf (A ++ B) → stable_sort_of A A' → stable_sort_of B B' →
  stable_sort_of (A ++ B) (list_merge R A' B').
Proof.
  intros Hwf (PA & SA & TA) (PB & SB & TB).
  assert (Forall file_wf (A' ++ B')) as Hwf' by (by rewrite PA, PB).
  split; [by rewrite merge_Permutation, PA, PB|]. split; [by apply merge_strong|].
  intros x Hx. rewrite merge_stable, filter_app, TA, TB by (done || by constructor). done.
Qed.

Lemma mid_range s e : 0 ≤ s < e → s ≤ Z.quot (s + e) 2 < e.
Proof. intros. rewrite Z.quot_div_nonneg by lia. div_lia. Qed.

(** Merging two sorted halves in place. *)
Lemma merge_halves (P A B Q : list File) s e :
  Z.of_nat (length P) = s → s < e → Z.of_nat (length A) = Z.quot (s + e) 2 + 1 - s →
  Z.of_nat (length B) = e - Z.quot (s + e) 2 →
  merge (P ++ A ++ B ++ Q) s e w = Some (P ++ list_merge R A B ++ Q).
Proof.
  intros HP Hse HA HB. pose proof (mid_range s e ltac:(lia)).
  rewrite merge_spec by (rewrite ?length_app; lia). cbv zeta. f_equal.
  rewrite (slice_mid P A (B ++ Q)) by lia.
  replace (P ++ A ++ B ++ Q) with ((P ++ A) ++ B ++ Q) by (by rewrite <- app_assoc).
  rewrite (slice_mid (P ++ A) B Q) by (rewrite ?length_app; lia).
  replace ((P ++ A) ++ B ++ Q) with (P ++ (A ++ B) ++ Q) by (by rewrite <- !app_assoc).
  apply splice_mid; [done|]. by rewrite merge_Permutation.
Qed.

Lemma merge_sort_seq fuel : ∀ P seg Q s e,
  Z.of_nat (length P) = s → Z.of_nat (length seg) = e + 1 - s → s ≤ e → Forall file_wf seg →
  (Z.to_nat (e - s) < fuel)%nat →
  ∃ seg', merge_sort_non_distributed fuel (P ++ seg ++ Q) s e w = Some (P ++ seg' ++ Q) ∧
    stable_sort_of seg seg'.
Proof.
  induction fuel as [|fuel IH]; intros P seg Q s e HP Hseg Hse Hwf Hf; [lia|]. cbn [merge_sort_non_distributed].
  destruct (s =? e) eqn:E; bool_prop.
  { exists seg. split; [done|]. destruct seg as [|f [|f' seg]]; simpl in *; try lia.
    split; [done|]. split; [repeat constructor|done]. }
  pose proof (mid_range s e ltac:(lia)) as Hm. set (mid := Z.quot (s + e) 2) in *.
  rewrite <- (take_drop (Z.to_nat (mid + 1 - s)) seg) in Hwf |- *.
  set (A := take (Z.to_nat (mid + 1 - s)) seg) in *. set (B := drop (Z.to_nat (mid + 1 - s)) seg) in *.
  assert (Z.of_nat (length A) = mid + 1 - s) as HA by (unfold A; rewrite length_take; lia).
  assert (Z.of_nat (length B) = e - mid) as HB by (unfold B; rewrite length_drop; lia).
  apply Forall_app in Hwf as [WA WB]. rewrite <- app_assoc.
  destruct (IH P A (B ++ Q) s mid) as (A' & -> & SA); [lia..|done|lia|]. simpl.
  assert (length A' = length A) as LA by (apply Permutation_length, SA).
  rewrite (app_assoc P A').
  destruct (IH (P ++ A') B Q (mid + 1) e) as (B' & -> & SB); [rewrite length_app; lia|lia|lia|done|lia|]. simpl.
  assert (length B' = length B) as LB by (apply Permutation_length, SB).
  rewrite <- app_assoc. rewrite merge_halves by (fold mid; lia).
  exists (list_merge R A' B'). split; [done|]. apply stable_merge; [|done..]. by apply Forall_app.
Qed.

(** ** The fork/join merge sort *)

Context (flag : Z) (max_level : Z) (cmp : File → File → Z) (Hcmp : get_comparison_function flag = Some cmp).

(** What is known of the segment of a task: a finished one is sorted. *)
Fixpoint task_ok (t : mtask) (s e : Z) (seg : list File) : Prop :=
  Z.of_nat (length seg) = e + 1 - s ∧ s ≤ e ∧
  match t with
  | MRun s' e' level => s' = s ∧ e' = e ∧ level ≤ max_level
  | MPar l r s' e' => s' = s ∧ e' = e ∧ s < e ∧
      ∃ A B, seg = A ++ B ∧ task_ok l s (Z.quot (s + e) 2) A ∧ task_ok r (Z.quot (s + e) 2 + 1) e B
  | MDone => StronglySorted R seg
  end.

Lemma task_ok_len t s e seg : task_ok t s e seg → Z.of_nat (length seg) = e + 1 - s ∧ s ≤ e.
Proof. destruct t; simpl; tauto. Qed.

Definition cmp_agrees (seg : list File) : Prop :=
  ∀ a b, a ∈ seg → b ∈ seg → cmp a b ≤ 0 ↔ R a b.

Lemma strong_agree seg : cmp_agrees seg → StronglySorted (λ a b, cmp a b ≤ 0) seg ↔ StronglySorted R seg.
Proof.
  induction seg as [|a seg IH]; intros Hc; [split; constructor|]. rewrite !StronglySorted_cons.
  rewrite IH by (intros x y Hx Hy; apply Hc; by right).
  assert (Forall (λ b, cmp a b ≤ 0) seg ↔ Forall (R a) seg) as ->; [|done].
  rewrite !Forall_forall. split; intros H' b Hb; apply Hc; (by left || by right || by apply H').
Qed.

Lemma mstep_ok t fs σ' : mstep w flag max_level (fs, t) σ' → ∀ P seg Q s e,
  fs = P ++ seg ++ Q → Z.of_nat (length P) = s → task_ok t s e seg → Forall file_wf seg → cmp_agrees seg →
  ∃ seg', σ'.1 = P ++ seg' ++ Q ∧ seg' ≡ₚ seg ∧ task_ok σ'.2 s e seg'.
Proof.
  intros Hs. remember (fs, t) as σ eqn:Eσ. revert fs t Eσ.
  induction Hs as [fs s0 level|fs s0 e0 level Hne Hlv mid|fs s0 e0 level seg' Hne Hlv Hq|fs fs' l l' r s0 e0 Hs IH|fs fs' l r r' s0 e0 Hs IH|fs fs' s0 e0 Hm];
    intros fs0 t0 [= <- <-] P seg Q s e Efs HP Hok Hwf Hc; simpl in Hok |- *.
  - destruct Hok as (Hlen & Hse & -> & -> & Hlv). exists seg. split; [done|]. split; [done|]. split; [done|].
    split; [done|]. destruct seg as [|f [|f' seg]]; simpl in *; try lia. repeat constructor.
  - destruct Hok as (Hlen & Hse & -> & -> & _). exists seg. split; [done|]. split; [done|].
    pose proof (mid_range s e ltac:(lia)) as Hm. fold mid in Hm |- *.
    split; [done|]. split; [done|]. split; [done|]. split; [done|]. split; [lia|].
    exists (take (Z.to_nat (mid + 1 - s)) seg), (drop (Z.to_nat (mid + 1 - s)) seg).
    rewrite take_drop, length_take, length_drop. repeat split; lia.
  - destruct Hok as (Hlen & Hse & -> & -> & _). unfold qsort in Hq. rewrite Hcmp in Hq. destruct Hq as [Hp Hst].
    subst fs. rewrite slice_mid in Hp by lia. exists seg'. rewrite splice_mid by (done || by apply Permutation_length).
    split; [done|]. split; [done|]. split; [by rewrite Hp|]. split; [done|].
    apply strong_agree; [|done]. intros a b. rewrite Hp. apply Hc.
  - destruct Hok as (Hlen & Hse & -> & -> & Hlt & A & B & -> & HA & HB).
    apply Forall_app in Hwf as [WA WB]. destruct (IH fs l eq_refl P A (B ++ Q) s (Z.quot (s + e) 2)) as (A' & EA & PA & HA'); try done.
    { by rewrite Efs, <- app_assoc. }
    { intros a b Ha Hb. apply Hc; apply elem_of_app; by left. }
    simpl in EA, HA'. exists (A' ++ B). split; [by rewrite EA, <- app_assoc|]. split; [by rewrite PA|].
    split; [by rewrite PA|]. split; [done|]. split; [done|]. split; [done|]. split; [done|]. by exists A', B.
  - destruct Hok as (Hlen & Hse & -> & -> & Hlt & A & B & -> & HA & HB).
    apply Forall_app in Hwf as [WA WB]. destruct (task_ok_len _ _ _ _ HA) as [LA _].
    destruct (IH fs r eq_refl (P ++ A) B Q (Z.quot (s + e) 2 + 1) e) as (B' & EB & PB & HB'); try done.
    { by rewrite Efs, <- !app_assoc. }
    { rewrite length_app. lia. }
    { intros a b Ha Hb. apply Hc; apply elem_of_app; by right. }
    simpl in EB, HB'. exists (A ++ B'). split; [by rewrite EB, <- !app_assoc|]. split; [by rewrite PB|].
    split; [by rewrite PB|]. split; [done|]. split; [done|]. split; [done|]. split; [done|]. by exists A, B'.
  - destruct Hok as (Hlen & Hse & -> & -> & Hlt & A & B & -> & (LA & _ & SA) & (LB & _ & SB)).
    rewrite <- app_assoc in Efs. subst fs. rewrite merge_halves in Hm by lia. injection Hm as <-.
    exists (list_merge R A B). split; [done|]. split; [apply merge_Permutation|].
    split; [by rewrite merge_Permutation|]. split; [done|]. by apply merge_strong.
Qed.

(** A task that has not returned can take a step. *)
Lemma mstep_progress t : ∀ fs P seg Q s e,
  fs = P ++ seg ++ Q → Z.of_nat (length P) = s → task_ok t s e seg → Forall file_wf seg → cmp_agrees seg →
  t = MDone ∨ ∃ σ', mstep w flag max_level (fs, t) σ'.
Proof.
  induction t as [s0 e0 level|l IHl r IHr s0 e0|]; intros fs P seg Q s e Efs HP Hok Hwf Hc; simpl in Hok; [right|right|by left].
  - destruct Hok as (Hlen & Hse & -> & -> & Hlv). destruct (decide (s = e)) as [->|Hne]; [eexists; apply m_single|].
    destruct (decide (level < max_level)); [eexists; by apply m_fork|].
    destruct (merge_sort_seq (S (Z.to_nat (e - s))) P seg Q s e) as (seg' & _ & Hp & Hst & _); [done..|lia|].
    eexists. apply (m_qsort _ _ _ fs s e level seg'); [done..|]. unfold qsort. rewrite Hcmp.
    subst fs. rewrite slice_mid by lia. split; [done|]. apply strong_agree; [|done]. intros a b. rewrite Hp. apply Hc.
  - destruct Hok as (Hlen & Hse & -> & -> & Hlt & A & B & -> & HA & HB). apply Forall_app in Hwf as [WA WB].
    destruct (task_ok_len _ _ _ _ HA) as [LA _]. destruct (task_ok_len _ _ _ _ HB) as [LB _].
    assert (fs = P ++ A ++ B ++ Q) as EA by (by rewrite Efs, <- app_assoc).
    destruct (IHl fs P A (B ++ Q) s (Z.quot (s + e) 2)) as [->|[[fs' l'] Hs]]; try done.
    { intros a b Ha Hb. apply Hc; apply elem_of_app; by left. }
    2:{ eexists. by apply m_left. }
    destruct (IHr fs (P ++ A) B Q (Z.quot (s + e) 2 + 1) e) as [->|[[fs' r'] Hs]]; try done.
    { by rewrite EA, <- !app_assoc. }
    { rewrite length_app. lia. }
    { intros a b Ha Hb. apply Hc; apply elem_of_app; by right. }
    2:{ eexists. by apply m_right. }
    eexists. apply m_merge. rewrite EA. apply merge_halves; lia.
Qed.

(** Steps a tree of tasks can still take. *)
Fixpoint run_weight (k : nat) : nat := match k with O => 1 | S k' => 2 * run_weight k' + 2 end.
Fixpoint task_measure (t : mtask) : nat :=
  match t with
  | MRun _ _ level => run_weight (Z.to_nat (max_level - level))
  | MPar l r _ _ => S (task_measure l + task_measure r)
  | MDone => 0
  end.

Lemma run_weight_pos k : (0 < run_weight k)%nat.
Proof. destruct k; simpl; lia. Qed.

Lemma mstep_measure σ σ' : mstep w flag max_level σ σ' → (task_measure σ'.2 < task_measure σ.2)%nat.
Proof.
  induction 1; simpl in *; try lia; try apply run_weight_pos.
  replace (Z.to_nat (max_level - level)) with (S (Z.to_nat (max_level - (level + 1)))) by lia. simpl. lia.
Qed.

(** The state of a whole sort of [files]. *)
Definition msort_inv (files : list File) (σ : list File * mtask) : Prop :=
  σ.1 ≡ₚ files ∧ task_ok σ.2 0 (Z.of_nat (length files) - 1) σ.1.

Lemma msort_start files : files ≠ [] → 0 ≤ max_level →
  msort_inv files (files, MRun 0 (Z.of_nat (length files) - 1) 0).
Proof.
  intros Hne Hm. assert (0 < length files)%nat by (destruct files; [done|simpl; lia]).
  split; [done|]. simpl. lia.
Qed.

Lemma msort_step files σ σ' : Forall file_wf files → cmp_agrees files →
  msort_inv files σ → mstep w flag max_level σ σ' → msort_inv files σ'.
Proof.
  intros Hwf Hc [Hp Hok] Hs. destruct σ as [fs t].
  destruct (mstep_ok t fs σ' Hs [] fs [] 0 (Z.of_nat (length files) - 1)) as (seg' & E & Hp' & Hok'); try done.
  - by rewrite app_nil_r.
  - simpl in Hp. by rewrite Hp.
  - intros a b. simpl in Hp. rewrite Hp. apply Hc.
  - rewrite app_nil_r in E. simpl in *. split; [by rewrite E, Hp'|]. by rewrite E.
Qed.

Lemma msort_progress files σ : Forall file_wf files → cmp_agrees files → msort_inv files σ →
  σ.2 = MDone ∨ ∃ σ', mstep w flag max_level σ σ'.
Proof.
  intros Hwf Hc [Hp Hok]. destruct σ as [fs t]. simpl in *.
  apply (mstep_progress t fs [] fs [] 0 (Z.of_nat (length files) - 1)); try done.
  - by rewrite app_nil_r.
  - by rewrite Hp.
  - intros a b. rewrite Hp. apply Hc.
Qed.
End sorts.
