(* ===== verification/SortProps.v ===== *)
(** concurrency/partB.c, [lazy_sort]: the choice between the two distributed
    sorts, as one transition system, and the properties of the lazy sorter,
    each with its witness. *)
From S2P Require Import Prelude SortBase SortCount SortCountInv SortCountSort SortCountProof SortCountWhole.
From S2P Require Import SortKeys SortMerge SortMergeProof.

(** ** Definitions *)

Inductive lstate :=
| LCount (d : dstate)
| LMerge (m : list File * mtask).

(** Where [lazy_sort] starts, and the bucket index of its count sort. *)
Definition lazy_sort (mktime_of : list Z → Z) (sort_column_flag sort_way : Z) (files : list File) :
    option (lstate * (File → Z)) :=
  let total_files := Z.of_nat (length files) in
  if total_files <? LAZY_THRESHOLD then
    g ← get_max_min_values mktime_of sort_column_flag files;
    Some (LCount (d_start files g), bucket_index mktime_of sort_column_flag g)
  else if total_files =? 1 then Some (LMerge (files, MDone), λ _, 0)
  else Some (LMerge (files, MRun 0 (total_files - 1) 0), λ _, 0).

(** A step of one of the threads at work. *)
Inductive lstep (sort_column_flag sort_way : Z) (files : list File) (idx : File → Z) : lstate → lstate → Prop :=
| l_count d d' : dstep 0 files idx d d' → lstep sort_column_flag sort_way files idx (LCount d) (LCount d')
| l_merge m m' : mstep sort_way sort_column_flag MAX_LEVEL_MERGE_SORT m m' →
    lstep sort_column_flag sort_way files idx (LMerge m) (LMerge m').

Definition lazy_result (σ : lstate) : option (list File) :=
  match σ with
  | LCount (DDone fs) => Some fs
  | LMerge (fs, MDone) => Some fs
  | _ => None
  end.

(** ** Lemmas *)

(** A bound on the number of steps from a measure that each step of the
    reachable states lowers. *)
Lemma measure_bound {A} (step : relation A) (I : A → Prop) (m : A → nat) :
  (∀ x y, I x → step x y → I y ∧ (m y < m x)%nat) →
  ∀ n x y, I x → nsteps step n x y → I y ∧ (n + m y ≤ m x)%nat.
Proof.
  intros Hstep n x y Hx Hn. induction Hn as [x|n x y z Hxy Hyz IH]; [split; [done|lia]|].
  destruct (Hstep x y Hx Hxy) as [Hy Hm]. destruct (IH Hy). split; [done|lia].
Qed.

Lemma inv_rtc {A} (step : relation A) (I : A → Prop) :
  (∀ x y, I x → step x y → I y) → ∀ x y, I x → rtc step x y → I y.
Proof. intros Hs x y Hx Hr. induction Hr; eauto. Qed.

Section lazy.
Context (files : list File) (Hne : files ≠ []) (Hlen : Z.of_nat (length files) + 1 < 2 ^ 31).
Context (flag : Z) (idx : File → Z) (K : Z) (Hidx : ∀ f, f ∈ files → 0 ≤ idx f ≤ K).

Lemma count_start_inv g : K = i32 (max_value g - min_value g) → 0 ≤ K < 2 ^ 31 - 2 → d_inv files idx K (d_start files g).
Proof.
  intros EK HK. unfold d_start. rewrite (init_global_count_ok _ _ K EK HK).
  split; [by apply init_inv|]. cbn [fst]. by rewrite length_replicate.
Qed.

(** Total correctness of the distributed count sort, for any bucket index. *)
Lemma count_sort_total g : K = i32 (max_value g - min_value g) → 0 ≤ K < 2 ^ 31 - 2 →
  (∀ σ, rtc (dstep 0 files idx) (d_start files g) σ →
     (∃ fs, σ = DDone fs ∧ sorted_result files idx fs) ∨ ∃ σ', dstep 0 files idx σ σ') ∧
  (∀ n σ, nsteps (dstep 0 files idx) n (d_start files g) σ → (n ≤ d_measure files (d_start files g))%nat).
Proof.
  intros HK HKb. pose proof (count_start_inv g HK HKb) as H0. split.
  - intros σ Hr. assert (d_inv files idx K σ) as Hinv.
    { eapply inv_rtc; [|exact H0|exact Hr]. intros x y. by apply d_step_inv. }
    destruct (d_progress files idx K Hidx σ Hinv) as [[fs ->]|?]; [left|by right]. by exists fs.
  - intros n σ Hn. destruct (measure_bound (dstep 0 files idx) (d_inv files idx K) (d_measure files)) with n (d_start files g) σ
      as [_ Hle]; try done; [|lia].
    intros x y Hx Hs. split; [by eapply d_step_inv|by eapply d_step_measure].
Qed.

(** Total correctness of the fork/join merge sort. *)
Lemma merge_sort_total w cmp max_level : 0 ≤ w ≤ 2 → 0 ≤ max_level → get_comparison_function flag = Some cmp →
  Forall file_wf files → cmp_agrees w cmp files →
  let σ0 := (files, MRun 0 (Z.of_nat (length files) - 1) 0) in
  (∀ σ, rtc (mstep w flag max_level) σ0 σ →
     (σ.2 = MDone ∧ σ.1 ≡ₚ files ∧ StronglySorted (way_le w) σ.1) ∨ ∃ σ', mstep w flag max_level σ σ') ∧
  (∀ n σ, nsteps (mstep w flag max_level) n σ0 σ → (n ≤ task_measure max_level σ0.2)%nat).
Proof.
  intros Hw Hm Hcmp Hwf Hc σ0. pose proof (msort_start w max_level files Hne Hm) as H0. split.
  - intros σ Hr. assert (msort_inv w max_level files σ) as Hinv.
    { eapply inv_rtc; [|exact H0|exact Hr]. intros x y. by eapply msort_step. }
    destruct (msort_progress w Hw flag max_level cmp Hcmp files σ Hwf Hc Hinv) as [E|?]; [left|by right].
    destruct Hinv as [Hp Hok]. rewrite E in Hok. simpl in Hok. destruct Hok as (_ & _ & Hs). done.
  - intros n σ Hn. destruct (measure_bound (mstep w flag max_level) (λ _, True) (λ σ, task_measure max_level σ.2)) with n σ0 σ
      as [_ Hle]; try done; [|lia].
    intros x y _ Hs. split; [done|]. by eapply mstep_measure.
Qed.
End lazy.

Lemma lstep_count flag w files idx d σ : rtc (lstep flag w files idx) (LCount d) σ →
  ∃ d', σ = LCount d' ∧ rtc (dstep 0 files idx) d d'.
Proof.
  intros Hr. remember (LCount d) as σ0 eqn:E. revert d E.
  induction Hr as [σ0|σ0 σ1 σ2 Hs Hr IH]; intros d ->; [exists d; split; [done|apply rtc_refl]|].
  inversion Hs as [d1 d2 Hd|]; subst. destruct (IH d2 eq_refl) as (d' & -> & Hr').
  exists d'. split; [done|]. by eapply rtc_l.
Qed.

Lemma lstep_merge flag w files idx m σ : rtc (lstep flag w files idx) (LMerge m) σ →
  ∃ m', σ = LMerge m' ∧ rtc (mstep w flag MAX_LEVEL_MERGE_SORT) m m'.
Proof.
  intros Hr. remember (LMerge m) as σ0 eqn:E. revert m E.
  induction Hr as [σ0|σ0 σ1 σ2 Hs Hr IH]; intros m ->; [exists m; split; [done|apply rtc_refl]|].
  inversion Hs as [|m1 m2 Hm]; subst. destruct (IH m2 eq_refl) as (m' & -> & Hr').
  exists m'. split; [done|]. by eapply rtc_l.
Qed.

Lemma nsteps_count flag w files idx n d σ : nsteps (lstep flag w files idx) n (LCount d) σ →
  ∃ d', σ = LCount d' ∧ nsteps (dstep 0 files idx) n d d'.
Proof.
  intros Hr. remember (LCount d) as σ0 eqn:E. revert d E.
  induction Hr as [σ0|n σ0 σ1 σ2 Hs Hr IH]; intros d ->; [exists d; split; [done|constructor]|].
  inversion Hs as [d1 d2 Hd|]; subst. destruct (IH d2 eq_refl) as (d' & -> & Hr').
  exists d'. split; [done|]. by econstructor.
Qed.

Lemma nsteps_merge flag w files idx n m σ : nsteps (lstep flag w files idx) n (LMerge m) σ →
  ∃ m', σ = LMerge m' ∧ nsteps (mstep w flag MAX_LEVEL_MERGE_SORT) n m m'.
Proof.
  intros Hr. remember (LMerge m) as σ0 eqn:E. revert m E.
  induction Hr as [σ0|n σ0 σ1 σ2 Hs Hr IH]; intros m ->; [exists m; split; [done|constructor]|].
  inversion Hs as [|m1 m2 Hm]; subst. destruct (IH m2 eq_refl) as (m' & -> & Hr').
  exists m'. split; [done|]. by econstructor.
Qed.

Lemma strong_impl {A} (R1 R2 : relation A) (l : list A) : (∀ a b, a ∈ l → b ∈ l → R1 a b → R2 a b) →
  StronglySorted R1 l → StronglySorted R2 l.
Proof.
  induction l as [|a l IH]; intros Hi; [constructor|]. rewrite !StronglySorted_cons. intros [F S]. split.
  - rewrite Forall_forall in *. intros b Hb. apply Hi; [by left|by right|by apply F].
  - apply IH; [|done]. intros x y Hx Hy. apply Hi; by right.
Qed.

(** ids that are less than 2^31 - 2 apart: an [int] holds the number of slots of
    [global_count] *)
Definition ids_close (files : list File) : Prop := ∀ a b, a ∈ files → b ∈ files → id a - id b < 2 ^ 31 - 2.

Lemma cmp_id_agrees files : ids_close files → cmp_agrees 1 compare_by_id files.
Proof.
  intros Hd a b Ha Hb. pose proof (Hd a b Ha Hb). pose proof (Hd b a Hb Ha).
  unfold compare_by_id, way_le, takes_left. simpl. split.
  - intros Hle. f_equal. apply Z.leb_le. unfold i32 in Hle.
    destruct (decide (id a - id b = - 2 ^ 31)); [lia|]. fold (i32 (id a - id b)) in Hle. rewrite i32_small in Hle; lia.
  - intros [= Hle%Z.leb_le]. destruct (decide (id a - id b = - 2 ^ 31)) as [->|]; [done|]. rewrite i32_small; lia.
Qed.

(** The bucket indices of [distributed_count_sort] are an order on the ids. *)
Lemma result_by_id mktime_of files g fs : get_max_min_values mktime_of 1 files = Some g → ids_close files →
  sorted_result files (bucket_index mktime_of 1 g) fs → fs ≡ₚ files ∧ StronglySorted (λ a b, id a ≤ id b) fs.
Proof.
  intros Hg Hd [Hp Hs]. split; [done|]. revert Hs. apply strong_impl. intros a b Ha Hb. rewrite Hp in Ha, Hb.
  destruct (id_index mktime_of 1 ltac:(done) files g Hg Hd) as (_ & _ & Hi). unfold by_index.
  destruct (Hi a Ha) as [-> _], (Hi b Hb) as [-> _]. lia.
Qed.


(** Three small files. *)
Definition example_files : list File := [mkFile [102] 7 [50]; mkFile [103] 3 [49]; mkFile [104] 7 [51]].


(** [distributed_count_sort] by timestamp sorts as [strcmp] orders the
    timestamps, under every interleaving, provided [mktime] is increasing in
    the timestamp strings and these span less than 2^31 - 2 seconds. *)
Theorem count_sort_sorts_by_timestamp mktime_of files g :
  get_max_min_values mktime_of 2 files = Some g →
  Z.of_nat (length files) + 1 < 2 ^ 31 → Forall file_wf files →
  (∀ a b, a ∈ files → b ∈ files → strcmp (timestamp a) (timestamp b) < 0 →
     mktime_of (timestamp a) < mktime_of (timestamp b)) →
  (∀ a b, a ∈ files → b ∈ files → mktime_of (timestamp a) - mktime_of (timestamp b) < 2 ^ 31 - 2) →
  let step := dstep 0 files (bucket_index mktime_of 2 g) in
  (∀ σ, rtc step (d_start files g) σ →
     (∃ fs, σ = DDone fs ∧ fs ≡ₚ files ∧
        StronglySorted (λ a b, strcmp (timestamp a) (timestamp b) ≤ 0) fs) ∨
     ∃ σ', step σ σ') ∧
  ∃ bound, ∀ n σ, nsteps step n (d_start files g) σ → (n ≤ bound)%nat.
Proof.
  intros Hg Hlen Hwf Hmono Hd step.
  assert (Forall (λ f, cstring (timestamp f)) files) as Hc by (eapply Forall_impl; [exact Hwf|]; by intros f [_ ?]).
  destruct (ts_index mktime_of files g Hg Hc Hmono Hd) as [HKb Hi].
  destruct (count_sort_total files Hlen (bucket_index mktime_of 2 g) (i32 (max_value g - min_value g))) with g as [Hsafe Hb]; [|done|done|].
  { intros f Hf. by apply Hi. }
  split; [|by eexists]. intros σ Hr. destruct (Hsafe σ Hr) as [(fs & -> & Hp & Hs)|?]; [left|by right].
  exists fs. split; [done|]. split; [done|]. revert Hs. apply strong_impl. intros a b Ha Hb'. rewrite Hp in Ha, Hb'.
  unfold by_index. destruct (Hi a Ha) as [_ ->], (Hi b Hb') as [_ ->]. intros Hle.
  destruct (decide (strcmp (timestamp a) (timestamp b) ≤ 0)) as [|Hgt]; [done|].
  pose proof (Hmono b a Hb' Ha) as Hm. pose proof (strcmp_antisym (timestamp a) (timestamp b)).
  destruct (strcmp (timestamp b) (timestamp a)); simpl in *; lia.
Qed.

Lemma count_sort_sorts_by_timestamp_witness :
  let mk := λ s, match s with [c] => c | _ => 0 end in
  ∃ g, get_max_min_values mk 2 example_files = Some g ∧
  (∀ σ, rtc (dstep 0 example_files (bucket_index mk 2 g)) (d_start example_files g) σ →
     (∃ fs, σ = DDone fs ∧ fs ≡ₚ example_files ∧
        StronglySorted (λ a b, strcmp (timestamp a) (timestamp b) ≤ 0) fs) ∨
     ∃ σ', dstep 0 example_files (bucket_index mk 2 g) σ σ').
Proof.
  intros mk. eexists. split; [reflexivity|].
  apply (count_sort_sorts_by_timestamp mk example_files _ eq_refl).
  - done.
  - repeat constructor.
  - intros a b Ha Hb. unfold example_files in *. set_unfold. destruct_or!; subst; simpl; lia.
  - intros a b Ha Hb. unfold example_files in *. set_unfold. destruct_or!; subst; simpl; lia.
Defined.

(** the fork/join [merge_sort] on any of the three columns: in every
    interleaving of its tree of threads each state but the last can take a
    step, the number of steps is bounded, and the array ends up a permutation
    of the input in the order [merge] and [qsort] agree on. *)
Theorem merge_sort_sorts files way cmp max_level :
  files ≠ [] → 0 ≤ way ≤ 2 → 0 ≤ max_level → get_comparison_function way = Some cmp →
  Forall file_wf files → (way = 1 → ids_close files) →
  let step := mstep way way max_level in
  let σ0 := (files, MRun 0 (Z.of_nat (length files) - 1) 0) in
  (∀ σ, rtc step σ0 σ →
     (σ.2 = MDone ∧ σ.1 ≡ₚ files ∧ StronglySorted (way_le way) σ.1) ∨ ∃ σ', step σ σ') ∧
  ∃ bound, ∀ n σ, nsteps step n σ0 σ → (n ≤ bound)%nat.
Proof.
  intros Hne Hw Hm Hcmp Hwf Hids step σ0.
  destruct (merge_sort_total files Hne way way cmp max_level Hw Hm Hcmp Hwf) as [Hsafe Hb]; [|split; [done|by eexists]].
  assert (way = 0 ∨ way = 1 ∨ way = 2) as [-> | [-> | ->]] by lia; injection Hcmp as <-.
  - intros a b _ _. unfold compare_by_name, way_le, takes_left. simpl. split; [intros; f_equal; by apply Z.leb_le|].
    by intros [= ?%Z.leb_le].
  - apply cmp_id_agrees. by apply Hids.
  - intros a b _ _. unfold compare_by_timestamp, way_le, takes_left. simpl. split; [intros; f_equal; by apply Z.leb_le|].
    by intros [= ?%Z.leb_le].
Qed.

Lemma merge_sort_sorts_witness :
  let step := mstep 0 0 5 in
  let σ0 := (example_files, MRun 0 2 0) in
  (∀ σ, rtc step σ0 σ →
     (σ.2 = MDone ∧ σ.1 ≡ₚ example_files ∧ StronglySorted (way_le 0) σ.1) ∨ ∃ σ', step σ σ') ∧
  ∃ bound, ∀ n σ, nsteps step n σ0 σ → (n ≤ bound)%nat.
Proof.
  apply (merge_sort_sorts example_files 0 compare_by_name 5).
  - done.
  - done.
  - done.
  - done.
  - repeat constructor.
  - done.
Defined.

(** [merge_sort_non_distributed] returns, with a stable sort of the
    array: a permutation, in order, files with equal keys in their old
    order. *)
Theorem merge_sort_non_distributed_stable files way :
  files ≠ [] → 0 ≤ way ≤ 2 → Forall file_wf files →
  ∃ fs, merge_sort_non_distributed (length files) files 0 (Z.of_nat (length files) - 1) way = Some fs ∧
    fs ≡ₚ files ∧ StronglySorted (way_le way) fs ∧
    ∀ x, file_wf x → filter (ties way x) fs = filter (ties way x) files.
Proof.
  intros Hne Hw Hwf. assert (0 < length files)%nat by (destruct files; [done|simpl; lia]).
  destruct (merge_sort_seq way Hw (length files) [] files [] 0 (Z.of_nat (length files) - 1)) as (fs & E & Hs);
    [done|lia|lia|done|lia|].
  exists fs. simpl in E. rewrite !app_nil_r in E. done.
Qed.

Lemma merge_sort_non_distributed_stable_witness :
  ∃ fs, merge_sort_non_distributed 3 example_files 0 2 1 = Some fs ∧
    fs ≡ₚ example_files ∧ StronglySorted (way_le 1) fs ∧
    ∀ x, file_wf x → filter (ties 1 x) fs = filter (ties 1 x) example_files.
Proof.
  apply (merge_sort_non_distributed_stable example_files 1).
  - done.
  - done.
  - repeat constructor.
Defined.

(** Ids that are far apart overflow the number of slots: the program starts by
    storing outside of [global_count]. *)
Lemma far_ids_crash :
  let files := [mkFile [102] 0 []; mkFile [103] (2 ^ 31 - 1) []] in
  fst <$> lazy_sort (λ _, 0) 1 1 files = Some (LCount DCrash).
Proof. by vm_compute. Qed.

(** [non_distributed_count_sort] by id returns a stable sort by id. *)
Theorem count_sort_seq_stable mktime_of files :
  files ≠ [] → Z.of_nat (length files) + 1 < 2 ^ 31 → ids_close files →
  ∃ fs, non_distributed_count_sort mktime_of 1 0 files = Some fs ∧
    fs ≡ₚ files ∧ StronglySorted (λ a b, id a ≤ id b) fs ∧
    ∀ i, filter (λ f, id f = i) fs = filter (λ f, id f = i) files.
Proof.
  intros Hne Hlen Hd. destruct (get_max_min_values mktime_of 1 files) as [g|] eqn:Hg; [|by destruct files].
  destruct (id_index mktime_of 1 ltac:(done) files g Hg Hd) as (HK & HKb & Hi).
  set (idx := bucket_index mktime_of 1 g) in *.
  destruct (count_sort_run files idx (i32 (max_value g - min_value g))) with mktime_of 1 g as (fs & E & Hres & Hst); try done.
  { intros f Hf. destruct (Hi f Hf) as [-> ?]. by rewrite HK. }
  { by rewrite HK. }
  exists fs. split; [done|]. destruct (result_by_id mktime_of files g fs Hg Hd Hres) as [Hp Hs].
  split; [done|]. split; [done|]. intros i. specialize (Hst (i - min_value g)).
  rewrite (filter_ext_in _ (λ f, idx f = i - min_value g)), Hst.
  - apply filter_ext_in. intros f Hf. destruct (Hi f Hf) as [-> _]. lia.
  - intros f Hf. rewrite Hp in Hf. destruct (Hi f Hf) as [-> _]. lia.
Qed.

Lemma count_sort_seq_stable_witness :
  ∃ fs, non_distributed_count_sort (λ _, 0) 1 0 example_files = Some fs ∧
    fs ≡ₚ example_files ∧ StronglySorted (λ a b, id a ≤ id b) fs ∧
    ∀ i, filter (λ f, id f = i) fs = filter (λ f, id f = i) example_files.
Proof.
  apply (count_sort_seq_stable (λ _, 0) example_files).
  - done.
  - done.
  - intros a b Ha Hb. unfold example_files in *. set_unfold. destruct_or!; subst; simpl; lia.
Defined.

(** The name file<letters>.txt. *)
Definition file_name (letters : list Z) : list Z := [102; 105; 108; 101] ++ letters ++ [46; 116; 120; 116].

(** sorting by name with the count sort does not sort: "fileb.txt" and
    "fileaz.txt" have the same index, 2 * 26^3, so they keep their order
    although [strcmp] puts the second first. *)
Theorem count_sort_names_collide :
  let b := mkFile (file_name [98]) 1 [] in
  let az := mkFile (file_name [97; 122]) 2 [] in
  convert_to_index (name b) = convert_to_index (name az) ∧
  strcmp (name az) (name b) < 0 ∧
  non_distributed_count_sort (λ _, 0) 0 0 [b; az] = Some [b; az].
Proof. vm_compute. done. Qed.

(** the least name is found with the case-sensitive [strcmp] but indices
    ignore case: with "fileZ.txt" and "filea.txt" the index of the second is
    negative, outside of [global_count]. *)
Theorem count_sort_names_out_of_bounds :
  let Zf := mkFile (file_name [90]) 1 [] in
  let af := mkFile (file_name [97]) 2 [] in
  ∃ g, get_max_min_values (λ _, 0) 0 [Zf; af] = Some g ∧
    bucket_index (λ _, 0) 0 g af < 0 ∧
    non_distributed_count_sort (λ _, 0) 0 0 [Zf; af] = None.
Proof. eexists. split; [reflexivity|]. vm_compute. done. Qed.
