(* ===== verification/FileManager.v ===== *)
(** concurrency/partA.c: LAZY, the file manager that serves each request in a
    thread of its own ([process_req]), with one mutex and one condition
    variable per file.

    The program is a transition system.  A thread's place in [process_req] is
    its [pc]; every operation on the mutex, the condition variable and the
    atomic request counters is a step, and so is each group of accesses to
    the file's fields between two of them, all made under the mutex.  The
    main thread starts the requests, and the clock [time(NULL) - start_time]
    moves on by itself.  The "bullet" child processes only print. *)
From S2P Require Import Prelude.

(** ** Definitions *)

Definition REQUEST_TIME_ARRAY_SIZE : Z := 100.

(** The input loop of [main] stops at this many requests. *)
Definition MAX_COUNT : Z := 10000.

Record userrequest := Req { userid : Z; fileid : Z; operation : Z; requesttime : Z }.

(** [compareByRequestTime]: by time, then by operation; the difference of the
    times is returned as an [int]. *)
Definition compareByRequestTime (a b : userrequest) : Z :=
  if negb (requesttime a =? requesttime b) then i32 (requesttime a - requesttime b)
  else i32 (operation a - operation b).

(** A [fileinfo]; [f_lock] is the thread that holds the mutex. *)
Record fileinfo := FInfo {
  f_lock : option nat;
  concurrent_access : Z;
  deleted : bool;
  readercount : Z;
  writercount : Z;
  time_requests : gmap Z Z
}.

Inductive outcome := Completed | Cancelled | Declined.

Inductive pc :=
| Sleeping               (* sleep(1) *)
| Lock1                  (* pthread_mutex_lock of the operation's branch *)
| Announce               (* locked: atomic_fetch_sub, or DELETE's first look *)
| Spin (flag_checker : bool)   (* DELETE: while(time_requests > 0) usleep(1) *)
| Relock                 (* DELETE: if(flag_checker) pthread_mutex_lock *)
| Check                  (* locked: the condition of the wait loop *)
| Waiting                (* in pthread_cond_wait *)
| Woken                  (* signalled, about to take the mutex again *)
| Decide                 (* locked: past the wait loop *)
| Leave (o : outcome)    (* locked: request refused, unlock and return *)
| Enter                  (* locked: counted in, unlock next *)
| Working                (* sleep(r) or sleep(w) *)
| Lock2
| Finish                 (* locked: count out, signal *)
| Deleting               (* locked: sleep(d) *)
| Unlock2                (* locked: unlock and return *)
| Done (o : outcome).

Global Instance outcome_eq_dec : EqDecision outcome.
Proof. solve_decision. Defined.
Global Instance pc_eq_dec : EqDecision pc.
Proof. solve_decision. Defined.

(** A thread: its request, its place, and when its [sleep] ends. *)
Record thr := Thr { t_req : userrequest; t_pc : pc; t_wake : Z }.

(** [files], the threads, the requests the main thread has yet to start, and
    the seconds since [start_time]. *)
Record fm := Fm { files : list fileinfo; threads : list thr; pending : list userrequest; clock : Z }.

Section file_manager.
(** The program's input: r, w, d, c and T. *)
Context (r w d c T : Z).

Definition fidx (q : userrequest) : Z := fileid q - 1.
Definition slot (q : userrequest) : Z := requesttime q mod REQUEST_TIME_ARRAY_SIZE.
Definition slot_count (f : fileinfo) (q : userrequest) : Z := default 0 (time_requests f !! slot q).

Definition set_lock (o : option nat) (f : fileinfo) : fileinfo :=
  FInfo o (concurrent_access f) (deleted f) (readercount f) (writercount f) (time_requests f).
Definition add_slot (q : userrequest) (n : Z) (f : fileinfo) : fileinfo :=
  FInfo (f_lock f) (concurrent_access f) (deleted f) (readercount f) (writercount f)
    (<[slot q := i32 (slot_count f q + n)]> (time_requests f)).
(** Counting a reader or a writer in ([n] = 1) or out ([n] = -1). *)
Definition add_access (q : userrequest) (n : Z) (f : fileinfo) : fileinfo :=
  FInfo (f_lock f) (concurrent_access f + n) (deleted f)
    (if operation q =? 1 then readercount f + n else readercount f)
    (if operation q =? 2 then writercount f + n else writercount f) (time_requests f).
Definition set_deleted (f : fileinfo) : fileinfo :=
  FInfo (f_lock f) (concurrent_access f) true (readercount f) (writercount f) (time_requests f).

(** The condition of the wait loop. *)
Definition must_wait (q : userrequest) (f : fileinfo) : bool :=
  if operation q =? 1 then concurrent_access f >=? c
  else if operation q =? 2 then (writercount f >? 0) || (concurrent_access f >=? c)
  else (readercount f >? 0) || (writercount f >? 0).

Definition waiting_on (k : Z) (th : thr) : Prop := t_pc th = Waiting ∧ fidx (t_req th) = k.
Global Instance waiting_on_dec k th : Decision (waiting_on k th).
Proof. unfold waiting_on. apply _. Defined.

Definition set_pc (p : pc) (th : thr) : thr := Thr (t_req th) p (t_wake th).

(** [pthread_cond_signal]: thread [u] is woken if threads wait on the file. *)
Definition signal (k : Z) (u : nat) (ths : list thr) : option (list thr) :=
  if decide (Exists (waiting_on k) ths) then
    th ← ths !! u;
    if decide (waiting_on k th) then Some (<[u := set_pc Woken th]> ths) else None
  else Some ths.

(** The next step of thread [t]; [u] is the thread a signal in it wakes.
    None when the thread has returned, waits or sleeps. *)
Definition tstep (t u : nat) (σ : fm) : option fm :=
  th ← threads σ !! t;
  let q := t_req th in
  f ← getZ (files σ) (fidx q);
  let put (f' : fileinfo) (ths : list thr) := Some (Fm (setZ (files σ) (fidx q) f') ths (pending σ) (clock σ)) in
  let go (p : pc) := <[t := set_pc p th]> (threads σ) in
  let nap (p : pc) (n : Z) := <[t := Thr q p (clock σ + n)]> (threads σ) in
  let acquire (p : pc) := match f_lock f with None => put (set_lock (Some t) f) (go p) | Some _ => None end in
  match t_pc th with
  | Sleeping => if t_wake th <=? clock σ then put f (go Lock1) else None
  | Lock1 => acquire Announce
  | Announce =>
      if operation q <? 3 then put (add_slot q (-1) f) (go Check)
      else if slot_count f q >? 0 then put (set_lock None f) (go (Spin true))
      else put f (go (Spin false))
  | Spin flag_checker =>
      if slot_count f q >? 0 then None
      else put f (go (if flag_checker then Relock else Check))
  | Relock => acquire Check
  | Check => if must_wait q f then put (set_lock None f) (go Waiting) else put f (go Decide)
  | Waiting => None
  | Woken => acquire Check
  | Decide =>
      if clock σ - requesttime q >=? T then ths ← signal (fidx q) u (go (Leave Cancelled)); put f ths
      else if deleted f then ths ← signal (fidx q) u (go (Leave Declined)); put f ths
      else if operation q =? 3 then put f (nap Deleting d)
      else put (add_access q 1 f) (go Enter)
  | Leave o => put (set_lock None f) (go (Done o))
  | Enter => put (set_lock None f) (nap Working (if operation q =? 1 then r else w))
  | Working => if t_wake th <=? clock σ then put f (go Lock2) else None
  | Lock2 => acquire Finish
  | Finish => ths ← signal (fidx q) u (go Unlock2); put (add_access q (-1) f) ths
  | Deleting =>
      if t_wake th <=? clock σ then ths ← signal (fidx q) u (go Unlock2); put (set_deleted f) ths
      else None
  | Unlock2 => put (set_lock None f) (go (Done Completed))
  | Done _ => None
  end.

(** The main thread starts its next request when the time has come. *)
Definition start_request (σ : fm) : option fm :=
  match pending σ with
  | [] => None
  | q :: rest =>
      if requesttime q <=? clock σ then
        f ← getZ (files σ) (fidx q);
        let f' := if operation q <? 3 then add_slot q 1 f else f in
        Some (Fm (setZ (files σ) (fidx q) f') (threads σ ++ [Thr q Sleeping (clock σ + 1)]) rest (clock σ))
      else None
  end.

(** Steps of the program. *)
Inductive step : fm → fm → Prop :=
| s_thread t u σ σ' : tstep t u σ = Some σ' → step σ σ'
| s_start σ σ' : start_request σ = Some σ' → step σ σ'.

(** Time passes, and a waiting thread may wake up without a signal. *)
Definition tick (σ : fm) : fm := Fm (files σ) (threads σ) (pending σ) (clock σ + 1).

Inductive env_step : fm → fm → Prop :=
| e_tick σ : env_step σ (tick σ)
| e_spurious t th σ : threads σ !! t = Some th → t_pc th = Waiting →
    env_step σ (Fm (files σ) (<[t := set_pc Woken th]> (threads σ)) (pending σ) (clock σ)).

(** [main]: the files, the requests in the order [qsort] put them.  The loop over
    the files does not set [time_requests]: [left] is what [malloc] left there,
    file by file. *)
Definition init_file (left : gmap Z Z) : fileinfo := FInfo None 0 false 0 0 left.
Definition fm_start (left : list (gmap Z Z)) (reqs : list userrequest) : fm := Fm (init_file <$> left) [] reqs 0.

(** *** Invariants *)

(** Threads that hold the file's mutex. *)
Definition holds (p : pc) : bool :=
  match p with
  | Announce | Spin false | Check | Decide | Leave _ | Enter | Finish | Deleting | Unlock2 => true
  | _ => false
  end.
(** Threads that are counted in. *)
Definition active (p : pc) : bool :=
  match p with Enter | Working | Lock2 | Finish => true | _ => false end.

Definition countp (P : thr → bool) (ths : list thr) : Z := Z.of_nat (sum_list_with (λ th, Nat.b2n (P th)) ths).

(** The accessors of file [k] doing operation [op]. *)
Definition accessor (k op : Z) (th : thr) : bool :=
  bool_decide (fidx (t_req th) = k) && (operation (t_req th) =? op) && active (t_pc th).

Definition lock_inv (k : Z) (f : fileinfo) (ths : list thr) : Prop :=
  match f_lock f with
  | None => ∀ t th, ths !! t = Some th → fidx (t_req th) = k → holds (t_pc th) = false
  | Some t => ∃ th, ths !! t = Some th ∧ fidx (t_req th) = k ∧ holds (t_pc th) = true ∧
      ∀ t' th', ths !! t' = Some th' → fidx (t_req th') = k → holds (t_pc th') = true → t' = t
  end.

(** The counters count the accessors, and stay within their limits. *)
Definition counts_inv (k : Z) (f : fileinfo) (ths : list thr) : Prop :=
  readercount f = countp (accessor k 1) ths ∧ writercount f = countp (accessor k 2) ths ∧
  concurrent_access f = readercount f + writercount f ∧
  concurrent_access f ≤ c ∧ writercount f ≤ 1 ∧
  (deleted f = true → concurrent_access f = 0).

(** What a thread that is past its wait loop may rely on. *)
Definition decided_inv (f : fileinfo) (th : thr) : Prop :=
  match t_pc th with
  | Decide => must_wait (t_req th) f = false
  | Deleting => operation (t_req th) = 3 ∧ concurrent_access f = 0 ∧ deleted f = false
  | Enter | Working | Lock2 | Finish => operation (t_req th) = 1 ∨ operation (t_req th) = 2
  | _ => True
  end.

Definition req_ok (nfiles : nat) (q : userrequest) : Prop :=
  0 ≤ fidx q < Z.of_nat nfiles ∧ (operation q = 1 ∨ operation q = 2 ∨ operation q = 3).

Definition fm_inv (σ : fm) : Prop :=
  Forall (req_ok (length (files σ))) (pending σ) ∧
  Forall (λ th, req_ok (length (files σ)) (t_req th)) (threads σ) ∧
  (∀ k f, getZ (files σ) k = Some f → lock_inv k f (threads σ) ∧ counts_inv k f (threads σ)) ∧
  (∀ t th f, threads σ !! t = Some th → getZ (files σ) (fidx (t_req th)) = Some f → decided_inv f th).
End file_manager.
