(* ===== verification/FileManagerProof.v ===== *)
(** Invariants of the file manager (concurrency/partA.c): the mutex of a file
    has one holder, its counters count the threads inside, and a thread past
    its wait loop can rely on what it checked. *)
From S2P Require Import Prelude FileManager.

(** ** Lemmas *)

Section fm_proof.
Context (r w d c T : Z).
Local Notation tstep := (tstep r w d c T).
Local Notation step := (step r w d c T).
Local Notation fm_inv := (fm_inv c).
Local Notation counts_inv := (counts_inv c).
Local Notation decided_inv := (decided_inv c).

Lemma countp_insert P ths t th th' : ths !! t = Some th →
  countp P (<[t := th']> ths) = countp P ths - Z.of_nat (Nat.b2n (P th)) + Z.of_nat (Nat.b2n (P th')).
Proof.
  intros Ht. unfold countp. pose proof (sum_list_with_insert (λ th, Nat.b2n (P th)) ths t th th' Ht). simpl in *. lia.
Qed.

Lemma countp_snoc P ths th : countp P (ths ++ [th]) = countp P ths + Z.of_nat (Nat.b2n (P th)).
Proof. unfold countp. rewrite sum_list_with_app. simpl. lia. Qed.

Lemma countp_pos P ths t th : ths !! t = Some th → P th = true → 0 < countp P ths.
Proof.
  intros Ht HP. unfold countp. revert t Ht.
  induction ths as [|x ths IH]; intros [|t] Ht; simpl in *; simplify_eq.
  - rewrite HP. simpl. lia.
  - specialize (IH t Ht). lia.
Qed.

Lemma countp_pos_inv P ths : 0 < countp P ths → ∃ t th, ths !! t = Some th ∧ P th = true.
Proof.
  unfold countp. induction ths as [|x ths IH]; simpl; [lia|]. intros Hp.
  destruct (P x) eqn:E; simpl in Hp.
  - exists O, x. done.
  - destruct IH as (t & th & Ht & HP); [lia|]. by exists (S t), th.
Qed.

Lemma countp_nonneg P ths : 0 ≤ countp P ths.
Proof. unfold countp. lia. Qed.

(** Threads that differ only in being woken from the wait. *)
Definition woken_of (ths ths' : list thr) : Prop :=
  ths' = ths ∨ ∃ u th, ths !! u = Some th ∧ t_pc th = Waiting ∧ ths' = <[u := set_pc Woken th]> ths.

Lemma signal_woken k u ths ths' : signal k u ths = Some ths' → woken_of ths ths'.
Proof.
  unfold signal. case_decide; [|intros [= <-]; by left].
  destruct (ths !! u) as [th|] eqn:E; simpl; [|done]. case_decide as Hw; [|done]. destruct Hw as [Hw _].
  intros [= <-]. right. by exists u, th.
Qed.

Lemma signal_total k ths : ∃ u ths', signal k u ths = Some ths'.
Proof.
  unfold signal. destruct (decide (Exists (waiting_on k) ths)) as [He|].
  - apply Exists_exists in He as (th & Hin & Hw). apply list_elem_of_lookup in Hin as [u Hu].
    exists u. rewrite Hu. simpl. rewrite decide_True by done. eauto.
  - exists O. eauto.
Qed.

Lemma woken_countp P ths ths' : (∀ th, t_pc th = Waiting → P (set_pc Woken th) = P th) →
  woken_of ths ths' → countp P ths' = countp P ths.
Proof.
  intros HP [->|(u & th & Hu & Hw & ->)]; [done|]. rewrite (countp_insert P ths u th _ Hu), HP by done. lia.
Qed.

(** A thread after the wake-up, and the thread it was. *)
Lemma woken_back ths ths' t th' : woken_of ths ths' → ths' !! t = Some th' →
  ∃ th, ths !! t = Some th ∧ t_req th = t_req th' ∧
    (th = th' ∨ (t_pc th = Waiting ∧ t_pc th' = Woken)).
Proof.
  intros [->|(u & th & Hu & Hw & ->)] Ht; [by eauto 6|].
  destruct (decide (u = t)) as [->|Hne].
  - rewrite list_lookup_insert_eq in Ht by (by eapply lookup_lt_Some). simplify_eq. exists th. eauto.
  - rewrite list_lookup_insert_ne in Ht by done. eauto 6.
Qed.

Lemma woken_forth ths ths' t th : woken_of ths ths' → ths !! t = Some th →
  ∃ th', ths' !! t = Some th' ∧ t_req th = t_req th' ∧
    (th = th' ∨ (t_pc th = Waiting ∧ t_pc th' = Woken)).
Proof.
  intros [->|(u & thu & Hu & Hw & ->)] Ht; [by eauto 6|].
  destruct (decide (u = t)) as [->|Hne].
  - simplify_eq. exists (set_pc Woken thu). rewrite list_lookup_insert_eq by (by eapply lookup_lt_Some). eauto.
  - exists th. rewrite list_lookup_insert_ne by done. eauto.
Qed.

Lemma woken_lock k f ths ths' : woken_of ths ths' → lock_inv k f ths → lock_inv k f ths'.
Proof.
  intros Hw. unfold lock_inv. destruct (f_lock f) as [t|].
  - intros (th & Ht & Hk & Hh & Huniq). destruct (woken_forth _ _ _ _ Hw Ht) as (th' & Ht' & Hr & Hcase).
    exists th'. split; [done|]. split; [congruence|].
    destruct Hcase as [->|[Hp Hp']]; [|by rewrite Hp in Hh]. split; [done|].
    intros t1 th1 Ht1 Hk1 Hh1. destruct (woken_back _ _ _ _ Hw Ht1) as (th2 & Ht2 & Hr2 & [->|[_ Hp]]);
      [|by rewrite Hp in Hh1]. eauto.
  - intros Hno t th' Ht' Hk. destruct (woken_back _ _ _ _ Hw Ht') as (th & Ht & Hr & [->|[_ ->]]); [|done].
    eauto.
Qed.

Lemma woken_counts k f ths ths' : woken_of ths ths' → counts_inv k f ths → counts_inv k f ths'.
Proof.
  intros Hw (H1 & H2 & H3). unfold FileManager.counts_inv. by rewrite !(woken_countp _ ths ths')
    by (try done; intros th Hp; unfold accessor, set_pc; simpl; by rewrite Hp).
Qed.

Lemma woken_inv fs ths ths' p clk clk' : woken_of ths ths' →
  fm_inv (Fm fs ths p clk) → fm_inv (Fm fs ths' p clk').
Proof.
  intros Hw (Hp & Ht & Hf & Hd). split; [done|]. simpl in *. split_and!.
  - apply Forall_lookup. intros t th' Ht'. destruct (woken_back _ _ _ _ Hw Ht') as (th & Hth & <- & _).
    by eapply Forall_lookup in Ht.
  - intros k f Hk. destruct (Hf k f Hk). split; [by eapply woken_lock|by eapply woken_counts].
  - intros t th' f Ht' Hk. destruct (woken_back _ _ _ _ Hw Ht') as (th & Hth & Hr & [->|[_ Hpc]]).
    + by eapply Hd.
    + unfold FileManager.decided_inv. by rewrite Hpc.
Qed.

(** The lock of the file as thread [t] moves from [p] to [p']. *)
Definition lock_move (t : nat) (f f' : fileinfo) (p p' : pc) : Prop :=
  (f_lock f' = f_lock f ∧ holds p' = holds p) ∨
  (f_lock f = None ∧ f_lock f' = Some t ∧ holds p' = true) ∨
  (holds p = true ∧ f_lock f' = None ∧ holds p' = false).

Lemma lock_holder k f ths t th : lock_inv k f ths → ths !! t = Some th → fidx (t_req th) = k →
  holds (t_pc th) = true → f_lock f = Some t.
Proof.
  unfold lock_inv. intros Hl Ht Hk Hh. destruct (f_lock f) as [t'|].
  - destruct Hl as (_ & _ & _ & _ & Hu). f_equal. symmetry. by eapply Hu.
  - by rewrite (Hl t th) in Hh.
Qed.

Lemma lock_move_ok k f f' ths t th th' : lock_inv k f ths → ths !! t = Some th →
  fidx (t_req th) = k → t_req th' = t_req th → lock_move t f f' (t_pc th) (t_pc th') →
  lock_inv k f' (<[t := th']> ths).
Proof.
  intros Hl Ht Hk Hr Hm. pose proof (lookup_lt_Some _ _ _ Ht) as Hlen.
  pose proof (lock_holder k f ths t th Hl Ht Hk) as Hown.
  assert (Hsplit : ∀ t1 th1, <[t:=th']> ths !! t1 = Some th1 →
    (t1 = t ∧ th1 = th') ∨ (t1 ≠ t ∧ ths !! t1 = Some th1)).
  { intros t1 th1. destruct (decide (t1 = t)) as [->|Hne].
    - rewrite list_lookup_insert_eq by done. intros [= <-]. by left.
    - rewrite list_lookup_insert_ne by done. by right. }
  unfold lock_inv in *. destruct Hm as [[-> Hh]|[(Hn & -> & Hh)|(Hh & -> & Hh')]].
  - destruct (f_lock f) as [t0|].
    + destruct Hl as (th0 & Ht0 & Hk0 & Hh0 & Hu). destruct (decide (t0 = t)) as [->|Hne].
      * exists th'. rewrite list_lookup_insert_eq by done. simplify_eq. split_and!; try congruence.
        intros t1 th1 H1 Hk1 Hh1. apply Hsplit in H1 as [[-> _]|[_ H1]]; eauto.
      * exists th0. rewrite list_lookup_insert_ne by done. split_and!; try done.
        intros t1 th1 H1 Hk1 Hh1. apply Hsplit in H1 as [[-> ->]|[_ H1]]; [|by eauto].
        apply (Hu t th); congruence.
    + intros t1 th1 H1 Hk1. apply Hsplit in H1 as [[-> ->]|[_ H1]]; [rewrite Hh|]; eauto.
  - rewrite Hn in Hl. exists th'. rewrite list_lookup_insert_eq by done. split_and!; try congruence.
    intros t1 th1 H1 Hk1 Hh1. apply Hsplit in H1 as [[-> _]|[_ H1]]; [done|]. by rewrite (Hl t1 th1) in Hh1.
  - specialize (Hown Hh). rewrite Hown in Hl. destruct Hl as (th0 & Ht0 & Hk0 & Hh0 & Hu).
    intros t1 th1 H1 Hk1. apply Hsplit in H1 as [[-> ->]|[Hne H1]]; [done|].
    destruct (holds (t_pc th1)) eqn:E; [|done]. destruct Hne. by eapply Hu.
Qed.

(** Nothing the other threads rely on changed, or they cannot rely on it
    because this thread holds the mutex. *)
Definition same_counts (f f' : fileinfo) : Prop :=
  concurrent_access f' = concurrent_access f ∧ deleted f' = deleted f ∧
  readercount f' = readercount f ∧ writercount f' = writercount f.

Lemma decided_other f f' th : decided_inv f th → same_counts f f' ∨ holds (t_pc th) = false → decided_inv f' th.
Proof.
  unfold FileManager.decided_inv, must_wait. intros Hd [(-> & -> & -> & ->)|Hh]; [done|].
  destruct (t_pc th); done.
Qed.

(** One thread of file [k] moves, under the mutex or without touching what
    the mutex protects. *)
Lemma thread_move fs ths p clk clk' t th th' k f f' :
  fm_inv (Fm fs ths p clk) → ths !! t = Some th → fidx (t_req th) = k → getZ fs k = Some f →
  t_req th' = t_req th → lock_move t f f' (t_pc th) (t_pc th') →
  same_counts f f' ∨ holds (t_pc th) = true →
  counts_inv k f' (<[t := th']> ths) → decided_inv f' th' →
  fm_inv (Fm (setZ fs k f') (<[t := th']> ths) p clk').
Proof.
  intros (Hp & Ht & Hf & Hd) Hth Hk Hfk Hr Hm Hs Hc Hdn. destruct (Hf k f Hfk) as [Hl _].
  pose proof (lookup_lt_Some _ _ _ Hth) as Hlen. unfold FileManager.fm_inv; simpl in *. rewrite length_setZ. split_and!.
  - done.
  - apply Forall_insert; [done|]. rewrite Hr. by eapply (Forall_lookup_1 _ _ _ _ Ht).
  - intros k' f0 Hk'. rewrite (getZ_setZ _ _ _ _ _ Hfk) in Hk'. case_decide as E.
    + subst k'. simplify_eq. split; [by eapply lock_move_ok|done].
    + destruct (Hf k' f0 Hk') as [Hl' (C1 & C2 & C3)]. split.
      * unfold lock_inv in *. destruct (f_lock f0) as [t0|].
        { destruct Hl' as (th0 & Ht0 & Hk0 & Hh0 & Hu). exists th0.
          rewrite list_lookup_insert_ne by congruence. split_and!; try done.
          intros t1 th1 H1 Hk1. apply Hu; [|done]. rewrite list_lookup_insert_ne in H1; [done|].
          intros ->. rewrite list_lookup_insert_eq in H1 by done. simplify_eq. congruence. }
        { intros t1 th1 H1 Hk1. eapply Hl'; [|done]. rewrite list_lookup_insert_ne in H1; [done|].
          intros ->. rewrite list_lookup_insert_eq in H1 by done. simplify_eq. congruence. }
      * assert (∀ op, countp (accessor k' op) (<[t:=th']> ths) = countp (accessor k' op) ths) as Eq.
        { intros op. rewrite (countp_insert _ _ _ th th' Hth). unfold accessor. rewrite Hr.
          rewrite bool_decide_eq_false_2 by congruence. simpl. lia. }
        unfold FileManager.counts_inv. by rewrite !Eq.
  - intros t1 th1 f0 H1 Hk1. rewrite (getZ_setZ _ _ _ _ _ Hfk) in Hk1.
    destruct (decide (t1 = t)) as [->|Hne].
    + rewrite list_lookup_insert_eq in H1 by done. simplify_eq. rewrite Hr, decide_True in Hk1 by done. by simplify_eq.
    + rewrite list_lookup_insert_ne in H1 by done. case_decide as E; [|by eapply Hd]. simplify_eq.
      apply (decided_other f); [apply (Hd t1); congruence|]. destruct Hs as [|Hh]; [by left|]. right.
      destruct (holds (t_pc th1)) eqn:E1; [|done]. destruct Hne.
      pose proof (lock_holder _ _ _ _ _ Hl Hth eq_refl Hh).
      pose proof (lock_holder _ _ _ _ _ Hl H1 (eq_sym E) E1). congruence.
Qed.

(** The counters when [th] becomes [th'] and its file [f'], in terms of what
    the move adds to the accessors. *)
Lemma counts_move ths t th th' k f f' :
  counts_inv k f ths → ths !! t = Some th → t_req th' = t_req th → fidx (t_req th) = k →
  active (t_pc th') = active (t_pc th) → same_counts f f' → counts_inv k f' (<[t := th']> ths).
Proof.
  intros (C1 & C2 & C3 & C4 & C5 & C6) Ht Hr Hk Ha (E1 & E2 & E3 & E4).
  assert (∀ op, countp (accessor k op) (<[t:=th']> ths) = countp (accessor k op) ths) as Eq.
  { intros op. rewrite (countp_insert _ _ _ th th' Ht). unfold accessor. rewrite Hr, Ha. lia. }
  unfold FileManager.counts_inv. rewrite !Eq, E1, E2, E3, E4. done.
Qed.

(** A thread enters or leaves the file. *)
Lemma counts_enter ths t th th' k f n :
  counts_inv k f ths → ths !! t = Some th → t_req th' = t_req th → fidx (t_req th) = k →
  operation (t_req th) = 1 ∨ operation (t_req th) = 2 →
  n = Z.of_nat (Nat.b2n (active (t_pc th'))) - Z.of_nat (Nat.b2n (active (t_pc th))) →
  (0 < n → must_wait c (t_req th) f = false ∧ deleted f = false) →
  (deleted f = true → active (t_pc th) = false) →
  counts_inv k (add_access (t_req th) n f) (<[t := th']> ths).
Proof.
  intros (C1 & C2 & C3 & C4 & C5 & C6) Ht Hr Hk Hop Hn Hin Hdel. unfold FileManager.counts_inv, add_access; simpl.
  rewrite !(countp_insert _ _ _ th th' Ht). unfold accessor at 2 3 5 6. rewrite Hr, bool_decide_eq_true_2 by done.
  pose proof (countp_nonneg (accessor k 1) ths). pose proof (countp_nonneg (accessor k 2) ths).
  assert (n = 1 → must_wait c (t_req th) f = false ∧ deleted f = false) as Hin1 by (intros; apply Hin; lia).
  unfold must_wait in Hin1. destruct Hop as [E|E]; rewrite E in *.
  all: destruct (active (t_pc th')), (active (t_pc th)); cbn [Nat.b2n Z.of_nat andb] in *.
  all: cbv [Z.eqb Pos.eqb andb Nat.b2n] in *; cbn in Hn; subst n.
  all: try destruct (Hin1 eq_refl) as [Hw Hnd]; bool_prop.
  all: split_and!; try lia; intros Hdl; specialize (C6 Hdl); try specialize (Hdel Hdl); try congruence; lia.
Qed.

Lemma active_counted k f ths t th : counts_inv k f ths → ths !! t = Some th → fidx (t_req th) = k →
  operation (t_req th) = 1 ∨ operation (t_req th) = 2 → active (t_pc th) = true →
  0 < concurrent_access f ∧ deleted f = false.
Proof.
  intros (C1 & C2 & C3 & C4 & C5 & C6) Ht Hk Hop Ha.
  pose proof (countp_nonneg (accessor k 1) ths). pose proof (countp_nonneg (accessor k 2) ths).
  assert (0 < concurrent_access f) as Hpos.
  { destruct Hop as [E|E].
    - pose proof (countp_pos (accessor k 1) ths t th Ht). unfold accessor in *.
      rewrite E, Ha, bool_decide_eq_true_2 in * by done. simpl in *. lia.
    - pose proof (countp_pos (accessor k 2) ths t th Ht). unfold accessor in *.
      rewrite E, Ha, bool_decide_eq_true_2 in * by done. simpl in *. lia. }
  split; [done|]. destruct (deleted f); [|done]. specialize (C6 eq_refl). lia.
Qed.

(** Moves that change neither the counters nor [deleted]. *)
Lemma quiet_move σ t th th' f f' :
  fm_inv σ → threads σ !! t = Some th → getZ (files σ) (fidx (t_req th)) = Some f →
  t_req th' = t_req th → lock_move t f f' (t_pc th) (t_pc th') → same_counts f f' →
  active (t_pc th') = active (t_pc th) → decided_inv f' th' →
  fm_inv (Fm (setZ (files σ) (fidx (t_req th)) f') (<[t := th']> (threads σ)) (pending σ) (clock σ)).
Proof.
  destruct σ as [fs ths p clk]; simpl. intros Hinv Ht Hf Hr Hm Hs Ha Hd.
  eapply thread_move; try done; [by left|]. destruct Hinv as (_ & _ & Hfs & _).
  destruct (Hfs _ _ Hf) as [_ Hc]. by eapply counts_move.
Qed.

(** A move to a place nothing is known about, with the request's lock. *)
Local Ltac quiet := eapply quiet_move; try done; simpl in *;
  try match goal with E : t_pc _ = _ |- _ => rewrite E in * end;
  try match goal with |- lock_move _ _ _ _ _ => unfold lock_move; simpl; auto end; try done.

(** A signal after the move. *)
Lemma signal_inv fs ths ths' p clk k u :
  signal k u ths = Some ths' → fm_inv (Fm fs ths p clk) → fm_inv (Fm fs ths' p clk).
Proof. intros Hs. eapply woken_inv, signal_woken, Hs. Qed.

Lemma tstep_decide σ t u th f σ' :
  fm_inv σ → threads σ !! t = Some th → getZ (files σ) (fidx (t_req th)) = Some f →
  t_pc th = Decide → tstep t u σ = Some σ' → fm_inv σ'.
Proof.
  intros Hinv Ht Hf Hpc Hs. pose proof Hinv as (_ & Hreq & Hfs & Hd).
  pose proof (Hd _ _ _ Ht Hf) as Hw. unfold FileManager.decided_inv in Hw. rewrite Hpc in Hw.
  destruct (Hfs _ _ Hf) as [Hl Hc]. pose proof (Forall_lookup_1 _ _ _ _ Hreq Ht) as [_ Hop].
  unfold FileManager.tstep in Hs. rewrite Ht in Hs. cbn [mbind option_bind] in Hs. rewrite Hf, Hpc in Hs. cbn [mbind option_bind] in Hs.
  destruct (_ >=? T); [|destruct (deleted f) eqn:Edel; [|destruct (Z.eqb_spec (operation (t_req th)) 3) as [E3|E3]]].
  - destruct (signal _ _ _) as [ths'|] eqn:Es in Hs; simplify_eq/=. eapply signal_inv; [done|]. quiet.
  - destruct (signal _ _ _) as [ths'|] eqn:Es in Hs; simplify_eq/=. eapply signal_inv; [done|]. quiet.
  - simplify_eq. quiet. split_and!; try done. unfold must_wait in Hw. rewrite E3 in Hw. simpl in Hw. bool_prop.
    destruct Hc as (C1 & C2 & C3 & _).
    pose proof (countp_nonneg (accessor (fidx (t_req th)) 1) (threads σ)).
    pose proof (countp_nonneg (accessor (fidx (t_req th)) 2) (threads σ)). simpl. lia.
  - simplify_eq. destruct σ as [fs ths p clk]; simpl in *. eapply (thread_move fs ths p clk clk t th); try done.
    + unfold lock_move. simpl. rewrite Hpc. auto.
    + rewrite Hpc. by right.
    + eapply counts_enter; try done; simpl; rewrite ?Hpc; try done. lia.
    + unfold FileManager.decided_inv. simpl. lia.
Qed.

Lemma tstep_finish σ t u th f σ' :
  fm_inv σ → threads σ !! t = Some th → getZ (files σ) (fidx (t_req th)) = Some f →
  t_pc th = Finish ∨ t_pc th = Deleting → tstep t u σ = Some σ' → fm_inv σ'.
Proof.
  intros Hinv Ht Hf Hpc Hs. pose proof Hinv as (_ & Hreq & Hfs & Hd).
  pose proof (Hd _ _ _ Ht Hf) as Hw. unfold FileManager.decided_inv in Hw.
  destruct (Hfs _ _ Hf) as [Hl Hc].
  unfold FileManager.tstep in Hs. rewrite Ht in Hs. cbn [mbind option_bind] in Hs. rewrite Hf in Hs. cbn [mbind option_bind] in Hs.
  destruct σ as [fs ths p clk]; simpl in *. destruct Hpc as [Hpc|Hpc]; rewrite Hpc in *.
  - destruct (signal _ _ _) as [ths'|] eqn:Es in Hs; simplify_eq/=. eapply signal_inv; [done|].
    destruct (active_counted _ _ _ _ _ Hc Ht eq_refl Hw) as [_ Hnd]; [by rewrite Hpc|].
    eapply (thread_move fs ths p clk clk t th); try done; rewrite ?Hpc.
    + unfold lock_move. simpl. auto.
    + by right.
    + eapply counts_enter; try done; simpl; rewrite ?Hpc; try done. congruence.
  - case_match; [|done]. destruct (signal _ _ _) as [ths'|] eqn:Es in Hs; simplify_eq/=. eapply signal_inv; [done|].
    eapply (thread_move fs ths p clk clk t th); try done; rewrite ?Hpc.
    + unfold lock_move. simpl. auto.
    + by right.
    + destruct Hw as (_ & Hz & _). eapply (counts_move _ _ _ (set_pc Unlock2 th) _ f f) in Hc; try done; [|by rewrite Hpc].
      unfold FileManager.counts_inv in *. simpl. naive_solver.
Qed.

Lemma tstep_inv σ t u σ' : fm_inv σ → tstep t u σ = Some σ' → fm_inv σ'.
Proof.
  intros Hinv Hs. destruct (threads σ !! t) as [th|] eqn:Ht; [|by unfold FileManager.tstep in Hs; rewrite Ht in Hs].
  destruct (getZ (files σ) (fidx (t_req th))) as [f|] eqn:Hf;
    [|by unfold FileManager.tstep in Hs; rewrite Ht in Hs; simpl in Hs; rewrite Hf in Hs].
  destruct (decide (t_pc th = Decide)); [by eapply tstep_decide|].
  destruct (decide (t_pc th = Finish)); [eapply tstep_finish; eauto|].
  destruct (decide (t_pc th = Deleting)); [eapply tstep_finish; eauto|].
  pose proof Hinv as (_ & _ & _ & Hd). pose proof (Hd _ _ _ Ht Hf) as Hw. unfold FileManager.decided_inv in Hw.
  unfold FileManager.tstep in Hs. rewrite Ht in Hs. cbn [mbind option_bind] in Hs. rewrite Hf in Hs. cbn [mbind option_bind] in Hs.
  destruct (t_pc th) as [| | |[]| | | | | |o| | | | | | |o] eqn:Hpc; try done.
  all: repeat (case_match; try done); simplify_eq; quiet.
Qed.

(** The main thread's step changes no field the mutex protects, and the new
    thread neither holds the mutex nor is inside. *)
Lemma start_inv σ σ' : fm_inv σ → start_request σ = Some σ' → fm_inv σ'.
Proof.
  destruct σ as [fs ths p clk]. unfold start_request; simpl. destruct p as [|q rest]; [done|].
  case_match; [|done]. destruct (getZ fs (fidx q)) as [f|] eqn:Hf; [|done]. simpl. intros (Hp & Hth & Hfs & Hd) [= <-].
  inversion_clear Hp as [|?? Hq Hrest]. simpl in *.
  set (f' := if operation q <? 3 then add_slot q 1 f else f).
  assert (same_counts f f' ∧ f_lock f' = f_lock f) as [Hs Hl] by (subst f'; by case_match).
  assert (∀ t th, (ths ++ [Thr q Sleeping (clk + 1)]) !! t = Some th →
    ths !! t = Some th ∨ t_pc th = Sleeping) as Hold.
  { intros t th [Ht|[_ [_ <-]%list_lookup_singleton_Some]]%lookup_app_Some; simpl; auto. }
  assert (∀ k f0, lock_inv k f0 ths → lock_inv k f0 (ths ++ [Thr q Sleeping (clk + 1)])) as Hlk.
  { intros k f0. unfold lock_inv. destruct (f_lock f0) as [t|].
    - intros (th & Ht & Hk & Hh & Hu). exists th. split_and!; [by apply lookup_app_l_Some|done..|].
      intros t1 th1 H1 Hk1 Hh1. apply Hold in H1 as [H1|E]; [by eauto|]. by rewrite E in Hh1.
    - intros Hno t th H1 Hk1. apply Hold in H1 as [H1|E]; [by eauto|]. by rewrite E. }
  unfold FileManager.fm_inv; simpl. rewrite length_setZ. split_and!.
  - done.
  - apply Forall_app. split; [done|]. by constructor.
  - intros k f0 Hk. rewrite (getZ_setZ _ _ _ _ _ Hf) in Hk.
    assert (∀ f1, counts_inv k f1 ths → counts_inv k f1 (ths ++ [Thr q Sleeping (clk + 1)])) as Hcn.
    { intros f1. unfold FileManager.counts_inv. rewrite !countp_snoc. unfold accessor at 4 6; simpl.
      rewrite !andb_false_r. simpl. by rewrite !Z.add_0_r. }
    case_decide as E; [|destruct (Hfs k f0 Hk); auto]. simplify_eq.
    destruct (Hfs _ _ Hf) as [Hl0 Hc0]. split.
    + apply Hlk in Hl0. unfold lock_inv in *. by rewrite Hl.
    + apply Hcn in Hc0. destruct Hs as (E1 & E2 & E3 & E4). unfold FileManager.counts_inv in *.
      by rewrite E1, E2, E3, E4.
  - intros t th f0 Ht Hk. rewrite (getZ_setZ _ _ _ _ _ Hf) in Hk. apply Hold in Ht as [Ht|E].
    + case_decide as E; [|by eapply Hd]. simplify_eq. apply (decided_other f); [|by left].
      eapply Hd; [done|]. by rewrite <- E.
    + unfold FileManager.decided_inv. by rewrite E.
Qed.

Lemma env_inv σ σ' : fm_inv σ → env_step σ σ' → fm_inv σ'.
Proof.
  intros Hinv He. destruct He as [σ|t th σ Ht Hpc]; destruct σ as [fs ths p clk]; simpl in *;
    (eapply woken_inv; [|exact Hinv]); [by left|right; eauto].
Qed.

Lemma step_inv σ σ' : fm_inv σ → step σ σ' → fm_inv σ'.
Proof. intros Hinv Hs. destruct Hs; [by eapply tstep_inv|by eapply start_inv]. Qed.

Lemma fm_start_inv left reqs : 0 ≤ c → Forall (req_ok (length left)) reqs → fm_inv (fm_start left reqs).
Proof.
  intros Hc Hr. unfold FileManager.fm_inv, fm_start; simpl. rewrite length_fmap. split_and!; try done.
  intros k f Hk. unfold getZ in Hk. case_decide; [|done]. apply list_lookup_fmap_Some in Hk as (m & -> & _).
  split; [done|]. unfold FileManager.counts_inv, countp. simpl. split_and!; done || lia.
Qed.
End fm_proof.
