(* ===== verification/FileManagerLive.v ===== *)
(** Progress of the file manager (concurrency/partA.c): no wake-up is lost, no
    thread waits for ever, and every run ends with all requests answered. *)
From S2P Require Import Prelude FileManager FileManagerProof.

(** ** Definitions *)

(** Places from which a thread still gets to a [pthread_cond_signal]. *)
Definition carries (p : pc) : bool :=
  match p with
  | Woken | Check | Decide | Enter | Working | Lock2 | Finish | Deleting => true
  | _ => false
  end.

(** Readers and writers that still count in [time_requests]. *)
Definition unannounced (k s : Z) (th : thr) : bool :=
  bool_decide (fidx (t_req th) = k) && (operation (t_req th) <? 3) && (slot (t_req th) =? s) &&
  match t_pc th with Sleeping | Lock1 | Announce => true | _ => false end.

Definition all_requests (σ : fm) : list userrequest := (t_req <$> threads σ) ++ pending σ.

(** No read or write comes after a delete of the same file whose slot it
    shares. *)
Definition no_late (reqs : list userrequest) : Prop :=
  ∀ i j q q', (i < j)%nat → reqs !! i = Some q → reqs !! j = Some q' →
    operation q = 3 → operation q' < 3 → fidx q = fidx q' → slot q ≠ slot q'.

Definition spin_ok (f : fileinfo) (th : thr) : Prop :=
  match t_pc th with
  | Spin b => operation (t_req th) = 3 ∧ (b = false → slot_count f (t_req th) = 0)
  | _ => True
  end.

Definition live_inv (σ : fm) : Prop :=
  (no_late (all_requests σ) ∧ Z.of_nat (length (all_requests σ)) < 2 ^ 31) ∧
  (∀ k f s, getZ (files σ) k = Some f → default 0 (time_requests f !! s) = countp (unannounced k s) (threads σ)) ∧
  (∀ k t th, threads σ !! t = Some th → waiting_on k th →
     ∃ t' th', threads σ !! t' = Some th' ∧ fidx (t_req th') = k ∧ carries (t_pc th') = true) ∧
  (∀ t th f, threads σ !! t = Some th → getZ (files σ) (fidx (t_req th)) = Some f → spin_ok f th).

(** How many steps a thread has left, wake-ups it may cause included. *)
Definition weight (p : pc) : nat :=
  match p with
  | Sleeping => 14 | Lock1 => 13 | Announce => 12 | Spin _ => 11 | Relock => 10 | Woken => 10
  | Check => 9 | Waiting => 8 | Decide => 8 | Enter => 7 | Deleting => 7 | Working => 6
  | Lock2 => 5 | Finish => 4 | Leave _ => 1 | Unlock2 => 1 | Done _ => 0
  end.
Definition measure (σ : fm) : nat :=
  (sum_list_with (λ th, weight (t_pc th)) (threads σ) + 15 * length (pending σ))%nat.

Definition is_done (p : pc) : bool := match p with Done _ => true | _ => false end.

Definition finished (σ : fm) : Prop := pending σ = [] ∧ ∀ t th, threads σ !! t = Some th → ∃ o, t_pc th = Done o.

Section fm_live.
Context (r w d c T : Z).
Local Notation tstep := (tstep r w d c T).
Local Notation step := (step r w d c T).

(** [run n σ σ']: the program makes [n] steps, and time passes. *)
Inductive run : nat → fm → fm → Prop :=
| run_refl σ : run 0 σ σ
| run_tick n σ σ' : run n σ σ' → run n σ (tick σ')
| run_step n σ σ' σ'' : run n σ σ' → step σ' σ'' → run (S n) σ σ''.

(** ** Lemmas *)

Lemma signal_effect k u ths ths' : signal k u ths = Some ths' →
  (∃ u0 th, ths' = <[u0 := set_pc Woken th]> ths ∧ ths !! u0 = Some th ∧ waiting_on k th) ∨
  (ths' = ths ∧ ∀ t th, ths !! t = Some th → ¬ waiting_on k th).
Proof.
  unfold signal. case_decide as He.
  - destruct (ths !! u) as [th|] eqn:E; simpl; [|done]. case_decide as Hw; [|done]. intros [= <-]. left. eauto 6.
  - intros [= <-]. right. split; [done|]. intros t th Ht Hw. apply He, Exists_exists.
    exists th. split; [by eapply list_elem_of_lookup_2|done].
Qed.

(** A step of a thread is one of these moves; [sig] tells whether it signals. *)
Definition moved (σ : fm) (t : nat) (th th' : thr) (f f' : fileinfo) (sig : bool) (σ' : fm) : Prop :=
  ∃ ths' u, (if sig then signal (fidx (t_req th)) u (<[t := th']> (threads σ)) = Some ths'
             else ths' = <[t := th']> (threads σ)) ∧
    σ' = Fm (setZ (files σ) (fidx (t_req th)) f') ths' (pending σ) (clock σ).

(** The places a thread moves to, with what the other proofs need. *)
Definition move_ok (th th' : thr) (f f' : fileinfo) (sig : bool) : Prop :=
  t_req th' = t_req th ∧ (weight (t_pc th') + (if sig then 2 else 0) < weight (t_pc th))%nat ∧
  (t_pc th' = Waiting → t_pc th = Check ∧ must_wait c (t_req th) f = true) ∧
  (carries (t_pc th) = true → carries (t_pc th') = true ∨ t_pc th' = Waiting ∨ sig = true) ∧
  (time_requests f' = time_requests f ∧
     (∀ k s, unannounced k s th' = unannounced k s th) ∨
   t_pc th = Announce ∧ operation (t_req th) < 3 ∧ f' = add_slot (t_req th) (-1) f ∧ t_pc th' = Check) ∧
  (match t_pc th' with
   | Spin b => t_pc th = Announce ∧ 3 ≤ operation (t_req th) ∧ (b = false → slot_count f (t_req th) = 0 ∨ slot_count f (t_req th) < 0)
   | _ => True end).

Lemma tstep_moved σ t u σ' : tstep t u σ = Some σ' →
  ∃ th th' f f' sig, threads σ !! t = Some th ∧ getZ (files σ) (fidx (t_req th)) = Some f ∧
    moved σ t th th' f f' sig σ' ∧ move_ok th th' f f' sig.
Proof.
  intros Hs. destruct (threads σ !! t) as [th|] eqn:Ht; [|by unfold FileManager.tstep in Hs; rewrite Ht in Hs].
  destruct (getZ (files σ) (fidx (t_req th))) as [f|] eqn:Hf;
    [|by unfold FileManager.tstep in Hs; rewrite Ht in Hs; simpl in Hs; rewrite Hf in Hs].
  unfold FileManager.tstep in Hs. rewrite Ht in Hs. cbn [mbind option_bind] in Hs. rewrite Hf in Hs. cbn [mbind option_bind] in Hs.
  exists th. unfold moved, move_ok, unannounced.
  destruct (t_pc th) as [| | |b| | | | | |o| | | | | | |o] eqn:Hpc; try done.
  all: repeat (case_match; try done); simplify_eq.
  all: try (destruct (signal _ _ _) as [ths'|] eqn:Es in Hs; simplify_eq/=).
  all: eexists _, f, _; first
    [ exists true; split; [done|]; split; [done|]; split; [eexists _, _; split; [exact Es|reflexivity]|]
    | exists false; split; [done|]; split; [done|]; split; [eexists _, O; split; reflexivity|] ].
  all: cbn [t_pc t_req set_pc]; rewrite ?Hpc; bool_prop; cbn.
  all: split_and!; try done; try lia; try (by auto); try (left; split; [done|]; intros; by rewrite ?andb_false_r).
Qed.

Lemma fmap_req_insert (ths : list thr) t th th' : ths !! t = Some th → t_req th' = t_req th →
  t_req <$> <[t := th']> ths = t_req <$> ths.
Proof.
  intros Ht Hr. rewrite list_fmap_insert, Hr. apply list_insert_id. by rewrite list_lookup_fmap, Ht.
Qed.

Lemma woken_req (ths ths' : list thr) : woken_of ths ths' → t_req <$> ths' = t_req <$> ths.
Proof. intros [->|(u & th & Hu & _ & ->)]; [done|]. by eapply fmap_req_insert. Qed.

Lemma moved_woken σ t th th' f f' sig σ' : moved σ t th th' f f' sig σ' →
  woken_of (<[t := th']> (threads σ)) (threads σ') ∧
  files σ' = setZ (files σ) (fidx (t_req th)) f' ∧ pending σ' = pending σ.
Proof.
  intros (ths' & u & Hs & ->). split; [|done]. simpl. destruct sig; [by eapply signal_woken|left; done].
Qed.

Lemma countp_le P ths : countp P ths ≤ Z.of_nat (length ths).
Proof. unfold countp. induction ths as [|th ths IH]; simpl; [lia|]. destruct (P th); simpl; lia. Qed.

(** Between the places before the announcement, [time_requests] counts. *)
Lemma slots_kept σ t th th' f f' sig σ' : Z.of_nat (length (threads σ)) < 2 ^ 31 →
  threads σ !! t = Some th → getZ (files σ) (fidx (t_req th)) = Some f →
  moved σ t th th' f f' sig σ' → move_ok th th' f f' sig →
  (∀ k f s, getZ (files σ) k = Some f → default 0 (time_requests f !! s) = countp (unannounced k s) (threads σ)) →
  ∀ k f s, getZ (files σ') k = Some f → default 0 (time_requests f !! s) = countp (unannounced k s) (threads σ').
Proof.
  intros Hsz Ht Hf Hm (Hr & _ & _ & _ & Hs & _) Hinv k f0 s Hk.
  destruct (moved_woken _ _ _ _ _ _ _ _ Hm) as (Hw & Hfs & _). rewrite Hfs, (getZ_setZ _ _ _ _ _ Hf) in Hk.
  rewrite (woken_countp _ (<[t := th']> (threads σ))) by
    (try done; intros x E; unfold unannounced; simpl; by rewrite E).
  rewrite (countp_insert _ _ _ th th' Ht). destruct Hs as [[Htr Hu]|(Hpc & Hop & -> & Hpc')].
  - rewrite Hu. case_decide; simplify_eq; [rewrite Htr, (Hinv _ _ _ Hf)|rewrite (Hinv _ _ _ Hk)]; lia.
  - unfold unannounced at 2 3. rewrite Hr, Hpc, Hpc', !andb_false_r. simpl. case_decide as E.
    + simplify_eq. rewrite bool_decide_eq_true_2, (proj2 (Z.ltb_lt _ _)) by done. simpl.
      pose proof (Hinv _ _ s Hf) as Hs. unfold slot_count. destruct (Z.eqb_spec (slot (t_req th)) s) as [->|Hne].
      * rewrite lookup_insert_eq. simpl. rewrite Hs.
        pose proof (countp_le (unannounced (fidx (t_req th)) s) (threads σ)).
        pose proof (countp_nonneg (unannounced (fidx (t_req th)) s) (threads σ)). rewrite i32_small; lia.
      * rewrite lookup_insert_ne by done. simpl. rewrite Hs. lia.
    + rewrite bool_decide_eq_false_2 by done. simpl. rewrite (Hinv _ _ _ Hk). lia.
Qed.

(** Who waits has somebody who will signal. *)
Lemma carriers_kept σ t th th' f f' sig σ' : 1 ≤ c → counts_inv c (fidx (t_req th)) f (threads σ) →
  threads σ !! t = Some th → moved σ t th th' f f' sig σ' → move_ok th th' f f' sig →
  (∀ k t th, threads σ !! t = Some th → waiting_on k th →
     ∃ t' th', threads σ !! t' = Some th' ∧ fidx (t_req th') = k ∧ carries (t_pc th') = true) →
  ∀ k t th, threads σ' !! t = Some th → waiting_on k th →
     ∃ t' th', threads σ' !! t' = Some th' ∧ fidx (t_req th') = k ∧ carries (t_pc th') = true.
Proof.
  intros Hc Hcnt Ht Hm (Hr & _ & Hwait & Hcar & _) Hinv k t1 th1 Ht1 Hw1.
  pose proof (lookup_lt_Some _ _ _ Ht) as Hlen.
  destruct (moved_woken _ _ _ _ _ _ _ _ Hm) as (Hw & _ & _).
  assert (Hlift : ∀ t2 th2, <[t := th']> (threads σ) !! t2 = Some th2 → fidx (t_req th2) = k →
    carries (t_pc th2) = true →
    ∃ t' th', threads σ' !! t' = Some th' ∧ fidx (t_req th') = k ∧ carries (t_pc th') = true).
  { intros t2 th2 Ht2 Hk2 Hc2. destruct (woken_forth _ _ _ _ Hw Ht2) as (th3 & Ht3 & Hr3 & Hcase).
    exists t2, th3. split; [done|]. split; [congruence|]. destruct Hcase as [<-|[_ ->]]; done. }
  destruct (woken_back _ _ _ _ Hw Ht1) as (th1' & Ht1' & Hr1 & [->|[_ E]]); [|destruct Hw1; congruence].
  assert (Hold : ∃ t2 th2, threads σ !! t2 = Some th2 ∧ fidx (t_req th2) = k ∧ carries (t_pc th2) = true).
  { destruct (decide (t1 = t)) as [->|Hne].
    - rewrite list_lookup_insert_eq in Ht1' by done. simplify_eq. destruct Hw1 as [Hp Hk].
      destruct (Hwait Hp) as [Hpc _]. exists t, th. rewrite Hpc. split_and!; [done|congruence|done].
    - rewrite list_lookup_insert_ne in Ht1' by done. by eapply Hinv. }
  destruct Hold as (t2 & th2 & Ht2 & Hk2 & Hc2). destruct (decide (t2 = t)) as [->|Hne].
  2:{ apply (Hlift t2 th2); [|done|done]. by rewrite list_lookup_insert_ne. }
  simplify_eq. destruct (Hcar Hc2) as [Hc'|[Hp| ->]].
  - apply (Hlift t th'); [by apply list_lookup_insert_eq|congruence|done].
  - destruct (Hwait Hp) as [Hpc Hmust]. destruct Hcnt as (C1 & C2 & C3 & _).
    assert (∃ op, 0 < countp (accessor (fidx (t_req th)) op) (threads σ)) as [op Hpos].
    { pose proof (countp_nonneg (accessor (fidx (t_req th)) 1) (threads σ)).
      pose proof (countp_nonneg (accessor (fidx (t_req th)) 2) (threads σ)).
      destruct (decide (0 < countp (accessor (fidx (t_req th)) 1) (threads σ))); [by eexists|].
      exists 2. unfold must_wait in Hmust. repeat (case_match; bool_prop); try lia;
        apply orb_true_iff in Hmust as []; bool_prop; lia. }
    apply countp_pos_inv in Hpos as (t3 & th3 & Ht3 & Ha). unfold accessor in Ha.
    apply andb_true_iff in Ha as [[Hk3%bool_decide_eq_true Hop3]%andb_true_iff Ha3].
    apply (Hlift t3 th3); [|done|].
    + rewrite list_lookup_insert_ne; [done|]. intros ->. simplify_eq. by rewrite Hpc in Ha3.
    + destruct (t_pc th3); done.
  - destruct Hm as (ths' & u & Hs & ->). simpl in *.
    destruct (signal_effect _ _ _ _ Hs) as [(u0 & th3 & -> & Hu & Hp & Hk3)|[-> Hno]].
    + exists u0, (set_pc Woken th3). rewrite list_lookup_insert_eq by (by eapply lookup_lt_Some). done.
    + exfalso. eapply Hno; [exact Ht1|]. destruct Hw1. split; [done|]. congruence.
Qed.

Lemma spins_kept σ t th th' f f' sig σ' :
  fm_inv c σ → threads σ !! t = Some th → getZ (files σ) (fidx (t_req th)) = Some f →
  moved σ t th th' f f' sig σ' → move_ok th th' f f' sig → live_inv σ →
  ∀ t th f, threads σ' !! t = Some th → getZ (files σ') (fidx (t_req th)) = Some f → spin_ok f th.
Proof.
  intros (_ & Hreq & Hfs & _) Ht Hf Hm (Hr & _ & _ & _ & Hsl & Hsp) (_ & Hs & _ & Hspin) t1 th1 f1 Ht1 Hk1.
  pose proof (lookup_lt_Some _ _ _ Ht) as Hlen. destruct (Forall_lookup_1 _ _ _ _ Hreq Ht) as [_ Hop].
  destruct (moved_woken _ _ _ _ _ _ _ _ Hm) as (Hw & Hfs' & _). rewrite Hfs', (getZ_setZ _ _ _ _ _ Hf) in Hk1.
  destruct (woken_back _ _ _ _ Hw Ht1) as (th2 & Ht2 & Hr2 & [->|[_ E]]); [|unfold spin_ok; by rewrite E].
  unfold spin_ok. destruct (t_pc th1) as [| | |b| | | | | |o| | | | | | |o] eqn:Hp1; try done.
  destruct (decide (t1 = t)) as [->|Hne].
  - rewrite list_lookup_insert_eq in Ht2 by done. simplify_eq. rewrite Hp1 in Hsp.
    destruct Hsp as (Hpc & Hop3 & Hb). rewrite Hr, decide_True in Hk1 by done. simplify_eq.
    destruct Hsl as [[Htr _]|(_ & _ & _ & E)]; [|congruence]. unfold slot_count in *. rewrite Hr, Htr. split; [lia|].
    intros ->. pose proof (Hs _ _ (slot (t_req th)) Hf) as E.
    pose proof (countp_nonneg (unannounced (fidx (t_req th)) (slot (t_req th))) (threads σ)).
    destruct (Hb eq_refl); lia.
  - rewrite list_lookup_insert_ne in Ht2 by done. case_decide as E.
    + simplify_eq. pose proof (Hspin t1 th1 f Ht2 ltac:(congruence)) as H1. unfold spin_ok in H1. rewrite Hp1 in H1.
      destruct H1 as [H1 Hb]. split; [done|]. intros ->.
      destruct Hsl as [[Htr _]|(Hpc & _)]; [unfold slot_count in *; rewrite Htr; auto|].
      destruct Hne. destruct (Hfs _ _ Hf) as [Hl _].
      pose proof (lock_holder _ _ _ _ _ Hl Ht eq_refl ltac:(by rewrite Hpc)).
      pose proof (lock_holder _ _ _ _ _ Hl Ht2 (eq_sym E) ltac:(by rewrite Hp1)). congruence.
    + pose proof (Hspin t1 th1 f1 Ht2 Hk1) as H1. unfold spin_ok in H1. by rewrite Hp1 in H1.
Qed.

Lemma live_tstep σ t u σ' : 1 ≤ c → fm_inv c σ → live_inv σ → tstep t u σ = Some σ' → live_inv σ'.
Proof.
  intros Hc Hfm Hlv Hs. destruct (tstep_moved _ _ _ _ Hs) as (th & th' & f & f' & sig & Ht & Hf & Hm & Hok).
  pose proof Hfm as (_ & _ & Hfs & _). destruct (Hfs _ _ Hf) as [_ Hcnt].
  pose proof Hlv as ([Hlate Hsz] & Hsl & Hcar & Hsp). destruct (moved_woken _ _ _ _ _ _ _ _ Hm) as (Hw & _ & Hp).
  split; [|split; [|split]].
  - unfold all_requests. rewrite Hp, (woken_req _ _ Hw), (fmap_req_insert _ t th th') by (done || apply Hok). done.
  - eapply slots_kept; try done. unfold all_requests in Hsz. rewrite length_app, length_fmap in Hsz. lia.
  - by eapply carriers_kept.
  - by eapply spins_kept.
Qed.

Lemma live_start σ σ' : live_inv σ → start_request σ = Some σ' → live_inv σ'.
Proof.
  destruct σ as [fs ths p clk]. unfold start_request; simpl. destruct p as [|q rest]; [done|].
  case_match; [|done]. destruct (getZ fs (fidx q)) as [f|] eqn:Hf; [|done]. simpl.
  intros ([Hlate Hsz] & Hsl & Hcar & Hsp) [= <-]. unfold live_inv, all_requests in *; simpl in *.
  set (new := Thr q Sleeping (clk + 1)).
  assert (∀ t th, (ths ++ [new]) !! t = Some th → ths !! t = Some th ∨ th = new) as Hold.
  { intros t th [Ht|[_ [_ <-]%list_lookup_singleton_Some]]%lookup_app_Some; auto. }
  split_and!.
  - rewrite fmap_app, <- app_assoc. done.
  - by rewrite fmap_app, <- app_assoc.
  - rewrite length_app, length_fmap in Hsz. simpl in Hsz. intros k f0 s Hk. rewrite countp_snoc. rewrite (getZ_setZ _ _ _ _ _ Hf) in Hk.
    unfold unannounced at 2, new; simpl. rewrite andb_true_r. case_decide as E.
    + subst k. simplify_eq. rewrite bool_decide_eq_true_2 by done. simpl. pose proof (Hsl _ _ s Hf) as Hs.
      destruct (operation q <? 3); simpl; [|lia]. unfold slot_count.
      destruct (Z.eqb_spec (slot q) s) as [->|Hne]; simpl.
      * rewrite lookup_insert_eq. simpl. rewrite Hs.
        pose proof (countp_le (unannounced (fidx q) s) ths). pose proof (countp_nonneg (unannounced (fidx q) s) ths).
        rewrite i32_small; lia.
      * rewrite lookup_insert_ne by done. lia.
    + rewrite bool_decide_eq_false_2 by done. simpl. rewrite (Hsl _ _ _ Hk). lia.
  - intros k t th Ht Hw. apply Hold in Ht as [Ht| ->]; [|by destruct Hw].
    destruct (Hcar k t th Ht Hw) as (t' & th' & Ht' & ?). exists t', th'. split; [|done]. by apply lookup_app_l_Some.
  - intros t th f0 Ht Hk. apply Hold in Ht as [Ht| ->]; [|done]. rewrite (getZ_setZ _ _ _ _ _ Hf) in Hk.
    case_decide as E; [|by eapply Hsp]. simplify_eq. pose proof (Hsp t th f Ht ltac:(congruence)) as H1.
    unfold spin_ok in *. destruct (t_pc th) as [| | |b| | | | | |o| | | | | | |o]; try done.
    destruct H1 as [H1 Hb]. split; [done|]. intros ->. specialize (Hb eq_refl).
    destruct (Z.ltb_spec (operation q) 3); [|done]. unfold slot_count in *; simpl.
    destruct (decide (slot q = slot (t_req th))) as [Es|Es]; [exfalso|by rewrite lookup_insert_ne].
    apply (Hlate t (length ths) (t_req th) q); try done; try congruence.
    + by eapply lookup_lt_Some.
    + apply lookup_app_l_Some. by rewrite list_lookup_fmap, Ht.
    + rewrite lookup_app_r by (by rewrite length_fmap). by rewrite length_fmap, Nat.sub_diag.
Qed.

Lemma step_measure σ σ' : step σ σ' → (measure σ' < measure σ)%nat.
Proof.
  intros Hs. destruct Hs as [t u σ σ' Hs|σ σ' Hs].
  - destruct (tstep_moved _ _ _ _ Hs) as (th & th' & f & f' & sig & Ht & _ & (ths' & u0 & Hsg & ->) & (_ & Hwt & _)).
    pose proof (sum_list_with_insert (λ th, weight (t_pc th)) _ _ _ th' Ht) as E1. unfold measure; simpl in *.
    destruct sig; [|subst; lia]. destruct (signal_effect _ _ _ _ Hsg) as [(u1 & th1 & -> & Hu & Hp & _)|[-> _]]; [|lia].
    pose proof (sum_list_with_insert (λ th, weight (t_pc th)) _ _ _ (set_pc Woken th1) Hu) as E2. simpl in *.
    rewrite Hp in E2. simpl in E2. lia.
  - unfold start_request in Hs. destruct (pending σ) as [|q rest] eqn:Ep; [done|]. case_match; [|done].
    destruct (getZ _ _); simplify_eq/=. unfold measure; simpl. rewrite sum_list_with_app, Ep. simpl. lia.
Qed.

Lemma run_measure n σ σ' : run n σ σ' → (n + measure σ' ≤ measure σ)%nat.
Proof. induction 1 as [| |? ? ? ? ? IH Hs]; [lia|done|]. apply step_measure in Hs. lia. Qed.

(** After [n] seconds in which no thread makes a step. *)
Definition later (n : Z) (σ : fm) : fm := Fm (files σ) (threads σ) (pending σ) (clock σ + n).

Lemma later_iter n σ : Nat.iter n tick σ = later (Z.of_nat n) σ.
Proof.
  destruct σ as [fs ths p clk]. induction n as [|n IH]; [unfold later; simpl; f_equal; lia|].
  rewrite Nat.iter_succ, IH. unfold tick, later; simpl. f_equal. lia.
Qed.

Definition can_move (σ : fm) : Prop := ∃ n σ', step (Nat.iter n tick σ) σ'.

(** A thread that neither waits for a mutex, a signal or [time_requests]. *)
Lemma thread_can_move σ t th f : threads σ !! t = Some th → getZ (files σ) (fidx (t_req th)) = Some f →
  f_lock f = None ∨ holds (t_pc th) = true ∨ t_pc th = Sleeping ∨ t_pc th = Working →
  match t_pc th with Waiting | Done _ => False | Spin _ => slot_count f (t_req th) = 0 | _ => True end →
  can_move σ.
Proof.
  intros Ht Hf Hl Hp. exists (Z.to_nat (t_wake th - clock σ)). rewrite later_iter.
  destruct (signal_total (fidx (t_req th)) (<[t := set_pc (Leave Cancelled) th]> (threads σ))) as (u1 & ths1 & S1).
  destruct (signal_total (fidx (t_req th)) (<[t := set_pc (Leave Declined) th]> (threads σ))) as (u2 & ths2 & S2).
  destruct (signal_total (fidx (t_req th)) (<[t := set_pc Unlock2 th]> (threads σ))) as (u3 & ths3 & S3).
  cut (∃ u σ', tstep t u (later (Z.of_nat (Z.to_nat (t_wake th - clock σ))) σ) = Some σ').
  { intros (u & σ' & E). exists σ'. by eapply s_thread. }
  assert (Hlate : (t_wake th <=? clock σ + Z.of_nat (Z.to_nat (t_wake th - clock σ))) = true) by (apply Z.leb_le; lia).
  unfold FileManager.tstep, later; cbn [threads files pending clock].
  rewrite Ht. cbn [mbind option_bind]. rewrite Hf. cbn [mbind option_bind].
  destruct (t_pc th) as [| | |b| | | | | |o| | | | | | |o] eqn:Hpc; try done; cbn in Hl.
  all: try (destruct Hl as [Hl|[Hl|[Hl|Hl]]]; [|discriminate Hl..]; rewrite Hl).
  all: try rewrite Hlate.
  all: try (rewrite Hp; cbn).
  all: try (exists u3; rewrite S3; by eexists).
  all: try (exists O; repeat case_match; by eexists).
  destruct (_ >=? T); [exists u1; rewrite S1; by eexists|].
  destruct (deleted f); [exists u2; rewrite S2; by eexists|]. exists O. case_match; by eexists.
Qed.

Lemma progress σ : fm_inv c σ → live_inv σ → finished σ ∨ can_move σ.
Proof.
  intros (Hpend & Hreq & Hfs & _) (_ & Hsl & Hcar & Hsp). destruct (pending σ) as [|q rest] eqn:Ep.
  2:{ right. exists (Z.to_nat (requesttime q - clock σ)). rewrite later_iter.
      inversion_clear Hpend as [|?? [Hi _] _]. destruct (getZ_is_Some (files σ) _ Hi) as [f Hf].
      eexists. apply s_start. unfold start_request, later; simpl. rewrite Ep.
      rewrite (proj2 (Z.leb_le _ _)) by lia. rewrite Hf. reflexivity. }
  destruct (decide (Forall (λ th, is_done (t_pc th) = true) (threads σ))) as [Hall|Hex].
  { left. split; [done|]. intros t th Ht. pose proof (Forall_lookup_1 _ _ _ _ Hall Ht) as Hd.
    simpl in Hd. destruct (t_pc th); try done. by eexists. }
  right. apply not_Forall_Exists, Exists_exists in Hex as (th & Hin & Hnd); [|apply _].
  apply list_elem_of_lookup in Hin as [t Ht]. simpl in Hnd.
  assert (Hfile : ∀ t th, threads σ !! t = Some th → ∃ f, getZ (files σ) (fidx (t_req th)) = Some f).
  { intros t0 th0 H0. destruct (Forall_lookup_1 _ _ _ _ Hreq H0) as [Hi _]. by apply getZ_is_Some. }
  destruct (Hfile _ _ Ht) as [f Hf]. destruct (Hfs _ _ Hf) as [Hl _]. unfold lock_inv in Hl.
  destruct (f_lock f) as [t0|] eqn:El.
  { destruct Hl as (th0 & Ht0 & Hk0 & Hh0 & _). rewrite <- Hk0 in Hf.
    apply (thread_can_move σ t0 th0 f Ht0 Hf); [auto|]. pose proof (Hsp _ _ _ Ht0 Hf) as Hs.
    unfold spin_ok in Hs. destruct (t_pc th0) as [| | |[]| | | | | |o| | | | | | |o]; try done. by apply Hs. }
  (* the mutex is free: who has not to wait for a signal or a slot can move *)
  assert (Hfree : ∀ t1 th1, threads σ !! t1 = Some th1 → fidx (t_req th1) = fidx (t_req th) →
    match t_pc th1 with Waiting | Done _ | Spin _ => False | _ => True end → can_move σ).
  { intros t1 th1 H1 Hk1 Hp1. rewrite <- Hk1 in Hf. apply (thread_can_move σ t1 th1 f H1 Hf); [auto|].
    by destruct (t_pc th1). }
  destruct (t_pc th) as [| | |b| | | | | |o| | | | | | |o] eqn:Hpc; try (by apply (Hfree t th Ht eq_refl); rewrite Hpc).
  - destruct (decide (slot_count f (t_req th) = 0)) as [E|E].
    { apply (thread_can_move σ t th f Ht Hf); [auto|]. by rewrite Hpc. }
    pose proof (Hsl _ _ (slot (t_req th)) Hf) as Es.
    destruct (countp_pos_inv (unannounced (fidx (t_req th)) (slot (t_req th))) (threads σ)) as (t1 & th1 & H1 & Hu).
    { pose proof (countp_nonneg (unannounced (fidx (t_req th)) (slot (t_req th))) (threads σ)).
      unfold slot_count in E. lia. }
    unfold unannounced in Hu. apply andb_true_iff in Hu as [Hu Hu4].
    apply andb_true_iff in Hu as [Hu _]. apply andb_true_iff in Hu as [Hk1%bool_decide_eq_true _].
    apply (Hfree t1 th1 H1 Hk1). by destruct (t_pc th1).
  - destruct (Hcar (fidx (t_req th)) t th Ht) as (t1 & th1 & H1 & Hk1 & Hc1); [by split|].
    apply (Hfree t1 th1 H1 Hk1). by destruct (t_pc th1).
Qed.
End fm_live.

(** [qsort] with [compareByRequestTime] puts no read or write after a delete
    of its time; within 100 seconds no other times share a slot. *)
Lemma sorted_no_late reqs :
  StronglySorted (λ a b, compareByRequestTime a b ≤ 0) reqs →
  Forall (λ q, 0 ≤ requesttime q < REQUEST_TIME_ARRAY_SIZE ∧ 1 ≤ operation q ≤ 3) reqs → no_late reqs.
Proof.
  intros Hs Ht i j q q' Hij Hi Hj H3 Hlt _ Hslot.
  destruct (Forall_lookup_1 _ _ _ _ Ht Hi) as [T1 _]. destruct (Forall_lookup_1 _ _ _ _ Ht Hj) as [T2 O2].
  unfold slot in Hslot. rewrite !Z.mod_small in Hslot by done.
  assert (compareByRequestTime q q' ≤ 0) as Hle.
  { clear Ht T1 T2 O2. revert i j Hij Hi Hj. induction Hs as [|x l _ IH Hx]; intros [|i] [|j] Hij Hi Hj; try lia; try done.
    - simplify_eq/=. by apply (Forall_lookup_1 _ _ _ _ Hx Hj).
    - apply (IH i j); [lia|done|done]. }
  unfold compareByRequestTime in Hle. rewrite Hslot, Z.eqb_refl in Hle. simpl in Hle. rewrite i32_small in Hle; lia.
Qed.
