(* ===== verification/FileManagerProps.v ===== *)
(** What the file manager of concurrency/partA.c guarantees: exclusion and
    limits of the accesses to a file, deletion, and that every request is
    answered; and a schedule on which a DELETE spins for ever. *)
From S2P Require Import Prelude FileManager FileManagerProof FileManagerLive.

(** ** Definitions *)

(** Anything that can happen: steps of the threads and of [main], time, and
    spurious wake-ups. *)
Definition moves (r w d c T : Z) (σ σ' : fm) : Prop := step r w d c T σ σ' ∨ env_step σ σ'.

(** A schedule, as the choices that drive the program. *)
Inductive choice := CTick | CStart | CThread (t u : nat).
Definition choose (r w d c T : Z) (σ : fm) (a : choice) : option fm :=
  match a with
  | CTick => Some (tick σ)
  | CStart => start_request σ
  | CThread t u => tstep r w d c T t u σ
  end.
Fixpoint execute (r w d c T : Z) (σ : fm) (l : list choice) : option fm :=
  match l with
  | [] => Some σ
  | a :: l' => σ' ← choose r w d c T σ a; execute r w d c T σ' l'
  end.

(** *** Concrete runs *)

(** A reader, a writer and a deleter of one file, with r = w = d = c = 1 and
    T = 9; the reader is inside and the writer waits. *)
Definition ex_reqs : list userrequest := [Req 1 1 1 0; Req 2 1 2 0; Req 3 1 3 1].
Definition ex_schedule : list choice :=
  [CStart; CStart; CTick; CStart] ++ replicate 6 (CThread 0 0) ++ replicate 4 (CThread 1 0).
Definition ex_state : fm :=
  default (fm_start [∅] ex_reqs) (execute 1 1 1 1 9 (fm_start [∅] ex_reqs) ex_schedule).

(** Two deletes of one file, and a read 100 seconds after the second, with
    d = 100: the second delete gets the mutex as the read is made. *)
Definition late_reqs : list userrequest := [Req 1 1 3 0; Req 2 1 3 1; Req 3 1 1 101].
Definition late_schedule : list choice :=
  [CStart; CTick; CStart] ++ replicate 6 (CThread 0 0) ++ [CTick; CThread 1 0] ++
  replicate 99 CTick ++ [CThread 0 0; CThread 0 0; CThread 1 0; CThread 1 0; CStart; CTick; CThread 2 0].
Definition late_state : fm :=
  default (fm_start [∅] late_reqs) (execute 1 1 100 1 200 (fm_start [∅] late_reqs) late_schedule).

(** One delete, of a file whose slot for time 0 holds a 1 that [malloc] left
    there. *)
Definition dirty_start : fm := fm_start [{[0 := 1]}] [Req 1 1 3 0].
Definition dirty_state : fm :=
  default dirty_start (execute 1 1 1 1 9 dirty_start (CStart :: CTick :: replicate 3 (CThread 0 0))).

(** ** Lemmas *)

Section reach.
Context (r w d c T : Z).

Lemma reach_inv left reqs σ : 0 ≤ c → Forall (req_ok (length left)) reqs →
  rtc (moves r w d c T) (fm_start left reqs) σ → fm_inv c σ.
Proof.
  intros Hc Hr. apply (rtc_ind_r (λ σ, fm_inv c σ)); [by apply fm_start_inv|].
  intros σ1 σ2 _ [Hs|Hs] Hi; [by eapply step_inv|by eapply env_inv].
Qed.

Lemma execute_reach σ l σ' : execute r w d c T σ l = Some σ' → rtc (moves r w d c T) σ σ'.
Proof.
  revert σ. induction l as [|a l IH]; intros σ; simpl; [intros [= ->]; apply rtc_refl|].
  destruct (choose r w d c T σ a) as [σ1|] eqn:E; [|done]. simpl. intros H. eapply rtc_l; [|by apply IH].
  destruct a; simpl in E; simplify_eq; [right; constructor|left; by apply s_start|left; by eapply s_thread].
Qed.

Lemma execute_run σ l σ' : execute r w d c T σ l = Some σ' → ∀ n σ0, run r w d c T n σ0 σ →
  ∃ m, run r w d c T m σ0 σ'.
Proof.
  revert σ. induction l as [|a l IH]; intros σ; simpl; [intros [= ->]; eauto|].
  destruct (choose r w d c T σ a) as [σ1|] eqn:E; [|done]. simpl. intros H n σ0 Hr.
  destruct a; simpl in E; simplify_eq; (eapply IH; [exact H|]);
    [by apply run_tick|eapply run_step, s_start; eauto|eapply run_step, s_thread; eauto].
Qed.

(** Deleted files stay deleted. *)
Lemma deleted_stays σ σ' k f : moves r w d c T σ σ' → getZ (files σ) k = Some f → deleted f = true →
  ∃ f', getZ (files σ') k = Some f' ∧ deleted f' = true.
Proof.
  intros [Hs|Hs] Hf Hd.
  - destruct Hs as [t u σ σ' Hs|σ σ' Hs].
    + unfold tstep in Hs. destruct (threads σ !! t) as [th|] eqn:Ht; [|done]. cbn [mbind option_bind] in Hs.
      destruct (getZ (files σ) (fidx (t_req th))) as [f0|] eqn:Hf0; [|done]. cbn [mbind option_bind] in Hs.
      assert (∀ f1, (deleted f0 = true → deleted f1 = true) →
        ∃ f', getZ (setZ (files σ) (fidx (t_req th)) f1) k = Some f' ∧ deleted f' = true) as Hput.
      { intros f1 H1. rewrite (getZ_setZ _ _ _ _ _ Hf0). case_decide; simplify_eq; eauto. }
      destruct (t_pc th); try done.
      all: repeat (case_match; try done); simplify_eq; try (by apply Hput).
      all: destruct (signal _ _ _) in Hs; simplify_eq/=; by apply Hput.
    + unfold start_request in Hs. destruct (pending σ) as [|q rest]; [done|]. case_match; [|done].
      destruct (getZ (files σ) (fidx q)) as [f0|] eqn:Hf0; simplify_eq/=.
      rewrite (getZ_setZ _ _ _ _ _ Hf0). case_decide; simplify_eq; [|eauto]. eexists. split; [done|]. by case_match.
  - destruct Hs; simpl; eauto.
Qed.
End reach.

(** What [main] needs of the memory [malloc] gives it: no count is left over. *)
Definition zeroed (left : gmap Z Z) : Prop := ∀ s, default 0 (left !! s) = 0.

Section live_run.
Context (r w d c T : Z).

Lemma run_reach n σ σ' : run r w d c T n σ σ' → rtc (moves r w d c T) σ σ'.
Proof.
  induction 1 as [| |]; [apply rtc_refl|eapply rtc_r; [done|]..]; [right; constructor|by left].
Qed.

Lemma live_init left reqs : Forall zeroed left → Z.of_nat (length reqs) ≤ MAX_COUNT →
  no_late reqs → live_inv (fm_start left reqs).
Proof.
  intros Hz Hn Hl. split_and!; try done; [unfold MAX_COUNT in Hn; unfold all_requests; simpl; lia|].
  intros k f s Hk. unfold fm_start, getZ in Hk; simpl in Hk.
  case_decide; [|done]. apply list_lookup_fmap_Some in Hk as (m & -> & Hm).
  apply (Forall_lookup_1 _ _ _ _ Hz Hm).
Qed.

Lemma run_live n σ0 σ : 1 ≤ c → fm_inv c σ0 → live_inv σ0 → run r w d c T n σ0 σ → fm_inv c σ ∧ live_inv σ.
Proof.
  intros Hc Hf Hl Hr. induction Hr as [|n σ0 σ' Hr IH|n σ0 σ' σ'' Hr IH Hs]; [done|..]; destruct IH as [IH1 IH2]; try done.
  split; [by eapply step_inv|]. destruct Hs; [by eapply live_tstep|by eapply live_start].
Qed.
End live_run.

(** ** Properties *)





(** C40: every request is answered, where the [time_requests] of the files
    start at zero (the code does not set them: [dirty_delete_spins_forever]),
    [c] is at least 1, and the requests are those [main] accepts and sorts, at
    most [MAX_COUNT] of them, made within 100 seconds.  Then a run takes at
    most 15 steps per request, however the steps are interleaved; and a run
    that is not at its end (all requests started, all threads returned) can go
    on once enough time has passed: no deadlock and no lost wake-up. *)
Theorem all_requests_answered r w d c T left reqs m σ :
  1 ≤ c → Forall zeroed left → Forall (req_ok (length left)) reqs → Z.of_nat (length reqs) ≤ MAX_COUNT →
  StronglySorted (λ a b, compareByRequestTime a b ≤ 0) reqs →
  Forall (λ q, 0 ≤ requesttime q < REQUEST_TIME_ARRAY_SIZE) reqs →
  run r w d c T m (fm_start left reqs) σ →
  (m ≤ 15 * length reqs)%nat ∧ (finished σ ∨ ∃ k σ', step r w d c T (Nat.iter k tick σ) σ').
Proof.
  intros Hc Hz Hr Hn Hs Ht Hrun. split.
  - apply run_measure in Hrun. unfold measure at 2, fm_start in Hrun. simpl in Hrun. lia.
  - assert (no_late reqs) as Hl.
    { apply sorted_no_late; [done|]. apply Forall_forall. intros q Hq. rewrite Forall_forall in Hr, Ht.
      destruct (Hr q Hq) as [_ Ho]. specialize (Ht q Hq). lia. }
    destruct (run_live r w d c T m (fm_start left reqs) σ) as [Hi Hv]; try done.
    + apply fm_start_inv; [lia|done].
    + by apply live_init.
    + by apply (progress r w d c T σ Hi Hv).
Qed.

Lemma all_requests_answered_witness :
  ∃ m, run 1 1 1 1 9 m (fm_start [∅] ex_reqs) ex_state ∧ (m ≤ 45)%nat ∧
  (finished ex_state ∨ ∃ k σ', step 1 1 1 1 9 (Nat.iter k tick ex_state) σ').
Proof.
  assert (execute 1 1 1 1 9 (fm_start [∅] ex_reqs) ex_schedule = Some ex_state) as E by (vm_compute; reflexivity).
  destruct (execute_run 1 1 1 1 9 (fm_start [∅] ex_reqs) ex_schedule ex_state E 0 _ (run_refl _ _ _ _ _ _)) as [m Hm].
  exists m. split; [exact Hm|]. apply (all_requests_answered 1 1 1 1 9 [∅] ex_reqs m ex_state); [lia| | | | | |exact Hm].
  - repeat constructor.
  - repeat constructor; vm_compute; intuition congruence.
  - vm_compute. congruence.
  - repeat constructor; vm_compute; intuition congruence.
  - repeat constructor; vm_compute; intuition congruence.
Defined.

Lemma late_steps n σ : moves 1 1 100 1 200 (later n late_state) σ → ∃ n', σ = later n' late_state.
Proof.
  intros [Hs|Hs].
  - exfalso. inversion Hs as [t u σ1 σ2 H|σ1 σ2 H]; subst; [|vm_compute in H; discriminate H].
    destruct t as [|[|[|t]]]; vm_compute in H; discriminate H.
  - inversion Hs as [σ1|t th σ1 Ht Hp]; subst.
    + exists (n + 1). unfold tick, later; simpl. f_equal. lia.
    + exfalso. destruct t as [|[|[|t]]]; vm_compute in Ht; simplify_eq; vm_compute in Hp; discriminate Hp.
Qed.

(** beyond 100 seconds the slots of [time_requests] are shared, and a
    DELETE can wait for a request it did not have to wait for while it holds
    the mutex that request needs: a reachable state from which only time
    passes, with two requests unanswered. *)
Theorem delete_spins_forever :
  rtc (moves 1 1 100 1 200) (fm_start [∅] late_reqs) late_state ∧
  ∀ σ, rtc (moves 1 1 100 1 200) late_state σ → (∃ n, σ = later n late_state) ∧ ¬ finished σ.
Proof.
  split; [apply (execute_reach _ _ _ _ _ _ late_schedule); vm_compute; reflexivity|].
  intros σ H. assert (∃ n, σ = later n late_state) as [n ->].
  { revert H. apply (rtc_ind_r (λ σ, ∃ n, σ = later n late_state)).
    - exists 0. vm_compute. reflexivity.
    - intros σ1 σ2 _ Hm [n ->]. by eapply late_steps. }
  split; [by eexists|]. intros [_ Hd]. destruct (Hd 1%nat _ ltac:(vm_compute; reflexivity)) as [o Ho]. discriminate Ho.
Qed.

Lemma dirty_steps n σ : moves 1 1 1 1 9 (later n dirty_state) σ → ∃ n', σ = later n' dirty_state.
Proof.
  intros [Hs|Hs].
  - exfalso. inversion Hs as [t u σ1 σ2 H|σ1 σ2 H]; subst; [|vm_compute in H; discriminate H].
    destruct t as [|t]; vm_compute in H; discriminate H.
  - inversion Hs as [σ1|t th σ1 Ht Hp]; subst.
    + exists (n + 1). unfold tick, later; simpl. f_equal. lia.
    + exfalso. destruct t as [|t]; vm_compute in Ht; simplify_eq; vm_compute in Hp; discriminate Hp.
Qed.

(** [main] never sets [time_requests]: with a positive count left in it the
    only DELETE of a run waits for ever, on whatever schedule goes on. *)
Theorem dirty_delete_spins_forever :
  rtc (moves 1 1 1 1 9) dirty_start dirty_state ∧
  ∀ σ, rtc (moves 1 1 1 1 9) dirty_state σ → (∃ n, σ = later n dirty_state) ∧ ¬ finished σ.
Proof.
  split; [apply (execute_reach _ _ _ _ _ _ (CStart :: CTick :: replicate 3 (CThread 0 0))); vm_compute; reflexivity|].
  intros σ H. assert (∃ n, σ = later n dirty_state) as [n ->].
  { revert H. apply (rtc_ind_r (λ σ, ∃ n, σ = later n dirty_state)).
    - exists 0. vm_compute. reflexivity.
    - intros σ1 σ2 _ Hm [n ->]. by eapply dirty_steps. }
  split; [by eexists|]. intros [_ Hd]. destruct (Hd 0%nat _ ltac:(vm_compute; reflexivity)) as [o Ho]. discriminate Ho.
Qed.
