(* ===== verification/Bytes.v ===== *)
(** Little-endian integers and structures in buffers of bytes, as the disk
    blocks hold them. *)
From S2P Require Import Prelude.

(** ** Definitions *)

(** The [n] bytes of [v], and the number [n] bytes stand for. *)
Fixpoint le_put (n : nat) (v : Z) : list Z :=
  match n with
  | O => []
  | S n' => u8 v :: le_put n' (v / 256)
  end.
Fixpoint le_get (l : list Z) : Z :=
  match l with
  | [] => 0
  | x :: l' => u8 x + 256 * le_get l'
  end.

(** The [n]-byte field at offset [off]. *)
Definition field (n : nat) (d : list Z) (off : nat) : Z := le_get (take n (drop off d)).
Definition set_field (n : nat) (d : list Z) (off : nat) (v : Z) : list Z :=
  list_inserts off (le_put n v) d.

Definition i16 (z : Z) : Z := (z + 2 ^ 15) mod 2 ^ 16 - 2 ^ 15.

(** ** Lemmas *)

Lemma length_le_put n v : length (le_put n v) = n.
Proof. revert v. induction n as [|n IH]; intros v; [done|]. simpl. by rewrite IH. Qed.

Lemma le_get_put n v : le_get (le_put n v) = v mod 256 ^ Z.of_nat n.
Proof.
  revert v. induction n as [|n IH]; intros v; [by rewrite Z.mod_1_r|]. simpl le_get. rewrite IH.
  rewrite Nat2Z.inj_succ, Z.pow_succ_r by lia. unfold u8. change (2 ^ 8) with 256.
  rewrite Z.mod_mod by lia. rewrite Z.rem_mul_r by lia. done.
Qed.

Lemma le_get_range l : 0 ≤ le_get l < 256 ^ Z.of_nat (length l).
Proof.
  induction l as [|x l IH]; simpl le_get; [simpl; lia|]. simpl length.
  rewrite Nat2Z.inj_succ, Z.pow_succ_r by lia. pose proof (u8_range x). change (2 ^ 8) with 256 in *. nia.
Qed.

Lemma length_set_field n d off v : length (set_field n d off v) = length d.
Proof. apply length_inserts. Qed.

Lemma slice_inserts (l d : list Z) off n p : (p + n ≤ length d)%nat → (off + length l ≤ length d)%nat →
  (p + n ≤ off ∨ off + length l ≤ p)%nat → take n (drop p (list_inserts off l d)) = take n (drop p d).
Proof.
  intros Hp Ho Hd. apply list_eq. intros i. destruct (decide (i < n)%nat).
  - rewrite !lookup_take_lt, !lookup_drop by lia. destruct Hd.
    + apply list_lookup_inserts_lt. lia.
    + apply list_lookup_inserts_ge. lia.
  - rewrite !lookup_take_ge by lia. done.
Qed.

Lemma slice_inserts_eq (l d : list Z) off : (off + length l ≤ length d)%nat →
  take (length l) (drop off (list_inserts off l d)) = l.
Proof.
  intros Ho. apply list_eq. intros i. destruct (decide (i < length l)%nat).
  - rewrite lookup_take_lt, lookup_drop by lia. rewrite list_lookup_inserts by lia. f_equal. lia.
  - rewrite lookup_take_ge by lia. symmetry. apply lookup_ge_None. lia.
Qed.

Lemma field_set_eq n d off v : (off + n ≤ length d)%nat → field n (set_field n d off v) off = v mod 256 ^ Z.of_nat n.
Proof.
  intros Ho. unfold field, set_field. rewrite <- le_get_put. f_equal.
  rewrite <- (length_le_put n v) at 1. apply slice_inserts_eq. by rewrite length_le_put.
Qed.

Lemma field_set_ne n k d off p v : (p + k ≤ length d)%nat → (off + n ≤ length d)%nat →
  (p + k ≤ off ∨ off + n ≤ p)%nat → field k (set_field n d off v) p = field k d p.
Proof. intros. unfold field, set_field. by rewrite slice_inserts by (rewrite ?length_le_put; lia). Qed.

Lemma field_range n d off : 0 ≤ field n d off < 256 ^ Z.of_nat n.
Proof.
  unfold field. pose proof (le_get_range (take n (drop off d))) as Hr. rewrite length_take in Hr.
  assert (256 ^ Z.of_nat (n `min` length (drop off d)) ≤ 256 ^ Z.of_nat n) by (apply Z.pow_le_mono_r; lia). lia.
Qed.

Lemma i16_small z : - 2 ^ 15 ≤ z < 2 ^ 15 → i16 z = z.
Proof. unfold i16. intros. rewrite Z.mod_small; lia. Qed.
