(* ===== verification/Bio.v ===== *)
(** kernel/bio.c: the buffer cache, and the interface it offers to the log
    and the file system ([BlockStore]). *)
From S2P Require Import Prelude.

(** ** Definitions *)

Definition BSIZE : Z := 1024.
Definition MAXOPBLOCKS : Z := 10.
Definition LOGSIZE : Z := MAXOPBLOCKS * 3.
Definition NBUF : Z := MAXOPBLOCKS * 3.
Definition ROOTDEV : Z := 1.

Definition block : Type := list Z.
Definition zero_block : block := replicate (Z.to_nat BSIZE) 0.

Record buf := Buf {
  b_valid : bool;
  b_dev : Z;
  b_blockno : Z;
  b_lock : bool;
  b_refcnt : Z;
  b_data : block
}.

(** [bcache]: the buffers, and the list through [next] from the most to the
    least recently used.  With it the disk, and the blocks written to it so
    far, the last one last. *)
Record bio := Bio {
  bcache_lock : bool;
  bufs : list buf;
  lru : list nat;
  disk : gmap Z block;
  trace : list (Z * block)
}.

Definition disk_block (d : gmap Z block) (b : Z) : block := default zero_block (d !! b).

Definition set_bcache_lock (l : bool) (s : bio) : bio := Bio l (bufs s) (lru s) (disk s) (trace s).
Definition set_bufs (f : list buf → list buf) (s : bio) : bio :=
  Bio (bcache_lock s) (f (bufs s)) (lru s) (disk s) (trace s).
Definition set_lru (f : list nat → list nat) (s : bio) : bio :=
  Bio (bcache_lock s) (bufs s) (f (lru s)) (disk s) (trace s).

Definition set_lock (l : bool) (b : buf) : buf :=
  Buf (b_valid b) (b_dev b) (b_blockno b) l (b_refcnt b) (b_data b).
Definition set_ref (n : Z) (b : buf) : buf :=
  Buf (b_valid b) (b_dev b) (b_blockno b) (b_lock b) n (b_data b).
Definition set_valid (v : bool) (b : buf) : buf :=
  Buf v (b_dev b) (b_blockno b) (b_lock b) (b_refcnt b) (b_data b).
Definition set_data (d : block) (b : buf) : buf :=
  Buf (b_valid b) (b_dev b) (b_blockno b) (b_lock b) (b_refcnt b) d.

Definition null_buf : buf := Buf false 0 0 false 0 [].
Definition get_buf (i : nat) : M bio buf := gets (λ s, default null_buf (bufs s !! i)).
Definition upd_buf (i : nat) (f : buf → buf) : M bio unit := modify (set_bufs (alter f i)).

Definition acquire_bcache : M bio unit := λ s,
  if bcache_lock s then Panic "acquire" else Ok (tt, set_bcache_lock true s).
Definition release_bcache : M bio unit := λ s,
  if bcache_lock s then Ok (tt, set_bcache_lock false s) else Panic "release".

(** [acquiresleep] sleeps until the holder, another process, lets go. *)
Definition wait_forever : M bio unit := λ _, Diverge.
Definition acquiresleep (i : nat) : M bio unit :=
  b ← get_buf i;
  if b_lock b then wait_forever else upd_buf i (set_lock true).
Definition holdingsleep (i : nat) : M bio bool := b ← get_buf i; mret (b_lock b).
Definition releasesleep (i : nat) : M bio unit := upd_buf i (set_lock false).

(** What the disk driver does for the cache: [virtio_disk_rw] transfers one
    block, and returns when the disk is done. *)
Definition virtio_disk_rw (i : nat) (write : bool) : M bio unit :=
  b ← get_buf i;
  if write then
    modify (λ s, Bio (bcache_lock s) (bufs s) (lru s) (<[b_blockno b := b_data b]> (disk s))
                   (trace s ++ [(b_blockno b, b_data b)]))
  else
    d ← gets disk;
    upd_buf i (set_data (disk_block d (b_blockno b))).

(** [binit] puts every buffer at the head of the list. *)
Definition binit : M bio unit :=
  modify (set_lru (λ _, []));;
  foreach (λ i, upd_buf i (set_lock false);; modify (set_lru (λ l, i :: l))) (seq 0 (Z.to_nat NBUF)).

Definition bget (dev blockno : Z) : M bio nat :=
  acquire_bcache;;
  s ← gets id;
  let cached i := match bufs s !! i with Some b => (b_dev b =? dev) && (b_blockno b =? blockno) | None => false end in
  let unused i := match bufs s !! i with Some b => b_refcnt b =? 0 | None => false end in
  match List.find cached (lru s) with
  | Some i =>
      upd_buf i (λ b, set_ref (u32 (b_refcnt b + 1)) b);;
      release_bcache;;
      acquiresleep i;;
      mret i
  | None =>
      match List.find unused (rev (lru s)) with
      | Some i =>
          upd_buf i (λ b, Buf false dev blockno (b_lock b) 1 (b_data b));;
          release_bcache;;
          acquiresleep i;;
          mret i
      | None => panic "bget: no buffers"
      end
  end.

Definition bread (dev blockno : Z) : M bio nat :=
  i ← bget dev blockno;
  b ← get_buf i;
  (if b_valid b then mret tt
   else virtio_disk_rw i false;; upd_buf i (set_valid true));;
  mret i.

Definition bwrite (i : nat) : M bio unit :=
  h ← holdingsleep i;
  if negb h then panic "bwrite" else virtio_disk_rw i true.

Definition brelse (i : nat) : M bio unit :=
  h ← holdingsleep i;
  if negb h then panic "brelse"
  else
    releasesleep i;;
    acquire_bcache;;
    upd_buf i (λ b, set_ref (u32 (b_refcnt b - 1)) b);;
    b ← get_buf i;
    (if b_refcnt b =? 0 then modify (set_lru (λ l, i :: filter (λ j, j ≠ i) l)) else mret tt);;
    release_bcache.

Definition bpin (i : nat) : M bio unit :=
  acquire_bcache;;
  upd_buf i (λ b, set_ref (u32 (b_refcnt b + 1)) b);;
  release_bcache.

Definition bunpin (i : nat) : M bio unit :=
  acquire_bcache;;
  upd_buf i (λ b, set_ref (u32 (b_refcnt b - 1)) b);;
  release_bcache.

(** *** The interface *)

(** A block in use: how often, whether its lock is held, and its contents in
    memory. *)
Record held := Held { h_ref : Z; h_locked : bool; h_data : block }.

(** What clients see of a store of blocks: the disk, the writes it has seen,
    and the blocks in use. *)
Record store := Store {
  a_disk : gmap Z block;
  a_held : gmap Z held;
  a_trace : list (Z * block)
}.

(** The contents a reader gets. *)
Definition view (a : store) (b : Z) : block :=
  match a_held a !! b with Some h => h_data h | None => disk_block (a_disk a) b end.

Definition set_held (m : gmap Z held) (a : store) : store := Store (a_disk a) m (a_trace a).

(** The blocks that are no longer in use when [a] becomes [a'] lose their
    handles; all others keep them. *)
Class BlockStore (St : Type) := {
  bs_read : Z → Z → M St nat;
  bs_write : nat → M St unit;
  bs_relse : nat → M St unit;
  bs_pin : nat → M St unit;
  bs_unpin : nat → M St unit;
  bs_data : nat → M St block;
  bs_set_data : nat → block → M St unit;
  bs_blockno : nat → M St Z;
  (** [bs_rep s a]: the state [s] is a store [a]; [bs_handle s i b]: [i]
      is the buffer of block [b] *)
  bs_rep : St → store → Prop;
  bs_handle : St → nat → Z → Prop
}.

Definition keeps `{BlockStore St} (s s' : St) (a' : store) : Prop :=
  ∀ i b, bs_handle s i b → is_Some (a_held a' !! b) → bs_handle s' i b.

Class BlockStoreOk (St : Type) `{BlockStore St} : Prop := {
  bs_read_ok s a b : bs_rep s a →
    match a_held a !! b with
    | Some h => h_locked h = false ∧ h_ref h < 2 ^ 32 - 1
    | None => Z.of_nat (size (a_held a)) < NBUF
    end →
    let h' := match a_held a !! b with
              | Some h => Held (h_ref h + 1) true (h_data h)
              | None => Held 1 true (disk_block (a_disk a) b)
              end in
    let a' := set_held (<[b := h']> (a_held a)) a in
    wp (bs_read ROOTDEV b) s (λ i s', bs_rep s' a' ∧ bs_handle s' i b ∧ keeps s s' a');
  bs_write_ok s a i b h : bs_rep s a → bs_handle s i b → a_held a !! b = Some h → h_locked h = true →
    let a' := Store (<[b := h_data h]> (a_disk a)) (a_held a) (a_trace a ++ [(b, h_data h)]) in
    wp (bs_write i) s (λ _ s', bs_rep s' a' ∧ keeps s s' a');
  bs_relse_ok s a i b h : bs_rep s a → bs_handle s i b → a_held a !! b = Some h → h_locked h = true →
    (h_ref h = 1 → h_data h = disk_block (a_disk a) b) →
    let m := if h_ref h =? 1 then delete b (a_held a)
             else <[b := Held (h_ref h - 1) false (h_data h)]> (a_held a) in
    wp (bs_relse i) s (λ _ s', bs_rep s' (set_held m a) ∧ keeps s s' (set_held m a));
  bs_pin_ok s a i b h : bs_rep s a → bs_handle s i b → a_held a !! b = Some h → h_ref h < 2 ^ 32 - 1 →
    let a' := set_held (<[b := Held (h_ref h + 1) (h_locked h) (h_data h)]> (a_held a)) a in
    wp (bs_pin i) s (λ _ s', bs_rep s' a' ∧ keeps s s' a');
  bs_unpin_ok s a i b h : bs_rep s a → bs_handle s i b → a_held a !! b = Some h → 1 < h_ref h →
    let a' := set_held (<[b := Held (h_ref h - 1) (h_locked h) (h_data h)]> (a_held a)) a in
    wp (bs_unpin i) s (λ _ s', bs_rep s' a' ∧ keeps s s' a');
  bs_data_ok s a i b h : bs_rep s a → bs_handle s i b → a_held a !! b = Some h →
    bs_data i s = Ok (h_data h, s);
  bs_set_data_ok s a i b h d : bs_rep s a → bs_handle s i b → a_held a !! b = Some h →
    h_locked h = true → length d = Z.to_nat BSIZE →
    let a' := set_held (<[b := Held (h_ref h) true d]> (a_held a)) a in
    wp (bs_set_data i d) s (λ _ s', bs_rep s' a' ∧ keeps s s' a');
  bs_blockno_ok s a i b h : bs_rep s a → bs_handle s i b → a_held a !! b = Some h →
    bs_blockno i s = Ok (b, s);
  bs_wf s a : bs_rep s a → (∀ b, length (view a b) = Z.to_nat BSIZE) ∧
    (∀ b h, a_held a !! b = Some h → 1 ≤ h_ref h < 2 ^ 32);
  bs_rep_fun s a a' : bs_rep s a → bs_rep s a' → a = a'
}.
