(* ===== verification/BioProof.v ===== *)
(** The buffer cache of kernel/bio.c keeps at most one copy of a block, and
    unused copies agree with the disk; so it implements [BlockStore]. *)
From S2P Require Import Prelude Bio.

(** ** Definitions *)

Definition in_use (b : buf) : Prop := 0 < b_refcnt b.
Definition entry (b : buf) : Z * held := (b_blockno b, Held (b_refcnt b) (b_lock b) (b_data b)).
Definition held_of (l : list buf) : gmap Z held := list_to_map (entry <$> filter in_use l).

Definition buf_ok (d : gmap Z block) (b : buf) : Prop :=
  0 ≤ b_refcnt b < 2 ^ 32 ∧
  (b_lock b = true → in_use b) ∧
  (in_use b → b_valid b = true) ∧
  (b_valid b = true → b_dev b = ROOTDEV ∧ length (b_data b) = Z.to_nat BSIZE ∧
     (b_refcnt b = 0 → b_data b = disk_block d (b_blockno b))).

Definition uniq (l : list buf) : Prop := ∀ i j bi bj, l !! i = Some bi → l !! j = Some bj →
  b_dev bi = ROOTDEV → b_dev bj = ROOTDEV → b_blockno bi = b_blockno bj → i = j.

Definition binv (s : bio) : Prop :=
  bcache_lock s = false ∧ length (bufs s) = Z.to_nat NBUF ∧ lru s ≡ₚ seq 0 (Z.to_nat NBUF) ∧
  uniq (bufs s) ∧ Forall (buf_ok (disk s)) (bufs s) ∧
  (∀ b, length (disk_block (disk s) b) = Z.to_nat BSIZE).

Definition bio_rep (s : bio) (a : store) : Prop :=
  binv s ∧ a = Store (disk s) (held_of (bufs s)) (trace s).
Definition bio_handle (s : bio) (i : nat) (b : Z) : Prop :=
  ∃ bf, bufs s !! i = Some bf ∧ b_blockno bf = b ∧ in_use bf.

Global Instance bio_store : BlockStore bio := {|
  bs_read := bread;
  bs_write := bwrite;
  bs_relse := brelse;
  bs_pin := bpin;
  bs_unpin := bunpin;
  bs_data := λ i, b ← get_buf i; mret (b_data b);
  bs_set_data := λ i d, upd_buf i (set_data d);
  bs_blockno := λ i, b ← get_buf i; mret (b_blockno b);
  bs_rep := bio_rep;
  bs_handle := bio_handle
|}.

(** ** Lemmas *)

#[local] Arguments seq : simpl never.

Section held.
Context (d : gmap Z block) (l : list buf) (Hu : uniq l) (Hok : Forall (buf_ok d) l).

Lemma in_use_dev i b : l !! i = Some b → in_use b → b_dev b = ROOTDEV.
Proof. intros Hi Hb. destruct (Forall_lookup_1 _ _ _ _ Hok Hi) as (_ & _ & H1 & H2). by apply H2, H1. Qed.

Lemma held_lookup k h : held_of l !! k = Some h ↔
  ∃ i b, l !! i = Some b ∧ in_use b ∧ entry b = (k, h).
Proof.
  unfold held_of. split.
  - intros Hk%elem_of_list_to_map_2%list_elem_of_fmap. destruct Hk as (b & E & Hb%list_elem_of_filter).
    destruct Hb as [Hb Hin]. apply list_elem_of_lookup in Hin as [i Hi]. by exists i, b.
  - intros (i & b & Hi & Hb & E). apply elem_of_list_to_map_1'.
    + intros h' Hin%list_elem_of_fmap. destruct Hin as (b' & E' & Hb'%list_elem_of_filter).
      destruct Hb' as [Hb' Hin]. apply list_elem_of_lookup in Hin as [j Hj]. unfold entry in *. simplify_eq.
      assert (i = j) as <- by (eapply Hu; eauto using in_use_dev). by simplify_eq.
    + apply list_elem_of_fmap. exists b. split; [done|]. apply list_elem_of_filter.
      split; [done|by eapply list_elem_of_lookup_2].
Qed.

Lemma held_none k : held_of l !! k = None ↔ ∀ i b, l !! i = Some b → in_use b → b_blockno b ≠ k.
Proof.
  rewrite eq_None_not_Some. split.
  - intros Hn i b Hi Hb E. apply Hn. eexists. apply held_lookup. exists i, b. unfold entry. by rewrite E.
  - intros Hno [h Hh]. apply held_lookup in Hh as (i & b & Hi & Hb & E). unfold entry in E. simplify_eq. by eapply Hno.
Qed.

Lemma held_at i b : l !! i = Some b → in_use b → held_of l !! b_blockno b = Some (entry b).2.
Proof. intros Hi Hb. apply held_lookup. by exists i, b. Qed.

Lemma held_full : (∀ i b, l !! i = Some b → in_use b) → length l = size (held_of l).
Proof.
  intros Hall. assert (NoDup (b_blockno <$> l)) as Hnd.
  { apply NoDup_alt. intros i j k (bi & -> & Hi)%list_lookup_fmap_Some (bj & E & Hj)%list_lookup_fmap_Some.
    eapply Hu; eauto using in_use_dev. }
  rewrite <- size_dom. rewrite <- (length_fmap b_blockno), <- (size_list_to_set (C := gset Z) _ Hnd).
  f_equal. apply set_eq. intros k. rewrite elem_of_list_to_set, elem_of_dom. split.
  - intros (b & -> & [i Hi]%list_elem_of_lookup)%list_elem_of_fmap. eexists. by apply (held_at i b Hi), (Hall i).
  - intros [h (i & b & Hi & Hb & E)%held_lookup]. unfold entry in E. simplify_eq.
    apply list_elem_of_fmap. exists b. split; [done|by eapply list_elem_of_lookup_2].
Qed.
End held.

(** One buffer changes. *)
Lemma held_insert d l i b b' : uniq l → Forall (buf_ok d) l → l !! i = Some b →
  uniq (<[i := b']> l) → Forall (buf_ok d) (<[i := b']> l) →
  held_of (<[i := b']> l) =
    let m := if decide (in_use b) then delete (b_blockno b) (held_of l) else held_of l in
    if decide (in_use b') then <[b_blockno b' := (entry b').2]> m else m.
Proof.
  intros Hu Hok Hi Hu' Hok'. pose proof (lookup_lt_Some _ _ _ Hi) as Hlt. apply map_eq. intros k. apply option_eq. intros h.
  rewrite (held_lookup d) by done.
  assert (∀ m : gmap Z held, (∀ k h, m !! k = Some h ↔ ∃ j bj, j ≠ i ∧ l !! j = Some bj ∧ in_use bj ∧ entry bj = (k, h)) →
    (∃ i0 b0, <[i:=b']> l !! i0 = Some b0 ∧ in_use b0 ∧ entry b0 = (k, h)) ↔
    (if decide (in_use b') then <[b_blockno b':=(entry b').2]> m else m) !! k = Some h) as Hcore.
  { intros m Hm. assert (∀ j bj, j ≠ i → l !! j = Some bj → in_use bj → in_use b' → b_blockno bj ≠ b_blockno b') as Hd.
    { intros j bj Hji Hj Hb Hb' E. apply Hji. 
      assert (<[i:=b']> l !! i = Some b') as Hi' by (by apply list_lookup_insert_eq).
      apply (Hu' j i bj b'); [by rewrite list_lookup_insert_ne|done| | |done].
      - exact (in_use_dev d l Hok j bj Hj Hb).
      - exact (in_use_dev d _ Hok' i b' Hi' Hb'). }
    split.
    - intros (j & bj & Hj & Hb & E). destruct (decide (j = i)) as [->|Hne].
      + rewrite list_lookup_insert_eq in Hj by done. simplify_eq. rewrite decide_True by done.
        unfold entry in *. simplify_eq. by rewrite lookup_insert_eq.
      + rewrite list_lookup_insert_ne in Hj by done. assert (m !! k = Some h) as Hk by (apply Hm; eauto 6).
        case_decide; [|done]. rewrite lookup_insert_ne; [done|]. intros <-. unfold entry in E. simplify_eq. eapply Hd; eauto.
    - case_decide as Hb'.
      + intros [[<- <-]|[_ Hk]]%lookup_insert_Some.
        * exists i, b'. rewrite list_lookup_insert_eq by done. done.
        * apply Hm in Hk as (j & bj & Hji & Hj & ?). exists j, bj. by rewrite list_lookup_insert_ne.
      + intros (j & bj & Hji & Hj & ?)%Hm. exists j, bj. by rewrite list_lookup_insert_ne. }
  cbv zeta. apply Hcore. clear k h Hcore. intros k h. case_decide as Hb.
  - rewrite lookup_delete_Some, (held_lookup d) by done. split.
    + intros (Hk & j & bj & Hj & Hbj & E). exists j, bj. split_and!; try done. intros ->. unfold entry in E. simplify_eq.
    + intros (j & bj & Hji & Hj & Hbj & E). split; [|by eauto 6]. intros E'. apply Hji.
      unfold entry in E. simplify_eq. apply (Hu j i bj b); eauto using in_use_dev.
  - rewrite (held_lookup d) by done. split.
    + intros (j & bj & Hj & Hbj & E). exists j, bj. split_and!; try done. intros ->. simplify_eq. done.
    + naive_solver.
Qed.

Lemma uniq_insert l i bf' : uniq l →
  (∀ j bj, j ≠ i → l !! j = Some bj → b_dev bj = ROOTDEV → b_dev bf' = ROOTDEV → b_blockno bj ≠ b_blockno bf') →
  uniq (<[i := bf']> l).
Proof.
  intros Hu Hno j1 j2 b1 b2 H1 H2 D1 D2 E. destruct (decide (j1 = i)) as [->|N1], (decide (j2 = i)) as [->|N2]; try done.
  - apply list_lookup_insert_Some in H1 as [(_ & -> & _)|[? _]]; [|done].
    rewrite list_lookup_insert_ne in H2 by done. by edestruct (Hno j2 b2).
  - apply list_lookup_insert_Some in H2 as [(_ & -> & _)|[? _]]; [|done].
    rewrite list_lookup_insert_ne in H1 by done. by edestruct (Hno j1 b1).
  - rewrite list_lookup_insert_ne in H1, H2 by done. by eapply Hu.
Qed.

Lemma uniq_same l i bf bf' : uniq l → l !! i = Some bf → b_dev bf' = b_dev bf → b_blockno bf' = b_blockno bf →
  uniq (<[i := bf']> l).
Proof.
  intros Hu Hi E1 E2. apply uniq_insert; [done|]. intros j bj Hne Hj D D' E. apply Hne. eapply (Hu j i); eauto; congruence.
Qed.

(** A buffer comes into use, or stays in use, with new contents. *)
Lemma rep_use s a i bf bf' : bio_rep s a → bufs s !! i = Some bf → in_use bf' → buf_ok (disk s) bf' →
  uniq (<[i := bf']> (bufs s)) → (in_use bf → b_blockno bf' = b_blockno bf) →
  let s' := set_bufs (λ l, <[i := bf']> l) s in
  let a' := set_held (<[b_blockno bf' := (entry bf').2]> (a_held a)) a in
  bio_rep s' a' ∧ bio_handle s' i (b_blockno bf') ∧ keeps s s' a'.
Proof.
  intros [(B1 & B2 & B3 & B4 & B5 & B6) ->] Hi Hb' Hok' Hu' Hsame. pose proof (lookup_lt_Some _ _ _ Hi) as Hlt.
  assert (Forall (buf_ok (disk s)) (<[i:=bf']> (bufs s))) as B5' by (by apply Forall_insert).
  split_and!.
  - split; [split_and!; simpl; rewrite ?length_insert; done|]. unfold set_held; simpl. f_equal.
    rewrite (held_insert (disk s) (bufs s) i bf bf') by done. rewrite (decide_True _ _ Hb'). case_decide as Hb; [|done].
    rewrite Hsame by done. by rewrite insert_delete_eq.
  - exists bf'. simpl. by rewrite list_lookup_insert_eq.
  - intros j b (bj & Hj & Hbj & Huse) _. destruct (decide (j = i)) as [->|Hne].
    + exists bf'. simpl. rewrite list_lookup_insert_eq by done. simplify_eq. rewrite Hsame; done.
    + exists bj. simpl. by rewrite list_lookup_insert_ne.
Qed.

(** A buffer in use, by its handle. *)
Lemma rep_handle s a i b h : bio_rep s a → bio_handle s i b → a_held a !! b = Some h →
  ∃ bf, bufs s !! i = Some bf ∧ b_blockno bf = b ∧ in_use bf ∧ h = Held (b_refcnt bf) (b_lock bf) (b_data bf) ∧
    buf_ok (disk s) bf ∧ b_dev bf = ROOTDEV ∧ b_valid bf = true ∧ length (b_data bf) = Z.to_nat BSIZE.
Proof.
  intros [(B1 & B2 & B3 & B4 & B5 & B6) ->] (bf & Hi & <- & Hu) Hh. exists bf.
  simpl in Hh. rewrite (held_at (disk s) _ B4 B5 i bf Hi Hu) in Hh. simplify_eq.
  pose proof (Forall_lookup_1 _ _ _ _ B5 Hi) as Hok. destruct Hok as (? & ? & H1 & H2); destruct (H2 (H1 Hu)) as (? & ? & ?); by split_and!; auto.
Qed.

(** The list of buffers only matters as a permutation. *)
Lemma rep_lru s a l : bio_rep s a → l ≡ₚ seq 0 (Z.to_nat NBUF) → bio_rep (set_lru (λ _, l) s) a.
Proof. intros [(B1 & B2 & B3 & B4 & B5 & B6) ->] Hl. split; [|done]. by split_and!. Qed.

(** Changes under [bcache.lock]. *)
Lemma upd_locked s i bf f Q : bcache_lock s = false → bufs s !! i = Some bf →
  Q tt (set_bufs (λ l, <[i := f bf]> l) s) →
  wp (acquire_bcache;; upd_buf i f;; release_bcache) s Q.
Proof.
  destruct s as [lk l lr d tr]; simpl. intros -> Hi HQ. unfold wp, acquire_bcache, release_bcache, upd_buf, modify, mbind, M_bind; simpl.
  unfold set_bufs, set_bcache_lock in *; simpl in *. by rewrite (alter_insert _ _ _ _ Hi).
Qed.

Lemma get_buf_eq s i bf : bufs s !! i = Some bf → get_buf i s = Ok (bf, s).
Proof. intros Hi. unfold get_buf, gets. by rewrite Hi. Qed.

Lemma wp_get_buf s i bf Q : bufs s !! i = Some bf → Q bf s → wp (get_buf i) s Q.
Proof. intros Hi HQ. eapply ok_wp; [by apply get_buf_eq|done]. Qed.

(** A new reference count, positive again. *)
Lemma ref_ok s a i b h n f : bio_rep s a → bio_handle s i b → a_held a !! b = Some h → 0 < n < 2 ^ 32 →
  (∀ bf, b_refcnt bf = h_ref h → f bf = set_ref n bf) →
  let a' := set_held (<[b := Held n (h_locked h) (h_data h)]> (a_held a)) a in
  wp (acquire_bcache;; upd_buf i f;; release_bcache) s (λ _ s', bio_rep s' a' ∧ keeps s s' a').
Proof.
  intros Hrep Hh Ha Hn Hf. destruct (rep_handle _ _ _ _ _ Hrep Hh Ha) as (bf & Hi & <- & Hu & -> & Hok & Hd & Hv & Hlen).
  destruct Hok as (O1 & O2 & O3 & O4). pose proof Hrep as [(B1 & _ & _ & B4 & _) _].
  eapply upd_locked; [done..|]. rewrite Hf by done. simpl in *.
  destruct (rep_use s a i bf (set_ref n bf)) as (R1 & _ & R3); try done.
  - unfold in_use; simpl; lia.
  - unfold buf_ok, in_use; simpl. destruct (O4 Hv) as (? & ? & ?). split_and!; try lia; try done.
  - by eapply uniq_same.
Qed.

Lemma bpin_ok s a i b h : bio_rep s a → bio_handle s i b → a_held a !! b = Some h → h_ref h < 2 ^ 32 - 1 →
  let a' := set_held (<[b := Held (h_ref h + 1) (h_locked h) (h_data h)]> (a_held a)) a in
  wp (bpin i) s (λ _ s', bio_rep s' a' ∧ keeps s s' a').
Proof.
  intros Hrep Hh Ha Hr. destruct (rep_handle _ _ _ _ _ Hrep Hh Ha) as (bf0 & _ & _ & Hu & -> & _). unfold in_use in Hu; simpl in *.
  eapply (ref_ok s a i b (Held _ _ _)); try done; simpl; [lia|]. intros bf ->. by rewrite u32_small by lia.
Qed.

Lemma bunpin_ok s a i b h : bio_rep s a → bio_handle s i b → a_held a !! b = Some h → 1 < h_ref h →
  let a' := set_held (<[b := Held (h_ref h - 1) (h_locked h) (h_data h)]> (a_held a)) a in
  wp (bunpin i) s (λ _ s', bio_rep s' a' ∧ keeps s s' a').
Proof.
  intros Hrep Hh Ha Hr. destruct (rep_handle _ _ _ _ _ Hrep Hh Ha) as (bf0 & _ & _ & Hu & -> & (O1 & _) & _). simpl in *.
  eapply (ref_ok s a i b (Held _ _ _)); try done; simpl; [lia|]. intros bf ->. by rewrite u32_small by lia.
Qed.

Lemma bset_data_ok s a i b h d : bio_rep s a → bio_handle s i b → a_held a !! b = Some h →
  h_locked h = true → length d = Z.to_nat BSIZE →
  let a' := set_held (<[b := Held (h_ref h) true d]> (a_held a)) a in
  wp (upd_buf i (set_data d)) s (λ _ s', bio_rep s' a' ∧ keeps s s' a').
Proof.
  intros Hrep Hh Ha Hl Hd. destruct (rep_handle _ _ _ _ _ Hrep Hh Ha) as (bf & Hi & <- & Hu & -> & Hok & Hdv & Hv & Hlen).
  destruct Hok as (O1 & O2 & O3 & O4). pose proof Hrep as [(B1 & _ & _ & B4 & _) _]. simpl in *.
  unfold wp, upd_buf, modify, set_bufs. rewrite (alter_insert _ _ _ _ Hi).
  destruct (rep_use s a i bf (set_data d bf)) as (R1 & _ & R3); [done|done|done| | |done|].
  - unfold buf_ok, in_use in *; simpl. split_and!; try done; lia.
  - by eapply uniq_same.
  - revert R1 R3. unfold entry; simpl. rewrite Hl. done.
Qed.

Lemma bwrite_ok s a i b h : bio_rep s a → bio_handle s i b → a_held a !! b = Some h → h_locked h = true →
  let a' := Store (<[b := h_data h]> (a_disk a)) (a_held a) (a_trace a ++ [(b, h_data h)]) in
  wp (bwrite i) s (λ _ s', bio_rep s' a' ∧ keeps s s' a').
Proof.
  intros Hrep Hh Ha Hl. destruct (rep_handle _ _ _ _ _ Hrep Hh Ha) as (bf & Hi & <- & Hu & -> & Hok & Hdv & Hv & Hlen).
  simpl in *. unfold bwrite, holdingsleep, virtio_disk_rw. wp_steps.
  eapply wp_get_buf; [done|]. wp_steps. rewrite Hl. simpl. wp_steps. eapply wp_get_buf; [done|]. wp_steps.
  destruct Hrep as [(B1 & B2 & B3 & B4 & B5 & B6) ->]; simpl in *. split.
  - split; [|done]. split_and!; try done; simpl.
    + apply Forall_lookup. intros j bj Hj. pose proof (Forall_lookup_1 _ _ _ _ B5 Hj) as (P1 & P2 & P3 & P4).
      do 3 (split; [done|]). intros Hvj. destruct (P4 Hvj) as (Q1 & Q2 & Q3). do 2 (split; [done|]). intros Hz.
      unfold disk_block. destruct (decide (b_blockno bj = b_blockno bf)) as [E|E].
      * assert (j = i) as -> by (by eapply B4). simplify_eq. unfold in_use in Hu. lia.
      * rewrite lookup_insert_ne by done. by apply Q3.
    + intros k. unfold disk_block. destruct (decide (k = b_blockno bf)) as [->|Hne].
      * by rewrite lookup_insert_eq.
      * rewrite lookup_insert_ne by done. apply B6.
  - intros j k Hj _. done.
Qed.

Lemma lru_move s i : binv s → (i < length (bufs s))%nat →
  i :: filter (λ j, j ≠ i) (lru s) ≡ₚ seq 0 (Z.to_nat NBUF).
Proof.
  intros (_ & B2 & B3 & _) Hi. rewrite <- B3.
  assert (i ∈ lru s) as Hin by (rewrite B3; apply elem_of_seq; lia).
  assert (NoDup (lru s)) as Hnd by (rewrite B3; apply NoDup_seq).
  apply NoDup_Permutation; [|done|].
  - apply NoDup_cons. split; [|by apply NoDup_filter]. rewrite list_elem_of_filter. naive_solver.
  - intros j. rewrite elem_of_cons, list_elem_of_filter. destruct (decide (j = i)); naive_solver.
Qed.

Lemma brelse_ok s a i b h : bio_rep s a → bio_handle s i b → a_held a !! b = Some h → h_locked h = true →
  (h_ref h = 1 → h_data h = disk_block (a_disk a) b) →
  let m := if h_ref h =? 1 then delete b (a_held a)
           else <[b := Held (h_ref h - 1) false (h_data h)]> (a_held a) in
  wp (brelse i) s (λ _ s', bio_rep s' (set_held m a) ∧ keeps s s' (set_held m a)).
Proof.
  intros Hrep Hh Ha Hl Hclean. destruct (rep_handle _ _ _ _ _ Hrep Hh Ha) as (bf & Hi & <- & Hu & -> & Hok & Hdv & Hv & Hlen).
  destruct Hok as (O1 & O2 & O3 & O4). unfold in_use in Hu. simpl in *.
  pose proof Hrep as [(B1 & B2 & B3 & B4 & B5 & B6) Ea].
  pose proof (lookup_lt_Some _ _ _ Hi) as Hlt.
  set (bf' := Buf (b_valid bf) (b_dev bf) (b_blockno bf) false (b_refcnt bf - 1) (b_data bf)).
  assert (Hrun : brelse i s = Ok (tt, (if b_refcnt bf =? 1 then set_lru (λ l, i :: filter (λ j, j ≠ i) l) else id)
      (set_bufs (λ l, <[i := bf']> l) s))).
  { destruct s as [lk l lr d tr]; simpl in *. subst lk.
    unfold brelse, holdingsleep, releasesleep, acquire_bcache, release_bcache, upd_buf, get_buf, modify, gets, mbind, M_bind, mret, M_ret; simpl.
    rewrite Hi. simpl. rewrite Hl. simpl. unfold set_bufs, set_bcache_lock, set_lru; simpl.
    rewrite !(alter_insert l _ _ _ Hi).
    rewrite !(alter_insert _ _ (set_lock false bf)) by (by apply list_lookup_insert_eq).
    rewrite !list_insert_insert_eq. rewrite !list_lookup_insert_eq by done. simpl. rewrite !u32_small by lia.
    destruct (Z.eqb_spec (b_refcnt bf - 1) 0), (Z.eqb_spec (b_refcnt bf) 1); try lia; done. }
  eapply ok_wp; [exact Hrun|]. cbv beta.
  assert (buf_ok (disk s) bf') as Hok'.
  { unfold buf_ok, in_use; simpl. split_and!; try lia; try done. intros _. split_and!; try done.
    intros E. rewrite Ea in Hclean. simpl in Hclean. apply Hclean. lia. }
  assert (uniq (<[i := bf']> (bufs s))) as Hu' by (by eapply uniq_same).
  destruct (Z.eqb_spec (b_refcnt bf) 1) as [E1|E1].
  - assert (binv (set_bufs (λ l, <[i := bf']> l) s)) as Hinv.
    { split_and!; simpl; rewrite ?length_insert; try done. by apply Forall_insert. }
    split.
    + apply rep_lru; [|apply (lru_move (set_bufs (λ l, <[i := bf']> l) s)); [done|simpl; by rewrite length_insert]].
      split; [done|]. rewrite Ea. unfold set_held; simpl. f_equal.
      rewrite (held_insert (disk s) (bufs s) i bf bf') by (try done; by apply Forall_insert). cbv zeta.
      rewrite decide_False by (unfold in_use; simpl; lia). by rewrite decide_True by (unfold in_use; lia).
    + intros j k (bj & Hj & <- & Huse) [x Hx]. exists bj. simpl in *. apply lookup_delete_Some in Hx as [Hne _].
      rewrite list_lookup_insert_ne; [done|]. intros ->. by simplify_eq.
  - destruct (rep_use s a i bf bf') as (R1 & _ & R3); try done. unfold in_use; simpl. lia.
Qed.

(** [bget] finds the block's buffer, or recycles an unused one. *)
Lemma bget_ok s a b : bio_rep s a →
  match a_held a !! b with
  | Some h => h_locked h = false ∧ h_ref h < 2 ^ 32 - 1
  | None => Z.of_nat (size (a_held a)) < NBUF
  end →
  ∃ i bf bf', bufs s !! i = Some bf ∧ bget ROOTDEV b s = Ok (i, set_bufs (λ l, <[i := bf']> l) s) ∧
    b_dev bf' = ROOTDEV ∧ b_blockno bf' = b ∧ b_lock bf' = true ∧ b_refcnt bf' = b_refcnt bf + 1 ∧
    b_data bf' = b_data bf ∧
    (b_dev bf = ROOTDEV ∧ b_blockno bf = b ∧ b_valid bf' = b_valid bf ∨
     b_refcnt bf = 0 ∧ b_valid bf' = false ∧
       ∀ j bj, bufs s !! j = Some bj → b_dev bj = ROOTDEV → b_blockno bj ≠ b).
Proof.
  intros [(B1 & B2 & B3 & B4 & B5 & B6) ->] Hpre. destruct s as [lk l lr d tr]; simpl in *. subst lk.
  assert (Hlr : ∀ i, i ∈ lr ↔ (i < length l)%nat) by (intros i; rewrite B3, elem_of_seq; lia).
  unfold bget, acquire_bcache, release_bcache, acquiresleep, upd_buf, get_buf, modify, gets, mbind, M_bind, mret, M_ret.
  unfold set_bufs, set_bcache_lock; simpl. destruct (List.find _ lr) as [i|] eqn:Ef.
  - apply find_some in Ef as [Hin Hc]. apply list_elem_of_In, Hlr, lookup_lt_is_Some in Hin as [bf Hi].
    rewrite Hi in Hc. apply andb_true_iff in Hc as [Hd%Z.eqb_eq Hb%Z.eqb_eq].
    pose proof (Forall_lookup_1 _ _ _ _ B5 Hi) as (O1 & O2 & O3 & O4).
    assert (b_lock bf = false ∧ b_refcnt bf < 2 ^ 32 - 1) as [Hl Hr].
    { destruct (decide (in_use bf)) as [Hu|Hu].
      - rewrite <- Hb, (held_at d l B4 B5 i bf Hi Hu) in Hpre. simpl in Hpre. done.
      - destruct (b_lock bf); [by destruct Hu; apply O2|]. unfold in_use in Hu. split; [done|lia]. }
    exists i, bf. eexists. split; [done|]. split.
    { rewrite !(alter_insert _ _ _ _ Hi). simpl. rewrite list_lookup_insert_eq by (by eapply lookup_lt_Some).
      simpl. rewrite Hl. simpl.
      rewrite (alter_insert _ _ (set_ref (u32 (b_refcnt bf + 1)) bf)) by (apply list_lookup_insert_eq; by eapply lookup_lt_Some).
      rewrite list_insert_insert_eq. reflexivity. }
    simpl. rewrite u32_small by lia. split_and!; try done. by left.
  - assert (Hno : ∀ j bj, l !! j = Some bj → b_dev bj = ROOTDEV → b_blockno bj ≠ b).
    { intros j bj Hj Hd Hb. assert (In j lr) as Hin by (apply list_elem_of_In, Hlr; by eapply lookup_lt_Some).
      pose proof (find_none _ _ Ef j Hin) as Hf. simpl in Hf. rewrite Hj, Hd, Hb, !Z.eqb_refl in Hf. done. }
    destruct (List.find _ (rev lr)) as [i|] eqn:Ef2.
    + apply find_some in Ef2 as [Hin Hc]. rewrite <- in_rev in Hin. apply list_elem_of_In, Hlr, lookup_lt_is_Some in Hin as [bf Hi].
      rewrite Hi in Hc. apply Z.eqb_eq in Hc.
      pose proof (Forall_lookup_1 _ _ _ _ B5 Hi) as (O1 & O2 & O3 & O4).
      assert (b_lock bf = false) as Hl.
      { destruct (b_lock bf) eqn:E; [|done]. specialize (O2 eq_refl). unfold in_use in O2. lia. }
      exists i, bf. eexists. split; [done|]. split.
      { rewrite !(alter_insert _ _ _ _ Hi). simpl. rewrite list_lookup_insert_eq by (by eapply lookup_lt_Some).
        simpl. rewrite Hl. simpl.
        erewrite alter_insert by (apply list_lookup_insert_eq; by eapply lookup_lt_Some).
        rewrite list_insert_insert_eq. reflexivity. }
      simpl. split_and!; try done; [lia|]. right. done.
    + exfalso. assert (∀ i bf, l !! i = Some bf → in_use bf) as Hall.
      { intros i bf Hi. assert (In i (rev lr)) as Hin by (rewrite <- in_rev; apply list_elem_of_In, Hlr; by eapply lookup_lt_Some).
        pose proof (find_none _ _ Ef2 i Hin) as Hf. simpl in Hf. rewrite Hi in Hf. apply Z.eqb_neq in Hf.
        pose proof (Forall_lookup_1 _ _ _ _ B5 Hi) as (O1 & _). unfold in_use. lia. }
      pose proof (held_full d l B4 B5 Hall) as Hsz.
      destruct (held_of l !! b) as [h|] eqn:Eh; [|rewrite <- Hsz, B2 in Hpre; unfold NBUF, MAXOPBLOCKS in Hpre; lia].
      apply (held_lookup d l B4 B5) in Eh as (i & bf & Hi & Hu & E). unfold entry in E. simplify_eq.
      eapply (Hno i bf); [done| |done]. by eapply (in_use_dev d l B5).
Qed.

Lemma bread_ok s a b : bio_rep s a →
  match a_held a !! b with
  | Some h => h_locked h = false ∧ h_ref h < 2 ^ 32 - 1
  | None => Z.of_nat (size (a_held a)) < NBUF
  end →
  let h' := match a_held a !! b with
            | Some h => Held (h_ref h + 1) true (h_data h)
            | None => Held 1 true (disk_block (a_disk a) b)
            end in
  let a' := set_held (<[b := h']> (a_held a)) a in
  wp (bread ROOTDEV b) s (λ i s', bio_rep s' a' ∧ bio_handle s' i b ∧ keeps s s' a').
Proof.
  intros Hrep Hpre. destruct (bget_ok s a b Hrep Hpre) as (i & bf & bf' & Hi & Hrun & D' & Bn & L' & R' & Da & Hcase).
  pose proof Hrep as [(B1 & B2 & B3 & B4 & B5 & B6) Ea]. pose proof (lookup_lt_Some _ _ _ Hi) as Hlt.
  pose proof (Forall_lookup_1 _ _ _ _ B5 Hi) as (O1 & O2 & O3 & O4).
  set (bf2 := if b_valid bf' then bf' else set_valid true (set_data (disk_block (disk s) b) bf')).
  assert (Hend : bread ROOTDEV b s = Ok (i, set_bufs (λ l, <[i := bf2]> l) s)).
  { unfold bread, virtio_disk_rw, upd_buf, modify, gets, mbind, M_bind, mret, M_ret. rewrite Hrun.
    rewrite (get_buf_eq _ i bf') by (simpl; by rewrite list_lookup_insert_eq). subst bf2.
    destruct (b_valid bf'); [done|]. rewrite (get_buf_eq _ i bf') by (simpl; by rewrite list_lookup_insert_eq).
    unfold set_bufs; simpl.
    rewrite !(alter_insert (<[i:=bf']> (bufs s)) i bf') by (by apply list_lookup_insert_eq).
    erewrite alter_insert by (apply list_lookup_insert_eq; by rewrite length_insert).
    by rewrite !list_insert_insert_eq, Bn. }
  assert (F2 : b_dev bf2 = ROOTDEV ∧ b_blockno bf2 = b ∧ b_lock bf2 = true ∧ b_refcnt bf2 = b_refcnt bf + 1 ∧ b_valid bf2 = true ∧
    b_data bf2 = if b_valid bf' then b_data bf else disk_block (disk s) b).
  { subst bf2. by destruct (b_valid bf') eqn:?. }
  destruct F2 as (D2 & N2 & L2 & R2 & V2 & Da2).
  assert (Hentry : (entry bf2).2 = match a_held a !! b with
            | Some h => Held (h_ref h + 1) true (h_data h)
            | None => Held 1 true (disk_block (a_disk a) b) end ∧ b_refcnt bf + 1 < 2 ^ 32).
  { unfold entry; simpl. rewrite L2, R2, Da2. rewrite Ea in *; simpl in *.
    destruct Hcase as [(D1 & N1 & V1)|(R1 & V1 & Hno)].
    - rewrite V1. destruct (decide (in_use bf)) as [Hu|Hu].
      + rewrite <- N1, (held_at (disk s) _ B4 B5 i bf Hi Hu) in *. simpl in *. rewrite O3 by done. split; [done|lia].
      + assert (b_refcnt bf = 0) as Hz by (unfold in_use in Hu; lia).
        assert (held_of (bufs s) !! b = None) as ->.
        { apply (held_none (disk s) _ B4 B5). intros j bj Hj Hbj E. apply Hu.
          assert (j = i) as ->; [|by simplify_eq]. eapply B4; eauto; [by eapply (in_use_dev (disk s) _ B5)|congruence]. }
        rewrite Hz. split; [|lia]. f_equal. destruct (b_valid bf) eqn:Ev; [|done]. destruct O4 as (_ & _ & Hd); [done|].
        by rewrite Hd, N1.
    - rewrite R1, V1. split; [|lia]. assert (held_of (bufs s) !! b = None) as ->; [|done].
      apply (held_none (disk s) _ B4 B5). intros j bj Hj Hbj. eapply Hno; [done|]. by eapply (in_use_dev (disk s) _ B5). }
  destruct Hentry as [Hentry Hmax].
  destruct (rep_use s a i bf bf2) as (K1 & K2 & K3); try done.
  - unfold in_use. rewrite R2. lia.
  - unfold buf_ok, in_use. rewrite R2. split_and!; try lia; try done. intros _. split; [done|]. split; [|lia].
    rewrite Da2. destruct (b_valid bf') eqn:Ev; [|apply B6]. destruct Hcase as [(_ & _ & V1)|(_ & V1 & _)]; [|congruence].
    apply O4. congruence.
  - apply uniq_insert; [done|]. intros j bj Hne Hj Dj _ E. destruct Hcase as [(D1 & N1 & _)|(_ & _ & Hno)].
    + apply Hne. eapply (B4 j i); eauto. congruence.
    + eapply Hno; [done..|congruence].
  - intros Hu. destruct Hcase as [(_ & N1 & _)|(R1 & _)]; [congruence|]. unfold in_use in Hu. lia.
  - eapply ok_wp; [exact Hend|]. rewrite <- Hentry, <- N2. done.
Qed.

Global Instance bio_store_ok : BlockStoreOk bio.
Proof.
  split.
  - exact bread_ok.
  - exact bwrite_ok.
  - exact brelse_ok.
  - exact bpin_ok.
  - exact bunpin_ok.
  - intros s a i b h Hr Hh Ha. destruct (rep_handle _ _ _ _ _ Hr Hh Ha) as (bf & Hi & _ & _ & -> & _).
    simpl. unfold mbind, M_bind. by rewrite (get_buf_eq _ _ _ Hi).
  - exact bset_data_ok.
  - intros s a i b h Hr Hh Ha. destruct (rep_handle _ _ _ _ _ Hr Hh Ha) as (bf & Hi & <- & _).
    simpl. unfold mbind, M_bind. by rewrite (get_buf_eq _ _ _ Hi).
  - intros s a [(B1 & B2 & B3 & B4 & B5 & B6) ->]. split.
    + intros b. unfold view; simpl. destruct (held_of (bufs s) !! b) as [h|] eqn:E; [|apply B6].
      apply (held_lookup (disk s) _ B4 B5) in E as (i & bf & Hi & Hu & E). unfold entry in E. simplify_eq. simpl.
      pose proof (Forall_lookup_1 _ _ _ _ B5 Hi) as (_ & _ & O3 & O4). by apply O4, O3.
    + intros b h E. simpl in E. apply (held_lookup (disk s) _ B4 B5) in E as (i & bf & Hi & Hu & E).
      unfold entry in E. simplify_eq. simpl.
      pose proof (Forall_lookup_1 _ _ _ _ B5 Hi) as (O1 & _). unfold in_use in Hu. lia.
  - by intros s a a' [_ ->] [_ ->].
Qed.

(** [binit] on zeroed buffers makes an empty store. *)
Lemma binit_ok d : (∀ b, length (disk_block d b) = Z.to_nat BSIZE) →
  wp binit (Bio false (replicate (Z.to_nat NBUF) null_buf) [] d [])
    (λ _ s, bio_rep s (Store d ∅ []) ∧ lru s = rev (seq 0 (Z.to_nat NBUF))).
Proof.
  intros Hd. eapply ok_wp; [vm_compute; reflexivity|]. split; [|vm_compute; reflexivity]. split; [|reflexivity].
  split_and!; try done.
  - simpl. change (rev (seq 0 (Z.to_nat NBUF)) ≡ₚ seq 0 (Z.to_nat NBUF)). by rewrite <- Permutation_rev.
  - simpl. intros i j bi bj Hi Hj D. change (replicate (Z.to_nat NBUF) null_buf !! i = Some bi) in Hi.
    by apply lookup_replicate in Hi as [-> _].
  - change (Forall (buf_ok d) (replicate (Z.to_nat NBUF) null_buf)). apply Forall_replicate. by split_and!.
Qed.
