(* ===== verification/Log.v ===== *)
(** kernel/log.c: the redo log that makes file-system transactions atomic
    across crashes, over any [BlockStore]. *)
From S2P Require Import Prelude Bytes Bio.

(** ** Definitions *)

(** [struct logheader] in the header block. *)
Definition header_n (d : block) : Z := i32 (field 4 d 0).
Definition header_block (d : block) (i : Z) : Z := i32 (field 4 d (Z.to_nat (4 + 4 * i))).
Definition put_header_n (n : Z) (d : block) : block := set_field 4 d 0 n.
Definition put_header_block (i b : Z) (d : block) : block := set_field 4 d (Z.to_nat (4 + 4 * i)) b.

(** [struct log]; [lh_n] and [lh_block] are the header in memory. *)
Record logst := LogSt {
  log_lock : bool;
  start : Z;
  log_size : Z;
  outstanding : Z;
  committing : bool;
  log_dev : Z;
  lh_n : Z;
  lh_block : list Z
}.

Definition set_log_lock (l : bool) (g : logst) : logst :=
  LogSt l (start g) (log_size g) (outstanding g) (committing g) (log_dev g) (lh_n g) (lh_block g).
Definition set_lh (n : Z) (bs : list Z) (g : logst) : logst :=
  LogSt (log_lock g) (start g) (log_size g) (outstanding g) (committing g) (log_dev g) n bs.
Definition set_ops (o : Z) (c : bool) (g : logst) : logst :=
  LogSt (log_lock g) (start g) (log_size g) o c (log_dev g) (lh_n g) (lh_block g).

Section log.
Context `{BlockStore St}.

Definition lst : Type := St * logst.
Definition io {A} (m : M St A) : M lst A := lift_m fst (λ s1 s, (s1, snd s)) m.
Definition lget {A} (f : logst → A) : M lst A := gets (λ s, f (snd s)).
Definition lupd (f : logst → logst) : M lst unit := modify (λ s, (fst s, f (snd s))).

Definition acquire_log : M lst unit := λ s,
  if log_lock (snd s) then Panic "acquire" else Ok (tt, (fst s, set_log_lock true (snd s))).
Definition release_log : M lst unit := λ s,
  if log_lock (snd s) then Ok (tt, (fst s, set_log_lock false (snd s))) else Panic "release".

(** The body of the loop of [install_trans]: from log block [lb] to its home
    [b]. *)
Definition install_block (dev lb b : Z) (recovering : bool) : M St unit :=
  lbuf ← bs_read dev lb;
  dbuf ← bs_read dev b;
  d ← bs_data lbuf;
  bs_set_data dbuf d;;
  bs_write dbuf;;
  (if recovering then mret tt else bs_unpin dbuf);;
  bs_relse lbuf;;
  bs_relse dbuf.

(** The block number at index [i] of the header in memory. *)
Definition lh_at (i : Z) : M lst Z :=
  bs ← lget lh_block;
  (match getZ bs i with Some b => mret b | None => panic "index" end : M lst Z).

Definition install_trans (recovering : bool) : M lst unit :=
  n ← lget lh_n;
  foreach (λ tail,
    dev ← lget log_dev;
    s ← lget start;
    b ← lh_at tail;
    io (install_block dev (s + tail + 1) b recovering)) (seqZ 0 n).

Definition read_head : M lst unit :=
  dev ← lget log_dev;
  s ← lget start;
  buf ← io (bs_read dev s);
  d ← io (bs_data buf);
  lupd (λ g, set_lh (header_n d) (lh_block g) g);;
  foreach (λ i,
    bs ← lget lh_block;
    match getZ bs i with
    | Some _ => lupd (λ g, set_lh (lh_n g) (setZ (lh_block g) i (header_block d i)) g)
    | None => panic "index"
    end) (seqZ 0 (header_n d));;
  io (bs_relse buf).

Definition write_head : M lst unit :=
  dev ← lget log_dev;
  s ← lget start;
  buf ← io (bs_read dev s);
  n ← lget lh_n;
  d ← io (bs_data buf);
  io (bs_set_data buf (put_header_n n d));;
  foreach (λ i,
    b ← lh_at i;
    d ← io (bs_data buf);
    io (bs_set_data buf (put_header_block i b d))) (seqZ 0 n);;
  io (bs_write buf);;
  io (bs_relse buf).

Definition recover_from_log : M lst unit :=
  read_head;;
  install_trans true;;
  lupd (λ g, set_lh 0 (lh_block g) g);;
  write_head.

(** [initlog], with [sb->logstart] and [sb->nlog]. *)
Definition initlog (dev logstart nlog : Z) : M lst unit :=
  lupd (λ g, LogSt false logstart nlog (outstanding g) (committing g) dev (lh_n g) (lh_block g));;
  recover_from_log.

(** [begin_op] where it does not have to wait; a caller that must wait
    sleeps until an [end_op] of another process. *)
Definition sleep_forever : M lst unit := λ _, Diverge.
Definition begin_op : M lst unit :=
  acquire_log;;
  c ← lget committing;
  n ← lget lh_n;
  o ← lget outstanding;
  if (c : bool) then sleep_forever
  else if n + (o + 1) * MAXOPBLOCKS >? LOGSIZE then sleep_forever
  else lupd (λ g, set_ops (outstanding g + 1) (committing g) g);; release_log.

(** The body of the loop of [write_log]: from the cache to the log. *)
Definition write_block (dev lb b : Z) : M St unit :=
  to ← bs_read dev lb;
  from ← bs_read dev b;
  d ← bs_data from;
  bs_set_data to d;;
  bs_write to;;
  bs_relse from;;
  bs_relse to.

Definition write_log : M lst unit :=
  n ← lget lh_n;
  foreach (λ tail,
    dev ← lget log_dev;
    s ← lget start;
    b ← lh_at tail;
    io (write_block dev (s + tail + 1) b)) (seqZ 0 n).

Definition commit : M lst unit :=
  n ← lget lh_n;
  if n >? 0 then
    write_log;;
    write_head;;
    install_trans false;;
    lupd (λ g, set_lh 0 (lh_block g) g);;
    write_head
  else mret tt.

Definition end_op : M lst unit :=
  acquire_log;;
  lupd (λ g, set_ops (outstanding g - 1) (committing g) g);;
  c ← lget committing;
  if (c : bool) then panic "log.committing"
  else
    o ← lget outstanding;
    (if o =? 0 then lupd (λ g, set_ops (outstanding g) true g) else mret tt);;
    release_log;;
    if o =? 0 then
      commit;;
      acquire_log;;
      lupd (λ g, set_ops (outstanding g) false g);;
      release_log
    else mret tt.

(** Where [b] is, or would go, in the header. *)
Fixpoint log_slot (bs : list Z) (n : nat) (b : Z) : Z :=
  match n, bs with
  | S n', x :: bs' => if x =? b then 0 else 1 + log_slot bs' n' b
  | _, _ => 0
  end.

Definition log_write (buf : nat) : M lst unit :=
  acquire_log;;
  n ← lget lh_n;
  sz ← lget log_size;
  if (n >=? LOGSIZE) || (n >=? sz - 1) then panic "too big a transaction"
  else
    o ← lget outstanding;
    if o <? 1 then panic "log_write outside of trans"
    else
      b ← io (bs_blockno buf);
      bs ← lget lh_block;
      let i := log_slot bs (Z.to_nat n) b in
      match getZ bs i with
      | None => panic "index"
      | Some _ =>
          lupd (λ g, set_lh (lh_n g) (setZ (lh_block g) i b) g);;
          (if i =? n then io (bs_pin buf);; lupd (λ g, set_lh (lh_n g + 1) (lh_block g) g) else mret tt);;
          release_log
      end.
End log.
