(* ===== verification/LogProof.v ===== *)
(** The log of kernel/log.c over any block store: its header as it is stored,
    what each routine does to the disk and to the blocks in use, and its loops:
    writing the log, installing it, reading and writing the header. *)
From S2P Require Import Prelude Bytes Bio Log.

(** ** Definitions *)

(** The header block with the first [k] of the blocks [bs]. *)
Fixpoint put_blocks (bs : list Z) (k : nat) (d : block) : block :=
  match k with
  | O => d
  | S k' => put_header_block (Z.of_nat k') (default 0 (bs !! k')) (put_blocks bs k' d)
  end.
Definition put_header (bs : list Z) (d : block) : block :=
  put_blocks bs (length bs) (put_header_n (Z.of_nat (length bs)) d).

(** The blocks a header block lists. *)
Definition get_header (d : block) : list Z := header_block d <$> seqZ 0 (header_n d).

(** Block numbers that fit the header's [int]s. *)
Definition blocknos (bs : list Z) : Prop := Forall (λ b, 0 ≤ b < 2 ^ 31) bs ∧ Z.of_nat (length bs) ≤ LOGSIZE.

(** The disk after the writes [ws]. *)
Definition apply_writes (d : gmap Z block) (ws : list (Z * block)) : gmap Z block :=
  foldl (λ d w, <[w.1 := w.2]> d) d ws.

(** The header in memory lists the blocks [bs]. *)
Definition lists (g : logst) (bs : list Z) : Prop :=
  log_dev g = ROOTDEV ∧ lh_n g = Z.of_nat (length bs) ∧ take (length bs) (lh_block g) = bs ∧
  length (lh_block g) = Z.to_nat LOGSIZE.

(** The writes of [write_log] and of [install_trans]. *)
Definition log_writes (st : Z) (bs : list Z) (f : Z → block) : list (Z * block) :=
  imap (λ i b, (st + Z.of_nat i + 1, f b)) bs.
Definition home_writes (bs : list Z) (f : nat → block) : list (Z * block) := imap (λ i b, (b, f i)) bs.

(** [install_block] copies block [lb] of the disk to [b], which is pinned by
    the log unless the machine is recovering. *)
Definition unpinned (b : Z) (m : gmap Z held) (d : block) : gmap Z held :=
  match m !! b with
  | None => m
  | Some h => if h_ref h =? 1 then delete b m else <[b := Held (h_ref h - 1) false d]> m
  end.

(** Pinned blocks released by the writes [ws]. *)
Definition unpin_all (m : gmap Z held) (ws : list (Z * block)) : gmap Z held :=
  foldl (λ m w, unpinned w.1 m w.2) m ws.

(** ** Lemmas *)

Lemma length_put_header_n n d : length (put_header_n n d) = length d.
Proof. apply length_set_field. Qed.
Lemma length_put_header_block i b d : length (put_header_block i b d) = length d.
Proof. apply length_set_field. Qed.
Lemma length_put_blocks bs k d : length (put_blocks bs k d) = length d.
Proof. induction k as [|k IH]; [done|]. simpl. by rewrite length_put_header_block. Qed.
Lemma length_put_header bs d : length (put_header bs d) = length d.
Proof. unfold put_header. by rewrite length_put_blocks, length_put_header_n. Qed.

Lemma i32_field z : 0 ≤ z < 2 ^ 31 → i32 (z mod 256 ^ Z.of_nat 4) = z.
Proof. intros. change (256 ^ Z.of_nat 4) with (2 ^ 32). rewrite Z.mod_small by lia. apply i32_small. lia. Qed.

Lemma header_n_put_blocks bs k d : (k ≤ Z.to_nat LOGSIZE)%nat → length d = Z.to_nat BSIZE →
  header_n (put_blocks bs k d) = header_n d.
Proof.
  unfold LOGSIZE, MAXOPBLOCKS, BSIZE. intros Hk Hd. unfold header_n. f_equal. induction k as [|k IH]; [done|].
  simpl. unfold put_header_block. rewrite field_set_ne by (rewrite ?length_put_blocks; lia). apply IH. lia.
Qed.

Lemma header_block_put_blocks bs k d i : (k ≤ Z.to_nat LOGSIZE)%nat → length d = Z.to_nat BSIZE → (i < k)%nat →
  0 ≤ default 0 (bs !! i) < 2 ^ 31 → header_block (put_blocks bs k d) (Z.of_nat i) = default 0 (bs !! i).
Proof.
  unfold LOGSIZE, MAXOPBLOCKS, BSIZE. intros Hk Hd Hi Hb. unfold header_block. induction k as [|k IH]; [lia|].
  simpl. unfold put_header_block. destruct (decide (i = k)) as [->|Hne].
  - rewrite field_set_eq by (rewrite length_put_blocks; lia). by apply i32_field.
  - rewrite field_set_ne by (rewrite ?length_put_blocks; lia). apply IH; lia.
Qed.

(** What is written in the header is read back. *)
Lemma get_put_header bs d : blocknos bs → length d = Z.to_nat BSIZE → get_header (put_header bs d) = bs.
Proof.
  intros [Hb Hl] Hd. unfold get_header, put_header.
  assert (length (put_header_n (Z.of_nat (length bs)) d) = Z.to_nat BSIZE) as Hd' by (by rewrite length_put_header_n).
  rewrite header_n_put_blocks by (try done; unfold LOGSIZE, MAXOPBLOCKS in *; lia).
  assert (header_n (put_header_n (Z.of_nat (length bs)) d) = Z.of_nat (length bs)) as ->.
  { unfold header_n, put_header_n. rewrite field_set_eq by (unfold BSIZE in Hd; lia).
    apply i32_field. unfold LOGSIZE, MAXOPBLOCKS in Hl. lia. }
  apply list_eq. intros i. rewrite list_lookup_fmap. destruct (bs !! i) as [b|] eqn:Ei.
  - pose proof (lookup_lt_Some _ _ _ Ei). rewrite (proj2 (lookup_seqZ _ _ _ (Z.of_nat i))) by lia. simpl. f_equal.
    rewrite header_block_put_blocks; rewrite ?Ei; try done; [unfold LOGSIZE, MAXOPBLOCKS in *; lia|].
    simpl. by apply (Forall_lookup_1 _ _ _ _ Hb Ei).
  - apply lookup_ge_None in Ei. by rewrite lookup_seqZ_ge by lia.
Qed.

Lemma get_header_0 d : length d = Z.to_nat BSIZE → get_header (put_header_n 0 d) = [].
Proof. intros Hd. apply (get_put_header [] d); [|done]. split; [constructor|done]. Qed.

(** *** Writes *)

Lemma apply_writes_app d ws1 ws2 : apply_writes d (ws1 ++ ws2) = apply_writes (apply_writes d ws1) ws2.
Proof. apply foldl_app. Qed.

Lemma apply_writes_ne d ws k : k ∉ ws.*1 → apply_writes d ws !! k = d !! k.
Proof.
  revert d. induction ws as [|[b x] ws IH]; intros d Hk; [done|]. simpl in *.
  rewrite not_elem_of_cons in Hk. destruct Hk as [Hne Hk]. fold (apply_writes (<[b:=x]> d) ws).
  rewrite IH by done. by rewrite lookup_insert_ne.
Qed.

Lemma apply_writes_eq d d' ws k : k ∈ ws.*1 → apply_writes d ws !! k = apply_writes d' ws !! k.
Proof.
  revert d d'. induction ws as [|[b x] ws IH]; intros d d' Hk; simpl in *; [by apply elem_of_nil in Hk|].
  destruct (decide (k ∈ ws.*1)) as [Hin|Hin]; [by apply (IH (<[b:=x]> d) (<[b:=x]> d'))|].
  apply elem_of_cons in Hk as [->|]; [|done]. fold (apply_writes (<[b:=x]> d) ws) (apply_writes (<[b:=x]> d') ws).
  rewrite !apply_writes_ne by done. by rewrite !lookup_insert_eq.
Qed.

Lemma apply_writes_lookup d ws k x : NoDup ws.*1 → (k, x) ∈ ws → apply_writes d ws !! k = Some x.
Proof.
  revert d. induction ws as [|[b y] ws IH]; intros d Hnd Hin; simpl in *; [by apply elem_of_nil in Hin|].
  apply NoDup_cons in Hnd as [Hb Hnd]. fold (apply_writes (<[b:=y]> d) ws). apply elem_of_cons in Hin as [[= <- <-]|Hin].
  - rewrite apply_writes_ne by done. by rewrite lookup_insert_eq.
  - by apply IH.
Qed.

(** Writing again what was partly written already. *)
Lemma apply_writes_over d p ws : (∀ k, k ∈ p.*1 → k ∈ ws.*1) → apply_writes (apply_writes d p) ws = apply_writes d ws.
Proof.
  intros Hp. apply map_eq. intros k. destruct (decide (k ∈ ws.*1)) as [Hin|Hin]; [by apply apply_writes_eq|].
  assert (k ∉ p.*1) by (intros Hk; by apply Hin, Hp).
  rewrite (apply_writes_ne _ ws), (apply_writes_ne _ p), (apply_writes_ne d ws) by done. done.
Qed.

Lemma prefix_app_cases {A} (p l1 l2 : list A) : p `prefix_of` l1 ++ l2 →
  p `prefix_of` l1 ∨ ∃ q, p = l1 ++ q ∧ q `prefix_of` l2.
Proof.
  intros Hp. destruct (prefix_weak_total p l1 (l1 ++ l2) Hp) as [|[q ->]]; [by apply prefix_app_r|by left|].
  right. exists q. split; [done|]. by eapply prefix_app_inv.
Qed.

(** Maps built by a few updates at known keys. *)
Ltac held_eq lb b :=
  apply map_eq; let k := fresh in intros k;
  destruct (decide (k = lb)), (decide (k = b)); simplify_map_eq; try done.

Lemma keeps_use `{BlockStore St} (s s' : St) a i b h :
  keeps s s' a → bs_handle s i b → a_held a !! b = Some h → bs_handle s' i b.
Proof. intros Hk Hh Hb. apply Hk; eauto. Qed.

(** A handle, through the calls made since the block was read. *)
Ltac bs_handle_tac :=
  first [eassumption | eapply keeps_use; [eassumption|bs_handle_tac|by simplify_map_eq]].

(** The next call of the store, on a block in use. *)
Ltac bs_call H :=
  wp_steps; eapply wp_mono; [eapply H; [eassumption|bs_handle_tac|by simplify_map_eq|..]|cbv beta zeta; simpl].
Ltac bs_get_data :=
  wp_steps; eapply ok_wp; [eapply bs_data_ok; [eassumption|bs_handle_tac|by simplify_map_eq]|cbv beta; simpl].

(** Equal stores are the same store. *)
Ltac bs_done R lb b :=
  refine (eq_rect _ (bs_rep _) R _ _); unfold set_held; simpl; f_equal; held_eq lb b.

Section block_ops.
Context {St} `{BS : BlockStore St, !BlockStoreOk St}.

Lemma read_free_ok s a b : bs_rep s a → a_held a !! b = None → Z.of_nat (size (a_held a)) < NBUF →
  let a' := set_held (<[b := Held 1 true (disk_block (a_disk a) b)]> (a_held a)) a in
  wp (bs_read ROOTDEV b) s (λ i s', bs_rep s' a' ∧ bs_handle s' i b ∧ keeps s s' a').
Proof.
  intros Hr Hb Hsz. eapply wp_mono; [apply (bs_read_ok s a b Hr); by rewrite Hb|]. cbv zeta. by rewrite Hb.
Qed.

Lemma read_held_ok s a b h : bs_rep s a → a_held a !! b = Some h → h_locked h = false → h_ref h < 2 ^ 32 - 1 →
  let a' := set_held (<[b := Held (h_ref h + 1) true (h_data h)]> (a_held a)) a in
  wp (bs_read ROOTDEV b) s (λ i s', bs_rep s' a' ∧ bs_handle s' i b ∧ keeps s s' a').
Proof.
  intros Hr Hb Hl Href. eapply wp_mono; [apply (bs_read_ok s a b Hr); by rewrite Hb|]. cbv zeta. by rewrite Hb.
Qed.

Lemma disk_length s a b : bs_rep s a → a_held a !! b = None → length (disk_block (a_disk a) b) = Z.to_nat BSIZE.
Proof. intros Hr Hb. destruct (bs_wf s a Hr) as [Hv _]. specialize (Hv b). unfold view in Hv. by rewrite Hb in Hv. Qed.

Lemma held_length s a b h : bs_rep s a → a_held a !! b = Some h → length (h_data h) = Z.to_nat BSIZE.
Proof. intros Hr Hb. destruct (bs_wf s a Hr) as [Hv _]. specialize (Hv b). unfold view in Hv. by rewrite Hb in Hv. Qed.

(** [write_block] copies the contents in memory of block [b] to [lb]. *)
Lemma write_block_ok s a lb b h : bs_rep s a → a_held a !! lb = None →
  a_held a !! b = Some h → h_locked h = false → 1 ≤ h_ref h < 2 ^ 32 - 1 →
  Z.of_nat (size (a_held a)) < NBUF →
  wp (write_block ROOTDEV lb b) s (λ _ s',
    bs_rep s' (Store (<[lb := h_data h]> (a_disk a)) (a_held a) (a_trace a ++ [(lb, h_data h)]))).
Proof.
  intros Hr Hlb Hb Hl Href Hsz. assert (lb ≠ b) as Hne by congruence. destruct h as [r l d]; simpl in *; subst l.
  unfold write_block. wp_steps. wp_call read_free_ok; [done..|]. cbv zeta. intros to s1 (R1 & T1 & K1). wp_steps.
  wp_call read_held_ok; [done|by simplify_map_eq|done|simpl; lia|]. cbv zeta. simpl. intros from s2 (R2 & F2 & K2).
  bs_get_data. bs_call bs_set_data_ok; [done|by eapply (held_length s a b (Held r false d))|]. intros [] s3 (R3 & K3).
  bs_call bs_write_ok; [done|]. intros [] s4 (R4 & K4).
  bs_call bs_relse_ok; [done|simpl; lia|]. rewrite (proj2 (Z.eqb_neq (r + 1) 1)) by lia. intros [] s5 (R5 & K5).
  wp_call bs_relse_ok; [done|bs_handle_tac|by simplify_map_eq|done|by intros; unfold disk_block; simplify_map_eq|].
  cbv zeta. simpl. intros [] s6 (R6 & K6). replace (r + 1 - 1) with r in R6 by lia. bs_done R6 lb b.
Qed.

Lemma install_block_ok s a lb b rec : bs_rep s a → lb ≠ b → a_held a !! lb = None →
  match a_held a !! b with
  | None => rec = true
  | Some h => rec = false ∧ h_locked h = false ∧ 1 ≤ h_ref h < 2 ^ 32 - 1
  end →
  Z.of_nat (size (a_held a)) + 2 ≤ NBUF →
  let d := disk_block (a_disk a) lb in
  wp (install_block ROOTDEV lb b rec) s (λ _ s',
    bs_rep s' (Store (<[b := d]> (a_disk a)) (unpinned b (a_held a) d) (a_trace a ++ [(b, d)]))).
Proof.
  intros Hr Hne Hlb Hb Hsz d. pose proof (disk_length s a lb Hr Hlb) as Hlen.
  unfold install_block. wp_steps. wp_call read_free_ok; [done|done|lia|]. cbv zeta. intros lbuf s1 (R1 & T1 & K1). wp_steps.
  unfold unpinned. destruct (a_held a !! b) as [[r l d0]|] eqn:Eb; simpl in Hb.
  - destruct Hb as (-> & -> & Href). wp_call read_held_ok; [done|by simplify_map_eq|done|simpl; lia|].
    cbv zeta. simpl. intros dbuf s2 (R2 & F2 & K2).
    bs_get_data. bs_call bs_set_data_ok; [done|done|]. intros [] s3 (R3 & K3).
    bs_call bs_write_ok; [done|]. intros [] s4 (R4 & K4).
    bs_call bs_unpin_ok; [simpl; lia|]. intros [] s5 (R5 & K5).
    bs_call bs_relse_ok; [done|by intros; unfold disk_block; simplify_map_eq|]. intros [] s6 (R6 & K6).
    wp_call bs_relse_ok; [done|bs_handle_tac|by simplify_map_eq|done|by intros; unfold disk_block; simplify_map_eq|].
    cbv zeta. simpl. intros [] s7 (R7 & K7). replace (r + 1 - 1) with r in R7 by lia.
    destruct (Z.eqb_spec r 1); bs_done R7 lb b.
  - subst rec. wp_call read_free_ok; [done|by simplify_map_eq|simpl; rewrite map_size_insert_None by done; lia|].
    cbv zeta. simpl. intros dbuf s2 (R2 & F2 & K2).
    bs_get_data. bs_call bs_set_data_ok; [done|done|]. intros [] s3 (R3 & K3).
    bs_call bs_write_ok; [done|]. intros [] s4 (R4 & K4). wp_steps.
    bs_call bs_relse_ok; [done|by intros; unfold disk_block; simplify_map_eq|]. intros [] s6 (R6 & K6).
    wp_call bs_relse_ok; [done|bs_handle_tac|by simplify_map_eq|done|by intros; unfold disk_block; simplify_map_eq|].
    cbv zeta. simpl. intros [] s7 (R7 & K7). bs_done R7 lb b.
Qed.
End block_ops.

Lemma take_S_snoc {A} (l : list A) k x : l !! k = Some x → take (S k) l = take k l ++ [x].
Proof. intros Hk. by apply take_S_r. Qed.

Lemma log_writes_keys st bs f k : k ∈ (log_writes st bs f).*1 → st < k ≤ st + Z.of_nat (length bs).
Proof.
  unfold log_writes. rewrite fmap_imap. intros Hk%list_elem_of_lookup. destruct Hk as [i Hi].
  rewrite list_lookup_imap in Hi. destruct (bs !! i) eqn:E; simplify_eq/=. apply lookup_lt_Some in E. lia.
Qed.

Lemma home_writes_keys bs f : (home_writes bs f).*1 = bs.
Proof.
  unfold home_writes. rewrite fmap_imap. apply list_eq. intros i. rewrite list_lookup_imap.
  by destruct (bs !! i).
Qed.

Lemma size_unpinned b m d : (size (unpinned b m d) ≤ size m)%nat.
Proof.
  unfold unpinned. destruct (m !! b) as [h|] eqn:E; [|done]. case_match.
  - rewrite map_size_delete, E. lia.
  - rewrite map_size_insert, E. done.
Qed.

Lemma unpinned_ne b m d k : k ≠ b → unpinned b m d !! k = m !! k.
Proof. intros Hne. unfold unpinned. destruct (m !! b); [|done]. case_match; by simplify_map_eq. Qed.

Lemma size_unpin_all m ws : (size (unpin_all m ws) ≤ size m)%nat.
Proof.
  revert m. induction ws as [|w ws IH]; intros m; [done|]. simpl. etrans; [apply IH|apply size_unpinned].
Qed.

Lemma unpin_all_ne m ws k : k ∉ ws.*1 → unpin_all m ws !! k = m !! k.
Proof.
  revert m. induction ws as [|w ws IH]; intros m Hk; [done|]. simpl in *. rewrite not_elem_of_cons in Hk.
  destruct Hk. fold (unpin_all (unpinned w.1 m w.2) ws). rewrite IH by done. by apply unpinned_ne.
Qed.

Section loops.
Context {St} `{BS : BlockStore St, !BlockStoreOk St}.

Lemma wp_io {A} (m : M St A) s g (Q : A → lst → Prop) : wp m s (λ x s', Q x (s', g)) → wp (io m) (s, g) Q.
Proof. intros Hm. unfold io. by apply wp_lift. Qed.

Lemma wp_lget {A} (f : logst → A) s g (Q : A → lst → Prop) : Q (f g) (s, g) → wp (lget (St := St) f) (s, g) Q.
Proof. done. Qed.

Lemma wp_lupd (f : logst → logst) s g (Q : unit → lst → Prop) : Q tt (s, f g) → wp (lupd (St := St) f) (s, g) Q.
Proof. done. Qed.

Lemma lh_at_ok (s : St) g bs k b (Q : Z → lst → Prop) : lists g bs → bs !! k = Some b → Q b (s, g) →
  wp (lh_at (Z.of_nat k)) (s, g) Q.
Proof.
  intros (_ & _ & Ht & _) Hk HQ. unfold lh_at. wp_steps. apply wp_lget.
  assert (getZ (lh_block g) (Z.of_nat k) = Some b) as ->; [|by wp_steps].
  unfold getZ. rewrite decide_True, Nat2Z.id by lia. rewrite <- Ht in Hk.
  apply lookup_take_Some in Hk. tauto.
Qed.

Lemma write_log_ok s a g bs : bs_rep s a → lists g bs →
  (∀ b, b ∈ bs → ∃ h, a_held a !! b = Some h ∧ h_locked h = false ∧ 1 ≤ h_ref h < 2 ^ 32 - 1) →
  (∀ k, start g < k ≤ start g + Z.of_nat (length bs) → a_held a !! k = None) →
  Z.of_nat (size (a_held a)) < NBUF →
  let ws := log_writes (start g) bs (view a) in
  wp write_log (s, g) (λ _ σ, snd σ = g ∧
    bs_rep (fst σ) (Store (apply_writes (a_disk a) ws) (a_held a) (a_trace a ++ ws))).
Proof.
  intros Hr Hg Hpin Hfree Hsz ws. unfold write_log. wp_steps. apply wp_lget.
  destruct Hg as (G1 & G2 & G3 & G4). rewrite G2.
  apply (wp_for (λ k σ, snd σ = g ∧
    bs_rep (fst σ) (Store (apply_writes (a_disk a) (take k ws)) (a_held a) (a_trace a ++ take k ws)))).
  - simpl. rewrite app_nil_r. by destruct a.
  - intros k [s1 g1] Hk [Eg R1]. simpl in Eg, R1. subst g1. wp_steps. apply wp_lget. wp_steps. apply wp_lget. wp_steps.
    destruct (lookup_lt_is_Some_2 bs k Hk) as [b Eb]. eapply lh_at_ok; [done|exact Eb|]. wp_steps. apply wp_io. rewrite G1.
    destruct (Hpin b) as (h & Hh & Hl & Href); [by eapply list_elem_of_lookup_2|].
    eapply wp_mono; [eapply write_block_ok; [exact R1|simpl; apply Hfree; lia|exact Hh|done|done|done]|].
    intros [] s2 R2. split; [done|]. simpl in *.
    assert (ws !! k = Some (start g + Z.of_nat k + 1, h_data h)) as Ew.
    { subst ws. unfold log_writes. rewrite list_lookup_imap, Eb. simpl. unfold view. by rewrite Hh. }
    rewrite (take_S_snoc _ _ _ Ew), apply_writes_app, app_assoc. exact R2.
  - intros [s1 g1] [Eg R1]. split; [done|]. rewrite take_ge in R1; [done|]. subst ws. unfold log_writes. by rewrite length_imap.
Qed.

Lemma install_trans_ok s a g bs rec : bs_rep s a → lists g bs → NoDup bs →
  (∀ b, b ∈ bs → ¬ (start g < b ≤ start g + Z.of_nat (length bs)) ∧
     match a_held a !! b with
     | None => rec = true
     | Some h => rec = false ∧ h_locked h = false ∧ 1 ≤ h_ref h < 2 ^ 32 - 1
     end) →
  (∀ k, start g < k ≤ start g + Z.of_nat (length bs) → a_held a !! k = None) →
  Z.of_nat (size (a_held a)) + 2 ≤ NBUF →
  let ws := home_writes bs (λ i, disk_block (a_disk a) (start g + Z.of_nat i + 1)) in
  wp (install_trans rec) (s, g) (λ _ σ, snd σ = g ∧
    bs_rep (fst σ) (Store (apply_writes (a_disk a) ws) (unpin_all (a_held a) ws) (a_trace a ++ ws))).
Proof.
  intros Hr Hg Hnd Hin Hfree Hsz ws. unfold install_trans. wp_steps. apply wp_lget.
  destruct Hg as (G1 & G2 & G3 & G4). rewrite G2.
  assert (Hkeys : ∀ k, (take k ws).*1 = take k bs) by (intros k; subst ws; by rewrite fmap_take, home_writes_keys).
  apply (wp_for (λ k σ, snd σ = g ∧
    bs_rep (fst σ) (Store (apply_writes (a_disk a) (take k ws)) (unpin_all (a_held a) (take k ws)) (a_trace a ++ take k ws)))).
  - simpl. rewrite app_nil_r. by destruct a.
  - intros k [s1 g1] Hk [Eg R1]. simpl in Eg, R1. subst g1. wp_steps. apply wp_lget. wp_steps. apply wp_lget. wp_steps.
    destruct (lookup_lt_is_Some_2 bs k Hk) as [b Eb]. eapply lh_at_ok; [done|exact Eb|]. wp_steps. apply wp_io. rewrite G1.
    destruct (Hin b) as [Hout Hb]; [by eapply list_elem_of_lookup_2|].
    assert (b ∉ (take k ws).*1) as Hbk.
    { rewrite Hkeys. intros Hx%list_elem_of_lookup. destruct Hx as [j Hj]. apply lookup_take_Some in Hj as [Hj Hlt].
      pose proof (NoDup_lookup _ _ _ _ Hnd Hj Eb). lia. }
    assert (∀ x, start g < x ≤ start g + Z.of_nat (length bs) → x ∉ (take k ws).*1) as Hlog.
    { intros x Hx. rewrite Hkeys. intros Hx2%list_elem_of_lookup. destruct Hx2 as [j Hj]. apply lookup_take_Some in Hj as [Hj _].
      destruct (Hin x) as [Hno _]; [by eapply list_elem_of_lookup_2|]. lia. }
    eapply wp_mono; [eapply (install_block_ok s1 _ (start g + Z.of_nat k + 1) b rec R1)|]; simpl.
    + intros <-. apply Hout. lia.
    + rewrite unpin_all_ne by (apply Hlog; lia). apply Hfree. lia.
    + by rewrite unpin_all_ne.
    + pose proof (size_unpin_all (a_held a) (take k ws)). lia.
    + intros [] s2 R2. split; [done|]. simpl in *.
      assert (ws !! k = Some (b, disk_block (a_disk a) (start g + Z.of_nat k + 1))) as Ew.
      { subst ws. unfold home_writes. by rewrite list_lookup_imap, Eb. }
      unfold disk_block in R2 at 1 2 3. rewrite apply_writes_ne in R2 by (apply Hlog; lia).
      rewrite (take_S_snoc _ _ _ Ew), apply_writes_app, app_assoc. unfold unpin_all. rewrite foldl_app. exact R2.
  - intros [s1 g1] [Eg R1]. split; [done|]. rewrite take_ge in R1; [done|]. subst ws. unfold home_writes. by rewrite length_imap.
Qed.

Lemma lists_length g bs : lists g bs → Z.of_nat (length bs) ≤ LOGSIZE.
Proof.
  intros (_ & _ & Ht & Hl). apply (f_equal length) in Ht. rewrite length_take in Ht. unfold LOGSIZE, MAXOPBLOCKS in *. lia.
Qed.

Lemma write_head_ok s a g bs : bs_rep s a → lists g bs → a_held a !! start g = None →
  Z.of_nat (size (a_held a)) < NBUF →
  let hd := put_header bs (disk_block (a_disk a) (start g)) in
  wp write_head (s, g) (λ _ σ, snd σ = g ∧
    bs_rep (fst σ) (Store (<[start g := hd]> (a_disk a)) (a_held a) (a_trace a ++ [(start g, hd)]))).
Proof.
  intros Hr Hg Hfree Hsz hd. pose proof (disk_length s a _ Hr Hfree) as Hlen. pose proof Hg as (G1 & G2 & _).
  unfold write_head. wp_steps. apply wp_lget. wp_steps. apply wp_lget. wp_steps. apply wp_io. rewrite G1.
  wp_call read_free_ok; [done..|]. cbv zeta. intros buf s1 (R1 & T1 & K1). wp_steps. apply wp_lget. wp_steps. apply wp_io.
  bs_get_data. wp_steps. apply wp_io. bs_call bs_set_data_ok; [done|by rewrite length_put_header_n|]. intros [] s2 (R2 & K2).
  wp_steps. rewrite G2.
  apply (wp_for (λ k σ, snd σ = g ∧ bs_handle (fst σ) buf (start g) ∧
    bs_rep (fst σ) (Store (a_disk a) (<[start g := Held 1 true
      (put_blocks bs k (put_header_n (Z.of_nat (length bs)) (disk_block (a_disk a) (start g))))]> (a_held a)) (a_trace a)))).
  - split; [done|]. split; [simpl; bs_handle_tac|]. simpl. unfold set_held in R2; simpl in R2. rewrite insert_insert_eq, G2 in R2. exact R2.
  - intros k [s3 g3] Hk (E3 & T3 & R3). simpl in *. subst g3. wp_steps.
    destruct (lookup_lt_is_Some_2 bs k Hk) as [b Eb]. eapply lh_at_ok; [done|exact Eb|]. wp_steps. apply wp_io.
    bs_get_data. wp_steps. apply wp_io. wp_call bs_set_data_ok; [exact R3|done|by simplify_map_eq|done| |].
    + by rewrite length_put_header_block, length_put_blocks, length_put_header_n.
    + cbv zeta. simpl. intros [] s4 (R4 & K4). split; [done|]. split; [bs_handle_tac|]. simpl.
      unfold set_held in R4; simpl in R4. rewrite insert_insert_eq in R4. by rewrite Eb.
  - intros [s3 g3] (E3 & T3 & R3). simpl in *. subst g3. wp_steps. apply wp_io.
    wp_call bs_write_ok; [exact R3|done|by simplify_map_eq|done|]. cbv zeta. simpl. intros [] s4 (R4 & K4).
    apply wp_io. wp_call bs_relse_ok; [exact R4|bs_handle_tac|by simplify_map_eq|done|by intros; unfold disk_block; simplify_map_eq|].
    cbv zeta. simpl. intros [] s5 (R5 & K5). split; [done|]. simpl.
    refine (eq_rect _ (bs_rep s5) R5 _ _). unfold set_held; simpl. f_equal. rewrite delete_insert_eq. by apply delete_id.
Qed.

Lemma read_head_ok s a g : bs_rep s a → log_dev g = ROOTDEV → a_held a !! start g = None →
  length (lh_block g) = Z.to_nat LOGSIZE → Z.of_nat (size (a_held a)) < NBUF →
  let bs := get_header (disk_block (a_disk a) (start g)) in
  0 ≤ header_n (disk_block (a_disk a) (start g)) ≤ LOGSIZE →
  wp read_head (s, g) (λ _ σ, bs_rep (fst σ) a ∧ lists (snd σ) bs ∧
    ∃ l, snd σ = set_lh (Z.of_nat (length bs)) l g).
Proof.
  intros Hr G1 Hfree Hl Hsz bs Hn. unfold read_head. wp_steps. apply wp_lget. wp_steps. apply wp_lget. wp_steps. apply wp_io. rewrite G1.
  wp_call read_free_ok; [done..|]. cbv zeta. intros buf s1 (R1 & T1 & K1). wp_steps. apply wp_io.
  bs_get_data. wp_steps. apply wp_lupd. wp_steps. set (hd := disk_block (a_disk a) (start g)) in *.
  replace (header_n hd) with (Z.of_nat (length bs)) by (subst bs; unfold get_header; rewrite length_fmap, length_seqZ; lia).
  assert (Hlen : (length bs ≤ Z.to_nat LOGSIZE)%nat).
  { subst bs. unfold get_header. rewrite length_fmap, length_seqZ. lia. }
  apply (wp_for (λ k σ, fst σ = s1 ∧ ∃ l, snd σ = set_lh (Z.of_nat (length bs)) l g ∧ length l = Z.to_nat LOGSIZE ∧
    take k l = take k bs)).
  - simpl. split; [done|]. by exists (lh_block g).
  - intros k [s2 g2] Hk (E1 & l & E2 & Hll & Ht). simpl in *. subst s2 g2. wp_steps. apply wp_lget. simpl.
    destruct (getZ_is_Some l (Z.of_nat k) ltac:(lia)) as [x Hx]. rewrite Hx. apply wp_lupd. simpl.
    split; [done|]. exists (setZ l (Z.of_nat k) (header_block hd (Z.of_nat k))). split; [done|].
    rewrite length_setZ. split; [done|]. unfold setZ. rewrite decide_True, Nat2Z.id by lia.
    assert (bs !! k = Some (header_block hd (Z.of_nat k))) as Eb.
    { subst bs. unfold get_header. rewrite list_lookup_fmap.
      assert (length (get_header hd) = length (seqZ 0 (header_n hd))) as El by (unfold get_header; apply length_fmap).
      unfold get_header in Hk. rewrite length_fmap, length_seqZ in Hk.
      by rewrite (proj2 (lookup_seqZ 0 (header_n hd) k (Z.of_nat k))) by lia. }
    rewrite (take_S_snoc bs _ _ Eb). rewrite (take_S_snoc _ k (header_block hd (Z.of_nat k))) by (apply list_lookup_insert_eq; lia).
    rewrite take_insert_ge by lia. by rewrite Ht.
  - intros [s2 g2] (E1 & l & E2 & Hll & Ht). simpl in *. subst s2 g2. apply wp_io.
    wp_call bs_relse_ok; [exact R1|exact T1|by simplify_map_eq|done|done|]. cbv zeta. simpl. intros [] s3 (R3 & K3).
    split; [|split; [|by exists l]].
    + refine (eq_rect _ (bs_rep s3) R3 _ _). unfold set_held; destruct a; simpl in *. f_equal.
      rewrite delete_insert_eq. by apply delete_id.
    + split_and!; try done. simpl. rewrite Ht. by apply take_ge.
Qed.
End loops.
