(* ===== verification/LogCrash.v ===== *)
(** Commit and recovery of kernel/log.c, and what a crash at any point of
    either leaves behind; log absorption, and the space that [begin_op]
    reserves. *)
From S2P Require Import Prelude Bytes Bio Log LogProof.

(** ** Definitions *)

Section layout.
(** Where the log is on the disk: [nlog] blocks from [st]. *)
Context (st nlog : Z).

Definition home (b : Z) : Prop := b < st ∨ st + nlog ≤ b.

(** The log on the disk [d]. *)
Definition disk_log (d : gmap Z block) : list Z := get_header (disk_block d st).
Definition good_log (d : gmap Z block) : Prop :=
  0 ≤ header_n (disk_block d st) ≤ LOGSIZE ∧ header_n (disk_block d st) < nlog ∧
  NoDup (disk_log d) ∧ Forall home (disk_log d) ∧ length (disk_block d st) = Z.to_nat BSIZE.

(** The writes of a recovery from [d], and the disk it makes. *)
Definition redo (d : gmap Z block) : list (Z * block) :=
  home_writes (disk_log d) (λ i, disk_block d (st + Z.of_nat i + 1)).
Definition rec_writes (d : gmap Z block) : list (Z * block) :=
  redo d ++ [(st, put_header [] (disk_block d st))].
Definition recovered (d : gmap Z block) : gmap Z block := apply_writes d (rec_writes d).

(** The writes of a commit of the blocks [bs] with the contents [f]. *)
Definition home_copies (bs : list Z) (f : Z → block) : list (Z * block) := (λ b, (b, f b)) <$> bs.
Definition commit_writes (hd : block) (bs : list Z) (f : Z → block) : list (Z * block) :=
  log_writes st bs f ++ (st, put_header bs hd) :: home_copies bs f ++ [(st, put_header [] (put_header bs hd))].

(** Equal outside of the log. *)
Definition same_home (d d' : gmap Z block) : Prop := ∀ b, home b → disk_block d b = disk_block d' b.
End layout.

(** Each running operation may still add so many blocks to the log: [rs] has
    one number per operation. *)
Definition reserved (g : logst) (rs : list Z) : Prop :=
  outstanding g = Z.of_nat (length rs) ∧ Forall (λ r, 0 ≤ r ≤ MAXOPBLOCKS) rs ∧
  lh_n g + foldr Z.add 0 rs ≤ LOGSIZE.

(** ** Lemmas *)

Section crash.
Context (st nlog : Z).
Local Notation home := (home st nlog).
Local Notation good_log := (good_log st nlog).
Local Notation same_home := (same_home st nlog).

Lemma length_get_header d : 0 ≤ header_n d → length (get_header d) = Z.to_nat (header_n d).
Proof. intros. unfold get_header. by rewrite length_fmap, length_seqZ. Qed.

Lemma log_length d : good_log d → Z.of_nat (length (disk_log st d)) = header_n (disk_block d st).
Proof. intros (H1 & _). unfold disk_log. rewrite length_get_header by lia. lia. Qed.

(** The log is outside of what a recovery writes before its last write. *)
Lemma redo_keeps_log d k p : good_log d → p `prefix_of` redo st d → st ≤ k ≤ st + header_n (disk_block d st) →
  disk_block (apply_writes d p) k = disk_block d k.
Proof.
  intros (H1 & H2 & _ & Hh & _) [q E] Hk. unfold disk_block. rewrite apply_writes_ne; [done|].
  intros Hin. assert (k ∈ (redo st d).*1) as Hin2 by (rewrite E, fmap_app; apply elem_of_app; by left).
  unfold redo in Hin2. rewrite home_writes_keys in Hin2. rewrite Forall_forall in Hh.
  destruct (Hh k Hin2); lia.
Qed.

Lemma redo_prefix d p : good_log d → p `prefix_of` redo st d →
  good_log (apply_writes d p) ∧ rec_writes st (apply_writes d p) = rec_writes st d.
Proof.
  intros Hg Hp. pose proof (log_length d Hg) as Hlen. pose proof Hg as ((H1 & H1') & H2 & H3 & H4 & H5).
  assert (E : disk_block (apply_writes d p) st = disk_block d st) by (apply redo_keeps_log; [done|done|lia]).
  assert (disk_log st (apply_writes d p) = disk_log st d) as El by (unfold disk_log; by rewrite E).
  split; [unfold LogCrash.good_log; by rewrite E, El|]. unfold rec_writes, redo. rewrite E, El. f_equal.
  apply list_eq. intros i. unfold home_writes. rewrite !list_lookup_imap.
  destruct (disk_log st d !! i) as [b|] eqn:Eb; simpl; [|done]. do 2 f_equal.
  apply lookup_lt_Some in Eb. apply redo_keeps_log; [done|done|lia].
Qed.

Lemma empty_log d : length (disk_block d st) = Z.to_nat BSIZE → header_n (disk_block d st) = 0 →
  0 < nlog → good_log d ∧ disk_log st d = [].
Proof.
  intros Hl Hn Hpos. assert (disk_log st d = []) as E by (unfold disk_log, get_header; by rewrite Hn).
  split; [|done]. unfold LogCrash.good_log. rewrite E, Hn. unfold LOGSIZE, MAXOPBLOCKS. split_and!; try done; try lia; constructor.
Qed.

Lemma header_n_0 d : length d = Z.to_nat BSIZE → header_n (put_header [] d) = 0.
Proof. intros Hl. unfold put_header, put_header_n, header_n; simpl. rewrite field_set_eq by (unfold BSIZE in Hl; lia). done. Qed.

Lemma same_home_write d b x : ¬ home b → same_home (<[b := x]> d) d.
Proof. intros Hb k Hk. unfold disk_block. rewrite lookup_insert_ne; [done|]. by intros ->. Qed.

Lemma recovered_home d : good_log d → same_home (recovered st d) (apply_writes d (redo st d)).
Proof.
  intros Hg. pose proof Hg as (H1 & H2 & _). unfold recovered, rec_writes. rewrite apply_writes_app. simpl.
  apply same_home_write. unfold LogCrash.home. lia.
Qed.

Lemma recovered_empty d : 0 < nlog → header_n (disk_block d st) = 0 → same_home (recovered st d) d.
Proof.
  intros Hpos Hn. unfold recovered, rec_writes, redo, disk_log, get_header. rewrite Hn. simpl.
  apply same_home_write. unfold LogCrash.home. lia.
Qed.

(** A crash during a recovery does no harm: recovering again makes the same
    disk. *)
Lemma recovery_idempotent d p : good_log d → p `prefix_of` rec_writes st d →
  good_log (apply_writes d p) ∧ same_home (recovered st (apply_writes d p)) (recovered st d).
Proof.
  intros Hg Hp. pose proof Hg as (H1 & H2 & _ & _ & H5).
  apply prefix_app_cases in Hp as [Hp|[q [-> Hq]]].
  - destruct (redo_prefix d p Hg Hp) as [Hg' Hw]. split; [done|]. unfold recovered. rewrite Hw.
    rewrite apply_writes_over; [done|]. intros k Hk. destruct Hp as [q E]. unfold rec_writes.
    rewrite fmap_app. apply elem_of_app; left. rewrite E, fmap_app. apply elem_of_app; by left.
  - destruct q as [|w q].
    { destruct (redo_prefix d (redo st d) Hg ltac:(done)) as [Hg' Hw]. rewrite app_nil_r. split; [done|].
      unfold recovered. rewrite Hw. rewrite apply_writes_over; [done|]. intros k Hk. unfold rec_writes.
      rewrite fmap_app. apply elem_of_app; by left. }
    apply prefix_cons_inv_1 in Hq as Ew. apply prefix_cons_inv_2 in Hq. apply prefix_nil_inv in Hq as ->. subst w.
    change (redo st d ++ [(st, put_header [] (disk_block d st))]) with (rec_writes st d). fold (recovered st d).
    assert (E : disk_block (recovered st d) st = put_header [] (disk_block d st)).
    { unfold recovered, rec_writes, disk_block. rewrite apply_writes_app. simpl. by rewrite lookup_insert_eq. }
    assert (header_n (disk_block (recovered st d) st) = 0) as E0 by (rewrite E; by apply header_n_0).
    split; [|apply recovered_empty; [lia|done]].
    apply empty_log; [by rewrite E, length_put_header|done|lia].
Qed.
(** The home blocks after the home writes of a commit, and after all of them. *)
Lemma home_copied d bs f b : NoDup bs → (b ∉ bs → f b = disk_block d b) → disk_block (apply_writes d (home_copies bs f)) b = f b.
Proof.
  intros Hnd Hclean. destruct (decide (b ∈ bs)) as [Hin|Hin].
  - unfold disk_block. rewrite (apply_writes_lookup _ _ b (f b)); [done| |].
    + unfold home_copies. rewrite <- list_fmap_compose. simpl. by rewrite list_fmap_id.
    + apply list_elem_of_fmap. by exists b.
  - rewrite Hclean by done. unfold disk_block. rewrite apply_writes_ne; [done|].
    unfold home_copies. rewrite <- list_fmap_compose. simpl. by rewrite list_fmap_id.
Qed.

Lemma commit_home d hd bs f b : NoDup bs → Z.of_nat (length bs) < nlog → home b → (b ∉ bs → f b = disk_block d b) →
  disk_block (apply_writes d (commit_writes st hd bs f)) b = f b.
Proof.
  intros Hnd Hroom Hb Hclean. rewrite <- (home_copied d bs f b Hnd Hclean). unfold disk_block, commit_writes.
  rewrite apply_writes_app. simpl. rewrite apply_writes_app. simpl. rewrite lookup_insert_ne by (unfold LogCrash.home in Hb; lia).
  destruct (decide (b ∈ (home_copies bs f).*1)) as [Hin|Hin]; [by rewrite (apply_writes_eq _ d)|].
  rewrite !(apply_writes_ne _ (home_copies bs f)) by done.
  rewrite lookup_insert_ne by (unfold LogCrash.home in Hb; lia). rewrite apply_writes_ne; [done|].
  intros Hk%log_writes_keys. unfold LogCrash.home in Hb. lia.
Qed.
End crash.

Section run.
Context {St} `{BS : BlockStore St, !BlockStoreOk St}.

(** Booting: [initlog] with nothing in the cache. *)
Lemma initlog_ok s d g st nlog : bs_rep s (Store d ∅ []) → good_log st nlog d →
  length (lh_block g) = Z.to_nat LOGSIZE →
  wp (initlog ROOTDEV st nlog) (s, g) (λ _ σ,
    bs_rep (fst σ) (Store (recovered st d) ∅ (rec_writes st d)) ∧ lists (snd σ) [] ∧ start (snd σ) = st ∧
    log_size (snd σ) = nlog).
Proof.
  intros Hr Hg Hlh. pose proof Hg as (H1 & H2 & H3 & H4 & H5). pose proof (log_length st nlog d Hg) as Hlen.
  unfold initlog, recover_from_log. wp_steps. apply wp_lupd. cbv beta. wp_steps.
  set (g1 := LogSt _ _ _ _ _ _ _ _).
  wp_call (read_head_ok s (Store d ∅ []) g1); [done|done|done|done|done|done|]. simpl.
  intros [] [s2 g2] (R2 & L2 & l & E2). simpl in *. wp_steps. fold (disk_log st d) in *.
  assert (start g2 = st ∧ log_size g2 = nlog) as [S2 N2] by (by rewrite E2).
  wp_call (install_trans_ok s2 (Store d ∅ []) g2 (disk_log st d) true); [done|done|done| |done|done|].
  { intros b Hb. rewrite S2. split; [|done]. rewrite Forall_forall in H4. destruct (H4 b Hb); lia. }
  cbv zeta. simpl. rewrite S2. fold (redo st d). intros [] [s3 g3] [E3 R3]. simpl in *. subst g3. wp_steps. apply wp_lupd.
  destruct L2 as (G1 & G2 & G3 & G4).
  assert (unpin_all ∅ (redo st d) = ∅) as Eu.
  { generalize (redo st d). induction l0 as [|w ws IH]; [done|]. simpl. done. }
  rewrite Eu in R3. set (g4 := set_lh 0 (lh_block g2) g2).
  wp_call (write_head_ok s3 (Store (apply_writes d (redo st d)) ∅ (redo st d)) g4 []); [done|by split_and!|done|done|].
  cbv zeta. simpl. rewrite S2. intros [] [s5 g5] [E5 R5]. simpl in *. subst g5.
  split; [|by split_and!]. unfold recovered, rec_writes. rewrite apply_writes_app.
  rewrite (redo_keeps_log st nlog d st (redo st d) Hg ltac:(done)) in R5 by lia. exact R5.
Qed.

(** What [commit] needs: the blocks of the transaction are pinned and lie
    outside of the log, whose own blocks nobody uses. *)
Record ready (a : store) (g : logst) (bs : list Z) : Prop := {
  rd_lists : lists g bs;
  rd_nodup : NoDup bs;
  rd_room : Z.of_nat (length bs) < log_size g;
  rd_home b : b ∈ bs → home (start g) (log_size g) b;
  rd_pinned b : b ∈ bs → ∃ h, a_held a !! b = Some h ∧ h_locked h = false ∧ 1 ≤ h_ref h < 2 ^ 32 - 1;
  rd_log k : ¬ home (start g) (log_size g) k → a_held a !! k = None;
  rd_bufs : Z.of_nat (size (a_held a)) + 2 ≤ NBUF;
}.

Lemma home_copies_eq bs f (c : nat → block) : (∀ i b, bs !! i = Some b → c i = f b) →
  home_writes bs c = home_copies bs f.
Proof.
  intros Hc. apply list_eq. intros i. unfold home_writes, home_copies. rewrite list_lookup_imap, list_lookup_fmap.
  destruct (bs !! i) eqn:E; simpl; [|done]. by rewrite (Hc i z).
Qed.

Lemma log_content (a : store) st bs f d i b : bs !! i = Some b →
  disk_block (apply_writes d (log_writes st bs f)) (st + Z.of_nat i + 1) = f b.
Proof.
  intros Eb. unfold disk_block. rewrite (apply_writes_lookup d (log_writes st bs f) _ (f b)); [done| |].
  - unfold log_writes. rewrite fmap_imap. apply NoDup_alt. intros i1 i2 x. rewrite !list_lookup_imap.
    destruct (bs !! i1), (bs !! i2); intros; simplify_eq/=; lia.
  - apply list_elem_of_lookup. exists i. unfold log_writes. by rewrite list_lookup_imap, Eb.
Qed.

Lemma commit_ok s a g bs : bs_rep s a → ready a g bs → bs ≠ [] →
  let ws := commit_writes (start g) (disk_block (a_disk a) (start g)) bs (view a) in
  wp commit (s, g) (λ _ σ, lists (snd σ) [] ∧ snd σ = set_lh 0 (lh_block g) g ∧
    bs_rep (fst σ) (Store (apply_writes (a_disk a) ws) (unpin_all (a_held a) (home_copies bs (view a))) (a_trace a ++ ws))).
Proof.
  intros Hr [Hl Hnd Hroom Hhome Hpin Hlog Hbuf] Hne ws. pose proof (lists_length g bs Hl) as Hlen.
  pose proof Hl as (G1 & G2 & G3 & G4). unfold commit. wp_steps. apply wp_lget. rewrite G2.
  assert (Hfree : ∀ k, start g ≤ k ≤ start g + Z.of_nat (length bs) → a_held a !! k = None).
  { intros k Hk. apply Hlog. unfold home. lia. }
  destruct (Z.gtb_spec (Z.of_nat (length bs)) 0) as [Hpos|Hz]; [|destruct bs; simpl in *; [done|lia]]. wp_steps.
  wp_call (write_log_ok s a g bs); [done|done|done|intros; apply Hfree; lia|lia|]. cbv zeta.
  intros [] [s1 g1] [E1 R1]. simpl in E1, R1. subst g1. wp_steps.
  set (d1 := apply_writes (a_disk a) (log_writes (start g) bs (view a))) in *.
  wp_call (write_head_ok s1 _ g bs R1); [done|apply Hfree; lia|simpl; lia|]. cbv zeta.
  intros [] [s2 g2] [E2 R2]. simpl in E2, R2. subst g2. wp_steps.
  assert (Eh : disk_block d1 (start g) = disk_block (a_disk a) (start g)).
  { unfold d1, disk_block. rewrite apply_writes_ne; [done|]. intros Hk%log_writes_keys. lia. }
  rewrite Eh in R2. set (hd := put_header bs (disk_block (a_disk a) (start g))) in *.
  wp_call (install_trans_ok s2 _ g bs false R2 Hl Hnd); simpl.
  { intros b Hb. destruct (Hpin b Hb) as (h & -> & ?). split; [|done]. destruct (Hhome b Hb); lia. }
  { intros k Hk. apply Hfree. lia. }
  { done. }
  cbv zeta. rewrite (home_copies_eq bs (view a)).
  2:{ intros i b Eb. pose proof (lookup_lt_Some _ _ _ Eb). unfold disk_block at 1. rewrite lookup_insert_ne by lia.
      fold (disk_block d1 (start g + Z.of_nat i + 1)). by apply log_content. }
  intros [] [s3 g3] [E3 R3]. simpl in E3, R3. subst g3. wp_steps. apply wp_lupd. cbv beta.
  assert (Hst : start g ∉ (home_copies bs (view a)).*1).
  { unfold home_copies. rewrite <- list_fmap_compose. simpl. intros Hin.
    apply list_elem_of_fmap in Hin as (b & E & Hb). simpl in E. destruct (Hhome b Hb); lia. }
  eapply wp_mono; [apply (write_head_ok s3 _ (set_lh 0 (lh_block g) g) [] R3)|].
  { by split_and!. }
  { simpl. rewrite unpin_all_ne by done. apply Hfree. lia. }
  { simpl. pose proof (size_unpin_all (a_held a) (home_copies bs (view a))). lia. }
  cbv zeta. simpl. intros [] [s4 g4] [E4 R4]. simpl in E4, R4. subst g4. split; [by split_and!|]. split; [done|].
  refine (eq_rect _ (bs_rep s4) R4 _ _).
  assert (disk_block (apply_writes (<[start g:=hd]> d1) (home_copies bs (view a))) (start g) = hd) as Ehd.
  { unfold disk_block. by rewrite apply_writes_ne, lookup_insert_eq. }
  unfold ws, commit_writes. simpl. rewrite Ehd, !apply_writes_app. simpl. rewrite apply_writes_app, <- !app_assoc. done.
Qed.
End run.

Lemma sum_reserved rs : Forall (λ r, 0 ≤ r ≤ MAXOPBLOCKS) rs → 0 ≤ foldr Z.add 0 rs ≤ Z.of_nat (length rs) * MAXOPBLOCKS.
Proof.
  unfold MAXOPBLOCKS. induction 1 as [|r rs Hr _ IH]; simpl foldr; simpl length; [lia|]. lia.
Qed.

Lemma log_slot_ok bs n b : (n ≤ length bs)%nat →
  (b ∈ take n bs → ∃ i, (i < n)%nat ∧ log_slot bs n b = Z.of_nat i ∧ bs !! i = Some b) ∧
  (b ∉ take n bs → log_slot bs n b = Z.of_nat n).
Proof.
  revert bs. induction n as [|n IH]; intros [|x bs] Hn; simpl in *; try lia.
  - split; [by intros ?%elem_of_nil|done].
  - split; [by intros ?%elem_of_nil|done].
  - destruct (IH bs ltac:(lia)) as [IH1 IH2]. destruct (Z.eqb_spec x b) as [->|Hne].
    + split; [|intros Hb; by destruct Hb; left]. intros _. exists O. split; [lia|done].
    + split.
      * intros Hb. apply elem_of_cons in Hb as [|Hb]; [done|]. destruct (IH1 Hb) as (i & Hi & E & Hlk).
        exists (S i). split; [lia|]. split; [|done]. rewrite E. lia.
      * intros Hb. rewrite not_elem_of_cons in Hb. rewrite IH2 by tauto. lia.
Qed.

Section log_ops.
Context {St} `{BS : BlockStore St, !BlockStoreOk St}.

Lemma log_write_ok s a g bs buf b h : bs_rep s a → lists g bs → log_lock g = false →
  bs_handle s buf b → a_held a !! b = Some h → h_ref h < 2 ^ 32 - 1 →
  1 ≤ outstanding g → Z.of_nat (length bs) < LOGSIZE → Z.of_nat (length bs) < log_size g - 1 →
  wp (log_write buf) (s, g) (λ _ σ,
    let bs' := if decide (b ∈ bs) then bs else bs ++ [b] in
    lists (snd σ) bs' ∧ snd σ = set_lh (Z.of_nat (length bs')) (lh_block (snd σ)) g ∧
    let a' := if decide (b ∈ bs) then a
              else set_held (<[b := Held (h_ref h + 1) (h_locked h) (h_data h)]> (a_held a)) a in
    bs_rep (fst σ) a' ∧ keeps s (fst σ) a').
Proof.
  intros Hr Hl Hlk Hh Hb Href Hout H1 H2. pose proof Hl as (G1 & G2 & G3 & G4).
  destruct g as [lk st sz o c dv n l]; simpl in *. subst lk n.
  assert (length bs ≤ length l)%nat as Hlen by (unfold LOGSIZE, MAXOPBLOCKS in *; lia).
  unfold log_write. wp_steps. eapply ok_wp; [reflexivity|]. cbv beta. wp_steps. apply wp_lget. wp_steps. apply wp_lget.
  simpl. rewrite !Z.geb_leb, (proj2 (Z.leb_gt _ _)), (proj2 (Z.leb_gt _ _)) by lia. simpl. wp_steps. apply wp_lget. simpl.
  rewrite (proj2 (Z.ltb_ge _ _)) by lia. wp_steps. apply wp_io. eapply ok_wp; [by eapply bs_blockno_ok|]. cbv beta.
  wp_steps. apply wp_lget. simpl. rewrite Nat2Z.id. destruct (log_slot_ok l (length bs) b Hlen) as [Hin Hnin].
  rewrite G3 in Hin, Hnin. case_decide as Hmem.
  - destruct (Hin Hmem) as (i & Hi & -> & Hli).
    assert (getZ l (Z.of_nat i) = Some b) as Eg by (unfold getZ; by rewrite decide_True, Nat2Z.id by lia).
    rewrite Eg. wp_steps. apply wp_lupd. simpl. rewrite (setZ_id _ _ _ Eg).
    rewrite (proj2 (Z.eqb_neq _ _)) by lia. wp_steps. eapply ok_wp; [reflexivity|]. cbv beta.
    split; [by split_and!|]. split; [done|]. split; [exact Hr|]. by intros j k Hj _.
  - rewrite Hnin by done. destruct (getZ_is_Some l (Z.of_nat (length bs))) as [x Hx].
    { rewrite G4. unfold LOGSIZE, MAXOPBLOCKS in *. lia. }
    rewrite Hx. wp_steps. apply wp_lupd. simpl. rewrite Z.eqb_refl. wp_steps. apply wp_io.
    wp_call bs_pin_ok; [done..|]. cbv zeta. intros [] s2 (R2 & K2). wp_steps. apply wp_lupd.
    eapply ok_wp; [reflexivity|]. cbv beta zeta. simpl. rewrite length_app. simpl. split; [|split; [|by split]].
    + unfold setZ. rewrite decide_True, Nat2Z.id by lia. split_and!; simpl; [done|rewrite length_app; simpl; lia| |by rewrite length_insert].
      rewrite length_app, Nat.add_1_r. rewrite (take_S_snoc _ _ b) by (apply list_lookup_insert_eq; unfold LOGSIZE, MAXOPBLOCKS in *; lia).
      by rewrite take_insert_ge, G3 by lia.
    + unfold set_log_lock, set_lh; simpl. f_equal. lia.
Qed.

(** [begin_op] waits exactly while a commit runs or the log might fill up. *)
Lemma begin_op_ok (s : St) g : log_lock g = false →
  begin_op (s, g) =
    if committing g || (lh_n g + (outstanding g + 1) * MAXOPBLOCKS >? LOGSIZE) then Diverge
    else Ok (tt, (s, set_ops (outstanding g + 1) (committing g) g)).
Proof.
  intros Hlk. destruct g as [lk st sz o c dv n l]; simpl in *. subst lk.
  unfold begin_op, acquire_log, release_log, lget, lupd, gets, modify, mbind, M_bind; simpl.
  destruct c; [done|]. simpl. by destruct (_ >? LOGSIZE).
Qed.
End log_ops.
