(* ===== verification/LogProps.v ===== *)
(** What the log of kernel/log.c guarantees. *)
From S2P Require Import Prelude Bytes Bio BioProof Log LogProof LogCrash.

(** ** Definitions *)

Section boots.
Context {St} `{BS : BlockStore St}.

(** A machine that boots from the disk [d] and crashes at some point of its
    recovery, or right after it, leaves the disk [d']. *)
Definition crashed_boot (st nlog : Z) (d d' : gmap Z block) : Prop :=
  ∃ s g s' g' a p, bs_rep s (Store d ∅ []) ∧ length (lh_block g) = Z.to_nat LOGSIZE ∧
    initlog ROOTDEV st nlog (s, g) = Ok (tt, (s', g')) ∧ bs_rep s' a ∧
    p `prefix_of` a_trace a ∧ d' = apply_writes d p.

(** Booting from [d] works, and makes a disk with [P] and an empty log. *)
Definition boots_to (st nlog : Z) (d : gmap Z block) (P : gmap Z block → Prop) : Prop :=
  ∀ s g, bs_rep s (Store d ∅ []) → length (lh_block g) = Z.to_nat LOGSIZE →
    wp (initlog ROOTDEV st nlog) (s, g) (λ _ σ, ∃ d', bs_rep (fst σ) (Store d' ∅ (rec_writes st d)) ∧ P d' ∧ lists (snd σ) []).
End boots.

(** ** Lemmas *)

Section atomic.
Context {St} `{BS : BlockStore St, !BlockStoreOk St} (st nlog : Z).

Lemma same_home_trans d1 d2 d3 : same_home st nlog d1 d2 → same_home st nlog d2 d3 → same_home st nlog d1 d3.
Proof. intros H1 H2 b Hb. by rewrite H1, H2. Qed.

Lemma crashed_boot_ok (d d' : gmap Z block) : good_log st nlog d → crashed_boot (St := St) st nlog d d' →
  good_log st nlog d' ∧ same_home st nlog (recovered st d') (recovered st d).
Proof.
  intros Hg (s & g & s' & g' & a & p & Hr & Hl & Hrun & Hr' & Hp & ->).
  destruct (wp_ok _ _ _ (initlog_ok s d g st nlog Hr Hg Hl)) as ([] & [s2 g2] & E & R & _).
  rewrite Hrun in E. simplify_eq. simpl in R. pose proof (bs_rep_fun _ _ _ R Hr') as <-. simpl in Hp.
  by apply recovery_idempotent.
Qed.

Lemma crashed_boots_ok (d d' : gmap Z block) : good_log st nlog d → rtc (crashed_boot (St := St) st nlog) d d' →
  good_log st nlog d' ∧ same_home st nlog (recovered st d') (recovered st d).
Proof.
  intros Hg Hd. revert Hg. induction Hd as [d|d1 d2 d3 H12 _ IH]; intros Hg; [done|].
  destruct (crashed_boot_ok d1 d2 Hg H12) as [Hg2 Hs2]. destruct (IH Hg2) as [Hg3 Hs3].
  split; [done|]. by eapply same_home_trans.
Qed.

(** Before the header is written the log is empty; once it is, the rest of
    the commit is what a recovery would write. *)
Lemma commit_before d bs f p : length (disk_block d st) = Z.to_nat BSIZE → header_n (disk_block d st) = 0 →
  Z.of_nat (length bs) < nlog → p `prefix_of` log_writes st bs f →
  good_log st nlog (apply_writes d p) ∧ same_home st nlog (recovered st (apply_writes d p)) d.
Proof.
  intros Hlen Hn Hroom [q E].
  assert (∀ k, ¬ (st < k ≤ st + Z.of_nat (length bs)) → disk_block (apply_writes d p) k = disk_block d k) as Ek.
  { intros k Hk. unfold disk_block. rewrite apply_writes_ne; [done|]. intros Hin. apply Hk.
    apply (log_writes_keys _ _ f). rewrite E, fmap_app. apply elem_of_app. by left. }
  assert (disk_block (apply_writes d p) st = disk_block d st) as Est by (apply Ek; lia).
  split; [apply empty_log; rewrite ?Est; (done || lia)|].
  eapply same_home_trans; [apply recovered_empty; [lia|by rewrite Est]|].
  intros k [Hk|Hk]; apply Ek; lia.
Qed.

Lemma header_n_put bs d : blocknos bs → length d = Z.to_nat BSIZE → header_n (put_header bs d) = Z.of_nat (length bs).
Proof.
  intros Hb Hd. pose proof (get_put_header bs d Hb Hd) as E. destruct Hb as [_ Hl].
  unfold put_header. rewrite header_n_put_blocks by (rewrite ?length_put_header_n; try done; unfold LOGSIZE, MAXOPBLOCKS in *; lia).
  unfold header_n, put_header_n. rewrite field_set_eq by (unfold BSIZE in Hd; lia).
  apply i32_field. unfold LOGSIZE, MAXOPBLOCKS in Hl. lia.
Qed.

Lemma commit_after d bs f : length (disk_block d st) = Z.to_nat BSIZE →
  NoDup bs → Forall (home st nlog) bs → blocknos bs → Z.of_nat (length bs) < nlog →
  let hd := put_header bs (disk_block d st) in
  let d2 := <[st := hd]> (apply_writes d (log_writes st bs f)) in
  good_log st nlog d2 ∧ rec_writes st d2 = home_copies bs f ++ [(st, put_header [] hd)] ∧
  same_home st nlog (recovered st d2) (apply_writes d (home_copies bs f)).
Proof.
  intros Hlen Hnd Hhome Hb Hroom hd d2.
  assert (E2 : disk_block d2 st = hd) by (unfold d2, disk_block; by rewrite lookup_insert_eq).
  assert (Hlog : disk_log st d2 = bs) by (unfold disk_log; rewrite E2; by apply get_put_header).
  assert (Hg2 : good_log st nlog d2).
  { unfold good_log. rewrite E2, Hlog. unfold hd. rewrite header_n_put, length_put_header by done.
    destruct Hb. split_and!; try done; lia. }
  assert (Hredo : redo st d2 = home_copies bs f).
  { unfold redo. rewrite Hlog. apply home_copies_eq. intros i b Eb. pose proof (lookup_lt_Some _ _ _ Eb).
    unfold d2, disk_block. rewrite lookup_insert_ne by lia. by apply (log_content (Store ∅ ∅ [])). }
  split; [done|]. split; [unfold rec_writes; by rewrite Hredo, E2|].
  eapply same_home_trans; [by apply recovered_home|]. rewrite Hredo. intros k Hk. unfold disk_block.
  destruct (decide (k ∈ (home_copies bs f).*1)) as [Hin|Hin]; [by rewrite (apply_writes_eq d2 d)|].
  rewrite (apply_writes_ne d2), (apply_writes_ne d (home_copies bs f)) by done.
  unfold d2. rewrite lookup_insert_ne by (unfold home in Hk; lia).
  rewrite apply_writes_ne; [done|]. intros Hk2%log_writes_keys. unfold home in Hk. lia.
Qed.

(** The disk after part of the writes of a commit. *)
Lemma commit_prefix d bs f p : length (disk_block d st) = Z.to_nat BSIZE → header_n (disk_block d st) = 0 →
  NoDup bs → Forall (home st nlog) bs → blocknos bs → Z.of_nat (length bs) < nlog →
  p `prefix_of` commit_writes st (disk_block d st) bs f →
  good_log st nlog (apply_writes d p) ∧
  ((length p ≤ length bs)%nat → same_home st nlog (recovered st (apply_writes d p)) d) ∧
  ((length bs < length p)%nat →
     same_home st nlog (recovered st (apply_writes d p)) (apply_writes d (home_copies bs f))).
Proof.
  intros Hlen Hn Hnd Hhome Hb Hroom Hp. unfold commit_writes in Hp.
  assert (Ll : length (log_writes st bs f) = length bs) by apply length_imap.
  apply prefix_app_cases in Hp as [Hpre|([|w q] & -> & Hq)].
  - destruct (commit_before d bs f p Hlen Hn Hroom Hpre) as [Hg Hs]. split; [done|]. split; [done|].
    apply prefix_length in Hpre. lia.
  - rewrite app_nil_r. destruct (commit_before d bs f (log_writes st bs f) Hlen Hn Hroom) as [Hg Hs]; [done|].
    split; [done|]. split; [done|]. lia.
  - pose proof (prefix_cons_inv_1 _ _ _ _ Hq) as ->. apply prefix_cons_inv_2 in Hq.
    destruct (commit_after d bs f Hlen Hnd Hhome Hb Hroom) as (Hg2 & Hrec & Hs2). rewrite <- Hrec in Hq.
    destruct (recovery_idempotent st nlog _ q Hg2 Hq) as [Hgq Hsq].
    rewrite length_app, Ll, apply_writes_app. simpl. split; [done|]. split; [lia|]. intros _.
    by eapply same_home_trans.
Qed.
End atomic.

(** ** Properties *)

(** C5: a commit is atomic across crashes.  Whatever prefix [p] of its disk
    writes was made when the machine stopped, and however often it crashes
    again while it recovers, it boots in the end with an empty log, and
    with the file system as it was before the transaction, or, when the
    header had been written, with all of the transaction's blocks. *)
Theorem log_commit_atomic {St} `{BS : BlockStore St, !BlockStoreOk St} s a g bs :
  bs_rep s a → ready a g bs → bs ≠ [] → blocknos bs →
  header_n (disk_block (a_disk a) (start g)) = 0 →
  (∀ b, home (start g) (log_size g) b → b ∉ bs → view a b = disk_block (a_disk a) b) →
  ∃ σ a' W, commit (s, g) = Ok (tt, σ) ∧ bs_rep (fst σ) a' ∧ lists (snd σ) [] ∧ a_trace a' = a_trace a ++ W ∧
    (∀ b, home (start g) (log_size g) b → disk_block (a_disk a') b = view a b) ∧
    ∀ p d', p `prefix_of` W →
      rtc (crashed_boot (St := St) (start g) (log_size g)) (apply_writes (a_disk a) p) d' →
      boots_to (St := St) (start g) (log_size g) d' (λ d'', ∀ b, home (start g) (log_size g) b →
        disk_block d'' b = if decide (length p ≤ length bs)%nat then disk_block (a_disk a) b else view a b).
Proof.
  intros Hr Hrd Hne Hbn Hn Hclean. pose proof Hrd as [Hl Hnd Hroom Hhome Hpin Hlog Hbuf].
  destruct (wp_ok _ _ _ (commit_ok s a g bs Hr Hrd Hne)) as ([] & σ & Hrun & L' & S' & R').
  assert (length (disk_block (a_disk a) (start g)) = Z.to_nat BSIZE) as Hlen.
  { eapply disk_length; [done|]. apply Hlog. unfold home. lia. }
  assert (Forall (home (start g) (log_size g)) bs) as Hh by (apply Forall_forall; auto).
  assert (Hnew : ∀ b, home (start g) (log_size g) b →
    disk_block (apply_writes (a_disk a) (home_copies bs (view a))) b = view a b) by (intros b Hb; apply home_copied; auto).
  eexists σ, _, _. split; [done|]. split; [exact R'|]. split; [done|]. split; [done|]. simpl.
  set (W := commit_writes _ _ _ _) in *.
  pose proof (commit_prefix (start g) (log_size g) (a_disk a) bs (view a)) as Hcrash.
  split.
  - intros b Hb. apply (commit_home (start g) (log_size g)); auto.
  - intros p d' Hp Hcb s0 g0 R0 L0. destruct (Hcrash p) as (Hg & Hold & Hnw); try done.
    destruct (crashed_boots_ok (St := St) _ _ _ _ Hg Hcb) as [Hg' Hs'].
    eapply wp_mono; [by apply (initlog_ok s0 d' g0 (start g) (log_size g))|]. intros [] σ0 (R & L & _).
    exists (recovered (start g) d'). split; [done|]. split; [|done]. intros b Hb. rewrite Hs' by done.
    case_decide; [by apply Hold|]. rewrite Hnw by (done || lia). by apply Hnew.
Qed.

Definition ones : block := replicate (Z.to_nat BSIZE) 1.

Lemma pinned_example : ∃ s : bio, bs_rep s (Store ∅ {[50 := Held 1 false ones]} []).
Proof.
  assert (∀ b, length (disk_block ∅ b) = Z.to_nat BSIZE) as H0 by (intros b; reflexivity).
  destruct (wp_ok _ _ _ (binit_ok ∅ H0)) as ([] & s0 & _ & R0 & _).
  change (bs_rep s0 (Store ∅ ∅ [])) in R0.
  assert (wp (i ← bs_read ROOTDEV 50; bs_set_data i ones;; bs_pin i;; bs_relse i) s0
    (λ _ s, bs_rep s (Store ∅ {[50 := Held 1 false ones]} []))) as Hwp.
  { wp_steps. wp_call read_free_ok; [exact R0|done|done|]. cbv zeta. simpl. intros i s1 (R1 & T1 & K1).
    bs_call bs_set_data_ok; [done|vm_compute; reflexivity|]. intros [] s2 (R2 & K2).
    bs_call bs_pin_ok; [done|]. intros [] s3 (R3 & K3).
    wp_call bs_relse_ok; [done|bs_handle_tac|by simplify_map_eq|done|done|]. cbv zeta. simpl. intros [] s4 (R4 & K4).
    refine (eq_rect _ (bs_rep s4) R4 _ _). unfold set_held; simpl. f_equal. }
  destruct (wp_ok _ _ _ Hwp) as (_ & s & _ & Hs). by exists s.
Qed.

Definition example_log : logst := LogSt false 2 30 0 false ROOTDEV 1 (50 :: replicate 29 0).

Lemma log_commit_atomic_witness :
  ∃ (s : bio) σ a' W, commit (s, example_log) = Ok (tt, σ) ∧ bs_rep (fst σ) a' ∧ lists (snd σ) [] ∧ a_trace a' = W ∧
    disk_block (a_disk a') 50 = ones ∧
    ∀ p d', p `prefix_of` W → rtc (crashed_boot (St := bio) 2 30) (apply_writes ∅ p) d' →
      boots_to (St := bio) 2 30 d' (λ d'', ∀ b, home 2 30 b →
        disk_block d'' b = if decide (length p ≤ 1)%nat then zero_block else view (Store ∅ {[50 := Held 1 false ones]} []) b).
Proof.
  destruct pinned_example as [s R]. exists s.
  destruct (log_commit_atomic s _ example_log [50] R) as (σ & a' & W & H1 & H2 & H3 & H4 & H5 & H6).
  - split.
    + done.
    + apply NoDup_singleton.
    + done.
    + intros b ->%list_elem_of_singleton. unfold home. simpl. lia.
    + intros b ->%list_elem_of_singleton. exists (Held 1 false ones). done.
    + intros k Hk. unfold home in Hk. simpl in Hk. simpl. rewrite lookup_singleton_ne by lia. done.
    + done.
  - done.
  - split; [by repeat constructor|done].
  - vm_compute. reflexivity.
  - intros b _ Hb. unfold view. simpl. rewrite lookup_singleton_ne; [done|]. intros <-. apply Hb. by apply list_elem_of_singleton.
  - exists σ, a', W. split; [done|]. split; [done|]. split; [done|]. split; [done|]. split; [|exact H6].
    rewrite H5 by (unfold home; simpl; lia). reflexivity.
Defined.

(** recovery reads back the header a commit wrote. *)
Theorem log_header_roundtrip {St} `{BS : BlockStore St, !BlockStoreOk St} s a g g2 bs :
  bs_rep s a → lists g bs → blocknos bs → a_held a !! start g = None → Z.of_nat (size (a_held a)) < NBUF →
  start g2 = start g → log_dev g2 = ROOTDEV → length (lh_block g2) = Z.to_nat LOGSIZE →
  wp (write_head;; modify (λ σ, (fst σ, g2));; read_head) (s, g) (λ _ σ, lists (snd σ) bs).
Proof.
  intros Hr Hl Hb Hfree Hsz Hst Hdev Hlen. wp_steps.
  wp_call (write_head_ok s a g bs); [done..|]. cbv zeta. intros [] [s1 g1] [E1 R1]. simpl in E1, R1. subst g1. wp_steps. simpl.
  pose proof (disk_length s a _ Hr Hfree) as Hd.
  assert (E : disk_block (<[start g := put_header bs (disk_block (a_disk a) (start g))]> (a_disk a)) (start g2) =
    put_header bs (disk_block (a_disk a) (start g))) by (unfold disk_block; by rewrite Hst, lookup_insert_eq).
  eapply wp_mono; [apply (read_head_ok s1 _ g2 R1); simpl; rewrite ?Hst; try done|].
  - rewrite Hst in E. rewrite E, header_n_put by done. destruct Hb. unfold LOGSIZE, MAXOPBLOCKS in *. lia.
  - cbv zeta. simpl. rewrite E, get_put_header by done. by intros [] σ (_ & L & _).
Qed.

Lemma log_header_roundtrip_witness :
  ∃ s : bio, wp (write_head;; modify (λ σ, (fst σ, LogSt false 2 30 0 false ROOTDEV 0 (replicate 30 0)));; read_head)
    (s, example_log) (λ _ σ, lists (snd σ) [50]).
Proof.
  destruct pinned_example as [s R]. exists s.
  apply (log_header_roundtrip s (Store ∅ {[50 := Held 1 false ones]} []) example_log); try done.
  split; [by repeat constructor|done].
Defined.

(** [begin_op] admits an operation only when the log has room for
    [MAXOPBLOCKS] blocks of each operation that runs. *)
Theorem begin_op_reserves {St} `{BS : BlockStore St} (s : St) g rs :
  log_lock g = false → reserved g rs →
  begin_op (s, g) = Diverge ∧ (committing g = true ∨ lh_n g + (outstanding g + 1) * MAXOPBLOCKS > LOGSIZE) ∨
  ∃ g', begin_op (s, g) = Ok (tt, (s, g')) ∧ reserved g' (MAXOPBLOCKS :: rs) ∧ lh_n g' = lh_n g ∧ lh_block g' = lh_block g.
Proof.
  intros Hlk (Ho & Hall & Hsum). rewrite (begin_op_ok s g Hlk). destruct (committing g); [left; by auto|]. simpl.
  destruct (Z.gtb_spec (lh_n g + (outstanding g + 1) * MAXOPBLOCKS) LOGSIZE); [left; split; [done|right; lia]|].
  right. eexists. split; [done|]. split; [|done]. pose proof (sum_reserved rs Hall). unfold reserved; simpl.
  split_and!; [lia|constructor; [unfold MAXOPBLOCKS; lia|done]|lia].
Qed.

Lemma begin_op_reserves_witness :
  ∃ s : bio, begin_op (s, LogSt false 2 30 0 false ROOTDEV 0 []) = Diverge ∧
    (false = true ∨ 0 + (0 + 1) * MAXOPBLOCKS > LOGSIZE) ∨
  ∃ g', begin_op (s, LogSt false 2 30 0 false ROOTDEV 0 []) = Ok (tt, (s, g')) ∧ reserved g' [MAXOPBLOCKS] ∧
    lh_n g' = 0 ∧ lh_block g' = [].
Proof.
  destruct pinned_example as [s _]. exists s. apply (begin_op_reserves s (LogSt false 2 30 0 false ROOTDEV 0 []) []); [done|].
  split; [done|]. split; [constructor|done].
Defined.

(** with more than [LOGSIZE] log blocks, [log_write] in an operation
    that keeps to [MAXOPBLOCKS] blocks never panics: it adds the block to the
    log and pins it, or finds it there and changes nothing. *)
Theorem log_write_absorbs {St} `{BS : BlockStore St, !BlockStoreOk St} s a g bs rs1 r rs2 buf b h :
  bs_rep s a → lists g bs → log_lock g = false → bs_handle s buf b → a_held a !! b = Some h → h_ref h < 2 ^ 32 - 1 →
  reserved g (rs1 ++ r :: rs2) → 0 < r → LOGSIZE < log_size g →
  wp (log_write buf) (s, g) (λ _ σ,
    if decide (b ∈ bs) then lists (snd σ) bs ∧ bs_rep (fst σ) a ∧ reserved (snd σ) (rs1 ++ r :: rs2)
    else lists (snd σ) (bs ++ [b]) ∧ reserved (snd σ) (rs1 ++ (r - 1) :: rs2) ∧
      bs_rep (fst σ) (set_held (<[b := Held (h_ref h + 1) (h_locked h) (h_data h)]> (a_held a)) a)).
Proof.
  intros Hr Hl Hlk Hh Hb Href (Ho & Hall & Hsum) Hr0 Hsz. pose proof Hl as (_ & Hn & _ & _).
  assert (Hsplit : ∀ x, foldr Z.add 0 (rs1 ++ x :: rs2) = foldr Z.add 0 rs1 + x + foldr Z.add 0 rs2).
  { intros x. rewrite foldr_app. simpl. clear. induction rs1 as [|y rs1 IH]; simpl; lia. }
  pose proof Hall as Hall2. apply Forall_app in Hall2 as [Ha1 Ha2]. inversion_clear Ha2 as [|?? Hr1 Ha3].
  pose proof (sum_reserved rs1 Ha1). pose proof (sum_reserved rs2 Ha3). rewrite Hsplit in Hsum.
  rewrite length_app in Ho. simpl in Ho.
  wp_call (log_write_ok s a g bs buf b h); try done; try lia. cbv zeta. intros [] [s' g']. simpl. case_decide; intros (L & E & R & _).
  - split; [done|]. split; [done|]. rewrite E. unfold reserved; simpl. rewrite Hsplit, length_app. simpl. split_and!; [lia|done|lia].
  - split; [done|]. split; [|done]. rewrite E. unfold reserved; simpl. rewrite Hsplit, !length_app. simpl.
    split_and!; [lia| |lia]. apply Forall_app. split; [done|]. constructor; [lia|done].
Qed.

Definition one_block : store := Store ∅ {[50 := Held 1 true zero_block]} [].
Definition one_op : logst := LogSt false 2 40 1 false ROOTDEV 0 (replicate 30 0).

Lemma log_write_absorbs_witness :
  ∃ (s : bio) buf, bs_handle s buf 50 ∧
  wp (log_write buf) (s, one_op) (λ _ σ,
    if decide (50 ∈ @nil Z) then lists (snd σ) [] ∧ bs_rep (fst σ) one_block ∧ reserved (snd σ) ([] ++ 10 :: [])
    else lists (snd σ) ([] ++ [50]) ∧ reserved (snd σ) ([] ++ (10 - 1) :: []) ∧
      bs_rep (fst σ) (set_held (<[50 := Held (1 + 1) true zero_block]> (a_held one_block)) one_block)).
Proof.
  assert (∀ b, length (disk_block ∅ b) = Z.to_nat BSIZE) as H0 by (intros b; reflexivity).
  destruct (wp_ok _ _ _ (binit_ok ∅ H0)) as ([] & s0 & _ & R0 & _). change (bs_rep s0 (Store ∅ ∅ [])) in R0.
  destruct (wp_ok _ _ _ (read_free_ok s0 _ 50 R0 eq_refl ltac:(done))) as (buf & s & _ & R & T & _).
  exists s, buf. split; [exact T|].
  apply (log_write_absorbs s one_block one_op [] [] 10 [] buf 50 (Held 1 true zero_block)); try done.
  split; [done|]. split; [|done]. repeat constructor; done.
Defined.

(** Three operations begin; one of them reads, logs and releases 30 blocks. *)
Definition three_ops : M lst unit :=
  io (St := bio) binit;; begin_op;; begin_op;; begin_op;;
  foreach (λ b, i ← io (bs_read ROOTDEV b); log_write i;; io (bs_relse i)) (seqZ 100 30).

(** mkfs makes a log of [LOGSIZE] blocks, header included, so there are
    [LOGSIZE - 1] blocks for data: three operations that [begin_op] admits
    together, and that log [MAXOPBLOCKS] blocks each, panic. *)
Theorem mkfs_log_too_small :
  three_ops (Bio false (replicate (Z.to_nat NBUF) null_buf) [] ∅ [], LogSt false 2 30 0 false ROOTDEV 0 (replicate 30 0)) =
    Panic "too big a transaction".
Proof. vm_compute. reflexivity. Qed.
