(* ===== verification/Txn.v ===== *)
(** What the file system asks of the layers below: blocks that are read,
    changed and logged inside a transaction ([Txn]); and the proof that the
    log over a block store provides it. *)
From S2P Require Import Prelude Bytes Bio Log LogProof LogCrash.

(** ** Definitions *)

(** A transaction: the contents every reader sees, the blocks locked by this
    process with their contents in memory, the blocks logged so far, and how
    many more it may log (-1 outside of an operation, where it may only read). *)
Record tstore := TStore {
  t_view : gmap Z block;
  t_locked : gmap Z block;
  t_log : gset Z;
  t_room : Z
}.

Definition tview (t : tstore) (b : Z) : block := disk_block (t_view t) b.
Definition set_locked (m : gmap Z block) (t : tstore) : tstore := TStore (t_view t) m (t_log t) (t_room t).
Definition logged (b : Z) (d : block) (t : tstore) : tstore :=
  TStore (<[b := d]> (t_view t)) (t_locked t) ({[b]} ∪ t_log t)
    (if decide (b ∈ t_log t) then t_room t else t_room t - 1).

(** A process holds at most so many buffers at a time. *)
Definition MAXLOCKED : Z := 4.

Class Txn (St : Type) := {
  tx_read : Z → Z → M St nat;
  tx_relse : nat → M St unit;
  tx_log : nat → M St unit;
  tx_data : nat → M St block;
  tx_set_data : nat → block → M St unit;
  tx_rep : St → tstore → Prop;
  tx_handle : St → nat → Z → Prop
}.

Definition tkeeps `{Txn St} (s s' : St) (t' : tstore) : Prop :=
  ∀ i b, tx_handle s i b → is_Some (t_locked t' !! b) → tx_handle s' i b.

Class TxnOk (St : Type) `{Txn St} : Prop := {
  tx_read_ok s t b : tx_rep s t → t_locked t !! b = None → Z.of_nat (size (t_locked t)) < MAXLOCKED →
    let t' := set_locked (<[b := tview t b]> (t_locked t)) t in
    wp (tx_read ROOTDEV b) s (λ i s', tx_rep s' t' ∧ tx_handle s' i b ∧ tkeeps s s' t');
  tx_data_ok s t i b d : tx_rep s t → tx_handle s i b → t_locked t !! b = Some d → tx_data i s = Ok (d, s);
  tx_set_data_ok s t i b d d' : tx_rep s t → tx_handle s i b → t_locked t !! b = Some d →
    length d' = Z.to_nat BSIZE →
    let t' := set_locked (<[b := d']> (t_locked t)) t in
    wp (tx_set_data i d') s (λ _ s', tx_rep s' t' ∧ tkeeps s s' t');
  tx_log_ok s t i b d : tx_rep s t → tx_handle s i b → t_locked t !! b = Some d →
    b ∈ t_log t ∨ 0 < t_room t →
    wp (tx_log i) s (λ _ s', tx_rep s' (logged b d t) ∧ tkeeps s s' (logged b d t));
  tx_relse_ok s t i b d : tx_rep s t → tx_handle s i b → t_locked t !! b = Some d → tview t b = d →
    let t' := set_locked (delete b (t_locked t)) t in
    wp (tx_relse i) s (λ _ s', tx_rep s' t' ∧ tkeeps s s' t');
  tx_wf s t b : tx_rep s t → length (tview t b) = Z.to_nat BSIZE
}.

(** *** The log provides transactions *)

(** Where the log is on the disk. *)
Class LogArea := { la_start : Z; la_size : Z }.

(** The log with at most one operation running; a room of -1 stands for none. *)
Record op_state `{LogArea} (g : logst) (t : tstore) : Prop := {
  os_area : start g = la_start ∧ log_size g = la_size ∧ MAXOPBLOCKS + 1 < la_size;
  os_committing : committing g = false;
  os_outstanding : outstanding g = if t_room t <? 0 then 0 else 1;
  os_clean : t_room t < 0 → t_log t = ∅
}.

Section instance.
Context {St} `{BS : BlockStore St, LA : LogArea}.

(** How a block of the transaction [t] is held by the cache. *)
Definition held_as (t : tstore) (b : Z) : option held :=
  match t_locked t !! b with
  | Some d => Some (Held (if decide (b ∈ t_log t) then 2 else 1) true d)
  | None => if decide (b ∈ t_log t) then Some (Held 1 false (tview t b)) else None
  end.

Definition log_rep (σ : lst) (t : tstore) : Prop :=
  ∃ a bs, bs_rep (fst σ) a ∧ lists (snd σ) bs ∧ log_lock (snd σ) = false ∧ op_state (snd σ) t ∧
    NoDup bs ∧ t_log t = list_to_set bs ∧
    (∀ b, a_held a !! b = held_as t b) ∧
    (∀ b, b ∉ t_log t → tview t b = disk_block (a_disk a) b) ∧
    (∀ b, length (tview t b) = Z.to_nat BSIZE) ∧
    -1 ≤ t_room t ∧ Z.of_nat (size (t_log t)) + t_room t `max` 0 + MAXLOCKED ≤ NBUF ∧
    Z.of_nat (size (t_log t)) + t_room t < log_size (snd σ) - 1.

Global Instance log_txn : Txn lst := {|
  tx_read := λ dev b, io (bs_read dev b);
  tx_relse := λ i, io (bs_relse i);
  tx_log := log_write;
  tx_data := λ i, io (bs_data i);
  tx_set_data := λ i d, io (bs_set_data i d);
  tx_rep := log_rep;
  tx_handle := λ σ i b, bs_handle (fst σ) i b
|}.
End instance.

(** ** Lemmas *)

Section instance_ok.
Context {St} `{BS : BlockStore St, !BlockStoreOk St, LA : LogArea}.

Lemma held_size (a : store) t : (∀ b, a_held a !! b = held_as t b) →
  (size (a_held a) ≤ size (t_locked t) + size (t_log t))%nat.
Proof.
  intros Hh. rewrite <- (size_dom (D := gset Z) (a_held a)), <- (size_dom (D := gset Z) (t_locked t)).
  trans (size (dom (t_locked t) ∪ t_log t)).
  - apply subseteq_size. intros b Hb. apply elem_of_dom in Hb as [h Hb]. rewrite Hh in Hb. unfold held_as in Hb.
    apply elem_of_union. destruct (t_locked t !! b) eqn:E; [left; apply elem_of_dom; eauto|]. right. by case_decide.
  - rewrite size_union_alt. assert (size (t_log t ∖ dom (t_locked t)) ≤ size (t_log t))%nat; [|lia].
    apply subseteq_size. set_solver.
Qed.

Lemma unlocked_held t b : t_locked t !! b = None →
  held_as t b = if decide (b ∈ t_log t) then Some (Held 1 false (tview t b)) else None.
Proof. unfold held_as. by intros ->. Qed.

Lemma locked_held t b d : t_locked t !! b = Some d →
  held_as t b = Some (Held (if decide (b ∈ t_log t) then 2 else 1) true d).
Proof. unfold held_as. by intros ->. Qed.

Lemma op_state_locked g m t : op_state g t → op_state g (set_locked m t).
Proof. intros []. by split. Qed.

(** Locking, changing or releasing block [b] changes how [b] is held, and
    nothing else. *)
Lemma held_as_other t m b k : k ≠ b → t_locked t !! k = m !! k → held_as (set_locked m t) k = held_as t k.
Proof. intros _ E. unfold held_as, tview; simpl. by rewrite E. Qed.

Lemma txn_read_ok (σ : lst) t b : log_rep σ t → t_locked t !! b = None → Z.of_nat (size (t_locked t)) < MAXLOCKED →
  let t' := set_locked (<[b := tview t b]> (t_locked t)) t in
  wp (io (bs_read ROOTDEV b)) σ (λ i σ', log_rep σ' t' ∧ bs_handle (fst σ') i b ∧
    ∀ j k, bs_handle (fst σ) j k → is_Some (t_locked t' !! k) → bs_handle (fst σ') j k).
Proof.
  destruct σ as [s g]. intros (a & bs & R & L1 & L2 & L3 & L4 & L5 & L6 & L7 & L8 & L9 & L10 & L11) Hb Hsz t'. simpl in *. assert (op_state g t') as L3' by (by apply op_state_locked).
  pose proof (held_size a t L6) as Hheld. apply wp_io. pose proof (L6 b) as Eb. rewrite unlocked_held in Eb by done.
  eapply wp_mono; [apply (bs_read_ok s a b R); rewrite Eb; case_decide; [simpl; lia|unfold MAXLOCKED in *; lia]|].
  cbv zeta. intros i s' (R' & H' & K'). split; [|split; [done|]].
  - eexists _, bs. split; [exact R'|]. simpl. split_and!; try done.
    + intros k. unfold t'. destruct (decide (k = b)) as [->|Hne].
      * rewrite lookup_insert_eq, Eb, (locked_held _ b (tview t b)) by (simpl; by rewrite lookup_insert_eq). simpl.
        case_decide; [done|]. by rewrite L7.
      * rewrite lookup_insert_ne by done. rewrite (held_as_other _ _ b) by (done || by rewrite lookup_insert_ne). apply L6.
  - intros j k Hj Hk. apply K'; [done|]. simpl. destruct (decide (k = b)) as [->|Hne].
    + rewrite lookup_insert_eq. eauto.
    + rewrite lookup_insert_ne by done. unfold t' in Hk; simpl in Hk. rewrite lookup_insert_ne in Hk by done.
      destruct Hk as [d Hd]. rewrite L6, (locked_held t k d Hd). eauto.
Qed.

(** A handle of a locked block, and how it is held. *)
Lemma txn_set_data_ok (σ : lst) t i b d d' : log_rep σ t → bs_handle (fst σ) i b → t_locked t !! b = Some d →
  length d' = Z.to_nat BSIZE →
  let t' := set_locked (<[b := d']> (t_locked t)) t in
  wp (io (bs_set_data i d')) σ (λ _ σ', log_rep σ' t' ∧
    ∀ j k, bs_handle (fst σ) j k → is_Some (t_locked t' !! k) → bs_handle (fst σ') j k).
Proof.
  destruct σ as [s g]. intros (a & bs & R & L1 & L2 & L3 & L4 & L5 & L6 & L7 & L8 & L9 & L10 & L11) Hh Hb Hlen t'. simpl in *. assert (op_state g t') as L3' by (by apply op_state_locked).
  apply wp_io. pose proof (L6 b) as Eb. rewrite (locked_held t b d Hb) in Eb.
  wp_call bs_set_data_ok; [done|done|exact Eb|done|done|]. cbv zeta. simpl. intros [] s' (R' & K'). split.
  - eexists _, bs. split; [exact R'|]. simpl. split_and!; try done.
    intros k. unfold t'. destruct (decide (k = b)) as [->|Hne].
    + rewrite lookup_insert_eq, (locked_held _ b d') by (simpl; by rewrite lookup_insert_eq). done.
    + rewrite lookup_insert_ne by done. rewrite (held_as_other _ _ b) by (done || by rewrite lookup_insert_ne). apply L6.
  - intros j k Hj Hk. apply K'; [done|]. simpl. destruct (decide (k = b)) as [->|Hne].
    + rewrite lookup_insert_eq. eauto.
    + rewrite lookup_insert_ne by done. unfold t' in Hk; simpl in Hk. rewrite lookup_insert_ne in Hk by done.
      destruct Hk as [x Hx]. rewrite L6, (locked_held t k x Hx). eauto.
Qed.

Lemma txn_relse_ok (σ : lst) t i b d : log_rep σ t → bs_handle (fst σ) i b → t_locked t !! b = Some d → tview t b = d →
  let t' := set_locked (delete b (t_locked t)) t in
  wp (io (bs_relse i)) σ (λ _ σ', log_rep σ' t' ∧
    ∀ j k, bs_handle (fst σ) j k → is_Some (t_locked t' !! k) → bs_handle (fst σ') j k).
Proof.
  destruct σ as [s g]. intros (a & bs & R & L1 & L2 & L3 & L4 & L5 & L6 & L7 & L8 & L9 & L10 & L11) Hh Hb Hd t'. simpl in *. assert (op_state g t') as L3' by (by apply op_state_locked).
  apply wp_io. pose proof (L6 b) as Eb. rewrite (locked_held t b d Hb) in Eb.
  wp_call bs_relse_ok; [done|done|exact Eb|done| |].
  { simpl. case_decide; [lia|]. intros _. by rewrite <- Hd, L7. }
  cbv zeta. simpl. intros [] s' (R' & K'). split.
  - eexists _, bs. split; [exact R'|]. simpl. split_and!; try done.
    intros k. unfold t'. destruct (decide (k = b)) as [->|Hne].
    + rewrite (unlocked_held _ b) by (simpl; by rewrite lookup_delete_eq). simpl.
      case_decide; simpl; [|by rewrite lookup_delete_eq]. rewrite lookup_insert_eq. by rewrite <- Hd.
    + rewrite (held_as_other _ _ b) by (done || by rewrite lookup_delete_ne). rewrite <- L6.
      case_match; [by rewrite lookup_delete_ne|by rewrite lookup_insert_ne].
  - intros j k Hj Hk. apply K'; [done|]. simpl. unfold t' in Hk; simpl in Hk.
    destruct Hk as [x [Hne Hx]%lookup_delete_Some]. case_match.
    + rewrite lookup_delete_ne by done. rewrite L6, (locked_held t k x Hx). eauto.
    + rewrite lookup_insert_ne by done. rewrite L6, (locked_held t k x Hx). eauto.
Qed.

Lemma txn_log_ok (σ : lst) t i b d : log_rep σ t → bs_handle (fst σ) i b → t_locked t !! b = Some d →
  b ∈ t_log t ∨ 0 < t_room t →
  wp (log_write i) σ (λ _ σ', log_rep σ' (logged b d t) ∧
    ∀ j k, bs_handle (fst σ) j k → is_Some (t_locked (logged b d t) !! k) → bs_handle (fst σ') j k).
Proof.
  destruct σ as [s g]. intros (a & bs & R & L1 & L2 & L3 & L4 & L5 & L6 & L7 & L8 & L9 & L10 & L11) Hh Hb Hroom. simpl in *.
  pose proof (L6 b) as Eb. rewrite (locked_held t b d Hb) in Eb.
  assert (Hin : b ∈ bs ↔ b ∈ t_log t) by (rewrite L5; by rewrite elem_of_list_to_set).
  assert (Hn : size (t_log t) = length bs) by (rewrite L5; by apply size_list_to_set).
  unfold NBUF, MAXLOCKED, MAXOPBLOCKS in L10. pose proof L3 as [O1 O2 O3 O4].
  assert (0 ≤ t_room t) as Hr0 by (destruct (decide (t_room t < 0)) as [Hneg|]; [rewrite (O4 Hneg) in Hroom; destruct Hroom as [?%elem_of_empty|]; [done|lia]|lia]).
  assert (outstanding g = 1) as Ho by (by rewrite (proj2 (Z.ltb_ge _ _)) in O3).
  assert (0 ≤ t_room (logged b d t)) as Hr1 by (unfold logged; simpl; case_decide; [lia|destruct Hroom; [done|lia]]).
  wp_call (log_write_ok s a g bs i b _ R L1 L2 Hh Eb); try (simpl; unfold LOGSIZE, MAXOPBLOCKS; lia).
  { simpl. case_decide; lia. }
  cbv zeta. intros [] [s' g'] (L' & E & R' & K'). simpl in L', E, R', K'.
  assert (Hd : length d = Z.to_nat BSIZE) by (apply (held_length s a b _ R Eb)).
  assert (Hview : ∀ k, tview (logged b d t) k = if decide (k = b) then d else tview t k).
  { intros k. unfold tview, disk_block, logged; simpl. destruct (decide (k = b)) as [->|Hne]; [by rewrite lookup_insert_eq|by rewrite lookup_insert_ne]. }
  assert (Hheld : ∀ k, k ≠ b → held_as (logged b d t) k = held_as t k).
  { intros k Hk. unfold held_as. rewrite Hview. unfold logged; simpl. rewrite (decide_False (P := k = b)) by done.
    destruct (decide (k ∈ {[b]} ∪ t_log t)), (decide (k ∈ t_log t)); try done; set_solver. }
  assert (Hheldb : held_as (logged b d t) b = Some (Held 2 true d)).
  { rewrite (locked_held _ b d) by done. unfold logged; simpl. rewrite decide_True by set_solver. done. }
  assert (∀ n l, op_state (set_lh n l g) (logged b d t)) as Hop.
  { intros n l. split; [done|done| |lia]. rewrite (proj2 (Z.ltb_ge _ _)) by done. done. }
  split.
  - eexists _, _. split; [exact R'|]. split; [exact L'|]. rewrite E. split; [done|]. split; [apply Hop|]. clear Hop Hr1. unfold logged at 1; simpl.
    destruct (decide (b ∈ bs)) as [Hmem|Hmem].
    + assert ({[b]} ∪ t_log t = t_log t) as Eset by set_solver. rewrite Eset, decide_True by tauto.
      split_and!; try done; try lia.
      * intros k. destruct (decide (k = b)) as [->|Hne]; [rewrite Hheldb, Eb; by rewrite decide_True by tauto|by rewrite Hheld].
      * intros k Hk. rewrite Hview, decide_False by (intros ->; set_solver). apply L7. set_solver.
      * intros k. rewrite Hview. destruct (decide (k = b)); [done|apply L8].
    + assert (b ∉ t_log t) as Hnl by tauto. rewrite (decide_False (P := b ∈ t_log t)) by done.
      assert (size ({[b]} ∪ t_log t) = S (size (t_log t))) as Esz by (rewrite size_union by set_solver; by rewrite size_singleton).
      destruct Hroom as [|Hroom]; [done|].
      assert (Etr : (if decide (b ∈ t_log t) then t_room t else t_room t - 1) = t_room t - 1) by (by rewrite decide_False).
      split_and!; rewrite ?Esz, ?Etr; try done; try lia.
      * apply NoDup_app. split; [done|]. split; [|apply NoDup_singleton]. intros k Hk ->%list_elem_of_singleton. done.
      * rewrite list_to_set_app_L, <- L5. simpl. set_solver.
      * intros k. destruct (decide (k = b)) as [->|Hne].
        { rewrite Hheldb. simpl. by rewrite lookup_insert_eq. }
        { rewrite Hheld by done. simpl. by rewrite lookup_insert_ne. }
      * intros k Hk. rewrite Hview, decide_False by (intros ->; set_solver). apply L7. set_solver.
      * intros k. rewrite Hview. destruct (decide (k = b)); [done|apply L8].
      * unfold NBUF, MAXLOCKED, MAXOPBLOCKS. lia.
  - intros j k Hj [x Hx]. simpl in Hx. apply K'; [done|]. destruct (decide (b ∈ bs)); simpl.
    + rewrite L6, (locked_held t k x Hx). eauto.
    + destruct (decide (k = b)) as [->|Hne]; [rewrite lookup_insert_eq; eauto|].
      rewrite lookup_insert_ne by done. rewrite L6, (locked_held t k x Hx). eauto.
Qed.

Global Instance log_txn_ok : TxnOk lst.
Proof.
  split.
  - exact txn_read_ok.
  - intros [s g] t i b d (a & bs & R & L1 & L2 & L3 & L4 & L5 & L6 & _) Hh Hb. simpl in *.
    unfold io, lift_m. simpl. pose proof (L6 b) as Eb. rewrite (locked_held t b d Hb) in Eb.
    by rewrite (bs_data_ok s a i b _ R Hh Eb).
  - intros. by eapply txn_set_data_ok.
  - intros. by eapply txn_log_ok.
  - intros. by eapply txn_relse_ok.
  - intros σ t b (a & bs & _ & _ & _ & _ & _ & _ & _ & _ & L8 & _). apply L8.
Qed.
End instance_ok.
