(* ===== verification/TxnOps.v ===== *)
(** Transactions without a disk: the transaction itself as the store, the
    reference the layers above can be run on.  And the operations of the file
    system: the transactions that [begin_op] opens and [end_op] commits, for a
    process that runs alone; the log provides them. *)
From S2P Require Import Prelude Bytes Bio Log LogProof LogCrash Txn.

(** ** Definitions *)

(** A buffer stands for the block whose number it encodes. *)
Definition buf_of (b : Z) : nat := encode_nat b.
Definition block_of (i : nat) : Z := default 0 (decode_nat i).
Definition locked_data (t : tstore) (i : nat) : block := default zero_block (t_locked t !! block_of i).

Global Instance mem_txn : Txn tstore := {|
  tx_read := λ _ b t, Ok (buf_of b, set_locked (<[b := tview t b]> (t_locked t)) t);
  tx_relse := λ i t, Ok (tt, set_locked (delete (block_of i) (t_locked t)) t);
  tx_log := λ i t, Ok (tt, logged (block_of i) (locked_data t i) t);
  tx_data := λ i t, Ok (locked_data t i, t);
  tx_set_data := λ i d t, Ok (tt, set_locked (<[block_of i := d]> (t_locked t)) t);
  tx_rep := λ s t, s = t ∧ ∀ b, length (tview t b) = Z.to_nat BSIZE ∧ ∀ d, t_locked t !! b = Some d → length d = Z.to_nat BSIZE;
  tx_handle := λ _ i b, i = buf_of b
|}.

(** Between two operations the blocks [v] are on the disk; an operation may
    log [MAXOPBLOCKS] blocks, outside of the log itself. *)
Class Ops (St : Type) `{Txn St} := {
  op_begin : M St unit;
  op_end : M St unit;
  op_idle : St → gmap Z block → Prop;
  op_area : Z → Prop
}.

(** The store at the start of an operation, and outside of operations. *)
Definition blank (v : gmap Z block) : tstore := TStore v ∅ ∅ MAXOPBLOCKS.
Definition resting (v : gmap Z block) : tstore := TStore v ∅ ∅ (-1).

Class OpsOk (St : Type) `{Ops St} : Prop := {
  op_begin_ok s v : op_idle s v → wp op_begin s (λ _ s', tx_rep s' (blank v));
  op_read_ok s v : op_idle s v ↔ tx_rep s (resting v);
  op_end_ok s t : tx_rep s t → t_locked t = ∅ → 0 ≤ t_room t → (∀ b, b ∈ t_log t → ¬ op_area b) →
    wp op_end s (λ _ s', ∃ v, op_idle s' v ∧ ∀ b, ¬ op_area b → disk_block v b = tview t b)
}.

(** *** The log *)

Section instance.
Context {St} `{BS : BlockStore St, LA : LogArea}.

(** The log when no operation is running. *)
Definition no_op (g : logst) : Prop :=
  log_lock g = false ∧ start g = la_start ∧ log_size g = la_size ∧ outstanding g = 0 ∧ committing g = false.
Definition log_idle (σ : lst) (v : gmap Z block) : Prop :=
  ∃ a, bs_rep (fst σ) a ∧ a_held a = ∅ ∧ (∀ b, disk_block v b = disk_block (a_disk a) b) ∧
    lists (snd σ) [] ∧ no_op (snd σ) ∧ MAXOPBLOCKS + 1 < la_size.

Global Instance log_ops : Ops lst := {|
  op_begin := begin_op;
  op_end := end_op;
  op_idle := log_idle;
  op_area := λ b, la_start ≤ b < la_start + la_size
|}.
End instance.

(** *** Transactions in memory *)

Global Instance mem_ops : Ops tstore := {|
  op_begin := λ t, Ok (tt, blank (t_view t));
  op_end := λ t, Ok (tt, resting (t_view t));
  op_idle := λ t v, t = resting v ∧ ∀ b, length (disk_block v b) = Z.to_nat BSIZE;
  op_area := λ _, False
|}.

(** ** Lemmas *)

Lemma block_of_buf_of b : block_of (buf_of b) = b.
Proof. unfold block_of, buf_of. by rewrite decode_encode_nat. Qed.

Lemma length_locked t b d d' k : (∀ b, length (tview t b) = Z.to_nat BSIZE ∧ ∀ d, t_locked t !! b = Some d → length d = Z.to_nat BSIZE) →
  length d = Z.to_nat BSIZE → <[b := d]> (t_locked t) !! k = Some d' → length d' = Z.to_nat BSIZE.
Proof.
  intros Hl Hd Hk. destruct (decide (k = b)) as [->|].
  - rewrite lookup_insert_eq in Hk. by simplify_eq.
  - rewrite lookup_insert_ne in Hk by done. by destruct (Hl k) as [_ H]; apply H.
Qed.

Global Instance mem_txn_ok : TxnOk tstore.
Proof.
  split; unfold tkeeps; simpl.
  - intros s t b [-> Hl] Hb _. unfold wp. split; [|done]. split; [done|]. intros k. split; [apply Hl|].
    intros d Hd. eapply length_locked; [done| |exact Hd]. apply Hl.
  - intros s t i b d [-> Hl] -> Hd. unfold locked_data. by rewrite block_of_buf_of, Hd.
  - intros s t i b d d' [-> Hl] -> Hd Hlen. unfold wp. rewrite block_of_buf_of. split; [|done]. split; [done|].
    intros k. split; [apply Hl|]. intros x Hx. by eapply length_locked.
  - intros s t i b d [-> Hl] -> Hd _. unfold wp, locked_data. rewrite block_of_buf_of, Hd. simpl. split; [|done]. split; [done|].
    intros k. split; [|apply Hl]. unfold tview, disk_block, logged; simpl. destruct (decide (k = b)) as [->|].
    + rewrite lookup_insert_eq. simpl. by apply (Hl b).
    + rewrite lookup_insert_ne by done. apply Hl.
  - intros s t i b d [-> Hl] -> Hd _. unfold wp. rewrite block_of_buf_of. split; [|done]. split; [done|].
    intros k. split; [apply Hl|]. simpl. intros x [_ Hx]%lookup_delete_Some. by apply (Hl k).
  - intros s t b [-> Hl]. apply Hl.
Qed.

Global Instance mem_ops_ok : OpsOk tstore.
Proof.
  split; simpl.
  - intros s v [-> Hl]. unfold wp. split; [done|]. intros b. split; [apply Hl|done].
  - intros s v. split; intros [-> Hl]; (split; [done|]); intros b; [split; [apply Hl|done]|apply Hl].
  - intros s t [-> Hl] _ _ _. unfold wp. exists (t_view t). split; [|done]. split; [done|]. intros b. apply Hl.
Qed.

(** Blocks pinned once are no longer held after the home writes. *)
Lemma unpin_all_once bs f (m : gmap Z held) : NoDup bs → (∀ b h, m !! b = Some h → b ∈ bs ∧ h_ref h = 1) →
  (∀ b, b ∈ bs → is_Some (m !! b)) → unpin_all m (home_copies bs f) = ∅.
Proof.
  revert m. induction bs as [|b bs IH]; intros m Hnd Hm Hall; unfold home_copies, unpin_all in *; simpl in *.
  - apply map_eq. intros b. rewrite lookup_empty. destruct (m !! b) as [h|] eqn:E; [|done]. by apply Hm in E as [?%elem_of_nil _].
  - apply NoDup_cons in Hnd as [Hb Hnd]. destruct (Hall b ltac:(by left)) as [h Hh].
    assert (unpinned b m (f b) = delete b m) as ->. { unfold unpinned. rewrite Hh. by destruct (Hm b h Hh) as [_ ->]. }
    apply IH; [done| |].
    + intros x y [Hne Hx]%lookup_delete_Some. destruct (Hm x y Hx) as [Hin ?]. apply elem_of_cons in Hin as [->|?]; [|done]. done.
    + intros x Hx. rewrite lookup_delete_ne by congruence. apply Hall. by right.
Qed.

Section instance_ok.
Context {St} `{BS : BlockStore St, !BlockStoreOk St, LA : LogArea}.

Lemma log_read_ok (σ : lst) v : log_idle σ v ↔ log_rep σ (resting v).
Proof.
  destruct σ as [s g]. split.
  - intros (a & R & Hh & Hv & L & (N1 & N2 & N3 & N4 & N5) & Hsz). simpl in *. exists a, []. split; [exact R|]. split; [done|]. split; [done|].
    split; [by split|]. split; [apply NoDup_nil_2|]. split; [done|]. split; [by rewrite Hh|]. split; [intros b _; apply Hv|]. split.
    { intros b. change (length (disk_block v b) = Z.to_nat BSIZE). rewrite Hv. apply (disk_length _ _ b R). by rewrite Hh. }
    cbn [t_log t_room snd resting]. rewrite size_empty, N3. unfold NBUF, MAXLOCKED, MAXOPBLOCKS in *. lia.
  - intros (a & bs & R & L1 & L2 & [(N1 & N2 & Hsz) N3 N4 _] & _ & L5 & L6 & L7 & _). simpl in *. exists a. split; [done|].
    assert (bs = []) as ->.
    { destruct bs as [|x bs]; [done|]. exfalso. assert (x ∈ (∅ : gset Z)) as Hx; [|by apply elem_of_empty in Hx]. rewrite L5. apply elem_of_list_to_set. by left. }
    split; [|split; [|done]].
    + apply map_eq. intros b. by rewrite L6, lookup_empty.
    + intros b. apply L7. apply not_elem_of_empty.
Qed.

Lemma log_begin_ok (σ : lst) v : log_idle σ v → wp begin_op σ (λ _ σ', log_rep σ' (blank v)).
Proof.
  destruct σ as [s g]. intros (a & R & Hh & Hv & L & (N1 & N2 & N3 & N4 & N5) & Hsz). simpl in *. pose proof L as (G1 & G2 & G3 & G4). simpl in G2.
  unfold wp. rewrite begin_op_ok by done. rewrite N5, N4, G2. simpl. exists a, []. split; [exact R|].
  split; [done|]. split; [done|]. split; [by split|]. split; [apply NoDup_nil_2|]. split; [done|]. split; [by rewrite Hh|]. split; [intros b _; apply Hv|]. split.
  { intros b. change (length (disk_block v b) = Z.to_nat BSIZE). rewrite Hv. apply (disk_length _ _ b R). by rewrite Hh. }
  cbn [t_log t_room snd log_size set_ops blank]. rewrite size_empty, N3. unfold NBUF, MAXLOCKED, MAXOPBLOCKS in *. lia.
Qed.

(** The commit of an operation's blocks. *)
Lemma log_commit_ok (s : St) g a bs t : bs_rep s a → lists g bs → NoDup bs → t_log t = list_to_set bs → t_locked t = ∅ →
  (∀ b, a_held a !! b = held_as t b) → (∀ b, b ∉ t_log t → tview t b = disk_block (a_disk a) b) →
  Z.of_nat (length bs) + MAXLOCKED ≤ NBUF → Z.of_nat (length bs) < log_size g → start g = la_start → log_size g = la_size →
  (∀ b, b ∈ t_log t → ¬ (la_start ≤ b < la_start + la_size)) →
  wp commit (s, g) (λ _ σ, ∃ v tr, bs_rep (fst σ) (Store v ∅ tr) ∧ lists (snd σ) [] ∧ snd σ = set_lh 0 (lh_block g) g ∧
    ∀ b, ¬ (la_start ≤ b < la_start + la_size) → disk_block v b = tview t b).
Proof.
  intros R L Hnd Elog Hlk Hheld Hview Hbuf Hroom Es Ez Harea. rewrite <- Es, <- Ez in *.
  assert (∀ b, b ∈ t_log t ↔ b ∈ bs) as Hin by (intros; rewrite Elog; apply elem_of_list_to_set).
  assert (∀ b, held_as t b = if decide (b ∈ t_log t) then Some (Held 1 false (tview t b)) else None) as Hh by (intros b; apply unlocked_held; by rewrite Hlk).
  assert (∀ b, view a b = tview t b) as Hv.
  { intros b. unfold view. rewrite Hheld, Hh. case_decide as E; [done|]. symmetry. by apply Hview. }
  destruct (decide (bs = [])) as [->|Hne].
  - unfold commit. wp_steps. apply wp_lget. pose proof L as (_ & G2 & _). rewrite G2. simpl. apply wp_ret. exists (a_disk a), (a_trace a). simpl.
    assert (a_held a = ∅) as E0. { apply map_eq. intros b. rewrite Hheld, Hh, lookup_empty. by rewrite decide_False by (rewrite Hin; apply not_elem_of_nil). }
    rewrite <- E0. split; [by destruct a|]. split; [done|]. split; [destruct g; simpl in G2; by subst|].
    intros b _. rewrite Hview; [done|]. rewrite Hin. apply not_elem_of_nil.
  - eapply wp_mono; [apply (commit_ok s a g bs); [done| |done]|].
    + split; try done; try lia.
      * intros b Hb. apply Hin, Harea in Hb. unfold home. lia.
      * intros b Hb. exists (Held 1 false (tview t b)). split; [|by simpl]. rewrite Hheld, Hh. apply decide_True. by apply Hin.
      * intros b Hb. rewrite Hheld, Hh. apply decide_False. intros ?%Harea. apply Hb. unfold home. lia.
      * pose proof (held_size a t Hheld) as Hsz. rewrite Hlk, Elog, size_list_to_set in Hsz by done. change (size ∅) with 0%nat in Hsz. unfold MAXLOCKED in *. lia.
    + cbv zeta. intros _ [s' g'] (L' & E' & R'). simpl in *. eexists _, _. split; [|split; [done|split; [done|]]].
      * rewrite (unpin_all_once bs (view a)) in R'; [exact R'|done| |].
        -- intros b h. rewrite Hheld, Hh. case_decide as E; [|done]. intros [= <-]. by apply Hin in E.
        -- intros b Hb. rewrite Hheld, Hh, decide_True by (by apply Hin). eauto.
      * intros b Hb. rewrite <- Hv. apply (commit_home (start g) (log_size g)); [done|done|unfold home; lia|].
        intros Hnb. rewrite Hv. apply Hview. by rewrite Hin.
Qed.

Lemma log_end_ok (σ : lst) t : log_rep σ t → t_locked t = ∅ → 0 ≤ t_room t → (∀ b, b ∈ t_log t → ¬ (la_start ≤ b < la_start + la_size)) →
  wp end_op σ (λ _ σ', ∃ v, log_idle σ' v ∧ ∀ b, ¬ (la_start ≤ b < la_start + la_size) → disk_block v b = tview t b).
Proof.
  destruct σ as [s g]. intros (a & bs & R & L1 & L2 & [(L3 & Lz & Lsz) Lc Lo _] & L4 & L5 & L6 & L7 & L8 & L9 & L10 & L11) Hlk Hr0 Harea. simpl in *.
  rewrite (proj2 (Z.ltb_ge _ _)) in Lo by done. assert (size (t_log t) = length bs) as Hn by (rewrite L5; by apply size_list_to_set).
  unfold end_op. wp_steps. unfold acquire_log. unfold wp at 1. simpl. rewrite L2. wp_steps. apply wp_lupd. wp_steps. apply wp_lget.
  simpl. rewrite Lc. wp_steps. apply wp_lget. simpl. rewrite Lo. simpl. wp_steps. apply wp_lupd. wp_steps. unfold release_log at 1. unfold wp at 1. simpl. wp_steps.
  eapply wp_mono; [eapply (log_commit_ok s _ a bs t); try done; simpl; try lia|].
  intros [] [s' g'] (v & tr & R' & L' & E & Hv). simpl in *. subst g'.
  wp_steps. unfold wp at 1. simpl. wp_steps. apply wp_lupd. simpl. unfold release_log, wp; simpl. exists v. split; [|done].
  exists (Store v ∅ tr). split; [done|]. split; [done|]. split; [done|]. split; [done|]. split; [done|]. lia.
Qed.

Global Instance log_ops_ok : OpsOk lst.
Proof. split; [exact log_begin_ok|exact log_read_ok|exact log_end_ok]. Qed.
End instance_ok.
