(* ===== verification/Fs.v ===== *)
(** kernel/fs.c: blocks, inodes, directories and path names, over any store
    with transactions. *)
From S2P Require Import Prelude Bytes Bio Txn.

(** ** Definitions *)

Definition ROOTINO : Z := 1.
Definition FSMAGIC : Z := 0x10203040.
Definition NINODE : Z := 50.
Definition NDIRECT : Z := 12.
Definition NINDIRECT : Z := BSIZE / 4.
Definition MAXFILE : Z := NDIRECT + NINDIRECT.
Definition IPB : Z := BSIZE / 64.
Definition BPB : Z := BSIZE * 8.
Definition DIRSIZ : Z := 14.
Definition DIRENT : Z := 16.
Definition T_DIR : Z := 1.
Definition T_FILE : Z := 2.
Definition T_DEVICE : Z := 3.

Record superblock := Superblock {
  sb_magic : Z; sb_size : Z; sb_nblocks : Z; sb_ninodes : Z;
  sb_nlog : Z; sb_logstart : Z; sb_inodestart : Z; sb_bmapstart : Z
}.

Definition IBLOCK (i : Z) (sb : superblock) : Z := i / IPB + sb_inodestart sb.
Definition BBLOCK (b : Z) (sb : superblock) : Z := b / BPB + sb_bmapstart sb.

(** [struct inode]: the in-memory copy of an inode. *)
Record inode := Inode {
  i_dev : Z; i_inum : Z; i_ref : Z; i_lock : bool; i_valid : bool;
  i_type : Z; i_major : Z; i_minor : Z; i_nlink : Z; i_size : Z; i_addrs : list Z
}.

(** [struct dirent]. *)
Record dirent := Dirent { de_inum : Z; de_name : list Z }.

(** [sb] and [itable]. *)
Record fsst := FsSt { sb : superblock; itable_lock : bool; inodes : list inode }.

Definition set_ilock (l : bool) (ip : inode) : inode :=
  Inode (i_dev ip) (i_inum ip) (i_ref ip) l (i_valid ip) (i_type ip) (i_major ip) (i_minor ip) (i_nlink ip) (i_size ip) (i_addrs ip).
Definition set_iref (r : Z) (ip : inode) : inode :=
  Inode (i_dev ip) (i_inum ip) r (i_lock ip) (i_valid ip) (i_type ip) (i_major ip) (i_minor ip) (i_nlink ip) (i_size ip) (i_addrs ip).
Definition set_ivalid (v : bool) (ip : inode) : inode :=
  Inode (i_dev ip) (i_inum ip) (i_ref ip) (i_lock ip) v (i_type ip) (i_major ip) (i_minor ip) (i_nlink ip) (i_size ip) (i_addrs ip).
Definition set_itype (t : Z) (ip : inode) : inode :=
  Inode (i_dev ip) (i_inum ip) (i_ref ip) (i_lock ip) (i_valid ip) t (i_major ip) (i_minor ip) (i_nlink ip) (i_size ip) (i_addrs ip).
Definition set_inlink (n : Z) (ip : inode) : inode :=
  Inode (i_dev ip) (i_inum ip) (i_ref ip) (i_lock ip) (i_valid ip) (i_type ip) (i_major ip) (i_minor ip) n (i_size ip) (i_addrs ip).
Definition set_isize (n : Z) (ip : inode) : inode :=
  Inode (i_dev ip) (i_inum ip) (i_ref ip) (i_lock ip) (i_valid ip) (i_type ip) (i_major ip) (i_minor ip) (i_nlink ip) n (i_addrs ip).
Definition set_iaddr (i a : Z) (ip : inode) : inode :=
  Inode (i_dev ip) (i_inum ip) (i_ref ip) (i_lock ip) (i_valid ip) (i_type ip) (i_major ip) (i_minor ip) (i_nlink ip) (i_size ip)
    (setZ (i_addrs ip) i a).

(** [struct dinode] at offset [off] of a block. *)
Definition read_dinode (d : block) (off : nat) (ip : inode) : inode :=
  Inode (i_dev ip) (i_inum ip) (i_ref ip) (i_lock ip) (i_valid ip)
    (i16 (field 2 d off)) (i16 (field 2 d (off + 2))) (i16 (field 2 d (off + 4))) (i16 (field 2 d (off + 6)))
    (field 4 d (off + 8)) ((λ i, field 4 d (off + 12 + 4 * i)%nat) <$> seq 0 13).
Fixpoint put_addrs (n : nat) (l : list Z) (off : nat) (d : block) : block :=
  match n with
  | O => d
  | S n' => set_field 4 (put_addrs n' l off d) (off + 4 * n') (default 0 (l !! n'))
  end.
Definition write_dinode (ip : inode) (off : nat) (d : block) : block :=
  let d := set_field 2 d off (i_type ip) in
  let d := set_field 2 d (off + 2) (i_major ip) in
  let d := set_field 2 d (off + 4) (i_minor ip) in
  let d := set_field 2 d (off + 6) (i_nlink ip) in
  let d := set_field 4 d (off + 8) (i_size ip) in
  put_addrs 13 (i_addrs ip) (off + 12) d.
Definition dinode_off (inum : Z) : nat := Z.to_nat (inum mod IPB * 64).

Section fs.
Context `{Txn St}.

Definition fst_ : Type := St * fsst.
Definition tio {A} (m : M St A) : M fst_ A := lift_m fst (λ s1 s, (s1, snd s)) m.
Definition fget {A} (f : fsst → A) : M fst_ A := gets (λ s, f (snd s)).
Definition fupd (f : fsst → fsst) : M fst_ unit := modify (λ s, (fst s, f (snd s))).

Definition acquire_itable : M fst_ unit := λ s,
  if itable_lock (snd s) then Panic "acquire"
  else Ok (tt, (fst s, FsSt (sb (snd s)) true (inodes (snd s)))).
Definition release_itable : M fst_ unit := λ s,
  if itable_lock (snd s) then Ok (tt, (fst s, FsSt (sb (snd s)) false (inodes (snd s)))) else Panic "release".

Definition null_inode : inode := Inode 0 0 0 false false 0 0 0 0 0 [].
Definition inode_at (ip : nat) : M fst_ inode := fget (λ s, default null_inode (inodes s !! ip)).
Definition upd_inode (ip : nat) (f : inode → inode) : M fst_ unit :=
  fupd (λ s, FsSt (sb s) (itable_lock s) (alter f ip (inodes s))).
Definition block_forever : M fst_ unit := λ _, Diverge.

(** *** Blocks *)

Definition readsb (dev : Z) : M fst_ superblock :=
  bp ← tio (tx_read dev 1);
  d ← tio (tx_data bp);
  tio (tx_relse bp);;
  mret (Superblock (field 4 d 0) (field 4 d 4) (field 4 d 8) (field 4 d 12)
          (field 4 d 16) (field 4 d 20) (field 4 d 24) (field 4 d 28)).

Definition bzero (dev bno : Z) : M fst_ unit :=
  bp ← tio (tx_read dev bno);
  tio (tx_set_data bp zero_block);;
  tio (tx_log bp);;
  tio (tx_relse bp).

(** The test of a bit of the free map, and its change. *)
Definition bit_mask (bi : Z) : Z := Z.shiftl 1 (bi mod 8).
Definition bit_free (d : block) (bi : Z) : bool := Z.land (field 1 d (Z.to_nat (bi / 8))) (bit_mask bi) =? 0.
Definition mark_bit (d : block) (bi : Z) : block :=
  set_field 1 d (Z.to_nat (bi / 8)) (Z.lor (field 1 d (Z.to_nat (bi / 8))) (bit_mask bi)).
Definition clear_bit (d : block) (bi : Z) : block :=
  set_field 1 d (Z.to_nat (bi / 8)) (Z.land (field 1 d (Z.to_nat (bi / 8))) (Z.lnot (bit_mask bi))).

(** The inner loop of [balloc]: the first free bit from [bi] on. *)
Fixpoint find_free (fuel : nat) (d : block) (b size bi : Z) : option Z :=
  match fuel with
  | O => None
  | S fuel' =>
      if (bi <? BPB) && (b + bi <? size) then
        if bit_free d bi then Some bi else find_free fuel' d b size (bi + 1)
      else None
  end.

Definition balloc (dev : Z) : M fst_ Z :=
  sb ← fget sb;
  while_ (S (Z.to_nat (sb_size sb)))
    (λ b,
      if negb (b <? sb_size sb) then mret (inr 0)
      else
        bp ← tio (tx_read dev (BBLOCK b sb));
        d ← tio (tx_data bp);
        match find_free (Z.to_nat BPB) d b (sb_size sb) 0 with
        | Some bi =>
            tio (tx_set_data bp (mark_bit d bi));;
            tio (tx_log bp);;
            tio (tx_relse bp);;
            bzero dev (b + bi);;
            mret (inr (b + bi))
        | None =>
            tio (tx_relse bp);;
            mret (inl (b + BPB))
        end)
    0.

Definition bfree (dev b : Z) : M fst_ unit :=
  sb ← fget sb;
  bp ← tio (tx_read dev (BBLOCK b sb));
  d ← tio (tx_data bp);
  let bi := b mod BPB in
  if bit_free d bi then panic "freeing free block"
  else
    tio (tx_set_data bp (clear_bit d bi));;
    tio (tx_log bp);;
    tio (tx_relse bp).

(** *** Inodes *)

Definition iinit : M fst_ unit :=
  fupd (λ s, FsSt (sb s) false (set_ilock false <$> inodes s)).

(** The loop of [iget]: the inode's entry, or the first free one. *)
Fixpoint iget_scan (dev inum : Z) (l : list inode) (i : nat) (empty : option nat) : option (nat * bool) :=
  match l with
  | [] => (λ e, (e, false)) <$> empty
  | ip :: l' =>
      if (i_ref ip >? 0) && (i_dev ip =? dev) && (i_inum ip =? inum) then Some (i, true)
      else iget_scan dev inum l' (S i)
             (match empty with None => if i_ref ip =? 0 then Some i else None | Some _ => empty end)
  end.

Definition iget (dev inum : Z) : M fst_ nat :=
  acquire_itable;;
  l ← fget inodes;
  match iget_scan dev inum l 0 None with
  | Some (ip, true) =>
      upd_inode ip (λ n, set_iref (i_ref n + 1) n);;
      release_itable;;
      mret ip
  | Some (ip, false) =>
      upd_inode ip (λ n, Inode dev inum 1 (i_lock n) false (i_type n) (i_major n) (i_minor n) (i_nlink n) (i_size n) (i_addrs n));;
      release_itable;;
      mret ip
  | None => panic "iget: no inodes"
  end.

Definition idup (ip : nat) : M fst_ nat :=
  acquire_itable;;
  upd_inode ip (λ n, set_iref (i_ref n + 1) n);;
  release_itable;;
  mret ip.

(** [ialloc]: the loop over the inodes of the disk. *)
Definition ialloc (dev type : Z) : M fst_ (option nat) :=
  sb ← fget sb;
  while_ (S (Z.to_nat (sb_ninodes sb)))
    (λ inum,
      if negb (inum <? sb_ninodes sb) then mret (inr None)
      else
        bp ← tio (tx_read dev (IBLOCK inum sb));
        d ← tio (tx_data bp);
        let off := dinode_off inum in
        if i16 (field 2 d off) =? 0 then
          tio (tx_set_data bp (set_field 2 (list_inserts off (replicate 64 0) d) off type));;
          tio (tx_log bp);;
          tio (tx_relse bp);;
          ip ← iget dev inum;
          mret (inr (Some ip))
        else
          tio (tx_relse bp);;
          mret (inl (inum + 1)))
    1.

Definition iupdate (ip : nat) : M fst_ unit :=
  n ← inode_at ip;
  sb ← fget sb;
  bp ← tio (tx_read (i_dev n) (IBLOCK (i_inum n) sb));
  d ← tio (tx_data bp);
  tio (tx_set_data bp (write_dinode n (dinode_off (i_inum n)) d));;
  tio (tx_log bp);;
  tio (tx_relse bp).

Definition ilock (ip : nat) : M fst_ unit :=
  n ← inode_at ip;
  if i_ref n <? 1 then panic "ilock"
  else
    (if i_lock n then block_forever else upd_inode ip (set_ilock true));;
    if i_valid n then mret tt
    else
      sb ← fget sb;
      bp ← tio (tx_read (i_dev n) (IBLOCK (i_inum n) sb));
      d ← tio (tx_data bp);
      upd_inode ip (read_dinode d (dinode_off (i_inum n)));;
      tio (tx_relse bp);;
      upd_inode ip (set_ivalid true);;
      n ← inode_at ip;
      if i_type n =? 0 then panic "ilock: no type" else mret tt.

Definition iunlock (ip : nat) : M fst_ unit :=
  n ← inode_at ip;
  if negb (i_lock n) || (i_ref n <? 1) then panic "iunlock"
  else upd_inode ip (set_ilock false).

(** The entries of the indirect block. *)
Definition indirect_at (d : block) (bn : Z) : Z := field 4 d (Z.to_nat (4 * bn)).
Definition set_indirect (d : block) (bn a : Z) : block := set_field 4 d (Z.to_nat (4 * bn)) a.
Definition addr_at (n : inode) (i : Z) : Z := default 0 (getZ (i_addrs n) i).

(** The block in place [i] of the inode, allocated if there is none. *)
Definition bmap_addr (ip : nat) (i : Z) : M fst_ Z :=
  n ← inode_at ip;
  let addr := addr_at n i in
  if addr =? 0 then
    addr ← balloc (i_dev n);
    if addr =? 0 then mret 0
    else upd_inode ip (set_iaddr i addr);; mret addr
  else mret addr.

(** Entry [bn] of the indirect block [addr], allocated if there is none. *)
Definition bmap_indirect (dev addr bn : Z) : M fst_ Z :=
  bp ← tio (tx_read dev addr);
  d ← tio (tx_data bp);
  let addr := indirect_at d bn in
  addr ← (if addr =? 0 then
            addr ← balloc dev;
            (if negb (addr =? 0) then
               tio (tx_set_data bp (set_indirect d bn addr));; tio (tx_log bp)
             else mret tt);;
            mret addr
          else mret addr);
  tio (tx_relse bp);;
  mret addr.

Definition bmap (ip : nat) (bn : Z) : M fst_ Z :=
  if bn <? NDIRECT then bmap_addr ip bn
  else
    let bn := bn - NDIRECT in
    if bn <? NINDIRECT then
      n ← inode_at ip;
      addr ← bmap_addr ip NDIRECT;
      if addr =? 0 then mret 0
      else bmap_indirect (i_dev n) addr bn
    else panic "bmap: out of range".

Definition itrunc (ip : nat) : M fst_ unit :=
  foreach (λ i,
    n ← inode_at ip;
    if negb (addr_at n i =? 0) then
      bfree (i_dev n) (addr_at n i);;
      upd_inode ip (set_iaddr i 0)
    else mret tt) (seqZ 0 NDIRECT);;
  n ← inode_at ip;
  (if negb (addr_at n NDIRECT =? 0) then
     bp ← tio (tx_read (i_dev n) (addr_at n NDIRECT));
     d ← tio (tx_data bp);
     foreach (λ j, if negb (indirect_at d j =? 0) then bfree (i_dev n) (indirect_at d j) else mret tt)
       (seqZ 0 NINDIRECT);;
     tio (tx_relse bp);;
     bfree (i_dev n) (addr_at n NDIRECT);;
     upd_inode ip (set_iaddr NDIRECT 0)
   else mret tt);;
  upd_inode ip (set_isize 0);;
  iupdate ip.

Definition iput (ip : nat) : M fst_ unit :=
  acquire_itable;;
  n ← inode_at ip;
  (if (i_ref n =? 1) && i_valid n && (i_nlink n =? 0) then
     (if i_lock n then block_forever else upd_inode ip (set_ilock true));;
     release_itable;;
     itrunc ip;;
     upd_inode ip (set_itype 0);;
     iupdate ip;;
     upd_inode ip (set_ivalid false);;
     upd_inode ip (set_ilock false);;
     acquire_itable
   else mret tt);;
  upd_inode ip (λ n, set_iref (i_ref n - 1) n);;
  release_itable.

Definition iunlockput (ip : nat) : M fst_ unit := iunlock ip;; iput ip.

(** [struct stat]: dev, ino, type, nlink, size. *)
Definition stati (ip : nat) : M fst_ (Z * Z * Z * Z * Z) :=
  n ← inode_at ip;
  mret (i_dev n, i_inum n, i_type n, i_nlink n, i_size n).

(** [readi]: the result and the bytes copied out.  [ok dst m] tells whether
    [either_copyout] of [m] bytes to the destination address [dst] works. *)
Definition readi (ip : nat) (ok : Z → Z → bool) (dst off n : Z) : M fst_ (Z * list Z) :=
  nd ← inode_at ip;
  if (off >? i_size nd) || (u32 (off + n) <? off) then mret (0, [])
  else
    let n := if u32 (off + n) >? i_size nd then i_size nd - off else n in
    while_ (S (Z.to_nat n))
      (λ '(tot, bytes),
        if negb (tot <? n) then mret (inr (tot, bytes))
        else
          let off := off + tot in
          addr ← bmap ip (off / BSIZE);
          if addr =? 0 then mret (inr (tot, bytes))
          else
            bp ← tio (tx_read (i_dev nd) addr);
            let m := Z.min (n - tot) (BSIZE - off mod BSIZE) in
            d ← tio (tx_data bp);
            if negb (ok (dst + tot) m) then tio (tx_relse bp);; mret (inr (-1, bytes))
            else
              tio (tx_relse bp);;
              mret (inl (tot + m, bytes ++ take (Z.to_nat m) (drop (Z.to_nat (off mod BSIZE)) d))))
      (0, []).

(** [writei] of the bytes [src]; [cp a m] tells how many of the [m] bytes at
    address [a] [either_copyin] copies into the buffer: fewer than [m] when it
    fails, for it may have copied the bytes of an earlier page. *)
Definition writei (ip : nat) (cp : Z → Z → Z) (srcaddr : Z) (src : list Z) (off : Z) : M fst_ Z :=
  nd ← inode_at ip;
  let n := Z.of_nat (length src) in
  if (off >? i_size nd) || (u32 (off + n) <? off) then mret (-1)
  else if u32 (off + n) >? MAXFILE * BSIZE then mret (-1)
  else
    tot ← while_ (S (Z.to_nat n))
      (λ tot,
        if negb (tot <? n) then mret (inr tot)
        else
          let off := off + tot in
          addr ← bmap ip (off / BSIZE);
          if addr =? 0 then mret (inr tot)
          else
            bp ← tio (tx_read (i_dev nd) addr);
            let m := Z.min (n - tot) (BSIZE - off mod BSIZE) in
            d ← tio (tx_data bp);
            let c := Z.min m (cp (srcaddr + tot) m) in
            tio (tx_set_data bp (list_inserts (Z.to_nat (off mod BSIZE)) (take (Z.to_nat c) (drop (Z.to_nat tot) src)) d));;
            if c <? m then tio (tx_relse bp);; mret (inr tot)
            else
              tio (tx_log bp);;
              tio (tx_relse bp);;
              mret (inl (tot + m)))
      0;
    nd ← inode_at ip;
    (if off + tot >? i_size nd then upd_inode ip (set_isize (off + tot)) else mret tt);;
    iupdate ip;;
    mret tot.

(** *** Directories *)

(** C strings: the bytes up to the NUL, in a field of [DIRSIZ] bytes. *)
Fixpoint strncmp_ (n : nat) (p q : list Z) : Z :=
  match n with
  | O => 0
  | S n' =>
      let a := default 0 (head p) in
      let b := default 0 (head q) in
      if (a =? 0) || negb (a =? b) then u8 a - u8 b else strncmp_ n' (tail p) (tail q)
  end.
Definition namecmp (s t : list Z) : Z := strncmp_ (Z.to_nat DIRSIZ) s t.
Fixpoint strncpy_ (n : nat) (t : list Z) : list Z :=
  match n with
  | O => []
  | S n' => match t with
            | [] => replicate n 0
            | x :: t' => if x =? 0 then replicate n 0 else x :: strncpy_ n' t'
            end
  end.

Definition parse_dirent (bs : list Z) : dirent := Dirent (field 2 bs 0) (take (Z.to_nat DIRSIZ) (drop 2 bs)).
Definition print_dirent (de : dirent) : list Z := le_put 2 (de_inum de) ++ de_name de.
Definition kernel_copy : Z → Z → bool := λ _ _, true.
Definition kernel_copyin : Z → Z → Z := λ _ m, m.

(** One entry of a directory, or the panic of its caller. *)
Definition read_dirent (msg : string) (dp : nat) (off : Z) : M fst_ dirent :=
  r ← readi dp kernel_copy 0 off DIRENT;
  if negb (fst r =? DIRENT) then panic msg else mret (parse_dirent (snd r)).

(** [dirlookup]: the inode and the offset of its entry. *)
Definition dirlookup (dp : nat) (name : list Z) : M fst_ (option (nat * Z)) :=
  n ← inode_at dp;
  if negb (i_type n =? T_DIR) then panic "dirlookup not DIR"
  else
    while_ (S (Z.to_nat (i_size n)))
      (λ off,
        if negb (off <? i_size n) then mret (inr None)
        else
          de ← read_dirent "dirlookup read" dp off;
          if de_inum de =? 0 then mret (inl (off + DIRENT))
          else if namecmp name (de_name de) =? 0 then
            ip ← iget (i_dev n) (de_inum de);
            mret (inr (Some (ip, off)))
          else mret (inl (off + DIRENT)))
      0.

Definition dirlink (dp : nat) (name : list Z) (inum : Z) : M fst_ Z :=
  r ← dirlookup dp name;
  match r with
  | Some (ip, _) => iput ip;; mret (-1)
  | None =>
      n ← inode_at dp;
      off ← while_ (S (Z.to_nat (i_size n)))
        (λ off,
          if negb (off <? i_size n) then mret (inr off)
          else
            de ← read_dirent "dirlink read" dp off;
            if de_inum de =? 0 then mret (inr off) else mret (inl (off + DIRENT)))
        0;
      w ← writei dp kernel_copyin 0 (print_dirent (Dirent inum (strncpy_ (Z.to_nat DIRSIZ) name))) off;
      mret (if negb (w =? DIRENT) then -1 else 0)
  end.

(** *** Path names *)

Definition slash : Z := 47.

(** A path as the bytes before its NUL; [skipelem] answers the rest of the
    path and the element, cut to [DIRSIZ] bytes. *)
Fixpoint skip_slashes (path : list Z) : list Z :=
  match path with
  | x :: path' => if x =? slash then skip_slashes path' else path
  | [] => []
  end.
Fixpoint span_elem (path : list Z) : list Z * list Z :=
  match path with
  | x :: path' => if x =? slash then ([], path) else let '(e, r) := span_elem path' in (x :: e, r)
  | [] => ([], [])
  end.
Definition skipelem (path : list Z) : option (list Z * list Z) :=
  match skip_slashes path with
  | [] => None
  | p => let '(e, r) := span_elem p in Some (skip_slashes r, take (Z.to_nat DIRSIZ) e)
  end.

(** [namex], with [cwd] the working directory of the process: the inode and
    the last element. *)
Definition namex (cwd : nat) (path : list Z) (nameiparent : bool) : M fst_ (option (nat * list Z)) :=
  ip ← (match path with x :: _ => if x =? slash then iget ROOTDEV ROOTINO else idup cwd | [] => idup cwd end);
  while_ (S (length path))
    (λ '(ip, path, name),
      match skipelem path with
      | None =>
          if nameiparent then iput ip;; mret (inr None) else mret (inr (Some (ip, name)))
      | Some (path, name) =>
          ilock ip;;
          n ← inode_at ip;
          if negb (i_type n =? T_DIR) then iunlockput ip;; mret (inr None)
          else if nameiparent && match path with [] => true | _ => false end then
            iunlock ip;; mret (inr (Some (ip, name)))
          else
            r ← dirlookup ip name;
            match r with
            | None => iunlockput ip;; mret (inr None)
            | Some (next, _) => iunlockput ip;; mret (inl (next, path, name))
            end
      end)
    (ip, path, []).

Definition namei (cwd : nat) (path : list Z) : M fst_ (option nat) :=
  r ← namex cwd path false; mret (fst <$> r).
Definition nameiparent (cwd : nat) (path : list Z) : M fst_ (option (nat * list Z)) := namex cwd path true.
End fs.
