(* ===== verification/FsBlocks.v ===== *)
(** The free map of the disk: [balloc] and [bfree] against the set of blocks
    in use. *)
From S2P Require Import Prelude Bytes Bio Txn Fs.

(** ** Definitions *)

(** Is block [b] marked in the free map? *)
Definition used (t : tstore) (k : superblock) (b : Z) : bool :=
  negb (bit_free (tview t (BBLOCK b k)) (b mod BPB)).

(** The block [b] marked in use or free, inside the transaction. *)
Definition mark_used (b : Z) (k : superblock) (t : tstore) : tstore :=
  logged (BBLOCK b k) (mark_bit (tview t (BBLOCK b k)) (b mod BPB)) t.
Definition mark_free (b : Z) (k : superblock) (t : tstore) : tstore :=
  logged (BBLOCK b k) (clear_bit (tview t (BBLOCK b k)) (b mod BPB)) t.

(** ** Lemmas *)

(** *** Bits *)

Lemma bit_free_testbit d bi : 0 ≤ bi →
  bit_free d bi = negb (Z.testbit (field 1 d (Z.to_nat (bi / 8))) (bi mod 8)).
Proof.
  intros Hb. unfold bit_free, bit_mask. set (x := field 1 d _). pose proof (Z.mod_pos_bound bi 8 ltac:(lia)) as Hm.
  set (k := bi mod 8) in *. apply eq_true_iff_eq. rewrite Z.eqb_eq, negb_true_iff. split.
  - intros E. assert (Z.testbit (Z.land x (Z.shiftl 1 k)) k = false) as Hk by (by rewrite E, Z.bits_0).
    rewrite Z.land_spec, Z.shiftl_spec, Z.sub_diag in Hk by lia. simpl in Hk. by rewrite andb_true_r in Hk.
  - intros E. apply Z.bits_inj'. intros j Hj. rewrite Z.land_spec, Z.shiftl_spec, Z.bits_0 by lia.
    destruct (decide (j = k)) as [->|Hne]; [by rewrite E|].
    replace (Z.testbit 1 (j - k)) with false; [apply andb_false_r|].
    destruct (decide (j < k)); [by rewrite Z.testbit_neg_r by lia|]. symmetry.
    change 1 with (2 ^ 0). apply Z.pow2_bits_false. lia.
Qed.

Lemma u8_testbit x j : 0 ≤ j < 8 → Z.testbit (u8 x) j = Z.testbit x j.
Proof. intros. unfold u8. apply Z.mod_pow2_bits_low. lia. Qed.

Lemma testbit_mask k j : 0 ≤ k → 0 ≤ j → Z.testbit (Z.shiftl 1 k) j = bool_decide (j = k).
Proof.
  intros Hk Hj. rewrite Z.shiftl_1_l. case_bool_decide as E; [subst; by apply Z.pow2_bits_true|].
  apply Z.pow2_bits_false. lia.
Qed.

Lemma field_set_byte d i j v : (i < length d)%nat → (j < length d)%nat →
  field 1 (set_field 1 d i v) j = if decide (i = j) then u8 v else field 1 d j.
Proof.
  intros Hi Hj. case_decide as E.
  - subst. rewrite field_set_eq by lia. done.
  - apply field_set_ne; lia.
Qed.

Lemma bit_free_set d bi bj v : length d = Z.to_nat BSIZE → 0 ≤ bi < BPB → 0 ≤ bj < BPB →
  (∀ k, 0 ≤ k < 8 → k ≠ bi mod 8 → Z.testbit v k = Z.testbit (field 1 d (Z.to_nat (bi / 8))) k) →
  bit_free (set_field 1 d (Z.to_nat (bi / 8)) v) bj =
    if decide (bi = bj) then negb (Z.testbit v (bi mod 8)) else bit_free d bj.
Proof.
  unfold BPB, BSIZE. intros Hd Hi Hj Hv. rewrite !bit_free_testbit by lia.
  assert (Z.to_nat (bi / 8) < length d)%nat by div_lia. assert (Z.to_nat (bj / 8) < length d)%nat by div_lia.
  rewrite field_set_byte by done. pose proof (Z.mod_pos_bound bj 8 ltac:(lia)). pose proof (Z.mod_pos_bound bi 8 ltac:(lia)).
  case_decide as E1; case_decide as E2; subst.
  - by rewrite u8_testbit.
  - rewrite u8_testbit by done. rewrite Hv; [by rewrite E1|done|]. intros ?. div_lia.
  - done.
  - done.
Qed.

Lemma bit_free_mark d bi bj : length d = Z.to_nat BSIZE → 0 ≤ bi < BPB → 0 ≤ bj < BPB →
  bit_free (mark_bit d bi) bj = negb (bool_decide (bi = bj)) && bit_free d bj.
Proof.
  intros Hd Hi Hj. pose proof (Z.mod_pos_bound bi 8 ltac:(lia)). unfold mark_bit, bit_mask.
  rewrite bit_free_set; try done.
  - case_decide as E; [rewrite bool_decide_true by done|by rewrite bool_decide_false].
    rewrite Z.lor_spec, testbit_mask, bool_decide_true by lia. by rewrite orb_true_r.
  - intros k Hk Hne. rewrite Z.lor_spec, testbit_mask, bool_decide_false by lia. apply orb_false_r.
Qed.

Lemma bit_free_clear d bi bj : length d = Z.to_nat BSIZE → 0 ≤ bi < BPB → 0 ≤ bj < BPB →
  bit_free (clear_bit d bi) bj = bool_decide (bi = bj) || bit_free d bj.
Proof.
  intros Hd Hi Hj. pose proof (Z.mod_pos_bound bi 8 ltac:(lia)). unfold clear_bit, bit_mask.
  rewrite bit_free_set; try done.
  - case_decide as E; [rewrite bool_decide_true by done|by rewrite bool_decide_false].
    rewrite Z.land_spec, Z.lnot_spec, testbit_mask, bool_decide_true by lia. simpl. by rewrite andb_false_r.
  - intros k Hk Hne. rewrite Z.land_spec, Z.lnot_spec, testbit_mask, bool_decide_false by lia. apply andb_true_r.
Qed.

Lemma length_mark_bit d bi : length (mark_bit d bi) = length d.
Proof. apply length_set_field. Qed.
Lemma length_clear_bit d bi : length (clear_bit d bi) = length d.
Proof. apply length_set_field. Qed.

(** *** The search of the inner loop *)

Lemma find_free_Some fuel d b size bi r : find_free fuel d b size bi = Some r →
  bi ≤ r < BPB ∧ b + r < size ∧ bit_free d r = true ∧ ∀ j, bi ≤ j < r → bit_free d j = false.
Proof.
  revert bi. induction fuel as [|n IH]; intros bi; simpl; [done|]. case_if; [|done].
  destruct (bit_free d bi) eqn:Eb.
  - intros [= <-]. split_and!; try (lia || done); intros j Hj; lia.
  - intros (H1 & H2 & H3 & H4)%IH. split_and!; try (lia || done).
    intros j Hj. destruct (decide (j = bi)) as [->|]; [done|]. apply H4. lia.
Qed.

Lemma find_free_None fuel d b size bi : BPB - bi ≤ Z.of_nat fuel → find_free fuel d b size bi = None →
  ∀ j, bi ≤ j < BPB → b + j < size → bit_free d j = false.
Proof.
  revert bi. induction fuel as [|n IH]; intros bi Hf; simpl; [intros _ j Hj; lia|].
  destruct ((bi <? BPB) && (b + bi <? size)) eqn:E.
  - destruct (bit_free d bi) eqn:Eb; [done|]. intros Hn j Hj Hs.
    destruct (decide (j = bi)) as [->|]; [done|]. apply (IH (bi + 1)); [lia|done|lia|done].
  - intros _ j Hj Hs. apply andb_false_iff in E as [E|E]; bool_prop; lia.
Qed.

(** *** Views of a transaction *)

Lemma tview_logged b d t k : tview (logged b d t) k = if decide (b = k) then d else tview t k.
Proof.
  unfold tview, disk_block, logged; simpl. case_decide; [subst; by rewrite lookup_insert_eq|by rewrite lookup_insert_ne].
Qed.

Lemma tview_set_locked m t k : tview (set_locked m t) k = tview t k.
Proof. done. Qed.

Lemma BBLOCK_inj a b k : BBLOCK a k = BBLOCK b k → a mod BPB = b mod BPB → a = b.
Proof.
  unfold BBLOCK. intros E1 E2. rewrite (Z.div_mod a BPB), (Z.div_mod b BPB) by done. rewrite E2. f_equal. f_equal. lia.
Qed.

Lemma used_mark r k t b : (∀ b, length (tview t b) = Z.to_nat BSIZE) → used (mark_used r k t) k b = used t k b || (b =? r).
Proof.
  intros Hl. unfold used, mark_used. rewrite tview_logged. pose proof (Z.mod_pos_bound b BPB ltac:(done)).
  pose proof (Z.mod_pos_bound r BPB ltac:(done)). destruct (decide (BBLOCK r k = BBLOCK b k)) as [E|E].
  - rewrite bit_free_mark by (done || apply Hl). rewrite negb_andb, negb_involutive, E, orb_comm. f_equal.
    apply eq_true_iff_eq. rewrite bool_decide_eq_true, Z.eqb_eq. split; [|by intros ->]. intros E'. symmetry. by eapply BBLOCK_inj.
  - replace (b =? r) with false; [by rewrite orb_false_r|]. symmetry. apply Z.eqb_neq. by intros ->.
Qed.

Lemma used_logged b d k t x : BBLOCK x k ≠ b → used (logged b d t) k x = used t k x.
Proof. intros Hne. unfold used. by rewrite tview_logged, decide_False. Qed.

(** Locking a block, changing it to [d], logging and releasing it leaves the
    transaction with [d] logged. *)
Lemma logged_locked b d m t : t_locked t = m → m !! b = None →
  set_locked (delete b (t_locked (logged b d (set_locked (<[b := d]> (<[b := tview t b]> m)) t))))
    (logged b d (set_locked (<[b := d]> (<[b := tview t b]> m)) t)) = logged b d t.
Proof.
  intros <- Hb. unfold set_locked, logged; simpl. f_equal. rewrite insert_insert_eq. by rewrite delete_insert_id.
Qed.

Lemma unlocked_again b m t : t_locked t = m → m !! b = None →
  set_locked (delete b (t_locked (set_locked (<[b := tview t b]> m) t))) (set_locked (<[b := tview t b]> m) t) = t.
Proof. intros <- Hb. unfold set_locked; simpl. rewrite delete_insert_id by done. by destruct t. Qed.

(** *** Calls of the transaction layer *)

Section keeps.
Context {St : Type} `{TX : Txn St}.

(** The buffers of the blocks of [m] are still the caller's. *)
Definition hkeeps (m : gmap Z block) (s s' : St) : Prop :=
  ∀ j k, tx_handle s j k → is_Some (m !! k) → tx_handle s' j k.

Lemma hkeeps_refl m s : hkeeps m s s.
Proof. by intros j k. Qed.
Lemma hkeeps_trans m s1 s2 s3 : hkeeps m s1 s2 → hkeeps m s2 s3 → hkeeps m s1 s3.
Proof. intros H1 H2 j k Hj Hk. apply H2; [by apply H1|done]. Qed.
Lemma hkeeps_weaken m m' s s' : hkeeps m' s s' → dom m ⊆ dom m' → hkeeps m s s'.
Proof. intros H1 Hd j k Hj Hk. apply H1; [done|]. apply elem_of_dom, Hd, elem_of_dom, Hk. Qed.
End keeps.

(** Follow a handle through the calls made. *)
Ltac keeps := first [eassumption | eapply hkeeps_trans; [eassumption|keeps] | apply hkeeps_refl].

Section rules.
Context {St : Type} `{TX : Txn St, !TxnOk St}.
Implicit Types (s : St) (f : fsst) (t : tstore).

Lemma wp_tio {A} (m : M St A) s f Q : wp m s (λ a s', Q a (s', f)) → wp (tio m) (s, f) Q.
Proof. intros H1. unfold tio. by apply wp_lift. Qed.

Lemma wp_fget {A} (g : fsst → A) s f (Q : A → fst_ → Prop) : Q (g f) (s, f) → wp (fget g) (s, f) Q.
Proof. done. Qed.
Lemma wp_fupd (g : fsst → fsst) s f (Q : unit → fst_ → Prop) : Q tt (s, g f) → wp (fupd g) (s, f) Q.
Proof. done. Qed.

(** A block that may be read: not locked, with a buffer left. *)
Definition may_read t b : Prop := t_locked t !! b = None ∧ Z.of_nat (size (t_locked t)) < MAXLOCKED.
Definition may_log t b : Prop := b ∈ t_log t ∨ 0 < t_room t.

Lemma wp_tread s f t b Q : tx_rep s t → may_read t b →
  (∀ i s', tx_rep s' (set_locked (<[b := tview t b]> (t_locked t)) t) → tx_handle s' i b →
     hkeeps (t_locked t) s s' → Q i (s', f)) →
  wp (tio (tx_read ROOTDEV b)) (s, f) Q.
Proof.
  intros R [Hb Hsz] HQ. apply wp_tio. eapply wp_mono; [by apply (tx_read_ok s t b)|]. cbv zeta.
  intros i s' (R' & H' & K'). apply HQ; [done|done|]. intros j k Hj Hk. apply K'; [done|]. simpl.
  destruct (decide (k = b)) as [->|]; [rewrite lookup_insert_eq; eauto|by rewrite lookup_insert_ne].
Qed.

Lemma wp_tdata s f t i b d Q : tx_rep s t → tx_handle s i b → t_locked t !! b = Some d → Q d (s, f) →
  wp (tio (tx_data i)) (s, f) Q.
Proof. intros R Hh Hd HQ. apply wp_tio. unfold wp. by rewrite (tx_data_ok s t i b d). Qed.

(** Release of a block that was only read. *)
Lemma wp_trelse s f t i b Q : tx_rep s (set_locked (<[b := tview t b]> (t_locked t)) t) → tx_handle s i b →
  t_locked t !! b = None →
  (∀ s', tx_rep s' t → hkeeps (t_locked t) s s' → Q tt (s', f)) →
  wp (tio (tx_relse i)) (s, f) Q.
Proof.
  intros R Hh Hb HQ. apply wp_tio. eapply wp_mono; [eapply (tx_relse_ok s _ i b (tview t b) R Hh)|].
  { simpl. apply lookup_insert_eq. }
  { done. }
  cbv zeta. rewrite (unlocked_again b _ t eq_refl Hb). intros [] s' (R' & K'). by apply HQ.
Qed.

(** A locked block is given the contents it has. *)
Lemma wp_tset_same s f t i b Q : tx_rep s (set_locked (<[b := tview t b]> (t_locked t)) t) → tx_handle s i b →
  (∀ s', tx_rep s' (set_locked (<[b := tview t b]> (t_locked t)) t) → tx_handle s' i b → Q tt (s', f)) →
  wp (tio (tx_set_data i (tview t b))) (s, f) Q.
Proof.
  intros R Hh HQ. set (t' := set_locked _ t) in *. apply wp_tio.
  eapply wp_mono; [eapply (tx_set_data_ok s t' i b (tview t b) (tview t b)); [done|done|simpl; apply lookup_insert_eq|by apply (tx_wf s t' b)]|].
  cbv zeta. intros [] s' (R' & K').
  revert R' K'. match goal with |- tx_rep _ ?u → _ => replace u with t' by (unfold t', set_locked; simpl; by rewrite insert_insert_eq) end.
  intros R' K'. apply HQ; [done|]. apply K'; [done|]. simpl. rewrite lookup_insert_eq. eauto.
Qed.

(** A locked block is given the contents [d'], logged and released. *)
Lemma wp_tstore {A} s f t i b (d' : block) (k : M fst_ A) Q :
  tx_rep s (set_locked (<[b := tview t b]> (t_locked t)) t) → tx_handle s i b →
  t_locked t !! b = None → length d' = Z.to_nat BSIZE → may_log t b →
  (∀ s', tx_rep s' (logged b d' t) → hkeeps (t_locked t) s s' → wp k (s', f) Q) →
  wp (tio (tx_set_data i d');; tio (tx_log i);; tio (tx_relse i);; k) (s, f) Q.
Proof.
  intros R Hh Hb Hlen Hl HQ. wp_steps. apply wp_tio.
  eapply wp_mono; [eapply (tx_set_data_ok s _ i b _ d' R Hh); [simpl; apply lookup_insert_eq|done]|].
  cbv zeta. intros [] s1 (R1 & K1). cbn [t_locked set_locked] in *.
  assert (tx_handle s1 i b) as H1 by (apply K1; [done|simpl; rewrite lookup_insert_eq; eauto]).
  set (t1 := set_locked _ _) in R1. assert (t1 = set_locked (<[b := d']> (<[b := tview t b]> (t_locked t))) t) as E1 by done.
  wp_steps. apply wp_tio.
  eapply wp_mono; [eapply (tx_log_ok s1 t1 i b d' R1 H1); [rewrite E1; simpl; apply lookup_insert_eq|done]|].
  cbv zeta. intros [] s2 (R2 & K2).
  assert (tx_handle s2 i b) as H2 by (apply K2; [done|rewrite E1; simpl; rewrite lookup_insert_eq; eauto]).
  wp_steps. apply wp_tio.
  eapply wp_mono; [eapply (tx_relse_ok s2 _ i b d' R2 H2)|].
  { rewrite E1. simpl. apply lookup_insert_eq. }
  { rewrite tview_logged. by rewrite decide_True. }
  cbv zeta. rewrite E1, (logged_locked b d' _ t eq_refl Hb). intros [] s3 (R3 & K3).
  apply HQ; [done|]. intros j x Hj Hx. assert (x ≠ b) by (intros ->; rewrite Hb in Hx; by destruct Hx).
  apply K3; [apply K2; [apply K1; [done|]|]|]; try done; rewrite ?E1; simpl; rewrite ?lookup_insert_ne by done; done.
Qed.

Lemma wp_tstore_end s f t i b (d' : block) (Q : unit → fst_ → Prop) :
  tx_rep s (set_locked (<[b := tview t b]> (t_locked t)) t) → tx_handle s i b →
  t_locked t !! b = None → length d' = Z.to_nat BSIZE → may_log t b →
  (∀ s', tx_rep s' (logged b d' t) → hkeeps (t_locked t) s s' → Q tt (s', f)) →
  wp (tio (tx_set_data i d');; tio (tx_log i);; tio (tx_relse i)) (s, f) Q.
Proof.
  intros R Hh Hb Hlen Hl HQ. assert (wp (tio (tx_set_data i d');; tio (tx_log i);; tio (tx_relse i);; mret tt) (s, f) Q) as W.
  { by eapply wp_tstore. }
  revert W. unfold wp, mbind, M_bind, mret, M_ret. repeat case_match; simplify_eq; try done. match goal with u : unit |- _ => by destruct u end.
Qed.

(** The calls before a change: the buffer of [b] is read and its bytes taken. *)
Ltac t_data := eapply wp_tdata; [eassumption|eassumption|simpl; apply lookup_insert_eq|].

(** *** Allocation and release of blocks *)

Lemma bzero_ok s f t b (Q : unit → fst_ → Prop) : tx_rep s t → may_read t b → may_log t b →
  (∀ s', tx_rep s' (logged b zero_block t) → hkeeps (t_locked t) s s' → Q tt (s', f)) →
  wp (bzero ROOTDEV b) (s, f) Q.
Proof.
  intros R Hr Hl HQ. unfold bzero. wp_steps. eapply wp_tread; [done|done|]. intros i s1 R1 H1 K1.
  eapply wp_tstore_end; [done|done|apply Hr|apply length_replicate|done|].
  intros s2 R2 K2. apply HQ; [done|]. keeps.
Qed.

Lemma bfree_ok s f t b (Q : unit → fst_ → Prop) : tx_rep s t →
  may_read t (BBLOCK b (sb f)) → may_log t (BBLOCK b (sb f)) → used t (sb f) b = true →
  (∀ s', tx_rep s' (mark_free b (sb f) t) → hkeeps (t_locked t) s s' → Q tt (s', f)) →
  wp (bfree ROOTDEV b) (s, f) Q.
Proof.
  intros R Hr Hl Hu HQ. unfold bfree. wp_steps. apply wp_fget. wp_steps. eapply wp_tread; [done|done|]. intros i s1 R1 H1 K1.
  wp_steps. t_data. wp_steps. unfold used in Hu. apply negb_true_iff in Hu. rewrite Hu.
  eapply wp_tstore_end; [done|done|apply Hr|rewrite length_clear_bit; by eapply tx_wf|done|].
  intros s2 R2 K2. apply HQ; [done|]. keeps.
Qed.

(** The pass of [balloc] over the free map block [b]. *)
Lemma BBLOCK_add k n bi : 0 ≤ bi < BPB → BBLOCK (BPB * n + bi) k = BBLOCK (BPB * n) k ∧ (BPB * n + bi) mod BPB = bi.
Proof.
  unfold BBLOCK, BPB, BSIZE. change (1024 * 8) with 8192. intros Hb. split; [f_equal|]; div_lia.
Qed.

(** The free map block of [b] and the block [b] can be changed next. *)
Definition alloc_room t (k : superblock) : Prop :=
  2 ≤ t_room t ∧ Z.of_nat (size (t_locked t)) < MAXLOCKED ∧
  (∀ b, 0 ≤ b < sb_size k → t_locked t !! BBLOCK b k = None) ∧
  (∀ b, 0 ≤ b < sb_size k → used t k b = false → t_locked t !! b = None).

Lemma balloc_ok s f t (Q : Z → fst_ → Prop) : let k := sb f in
  tx_rep s t → alloc_room t k →
  (∀ s', tx_rep s' t → hkeeps (t_locked t) s s' →
     (∀ b, 0 ≤ b < sb_size k → used t k b = true) → Q 0 (s', f)) →
  (∀ s' b, tx_rep s' (logged b zero_block (mark_used b k t)) → hkeeps (t_locked t) s s' →
     0 ≤ b < sb_size k → used t k b = false → (∀ b', 0 ≤ b' < b → used t k b' = true) → Q b (s', f)) →
  wp (balloc ROOTDEV) (s, f) Q.
Proof.
  intros k R (Hroom & Hsz & Hmap & Hblk) H0 H1. unfold balloc. wp_steps. apply wp_fget. fold k.
  apply (wp_while (λ b σ, ∃ n, b = BPB * n ∧ 0 ≤ n ∧ snd σ = f ∧ tx_rep (fst σ) t ∧ hkeeps (t_locked t) s (fst σ) ∧
      ∀ b', 0 ≤ b' < sb_size k → b' < b → used t k b' = true) (λ b, Z.to_nat (sb_size k - b))); [|exists 0; split_and!; try done; [by apply hkeeps_refl|intros; lia]|lia].
  intros b [s1 f1] (n & -> & Hn & E & R1 & K1 & Hu). simpl in E, R1, K1. subst f1. case_if.
  { apply wp_ret. apply H0; [done|done|]. intros b' Hb'. apply Hu; lia. }
  assert (BPB * n = BPB * n + 0) as Eb by lia. pose proof (Hmap (BPB * n) ltac:(unfold BPB, BSIZE in *; lia)) as Hm.
  wp_steps. eapply wp_tread; [done|done|]. intros i s2 R2 h2 K2. wp_steps. t_data.
  destruct (find_free _ _ _ _ _) as [bi|] eqn:Ef.
  - apply find_free_Some in Ef as (Hbi & Hlt & Hfree & Hbelow). destruct (BBLOCK_add k n bi ltac:(lia)) as [EB Em].
    assert (used t k (BPB * n + bi) = false) as Hnu by (unfold used; by rewrite EB, Em, Hfree).
    eapply wp_tstore; [done|done|done|rewrite length_mark_bit; by eapply tx_wf|right; lia|].
    intros s3 R3 K3. wp_steps. eapply bzero_ok; [exact R3| | |].
    { split; simpl; [apply Hblk; [unfold BPB, BSIZE in *; lia|done]|done]. }
    { right. simpl. case_decide; lia. }
    intros s4 R4 K4. wp_steps. apply H1; [|keeps|unfold BPB, BSIZE in *; lia|done|].
    { unfold mark_used. by rewrite EB, Em. }
    intros b' Hb'. destruct (decide (b' < BPB * n)) as [Hlt'|]; [apply Hu; lia|].
    destruct (BBLOCK_add k n (b' - BPB * n) ltac:(lia)) as [EB' Em']. replace (BPB * n + (b' - BPB * n)) with b' in * by lia.
    unfold used. rewrite EB', Em'. by rewrite Hbelow by lia.
  - wp_steps. eapply wp_trelse; [done|done|done|]. intros s3 R3 K3. wp_steps. split; [|unfold BPB, BSIZE in *; lia].
    exists (n + 1). split_and!; [lia|lia|done|done|keeps|].
    intros b' Hb' Hlt. destruct (decide (b' < BPB * n)) as [Hlt'|]; [by apply Hu|].
    destruct (BBLOCK_add k n (b' - BPB * n) ltac:(lia)) as [EB' Em']. replace (BPB * n + (b' - BPB * n)) with b' in * by lia.
    unfold used. rewrite EB', Em'. by rewrite (find_free_None (Z.to_nat BPB) _ _ _ 0 ltac:(rewrite Z2Nat.id; unfold BPB, BSIZE; lia) Ef) by lia.
Qed.
End rules.
