(* ===== verification/FsInode.v ===== *)
(** Inodes: their place in the inode blocks, [iupdate], [ilock], the block map
    [bmap] and [readi]: the bytes of a file. *)
From S2P Require Import Prelude Bytes Bio Txn Fs FsBlocks.

(** ** Definitions *)

(** The metadata an inode has on disk. *)
Definition imeta (n : inode) : Z * Z * Z * Z * Z * list Z :=
  (i_type n, i_major n, i_minor n, i_nlink n, i_size n, i_addrs n).

(** The fields have the ranges of their C types. *)
Definition inode_typed (n : inode) : Prop :=
  - 2 ^ 15 ≤ i_type n < 2 ^ 15 ∧ - 2 ^ 15 ≤ i_major n < 2 ^ 15 ∧ - 2 ^ 15 ≤ i_minor n < 2 ^ 15 ∧
  - 2 ^ 15 ≤ i_nlink n < 2 ^ 15 ∧ 0 ≤ i_size n < 2 ^ 32 ∧
  length (i_addrs n) = 13%nat ∧ Forall (λ a, 0 ≤ a < 2 ^ 32) (i_addrs n).

(** The disk block of block [bn] of the file, 0 when there is none. *)
Definition blk_of (t : tstore) (n : inode) (bn : Z) : Z :=
  if bn <? NDIRECT then addr_at n bn
  else if addr_at n NDIRECT =? 0 then 0
  else indirect_at (tview t (addr_at n NDIRECT)) (bn - NDIRECT).

(** The bytes of a file. *)
Definition fbyte (t : tstore) (n : inode) (p : Z) : Z :=
  default 0 (tview t (blk_of t n (p / BSIZE)) !! Z.to_nat (p mod BSIZE)).
Definition fbytes (t : tstore) (n : inode) : list Z := fbyte t n <$> seqZ 0 (i_size n).

(** The transaction after [iupdate] of [n]. *)
Definition inode_logged (n : inode) (k : superblock) (t : tstore) : tstore :=
  logged (IBLOCK (i_inum n) k) (write_dinode n (dinode_off (i_inum n)) (tview t (IBLOCK (i_inum n) k))) t.
(** Inode [inum] as the disk has it. *)
Definition disk_inode (t : tstore) (k : superblock) (inum : Z) (n : inode) : inode :=
  read_dinode (tview t (IBLOCK inum k)) (dinode_off inum) n.

(** Every block below the size of the file is allocated. *)
Definition no_holes (t : tstore) (n : inode) : Prop :=
  0 ≤ i_size n ≤ MAXFILE * BSIZE ∧ ∀ bn, 0 ≤ bn → bn * BSIZE < i_size n → blk_of t n bn ≠ 0.

(** No block of the file is locked, and two buffers are left. *)
Definition file_unlocked (t : tstore) (n : inode) : Prop :=
  Z.of_nat (size (t_locked t)) < MAXLOCKED ∧ t_locked t !! addr_at n NDIRECT = None ∧
  ∀ bn, 0 ≤ bn < MAXFILE → t_locked t !! blk_of t n bn = None.

(** How many of [n] bytes at [off] a file of [size] bytes has. *)
Definition readable (size off n : Z) : Z :=
  if (off >? size) || (off + n >=? 2 ^ 32) then 0 else Z.min n (size - off).

(** ** Lemmas *)

(** *** The layout of an inode *)

#[local] Arguments seq : simpl never.

Lemma length_put_addrs n l off d : length (put_addrs n l off d) = length d.
Proof. induction n as [|n IH]; simpl; [done|]. by rewrite length_set_field. Qed.

Lemma field_put_addrs n l off d i : (i < n)%nat → (off + 4 * n ≤ length d)%nat →
  field 4 (put_addrs n l off d) (off + 4 * i) = default 0 (l !! i) mod 2 ^ 32.
Proof.
  induction n as [|n IH]; intros Hi Hd; [lia|]. simpl put_addrs. destruct (decide (i = n)) as [->|].
  - rewrite field_set_eq by (rewrite length_put_addrs; lia). done.
  - rewrite field_set_ne by (rewrite ?length_put_addrs; lia). apply IH; lia.
Qed.

Lemma field_put_addrs_ne k n l off d p : (p + k ≤ length d)%nat → (off + 4 * n ≤ length d)%nat →
  (p + k ≤ off ∨ off + 4 * n ≤ p)%nat → field k (put_addrs n l off d) p = field k d p.
Proof.
  induction n as [|n IH]; intros Hp Ho Hd; [done|]. simpl put_addrs.
  rewrite field_set_ne by (rewrite ?length_put_addrs; lia). apply IH; lia.
Qed.

Lemma length_write_dinode n off d : length (write_dinode n off d) = length d.
Proof. unfold write_dinode. by rewrite length_put_addrs, !length_set_field. Qed.

Lemma field_write_dinode_ne k n off d p : (p + k ≤ length d)%nat → (off + 64 ≤ length d)%nat →
  (p + k ≤ off ∨ off + 64 ≤ p)%nat → field k (write_dinode n off d) p = field k d p.
Proof.
  intros Hp Ho Hd. unfold write_dinode. rewrite field_put_addrs_ne by (rewrite ?length_set_field; lia).
  by rewrite !field_set_ne by (rewrite ?length_set_field; lia).
Qed.

Lemma i16_mod z : - 2 ^ 15 ≤ z < 2 ^ 15 → i16 (z mod 2 ^ 16) = z.
Proof. intros. unfold i16. div_lia. Qed.

Lemma read_write_dinode n m off d : inode_typed n → (off + 64 ≤ length d)%nat →
  imeta (read_dinode (write_dinode n off d) off m) = imeta n.
Proof.
  intros (T1 & T2 & T3 & T4 & T5 & T6 & T7) Ho. unfold imeta, read_dinode.
  cbn [i_type i_major i_minor i_nlink i_size i_addrs].
  assert (∀ k p, (p + k ≤ 12)%nat → field k (write_dinode n off d) (off + p) =
    field k (set_field 4 (set_field 2 (set_field 2 (set_field 2 (set_field 2 d off (i_type n)) (off + 2) (i_major n))
      (off + 4) (i_minor n)) (off + 6) (i_nlink n)) (off + 8) (i_size n)) (off + p)) as Hw.
  { intros k p Hp. unfold write_dinode. rewrite field_put_addrs_ne by (rewrite ?length_set_field; lia). done. }
  pose proof (Hw 2%nat 0%nat) as H0. rewrite Nat.add_0_r in H0. rewrite H0 by lia. rewrite !Hw by lia.
  f_equal; [f_equal; [f_equal; [f_equal; [f_equal|]|]|]|].
  1-4: repeat rewrite field_set_ne by (rewrite ?length_set_field; lia);
    rewrite field_set_eq by (rewrite ?length_set_field; lia); change (256 ^ Z.of_nat 2) with (2 ^ 16); by apply i16_mod.
  - rewrite field_set_eq by (rewrite ?length_set_field; lia). by apply Z.mod_small.
  - apply list_eq. intros i. rewrite list_lookup_fmap. destruct (decide (i < 13)%nat).
    + rewrite lookup_seq_lt by lia. simpl.
      unfold write_dinode. replace (off + 12 + _)%nat with ((off + 12) + 4 * i)%nat by lia.
      rewrite field_put_addrs by (rewrite ?length_set_field; lia).
      destruct (lookup_lt_is_Some_2 (i_addrs n) i) as [a Ha]; [lia|]. rewrite Ha. simpl. f_equal.
      apply Z.mod_small. eapply Forall_lookup_1 in T7; done.
    + rewrite lookup_seq_ge by lia. simpl. symmetry. apply lookup_ge_None. lia.
Qed.

Lemma dinode_off_lt inum : (dinode_off inum + 64 ≤ Z.to_nat BSIZE)%nat.
Proof. unfold dinode_off, IPB, BSIZE. change (1024 / 64) with 16. div_lia. Qed.

(** Two inodes of one block do not overlap. *)
Lemma dinode_off_ne i j k : IBLOCK i k = IBLOCK j k → i ≠ j →
  (dinode_off i + 64 ≤ dinode_off j ∨ dinode_off j + 64 ≤ dinode_off i)%nat.
Proof. unfold IBLOCK, dinode_off, IPB, BSIZE. change (1024 / 64) with 16. intros E Hne. div_lia. Qed.

Lemma disk_inode_same n k t m : inode_typed n → (∀ b, length (tview t b) = Z.to_nat BSIZE) →
  imeta (disk_inode (inode_logged n k t) k (i_inum n) m) = imeta n.
Proof.
  intros Ht Hl. unfold disk_inode, inode_logged. rewrite tview_logged, decide_True by done.
  apply read_write_dinode; [done|]. rewrite Hl. apply dinode_off_lt.
Qed.

Lemma disk_inode_other n k t m j : j ≠ i_inum n → (∀ b, length (tview t b) = Z.to_nat BSIZE) →
  disk_inode (inode_logged n k t) k j m = disk_inode t k j m.
Proof.
  intros Hne Hl. unfold disk_inode, inode_logged. rewrite tview_logged. case_decide as E; [|done].
  pose proof (dinode_off_lt j). pose proof (dinode_off_lt (i_inum n)). rewrite <- E, <- (Hl (IBLOCK (i_inum n) k)) in *.
  destruct (dinode_off_ne (i_inum n) j k E) as [Ho|Ho]; [done| |];
    unfold read_dinode; f_equal; try (f_equal; apply field_write_dinode_ne; lia);
    try (apply field_write_dinode_ne; lia);
    apply list_fmap_ext; intros p i [-> Hi]%lookup_seq; apply field_write_dinode_ne; lia.
Qed.

(** *** Inode entries *)

Section inodes.
Context {St : Type} `{TX : Txn St, !TxnOk St}.
Implicit Types (s : St) (f : fsst) (t : tstore).

Definition put_inode (ip : nat) (n : inode) (f : fsst) : fsst :=
  FsSt (sb f) (itable_lock f) (<[ip := n]> (inodes f)).

Lemma wp_inode_at ip n s f (Q : inode → fst_ → Prop) : inodes f !! ip = Some n → Q n (s, f) → wp (inode_at ip) (s, f) Q.
Proof. intros Hn HQ. apply wp_fget. by rewrite Hn. Qed.

Lemma wp_upd_inode ip n g s f (Q : unit → fst_ → Prop) : inodes f !! ip = Some n →
  Q tt (s, put_inode ip (g n) f) → wp (upd_inode ip g) (s, f) Q.
Proof. intros Hn HQ. apply wp_fupd. by rewrite (alter_insert _ _ _ _ Hn). Qed.

Lemma put_inode_eq ip n m f : inodes f !! ip = Some m → inodes (put_inode ip n f) !! ip = Some n.
Proof. intros Hm. apply list_lookup_insert_eq. by eapply lookup_lt_Some. Qed.

Lemma put_inode_twice ip n m f : put_inode ip n (put_inode ip m f) = put_inode ip n f.
Proof. unfold put_inode; simpl. by rewrite list_insert_insert_eq. Qed.

(** A goal about the entry of an inode that was just changed. *)
Ltac inode := repeat (rewrite put_inode_twice); try (eapply put_inode_eq; eassumption); try eassumption.

Lemma iupdate_ok ip n s f t (Q : unit → fst_ → Prop) : let k := sb f in
  tx_rep s t → inodes f !! ip = Some n → i_dev n = ROOTDEV →
  may_read t (IBLOCK (i_inum n) k) → may_log t (IBLOCK (i_inum n) k) →
  (∀ s', tx_rep s' (inode_logged n k t) → hkeeps (t_locked t) s s' → Q tt (s', f)) →
  wp (iupdate ip) (s, f) Q.
Proof.
  intros k R Hn Hd Hr Hl HQ. unfold iupdate. wp_steps. eapply wp_inode_at; [done|]. wp_steps. apply wp_fget. fold k.
  rewrite Hd. wp_steps. eapply wp_tread; [done|done|]. intros i s1 R1 H1 K1. wp_steps.
  eapply wp_tdata; [done|done|simpl; apply lookup_insert_eq|].
  eapply wp_tstore_end; [done|done|apply Hr|rewrite length_write_dinode; by eapply tx_wf|done|].
  intros s2 R2 K2. apply HQ; [done|]. keeps.
Qed.

(** [ilock] of an inode that is in memory, and of one that has to be read. *)
Lemma ilock_valid ip n s f (Q : unit → fst_ → Prop) :
  inodes f !! ip = Some n → 1 ≤ i_ref n → i_lock n = false → i_valid n = true →
  Q tt (s, put_inode ip (set_ilock true n) f) → wp (ilock ip) (s, f) Q.
Proof.
  intros Hn Hr Hl Hv HQ. unfold ilock. wp_steps. eapply wp_inode_at; [done|].
  replace (i_ref n <? 1) with false by (symmetry; apply Z.ltb_ge; lia). rewrite Hl, Hv.
  wp_steps. by eapply wp_upd_inode.
Qed.

Lemma ilock_ok ip n s f t (Q : unit → fst_ → Prop) : let k := sb f in
  let n' := set_ivalid true (disk_inode t k (i_inum n) (set_ilock true n)) in
  tx_rep s t → inodes f !! ip = Some n → 1 ≤ i_ref n → i_lock n = false → i_valid n = false →
  i_dev n = ROOTDEV → may_read t (IBLOCK (i_inum n) k) → i_type n' ≠ 0 →
  (∀ s', tx_rep s' t → hkeeps (t_locked t) s s' → Q tt (s', put_inode ip n' f)) →
  wp (ilock ip) (s, f) Q.
Proof.
  intros k n' R Hn Href Hl Hv Hd Hr Ht HQ. unfold ilock. wp_steps. eapply wp_inode_at; [done|].
  replace (i_ref n <? 1) with false by (symmetry; apply Z.ltb_ge; lia). rewrite Hl, Hv, Hd.
  wp_steps. eapply wp_upd_inode; [done|]. wp_steps. apply wp_fget. simpl sb. fold k. wp_steps.
  eapply wp_tread; [done|done|]. intros i s1 R1 H1 K1. wp_steps.
  eapply wp_tdata; [done|done|simpl; apply lookup_insert_eq|]. wp_steps.
  eapply wp_upd_inode; [inode|]. wp_steps. eapply wp_trelse; [done|done|apply Hr|]. intros s2 R2 K2. wp_steps.
  eapply wp_upd_inode; [inode|]. wp_steps. eapply wp_inode_at; [inode|].
  change (i_type n' ≠ 0) in Ht. fold (disk_inode t k (i_inum n) (set_ilock true n)). fold n'.
  apply Z.eqb_neq in Ht. rewrite Ht. apply wp_ret. rewrite !put_inode_twice. apply HQ; [done|]. keeps.
Qed.
End inodes.

(** *** Bytes of a file *)

Lemma length_fbytes t n : 0 ≤ i_size n → Z.of_nat (length (fbytes t n)) = i_size n.
Proof. intros. unfold fbytes. rewrite length_fmap, length_seqZ. lia. Qed.

Lemma lookup_fbytes t n p : 0 ≤ Z.of_nat p < i_size n → fbytes t n !! p = Some (fbyte t n (Z.of_nat p)).
Proof. intros Hp. unfold fbytes. rewrite list_lookup_fmap, lookup_seqZ_lt by lia. done. Qed.

Lemma lookup_fbytes_ge t n p : i_size n ≤ Z.of_nat p → fbytes t n !! p = None.
Proof. intros Hp. unfold fbytes. rewrite list_lookup_fmap, lookup_seqZ_ge by lia. done. Qed.

(** The part of a block is a part of the file. *)
Lemma fbytes_chunk t n off m : (∀ b, length (tview t b) = Z.to_nat BSIZE) →
  0 ≤ off → 0 ≤ m → m ≤ BSIZE - off mod BSIZE → off + m ≤ i_size n →
  take (Z.to_nat m) (drop (Z.to_nat (off mod BSIZE)) (tview t (blk_of t n (off / BSIZE)))) =
    take (Z.to_nat m) (drop (Z.to_nat off) (fbytes t n)).
Proof.
  unfold BSIZE. intros Hl Ho Hm Hb Hs. apply list_eq. intros i. destruct (decide (i < Z.to_nat m)%nat) as [Hi|];
    [|by rewrite !lookup_take_ge by lia].
  rewrite !lookup_take_lt, !lookup_drop by lia. rewrite lookup_fbytes by lia. unfold fbyte, BSIZE.
  replace (Z.of_nat (Z.to_nat off + i)) with (off + Z.of_nat i) by lia.
  replace ((off + Z.of_nat i) / 1024) with (off / 1024) by div_lia.
  replace (Z.to_nat ((off + Z.of_nat i) mod 1024)) with (Z.to_nat (off mod 1024) + i)%nat by div_lia.
  unfold block in *. match goal with |- ?x = _ => destruct x eqn:Hx; [done|] end.
  apply lookup_ge_None in Hx. rewrite Hl in Hx. div_lia.
Qed.

Lemma take_add_drop {A} (l : list A) a b : take (a + b) l = take a l ++ take b (drop a l).
Proof. symmetry. apply take_take_drop. Qed.

Section read.
Context {St : Type} `{TX : Txn St, !TxnOk St}.
Implicit Types (s : St) (f : fsst) (t : tstore).

(** [bmap] of a block that is allocated. *)
Lemma bmap_hit ip n s f t bn (Q : Z → fst_ → Prop) :
  tx_rep s t → inodes f !! ip = Some n → i_dev n = ROOTDEV → 0 ≤ bn < MAXFILE →
  Z.of_nat (size (t_locked t)) < MAXLOCKED → t_locked t !! addr_at n NDIRECT = None →
  blk_of t n bn ≠ 0 →
  (∀ s', tx_rep s' t → hkeeps (t_locked t) s s' → Q (blk_of t n bn) (s', f)) →
  wp (bmap ip bn) (s, f) Q.
Proof.
  intros R Hn Hd Hbn Hsz Hl Hb HQ. unfold bmap, bmap_addr. unfold blk_of in *. destruct (bn <? NDIRECT) eqn:E.
  - wp_steps. eapply wp_inode_at; [done|]. apply Z.eqb_neq in Hb. rewrite Hb. apply wp_ret. apply HQ; [done|keeps].
  - apply Z.ltb_ge in E. replace (bn - NDIRECT <? NINDIRECT) with true by (symmetry; apply Z.ltb_lt; unfold MAXFILE in Hbn; lia).
    destruct (addr_at n NDIRECT =? 0) eqn:E0; [done|]. wp_steps. eapply wp_inode_at; [done|]. wp_steps. eapply wp_inode_at; [done|].
    rewrite E0. wp_steps. rewrite E0, Hd. unfold bmap_indirect. wp_steps.
    eapply wp_tread; [done|done|]. intros i s1 R1 H1 K1. wp_steps.
    eapply wp_tdata; [done|done|simpl; apply lookup_insert_eq|]. wp_steps.
    apply Z.eqb_neq in Hb. rewrite Hb. wp_steps. eapply wp_trelse; [done|done|done|]. intros s2 R2 K2. wp_steps.
    apply HQ; [done|keeps].
Qed.

Lemma readi_ok ip n s f t ok dst off len (Q : Z * list Z → fst_ → Prop) :
  tx_rep s t → inodes f !! ip = Some n → i_dev n = ROOTDEV → no_holes t n → file_unlocked t n →
  (∀ a m, ok a m = true) → 0 ≤ off < 2 ^ 32 → 0 ≤ len < 2 ^ 32 →
  let m := readable (i_size n) off len in
  (∀ s', tx_rep s' t → hkeeps (t_locked t) s s' →
     Q (m, take (Z.to_nat m) (drop (Z.to_nat off) (fbytes t n))) (s', f)) →
  wp (readi ip ok dst off len) (s, f) Q.
Proof.
  intros R Hn Hd [Hsz Hh] (Hls & Hli & Hlb) Hok Hoff Hlen m HQ. unfold readi. wp_steps. eapply wp_inode_at; [done|].
  assert (m = if (off >? i_size n) || (u32 (off + len) <? off) then 0 else Z.min len (i_size n - off)) as Em.
  { unfold m, readable. assert ((off + len >=? 2 ^ 32) = (u32 (off + len) <? off)) as ->; [|done]. apply eq_true_iff_eq. rewrite Z.ltb_lt, Z.geb_leb, Z.leb_le. unfold u32. div_lia. }
  clearbody m. destruct ((off >? i_size n) || (u32 (off + len) <? off)) eqn:E.
  { apply wp_ret. subst m. apply HQ; [done|keeps]. }
  bool_prop. assert (u32 (off + len) = off + len) as Eu by (unfold u32 in *; div_lia). rewrite Eu.
  assert (0 ≤ i_size n ≤ 274432) as Hsz' by (change (MAXFILE * BSIZE) with 274432 in Hsz; lia).
  replace (if off + len >? i_size n then i_size n - off else len) with m
    by (rewrite Em; destruct (off + len >? i_size n) eqn:E'; bool_prop; lia).
  assert (0 ≤ m ∧ off + m ≤ i_size n) as [Hm0 Hm] by lia. clear Em.
  apply (wp_while (λ '(tot, bytes) σ, 0 ≤ tot ≤ m ∧ snd σ = f ∧ tx_rep (fst σ) t ∧ hkeeps (t_locked t) s (fst σ) ∧
      bytes = take (Z.to_nat tot) (drop (Z.to_nat off) (fbytes t n))) (λ '(tot, _), Z.to_nat (m - tot)));
    [|split; [lia|]; split_and!; [done|done|keeps|done]|simpl; lia].
  intros [tot bytes] [s1 f1] ([Ht0 Htm] & Ef & R1 & K1 & Hb). simpl in Ef, R1, K1. subst f1 bytes. case_if.
  { apply wp_ret. assert (tot = m) as -> by lia. by apply HQ. }
  set (o := off + tot). assert (0 ≤ o / BSIZE < MAXFILE ∧ o / BSIZE * BSIZE < i_size n) as [Hbn Hbs].
  { change MAXFILE with 268. unfold BSIZE, o in *. split; div_lia. }
  wp_steps. eapply (bmap_hit ip n); [done|done|done|done|done|done|apply Hh; [lia|done]|]. intros s2 R2 K2.
  pose proof (Hh (o / BSIZE) ltac:(lia) Hbs) as Hne. apply Z.eqb_neq in Hne. rewrite Hne. wp_steps. rewrite Hd.
  eapply wp_tread; [done|split; [by apply Hlb|done]|]. intros i s3 R3 H3 K3. wp_steps.
  eapply wp_tdata; [done|done|simpl; apply lookup_insert_eq|]. rewrite Hok. simpl negb. cbv iota. wp_steps.
  eapply wp_trelse; [done|done|by apply Hlb|]. intros s4 R4 K4. wp_steps.
  set (c := Z.min (m - tot) (BSIZE - o mod BSIZE)).
  assert (0 < c ≤ m - tot ∧ c ≤ BSIZE - o mod BSIZE) as [Hc Hc'].
  { pose proof (Z.mod_pos_bound o BSIZE ltac:(done)). unfold c. lia. }
  split; [|lia]. split_and!; [lia|lia|done|done|keeps|].
  rewrite (fbytes_chunk t n o c) by (first [intros; by eapply tx_wf|lia|unfold o; lia]).
  rewrite (Z2Nat.inj_add tot c) by lia. rewrite take_add_drop, drop_drop. unfold o. by rewrite Z2Nat.inj_add by lia.
Qed.
End read.
