(* ===== verification/FsWrite.v ===== *)
(** [bmap] with allocation and [writei]: the bytes of a file after a write,
    the blocks of other files, and how many blocks a write logs. *)
From S2P Require Import Prelude Bytes Bio Txn Fs FsBlocks FsInode.

(** ** Definitions *)

(** The blocks that hold the free map, the inodes and the log. *)
Definition map_block (k : superblock) (b : Z) : Prop := ∃ x, 0 ≤ x < sb_size k ∧ b = BBLOCK x k.
Definition inode_block (k : superblock) (b : Z) : Prop := ∃ i, 0 ≤ i < sb_ninodes k ∧ b = IBLOCK i k.
Definition log_block (k : superblock) (b : Z) : Prop := sb_logstart k ≤ b < sb_logstart k + sb_nlog k.
Definition meta_block (k : superblock) (b : Z) : Prop := map_block k b ∨ inode_block k b ∨ log_block k b.

(** Block 0 and these blocks are marked in use; they are apart; no
    block is locked. *)
Definition disk_ok (k : superblock) (t : tstore) : Prop :=
  t_locked t = ∅ ∧ 0 ≤ sb_size k < 2 ^ 32 ∧
  (∀ b, b = 0 ∨ meta_block k b → 0 ≤ b < sb_size k → used t k b = true) ∧
  (∀ b, meta_block k b → 0 < b < sb_size k) ∧
  (∀ b, inode_block k b → ¬ map_block k b) ∧
  ∀ b, log_block k b → ¬ map_block k b ∧ ¬ inode_block k b.

(** The blocks of a file: the indirect block is number -1. *)
Definition fblk (t : tstore) (n : inode) (i : Z) : Z := if i <? 0 then addr_at n NDIRECT else blk_of t n i.

(** They are data blocks in use, and each is one block of the file. *)
Record file_wf (k : superblock) (t : tstore) (n : inode) : Prop := {
  fw_len : length (i_addrs n) = 13%nat;
  fw_data i : -1 ≤ i < MAXFILE → fblk t n i ≠ 0 →
    0 < fblk t n i < sb_size k ∧ used t k (fblk t n i) = true ∧ ¬ meta_block k (fblk t n i);
  fw_inj i j : -1 ≤ i < MAXFILE → -1 ≤ j < MAXFILE → fblk t n i ≠ 0 → fblk t n i = fblk t n j → i = j
}.

Definition set_addrs (l : list Z) (n : inode) : inode :=
  Inode (i_dev n) (i_inum n) (i_ref n) (i_lock n) (i_valid n) (i_type n) (i_major n) (i_minor n) (i_nlink n) (i_size n) l.

(** The blocks logged from [t] to [t'] are blocks of the disk outside of the log. *)
Definition logs (k : superblock) (t t' : tstore) : Prop :=
  t_log t ⊆ t_log t' ∧ ∀ b, b ∈ t_log t' → b ∈ t_log t ∨ 0 ≤ b < sb_size k ∧ ¬ log_block k b.

(** A file has got blocks, and nothing else has changed. *)
Record grown (k : superblock) (t : tstore) (n : inode) (t' : tstore) (n' : inode) : Prop := {
  gr_meta : n' = set_addrs (i_addrs n') n;
  gr_keep i : -1 ≤ i < MAXFILE → fblk t n i ≠ 0 → fblk t' n' i = fblk t n i;
  gr_new i : -1 ≤ i < MAXFILE → fblk t n i = 0 → fblk t' n' i ≠ 0 → 0 ≤ fblk t' n' i < sb_size k ∧ used t k (fblk t' n' i) = false;
  gr_used b : 0 ≤ b < sb_size k → used t k b = true → used t' k b = true;
  gr_view b : 0 < b < sb_size k → used t k b = true → ¬ map_block k b → b ≠ addr_at n NDIRECT → tview t' b = tview t b;
  gr_log : logs k t t'
}.

(** What the indirect block may still add to the log: its allocation, or its
    change. *)
Definition ind_cost (t : tstore) (n : inode) : Z :=
  if addr_at n NDIRECT =? 0 then 2 else if decide (addr_at n NDIRECT ∈ t_log t) then 0 else 1.

(** [t] with the block [b] allocated. *)
Definition alloc (k : superblock) (b : Z) (t : tstore) : tstore := logged b zero_block (mark_used b k t).

(** ** Lemmas *)

(** *** Blocks *)

Lemma field_zero n off : field n zero_block off = 0.
Proof.
  assert (∀ l, Forall (eq 0) l → le_get l = 0) as H0.
  { induction 1 as [|x l <- _ IH]; [done|]. simpl. by rewrite IH. }
  unfold field. apply H0. unfold zero_block. rewrite drop_replicate, take_replicate. apply Forall_replicate, eq_refl.
Qed.

Lemma indirect_set d bn a j : length d = Z.to_nat BSIZE → 0 ≤ bn < NINDIRECT → 0 ≤ j < NINDIRECT → 0 ≤ a < 2 ^ 32 →
  indirect_at (set_indirect d bn a) j = if decide (j = bn) then a else indirect_at d j.
Proof.
  unfold indirect_at, set_indirect, NINDIRECT, BSIZE. change (1024 / 4) with 256. intros Hd Hb Hj Ha. case_decide as E.
  - subst j. rewrite field_set_eq by lia. by apply Z.mod_small.
  - apply field_set_ne; lia.
Qed.

Lemma fblk_data t n i : 0 ≤ i → fblk t n i = blk_of t n i.
Proof. intros. unfold fblk. by destruct (Z.ltb_spec i 0); [lia|]. Qed.

(** The blocks of a file are in its inode and in its indirect block. *)
Lemma fblk_same t n t' n' : (∀ i, 0 ≤ i ≤ NDIRECT → addr_at n' i = addr_at n i) →
  tview t' (addr_at n NDIRECT) = tview t (addr_at n NDIRECT) → ∀ i, -1 ≤ i < MAXFILE → fblk t' n' i = fblk t n i.
Proof.
  intros Ha Hv i Hi. unfold fblk, blk_of. rewrite (Ha NDIRECT) by done. rewrite Hv.
  destruct (i <? 0) eqn:E; [done|]. bool_prop. destruct (i <? NDIRECT) eqn:E'; [|done]. bool_prop. apply Ha. lia.
Qed.

Lemma logs_refl k t : logs k t t.
Proof. split; [done|]. by left. Qed.

Lemma logs_logged k t t0 b d : logs k t t0 → 0 ≤ b < sb_size k → ¬ log_block k b → logs k t (logged b d t0).
Proof. intros [H1 H2] Hb Hn. split; simpl; [set_solver|]. intros x [->%elem_of_singleton|Hx]%elem_of_union; [by right|by apply H2]. Qed.

Lemma logs_trans k t1 t2 t3 : logs k t1 t2 → logs k t2 t3 → logs k t1 t3.
Proof. intros [A1 A2] [B1 B2]. split; [set_solver|]. intros b Hb. destruct (B2 b Hb) as [Hb2|]; [by apply A2|by right]. Qed.

Section alloc.
Context (k : superblock) (t : tstore) (Hok : disk_ok k t) (Hl : ∀ b, length (tview t b) = Z.to_nat BSIZE).

Lemma map_used b : 0 ≤ b < sb_size k → used t k b = false → b ≠ 0 ∧ ¬ meta_block k b.
Proof.
  destruct Hok as (_ & _ & Hu & _). intros Hb Hf. split.
  - intros ->. rewrite (Hu 0) in Hf; [done|by left|done].
  - intros Hm. rewrite (Hu b) in Hf; [done|by right|done].
Qed.

Lemma map_block_logs x : map_block k x → 0 ≤ x < sb_size k ∧ ¬ log_block k x.
Proof.
  destruct Hok as (_ & _ & _ & Hm & _ & Hlg). intros Hx. split; [|intros Hxl; by destruct (Hlg x Hxl)].
  specialize (Hm x ltac:(by left)). lia.
Qed.

Lemma logs_alloc b : 0 ≤ b < sb_size k → used t k b = false → logs k t (alloc k b t).
Proof.
  intros Hb Hf. destruct (map_used b Hb Hf) as [_ Hm]. unfold alloc, mark_used.
  assert (map_block k (BBLOCK b k)) as Hmb by (by exists b). apply map_block_logs in Hmb as [H1 H2].
  apply logs_logged; [apply logs_logged; [apply logs_refl|done|done]|done|]. intros ?. apply Hm. by right; right.
Qed.

Lemma alloc_view b x : x ≠ b → ¬ map_block k x → 0 ≤ b < sb_size k → tview (alloc k b t) x = tview t x.
Proof.
  intros Hx Hm Hb. unfold alloc, mark_used. rewrite !tview_logged, !decide_False; [done| |done]. intros E. apply Hm. by exists b.
Qed.

Lemma alloc_zero b : tview (alloc k b t) b = zero_block.
Proof. unfold alloc. by rewrite tview_logged, decide_True. Qed.

Lemma alloc_used b x : 0 ≤ b < sb_size k → used t k b = false → 0 ≤ x < sb_size k →
  used (alloc k b t) k x = used t k x || (x =? b).
Proof.
  intros Hb Hf Hx. unfold alloc. rewrite used_logged; [by apply used_mark|].
  intros E. destruct (map_used b Hb Hf) as [_ Hm]. apply Hm. left. exists x. done.
Qed.

Lemma disk_ok_step t' : t_locked t' = ∅ → (∀ b, 0 ≤ b < sb_size k → used t k b = true → used t' k b = true) → disk_ok k t'.
Proof.
  destruct Hok as (_ & Hs & Hu & Hm & Hd). intros Hlk Hus. split; [done|]. split; [done|]. split; [|done].
  intros b Hb Hr. by apply Hus, Hu.
Qed.

Lemma room_logged b d (t0 : tstore) : t_room t0 - 1 ≤ t_room (logged b d t0).
Proof. unfold logged. simpl. case_decide; lia. Qed.

Lemma alloc_room_left b : t_room t - 2 ≤ t_room (alloc k b t).
Proof. unfold alloc, mark_used. etrans; [|apply room_logged]. pose proof (room_logged (BBLOCK b k) (mark_bit (tview t (BBLOCK b k)) (b mod BPB)) t). lia. Qed.

(** A file gets the block [b] as its block [i]. *)
Lemma grow_one n t' n' i b : file_wf k t n → -1 ≤ i < MAXFILE → fblk t n i = 0 → 0 ≤ b < sb_size k → used t k b = false →
  n' = set_addrs (i_addrs n') n → length (i_addrs n') = 13%nat → t_locked t' = ∅ → logs k t t' →
  (∀ j, -1 ≤ j < MAXFILE → fblk t' n' j = if decide (j = i) then b else fblk t n j) →
  (∀ x, 0 ≤ x < sb_size k → used t' k x = used t k x || (x =? b)) →
  (∀ x, x ≠ b → ¬ map_block k x → x ≠ addr_at n NDIRECT → tview t' x = tview t x) →
  grown k t n t' n' ∧ file_wf k t' n' ∧ disk_ok k t'.
Proof.
  intros [Hlen Hdata Hinj] Hi H0 Hb Hf En Hl' Hlk Hlog Hj Hu Hv. destruct (map_used b Hb Hf) as [Hb0 Hm].
  assert (∀ x, 0 ≤ x < sb_size k → used t k x = true → used t' k x = true) as Hmono by (intros x Hx Hux; by rewrite Hu, Hux by done).
  split; [|split].
  - split; [done| | |done| |done].
    + intros j Hr Hne. rewrite Hj by done. rewrite decide_False; [done|]. intros ->. done.
    + intros j Hr E. rewrite Hj by done. case_decide; [done|]. by rewrite E.
    + intros x Hx Hux Hnm Hne. apply Hv; [|done|done]. intros ->. congruence.
  - split; [done| |].
    + intros j Hr. rewrite Hj by done. case_decide.
      * intros _. split; [lia|]. split; [|done]. rewrite Hu by done. by rewrite Z.eqb_refl, orb_true_r.
      * intros Hne. destruct (Hdata j Hr Hne) as (H1 & H2 & H3). split; [done|]. split; [|done]. apply Hmono; [lia|done].
    + intros j j' Hr Hr'. rewrite !Hj by done. case_decide as E1; case_decide as E2; subst.
      * done.
      * intros _ E. destruct (Hdata j' Hr') as (_ & H2 & _); [by rewrite <- E|]. rewrite <- E in H2. congruence.
      * intros Hne E. destruct (Hdata j Hr Hne) as (_ & H2 & _). rewrite E in H2. congruence.
      * apply Hinj; done.
  - by apply disk_ok_step.
Qed.
End alloc.

Lemma grown_refl k t n : grown k t n t n.
Proof. split; try done; [by destruct n|apply logs_refl]. Qed.

Lemma addr_at_data k t n : file_wf k t n → addr_at n NDIRECT ≠ 0 →
  0 < addr_at n NDIRECT < sb_size k ∧ used t k (addr_at n NDIRECT) = true ∧ ¬ meta_block k (addr_at n NDIRECT).
Proof. intros Hw Hn. apply (fw_data k t n Hw (-1)); [done|done]. Qed.

Lemma grown_trans k t n t1 n1 t2 n2 : file_wf k t n → grown k t n t1 n1 → grown k t1 n1 t2 n2 → grown k t n t2 n2.
Proof.
  intros Hw G1 G2. split.
  - rewrite (gr_meta _ _ _ _ _ G2), (gr_meta _ _ _ _ _ G1) at 1. done.
  - intros i Hi Hne. rewrite (gr_keep _ _ _ _ _ G2 i Hi); by rewrite (gr_keep _ _ _ _ _ G1 i Hi).
  - intros i Hi E Hne. destruct (decide (fblk t1 n1 i = 0)) as [E1|E1].
    + destruct (gr_new _ _ _ _ _ G2 i Hi E1 Hne) as [Hr Hf]. split; [done|]. apply not_true_is_false. intros Hu.
      by rewrite (gr_used _ _ _ _ _ G1) in Hf.
    + rewrite (gr_keep _ _ _ _ _ G2 i Hi E1) in *. by eapply gr_new.
  - intros b Hb Hu. by eapply gr_used, gr_used.
  - intros b Hb Hu Hm Hne. rewrite (gr_view _ _ _ _ _ G2); [by apply (gr_view _ _ _ _ _ G1)|done| |done|].
    + eapply gr_used; [done|lia|done].
    + intros ->. change (addr_at n1 NDIRECT) with (fblk t1 n1 (-1)) in *. change (addr_at n NDIRECT) with (fblk t n (-1)) in *.
      destruct (decide (fblk t n (-1) = 0)) as [E|E].
      * destruct (gr_new _ _ _ _ _ G1 (-1) ltac:(done) E ltac:(lia)) as [_ Hf]. congruence.
      * apply Hne. by eapply gr_keep.
  - eapply logs_trans; by eapply gr_log.
Qed.

(** *** Slots of the inode *)

Lemma addr_at_set n i a j : length (i_addrs n) = 13%nat → 0 ≤ i ≤ NDIRECT → addr_at (set_iaddr i a n) j = if decide (j = i) then a else addr_at n j.
Proof.
  intros Hl Hi. unfold addr_at, set_iaddr; simpl. destruct (getZ_is_Some (i_addrs n) i) as [y Hy]; [unfold NDIRECT in *; lia|].
  rewrite (getZ_setZ _ _ _ _ _ Hy). repeat case_decide; done || congruence.
Qed.

(** The place of slot [i] among the blocks of the file. *)
Definition slot_index (i : Z) : Z := if i =? NDIRECT then -1 else i.

Lemma fblk_slot t n i : 0 ≤ i ≤ NDIRECT → fblk t n (slot_index i) = addr_at n i.
Proof.
  intros Hi. unfold slot_index. destruct (i =? NDIRECT) eqn:E; bool_prop; [by subst|]. rewrite fblk_data by lia. unfold blk_of.
  destruct (Z.ltb_spec i NDIRECT); [done|lia].
Qed.

Section slots.
Context (k : superblock) (t : tstore) (Hok : disk_ok k t) (Hl : ∀ b, length (tview t b) = Z.to_nat BSIZE).

(** A free block for slot [i]. *)
Lemma slot_grown n i b : file_wf k t n → 0 ≤ i ≤ NDIRECT → addr_at n i = 0 → 0 ≤ b < sb_size k → used t k b = false →
  let t' := alloc k b t in let n' := set_iaddr i b n in grown k t n t' n' ∧ file_wf k t' n' ∧ disk_ok k t'.
Proof.
  intros Hw Hi H0 Hb Hf t' n'. pose proof (fw_len _ _ _ Hw) as Hlen. destruct (map_used k t Hok b Hb Hf) as [Hb0 Hm].
  eapply (grow_one k t Hok n t' n' (slot_index i) b); try done.
  - change MAXFILE with 268. unfold slot_index, NDIRECT in *. case_if; simpl; lia.
  - by rewrite fblk_slot.
  - unfold n'. simpl. by rewrite length_setZ.
  - apply Hok.
  - by apply (logs_alloc k t Hok).
  - intros j Hj. destruct (Z.ltb_spec j 0) as [Hneg|Hpos].
    + unfold fblk. destruct (Z.ltb_spec j 0); [|lia]. unfold n'. rewrite addr_at_set by done. unfold slot_index.
      destruct (i =? NDIRECT) eqn:E; bool_prop; repeat case_decide; subst; first [done|unfold NDIRECT in *; lia].
    + rewrite !fblk_data by done. unfold blk_of, n'. rewrite !addr_at_set by done. unfold slot_index.
      destruct (Z.ltb_spec j NDIRECT) as [Hd|Hd].
      * destruct (i =? NDIRECT) eqn:E; bool_prop; repeat case_decide; subst; first [done|unfold NDIRECT in *; lia].
      * destruct (i =? NDIRECT) eqn:E; bool_prop.
        -- subst i. rewrite !(decide_True (P := NDIRECT = NDIRECT)) by done. rewrite (decide_False (P := j = -1)) by lia. rewrite H0. simpl.
           apply Z.eqb_neq in Hb0. rewrite Hb0. unfold t'. rewrite alloc_zero. apply field_zero.
        -- rewrite (decide_False (P := NDIRECT = i)) by lia. rewrite (decide_False (P := j = i)) by lia.
           destruct (addr_at n NDIRECT =? 0) eqn:Ei; [done|]. bool_prop. destruct (addr_at_data k t n Hw Ei) as (H1 & H2 & H3).
           unfold t'. rewrite (alloc_view k t) ; [done| | |done]; [intros Eb; rewrite Eb in H2; congruence|intros ?; by apply H3; left].
  - intros x Hx. by apply (alloc_used k t).
  - intros x Hx Hmx _. by apply (alloc_view k t).
Qed.
End slots.

Section bmap.
Context {St : Type} `{TX : Txn St, !TxnOk St}.
Implicit Types (s : St) (f : fsst) (t : tstore).

Lemma wp_balloc s f t (Q : Z → fst_ → Prop) : let k := sb f in
  tx_rep s t → disk_ok k (set_locked ∅ t) → 2 ≤ t_room t →
  (∀ b, is_Some (t_locked t !! b) → used t k b = true ∧ ¬ meta_block k b) → Z.of_nat (size (t_locked t)) < MAXLOCKED →
  (∀ s', tx_rep s' t → hkeeps (t_locked t) s s' → (∀ b, 0 ≤ b < sb_size k → used t k b = true) → Q 0 (s', f)) →
  (∀ s' b, tx_rep s' (alloc k b t) → hkeeps (t_locked t) s s' → 0 < b < sb_size k → used t k b = false → Q b (s', f)) →
  wp (balloc ROOTDEV) (s, f) Q.
Proof.
  intros k R Hd Hr Hlk Hsz H0 H1. apply (balloc_ok s f t); [done| |done|].
  - split; [done|]. split; [done|]. split; intros b Hb.
    + destruct (t_locked t !! BBLOCK b (sb f)) eqn:E; [|done]. exfalso. destruct (Hlk (BBLOCK b k)) as [_ Hm]; [by eexists|].
      apply Hm. left. by exists b.
    + intros Hf. destruct (t_locked t !! b) eqn:E; [|done]. exfalso. destruct (Hlk b) as [Hu _]; [by eexists|]. change (used t k b = false) in Hf; congruence.
  - intros s' b R' K' Hb Hf _. apply H1; [done|done| |done]. destruct (map_used k _ Hd b Hb Hf) as [? _]. unfold k in *. lia.
Qed.

(** A slot of the inode, with a block if there is one left. *)
Lemma bmap_addr_ok ip n s f t i (Q : Z → fst_ → Prop) : let k := sb f in
  tx_rep s t → inodes f !! ip = Some n → i_dev n = ROOTDEV → 0 ≤ i ≤ NDIRECT → disk_ok k t → file_wf k t n →
  (addr_at n i = 0 → 2 ≤ t_room t) →
  (∀ s', tx_rep s' t → (addr_at n i = 0 → ∀ b, 0 ≤ b < sb_size k → used t k b = true) → Q (addr_at n i) (s', f)) →
  (∀ s' b, tx_rep s' (alloc k b t) → addr_at n i = 0 → 0 < b < sb_size k → used t k b = false →
     Q b (s', put_inode ip (set_iaddr i b n) f)) →
  wp (bmap_addr ip i) (s, f) Q.
Proof.
  intros k R Hn Hd Hi Hok Hw Hr H0 H1. unfold bmap_addr. wp_steps. eapply wp_inode_at; [done|]. destruct (addr_at n i =? 0) eqn:E; bool_prop.
  - wp_steps. rewrite Hd. pose proof (proj1 Hok) as Hlk.
    eapply (wp_balloc s f t); [done| |by apply Hr|by rewrite Hlk; intros b []|by rewrite Hlk| |].
    + destruct t. simpl in Hlk. subst. apply Hok.
    + intros s' R' _ Hu. simpl. apply wp_ret. rewrite <- E. by apply H0.
    + intros s' b R' _ Hb Hf. replace (b =? 0) with false by (symmetry; apply Z.eqb_neq; lia). wp_steps.
      eapply wp_upd_inode; [done|]. wp_steps. by apply H1.
  - apply wp_ret. apply H0; [done|]. by intros ?.
Qed.

(** A locked block is given the contents [d'] and logged, and stays locked. *)
Lemma wp_tset_log s f t i b (d' : block) (Q : unit → fst_ → Prop) :
  tx_rep s (set_locked (<[b := tview t b]> (t_locked t)) t) → tx_handle s i b →
  t_locked t !! b = None → length d' = Z.to_nat BSIZE → may_log t b →
  (∀ s', tx_rep s' (set_locked (<[b := tview (logged b d' t) b]> (t_locked (logged b d' t))) (logged b d' t)) → tx_handle s' i b →
     Q tt (s', f)) →
  wp (tio (tx_set_data i d')) (s, f) (λ _ σ, wp (tio (tx_log i)) σ Q).
Proof.
  intros R Hh Hb Hlen Hl HQ. apply wp_tio.
  eapply wp_mono; [eapply (tx_set_data_ok s _ i b _ d' R Hh); [simpl; apply lookup_insert_eq|done]|].
  cbv zeta. intros [] s1 (R1 & K1). cbn [t_locked set_locked] in *. rewrite insert_insert_eq in *.
  assert (tx_handle s1 i b) as H1 by (apply K1; [done|simpl; rewrite lookup_insert_eq; eauto]).
  apply wp_tio. eapply wp_mono; [eapply (tx_log_ok s1 _ i b d' R1 H1); [simpl; apply lookup_insert_eq|done]|].
  intros [] s2 (R2 & K2). apply HQ.
  - rewrite tview_logged, decide_True by done. exact R2.
  - apply K2; [done|]. simpl. rewrite lookup_insert_eq. eauto.
Qed.

(** An entry of the indirect block, with a block if there is one left. *)
Lemma bmap_indirect_ok n s f t bn (Q : Z → fst_ → Prop) : let k := sb f in let a := addr_at n NDIRECT in
  tx_rep s t → disk_ok k t → file_wf k t n → NDIRECT ≤ bn < MAXFILE → a ≠ 0 →
  (blk_of t n bn = 0 → 2 + (if decide (a ∈ t_log t) then 0 else 1) ≤ t_room t) →
  (∀ s', tx_rep s' t → (blk_of t n bn = 0 → ∀ b, 0 ≤ b < sb_size k → used t k b = true) → Q (blk_of t n bn) (s', f)) →
  (∀ s' b, tx_rep s' (logged a (set_indirect (tview t a) (bn - NDIRECT) b) (alloc k b t)) →
     blk_of t n bn = 0 → 0 < b < sb_size k → used t k b = false → Q b (s', f)) →
  wp (bmap_indirect ROOTDEV a (bn - NDIRECT)) (s, f) Q.
Proof.
  intros k a R Hok Hw Hbn Ha Hr H0 H1. destruct (addr_at_data k t n Hw Ha) as (Ha1 & Ha2 & Ha3). fold a in Ha1, Ha2, Ha3.
  pose proof (proj1 Hok) as Hlk. assert (blk_of t n bn = indirect_at (tview t a) (bn - NDIRECT)) as Eb.
  { unfold blk_of. destruct (Z.ltb_spec bn NDIRECT); [lia|]. fold a. apply Z.eqb_neq in Ha. by rewrite Ha. }
  unfold bmap_indirect. wp_steps. eapply wp_tread; [done|by unfold may_read; rewrite Hlk|]. intros i s1 R1 h1 K1. wp_steps.
  eapply wp_tdata; [done|done|simpl; apply lookup_insert_eq|]. rewrite <- Eb. destruct (blk_of t n bn =? 0) eqn:E; bool_prop.
  - specialize (Hr E). wp_steps. eapply (wp_balloc s1 f _ _ R1).
    + destruct t. simpl in Hlk. subst. apply Hok.
    + simpl. case_decide; lia.
    + simpl. rewrite Hlk. intros b Hb. destruct (decide (b = a)) as [->|]; [done|]. rewrite lookup_insert_ne in Hb by done. by destruct Hb.
    + simpl. rewrite Hlk, insert_empty, map_size_singleton. done.
    + intros s2 R2 K2 Hu. simpl. wp_steps. eapply wp_trelse; [done|apply K2; [done|simpl; rewrite lookup_insert_eq; eauto]|by rewrite Hlk|].
      intros s3 R3 _. wp_steps. rewrite <- E. by apply H0.
    + intros s2 b R2 K2 Hb Hf. change (used t k b = false) in Hf. replace (b =? 0) with false by (symmetry; apply Z.eqb_neq; lia). simpl negb. cbv iota.
      assert (tx_handle s2 i a) as h2 by (apply K2; [done|simpl; rewrite lookup_insert_eq; eauto]).
      change (0 < b < sb_size k) in Hb. assert (b ≠ a) as Hba by (intros ->; congruence).
      assert (tview (alloc k b t) a = tview t a) as Ev by (apply (alloc_view k t); [done|intros ?; by apply Ha3; left|lia]).
      change (alloc (sb f) b (set_locked (<[a := tview t a]> (t_locked t)) t)) with (set_locked (<[a := tview t a]> (t_locked (alloc k b t))) (alloc k b t)) in R2.
      rewrite <- Ev in R2. wp_steps. eapply (wp_tset_log s2 f (alloc k b t)); [exact R2|done|simpl; by rewrite Hlk| | |].
      * unfold set_indirect. rewrite length_set_field. by eapply tx_wf.
      * unfold may_log. pose proof (alloc_room_left k t b). destruct (decide (a ∈ t_log t)); [left; simpl; set_solver|right; lia].
      * intros s3 R3 h3. wp_steps. eapply wp_trelse; [done|done|simpl; by rewrite Hlk|]. intros s4 R4 _. wp_steps. by apply H1.
  - wp_steps. eapply wp_trelse; [done|done|by rewrite Hlk|]. intros s2 R2 _. wp_steps. apply H0; [done|]. by intros ?.
Qed.

Lemma indirect_grown k t n bn b : disk_ok k t → file_wf k t n → (∀ x, length (tview t x) = Z.to_nat BSIZE) → NDIRECT ≤ bn < MAXFILE →
  addr_at n NDIRECT ≠ 0 → blk_of t n bn = 0 → 0 < b < sb_size k → used t k b = false →
  let a := addr_at n NDIRECT in let t' := logged a (set_indirect (tview t a) (bn - NDIRECT) b) (alloc k b t) in
  grown k t n t' n ∧ file_wf k t' n ∧ disk_ok k t' ∧ blk_of t' n bn = b ∧ b ∈ t_log t' ∧ ind_cost t' n = 0 ∧
  t_room t - 2 - ind_cost t n ≤ t_room t'.
Proof.
  intros Hok Hw Hl Hbn Ha E Hb Hf a t'. destruct (addr_at_data k t n Hw Ha) as (Ha1 & Ha2 & Ha3). fold a in Ha1, Ha2, Ha3.
  assert (b ≠ a) as Hba by (intros ->; congruence). assert (0 ≤ NDIRECT) as HND by done.
  assert (∀ j, -1 ≤ j < MAXFILE → fblk t' n j = if decide (j = bn) then b else fblk t n j) as Hj.
  { intros j Hj. unfold fblk, blk_of. fold a. apply Z.eqb_neq in Ha. fold a in Ha. rewrite Ha. destruct (Z.ltb_spec j 0); [by rewrite decide_False by lia|].
    destruct (Z.ltb_spec j NDIRECT); [by rewrite decide_False by lia|]. unfold t'. rewrite tview_logged, decide_True by done.
    unfold MAXFILE in *. rewrite indirect_set by (try apply Hl; destruct Hok as (_ & ? & _); lia). repeat case_decide; (done || lia). }
  assert (a ∈ t_log t') as Hlog by (unfold t'; simpl; set_solver).
  assert (grown k t n t' n ∧ file_wf k t' n ∧ disk_ok k t') as (G & W & D).
  { eapply (grow_one k t Hok n t' n bn b); try done.
    - lia.
    - rewrite fblk_data by lia. done.
    - lia.
    - by destruct n.
    - apply Hw.
    - apply Hok.
    - apply logs_logged; [apply (logs_alloc k t Hok); [lia|done]|lia|]. intros ?. apply Ha3. by right; right.
    - intros x Hx. unfold t'. rewrite used_logged; [by apply (alloc_used k t); [..|lia|done|]|]. intros Ex. apply Ha3. left. exists x. done.
    - intros x Hx Hm Hne. unfold t'. rewrite tview_logged, decide_False by done. apply (alloc_view k t); [done|done|lia]. }
  do 3 (split; [done|]). split; [|split; [|split]].
  - specialize (Hj bn ltac:(lia)). rewrite fblk_data in Hj by lia. by rewrite decide_True in Hj.
  - unfold t', alloc, mark_used, logged; simpl. set_solver.
  - unfold ind_cost. fold a. apply Z.eqb_neq in Ha. fold a in Ha. rewrite Ha. by rewrite decide_True.
  - unfold ind_cost. fold a. apply Z.eqb_neq in Ha. fold a in Ha. rewrite Ha. pose proof (alloc_room_left k t b) as Hr.
    destruct (decide (a ∈ t_log t)) as [Hin|].
    + assert (t_room t' = t_room (alloc k b t)) as ->; [|lia]. unfold t', logged at 1; simpl t_room. apply decide_True.
      unfold alloc, mark_used, logged; simpl. set_solver.
    + pose proof (room_logged a (set_indirect (tview t a) (bn - NDIRECT) b) (alloc k b t)) as Hr2. fold t' in Hr2. lia.
Qed.

Lemma ind_cost_range t n : 0 ≤ ind_cost t n ≤ 2.
Proof. unfold ind_cost. case_if; [lia|]. case_decide; lia. Qed.

Lemma ind_cost_le t n t' n' : addr_at n' NDIRECT = addr_at n NDIRECT → t_log t ⊆ t_log t' → ind_cost t' n' ≤ ind_cost t n.
Proof. intros E Hs. unfold ind_cost. rewrite E. case_if; [lia|]. repeat case_decide; try lia. exfalso; set_solver. Qed.

Lemma put_inode_id ip n f : inodes f !! ip = Some n → put_inode ip n f = f.
Proof. intros Hn. unfold put_inode. rewrite list_insert_id by done. by destruct f. Qed.

Lemma bmap_ok ip n s f t bn (Q : Z → fst_ → Prop) : let k := sb f in let cost := if blk_of t n bn =? 0 then 2 else 0 in
  tx_rep s t → inodes f !! ip = Some n → i_dev n = ROOTDEV → disk_ok k t → file_wf k t n → 0 ≤ bn < MAXFILE →
  ind_cost t n + cost ≤ t_room t →
  (∀ s' t' n', tx_rep s' t' → grown k t n t' n' → file_wf k t' n' → disk_ok k t' →
     (blk_of t' n' bn = 0 → ∀ b, 0 ≤ b < sb_size k → used t' k b = true) →
     (blk_of t n bn = 0 → blk_of t' n' bn ≠ 0 → blk_of t' n' bn ∈ t_log t') →
     t_room t - ind_cost t n - cost ≤ t_room t' - ind_cost t' n' → Q (blk_of t' n' bn) (s', put_inode ip n' f)) →
  wp (bmap ip bn) (s, f) Q.
Proof.
  intros k cost R Hn Hd Hok Hw Hbn Hroom HQ. assert (∀ x, length (tview t x) = Z.to_nat BSIZE) as Hl by (intros; by eapply tx_wf).
  pose proof (ind_cost_range t n) as Hic.
  unfold bmap. destruct (Z.ltb_spec bn NDIRECT) as [Hlt|Hge].
  - assert (blk_of t n bn = addr_at n bn) as Eb by (unfold blk_of; by destruct (Z.ltb_spec bn NDIRECT); [|lia]).
    eapply (bmap_addr_ok ip n s f t bn); try done; [lia| | |].
    + intros E. unfold cost in Hroom. rewrite Eb, E in Hroom. simpl in Hroom. lia.
    + intros s' R' Hu. rewrite <- Eb, <- (put_inode_id ip n f Hn). apply (HQ s' t n); try done; [apply grown_refl|by rewrite Eb|].
      unfold cost. case_if; lia.
    + intros s' b R' E Hb Hf. destruct (slot_grown k t Hok Hl n bn b Hw ltac:(lia) E ltac:(unfold k; lia) Hf) as (G & W & D).
      assert (blk_of (alloc k b t) (set_iaddr bn b n) bn = b) as Eb'.
      { unfold blk_of. destruct (Z.ltb_spec bn NDIRECT); [|lia]. rewrite addr_at_set by (try apply Hw; lia). by rewrite decide_True. }
      rewrite <- Eb' at 1. apply (HQ s' (alloc k b t)); try done.
      * rewrite Eb'. lia.
      * rewrite Eb'. intros _ _. unfold alloc, mark_used, logged; simpl. set_solver.
      * pose proof (alloc_room_left k t b). assert (ind_cost (alloc k b t) (set_iaddr bn b n) ≤ ind_cost t n).
        { apply ind_cost_le; [|by eapply (gr_log _ _ _ _ _ G)]. rewrite addr_at_set by (try apply Hw; lia). by rewrite decide_False by lia. }
        replace cost with 2 by (unfold cost; by rewrite Eb, E). lia.
  - replace (bn - NDIRECT <? NINDIRECT) with true by (symmetry; apply Z.ltb_lt; unfold MAXFILE in Hbn; lia).
    wp_steps. eapply wp_inode_at; [done|]. wp_steps. rewrite Hd.
    assert (addr_at n NDIRECT = 0 → blk_of t n bn = 0) as Hz by (intros E; unfold blk_of; destruct (Z.ltb_spec bn NDIRECT); [lia|]; by rewrite E).
    eapply (bmap_addr_ok ip n s f t NDIRECT); try done.
    + intros E. unfold cost in Hroom. rewrite (Hz E) in Hroom. simpl in Hroom. lia.
    + intros s' R' Hu. destruct (addr_at n NDIRECT =? 0) eqn:E; bool_prop.
      * wp_steps. rewrite <- (Hz E), <- (put_inode_id ip n f Hn). apply (HQ s' t n); try done; [apply grown_refl|by auto|unfold cost; case_if; lia].
      * eapply (bmap_indirect_ok n s' f t bn); try done; [lia| | |].
        -- intros Eb. unfold cost in Hroom. rewrite Eb in Hroom. unfold ind_cost in Hroom. apply Z.eqb_neq in E. rewrite E in Hroom. simpl in Hroom. lia.
        -- intros s2 R2 Hu2. rewrite <- (put_inode_id ip n f Hn). apply (HQ s2 t n); try done; [apply grown_refl|unfold cost; case_if; lia].
        -- intros s2 b R2 Eb Hb Hf. destruct (indirect_grown k t n bn b Hok Hw Hl (conj Hge (proj2 Hbn)) E Eb Hb Hf) as (G & W & D & Eb2 & Hlog & Hc & Hr2).
           set (t2 := logged _ _ _) in *. rewrite <- Eb2 at 1. rewrite <- (put_inode_id ip n f Hn). apply (HQ s2 t2 n); try done; [rewrite Eb2; lia|by rewrite Eb2|].
           replace cost with 2 by (unfold cost; by rewrite Eb). lia.
    + intros s1 b1 R1 E Hb1 Hf1. replace (b1 =? 0) with false by (symmetry; apply Z.eqb_neq; lia).
      destruct (slot_grown k t Hok Hl n NDIRECT b1 Hw ltac:(done) E ltac:(unfold k; lia) Hf1) as (G1 & W1 & D1).
      set (t1 := alloc k b1 t) in *. set (n1 := set_iaddr NDIRECT b1 n) in *.
      assert (addr_at n1 NDIRECT = b1) as E1 by (unfold n1; rewrite addr_at_set by (try apply Hw; done); by rewrite decide_True).
      assert (b1 ∈ t_log t1) as Hlog1 by (unfold t1, alloc, mark_used, logged; simpl; set_solver).
      assert (ind_cost t1 n1 = 0) as Hc1 by (unfold ind_cost; rewrite E1, decide_True by done; case_if; lia).
      assert (t_room t - 2 ≤ t_room t1) as Hr1 by apply alloc_room_left.
      assert (ind_cost t n = 2) as Hc0 by (unfold ind_cost; by rewrite E). assert (cost = 2) as Hcost by (unfold cost; by rewrite (Hz E)).
      assert (blk_of t1 n1 bn = 0) as Eb1.
      { unfold blk_of. destruct (Z.ltb_spec bn NDIRECT); [lia|]. rewrite E1. unfold t1. rewrite alloc_zero. rewrite (proj2 (Z.eqb_neq b1 0)) by lia. apply field_zero. }
      rewrite <- E1. eapply (bmap_indirect_ok n1 s1 (put_inode ip n1 f) t1 bn); try done; [lia|rewrite E1; lia| | |].
      * intros _. rewrite E1, decide_True by done. lia.
      * intros s2 R2 Hu2. apply (HQ s2 t1 n1); try done; lia.
      * intros s2 b R2 _ Hb Hf. assert (addr_at n1 NDIRECT ≠ 0) as Hne1 by (rewrite E1; lia).
        destruct (indirect_grown k t1 n1 bn b D1 W1 ltac:(intros; by eapply tx_wf) (conj Hge (proj2 Hbn)) Hne1 Eb1 Hb Hf) as (G & W & D & Eb2 & Hlog & Hc & Hr2).
        set (t2 := logged _ _ _) in *. rewrite <- Eb2 at 1. apply (HQ s2 t2 n1); try done; [by eapply grown_trans|rewrite Eb2; lia|by rewrite Eb2|lia].
Qed.
End bmap.

(** *** The bytes of a file that is being written *)

(** The transaction [t'] and the inode [n'] are [t] and [n] with the bytes
    [w] written from [off] on, but for the size and the inode on disk. *)
Record wrote (k : superblock) (t : tstore) (n : inode) (off : Z) (w : list Z) (t' : tstore) (n' : inode) : Prop := {
  wr_meta : n' = set_addrs (i_addrs n') n;
  wr_log : logs k t t';
  wr_wf : file_wf k t' n';
  wr_disk : disk_ok k t';
  wr_alloc bn : 0 ≤ bn → bn * BSIZE < i_size n `max` (off + Z.of_nat (length w)) → blk_of t' n' bn ≠ 0;
  wr_byte p : 0 ≤ p < i_size n `max` (off + Z.of_nat (length w)) →
    fbyte t' n' p = if decide (off ≤ p < off + Z.of_nat (length w)) then default 0 (w !! Z.to_nat (p - off)) else fbyte t n p;
  wr_used b : 0 ≤ b < sb_size k → used t k b = true → used t' k b = true;
  wr_blk i : -1 ≤ i < MAXFILE → fblk t' n' i ≠ 0 → fblk t n i = fblk t' n' i ∨ used t k (fblk t' n' i) = false;
  wr_view b : 0 < b < sb_size k → used t k b = true → ¬ map_block k b → (∀ i, -1 ≤ i < MAXFILE → b ≠ fblk t n i) → tview t' b = tview t b
}.

Lemma wrote_refl k t n off : file_wf k t n → disk_ok k t → no_holes t n → 0 ≤ off ≤ i_size n → wrote k t n off [] t n.
Proof.
  intros Hw Hd [Hs Hh] Ho. split; try done.
  - by destruct n.
  - apply logs_refl.
  - simpl. intros bn Hbn Hlt. apply Hh; [done|lia].
  - simpl. intros p Hp. rewrite decide_False by lia. done.
  - by left.
Qed.

(** The block of a byte that is already in the file. *)
Lemma wrote_grown k t n off w t1 n1 t2 n2 : i_size n `max` (off + Z.of_nat (length w)) ≤ MAXFILE * BSIZE → wrote k t n off w t1 n1 →
  grown k t1 n1 t2 n2 → file_wf k t2 n2 → disk_ok k t2 → wrote k t n off w t2 n2.
Proof.
  intros Hmax W G Hw2 Hd2. pose proof (wr_wf _ _ _ _ _ _ _ W) as Hw1. unfold BSIZE in *.
  assert (∀ bn, 0 ≤ bn → bn * 1024 < i_size n `max` (off + Z.of_nat (length w)) → blk_of t1 n1 bn ≠ 0 ∧ blk_of t2 n2 bn = blk_of t1 n1 bn) as Hkeep.
  { intros bn Hbn Hlt. assert (blk_of t1 n1 bn ≠ 0) as Hne by (by eapply wr_alloc). split; [done|].
    assert (bn < MAXFILE) by lia. rewrite <- !fblk_data by done. eapply gr_keep; [done|lia|by rewrite fblk_data]. }
  split; try done.
  - rewrite (gr_meta _ _ _ _ _ G), (wr_meta _ _ _ _ _ _ _ W) at 1. done.
  - eapply logs_trans; [by eapply wr_log|by eapply gr_log].
  - intros bn Hbn Hlt. destruct (Hkeep bn Hbn Hlt) as [? ->]. done.
  - intros p Hp. rewrite <- (wr_byte _ _ _ _ _ _ _ W p Hp). unfold fbyte, BSIZE. destruct (Hkeep (p / 1024)) as [Hne ->]; [div_lia|div_lia|].
    assert (-1 ≤ p / 1024 < MAXFILE) as Hr by (unfold MAXFILE, NDIRECT, NINDIRECT, BSIZE in *; div_lia).
    rewrite <- fblk_data in Hne |- * by div_lia. destruct (fw_data _ _ _ Hw1 (p / 1024) Hr Hne) as (H1 & H2 & H3).
    rewrite (gr_view _ _ _ _ _ G); [done|lia|done|intros ?; by apply H3; left|].
    intros E. change (addr_at n1 NDIRECT) with (fblk t1 n1 (-1)) in E. pose proof (fw_inj _ _ _ Hw1 (p / 1024) (-1) Hr ltac:(done) Hne E). div_lia.
  - intros b Hb Hu. eapply gr_used; [done|done|]. by eapply wr_used.
  - intros i Hi Hne. destruct (decide (fblk t1 n1 i = 0)) as [E|E].
    + right. destruct (gr_new _ _ _ _ _ G i Hi E Hne) as [Hr Hf]. apply not_true_is_false. intros Hu. by rewrite (wr_used _ _ _ _ _ _ _ W) in Hf.
    + rewrite (gr_keep _ _ _ _ _ G i Hi E). by eapply wr_blk.
  - intros b Hb Hu Hm Hown. rewrite (gr_view _ _ _ _ _ G); [by eapply wr_view|done|eapply wr_used; [done|lia|done]|done|].
    intros E. assert (fblk t1 n1 (-1) = b) as Eb by done.
    destruct (wr_blk _ _ _ _ _ _ _ W (-1) ltac:(done)) as [E1|E1]; [lia| |].
    + apply (Hown (-1)); [done|]. by rewrite E1.
    + rewrite Eb in E1. congruence.
Qed.

(** A block of the file gets new contents. *)
Lemma data_logged k t n bn d : let b := blk_of t n bn in let t' := logged b d t in
  file_wf k t n → disk_ok k t → 0 ≤ bn < MAXFILE → b ≠ 0 →
  file_wf k t' n ∧ disk_ok k t' ∧ (∀ i, -1 ≤ i < MAXFILE → fblk t' n i = fblk t n i) ∧
  (∀ x, 0 ≤ x < sb_size k → used t' k x = used t k x) ∧ (∀ x, tview t' x = if decide (b = x) then d else tview t x).
Proof.
  intros b t' Hw Hd Hbn Hb. assert (fblk t n bn = b) as Eb by (by rewrite fblk_data by lia).
  destruct (fw_data k t n Hw bn ltac:(lia)) as (H1 & H2 & H3); [by rewrite Eb|]. rewrite Eb in H1, H2, H3.
  assert (∀ x, tview t' x = if decide (b = x) then d else tview t x) as Hv by apply tview_logged.
  assert (∀ i, -1 ≤ i < MAXFILE → fblk t' n i = fblk t n i) as Hf.
  { apply fblk_same; [done|]. rewrite Hv, decide_False; [done|]. intros E.
    assert (bn = -1) by (apply (fw_inj k t n Hw); [lia|done|by rewrite Eb|by rewrite Eb]). lia. }
  assert (∀ x, 0 ≤ x < sb_size k → used t' k x = used t k x) as Hu.
  { intros x Hx. apply used_logged. intros E. apply H3. left. by exists x. }
  split; [|split; [|done]].
  - split; [apply Hw| |].
    + intros i Hi. rewrite Hf by done. intros Hne. destruct (fw_data k t n Hw i Hi Hne) as (? & ? & ?). split; [done|]. split; [|done].
      rewrite Hu by lia. done.
    + intros i j Hi Hj. rewrite !Hf by done. by apply (fw_inj k t n Hw).
  - apply (disk_ok_step k t Hd); [apply Hd|]. intros x Hx. by rewrite Hu.
Qed.

Lemma wrote_data k t n off w t1 n1 c : let o := off + Z.of_nat (length w) in let b := blk_of t1 n1 (o / BSIZE) in
  wrote k t n off w t1 n1 → (∀ x, length (tview t1 x) = Z.to_nat BSIZE) → 0 ≤ off ≤ i_size n → b ≠ 0 →
  (length c ≤ Z.to_nat (BSIZE - o mod BSIZE))%nat → i_size n `max` (o + Z.of_nat (length c)) ≤ MAXFILE * BSIZE → o / BSIZE < MAXFILE →
  wrote k t n off (w ++ c) (logged b (list_inserts (Z.to_nat (o mod BSIZE)) c (tview t1 b)) t1) n1.
Proof.
  intros o b W Hl Hoff Hb Hc Hmax Hbn. assert (0 ≤ o) as Ho by lia. unfold BSIZE in *.
  destruct (data_logged k t1 n1 (o / 1024) (list_inserts (Z.to_nat (o mod 1024)) c (tview t1 b)) (wr_wf _ _ _ _ _ _ _ W) (wr_disk _ _ _ _ _ _ _ W)
    ltac:(div_lia) Hb) as (Hw' & Hd' & Hf & Hu & Hv).
  fold b in Hw', Hd', Hf, Hu, Hv. set (d := list_inserts _ _ _) in *. set (t' := logged b d t1) in *.
  assert (∀ bn, 0 ≤ bn < MAXFILE → blk_of t' n1 bn = blk_of t1 n1 bn) as Hblk by (intros; rewrite <- !fblk_data by lia; apply Hf; lia).
  assert (off + (Z.of_nat (length w) + Z.of_nat (length c)) = o + Z.of_nat (length c)) as Eo by lia.
  split; try done; rewrite ?length_app, ?Nat2Z.inj_add, ?Eo.
  - apply W.
  - assert (b = fblk t1 n1 (o / 1024)) as Eb by (by rewrite fblk_data by div_lia).
    destruct (fw_data _ _ _ (wr_wf _ _ _ _ _ _ _ W) (o / 1024) ltac:(div_lia)) as (H1 & _ & H3); [by rewrite <- Eb|]. rewrite <- Eb in H1, H3.
    apply logs_logged; [by eapply wr_log|lia|]. intros ?. apply H3. by right; right.
  - intros bn H0 Hlt. rewrite Hblk by (unfold BSIZE in *; lia). unfold BSIZE in *. destruct (decide (bn * 1024 < i_size n `max` o)) as [H1|H1].
    + by apply (wr_alloc _ _ _ _ _ _ _ W).
    + assert (bn = o / 1024) as -> by div_lia. done.
  - intros p Hp. assert (0 ≤ p / 1024 < MAXFILE) as Hr by div_lia. unfold fbyte, BSIZE. rewrite Hblk, Hv by done.
    assert (p < i_size n `max` o → fbyte t1 n1 p = if decide (off ≤ p < o) then default 0 (w !! Z.to_nat (p - off)) else fbyte t n p) as Hold
      by (intros; apply (wr_byte _ _ _ _ _ _ _ W); lia).
    assert (p < i_size n `max` o → blk_of t1 n1 (p / 1024) ≠ 0) as Hne by (intros; apply (wr_alloc _ _ _ _ _ _ _ W); unfold BSIZE; div_lia).
    assert (b = blk_of t1 n1 (p / 1024) → p / 1024 = o / 1024) as Hinj.
    { intros E. symmetry. apply (fw_inj _ _ _ (wr_wf _ _ _ _ _ _ _ W)); [div_lia|lia| |]; by rewrite !fblk_data by div_lia. }
    destruct (decide (o ≤ p < o + Z.of_nat (length c))) as [Hin|Hout].
    + assert (p / 1024 = o / 1024) as Ep by div_lia. rewrite Ep. fold b. rewrite !decide_True by (done || lia). unfold d, block in *.
      rewrite list_lookup_inserts by (rewrite ?Hl; unfold BSIZE; div_lia). rewrite lookup_app_r by lia. do 2 f_equal. div_lia.
    + assert (p < i_size n `max` o) as Hlt by lia.
      trans (fbyte t1 n1 p).
      * unfold fbyte, BSIZE. destruct (decide (b = blk_of t1 n1 (p / 1024))) as [E|E]; [|done]. rewrite <- E. unfold d, block in *. specialize (Hinj E).
        destruct (decide (p < o)); [rewrite list_lookup_inserts_lt by div_lia|rewrite list_lookup_inserts_ge by div_lia]; done.
      * rewrite Hold by done. destruct (decide (off ≤ p < o)); [|by rewrite decide_False by lia].
        rewrite decide_True by lia. by rewrite lookup_app_l by lia.
  - intros x Hx Hux. rewrite Hu by done. by eapply wr_used.
  - intros i Hi. rewrite Hf by done. by eapply wr_blk.
  - intros x Hx Hux Hm Hown. rewrite Hv. assert (b = fblk t1 n1 (o / 1024)) as Eb by (by rewrite fblk_data by div_lia).
    rewrite decide_False; [by eapply wr_view|]. intros E. destruct (wr_blk _ _ _ _ _ _ _ W (o / 1024) ltac:(div_lia)) as [E1|E1]; [by rewrite <- Eb| |].
    + apply (Hown (o / 1024)); [div_lia|]. rewrite E1, <- Eb. done.
    + rewrite <- Eb, E in E1. congruence.
Qed.

(** *** The end of a write: the size, and the inode on disk *)

Definition sized (off m : Z) (n n' : inode) : inode := set_isize (i_size n `max` (off + m)) n'.

(** The file after a write of [w] at [off], and the rest of the disk. *)
Record written (k : superblock) (t : tstore) (n : inode) (off : Z) (w : list Z) (t' : tstore) (n' : inode) : Prop := {
  wn_meta : n' = set_isize (i_size n `max` (off + Z.of_nat (length w))) (set_addrs (i_addrs n') n);
  wn_wf : file_wf k t' n';
  wn_disk : disk_ok k t';
  wn_log : logs k t t';
  wn_holes : no_holes t' n';
  wn_bytes : fbytes t' n' = take (Z.to_nat off) (fbytes t n) ++ w ++ drop (Z.to_nat off + length w) (fbytes t n);
  wn_inode m : inode_typed n → imeta (disk_inode t' k (i_inum n) m) = imeta n';
  wn_inodes j m : 0 ≤ j < sb_ninodes k → j ≠ i_inum n → disk_inode t' k j m = disk_inode t k j m;
  wn_used b : 0 ≤ b < sb_size k → used t k b = true → used t' k b = true;
  wn_blk i : -1 ≤ i < MAXFILE → fblk t' n' i ≠ 0 → fblk t n i = fblk t' n' i ∨ used t k (fblk t' n' i) = false;
  wn_view b : 0 < b < sb_size k → used t k b = true → ¬ meta_block k b → (∀ i, -1 ≤ i < MAXFILE → b ≠ fblk t n i) → tview t' b = tview t b
}.

Section written.
Context (k : superblock) (t : tstore) (n : inode) (off : Z) (w : list Z) (t1 : tstore) (n1 : inode).
Context (W : wrote k t n off w t1 n1) (Hl : ∀ x, length (tview t1 x) = Z.to_nat BSIZE) (Hinum : 0 ≤ i_inum n < sb_ninodes k).
Context (Hw : file_wf k t n) (Hd : disk_ok k t) (Hoff : 0 ≤ off ≤ i_size n) (Hmax : i_size n `max` (off + Z.of_nat (length w)) ≤ MAXFILE * BSIZE).
Let n2 := sized off (Z.of_nat (length w)) n n1.
Let t2 := inode_logged n2 k t1.

Lemma inum_same : i_inum n2 = i_inum n.
Proof. unfold n2. simpl. by rewrite (wr_meta _ _ _ _ _ _ _ W). Qed.

Lemma iblock_of : inode_block k (IBLOCK (i_inum n2) k).
Proof. rewrite inum_same. by exists (i_inum n). Qed.

Lemma iupdate_view x : ¬ meta_block k x → tview t2 x = tview t1 x.
Proof.
  intros Hx. unfold t2, inode_logged. rewrite tview_logged, decide_False; [done|]. intros E. apply Hx. right; left. rewrite <- E. apply iblock_of.
Qed.

Lemma iupdate_fblk i : -1 ≤ i < MAXFILE → fblk t2 n2 i = fblk t1 n1 i.
Proof.
  intros Hi. destruct (decide (addr_at n1 NDIRECT = 0)) as [E|E].
  - unfold fblk, blk_of. assert (∀ j, addr_at n2 j = addr_at n1 j) as Ha by done. rewrite !Ha, E. done.
  - apply fblk_same; [done| |done]. apply iupdate_view. by apply (addr_at_data k t1 n1 (wr_wf _ _ _ _ _ _ _ W)).
Qed.

Lemma iupdate_used x : 0 ≤ x < sb_size k → used t2 k x = used t1 k x.
Proof.
  intros Hx. apply used_logged. intros E. destruct (wr_disk _ _ _ _ _ _ _ W) as (_ & _ & _ & _ & Hdis & _).
  apply (Hdis (IBLOCK (i_inum n2) k) iblock_of). exists x. done.
Qed.

Lemma iupdate_byte p : 0 ≤ p < i_size n `max` (off + Z.of_nat (length w)) → fbyte t2 n2 p = fbyte t1 n1 p.
Proof.
  intros Hp. unfold fbyte. assert (0 ≤ p / BSIZE < MAXFILE) as Hr by (unfold BSIZE in *; div_lia).
  pose proof (iupdate_fblk (p / BSIZE) ltac:(lia)) as E. rewrite !fblk_data in E by lia. rewrite E.
  assert (blk_of t1 n1 (p / BSIZE) ≠ 0) as Hne by (apply (wr_alloc _ _ _ _ _ _ _ W); unfold BSIZE in *; div_lia).
  rewrite iupdate_view; [done|]. rewrite <- fblk_data in Hne |- * by lia. by apply (fw_data _ _ _ (wr_wf _ _ _ _ _ _ _ W)); [lia|].
Qed.

Lemma fbytes_written : fbytes t2 n2 = take (Z.to_nat off) (fbytes t n) ++ w ++ drop (Z.to_nat off + length w) (fbytes t n).
Proof.
  assert (i_size n2 = i_size n `max` (off + Z.of_nat (length w))) as Esz by done.
  assert (Z.of_nat (length (fbytes t n)) = i_size n) as Elen by (apply length_fbytes; lia).
  apply list_eq. intros p. destruct (decide (Z.of_nat p < i_size n `max` (off + Z.of_nat (length w)))) as [Hp|Hp].
  - rewrite lookup_fbytes by lia. rewrite iupdate_byte, (wr_byte _ _ _ _ _ _ _ W) by lia.
    destruct (decide (p < Z.to_nat off)%nat) as [H1|H1].
    + rewrite lookup_app_l by (rewrite length_take; lia). rewrite lookup_take_lt, lookup_fbytes by lia. by rewrite decide_False by lia.
    + rewrite lookup_app_r by (rewrite length_take; lia). rewrite length_take_le by lia.
      destruct (decide (p < Z.to_nat off + length w)%nat) as [H2|H2].
      * rewrite lookup_app_l by lia. rewrite decide_True by lia. replace (Z.to_nat (Z.of_nat p - off)) with (p - Z.to_nat off)%nat by lia.
        destruct (lookup_lt_is_Some_2 w (p - Z.to_nat off)) as [c Hc]; [lia|]. by rewrite Hc.
      * rewrite lookup_app_r by lia. rewrite lookup_drop, decide_False by lia.
        replace (Z.to_nat off + length w + (p - Z.to_nat off - length w))%nat with p by lia. rewrite lookup_fbytes by lia. done.
  - rewrite lookup_fbytes_ge by lia. symmetry. apply lookup_ge_None. rewrite !length_app, length_take, length_drop. lia.
Qed.

Lemma addrs_typed : Forall (λ a, 0 ≤ a < 2 ^ 32) (i_addrs n1).
Proof.
  pose proof (wr_wf _ _ _ _ _ _ _ W) as Hw1. destruct (wr_disk _ _ _ _ _ _ _ W) as (_ & Hs & _).
  apply Forall_lookup. intros i a Ha. pose proof (lookup_lt_Some _ _ _ Ha) as Hi. rewrite (fw_len _ _ _ Hw1) in Hi.
  assert (addr_at n1 (Z.of_nat i) = a) as E. { unfold addr_at, getZ. rewrite decide_True by lia. by rewrite Nat2Z.id, Ha. }
  destruct (decide (a = 0)) as [->|Hne]; [lia|]. pose proof (fblk_slot t1 n1 (Z.of_nat i) ltac:(unfold NDIRECT; lia)) as E2. rewrite E in E2.
  destruct (fw_data _ _ _ Hw1 (slot_index (Z.of_nat i))) as (H1 & _).
  { unfold slot_index. change MAXFILE with 268. unfold NDIRECT in *. case_if; lia. }
  { by rewrite E2. }
  rewrite E2 in H1. lia.
Qed.

Lemma wrote_written : written k t n off w t2 n2.
Proof.
  pose proof (wr_wf _ _ _ _ _ _ _ W) as Hw1. pose proof (wr_disk _ _ _ _ _ _ _ W) as Hd1. pose proof (wr_meta _ _ _ _ _ _ _ W) as Em.
  split.
  - unfold n2, sized. rewrite Em at 1. done.
  - split; [apply Hw1| |].
    + intros i Hi. rewrite iupdate_fblk by done. intros Hne. destruct (fw_data _ _ _ Hw1 i Hi Hne) as (H1 & H2 & H3).
      split; [done|]. split; [|done]. rewrite iupdate_used by lia. done.
    + intros i j Hi Hj. rewrite !iupdate_fblk by done. by apply (fw_inj _ _ _ Hw1).
  - apply (disk_ok_step k t1 Hd1); [apply Hd1|]. intros b Hb. by rewrite iupdate_used.
  - destruct Hd1 as (_ & _ & _ & Hm & _ & Hlg). pose proof iblock_of as Hib. pose proof (Hm _ ltac:(right; by left)) as Hr.
    unfold t2, inode_logged. apply logs_logged; [by eapply wr_log|lia|]. intros Hlb. by destruct (Hlg _ Hlb).
  - split; [unfold n2; simpl; lia|]. intros bn Hbn Hlt. change (i_size n2) with (i_size n `max` (off + Z.of_nat (length w))) in Hlt.
    assert (bn < MAXFILE) by (unfold BSIZE in *; lia). rewrite <- fblk_data, iupdate_fblk, fblk_data by lia. by eapply wr_alloc.
  - apply fbytes_written.
  - intros m Ht. rewrite <- inum_same. apply disk_inode_same; [|done]. destruct Ht as (T1 & T2 & T3 & T4 & T5 & T6 & T7).
    unfold n2, sized, inode_typed; simpl. rewrite Em; simpl. do 4 (split; [done|]). split; [change (MAXFILE * BSIZE) with 274432 in *; lia|].
    split; [apply Hw1|apply addrs_typed].
  - intros j m Hj Hne. unfold t2. rewrite disk_inode_other; [|by rewrite inum_same|done]. unfold disk_inode.
    assert (inode_block k (IBLOCK j k)) as Hib by (by exists j). destruct Hd as (_ & _ & Hu & Hm & Hdis & _).
    assert (meta_block k (IBLOCK j k)) as Hmb by (by right; left). pose proof (Hm _ Hmb) as Hr.
    rewrite (wr_view _ _ _ _ _ _ _ W); [done|done|apply Hu; [by right|lia]|by apply Hdis|].
    intros i Hi E. destruct (fw_data _ _ _ Hw i Hi) as (_ & _ & H3); [rewrite <- E; lia|]. by rewrite <- E in H3.
  - intros b Hb Hu. rewrite iupdate_used by done. by eapply wr_used.
  - intros i Hi. rewrite iupdate_fblk by done. by eapply wr_blk.
  - intros b Hb Hu Hm Hown. rewrite iupdate_view by done. eapply wr_view; [done|done|done|intros ?; by apply Hm; left|done].
Qed.
End written.

(** *** [writei] *)

(** How many blocks start in [o, e), and how many blocks a write may log: two
    for each of them (the block and its bit of the free map), the block it
    starts in, the indirect block with its bit, and the inode. *)
Definition blocks_from (o e : Z) : Z := (e + (BSIZE - 1)) / BSIZE - (o + (BSIZE - 1)) / BSIZE.
Definition rest_cost (off len tot : Z) : Z :=
  2 * blocks_from (off + tot) (off + len) + (if decide (tot = len ∨ (off + tot) mod BSIZE = 0) then 0 else 1).
Definition write_cost (off len : Z) : Z := rest_cost off len 0 + 3.

(** A turn of the loop. *)
Lemma rest_cost_step off len tot m : 0 ≤ off → 0 ≤ tot < len → m = Z.min (len - tot) (BSIZE - (off + tot) mod BSIZE) →
  rest_cost off len tot = rest_cost off len (tot + m) + (if decide ((off + tot) mod BSIZE = 0) then 2 else 1).
Proof.
  intros Ho Ht Hm. unfold rest_cost, blocks_from, BSIZE in *. rewrite Z.add_assoc. set (o := off + tot) in *.
  assert (0 < m) by div_lia. assert (tot + m = len ∨ (o + m) mod 1024 = 0) as Hend by div_lia.
  rewrite (decide_True (P := tot + m = len ∨ _)) by done. destruct (decide (o mod 1024 = 0)) as [E|E].
  - rewrite decide_True by (by right). div_lia.
  - rewrite decide_False by (intros [?|?]; [lia|done]). div_lia.
Qed.

Lemma rest_cost_nonneg off len tot : tot ≤ len → 0 ≤ rest_cost off len tot.
Proof. intros. unfold rest_cost, blocks_from, BSIZE. case_decide; div_lia. Qed.

(** A write of as many bytes as [filewrite] puts in a transaction. *)
Lemma write_cost_bound off len : 0 ≤ off → 0 ≤ len ≤ ((MAXOPBLOCKS - 1 - 1 - 2) / 2) * BSIZE → write_cost off len ≤ MAXOPBLOCKS.
Proof.
  unfold write_cost, rest_cost, blocks_from, MAXOPBLOCKS, BSIZE. change ((10 - 1 - 1 - 2) / 2 * 1024) with 3072. intros.
  rewrite Z.add_0_r. case_decide; div_lia.
Qed.

Section write.
Context {St : Type} `{TX : Txn St, !TxnOk St}.
Implicit Types (s : St) (f : fsst) (t : tstore).

(** Copies of a part of a block copy all of it, or nothing. *)
Definition all_or_nothing (cp : Z → Z → Z) : Prop := ∀ a m, 0 < m → cp a m = m ∨ cp a m = 0.

(** The loop of [writei] ends with [r] bytes written; when it ends early the
    disk is full or a copy has failed. *)
Definition write_end ip n f t (cp : Z → Z → Z) off (src : list Z) (r : Z) (σ : fst_ (St := St)) : Prop :=
  let k := sb f in let len := Z.of_nat (length src) in
  ∃ t1 n1, tx_rep (fst σ) t1 ∧ snd σ = put_inode ip n1 f ∧ 0 ≤ r ≤ len ∧ wrote k t n off (take (Z.to_nat r) src) t1 n1 ∧
    t_room t - write_cost off len ≤ t_room t1 - 1 ∧
    (r < len → (∀ b, 0 ≤ b < sb_size k → used t1 k b = true) ∨ ∃ a m, 0 < m ∧ cp a m = 0).

Lemma writei_loop ip n s f t cp srcaddr src off fuel : let k := sb f in let len := Z.of_nat (length src) in
  all_or_nothing cp → tx_rep s t → inodes f !! ip = Some n → i_dev n = ROOTDEV → disk_ok k t → file_wf k t n → no_holes t n →
  0 ≤ off ≤ i_size n → off + len ≤ MAXFILE * BSIZE → write_cost off len ≤ t_room t → (length src < fuel)%nat →
  wp (while_ fuel
      (λ tot,
        if negb (tot <? len) then mret (inr tot)
        else
          let off := off + tot in
          addr ← bmap ip (off / BSIZE);
          if addr =? 0 then mret (inr tot)
          else
            bp ← tio (tx_read (i_dev n) addr);
            let m := Z.min (len - tot) (BSIZE - off mod BSIZE) in
            d ← tio (tx_data bp);
            let c := Z.min m (cp (srcaddr + tot) m) in
            tio (tx_set_data bp (list_inserts (Z.to_nat (off mod BSIZE)) (take (Z.to_nat c) (drop (Z.to_nat tot) src)) d));;
            if c <? m then tio (tx_relse bp);; mret (inr tot)
            else
              tio (tx_log bp);;
              tio (tx_relse bp);;
              mret (inl (tot + m)))
      0) (s, f) (write_end ip n f t cp off src).
Proof.
  intros k len Hcp R Hn Hd Hok Hw Hh Hoff Hmax Hroom Hfuel.
  apply (wp_while (λ tot σ, ∃ t1 n1, tx_rep (fst σ) t1 ∧ snd σ = put_inode ip n1 f ∧ 0 ≤ tot ≤ len ∧
      wrote k t n off (take (Z.to_nat tot) src) t1 n1 ∧
      t_room t - write_cost off len ≤ t_room t1 - ind_cost t1 n1 - rest_cost off len tot - 1) (λ tot, Z.to_nat (len - tot))).
  2: { exists t, n. split; [done|]. split; [by rewrite put_inode_id|]. split; [lia|]. split; [by apply wrote_refl|].
       pose proof (ind_cost_range t n). unfold write_cost. lia. }
  2: lia.
  intros tot [s1 f1] (t1 & n1 & R1 & Ef & Htot & W & Hr). simpl in R1, Ef. subst f1.
  pose proof (ind_cost_range t1 n1) as Hic.
  pose proof (rest_cost_nonneg off len tot ltac:(lia)) as Hrc. destruct (Z.ltb_spec tot len) as [Hlt|Hge]; simpl negb; cbv iota.
  2: { apply wp_ret. exists t1, n1. do 4 (split; [done|]). fold len. split; [lia|]. intros ?. lia. }
  cbv zeta. set (o := off + tot) in *. pose proof (wr_wf _ _ _ _ _ _ _ W) as Hw1. pose proof (wr_disk _ _ _ _ _ _ _ W) as Hd1.
  assert (length (take (Z.to_nat tot) src) = Z.to_nat tot) as Elen by (rewrite length_take; lia).
  assert (0 ≤ o / BSIZE < MAXFILE) as Hbn by (change MAXFILE with 268 in *; unfold BSIZE in *; div_lia).
  set (m := Z.min (len - tot) (BSIZE - o mod BSIZE)).
  pose proof (rest_cost_step off len tot m (proj1 Hoff) ltac:(lia) eq_refl) as Hstep. fold o in Hstep.
  assert (o mod BSIZE ≠ 0 → blk_of t1 n1 (o / BSIZE) ≠ 0) as Hpart.
  { intros Hne. apply (wr_alloc _ _ _ _ _ _ _ W); [lia|]. rewrite Elen. unfold BSIZE in *. div_lia. }
  assert (0 < m ≤ len - tot ∧ m ≤ BSIZE - o mod BSIZE) as [Hm1 Hm2] by (unfold m, BSIZE in *; div_lia).
  pose proof (rest_cost_nonneg off len (tot + m) ltac:(lia)) as Hrc2.
  wp_steps. eapply (bmap_ok ip n1 s1 (put_inode ip n1 f) t1 (o / BSIZE)); try done.
  - by eapply put_inode_eq.
  - by rewrite (wr_meta _ _ _ _ _ _ _ W).
  - revert Hstep. destruct (decide (o mod BSIZE = 0)) as [E|E]; intros Hstep; [case_if; lia|]. apply Hpart, Z.eqb_neq in E. rewrite E. lia.
  - intros s2 t2 n2 R2 G W2 D2 Hfull Hnew Hr2. rewrite put_inode_twice.
    assert (wrote k t n off (take (Z.to_nat tot) src) t2 n2) as Wr2 by (eapply wrote_grown; try done; rewrite Elen; destruct Hh; lia).
    assert (t_room t - write_cost off len ≤ t_room t2 - ind_cost t2 n2 - rest_cost off len (tot + m) - 1 - (if decide (blk_of t1 n1 (o / BSIZE) = 0) then 0 else 1)) as Hr3.
    { revert Hstep. destruct (decide (o mod BSIZE = 0)) as [E|E]; intros Hstep.
      - destruct (decide (blk_of t1 n1 (o / BSIZE) = 0)) as [E2|E2]; [rewrite E2 in Hr2; simpl in Hr2; lia|apply Z.eqb_neq in E2; rewrite E2 in Hr2; lia].
      - apply Hpart in E. rewrite decide_False by done. apply Z.eqb_neq in E. rewrite E in Hr2. lia. }
    pose proof (ind_cost_range t2 n2) as Hic2.
    destruct (blk_of t2 n2 (o / BSIZE) =? 0) eqn:Eb; bool_prop.
    { apply wp_ret. exists t2, n2. do 4 (split; [done|]). fold len. split; [case_decide; lia|]. intros _. left. by apply Hfull. }
    wp_steps. rewrite Hd. pose proof (proj1 D2) as Hlk. eapply wp_tread; [done|unfold may_read; by rewrite Hlk|]. intros i s3 R3 h3 _. wp_steps.
    eapply wp_tdata; [done|done|simpl; apply lookup_insert_eq|]. cbv zeta.
    change (Z.min (len - tot) (BSIZE - o mod BSIZE)) with m. destruct (Hcp (srcaddr + tot) m (proj1 Hm1)) as [Ecp|Ecp]; rewrite Ecp.
    + rewrite Z.min_id, Z.ltb_irrefl. set (c := take (Z.to_nat m) (drop (Z.to_nat tot) src)). assert (length c = Z.to_nat m) as Ec by (unfold c; rewrite length_take, length_drop; lia).
      assert (∀ x, length (tview t2 x) = Z.to_nat BSIZE) as Hl2 by (intros; by eapply tx_wf).
      set (b := blk_of t2 n2 (o / BSIZE)) in *. set (d := list_inserts (Z.to_nat (o mod BSIZE)) c (tview t2 b)).
      assert (take (Z.to_nat (tot + m)) src = take (Z.to_nat tot) src ++ c) as Esrc by (unfold c; rewrite Z2Nat.inj_add, take_add_drop by lia; done).
      eapply wp_tstore; [done|done|by rewrite Hlk|unfold d; rewrite length_inserts; apply Hl2| |].
      * unfold may_log. destruct (decide (blk_of t1 n1 (o / BSIZE) = 0)) as [E|E]; [left; by apply Hnew|right; lia].
      * intros s4 R4 _. wp_steps. split; [|lia]. exists (logged b d t2), n2. split; [done|]. split; [done|]. split; [lia|]. split.
        -- rewrite Esrc. pose proof (wrote_data k t n off (take (Z.to_nat tot) src) t2 n2 c) as Hwd. rewrite Elen in Hwd.
           replace (off + Z.of_nat (Z.to_nat tot)) with o in Hwd by lia. apply Hwd; try done; [rewrite Ec; lia|rewrite Ec; destruct Hh; lia|lia].
        -- assert (ind_cost (logged b d t2) n2 ≤ ind_cost t2 n2) by (apply ind_cost_le; [done|simpl; set_solver]).
           destruct (decide (blk_of t1 n1 (o / BSIZE) = 0)) as [E|E].
           ++ assert (t_room (logged b d t2) = t_room t2) by (simpl; apply decide_True; by apply Hnew). lia.
           ++ pose proof (room_logged b d t2). lia.
    + rewrite Z.min_r by lia. replace (0 <? m) with true by (symmetry; apply Z.ltb_lt; lia). simpl list_inserts.
      wp_steps. eapply wp_tset_same; [done|done|]. clear s3 R3 h3. intros s3 R3 h3. wp_steps. eapply wp_trelse; [done|done|by rewrite Hlk|]. intros s4 R4 _. wp_steps. exists t2, n2. do 4 (split; [done|]).
      fold len. split; [case_decide; lia|]. intros _. right. exists (srcaddr + tot), m. split; [lia|done].
Qed.

Lemma writei_ok ip n s f t cp srcaddr src off (Q : Z → fst_ → Prop) : let k := sb f in let len := Z.of_nat (length src) in
  all_or_nothing cp → tx_rep s t → inodes f !! ip = Some n → i_dev n = ROOTDEV → 0 ≤ i_inum n < sb_ninodes k →
  disk_ok k t → file_wf k t n → no_holes t n → 0 ≤ off ≤ i_size n → off + len ≤ MAXFILE * BSIZE → write_cost off len ≤ t_room t →
  (∀ s' t' n' r, tx_rep s' t' → 0 ≤ r ≤ len → written k t n off (take (Z.to_nat r) src) t' n' →
     t_room t - write_cost off len ≤ t_room t' → (r < len → (∀ b, 0 ≤ b < sb_size k → used t' k b = true) ∨ ∃ a m, 0 < m ∧ cp a m = 0) →
     Q r (s', put_inode ip n' f)) →
  wp (writei ip cp srcaddr src off) (s, f) Q.
Proof.
  intros k len Hcp R Hn Hd Hi Hok Hw Hh Hoff Hmax Hroom HQ. unfold writei. wp_steps. eapply wp_inode_at; [done|]. fold len.
  assert (0 ≤ i_size n ≤ 274432) as Hsz by (destruct Hh as [Hs _]; by change (MAXFILE * BSIZE) with 274432 in Hs).
  change (MAXFILE * BSIZE) with 274432 in *. assert (u32 (off + len) = off + len) as Eu by (unfold u32; apply Z.mod_small; lia).
  rewrite Eu. replace (off >? i_size n) with false by (symmetry; rewrite Z.gtb_ltb; apply Z.ltb_ge; lia).
  replace (off + len <? off) with false by (symmetry; apply Z.ltb_ge; lia).
  replace (off + len >? 274432) with false by (symmetry; rewrite Z.gtb_ltb; apply Z.ltb_ge; lia). simpl orb. cbv iota.
  wp_steps. eapply wp_mono; [eapply (writei_loop ip n s f t cp srcaddr src off); try done; unfold len; lia|]. cbv beta.
  intros r [s1 f1] (t1 & n1 & R1 & Ef & Hr & W & Hr1 & Hend). simpl in R1, Ef. subst f1. fold len k in Hr, W, Hr1, Hend.
  assert (Z.of_nat (length (take (Z.to_nat r) src)) = r) as Elen by (rewrite length_take; lia).
  wp_steps. eapply wp_inode_at; [by eapply put_inode_eq|]. pose proof (wr_meta _ _ _ _ _ _ _ W) as Em.
  assert (i_size n1 = i_size n) as Esz by (by rewrite Em). set (n2 := sized off r n n1).
  assert (wp (iupdate ip;; mret r) (s1, put_inode ip n2 f) Q) as Hfin.
  { assert (i_inum n2 = i_inum n) as Einum by (unfold n2; simpl; by rewrite Em). pose proof (proj1 (wr_disk _ _ _ _ _ _ _ W)) as Hlk.
    wp_steps. eapply (iupdate_ok ip n2 s1 (put_inode ip n2 f) t1); [done|by eapply put_inode_eq|unfold n2; simpl; by rewrite Em| | |].
    - unfold may_read. by rewrite Hlk.
    - right. lia.
    - intros s2 R2 _. wp_steps. apply (HQ s2 (inode_logged n2 k t1) n2 r); try done.
      + pose proof (wrote_written k t n off (take (Z.to_nat r) src) t1 n1 W) as Hww. rewrite Elen in Hww. apply Hww; try done; [intros; by eapply tx_wf|change (MAXFILE * BSIZE) with 274432; lia].
      + pose proof (room_logged (IBLOCK (i_inum n2) k) (write_dinode n2 (dinode_off (i_inum n2)) (tview t1 (IBLOCK (i_inum n2) k))) t1).
        unfold inode_logged. lia.
      + intros Hlt. destruct (Hend Hlt) as [Hfull|Hf]; [left|by right]. intros b Hb.
        pose proof (iupdate_used k t n off (take (Z.to_nat r) src) t1 n1 W) as Hu. rewrite Elen in Hu. fold n2 in Hu. rewrite Hu by done. by apply Hfull. }
  destruct (off + r >? i_size n1) eqn:E; wp_steps.
  - eapply wp_upd_inode; [by eapply put_inode_eq|]. rewrite put_inode_twice. replace (set_isize (off + r) n1) with n2; [exact Hfin|].
    unfold n2, sized. f_equal. rewrite Esz in E. lia.
  - assert (n2 = n1) as E1; [|rewrite E1 in Hfin; exact (wp_bind_inv _ _ _ _ Hfin)]. unfold n2, sized. replace (i_size n `max` (off + r)) with (i_size n1) by lia. by destruct n1.
Qed.

(** Writes the file system refuses. *)
Lemma writei_refused ip n s f cp srcaddr src off : inodes f !! ip = Some n →
  0 ≤ off < 2 ^ 32 → Z.of_nat (length src) < 2 ^ 32 → i_size n < off ∨ MAXFILE * BSIZE < off + Z.of_nat (length src) →
  writei ip cp srcaddr src off (s, f) = Ok (-1, (s, f)).
Proof.
  intros Hn Hoff Hlen Hr. assert (wp (writei ip cp srcaddr src off) (s, f) (λ r σ, r = -1 ∧ σ = (s, f))) as W.
  { unfold writei. wp_steps. eapply wp_inode_at; [done|]. change (MAXFILE * BSIZE) with 274432 in *. set (len := Z.of_nat (length src)) in *.
    destruct ((off >? i_size n) || (u32 (off + len) <? off)) eqn:E; [by apply wp_ret|].
    destruct (u32 (off + len) >? 274432) eqn:E2; [by apply wp_ret|]. exfalso. apply orb_false_iff in E as [E1 E3]. unfold u32 in *. bool_prop. div_lia. }
  destruct (wp_ok _ _ _ W) as (r & σ & E & -> & ->). done.
Qed.
End write.
