(* ===== verification/FsFrame.v ===== *)
(** Files that an operation does not touch: the blocks and the bytes of a file
    when its blocks are the same in two stores. *)
From S2P Require Import Prelude Bytes Bio Txn Fs FsBlocks FsInode FsWrite.

(** ** Definitions *)

(** Two files have no block in common. *)
Definition apart (t : tstore) (n m : inode) : Prop :=
  ∀ i j, -1 ≤ i < MAXFILE → -1 ≤ j < MAXFILE → fblk t n i = fblk t m j → fblk t n i = 0.

(** ** Lemmas *)

Section agree.
Context (t t' : tstore) (n : inode).
Context (Hv : ∀ i, -1 ≤ i < MAXFILE → fblk t n i ≠ 0 → tview t' (fblk t n i) = tview t (fblk t n i)).

Lemma agree_fblk i : -1 ≤ i < MAXFILE → fblk t' n i = fblk t n i.
Proof.
  intros Hi. destruct (decide (addr_at n NDIRECT = 0)) as [E|E].
  - unfold fblk, blk_of. by rewrite E.
  - apply fblk_same; [done| |done]. by apply (Hv (-1)).
Qed.

Lemma agree_no_holes : no_holes t n → no_holes t' n.
Proof.
  intros [Hsz Ha]. split; [done|]. intros bn Hbn Hlt. assert (bn < MAXFILE) by (unfold BSIZE in *; lia).
  rewrite <- fblk_data, agree_fblk, fblk_data by lia. by apply Ha.
Qed.

Lemma agree_fbytes : no_holes t n → fbytes t' n = fbytes t n.
Proof.
  intros [Hsz Ha]. unfold fbytes. apply list_fmap_ext. intros i p Hp. apply lookup_seqZ in Hp as [-> Hp].
  assert (0 ≤ (0 + Z.of_nat i) / BSIZE < MAXFILE) as Hr by (change MAXFILE with 268 in *; unfold BSIZE in *; div_lia).
  unfold fbyte. pose proof (agree_fblk ((0 + Z.of_nat i) / BSIZE) ltac:(lia)) as E. rewrite !fblk_data in E by lia. rewrite E.
  rewrite <- !fblk_data by lia. rewrite Hv; [done|lia|]. rewrite fblk_data by lia. apply Ha; [lia|]. unfold BSIZE. div_lia.
Qed.

Lemma agree_file_wf k : (∀ b, 0 ≤ b < sb_size k → used t k b = true → used t' k b = true) → file_wf k t n → file_wf k t' n.
Proof.
  intros Hu [Hlen Hdata Hinj]. split; [done| |].
  - intros i Hi. rewrite agree_fblk by done. intros Hne. destruct (Hdata i Hi Hne) as (H1 & H2 & H3).
    split; [done|]. split; [|done]. apply Hu; [lia|done].
  - intros i j Hi Hj. rewrite !agree_fblk by done. by apply Hinj.
Qed.
End agree.

(** Stores that differ in the log only. *)
Section same.
Context (k : superblock) (t t' : tstore).
Context (Hok : disk_ok k t) (Hl : t_locked t' = ∅) (Hs : ∀ b, ¬ log_block k b → tview t' b = tview t b).

Lemma same_used b : 0 ≤ b < sb_size k → used t' k b = used t k b.
Proof.
  intros Hb. unfold used. rewrite Hs; [done|]. destruct Hok as (_ & _ & _ & _ & _ & Hd). intros Hlb. destruct (Hd _ Hlb) as [Hm _].
  apply Hm. by exists b.
Qed.

Lemma same_disk_ok : disk_ok k t'.
Proof. apply (disk_ok_step k t Hok); [done|]. intros b Hb. by rewrite same_used. Qed.

Lemma same_view n : file_wf k t n → ∀ i, -1 ≤ i < MAXFILE → fblk t n i ≠ 0 → tview t' (fblk t n i) = tview t (fblk t n i).
Proof. intros Hw i Hi Hne. apply Hs. intros Hlb. destruct (fw_data _ _ _ Hw i Hi Hne) as (_ & _ & Hm). apply Hm. by right; right. Qed.

Lemma same_file_wf n : file_wf k t n → file_wf k t' n.
Proof. intros Hw. apply (agree_file_wf t); [by apply same_view| |done]. intros b Hb. by rewrite same_used. Qed.

Lemma same_apart n m : file_wf k t n → file_wf k t m → apart t n m → apart t' n m.
Proof.
  intros Hn Hm Ha i j Hi Hj. rewrite !(agree_fblk t t') by (by first [done|apply same_view]). by apply Ha.
Qed.
End same.

(** The other files after a write. *)
Section other.
Context (k : superblock) (t : tstore) (n m : inode) (off : Z) (w : list Z) (t' : tstore) (n' : inode).
Context (W : written k t n off w t' n') (Hm : file_wf k t m) (Ha : apart t n m).

Lemma other_view j : -1 ≤ j < MAXFILE → fblk t m j ≠ 0 → tview t' (fblk t m j) = tview t (fblk t m j).
Proof.
  intros Hj Hne. destruct (fw_data _ _ _ Hm j Hj Hne) as (H1 & H2 & H3). apply (wn_view _ _ _ _ _ _ _ W); try done.
  intros i Hi E. apply Hne. rewrite E. by apply (Ha i j).
Qed.

Lemma other_file_wf : file_wf k t' m.
Proof. apply (agree_file_wf t); [by apply other_view|by eapply wn_used|done]. Qed.

Lemma other_apart : apart t' n' m.
Proof.
  intros i j Hi Hj. rewrite (agree_fblk t t' m) by (by first [done|apply other_view]). intros E.
  destruct (decide (fblk t' n' i = 0)) as [|Hne]; [done|].
  destruct (wn_blk _ _ _ _ _ _ _ W i Hi Hne) as [E1|E1].
  - rewrite <- E1. apply (Ha i j); [done|done|]. by rewrite E1.
  - exfalso. rewrite E in E1, Hne. destruct (fw_data _ _ _ Hm j Hj Hne) as (_ & H2 & _). congruence.
Qed.
End other.
