(* ===== verification/FsDir.v ===== *)
(** The table of in-memory inodes: [iget], [idup] and the end of [iput].
    Directories and path names: [namecmp], [dirlookup] and [skipelem] against
    the names and the path components they stand for. *)
From S2P Require Import Prelude Bytes Bio Txn Fs FsBlocks FsInode.

(** ** Definitions *)

Definition holds_inode (dev inum : Z) (n : inode) : Prop := 0 < i_ref n ∧ i_dev n = dev ∧ i_inum n = inum.
Global Instance holds_inode_dec dev inum n : Decision (holds_inode dev inum n).
Proof. unfold holds_inode. apply _. Defined.

(** At most one entry of the table is in use for an inode, and the entries
    have no negative reference counts. *)
Definition itable_ok (l : list inode) : Prop :=
  (∀ i n, l !! i = Some n → 0 ≤ i_ref n) ∧
  ∀ i j n m, l !! i = Some n → l !! j = Some m → 0 < i_ref n → holds_inode (i_dev n) (i_inum n) m → i = j.

(** The references held to an inode. *)
Definition irefs (l : list inode) (dev inum : Z) : Z :=
  Z.of_nat (sum_list_with (λ n, if decide (holds_inode dev inum n) then Z.to_nat (i_ref n) else O) l).

(** The name in a field of [n] bytes: what comes before the first NUL. *)
Fixpoint cname (n : nat) (l : list Z) : list Z :=
  match n, l with
  | S n', x :: l' => if x =? 0 then [] else x :: cname n' l'
  | _, _ => []
  end.
Definition is_bytes (l : list Z) : Prop := Forall (λ x, 0 ≤ x < 256) l.

(** The entry at offset [off] of a directory. *)
Definition slot (t : tstore) (n : inode) (off : Z) : dirent :=
  parse_dirent (take (Z.to_nat DIRENT) (drop (Z.to_nat off) (fbytes t n))).
Definition matches (name : list Z) (de : dirent) : Prop :=
  de_inum de ≠ 0 ∧ cname (Z.to_nat DIRSIZ) name = cname (Z.to_nat DIRSIZ) (de_name de).
Global Instance matches_dec name de : Decision (matches name de).
Proof. unfold matches. apply _. Defined.

(** The components of a path: what is between its slashes, cut to [DIRSIZ]. *)
Fixpoint split_slash (path : list Z) : list (list Z) :=
  match path with
  | [] => [[]]
  | x :: path' =>
      if x =? slash then [] :: split_slash path'
      else match split_slash path' with
           | e :: es => (x :: e) :: es
           | [] => [[x]]
           end
  end.
Definition components (path : list Z) : list (list Z) :=
  take (Z.to_nat DIRSIZ) <$> filter (λ e, e ≠ []) (split_slash path).

(** The elements [skipelem] finds when it is called until the path ends. *)
Fixpoint elements (fuel : nat) (path : list Z) : list (list Z) :=
  match fuel with
  | O => []
  | S fuel' => match skipelem path with
               | None => []
               | Some (rest, e) => e :: elements fuel' rest
               end
  end.

(** ** Lemmas *)

Lemma iget_scan_spec dev inum l i e : Forall (λ n, 0 ≤ i_ref n) l →
  match iget_scan dev inum l i e with
  | Some (j, true) => ∃ k n, j = (i + k)%nat ∧ l !! k = Some n ∧ holds_inode dev inum n
  | Some (j, false) => (∀ k n, l !! k = Some n → ¬ holds_inode dev inum n) ∧
      (e = Some j ∨ e = None ∧ ∃ k n, j = (i + k)%nat ∧ l !! k = Some n ∧ i_ref n = 0)
  | None => (∀ k n, l !! k = Some n → ¬ holds_inode dev inum n) ∧ e = None ∧ ∀ k n, l !! k = Some n → i_ref n ≠ 0
  end.
Proof.
  revert i e. induction l as [|n l IH]; intros i e Hl; simpl.
  { destruct e as [j|]; simpl; [split; [done|by left]|]. split_and!; done. }
  apply Forall_cons in Hl as [Hn Hl]. destruct ((i_ref n >? 0) && (i_dev n =? dev) && (i_inum n =? inum)) eqn:E.
  { bool_prop. exists O, n. split; [lia|]. split; [done|]. unfold holds_inode. lia. }
  assert (¬ holds_inode dev inum n) as Hnot.
  { intros (H1 & H2 & H3). rewrite Z.gtb_ltb in E. apply Z.ltb_lt in H1. apply Z.eqb_eq in H2, H3. by rewrite H1, H2, H3 in E. }
  set (e' := match e with None => if i_ref n =? 0 then Some i else None | Some _ => e end).
  assert (∀ k m, (n :: l) !! k = Some m → (∀ k m, l !! k = Some m → ¬ holds_inode dev inum m) → ¬ holds_inode dev inum m) as Hall.
  { intros [|k] m Hm Hr; simpl in Hm; [by simplify_eq|by eapply Hr]. }
  specialize (IH (S i) e' Hl). destruct (iget_scan dev inum l (S i) e') as [[j []]|].
  - destruct IH as (k & m & -> & Hm & Hh). exists (S k), m. split; [lia|done].
  - destruct IH as [H1 H2]. split; [eauto|]. unfold e' in H2. destruct e as [x|].
    { left. by destruct H2 as [|[]]. }
    destruct (i_ref n =? 0) eqn:E0; bool_prop.
    + right. split; [done|]. destruct H2 as [[= <-]|[]]; [|done]. exists O, n. split; [lia|done].
    + destruct H2 as [|(_ & k & m & -> & Hm & Hr)]; [done|]. right. split; [done|]. exists (S k), m. split; [lia|done].
  - destruct IH as (H1 & H2 & H3). split; [eauto|]. unfold e' in H2. destruct e as [x|]; [done|].
    destruct (i_ref n =? 0) eqn:E0; [done|]. bool_prop. split; [done|]. intros [|k] m Hm; simpl in Hm; [by simplify_eq|eauto].
Qed.

Lemma irefs_insert l i n m dev inum : l !! i = Some n →
  irefs (<[i := m]> l) dev inum = irefs l dev inum
    - (if decide (holds_inode dev inum n) then i_ref n else 0)
    + (if decide (holds_inode dev inum m) then i_ref m else 0).
Proof.
  intros Hi. unfold irefs.
  pose proof (sum_list_with_insert (λ n, if decide (holds_inode dev inum n) then Z.to_nat (i_ref n) else O) l i n m Hi) as E.
  simpl in E. repeat case_decide; unfold holds_inode in *; lia.
Qed.

(** A change of the reference count of an entry, or of an unused entry. *)
Lemma itable_ok_insert l i n m : itable_ok l → l !! i = Some n → 0 ≤ i_ref m →
  (0 < i_ref m → (i_dev m = i_dev n ∧ i_inum m = i_inum n ∧ 0 < i_ref n) ∨
     ∀ k x, l !! k = Some x → ¬ holds_inode (i_dev m) (i_inum m) x) →
  itable_ok (<[i := m]> l).
Proof.
  intros [H1 H2] Hi Hm Hc. assert (i < length l)%nat by (by eapply lookup_lt_Some). split.
  { intros j x Hx. destruct (decide (j = i)) as [->|]; [rewrite list_lookup_insert_eq in Hx by done; by simplify_eq|].
    rewrite list_lookup_insert_ne in Hx by done. eauto. }
  intros a b x y Hx Hy Hr Hh.
  destruct (decide (a = i)) as [->|], (decide (b = i)) as [->|]; try done;
    rewrite ?list_lookup_insert_eq in * by done; rewrite ?list_lookup_insert_ne in * by done; simplify_eq.
  - destruct (Hc Hr) as [(E1 & E2 & E3)|Hn]; [|by destruct (Hn b y)]. rewrite E1, E2 in Hh. eauto.
  - unfold holds_inode in Hh. destruct Hh as (Hh1 & Hh2 & Hh3).
    destruct (Hc Hh1) as [(E1 & E2 & E3)|Hn].
    + symmetry. eapply (H2 i a); [done|done|done|]. unfold holds_inode. split_and!; [done|congruence|congruence].
    + destruct (Hn a x Hx). unfold holds_inode. split_and!; [done|congruence|congruence].
  - eauto.
Qed.

Section table.
Context {St : Type} `{TX : Txn St}.
Implicit Types (s : St) (f : fsst).

Definition set_inodes (l : list inode) (f : fsst) : fsst := FsSt (sb f) (itable_lock f) l.

(** A reference to inode [inum]: the entry that already holds it, or a
    free one, with the rest of the table as it was. *)
Lemma iget_ok dev inum s f (Q : nat → fst_ → Prop) : itable_lock f = false → itable_ok (inodes f) →
  (∃ i n, inodes f !! i = Some n ∧ (i_ref n = 0 ∨ holds_inode dev inum n)) →
  (∀ i n n', inodes f !! i = Some n → itable_ok (<[i := n']> (inodes f)) → holds_inode dev inum n' →
     (i_ref n = 0 ∧ i_ref n' = 1 ∧ i_valid n' = false ∨
      n' = set_iref (i_ref n + 1) n ∧ holds_inode dev inum n) →
     Q i (s, set_inodes (<[i := n']> (inodes f)) f)) →
  wp (iget dev inum) (s, f) Q.
Proof.
  intros Hl Hok (i0 & n0 & Hi0 & Hn0) HQ. unfold iget. apply wp_bind. unfold acquire_itable, wp at 1. cbn [snd fst]. rewrite Hl.
  wp_steps. apply wp_fget. cbn [inodes sb].
  assert (Forall (λ n, 0 ≤ i_ref n) (inodes f)) as Hpos by (apply Forall_lookup; intros i n; apply Hok).
  pose proof (iget_scan_spec dev inum (inodes f) 0 None Hpos) as Hs.
  assert (∀ i n', (∃ n, inodes f !! i = Some n) → wp (release_itable;; mret i) (s, FsSt (sb f) true (<[i := n']> (inodes f))) (λ j σ, j = i ∧ σ = (s, set_inodes (<[i := n']> (inodes f)) f))) as Hrel.
  { intros i n' [n Hn]. apply wp_bind. unfold release_itable, wp at 1. simpl. split; [done|]. unfold set_inodes. by rewrite Hl. }
  destruct (iget_scan dev inum (inodes f) 0 None) as [[i []]|].
  - destruct Hs as (k & n & -> & Hn & Hh). simpl. wp_steps. eapply wp_upd_inode; [exact Hn|].
    unfold put_inode. cbn [sb itable_lock inodes]. eapply wp_mono; [apply Hrel; eauto|]. intros j σ [-> ->].
    eapply HQ; [done| |unfold holds_inode, set_iref in *; simpl; lia|by right].
    eapply itable_ok_insert; [done|done|simpl; unfold holds_inode in Hh; lia|]. intros _. left. unfold holds_inode in Hh. simpl. lia.
  - destruct Hs as [Hno [|(_ & k & n & -> & Hn & Hr)]]; [done|]. simpl. wp_steps. eapply wp_upd_inode; [exact Hn|].
    unfold put_inode. cbn [sb itable_lock inodes]. eapply wp_mono; [apply Hrel; eauto|]. intros j σ [-> ->].
    eapply HQ; [done| |unfold holds_inode; simpl; lia|by left].
    eapply itable_ok_insert; [done|done|simpl; lia|]. intros _. right. simpl. done.
  - destruct Hs as (Hno & _ & Hr). destruct Hn0 as [Hn0|Hn0]; [by destruct (Hr i0 n0 Hi0)|by destruct (Hno i0 n0 Hi0)].
Qed.

(** The last step of [iput]: an entry whose inode stays, or is shared. *)
Lemma iput_ok ip n s f (Q : unit → fst_ → Prop) : itable_lock f = false → itable_ok (inodes f) →
  inodes f !! ip = Some n → 0 < i_ref n →
  ¬ (i_ref n = 1 ∧ i_valid n = true ∧ i_nlink n = 0) →
  (itable_ok (<[ip := set_iref (i_ref n - 1) n]> (inodes f)) →
     Q tt (s, set_inodes (<[ip := set_iref (i_ref n - 1) n]> (inodes f)) f)) →
  wp (iput ip) (s, f) Q.
Proof.
  intros Hl Hok Hn Hr Hk HQ. unfold iput. apply wp_bind. unfold acquire_itable, wp at 1. cbn [snd fst]. rewrite Hl.
  wp_steps. eapply wp_inode_at; [exact Hn|].
  replace ((i_ref n =? 1) && i_valid n && (i_nlink n =? 0)) with false.
  2: { symmetry. apply not_true_iff_false. intros E. apply andb_true_iff in E as [[E1 E2]%andb_true_iff E3]. bool_prop. tauto. }
  wp_steps. eapply wp_upd_inode; [exact Hn|]. unfold release_itable, wp. simpl. unfold put_inode; simpl.
  unfold set_inodes in HQ. rewrite Hl in HQ. apply HQ.
  eapply itable_ok_insert; [done|done|simpl; lia|]. simpl. intros _. left. lia.
Qed.
End table.

(** *** Names *)

Lemma strncmp_eq n p q : is_bytes p → is_bytes q → strncmp_ n p q = 0 ↔ cname n p = cname n q.
Proof.
  revert p q. induction n as [|n IH]; intros p q Hp Hq; [done|]. simpl.
  assert (∀ l, is_bytes l → 0 ≤ default 0 (head l) < 256 ∧ is_bytes (tail l)) as Hh.
  { intros [|x l] Hl; simpl; [split; [lia|constructor]|by apply Forall_cons in Hl]. }
  destruct (Hh p Hp) as [Hp1 Hp2], (Hh q Hq) as [Hq1 Hq2].
  assert (∀ l, is_bytes l → match l with x :: l' => if x =? 0 then [] else x :: cname n l' | [] => [] end =
    if default 0 (head l) =? 0 then [] else default 0 (head l) :: cname n (tail l)) as Hc by (by intros [|x l] _).
  rewrite (Hc p Hp), (Hc q Hq). set (a := default 0 (head p)) in *. set (b := default 0 (head q)) in *.
  rewrite !u8_small by (simpl; lia).
  destruct (a =? 0) eqn:Ea, (b =? 0) eqn:Eb, (a =? b) eqn:E; simpl; bool_prop; try lia.
  - split; [done|lia].
  - split; [lia|done].
  - split; [lia|done].
  - rewrite IH by done. rewrite E. split; [by intros ->|by intros [= ->]].
  - split; [lia|by intros [= ? ?]].
Qed.

Lemma namecmp_matches name de : is_bytes name → is_bytes (de_name de) →
  namecmp name (de_name de) = 0 ↔ cname (Z.to_nat DIRSIZ) name = cname (Z.to_nat DIRSIZ) (de_name de).
Proof. apply strncmp_eq. Qed.

(** *** Paths *)

Lemma span_elem_spec p e r : span_elem p = (e, r) →
  p = e ++ r ∧ Forall (λ x, x ≠ slash) e ∧ (r = [] ∨ ∃ r', r = slash :: r').
Proof.
  revert e r. induction p as [|x p IH]; intros e r; simpl; [intros [= <- <-]; eauto|].
  case_if; [intros [= <- <-]; subst; split_and!; [done|done|eauto]|].
  destruct (span_elem p) as [e' r'] eqn:E. intros [= <- <-]. destruct (IH e' r' eq_refl) as (-> & H1 & H2).
  split_and!; [done| |done]. by constructor.
Qed.

Lemma split_slash_ne p : split_slash p ≠ [].
Proof. destruct p as [|x p]; simpl; [done|]. case_if; [done|]. by destruct (split_slash p). Qed.

Lemma split_slash_app e r : Forall (λ x, x ≠ slash) e → (r = [] ∨ ∃ r', r = slash :: r') →
  split_slash (e ++ r) = e :: match r with [] => [] | _ :: r' => split_slash r' end.
Proof.
  intros He Hr. induction e as [|x e IH]; simpl.
  - by destruct Hr as [->|[r' ->]].
  - apply Forall_cons in He as [Hx He]. case_if; [done|]. by rewrite IH.
Qed.

Lemma components_skip p : components (skip_slashes p) = components p.
Proof.
  induction p as [|x p IH]; [done|]. unfold components in *. simpl skip_slashes. case_if; [|done].
  rewrite IH. simpl split_slash. replace (x =? slash) with true by (symmetry; by apply Z.eqb_eq).
  by rewrite filter_cons_False by (intros ?; congruence).
Qed.

Lemma skip_slashes_head p x r : skip_slashes p = x :: r → x ≠ slash.
Proof. induction p as [|y p IH]; simpl; [done|]. case_if; [done|]. congruence. Qed.

Lemma length_skip_slashes p : (length (skip_slashes p) ≤ length p)%nat.
Proof. induction p as [|x p IH]; simpl; [done|]. case_if; simpl; lia. Qed.

Lemma skipelem_spec p : match skipelem p with
  | None => components p = []
  | Some (rest, e) => components p = e :: components rest ∧ (length rest < length p)%nat
  end.
Proof.
  unfold skipelem. pose proof (components_skip p) as Hc. pose proof (length_skip_slashes p) as Hl.
  destruct (skip_slashes p) as [|x q] eqn:E; [done|]. apply skip_slashes_head in E.
  destruct (span_elem (x :: q)) as [e r] eqn:Es. apply span_elem_spec in Es as (Eq & He & Hr).
  assert (e ≠ []) as Hne by (intros ->; simpl in Eq; destruct Hr as [->|[r' ->]]; simplify_eq).
  pose proof (length_skip_slashes r) as Hlr. rewrite Eq in Hc, Hl. rewrite length_app in Hl.
  assert (0 < length e)%nat by (destruct e; [done|simpl; lia]). split; [|lia].
  rewrite <- Hc, components_skip. unfold components. rewrite split_slash_app by done.
  rewrite filter_cons_True by done. simpl. f_equal. destruct Hr as [->|[r' ->]]; [done|]. simpl split_slash.
  by rewrite filter_cons_False by (intros ?; congruence).
Qed.

Lemma elements_components fuel p : (length p < fuel)%nat → elements fuel p = components p.
Proof.
  revert p. induction fuel as [|n IH]; intros p Hf; [lia|]. simpl. pose proof (skipelem_spec p) as Hs.
  destruct (skipelem p) as [[r e]|]; [|done]. destruct Hs as [-> Hl]. by rewrite IH by lia.
Qed.

(** *** Directories *)

Section dirs.
Context {St : Type} `{TX : Txn St, !TxnOk St}.
Implicit Types (s : St) (f : fsst) (t : tstore).

Lemma read_dirent_ok msg ip n s f t off (Q : dirent → fst_ → Prop) :
  tx_rep s t → inodes f !! ip = Some n → i_dev n = ROOTDEV → no_holes t n → file_unlocked t n →
  0 ≤ off → off + DIRENT ≤ i_size n →
  (∀ s', tx_rep s' t → hkeeps (t_locked t) s s' → Q (slot t n off) (s', f)) →
  wp (read_dirent msg ip off) (s, f) Q.
Proof.
  intros R Hn Hd Hh Hu Ho Hs HQ. unfold read_dirent. wp_steps.
  assert (i_size n ≤ 274432) by (destruct Hh as [[_ Hh] _]; by change (MAXFILE * BSIZE) with 274432 in Hh).
  unfold DIRENT in *. eapply (readi_ok ip n s f t); [done|done|done|done|done|done|lia|done|].
  assert (readable (i_size n) off 16 = 16) as ->.
  { unfold readable. rewrite Z.gtb_ltb, Z.geb_leb. rewrite (proj2 (Z.ltb_ge _ _)), (proj2 (Z.leb_gt _ _)) by lia. simpl. lia. }
  intros s' R' K'. simpl. apply wp_ret. by apply HQ.
Qed.

Lemma is_bytes_slot t n off : is_bytes (fbytes t n) → is_bytes (de_name (slot t n off)).
Proof. intros Hb. simpl. repeat first [apply Forall_take|apply Forall_drop]. done. Qed.

(** [dirlookup] answers the first entry of that name, and nothing when no
    entry has it. *)
Lemma dirlookup_ok ip n name s f t (Q : option (nat * Z) → fst_ → Prop) :
  tx_rep s t → inodes f !! ip = Some n → i_dev n = ROOTDEV → no_holes t n → file_unlocked t n →
  i_type n = T_DIR → i_size n mod DIRENT = 0 → is_bytes name → is_bytes (fbytes t n) →
  itable_lock f = false → itable_ok (inodes f) → (∃ i x, inodes f !! i = Some x ∧ i_ref x = 0) →
  (∀ s', tx_rep s' t → hkeeps (t_locked t) s s' →
     (∀ i, 0 ≤ i → DIRENT * i < i_size n → ¬ matches name (slot t n (DIRENT * i))) → Q None (s', f)) →
  (∀ s' i j x x', tx_rep s' t → hkeeps (t_locked t) s s' →
     0 ≤ i → DIRENT * i < i_size n → matches name (slot t n (DIRENT * i)) →
     (∀ i', 0 ≤ i' < i → ¬ matches name (slot t n (DIRENT * i'))) →
     inodes f !! j = Some x → itable_ok (<[j := x']> (inodes f)) →
     holds_inode ROOTDEV (de_inum (slot t n (DIRENT * i))) x' →
     Q (Some (j, DIRENT * i)) (s', set_inodes (<[j := x']> (inodes f)) f)) →
  wp (dirlookup ip name) (s, f) Q.
Proof.
  intros R Hn Hd Hh Hu Ht Hm Hbn Hbf Hl Hok (i0 & x0 & Hi0 & Hr0) H0 H1. unfold dirlookup. wp_steps.
  eapply wp_inode_at; [done|]. rewrite Ht. change (negb (T_DIR =? T_DIR)) with false. cbv iota.
  apply (wp_while (λ off σ, ∃ i, off = DIRENT * i ∧ 0 ≤ i ∧ snd σ = f ∧ tx_rep (fst σ) t ∧ hkeeps (t_locked t) s (fst σ) ∧
      ∀ i', 0 ≤ i' < i → ¬ matches name (slot t n (DIRENT * i'))) (λ off, Z.to_nat (i_size n - off))); [|exists 0; split_and!; try done; [keeps|intros; lia]|lia].
  intros off [s1 f1] (i & -> & Hi & E & R1 & K1 & Hno). simpl in E, R1, K1. subst f1.
  case_if; [apply wp_ret, H0; [done|done|]; intros i' Hi' Hlt; apply Hno; unfold DIRENT in *; lia|].
  assert (DIRENT * i + DIRENT ≤ i_size n) by (unfold DIRENT in *; div_lia).
  wp_steps. eapply (read_dirent_ok _ ip n); try done; [unfold DIRENT; lia|]. intros s2 R2 K2.
  assert (∀ s', tx_rep s' t → hkeeps (t_locked t) s s' → ¬ matches name (slot t n (DIRENT * i)) →
    ∃ i', DIRENT * i + DIRENT = DIRENT * i' ∧ 0 ≤ i' ∧ f = f ∧ tx_rep s' t ∧ hkeeps (t_locked t) s s' ∧
      ∀ k, 0 ≤ k < i' → ¬ matches name (slot t n (DIRENT * k))) as Hnext.
  { intros s' R' K' Hnm. exists (i + 1). split_and!; [lia|lia|done|done|done|]. intros k Hk.
    destruct (decide (k = i)) as [->|]; [done|]. apply Hno. lia. }
  case_if.
  { apply wp_ret. split; [|unfold DIRENT in *; lia]. apply Hnext; [done|keeps|]. by intros [? _]. }
  case_if.
  - wp_steps. rewrite Hd. apply iget_ok; [done|done|eauto|]. intros j x x' Hj Hok' Hh' _. wp_steps.
    eapply H1; try done; [keeps|]. split; [done|]. by apply namecmp_matches; [|apply is_bytes_slot|].
  - apply wp_ret. split; [|unfold DIRENT in *; lia]. apply Hnext; [done|keeps|].
    intros [_ E]. apply namecmp_matches in E; [done|done|by apply is_bytes_slot].
Qed.
End dirs.
