(* ===== verification/FsProps.v ===== *)
(** The properties of the file system: block allocation, inodes, file
    contents, directories and path names. *)
From S2P Require Import Prelude Bytes Bio Txn TxnOps Fs FsBlocks FsInode FsDir.

(** ** Definitions *)

(** The blocks of the free map are themselves marked in use. *)
Definition map_reserved (t : tstore) (k : superblock) : Prop :=
  used t k 0 = true ∧ ∀ b, 0 ≤ b < sb_size k → 0 ≤ BBLOCK b k < sb_size k ∧ used t k (BBLOCK b k) = true.

(** A disk of eight blocks: the inodes in block 2, the free map in block 3,
    a directory of two entries in block 4. *)
Definition ex_sb : superblock := Superblock FSMAGIC 8 4 16 1 1 2 3.
Definition ex_dir : inode := Inode ROOTDEV ROOTINO 1 false true T_DIR 0 0 1 32 (4 :: replicate 12 0).
Definition ex_names : list Z := print_dirent (Dirent 1 (strncpy_ 14 [46])) ++ print_dirent (Dirent 5 (strncpy_ 14 [97; 98])).
Definition ex_store : tstore :=
  TStore {[ 2 := write_dinode ex_dir 64 zero_block; 3 := set_field 1 zero_block 0 31; 4 := list_inserts 0 ex_names zero_block ]}
    ∅ ∅ 4.
Definition ex_fs : fsst :=
  FsSt ex_sb false [ex_dir; null_inode; null_inode].
(** The same with a second entry for the directory, not yet loaded. *)
Definition ex_stale : inode := Inode ROOTDEV ROOTINO 1 false false 0 0 0 0 0 [].
Definition ex_fs_two : fsst := FsSt ex_sb false [ex_dir; ex_stale; null_inode].

(** ** Lemmas *)

Lemma ex_store_ok : tx_rep ex_store ex_store.
Proof.
  split; [done|]. intros b. split; [|done]. unfold tview, disk_block, ex_store; simpl.
  destruct (decide (b = 2)) as [->|]; [by vm_compute|]. destruct (decide (b = 3)) as [->|]; [by vm_compute|].
  destruct (decide (b = 4)) as [->|]; [by vm_compute|]. by rewrite !lookup_insert_ne, lookup_singleton_ne.
Qed.

Lemma below_cases (P : Z → Prop) (n : nat) : (∀ i, (i < n)%nat → P (Z.of_nat i)) → ∀ b, 0 ≤ b < Z.of_nat n → P b.
Proof. intros HP b Hb. rewrite <- (Z2Nat.id b) by lia. apply HP. lia. Qed.

Lemma ex_itable_ok : itable_ok (inodes ex_fs).
Proof.
  split.
  - intros i x Hx. do 3 (destruct i as [|i]; [simpl in Hx; simplify_eq; simpl; lia|]). done.
  - intros i j x y Hx Hy Hr [Hh _].
    do 3 (destruct i as [|i]; [do 3 (destruct j as [|j]; [by simpl in *; simplify_eq; simpl in *; (done || lia)|]); done|]). done.
Qed.

(** ** Properties *)

(** C20: [balloc] answers a block that was free, now zeroed and marked in use,
    changes nothing else, and answers 0 only when every block is in use. *)
Theorem balloc_allocates {St} `{TX : Txn St, !TxnOk St} (s : St) f t : let k := sb f in
  tx_rep s t → alloc_room t k → map_reserved t k →
  wp (balloc ROOTDEV) (s, f) (λ r σ, snd σ = f ∧ ∃ t', tx_rep (fst σ) t' ∧
    (r = 0 ∧ t' = t ∧ (∀ b, 0 ≤ b < sb_size k → used t k b = true) ∨
     0 < r < sb_size k ∧ used t k r = false ∧ tview t' r = zero_block ∧
     (∀ b, 0 ≤ b < sb_size k → used t' k b = used t k b || (b =? r)) ∧
     (∀ b, b ≠ r → b ≠ BBLOCK r k → tview t' b = tview t b))).
Proof.
  intros k R Hr [H0 Hm]. subst k. apply balloc_ok with (t := t); [done|done| |].
  - intros s' R' _ Hu. split; [done|]. exists t. split; [done|]. by left.
  - intros s' b R' _ Hb Hf _. split; [done|]. eexists. split; [done|]. right.
    assert (b ≠ 0) by (intros ->; congruence). split_and!; [lia|lia|done| | |].
    + rewrite tview_logged. by rewrite decide_True.
    + intros x Hx. rewrite used_logged by (destruct (Hm x Hx) as [_ Hu]; intros E; by rewrite E, Hf in Hu).
      apply used_mark. intros; by eapply tx_wf.
    + intros x Hne Hnb. unfold mark_used. rewrite !tview_logged. by rewrite !decide_False.
Qed.
Lemma balloc_allocates_witness : wp (balloc ROOTDEV) (ex_store, ex_fs) (λ r σ, snd σ = ex_fs ∧ ∃ t', tx_rep (fst σ) t' ∧
    (r = 0 ∧ t' = ex_store ∧ (∀ b, 0 ≤ b < 8 → used ex_store ex_sb b = true) ∨
     0 < r < 8 ∧ used ex_store ex_sb r = false ∧ tview t' r = zero_block ∧
     (∀ b, 0 ≤ b < 8 → used t' ex_sb b = used ex_store ex_sb b || (b =? r)) ∧
     (∀ b, b ≠ r → b ≠ BBLOCK r ex_sb → tview t' b = tview ex_store b))).
Proof.
  apply (balloc_allocates ex_store ex_fs ex_store); [exact ex_store_ok| |].
  - split_and!; [done|done|done|done].
  - split; [by vm_compute|]. apply (below_cases _ 8). intros i Hi. do 8 (destruct i as [|i]; [by vm_compute|]). lia.
Defined.

(** C39: An inode written by [iupdate] is the inode [ilock] loads into another
    entry of the table, and every other inode of the disk is as before. *)
Theorem inode_update_reload {St} `{TX : Txn St, !TxnOk St} (s : St) f t ip jp n m : let k := sb f in
  tx_rep s t → inodes f !! ip = Some n → inode_typed n → i_dev n = ROOTDEV → i_type n ≠ 0 →
  inodes f !! jp = Some m → i_dev m = ROOTDEV → i_inum m = i_inum n → 1 ≤ i_ref m → i_lock m = false → i_valid m = false →
  may_read t (IBLOCK (i_inum n) k) → may_log t (IBLOCK (i_inum n) k) →
  wp (iupdate ip;; ilock jp) (s, f) (λ _ σ, ∃ t' m', tx_rep (fst σ) t' ∧
    inodes (snd σ) = <[jp := m']> (inodes f) ∧ imeta m' = imeta n ∧ i_valid m' = true ∧ i_lock m' = true ∧
    ∀ j x, j ≠ i_inum n → disk_inode t' k j x = disk_inode t k j x).
Proof.
  intros k R Hn Ht Hd Hty Hm Hdm Him Hrm Hlm Hvm Hr Hl. wp_steps. eapply (iupdate_ok ip n); try done. intros s1 R1 K1.
  assert (∀ b, length (tview t b) = Z.to_nat BSIZE) as Hlen by (intros; by eapply tx_wf).
  pose proof (disk_inode_same n k t (set_ilock true m) Ht Hlen) as E. rewrite <- Him in E.
  eapply (ilock_ok jp m s1 f (inode_logged n k t)); try done; [by rewrite Him| |].
  { fold k. assert (∀ x, i_type (set_ivalid true x) = i_type x) as -> by done. unfold imeta in E. congruence. }
  intros s2 R2 K2. eexists _, _. split; [exact R2|]. split; [done|]. split; [exact E|]. split_and!; [done|done|].
  intros j x Hj. by apply disk_inode_other.
Qed.
Lemma inode_update_reload_witness : wp (iupdate 0;; ilock 1) (ex_store, ex_fs_two) (λ _ σ, ∃ t' m', tx_rep (fst σ) t' ∧
    inodes (snd σ) = <[1%nat := m']> (inodes ex_fs_two) ∧ imeta m' = imeta ex_dir ∧ i_valid m' = true ∧ i_lock m' = true ∧
    ∀ j x, j ≠ ROOTINO → disk_inode t' ex_sb j x = disk_inode ex_store ex_sb j x).
Proof.
  apply (inode_update_reload ex_store ex_fs_two ex_store 0%nat 1%nat ex_dir ex_stale); try done.
  - exact ex_store_ok.
  - unfold inode_typed; simpl. split_and!; try lia; try done. repeat constructor; lia.
  - by right.
Defined.

(** C17: [readi] answers the bytes of the file from [off] on, as many as it has
    and as are asked for, and nothing past its end. *)
Theorem readi_reads {St} `{TX : Txn St, !TxnOk St} (s : St) f t ip n ok dst off len :
  tx_rep s t → inodes f !! ip = Some n → i_dev n = ROOTDEV → no_holes t n → file_unlocked t n →
  (∀ a m, ok a m = true) → 0 ≤ off < 2 ^ 32 → 0 ≤ len < 2 ^ 32 →
  let m := readable (i_size n) off len in
  wp (readi ip ok dst off len) (s, f) (λ r σ, r = (m, take (Z.to_nat m) (drop (Z.to_nat off) (fbytes t n))) ∧
    tx_rep (fst σ) t ∧ snd σ = f).
Proof. intros. eapply readi_ok; try done. Qed.
Lemma readi_reads_witness :
  wp (readi 0 kernel_copy 0 16 40) (ex_store, ex_fs) (λ r σ, r = (16, take 16 (drop 16 (fbytes ex_store ex_dir))) ∧
    tx_rep (fst σ) ex_store ∧ snd σ = ex_fs) ∧
  take 16 (drop 16 (fbytes ex_store ex_dir)) = [5; 0; 97; 98; 0; 0; 0; 0; 0; 0; 0; 0; 0; 0; 0; 0].
Proof.
  split; [|by vm_compute]. apply (readi_reads ex_store ex_fs ex_store 0%nat ex_dir kernel_copy 0 16 40); try done.
  - exact ex_store_ok.
  - split; [done|]. intros bn H0 H1. unfold BSIZE in H1. simpl in H1. assert (bn = 0) as -> by lia. done.
Defined.

(** C35: [dirlookup] in a directory finds the first entry in use that has the
    name, with a reference to its inode; when there is none it answers so. *)
Theorem dirlookup_first {St} `{TX : Txn St, !TxnOk St} (s : St) f t ip n name :
  tx_rep s t → inodes f !! ip = Some n → i_dev n = ROOTDEV → no_holes t n → file_unlocked t n →
  i_type n = T_DIR → i_size n mod DIRENT = 0 → is_bytes name → is_bytes (fbytes t n) →
  itable_lock f = false → itable_ok (inodes f) → (∃ i x, inodes f !! i = Some x ∧ i_ref x = 0) →
  wp (dirlookup ip name) (s, f) (λ r σ, tx_rep (fst σ) t ∧
    match r with
    | None => snd σ = f ∧ ∀ i, 0 ≤ i → DIRENT * i < i_size n → ¬ matches name (slot t n (DIRENT * i))
    | Some (j, off) => ∃ i x, off = DIRENT * i ∧ 0 ≤ i ∧ off < i_size n ∧ matches name (slot t n off) ∧
        (∀ i', 0 ≤ i' < i → ¬ matches name (slot t n (DIRENT * i'))) ∧
        inodes (snd σ) = <[j := x]> (inodes f) ∧ itable_ok (inodes (snd σ)) ∧
        holds_inode ROOTDEV (de_inum (slot t n off)) x
    end).
Proof.
  intros. eapply (dirlookup_ok ip n name s f t); try done. intros s' i j x x' R' K' P0 P1 P2 P3 P4 P5 P6. split; [done|]. exists i, x'. done.
Qed.
Lemma dirlookup_first_witness : wp (dirlookup 0 [97; 98]) (ex_store, ex_fs) (λ r σ, tx_rep (fst σ) ex_store ∧
    match r with
    | None => snd σ = ex_fs ∧ ∀ i, 0 ≤ i → DIRENT * i < 32 → ¬ matches [97; 98] (slot ex_store ex_dir (DIRENT * i))
    | Some (j, off) => ∃ i x, off = DIRENT * i ∧ 0 ≤ i ∧ off < 32 ∧ matches [97; 98] (slot ex_store ex_dir off) ∧
        (∀ i', 0 ≤ i' < i → ¬ matches [97; 98] (slot ex_store ex_dir (DIRENT * i'))) ∧
        inodes (snd σ) = <[j := x]> (inodes ex_fs) ∧ itable_ok (inodes (snd σ)) ∧
        holds_inode ROOTDEV (de_inum (slot ex_store ex_dir off)) x
    end).
Proof.
  apply (dirlookup_first ex_store ex_fs ex_store 0%nat ex_dir [97; 98]); try done.
  - exact ex_store_ok.
  - split; [done|]. intros bn H0 H1. unfold BSIZE in H1. simpl in H1. assert (bn = 0) as -> by lia. done.
  - repeat constructor; lia.
  - apply Forall_forall. intros x Hx. revert x Hx. apply Forall_forall.
    assert (Forall (λ x, 0 ≤ x < 256) (fbytes ex_store ex_dir) ↔ True) as ->; [|done].
    split; [done|intros _]. apply (bool_decide_unpack _). by vm_compute.
  - exact ex_itable_ok.
  - exists 2%nat, null_inode. done.
Defined.

(** [iget] keeps one entry in use per inode, and gives out one more
    reference to the inode asked for and to no other. *)
Theorem iget_counts {St} `{TX : Txn St} (s : St) f dev inum :
  itable_lock f = false → itable_ok (inodes f) →
  (∃ i n, inodes f !! i = Some n ∧ (i_ref n = 0 ∨ holds_inode dev inum n)) →
  wp (iget dev inum) (s, f) (λ i σ, itable_ok (inodes (snd σ)) ∧
    (∃ n, inodes (snd σ) !! i = Some n ∧ holds_inode dev inum n) ∧
    ∀ d j, irefs (inodes (snd σ)) d j = irefs (inodes f) d j + if decide ((d, j) = (dev, inum)) then 1 else 0).
Proof.
  intros Hl Hok Hex. apply iget_ok; [done|done|done|]. intros i n n' Hi Hok' Hh Hc. split; [done|]. simpl. split.
  { exists n'. split; [|done]. apply list_lookup_insert_eq. by eapply lookup_lt_Some. }
  intros d j. rewrite (irefs_insert _ i n n') by done.
  assert (holds_inode d j n' ↔ (d, j) = (dev, inum)) as Heq.
  { destruct Hh as (H1 & H2 & H3). unfold holds_inode. split; [|by intros [= -> ->]]. intros (_ & <- & <-). congruence. }
  destruct Hc as [(E1 & E2 & _)|[-> Hn]].
  - rewrite (decide_False (P := holds_inode d j n)) by (unfold holds_inode; lia).
    repeat case_decide; try tauto; lia.
  - assert (holds_inode d j n ↔ (d, j) = (dev, inum)) as Heq'.
    { destruct Hn as (H1 & H2 & H3). unfold holds_inode. split; [|by intros [= -> ->]]. intros (_ & <- & <-). congruence. }
    repeat case_decide; try tauto; simpl; lia.
Qed.
Lemma iget_counts_witness : wp (iget ROOTDEV 5) (ex_store, ex_fs) (λ i σ, itable_ok (inodes (snd σ)) ∧
    (∃ n, inodes (snd σ) !! i = Some n ∧ holds_inode ROOTDEV 5 n) ∧
    ∀ d j, irefs (inodes (snd σ)) d j = irefs (inodes ex_fs) d j + if decide ((d, j) = (ROOTDEV, 5)) then 1 else 0).
Proof. apply (iget_counts ex_store ex_fs ROOTDEV 5); [done|exact ex_itable_ok|]. exists 1%nat, null_inode. auto. Defined.

(** Called until the path ends, [skipelem] goes through the components of the
    path: what is between its slashes, cut to [DIRSIZ] bytes.  It needs no
    more calls than the path has bytes. *)
Theorem skipelem_components fuel path : (length path < fuel)%nat → elements fuel path = components path.
Proof. apply elements_components. Qed.
Lemma skipelem_components_witness :
  elements 10 [47; 47; 97; 47; 98; 98; 47] = components [47; 47; 97; 47; 98; 98; 47] ∧
  components [47; 47; 97; 47; 98; 98; 47] = [[97]; [98; 98]].
Proof. split; [apply (skipelem_components 10); simpl; lia|by vm_compute]. Defined.
