(* ===== verification/FsWriteProps.v ===== *)
(** The properties of [writei]. *)
From S2P Require Import Prelude Bytes Bio Txn TxnOps Fs FsBlocks FsInode FsWrite FsFrame FsProps.

(** ** Definitions *)

(** The example disk of [FsProps] with room for ten blocks in the log. *)
Definition ex_room : tstore := TStore (t_view ex_store) ∅ ∅ 10.
Definition ex_page : list Z := replicate 1000 7.

(** ** Lemmas *)

Lemma is_full_or_done r len (P : Prop) : 0 ≤ r ≤ len → (r < len → P ∨ ∃ a m, 0 < m ∧ kernel_copyin a m = 0) → r = len ∨ P.
Proof.
  intros Hr H. destruct (decide (r < len)) as [Hlt|]; [|left; lia]. destruct (H Hlt) as [HP|(a & m & Hm & E)]; [by right|].
  unfold kernel_copyin in E. lia.
Qed.
Lemma kernel_all : all_or_nothing kernel_copyin.
Proof. intros a m Hm. by left. Qed.

(** The example disk. *)
Lemma ex_fblk i : -1 ≤ i < MAXFILE → fblk ex_room ex_dir i = if decide (i = 0) then 4 else 0.
Proof.
  intros Hi. unfold fblk, blk_of, addr_at, ex_dir. simpl i_addrs. change (getZ (4 :: replicate 12 0) NDIRECT) with (Some 0). simpl default.
  destruct (Z.ltb_spec i 0); [by rewrite decide_False by lia|]. destruct (Z.ltb_spec i NDIRECT); [|by rewrite decide_False by (unfold NDIRECT in *; lia)].
  unfold getZ. rewrite decide_True by lia. destruct (decide (i = 0)) as [->|Hne]; [done|].
  destruct (Z.to_nat i) as [|j] eqn:E; [lia|]. simpl. destruct (lookup_lt_is_Some_2 (replicate 12 0) j) as [x Hx]; [rewrite length_replicate; unfold NDIRECT in *; lia|].
  change (0 :: _) with (replicate 12 0). rewrite Hx. apply lookup_replicate in Hx as [-> _]. done.
Qed.

Lemma ex_meta b : meta_block ex_sb b → 1 ≤ b ≤ 3.
Proof.
  unfold meta_block, map_block, inode_block, log_block, BBLOCK, IBLOCK, BPB, IPB, BSIZE; simpl. change (1024 / 64) with 16. change (1024 * 8) with 8192.
  intros [(x & Hx & ->)|[(x & Hx & ->)|Hb]]; [div_lia|div_lia|lia].
Qed.

Lemma ex_disk_ok : disk_ok ex_sb ex_room.
Proof.
  split; [done|]. split; [done|]. split; [|split; [|split]].
  - intros b Hb Hr. assert (0 ≤ b < Z.of_nat 4) as Hb4 by (destruct Hb as [->|Hb%ex_meta]; lia). clear Hb Hr. revert b Hb4.
    apply (below_cases _ 4). intros i Hi. do 4 (destruct i as [|i]; [by vm_compute|]). lia.
  - intros b Hb%ex_meta. simpl. lia.
  - intros b (i & Hi & ->) (x & Hx & E). revert E. unfold BBLOCK, IBLOCK, BPB, IPB, BSIZE; simpl in *. change (1024 / 64) with 16. change (1024 * 8) with 8192. div_lia.
  - intros b Hb. unfold log_block in Hb; simpl in Hb. split.
    + intros (x & Hx & E). revert E. unfold BBLOCK, BPB, BSIZE; simpl in *. change (1024 * 8) with 8192. div_lia.
    + intros (x & Hx & E). revert E. unfold IBLOCK, IPB, BSIZE; simpl in *. change (1024 / 64) with 16. div_lia.
Qed.

Lemma ex_file_wf : file_wf ex_sb ex_room ex_dir.
Proof.
  split; [done| |].
  - intros i Hi. rewrite ex_fblk by done. case_decide; [|done]. intros _. split; [done|]. split; [by vm_compute|]. intros Hm%ex_meta. lia.
  - intros i j Hi Hj. rewrite !ex_fblk by done. repeat case_decide; (done || congruence).
Qed.

Lemma ex_room_ok : tx_rep ex_room ex_room.
Proof. split; [done|]. apply ex_store_ok. Qed.

Lemma ex_no_holes : no_holes ex_room ex_dir.
Proof. split; [done|]. intros bn H0 H1. unfold BSIZE in H1. simpl in H1. assert (bn = 0) as -> by lia. done. Qed.

(** ** Properties *)



(** C24: What [writei] has written, [readi] reads: the bytes, unless the disk
    was full. *)
Theorem write_read_roundtrip {St} `{TX : Txn St, !TxnOk St} (s : St) f t ip n srcaddr src dst off : let k := sb f in
  tx_rep s t → inodes f !! ip = Some n → i_dev n = ROOTDEV → 0 ≤ i_inum n < sb_ninodes k →
  disk_ok k t → file_wf k t n → no_holes t n → 0 ≤ off ≤ i_size n → off + Z.of_nat (length src) ≤ MAXFILE * BSIZE →
  write_cost off (Z.of_nat (length src)) ≤ t_room t →
  wp (r ← writei ip kernel_copyin srcaddr src off; x ← readi ip kernel_copy dst off r; mret (r, x)) (s, f) (λ '(r, (m, bytes)) σ,
    m = r ∧ bytes = take (Z.to_nat r) src ∧
    (r = Z.of_nat (length src) ∨ ∃ t', tx_rep (fst σ) t' ∧ ∀ b, 0 ≤ b < sb_size k → used t' k b = true)).
Proof.
  intros k R Hn Hd Hi Hok Hw Hh Hoff Hmax Hroom. wp_steps. eapply writei_ok; try done; [exact kernel_all|]. intros s' t' n' r R' Hr W Hr' Hend. wp_steps.
  assert (length (take (Z.to_nat r) src) = Z.to_nat r) as El by (rewrite length_take; lia).
  pose proof (wn_meta _ _ _ _ _ _ _ W) as Em. rewrite El in Em. assert (i_size n' = i_size n `max` (off + r)) as Esz by (rewrite Em; simpl; lia).
  change (MAXFILE * BSIZE) with 274432 in *. assert (0 ≤ i_size n) by lia.
  eapply (readi_ok ip n'); [done|by eapply put_inode_eq|by rewrite Em|apply W| |done|lia|lia|].
  { destruct (wn_disk _ _ _ _ _ _ _ W) as (Hlk & _). unfold file_unlocked. rewrite Hlk. done. }
  intros s2 R2 _. wp_steps.
  assert (readable (i_size n') off r = r) as ->.
  { unfold readable. rewrite Esz. destruct (off >? _) eqn:E1; bool_prop; [lia|]. destruct (off + r >=? 2 ^ 32) eqn:E2; [rewrite Z.geb_leb in E2; bool_prop; lia|]. simpl. lia. }
  split; [done|]. split.
  - rewrite (wn_bytes _ _ _ _ _ _ _ W). assert (length (take (Z.to_nat off) (fbytes t n)) = Z.to_nat off) as Eo.
    { rewrite length_take. pose proof (length_fbytes t n ltac:(lia)). lia. }
    rewrite drop_app_length' by done. rewrite take_app_length' by done. done.
  - destruct (is_full_or_done r (Z.of_nat (length src)) (∀ b, 0 ≤ b < sb_size k → used t' k b = true)) as [|Hf]; [done|done|by left|].
    right. by exists t'.
Qed.
Lemma write_read_roundtrip_witness :
  wp (r ← writei 0 kernel_copyin 0 ex_page 32; x ← readi 0 kernel_copy 0 32 r; mret (r, x)) (ex_room, ex_fs) (λ '(r, (m, bytes)) σ,
    m = r ∧ bytes = take (Z.to_nat r) ex_page ∧
    (r = Z.of_nat (length ex_page) ∨ ∃ t', tx_rep (fst σ) t' ∧ ∀ b, 0 ≤ b < sb_size ex_sb → used t' ex_sb b = true)).
Proof.
  apply (write_read_roundtrip ex_room ex_fs ex_room 0%nat ex_dir 0 ex_page 0 32); try done.
  - exact ex_room_ok.
  - exact ex_disk_ok.
  - exact ex_file_wf.
  - exact ex_no_holes.
Defined.
