(* ===== verification/Mkfs.v ===== *)
(** mkfs/mkfs.c: the program that makes the first disk image, and that the
    kernel finds on the image the files it was given. *)
From S2P Require Import Prelude Bytes Bio Txn TxnOps Fs FsBlocks FsInode FsWrite FsFrame.

(** ** Definitions *)

Definition NINODES : Z := 200.
Definition FSSIZE : Z := 2000.
Definition nbitmap : Z := FSSIZE / (BSIZE * 8) + 1.
Definition ninodeblocks : Z := NINODES / IPB + 1.
Definition nlog : Z := LOGSIZE.
Definition nmeta : Z := 2 + nlog + ninodeblocks + nbitmap.
Definition nblocks : Z := FSSIZE - nmeta.
(** The global [sb], as [main] fills it in. *)
Definition mkfs_sb : superblock :=
  Superblock FSMAGIC FSSIZE nblocks NINODES nlog 2 (2 + nlog) (2 + nlog + ninodeblocks).

(** The image file, by blocks, and the two counters.  [xint] and [xshort] are
    the little-endian fields of [Bytes]. *)
Record mkst := Mk { mk_img : gmap Z block; freeinode : Z; freeblock : Z }.
Local Notation K := (M mkst).

(** Reading past the end of the image file gives [die("read")].  Writing does
    not fail. *)
Definition rsect (sec : Z) : K block :=
  img ← gets mk_img;
  match img !! sec with
  | Some d => mret d
  | None => panic "read"
  end.
Definition wsect (sec : Z) (d : block) : K unit :=
  modify (λ m, Mk (<[sec := d]> (mk_img m)) (freeinode m) (freeblock m)).

(** A [struct dinode] is an [inode] of [Fs] of which only the fields on the disk
    count. *)
Definition din (inum : Z) : inode := Inode ROOTDEV inum 0 false false 0 0 0 0 0 [].
Definition winode (inum : Z) (ip : inode) : K unit :=
  let bn := IBLOCK inum mkfs_sb in
  d ← rsect bn;
  wsect bn (write_dinode ip (dinode_off inum) d).
Definition rinode (inum : Z) : K inode :=
  d ← rsect (IBLOCK inum mkfs_sb);
  mret (read_dinode d (dinode_off inum) (din inum)).

Definition new_dinode (inum type : Z) : inode := Inode ROOTDEV inum 0 false false type 0 0 1 0 (replicate 13 0).
Definition mkfs_ialloc (type : Z) : K Z :=
  inum ← gets freeinode;
  modify (λ m, Mk (mk_img m) (u32 (freeinode m + 1)) (freeblock m));;
  winode inum (new_dinode inum type);;
  mret inum.

Definition mkfs_balloc (used : Z) : K unit :=
  if negb (used <? BSIZE * 8) then panic "assert"
  else wsect (sb_bmapstart mkfs_sb) (foldl mark_bit zero_block (seqZ 0 used)).

(** [freeblock++]. *)
Definition next_block : K Z :=
  b ← gets freeblock;
  modify (λ m, Mk (mk_img m) (freeinode m) (u32 (freeblock m + 1)));;
  mret b.
(** [din.addrs[i]], with a block if it has none. *)
Definition slot_block (i : Z) (n : inode) : K inode :=
  if addr_at n i =? 0 then b ← next_block; mret (set_iaddr i b n) else mret n.
(** The block [x] that holds block [fbn] of the file. *)
Definition file_block (fbn : Z) (n : inode) : K (inode * Z) :=
  if fbn <? NDIRECT then
    n ← slot_block fbn n;
    mret (n, addr_at n fbn)
  else
    n ← slot_block NDIRECT n;
    indirect ← rsect (addr_at n NDIRECT);
    if indirect_at indirect (fbn - NDIRECT) =? 0 then
      b ← next_block;
      let indirect := set_indirect indirect (fbn - NDIRECT) b in
      wsect (addr_at n NDIRECT) indirect;;
      mret (n, indirect_at indirect (fbn - NDIRECT))
    else mret (n, indirect_at indirect (fbn - NDIRECT)).

(** A turn of the loop of [iappend]: the rest [p] of the bytes goes to [off]. *)
Definition append_step (st : inode * Z * list Z) : K (inode * Z * list Z + inode * Z) :=
  let '(n, off, p) := st in
  match p with
  | [] => mret (inr (n, off))
  | _ =>
      let fbn := off / BSIZE in
      if negb (fbn <? MAXFILE) then panic "assert"
      else
        r ← file_block fbn n;
        let '(n, x) := r in
        let n1 := Z.min (Z.of_nat (length p)) ((fbn + 1) * BSIZE - off) in
        buf ← rsect x;
        wsect x (list_inserts (Z.to_nat (off - fbn * BSIZE)) (take (Z.to_nat n1) p) buf);;
        mret (inl (n, u32 (off + n1), drop (Z.to_nat n1) p))
  end.
Definition iappend (inum : Z) (xp : list Z) : K unit :=
  n ← rinode inum;
  r ← while_ (S (length xp)) append_step (n, i_size n, xp);
  let '(n, off) := r in
  winode inum (set_isize off n).

(** The name of a file on the image: without user/ and without the underscore. *)
Definition SLASH : Z := 47.
Definition UNDERSCORE : Z := 95.
Definition USER_DIR : list Z := [117; 115; 101; 114; 47].
Definition shortname (path : list Z) : list Z := if bool_decide (take 5 path = USER_DIR) then drop 5 path else path.
Definition skip_underscore (name : list Z) : list Z :=
  match name with
  | c :: name' => if c =? UNDERSCORE then name' else name
  | [] => []
  end.
Definition entry (inum : Z) (name : list Z) : list Z := print_dirent (Dirent inum (strncpy_ (Z.to_nat DIRSIZ) name)).

(** A turn of the loop over the arguments.  [host] is the file system of the
    machine that mkfs runs on: none if a path cannot be opened, or what [read]
    answers until the end of the file. *)
Definition add_file (host : list Z → option (list (list Z))) (rootino : Z) (path : list Z) : K unit :=
  let name := shortname path in
  if existsb (Z.eqb SLASH) name then panic "assert"
  else
    match host path with
    | None => panic "open"
    | Some reads =>
        let name := skip_underscore name in
        inum ← mkfs_ialloc T_FILE;
        iappend rootino (entry inum name);;
        foreach (iappend inum) reads
    end.

Definition sb_bytes (k : superblock) : list Z :=
  concat (le_put 4 <$> [sb_magic k; sb_size k; sb_nblocks k; sb_ninodes k; sb_nlog k; sb_logstart k; sb_inodestart k; sb_bmapstart k]).

(** The superblock as a block. *)
Definition sb_block : block := list_inserts 0 (sb_bytes mkfs_sb) zero_block.
(** [main], from the empty image file on, with the paths after its name. *)
Definition mkfs_main (host : list Z → option (list (list Z))) (argv : list (list Z)) : K unit :=
  foreach (λ i, wsect i zero_block) (seqZ 0 FSSIZE);;
  wsect 1 sb_block;;
  rootino ← mkfs_ialloc T_DIR;
  if negb (rootino =? ROOTINO) then panic "assert"
  else
    iappend rootino (entry rootino [46]);;
    iappend rootino (entry rootino [46; 46]);;
    foreach (add_file host rootino) argv;;
    n ← rinode rootino;
    winode rootino (set_isize (u32 ((i_size n / BSIZE + 1) * BSIZE)) n);;
    used ← gets freeblock;
    mkfs_balloc used.
Definition mkfs_start : mkst := Mk ∅ 1 nmeta.

(** The store the kernel finds on an image, and an inode of it. *)
Definition image (m : mkst) : tstore := resting (mk_img m).
Definition dinode_at (t : tstore) (inum : Z) : inode := disk_inode t mkfs_sb inum (din inum).

(** How many blocks a file of [s] bytes takes. *)
Definition blocks_for (s : Z) : Z := (s + (BSIZE - 1)) / BSIZE + (if s >? NDIRECT * BSIZE then 1 else 0).

(** The image stands for [t], in which the blocks that were handed out are
    marked in the free map that is not written yet. *)
Record mk_rep (m : mkst) (t : tstore) : Prop := {
  mr_locked : t_locked t = ∅;
  mr_free : nmeta ≤ freeblock m ≤ FSSIZE;
  mr_file b : 0 ≤ b < FSSIZE → is_Some (mk_img m !! b);
  mr_view b : 0 ≤ b < FSSIZE → b ≠ sb_bmapstart mkfs_sb → tview t b = disk_block (mk_img m) b;
  mr_zero b : freeblock m ≤ b < FSSIZE → disk_block (mk_img m) b = zero_block;
  mr_used b : 0 ≤ b < FSSIZE → used t mkfs_sb b = (b <? freeblock m);
  mr_len b : length (tview t b) = Z.to_nat BSIZE;
  mr_block b : length (disk_block (mk_img m) b) = Z.to_nat BSIZE
}.

(** ** Lemmas *)

Local Notation k := mkfs_sb.

Lemma map_block_sb b : map_block k b ↔ b = sb_bmapstart k.
Proof.
  assert (∀ x, 0 ≤ x < FSSIZE → BBLOCK x k = sb_bmapstart k) as HB.
  { intros x Hx. unfold BBLOCK, BPB, FSSIZE, BSIZE in *. simpl sb_bmapstart. rewrite Z.div_small; lia. }
  split; [intros (x & Hx & ->); by apply HB|]. intros ->. exists 0. split; [done|]. symmetry. by apply HB.
Qed.
Lemma inode_block_sb b : inode_block k b → 32 ≤ b < 45.
Proof.
  intros (i & Hi & ->). unfold IBLOCK, IPB, BSIZE. change (1024 / 64) with 16.
  change (sb_ninodes k) with 200 in Hi. change (sb_inodestart k) with 32. div_lia.
Qed.
Lemma log_block_sb b : log_block k b → 2 ≤ b < 32.
Proof. done. Qed.
Lemma meta_block_sb b : meta_block k b → 2 ≤ b < nmeta.
Proof.
  change nmeta with 46. intros [Hb|[Hb|Hb]]; [apply map_block_sb in Hb; change (sb_bmapstart k) with 45 in Hb; lia|..].
  - apply inode_block_sb in Hb. lia.
  - apply log_block_sb in Hb. lia.
Qed.

Section rep.
Context (m : mkst) (t : tstore) (R : mk_rep m t).

Lemma rep_disk_ok : disk_ok k t.
Proof.
  split; [apply R|]. split; [done|]. split_and!.
  - intros b Hb Hr. rewrite (mr_used _ _ R) by done. apply Z.ltb_lt. pose proof (mr_free _ _ R). change nmeta with 46 in *.
    destruct Hb as [->|Hb]; [lia|]. apply meta_block_sb in Hb. change nmeta with 46 in *. lia.
  - intros b Hb. apply meta_block_sb in Hb. change nmeta with 46 in *. change (sb_size k) with 2000. lia.
  - intros b Hb%inode_block_sb Hm%map_block_sb. change (sb_bmapstart k) with 45 in Hm. lia.
  - intros b Hb%log_block_sb. split; [intros Hm%map_block_sb; change (sb_bmapstart k) with 45 in Hm; lia|].
    intros Hi%inode_block_sb. lia.
Qed.

(** A block that has been handed out, or an inode block, changes. *)
Lemma rep_logged x d : 0 ≤ x < freeblock m → x ≠ sb_bmapstart k → length d = Z.to_nat BSIZE →
  mk_rep (Mk (<[x := d]> (mk_img m)) (freeinode m) (freeblock m)) (logged x d t).
Proof.
  intros Hx Hm Hd. pose proof (mr_free _ _ R) as Hf. split; simpl.
  - apply R.
  - done.
  - intros b Hb. destruct (decide (b = x)) as [->|]; [rewrite lookup_insert_eq; eauto|]. rewrite lookup_insert_ne by done. by apply R.
  - intros b Hb Hn. rewrite tview_logged. unfold disk_block. case_decide as E.
    + subst b. by rewrite lookup_insert_eq.
    + rewrite lookup_insert_ne by done. by apply R.
  - intros b Hb. unfold disk_block. rewrite lookup_insert_ne by lia. by apply R.
  - intros b Hb. rewrite used_logged; [by apply R|]. intros E. apply Hm. rewrite <- E. apply map_block_sb. by exists b.
  - intros b. rewrite tview_logged. case_decide; [done|]. apply R.
  - intros b. unfold disk_block. destruct (decide (b = x)) as [->|]; [by rewrite lookup_insert_eq|]. rewrite lookup_insert_ne by done. apply R.
Qed.

Lemma rep_alloc : freeblock m < FSSIZE → let b := freeblock m in
  mk_rep (Mk (mk_img m) (freeinode m) (b + 1)) (alloc k b t) ∧ used t k b = false.
Proof.
  intros Hb b. pose proof (mr_free _ _ R) as Hf. fold b in Hf, Hb.
  assert (used t k b = false) as Hu. { rewrite (mr_used _ _ R) by (change nmeta with 46 in *; lia). apply Z.ltb_irrefl. }
  assert (0 ≤ b < sb_size k) as Hr by (change nmeta with 46 in *; change (sb_size k) with FSSIZE; lia).
  split; [|done]. split; simpl.
  - apply R.
  - lia.
  - apply R.
  - intros x Hx Hn. destruct (decide (x = b)) as [->|Hne].
    + rewrite alloc_zero. symmetry. apply (mr_zero _ _ R). fold b. lia.
    + rewrite (alloc_view k t); [by apply R|done| |done]. intros E%map_block_sb. done.
  - intros x Hx. apply (mr_zero _ _ R). fold b. lia.
  - intros x Hx. rewrite (alloc_used k t rep_disk_ok (mr_len _ _ R)) by done. rewrite (mr_used _ _ R) by done. fold b.
    destruct (Z.ltb_spec x b), (Z.eqb_spec x b), (Z.ltb_spec x (b + 1)); simpl; (done || lia).
  - intros x. unfold alloc, mark_used. rewrite !tview_logged. repeat case_decide; [done|rewrite length_mark_bit; apply R|apply R].
  - apply R.
Qed.

Lemma wp_rsect x (Q : block → mkst → Prop) : 0 ≤ x < FSSIZE → x ≠ sb_bmapstart k → Q (tview t x) m → wp (rsect x) m Q.
Proof.
  intros Hx Hn HQ. unfold rsect. wp_steps. destruct (mr_file _ _ R x Hx) as [d Hd]. rewrite Hd. apply wp_ret.
  rewrite (mr_view _ _ R) in HQ by done. unfold disk_block in HQ. by rewrite Hd in HQ.
Qed.

(** The inode [n] is written to the disk. *)
Lemma wp_winode inum n (Q : unit → mkst → Prop) : 0 ≤ inum < NINODES → i_inum n = inum →
  (∀ m', mk_rep m' (inode_logged n k t) → freeinode m' = freeinode m → freeblock m' = freeblock m → Q tt m') →
  wp (winode inum n) m Q.
Proof.
  intros Hi En HQ. assert (inode_block k (IBLOCK inum k)) as Hb by (by exists inum). apply inode_block_sb in Hb.
  pose proof (mr_free _ _ R) as Hf. change nmeta with 46 in *.
  assert (IBLOCK inum k ≠ sb_bmapstart k) by (change (sb_bmapstart k) with 45; lia).
  unfold winode. wp_steps. apply wp_rsect; [unfold FSSIZE; lia|done|]. wp_steps. subst inum.
  apply HQ; [|done|done]. apply rep_logged; [lia|done|]. rewrite length_write_dinode. apply R.
Qed.

Lemma wp_rinode inum (Q : inode → mkst → Prop) : 0 ≤ inum < NINODES → Q (dinode_at t inum) m → wp (rinode inum) m Q.
Proof.
  intros Hi HQ. assert (inode_block k (IBLOCK inum k)) as Hb by (by exists inum). apply inode_block_sb in Hb.
  unfold rinode. wp_steps. apply wp_rsect; [unfold FSSIZE; lia|change (sb_bmapstart k) with 45; lia|]. wp_steps. exact HQ.
Qed.

Lemma wp_next_block (Q : Z → mkst → Prop) : freeblock m < FSSIZE →
  (let b := freeblock m in used t k b = false → ∀ m', mk_rep m' (alloc k b t) → freeinode m' = freeinode m → freeblock m' = b + 1 → Q b m') →
  wp next_block m Q.
Proof.
  intros Hb HQ. destruct (rep_alloc Hb) as [Ra Hu]. pose proof (mr_free _ _ R) as Hf. change nmeta with 46 in *. unfold FSSIZE in *.
  unfold next_block. wp_steps. rewrite u32_small by lia. by apply HQ.
Qed.
End rep.

(** *** The blocks of a file *)

(** What the file [n] of [t] has become. *)
Definition grew (m : mkst) (t : tstore) (n : inode) (c : Z) (m' : mkst) (t' : tstore) (n' : inode) : Prop :=
  mk_rep m' t' ∧ grown k t n t' n' ∧ file_wf k t' n' ∧ freeinode m' = freeinode m ∧ freeblock m' ≤ freeblock m + c.

Lemma slot_block_ok m t n i (Q : inode → mkst → Prop) : mk_rep m t → file_wf k t n → 0 ≤ i ≤ NDIRECT →
  let c := if addr_at n i =? 0 then 1 else 0 in freeblock m + c ≤ FSSIZE →
  (∀ m' t' n', grew m t n c m' t' n' → addr_at n' i ≠ 0 → (i ≠ NDIRECT → addr_at n' NDIRECT = addr_at n NDIRECT) → Q n' m') →
  wp (slot_block i n) m Q.
Proof.
  intros R Hw Hi c Hc HQ. unfold slot_block. destruct (addr_at n i =? 0) eqn:E; bool_prop.
  - wp_steps. apply (wp_next_block m t R); [unfold c in Hc; lia|]. intros b Hu m' R' E1 E2. wp_steps.
    pose proof (mr_free _ _ R) as Hf. change nmeta with 46 in *.
    destruct (slot_grown k t (rep_disk_ok m t R) (mr_len _ _ R) n i b Hw Hi E ltac:(change (sb_size k) with FSSIZE; unfold b; unfold c in Hc; lia) Hu) as (G & W & D).
    apply (HQ m' (alloc k b t) (set_iaddr i b n)).
    + split_and!; try done. unfold c. lia.
    + rewrite addr_at_set by (done || apply Hw). rewrite decide_True by done. unfold b. lia.
    + intros Hne. rewrite addr_at_set by (done || apply Hw). by rewrite decide_False.
  - wp_steps. apply (HQ m t n); [|done|done]. split_and!; [done|apply grown_refl|done|done|unfold c; lia].
Qed.

Lemma grew_trans m t n c1 m1 t1 n1 c2 m2 t2 n2 : file_wf k t n → grew m t n c1 m1 t1 n1 → grew m1 t1 n1 c2 m2 t2 n2 →
  grew m t n (c1 + c2) m2 t2 n2.
Proof.
  intros Hw (R1 & G1 & W1 & I1 & F1) (R2 & G2 & W2 & I2 & F2). split_and!; try done; [by eapply grown_trans|congruence|lia].
Qed.

(** How many blocks [file_block] takes. *)
Definition block_cost (t : tstore) (n : inode) (bn : Z) : Z :=
  (if (NDIRECT <=? bn) && (addr_at n NDIRECT =? 0) then 1 else 0) + (if blk_of t n bn =? 0 then 1 else 0).

Lemma indirect_block_ok m t n bn (Q : inode * Z → mkst → Prop) : mk_rep m t → file_wf k t n → NDIRECT ≤ bn < MAXFILE →
  addr_at n NDIRECT ≠ 0 → let c := if blk_of t n bn =? 0 then 1 else 0 in freeblock m + c ≤ FSSIZE →
  (∀ m' t', grew m t n c m' t' n → blk_of t' n bn ≠ 0 → Q (n, blk_of t' n bn) m') →
  wp (indirect ← rsect (addr_at n NDIRECT);
      if indirect_at indirect (bn - NDIRECT) =? 0 then
        b ← next_block;
        let indirect := set_indirect indirect (bn - NDIRECT) b in
        wsect (addr_at n NDIRECT) indirect;;
        mret (n, indirect_at indirect (bn - NDIRECT))
      else mret (n, indirect_at indirect (bn - NDIRECT))) m Q.
Proof.
  intros R Hw Hbn Ha c Hc HQ. destruct (addr_at_data k t n Hw Ha) as (Ha1 & Ha2 & Ha3). set (a := addr_at n NDIRECT) in *.
  change (sb_size k) with FSSIZE in Ha1. assert (a ≠ sb_bmapstart k) as Ham by (intros E; apply Ha3; left; by apply map_block_sb).
  assert (a < freeblock m) as Halt by (rewrite (mr_used _ _ R) in Ha2 by lia; by apply Z.ltb_lt).
  assert (blk_of t n bn = indirect_at (tview t a) (bn - NDIRECT)) as Eb.
  { unfold blk_of. destruct (Z.ltb_spec bn NDIRECT); [lia|]. fold a. apply Z.eqb_neq in Ha. by rewrite Ha. }
  wp_steps. apply (wp_rsect m t R); [lia|done|]. rewrite <- Eb. unfold c in *. destruct (blk_of t n bn =? 0) eqn:E; bool_prop.
  - wp_steps. apply (wp_next_block m t R); [lia|]. intros b Hu m1 R1 E1 E2. pose proof (mr_free _ _ R) as Hf. change nmeta with 46 in *.
    assert (0 < b < sb_size k) as Hb by (change (sb_size k) with FSSIZE; unfold b; lia).
    destruct (indirect_grown k t n bn b (rep_disk_ok m t R) Hw (mr_len _ _ R) Hbn Ha E Hb Hu) as (G & W & D & Ebn & _).
    fold a in G, W, D, Ebn. set (t2 := logged a _ _) in *.
    assert (tview (alloc k b t) a = tview t a) as Ev.
    { apply (alloc_view k t); [intros Ex; rewrite Ex in Ha2; congruence|intros ?; by apply Ha3; left|lia]. }
    assert (indirect_at (set_indirect (tview t a) (bn - NDIRECT) b) (bn - NDIRECT) = b) as ->.
    { unfold MAXFILE, FSSIZE in *. rewrite indirect_set by (try apply R; change (sb_size k) with 2000 in *; lia). by rewrite decide_True. }
    unfold wsect. wp_steps. replace (n, b) with (n, blk_of t2 n bn) by (by rewrite Ebn). apply (HQ _ t2); [|rewrite Ebn; lia]. split_and!; try done; [|simpl; lia].
    apply rep_logged; [done|lia|done|]. unfold set_indirect. rewrite length_set_field. apply R.
  - wp_steps. apply (HQ m t); [|done]. split_and!; [done|apply grown_refl|done|done|lia].
Qed.

Lemma file_block_ok m t n bn (Q : inode * Z → mkst → Prop) : mk_rep m t → file_wf k t n → 0 ≤ bn < MAXFILE →
  let c := block_cost t n bn in freeblock m + c ≤ FSSIZE →
  (∀ m' t' n', grew m t n c m' t' n' → blk_of t' n' bn ≠ 0 → Q (n', blk_of t' n' bn) m') →
  wp (file_block bn n) m Q.
Proof.
  intros R Hw Hbn c Hc HQ. unfold file_block. destruct (Z.ltb_spec bn NDIRECT) as [Hlt|Hge].
  - assert (∀ t n, blk_of t n bn = addr_at n bn) as Eb by (intros; unfold blk_of; by destruct (Z.ltb_spec bn NDIRECT); [|lia]).
    assert (c = if addr_at n bn =? 0 then 1 else 0) as Ec.
    { unfold c, block_cost. rewrite Eb. destruct (Z.leb_spec NDIRECT bn); [lia|]. done. }
    wp_steps. apply (slot_block_ok m t n bn); [done|done|lia|lia|]. intros m' t' n' G Hne _. wp_steps.
    rewrite <- (Eb t' n'). apply HQ; [by rewrite Ec|by rewrite Eb].
  - set (c1 := if addr_at n NDIRECT =? 0 then 1 else 0). set (c2 := if blk_of t n bn =? 0 then 1 else 0).
    assert (c = c1 + c2) as Ec. { unfold c, block_cost. destruct (Z.leb_spec NDIRECT bn); [|lia]. done. }
    assert (0 ≤ c1 ∧ 0 ≤ c2) as [H1 H2] by (unfold c1, c2; split; case_if; lia).
    wp_steps. apply (slot_block_ok m t n NDIRECT); [done|done|done|fold c1; lia|]. fold c1. intros m1 t1 n1 G1 Hne _. cbv beta.
    pose proof G1 as (R1 & Gr1 & W1 & I1 & F1).
    assert ((if blk_of t1 n1 bn =? 0 then 1 else 0) ≤ c2) as Hc2.
    { unfold c2. destruct (blk_of t n bn =? 0) eqn:E; [case_if; lia|]. bool_prop.
      rewrite <- !fblk_data in * by (unfold NDIRECT in *; lia). rewrite (gr_keep _ _ _ _ _ Gr1 bn ltac:(lia) E). apply Z.eqb_neq in E. by rewrite E. }
    eapply (indirect_block_ok m1 t1 n1 bn); [done|done|lia|done|lia|].
    intros m2 t2 G2 Hn2. apply (HQ m2 t2 n1); [|done]. destruct (grew_trans _ _ _ _ _ _ _ _ _ _ _ Hw G1 G2) as (A & B & C & D & F).
    split_and!; try done. lia.
Qed.

(** *** [iappend] *)

Lemma mkfs_maxfile : MAXFILE = 268 ∧ NDIRECT = 12 ∧ BSIZE = 1024.
Proof. done. Qed.

(** A file takes a new block, and the indirect block, where its size gets past
    the end of a block. *)
Lemma blocks_for_step off e : 0 ≤ off → off < e ≤ (off / BSIZE + 1) * BSIZE →
  blocks_for e = blocks_for off + (if off mod BSIZE =? 0 then 1 else 0) + (if off =? NDIRECT * BSIZE then 1 else 0).
Proof.
  unfold blocks_for, NDIRECT, BSIZE. intros Ho He. change (12 * 1024) with 12288.
  rewrite !Z.gtb_ltb. destruct (Z.ltb_spec 12288 e), (Z.ltb_spec 12288 off), (Z.eqb_spec (off mod 1024) 0), (Z.eqb_spec off 12288); div_lia.
Qed.
Lemma blocks_for_mono a b : a ≤ b → blocks_for a ≤ blocks_for b.
Proof.
  unfold blocks_for, NDIRECT, BSIZE. intros. rewrite !Z.gtb_ltb. destruct (Z.ltb_spec (12 * 1024) a), (Z.ltb_spec (12 * 1024) b); div_lia.
Qed.

Lemma block_cost_wrote t n w t1 n1 : wrote k t n (i_size n) w t1 n1 → 0 ≤ i_size n → let off := i_size n + Z.of_nat (length w) in
  off / BSIZE < MAXFILE →
  block_cost t1 n1 (off / BSIZE) ≤ (if off mod BSIZE =? 0 then 1 else 0) + (if off =? NDIRECT * BSIZE then 1 else 0).
Proof.
  intros W Hs off Hm. assert (0 ≤ off) as Ho by lia. destruct mkfs_maxfile as (E1 & E2 & E3). rewrite E1, E2, E3 in *.
  assert (∀ bn, 0 ≤ bn → bn * 1024 < off → blk_of t1 n1 bn ≠ 0) as Ha.
  { intros bn Hbn Hlt. apply (wr_alloc _ _ _ _ _ _ _ W); [done|]. rewrite E3. fold off. lia. }
  unfold block_cost. rewrite E2.
  assert ((if blk_of t1 n1 (off / 1024) =? 0 then 1 else 0) ≤ (if off mod 1024 =? 0 then 1 else 0)) as H1.
  { destruct (Z.eqb_spec (off mod 1024) 0); [case_if; lia|]. specialize (Ha (off / 1024) ltac:(div_lia) ltac:(div_lia)).
    apply Z.eqb_neq in Ha. by rewrite Ha. }
  enough ((if (12 <=? off / 1024) && (addr_at n1 12 =? 0) then 1 else 0) ≤ (if off =? 12 * 1024 then 1 else 0)) by lia.
  destruct (Z.leb_spec 12 (off / 1024)); [|simpl; case_if; lia]. destruct (Z.eqb_spec off (12 * 1024)); [simpl; case_if; lia|].
  specialize (Ha 12 ltac:(lia) ltac:(div_lia)). unfold blk_of in Ha. rewrite E2 in Ha. simpl in Ha. simpl.
  destruct (addr_at n1 12 =? 0); [done|lia].
Qed.

Section append.
Context (t : tstore) (n : inode) (Hh : no_holes t n).
Notation size := (i_size n).

Lemma append_step_ok m1 t1 n1 w p (Q : _ → mkst → Prop) : mk_rep m1 t1 → wrote k t n size w t1 n1 → p ≠ [] →
  let off := size + Z.of_nat (length w) in let e := off + Z.of_nat (length p) in
  e ≤ MAXFILE * BSIZE → freeblock m1 + blocks_for e ≤ FSSIZE + blocks_for off →
  (∀ m' t' n' c r, mk_rep m' t' → p = c ++ r → c ≠ [] → wrote k t n size (w ++ c) t' n' → freeinode m' = freeinode m1 →
     freeblock m' + blocks_for off ≤ freeblock m1 + blocks_for (off + Z.of_nat (length c)) →
     Q (inl (n', off + Z.of_nat (length c), r)) m') →
  wp (append_step (n1, off, p)) m1 Q.
Proof.
  intros R W Hp off e He Hroom HQ. destruct Hh as [Hs _]. destruct mkfs_maxfile as (E1 & E2 & E3).
  assert (0 < Z.of_nat (length p)) as Hlp by (destruct p; [done|simpl; lia]).
  unfold append_step. destruct p as [|x0 p0]; [done|]. clear Hp. set (p := x0 :: p0) in *. clearbody p.
  set (m := Z.min (Z.of_nat (length p)) ((off / BSIZE + 1) * BSIZE - off)).
  assert (0 < m ≤ BSIZE - off mod BSIZE) as Hm by (unfold m; rewrite E3; div_lia).
  assert (off / BSIZE < MAXFILE) as Hfb by (rewrite E1, E3 in *; div_lia).
  rewrite (proj2 (Z.ltb_lt _ _) Hfb). simpl negb. cbv iota.
  assert (blocks_for (off + m) = blocks_for off + (if off mod BSIZE =? 0 then 1 else 0) + (if off =? NDIRECT * BSIZE then 1 else 0)) as Hcost.
  { apply blocks_for_step; [lia|]. unfold m. rewrite E3 in *. div_lia. }
  pose proof (blocks_for_mono (off + m) e ltac:(lia)). pose proof (block_cost_wrote t n w t1 n1 W ltac:(lia) Hfb) as Hc. fold off in Hc.
  wp_steps. apply (file_block_ok m1 t1 n1 (off / BSIZE)); [done|by eapply wr_wf|rewrite E3; div_lia|lia|].
  intros m2 t2 n2 (R2 & G2 & W2 & I2 & F2) Hne. wp_steps.
  assert (wrote k t n size w t2 n2) as Wr2 by (eapply wrote_grown; [lia|done|done|done|by apply (rep_disk_ok m2)]).
  set (b := blk_of t2 n2 (off / BSIZE)) in *.
  assert (b = fblk t2 n2 (off / BSIZE)) as Eb by (rewrite fblk_data by (rewrite E3; div_lia); done).
  destruct (fw_data _ _ _ W2 (off / BSIZE) ltac:(rewrite E3; div_lia)) as (H1 & H2 & H3); [by rewrite <- Eb|]. rewrite <- Eb in H1, H2, H3.
  change (sb_size k) with FSSIZE in H1. assert (b ≠ sb_bmapstart k) as Hbm by (intros E; apply H3; left; by apply map_block_sb).
  assert (b < freeblock m2) by (rewrite (mr_used _ _ R2) in H2 by lia; by apply Z.ltb_lt).
  apply (wp_rsect m2 t2 R2); [lia|done|]. wp_steps. fold m. rewrite u32_small by (rewrite E1, E3 in *; lia).
  assert (Z.of_nat (length (take (Z.to_nat m) p)) = m) as Elen by (rewrite length_take; lia).
  replace (off - off / BSIZE * BSIZE) with (off mod BSIZE) by (rewrite E3; div_lia).
  unfold wsect. wp_steps. replace (off + m) with (off + Z.of_nat (length (take (Z.to_nat m) p))) by lia.
  eapply (HQ _ (logged b (list_inserts (Z.to_nat (off mod BSIZE)) (take (Z.to_nat m) p) (tview t2 b)) t2)).
  - apply rep_logged; [done|lia|done|]. rewrite length_inserts. apply R2.
  - by rewrite take_drop.
  - intros E. rewrite E in Elen. simpl in Elen. lia.
  - apply wrote_data; [done|apply R2|lia|done| | |done]; fold off; [lia|rewrite Elen; lia].
  - done.
  - simpl. rewrite Elen. lia.
Qed.

Lemma append_loop fuel : ∀ m1 t1 n1 w p (Q : _ → mkst → Prop), mk_rep m1 t1 → wrote k t n size w t1 n1 → (length p < fuel)%nat →
  let off := size + Z.of_nat (length w) in let e := off + Z.of_nat (length p) in
  e ≤ MAXFILE * BSIZE → freeblock m1 + blocks_for e ≤ FSSIZE + blocks_for off →
  (∀ m' t' n', mk_rep m' t' → wrote k t n size (w ++ p) t' n' → freeinode m' = freeinode m1 →
     freeblock m' + blocks_for off ≤ freeblock m1 + blocks_for e → Q (n', e) m') →
  wp (while_ fuel append_step (n1, off, p)) m1 Q.
Proof.
  induction fuel as [|fuel IH]; intros m1 t1 n1 w p Q R W Hf off e He Hroom HQ; [lia|]. cbn [while_].
  destruct (decide (p = [])) as [->|Hp].
  - unfold append_step. wp_steps. replace off with e by (unfold e; simpl; lia). eapply HQ; [done|by rewrite app_nil_r|done|].
    unfold e. simpl. rewrite Z.add_0_r. lia.
  - apply wp_bind. apply (append_step_ok m1 t1 n1 w p); [done..|]. intros m2 t2 n2 c r R2 -> Hc W2 I2 F2. cbv beta iota.
    subst off e. rewrite length_app, Nat2Z.inj_add in *. assert (0 < length c)%nat by (destruct c; [done|simpl; lia]).
    pose proof (IH m2 t2 n2 (w ++ c) r Q R2 W2 ltac:(lia)) as HI. rewrite length_app, Nat2Z.inj_add in HI. cbv zeta in HI.
    rewrite !Z.add_assoc in *. apply HI; [lia|lia|]. intros m3 t3 n3 R3 W3 I3 F3. rewrite <- app_assoc in W3. apply (HQ m3 t3 n3); [done|done|congruence|lia].
Qed.
End append.

Lemma dinode_typed t inum : inode_typed (dinode_at t inum).
Proof.
  assert (∀ n d o, - 2 ^ 15 ≤ i16 (field n d o) < 2 ^ 15) as H2 by (intros; unfold i16; div_lia).
  assert (∀ d o, 0 ≤ field 4 d o < 2 ^ 32) as H4 by (intros; apply (field_range 4)).
  unfold inode_typed, dinode_at, disk_inode, read_dinode; cbn [i_type i_major i_minor i_nlink i_size i_addrs].
  split_and!; try apply H2; try apply H4; [done|]. apply Forall_fmap, Forall_true. intros; apply H4.
Qed.

(** An inode of the image is known by what the disk has of it. *)
Lemma dinode_ext t inum n : i_dev n = ROOTDEV → i_inum n = inum → i_ref n = 0 → i_lock n = false → i_valid n = false →
  imeta (dinode_at t inum) = imeta n → dinode_at t inum = n.
Proof.
  intros H1 H2 H3 H4 H5. assert (∃ a b c d e f, dinode_at t inum = Inode ROOTDEV inum 0 false false a b c d e f) as (a & b & c & d & e & f & ->)
    by (by eexists _, _, _, _, _, _). destruct n. unfold imeta. simpl in *. by intros [= -> -> -> -> -> ->]; subst.
Qed.

Lemma iappend_ok m t inum src : mk_rep m t → 0 ≤ inum < NINODES → let n := dinode_at t inum in
  file_wf k t n → no_holes t n → i_size n + Z.of_nat (length src) ≤ MAXFILE * BSIZE →
  freeblock m + blocks_for (i_size n + Z.of_nat (length src)) ≤ FSSIZE + blocks_for (i_size n) →
  wp (iappend inum src) m (λ _ m', ∃ t', mk_rep m' t' ∧ written k t n (i_size n) src t' (dinode_at t' inum) ∧
    freeinode m' = freeinode m ∧
    freeblock m' + blocks_for (i_size n) ≤ freeblock m + blocks_for (i_size n + Z.of_nat (length src))).
Proof.
  intros R Hi n Hw Hh Hlen Hroom. pose proof (proj1 Hh) as Hs. unfold iappend. wp_steps. apply (wp_rinode m t R); [done|]. fold n. wp_steps.
  pose proof (append_loop t n Hh (S (length src)) m t n [] src) as HL. cbn [length] in HL. change (Z.of_nat 0) with 0 in HL.
  cbv zeta in HL. rewrite Z.add_0_r in HL.
  apply HL; [done|apply wrote_refl; [done|by apply (rep_disk_ok m)|done|lia]|lia|lia|lia|].
  intros m1 t1 n1 R1 W1 I1 F1. rewrite app_nil_l in W1. cbv beta iota.
  assert (inode_typed n) as Ht by apply dinode_typed.
  pose proof (wrote_written k t n (i_size n) src t1 n1 W1 (mr_len _ _ R1) Hi Hw (rep_disk_ok m t R) ltac:(lia) ltac:(lia)) as Wn.
  assert (sized (i_size n) (Z.of_nat (length src)) n n1 = set_isize (i_size n + Z.of_nat (length src)) n1) as E
    by (unfold sized; f_equal; lia).
  rewrite E in Wn. pose proof (wr_meta _ _ _ _ _ _ _ W1) as Em.
  apply (wp_winode m1 t1 R1); [done|by rewrite Em|]. intros m2 R2 I2 F2. eexists. split; [done|]. split; [|split; [congruence|lia]].
  rewrite (dinode_ext _ inum (set_isize (i_size n + Z.of_nat (length src)) n1)); [done|by rewrite Em..|]. by apply (wn_inode _ _ _ _ _ _ _ Wn).
Qed.

(** *** The files on the image *)

Record is_file (t : tstore) (inum ty : Z) (d : list Z) : Prop := {
  if_wf : file_wf k t (dinode_at t inum);
  if_holes : no_holes t (dinode_at t inum);
  if_data i : -1 ≤ i < MAXFILE → fblk t (dinode_at t inum) i ≠ 0 → nmeta ≤ fblk t (dinode_at t inum) i;
  if_type : i_type (dinode_at t inum) = ty;
  if_nlink : i_nlink (dinode_at t inum) = 1;
  if_bytes : fbytes t (dinode_at t inum) = d
}.

(** Files [fs], with their types, are the inodes from 1 on. *)
Definition inum_of (i : nat) : Z := Z.of_nat i + 1.
Definition blocks_all (fs : list (Z * list Z)) : Z := foldr (λ f a, blocks_for (Z.of_nat (length f.2)) + a) 0 fs.
Record files_on (m : mkst) (t : tstore) (fs : list (Z * list Z)) : Prop := {
  fo_rep : mk_rep m t;
  fo_sb : tview t 1 = sb_block;
  fo_count : freeinode m = inum_of (length fs) ∧ inum_of (length fs) ≤ NINODES;
  fo_blocks : freeblock m ≤ nmeta + blocks_all fs;
  fo_file i ty d : fs !! i = Some (ty, d) → is_file t (inum_of i) ty d;
  fo_apart i j : (i < length fs)%nat → (j < length fs)%nat → i ≠ j → apart t (dinode_at t (inum_of i)) (dinode_at t (inum_of j))
}.

(** A file that keeps its inode and its blocks. *)
Section kept.
Context (t t' : tstore) (Hu : ∀ b, 0 ≤ b < sb_size k → used t k b = true → used t' k b = true).
Definition kept (inum : Z) : Prop := dinode_at t' inum = dinode_at t inum ∧
  let n := dinode_at t inum in ∀ i, -1 ≤ i < MAXFILE → fblk t n i ≠ 0 → tview t' (fblk t n i) = tview t (fblk t n i).

Lemma kept_is_file inum ty d : kept inum → is_file t inum ty d → is_file t' inum ty d.
Proof.
  intros [E Hv] [H1 H2 H6 H3 H4 H5]. split; rewrite ?E; try done.
  - by apply (agree_file_wf t t').
  - by apply (agree_no_holes t t').
  - intros i Hi. rewrite (agree_fblk t t') by done. by apply H6.
  - by rewrite (agree_fbytes t t').
Qed.
Lemma kept_apart i j : kept i → kept j → apart t (dinode_at t i) (dinode_at t j) → apart t' (dinode_at t' i) (dinode_at t' j).
Proof.
  intros [E1 V1] [E2 V2] Ha. rewrite E1, E2. intros x y Hx Hy. rewrite !(agree_fblk t t') by done. by apply Ha.
Qed.
End kept.

Lemma is_file_length t inum ty d : is_file t inum ty d → i_size (dinode_at t inum) = Z.of_nat (length d).
Proof. intros F. rewrite <- (if_bytes _ _ _ _ F). symmetry. apply length_fbytes. apply F. Qed.

Lemma blocks_all_insert fs i ty d d' : fs !! i = Some (ty, d) →
  blocks_all (<[i := (ty, d')]> fs) = blocks_all fs - blocks_for (Z.of_nat (length d)) + blocks_for (Z.of_nat (length d')).
Proof.
  revert i. induction fs as [|f fs IH]; intros [|i] Hi; simpl in *; [done..| |].
  - simplify_eq. simpl. lia.
  - rewrite (IH i Hi). lia.
Qed.

(** The inode block of an inode holds no block of a file. *)
Lemma fblk_not_inode t n i b : file_wf k t n → inode_block k b → -1 ≤ i < MAXFILE → fblk t n i ≠ 0 → fblk t n i ≠ b.
Proof. intros Hw Hb Hi Hne E. destruct (fw_data _ _ _ Hw i Hi Hne) as (_ & _ & Hm). apply Hm. right; left. by rewrite E. Qed.

(** After an inode has been written every other file is kept. *)
Lemma kept_inode t n inum ty d : is_file t inum ty d → inum ≠ i_inum n → 0 ≤ i_inum n < NINODES → (∀ b, length (tview t b) = Z.to_nat BSIZE) →
  kept t (inode_logged n k t) inum.
Proof.
  intros F Hne Hi Hl. split; [by apply disk_inode_other|]. intros n' i Hr Hnz. unfold inode_logged. rewrite tview_logged, decide_False; [done|].
  intros E. eapply (fblk_not_inode t n' i); [apply F|by exists (i_inum n)|done|done|done].
Qed.

Lemma used_inode t n x : 0 ≤ i_inum n < NINODES → 0 ≤ x < sb_size k → used (inode_logged n k t) k x = used t k x.
Proof.
  intros Hi Hx. apply used_logged. intros E. assert (inode_block k (IBLOCK (i_inum n) k)) as Hb by (by exists (i_inum n)).
  apply inode_block_sb in Hb. assert (map_block k (BBLOCK x k)) as Hm%map_block_sb by (by exists x).
  change (sb_bmapstart k) with 45 in Hm. lia.
Qed.

Lemma view_sb_inode t n : 0 ≤ i_inum n < NINODES → tview (inode_logged n k t) 1 = tview t 1.
Proof.
  intros Hi. unfold inode_logged. rewrite tview_logged, decide_False; [done|]. intros E.
  assert (inode_block k (IBLOCK (i_inum n) k)) as Hb%inode_block_sb by (by exists (i_inum n)). lia.
Qed.

(** A file with no blocks. *)
Lemma empty_fblk t n i : i_addrs n = replicate 13 0 → -1 ≤ i < MAXFILE → fblk t n i = 0.
Proof.
  intros E Hi. assert (∀ j, addr_at n j = 0) as Ha.
  { intros j. unfold addr_at, getZ. rewrite E. case_decide; [|done]. destruct (replicate 13 0 !! Z.to_nat j) as [x|] eqn:Ex; [|done].
    by apply lookup_replicate in Ex as [-> _]. }
  unfold fblk, blk_of. rewrite !Ha. by repeat case_if.
Qed.
Lemma empty_file t inum ty : (∀ b, length (tview t b) = Z.to_nat BSIZE) → - 2 ^ 15 ≤ ty < 2 ^ 15 →
  let t' := inode_logged (new_dinode inum ty) k t in is_file t' inum ty [] ∧ i_addrs (dinode_at t' inum) = replicate 13 0.
Proof.
  intros Hl Hty t'. assert (inode_typed (new_dinode inum ty)) as Ht.
  { unfold inode_typed, new_dinode; cbn [i_type i_major i_minor i_nlink i_size i_addrs]. split_and!; try lia; try done. by apply Forall_replicate. }
  assert (dinode_at t' inum = new_dinode inum ty) as E by (apply dinode_ext; try done; by apply (disk_inode_same (new_dinode inum ty))).
  assert (∀ i, -1 ≤ i < MAXFILE → fblk t' (new_dinode inum ty) i = 0) as H0 by (intros; by apply empty_fblk).
  split; [|by rewrite E]. split; rewrite E; try done.
  - split; [done| |]; intros i; intros; by destruct (H0 i).
  - split; [split; [done|simpl; change (MAXFILE * BSIZE) with 274432; lia]|]. intros bn Hbn Hlt. simpl in Hlt. unfold BSIZE in Hlt. lia.
  - intros i Hi. by rewrite H0.
Qed.

Lemma fs_lookup (fs : list (Z * list Z)) i : (i < length fs)%nat → ∃ ty d, fs !! i = Some (ty, d).
Proof. intros Hi. destruct (lookup_lt_is_Some_2 fs i Hi) as [[ty d] E]. eauto. Qed.

Lemma mkfs_ialloc_ok m t fs ty : files_on m t fs → inum_of (length fs) < NINODES → - 2 ^ 15 ≤ ty < 2 ^ 15 →
  wp (mkfs_ialloc ty) m (λ inum m', inum = inum_of (length fs) ∧ ∃ t', files_on m' t' (fs ++ [(ty, [])])).
Proof.
  intros F Hn Hty. pose proof (fo_rep _ _ _ F) as R. destruct (fo_count _ _ _ F) as [Ec _]. unfold mkfs_ialloc. wp_steps.
  set (inum := inum_of (length fs)) in *. assert (0 ≤ inum) by (unfold inum, inum_of; lia).
  rewrite Ec, u32_small by (unfold NINODES in Hn; lia). set (m0 := Mk _ _ _).
  assert (mk_rep m0 t) as R0 by (split; apply R).
  apply (wp_winode m0 t R0); [done|done|]. intros m' R' I' F'. wp_steps. split; [done|]. set (n := new_dinode inum ty) in *.
  destruct (empty_file t inum ty (mr_len _ _ R) Hty) as [Fn En]. fold n in Fn, En. set (t' := inode_logged n k t) in *. exists t'.
  assert (∀ i, (i < length fs)%nat → kept t t' (inum_of i)) as Hk.
  { intros i Hi. destruct (fs_lookup fs i Hi) as (ty' & d & E). eapply kept_inode; [by eapply fo_file| |done|apply R].
    unfold n; simpl. unfold inum, inum_of. lia. }
  assert (∀ x, 0 ≤ x < sb_size k → used t k x = true → used t' k x = true) as Hu by (intros; unfold t'; by rewrite used_inode).
  assert (∀ i, -1 ≤ i < MAXFILE → fblk t' (dinode_at t' inum) i = 0) as H0 by (intros; by apply empty_fblk).
  split; [done| | | | |].
  - trans (tview t 1); [by apply (view_sb_inode t n)|apply F].
  - rewrite length_app, I'. simpl. unfold inum, inum_of, NINODES in *. lia.
  - rewrite F'. simpl. unfold blocks_all. rewrite foldr_app. simpl. exact (fo_blocks _ _ _ F).
  - intros i ty' d Hi. apply lookup_app_Some in Hi as [Hi|[Hge Hi]].
    + eapply kept_is_file; [done|apply Hk; by eapply lookup_lt_Some|by eapply fo_file].
    + apply list_lookup_singleton_Some in Hi as [Hi [= <- <-]]. replace i with (length fs) by lia. done.
  - intros i j. rewrite length_app. simpl. intros Hi Hj Hne. destruct (decide (i = length fs)) as [->|].
    { intros x y Hx Hy _. by apply H0. }
    destruct (decide (j = length fs)) as [->|].
    { intros x y Hx Hy ->. by apply H0. }
    apply kept_apart with t; [apply Hk; lia|apply Hk; lia|]. apply (fo_apart _ _ _ F); lia.
Qed.

(** A file to which bytes have been added. *)
Lemma written_file m t inum ty d src t' : mk_rep m t → is_file t inum ty d →
  written k t (dinode_at t inum) (Z.of_nat (length d)) src t' (dinode_at t' inum) → is_file t' inum ty (d ++ src).
Proof.
  intros R Fi W. split.
  - apply W.
  - apply W.
  - intros x Hx Hne. destruct (wn_blk _ _ _ _ _ _ _ W x Hx Hne) as [E|E].
    + rewrite <- E in *. by apply (if_data _ _ _ _ Fi).
    + pose proof (mr_free _ _ R). destruct (fw_data _ _ _ (wn_wf _ _ _ _ _ _ _ W) x Hx Hne) as (Hr & _).
      change (sb_size k) with FSSIZE in Hr. rewrite (mr_used _ _ R) in E by lia. apply Z.ltb_ge in E. lia.
  - rewrite (wn_meta _ _ _ _ _ _ _ W). exact (if_type _ _ _ _ Fi).
  - rewrite (wn_meta _ _ _ _ _ _ _ W). exact (if_nlink _ _ _ _ Fi).
  - rewrite (wn_bytes _ _ _ _ _ _ _ W). rewrite (if_bytes _ _ _ _ Fi), Nat2Z.id.
    rewrite take_ge by done. rewrite drop_ge by lia. by rewrite app_nil_r.
Qed.

Lemma iappend_file m t fs i ty d src : files_on m t fs → fs !! i = Some (ty, d) →
  let d' := d ++ src in let fs' := <[i := (ty, d')]> fs in
  Z.of_nat (length d') ≤ MAXFILE * BSIZE → nmeta + blocks_all fs' ≤ FSSIZE →
  wp (iappend (inum_of i) src) m (λ _ m', ∃ t', files_on m' t' fs').
Proof.
  intros F Hi d' fs' Hlen Hroom. pose proof (fo_rep _ _ _ F) as R. pose proof (fo_file _ _ _ F i ty d Hi) as Fi.
  pose proof (is_file_length _ _ _ _ Fi) as Esz. pose proof (lookup_lt_Some _ _ _ Hi) as Hil. destruct (fo_count _ _ _ F) as [Ec Hc].
  pose proof (blocks_all_insert fs i ty d d' Hi) as Eb. fold fs' in Eb. pose proof (fo_blocks _ _ _ F) as Hb.
  assert (i_size (dinode_at t (inum_of i)) + Z.of_nat (length src) = Z.of_nat (length d')) as El
    by (unfold d'; rewrite length_app, Nat2Z.inj_add, Esz; lia).
  eapply wp_mono.
  { apply (iappend_ok m t (inum_of i) src R); [unfold inum_of in *; lia|apply Fi|apply Fi|lia|]. rewrite El, Esz. lia. }
  intros _ m' (t' & R' & W & I' & F'). rewrite El, Esz in *. exists t'.
  assert (∀ b, 0 ≤ b < sb_size k → used t k b = true → used t' k b = true) as Hu by (intros; by eapply wn_used).
  assert (∀ j, (j < length fs)%nat → j ≠ i → kept t t' (inum_of j)) as Hk.
  { intros j Hj Hne. destruct (fs_lookup fs j Hj) as (ty' & d2 & E2). split.
    - eapply (wn_inodes _ _ _ _ _ _ _ W); [change (sb_ninodes k) with NINODES; unfold inum_of in *; lia|simpl; unfold inum_of; lia].
    - intros n x Hx Hnz. eapply (other_view k t (dinode_at t (inum_of i)) n); [done|by eapply fo_file| |done|done].
      apply (fo_apart _ _ _ F); [done|done|lia]. }
  pose proof (written_file m t (inum_of i) ty d src t' R Fi W) as Fi'. fold d' in Fi'.
  assert (∀ j, (j < length fs)%nat → j ≠ i → apart t' (dinode_at t' (inum_of i)) (dinode_at t' (inum_of j))) as Ha.
  { intros j Hj Hne. destruct (fs_lookup fs j Hj) as (ty' & d2 & E2). rewrite (proj1 (Hk j Hj Hne)).
    eapply other_apart; [done|by eapply fo_file|]. apply (fo_apart _ _ _ F); [done|done|lia]. }
  split; [done| | | | |].
  - rewrite (wn_view _ _ _ _ _ _ _ W); [apply F|done| |intros Hm; apply meta_block_sb in Hm; lia|].
    + rewrite (mr_used _ _ R) by (unfold FSSIZE; lia). apply Z.ltb_lt. pose proof (mr_free _ _ R). change nmeta with 46 in *. lia.
    + intros x Hx E. destruct (decide (fblk t (dinode_at t (inum_of i)) x = 0)) as [E0|E0]; [by rewrite E0 in E|].
      pose proof (if_data _ _ _ _ Fi x Hx E0). change nmeta with 46 in *. lia.
  - unfold fs'. rewrite length_insert, I'. done.
  - lia.
  - intros j ty' d2 Hj. unfold fs' in Hj. destruct (decide (j = i)) as [->|Hne].
    + rewrite list_lookup_insert_eq in Hj by done. by simplify_eq.
    + rewrite list_lookup_insert_ne in Hj by done. eapply kept_is_file; [done|apply Hk; [by eapply lookup_lt_Some|done]|by eapply fo_file].
  - unfold fs'. rewrite !length_insert. intros x y Hx Hy Hne. destruct (decide (x = i)) as [->|Hxi]; [by apply Ha|].
    destruct (decide (y = i)) as [->|Hyi].
    + intros p q Hp Hq E. rewrite E. symmetry in E. by apply (Ha x Hx Hxi q p).
    + apply kept_apart with t; [by apply Hk|by apply Hk|]. by apply (fo_apart _ _ _ F).
Qed.

(** *** [main] *)

Lemma wp_wsect x d m (Q : unit → mkst → Prop) : Q tt (Mk (<[x := d]> (mk_img m)) (freeinode m) (freeblock m)) → wp (wsect x d) m Q.
Proof. done. Qed.

(** The bits below [n], in a block of zeroes. *)
Definition first_bits (n : Z) : block := foldl mark_bit zero_block (seqZ 0 n).
Lemma mark_bits_ok l d : length d = Z.to_nat BSIZE → Forall (λ b, 0 ≤ b < BPB) l →
  length (foldl mark_bit d l) = Z.to_nat BSIZE ∧
  ∀ b, 0 ≤ b < BPB → bit_free (foldl mark_bit d l) b = bit_free d b && negb (bool_decide (b ∈ l)).
Proof.
  intros Hd Hl. revert d Hd. induction Hl as [|x l Hx Hl IH]; intros d Hd; simpl.
  - split; [done|]. intros b Hb. by rewrite andb_true_r.
  - destruct (IH (mark_bit d x)) as [H1 H2]; [by rewrite length_mark_bit|]. split; [done|]. intros b Hb.
    rewrite H2, bit_free_mark by done. rewrite (bool_decide_ext (b ∈ x :: l) (x = b ∨ b ∈ l)) by (rewrite elem_of_cons; naive_solver).
    rewrite bool_decide_or. destruct (bit_free d b), (bool_decide (x = b)), (bool_decide (b ∈ l)); done.
Qed.
Lemma first_bits_ok n b : 0 ≤ n ≤ FSSIZE → 0 ≤ b < FSSIZE →
  length (first_bits n) = Z.to_nat BSIZE ∧ negb (bit_free (first_bits n) (b mod BPB)) = (b <? n).
Proof.
  intros Hn Hb. unfold FSSIZE in *. assert (BPB = 8192) as EB by done.
  destruct (mark_bits_ok (seqZ 0 n) zero_block) as [H1 H2]; [done|apply Forall_forall; intros x Hx%elem_of_seqZ; lia|].
  split; [done|]. rewrite Z.mod_small by lia. unfold first_bits. rewrite H2 by lia.
  assert (bit_free zero_block b = true) as ->.
  { unfold bit_free. rewrite field_zero. by rewrite Z.land_0_l. }
  simpl. rewrite negb_involutive. apply eq_true_iff_eq. rewrite bool_decide_eq_true, elem_of_seqZ, Z.ltb_lt. lia.
Qed.

Lemma zero_image l m (Q : unit → mkst → Prop) :
  (∀ img, (∀ b, img !! b = if decide (b ∈ l) then Some zero_block else mk_img m !! b) → Q tt (Mk img (freeinode m) (freeblock m))) →
  wp (foreach (λ i, wsect i zero_block) l) m Q.
Proof.
  revert m. induction l as [|x l IH]; intros m HQ; cbn [foreach].
  - apply wp_ret. destruct m as [img fi fb]. apply HQ. intros b. rewrite decide_False; [done|]. by intros ?%elem_of_nil.
  - apply wp_bind, wp_wsect. apply IH. intros img Himg. apply HQ. intros b. rewrite Himg. simpl.
    destruct (decide (b ∈ l)); [by rewrite decide_True by (by right)|]. destruct (decide (b = x)) as [->|Hne].
    + rewrite lookup_insert_eq. by rewrite decide_True by (by left).
    + rewrite lookup_insert_ne by done. rewrite decide_False; [done|]. rewrite elem_of_cons. naive_solver.
Qed.

Lemma length_sb_block : length sb_block = Z.to_nat BSIZE.
Proof. by vm_compute. Qed.

(** The image before the first inode. *)
Lemma first_image img : (∀ b, img !! b = if decide (b ∈ seqZ 0 FSSIZE) then Some zero_block else (∅ : gmap Z block) !! b) →
  ∃ t, files_on (Mk (<[1 := sb_block]> img) 1 nmeta) t [].
Proof.
  intros Himg. assert (∀ b, 0 ≤ b < FSSIZE → img !! b = Some zero_block) as H0 by (intros; rewrite Himg; apply decide_True, elem_of_seqZ; lia).
  assert (∀ b, disk_block img b = zero_block) as Hz by (intros b; unfold disk_block; rewrite Himg; by case_decide).
  set (bm := sb_bmapstart k). assert (1 ≠ bm) as Hbm by done. exists (TStore (<[bm := first_bits nmeta]> (<[1 := sb_block]> img)) ∅ ∅ 0).
  assert (∀ b, b ≠ bm → tview (TStore (<[bm := first_bits nmeta]> (<[1 := sb_block]> img)) ∅ ∅ 0) b = disk_block (<[1 := sb_block]> img) b) as Hv
    by (intros b Hne; unfold tview, disk_block; simpl t_view; by rewrite lookup_insert_ne).
  assert (∀ b, length (disk_block (<[1 := sb_block]> img) b) = Z.to_nat BSIZE) as Hl.
  { intros b. unfold disk_block. destruct (decide (b = 1)) as [->|]; [rewrite lookup_insert_eq; exact length_sb_block|].
    rewrite lookup_insert_ne by done. fold (disk_block img b). by rewrite Hz. }
  split; [|rewrite Hv by done; unfold disk_block; by rewrite lookup_insert_eq|done|done|done|simpl; lia]. split; simpl mk_img; simpl freeblock.
  - done.
  - done.
  - intros b Hb. destruct (decide (b = 1)) as [->|]; [rewrite lookup_insert_eq; eauto|]. rewrite lookup_insert_ne, H0 by done. eauto.
  - intros b _ Hne. by apply Hv.
  - intros b Hb. change nmeta with 46 in Hb. unfold disk_block. rewrite lookup_insert_ne by lia. apply Hz.
  - intros b Hb. unfold used. assert (BBLOCK b k = bm) as -> by (apply map_block_sb; by exists b).
    assert (∀ x, tview (TStore (<[bm := x]> (<[1 := sb_block]> img)) ∅ ∅ 0) bm = x) as -> by (intros x; unfold tview, disk_block; simpl t_view; by rewrite lookup_insert_eq).
    by apply (first_bits_ok nmeta b).
  - intros b. destruct (decide (b = bm)) as [->|Hne].
    + unfold tview, disk_block; simpl t_view. rewrite lookup_insert_eq. cbn [default]. by apply (first_bits_ok nmeta 0).
    + rewrite Hv by done. apply Hl.
  - apply Hl.
Qed.

Lemma append_all reads : ∀ m t fs i ty d, files_on m t fs → fs !! i = Some (ty, d) →
  let d' := d ++ concat reads in let fs' := <[i := (ty, d')]> fs in
  Z.of_nat (length d') ≤ MAXFILE * BSIZE → nmeta + blocks_all fs' ≤ FSSIZE →
  wp (foreach (iappend (inum_of i)) reads) m (λ _ m', ∃ t', files_on m' t' fs').
Proof.
  induction reads as [|c reads IH]; intros m t fs i ty d F Hi d' fs' Hlen Hroom; cbn [foreach].
  - apply wp_ret. exists t. unfold fs', d'. simpl. rewrite app_nil_r. by rewrite list_insert_id.
  - apply wp_bind. pose proof (lookup_lt_Some _ _ _ Hi) as Hil.
    pose proof (blocks_all_insert fs i ty d (d ++ c) Hi) as B1. pose proof (blocks_all_insert fs i ty d d' Hi) as B2. fold fs' in B2.
    assert (length d' = length (d ++ c) + length (concat reads))%nat as El by (unfold d'; simpl; rewrite !length_app; lia).
    pose proof (blocks_for_mono (Z.of_nat (length (d ++ c))) (Z.of_nat (length d')) ltac:(lia)).
    eapply wp_mono; [apply (iappend_file m t fs i ty d c F Hi); lia|]. intros [] m1 (t1 & F1).
    assert (d' = (d ++ c) ++ concat reads) as Ed by (unfold d'; simpl; by rewrite app_assoc).
    assert (fs' = <[i := (ty, (d ++ c) ++ concat reads)]> (<[i := (ty, d ++ c)]> fs)) as Ef by (rewrite list_insert_insert_eq, <- Ed; done).
    rewrite Ef. apply (IH m1 t1 _ i ty (d ++ c)); [done|by apply list_lookup_insert_eq|by rewrite <- Ed|by rewrite <- Ef].
Qed.

(** What the image holds after the files [argv]. *)
Definition file_name (path : list Z) : list Z := skip_underscore (shortname path).
Definition contents (host : list Z → option (list (list Z))) (path : list Z) : list Z := concat (default [] (host path)).
Definition dir_bytes (argv : list (list Z)) : list Z :=
  entry 1 [46] ++ entry 1 [46; 46] ++ concat (imap (λ i p, entry (inum_of (S i)) (file_name p)) argv).
Definition files_of (host : list Z → option (list (list Z))) (argv : list (list Z)) : list (Z * list Z) :=
  (T_DIR, dir_bytes argv) :: ((λ p, (T_FILE, contents host p)) <$> argv).
Definition can_add (host : list Z → option (list (list Z))) (path : list Z) : Prop :=
  existsb (Z.eqb SLASH) (shortname path) = false ∧ is_Some (host path) ∧ Z.of_nat (length (contents host path)) ≤ MAXFILE * BSIZE.

Lemma length_entry inum name : length (entry inum name) = 16%nat.
Proof.
  assert (∀ n s, length (strncpy_ n s) = n) as Hl.
  { induction n as [|n IH]; intros [|x s]; simpl; [done..|by rewrite length_replicate|]. case_if; simpl; rewrite ?length_replicate, ?IH; done. }
  unfold entry, print_dirent. cbn [de_inum de_name]. by rewrite length_app, length_le_put, Hl.
Qed.
Lemma length_dir argv : length (dir_bytes argv) = (16 * (2 + length argv))%nat.
Proof.
  unfold dir_bytes. rewrite !length_app, !length_entry.
  assert (∀ (f : nat → list Z → list Z), (∀ i p, length (f i p) = 16%nat) → length (concat (imap f argv)) = (16 * length argv)%nat) as Hc.
  { induction argv as [|p argv IH]; intros f Hf; [done|]. rewrite imap_cons. simpl. rewrite length_app, Hf, IH by (intros; apply Hf). lia. }
  rewrite Hc by (intros; apply length_entry). lia.
Qed.
Lemma dir_snoc argv p : dir_bytes (argv ++ [p]) = dir_bytes argv ++ entry (inum_of (S (length argv))) (file_name p).
Proof.
  unfold dir_bytes. rewrite imap_app, concat_app, <- !app_assoc. do 3 f_equal. cbn [imap concat]. by rewrite app_nil_r, Nat.add_0_r.
Qed.

Lemma blocks_for_nonneg s : 0 ≤ s → 0 ≤ blocks_for s.
Proof. intros. unfold blocks_for, BSIZE. case_if; div_lia. Qed.
Lemma blocks_all_app fs gs : blocks_all (fs ++ gs) = blocks_all fs + blocks_all gs.
Proof. induction fs as [|f fs IH]; simpl; [done|]. rewrite IH. lia. Qed.
Lemma blocks_all_nonneg fs : 0 ≤ blocks_all fs.
Proof. induction fs as [|f fs IH]; simpl; [done|]. pose proof (blocks_for_nonneg (Z.of_nat (length f.2)) ltac:(lia)). lia. Qed.
Lemma blocks_all_prefix host l1 l2 : blocks_all (files_of host l1) ≤ blocks_all (files_of host (l1 ++ l2)).
Proof.
  unfold files_of. rewrite fmap_app. cbn [blocks_all foldr snd]. fold (blocks_all ((λ p, (T_FILE, contents host p)) <$> l1)).
  fold (blocks_all (((λ p, (T_FILE, contents host p)) <$> l1) ++ ((λ p, (T_FILE, contents host p)) <$> l2))).
  rewrite blocks_all_app, !length_dir, length_app. pose proof (blocks_all_nonneg ((λ p, (T_FILE, contents host p)) <$> l2)).
  pose proof (blocks_for_mono (Z.of_nat (16 * (2 + length l1))) (Z.of_nat (16 * (2 + (length l1 + length l2)))) ltac:(lia)). lia.
Qed.

Lemma add_file_ok host m t argv p : files_on m t (files_of host argv) → can_add host p →
  (2 + length argv < Z.to_nat NINODES)%nat → nmeta + blocks_all (files_of host (argv ++ [p])) ≤ FSSIZE →
  wp (add_file host ROOTINO p) m (λ _ m', ∃ t', files_on m' t' (files_of host (argv ++ [p]))).
Proof.
  intros F (Hs & [reads Hr] & Hlen) Hn Hroom. unfold NINODES in *. unfold add_file. rewrite Hs, Hr.
  set (f := λ p, (T_FILE, contents host p)). set (fs := files_of host argv) in *. assert (length fs = S (length argv)) as El by (unfold fs, files_of; simpl; by rewrite length_fmap).
  assert (contents host p = concat reads) as Ec by (unfold contents; by rewrite Hr).
  assert (files_of host (argv ++ [p]) = (T_DIR, dir_bytes (argv ++ [p])) :: ((f <$> argv) ++ [(T_FILE, [] ++ concat reads)])) as Ef.
  { unfold files_of. rewrite fmap_app. simpl. by rewrite Ec. }
  wp_steps. eapply wp_mono; [apply (mkfs_ialloc_ok m t fs T_FILE F); [unfold inum_of, NINODES; lia|done]|].
  intros inum m1 (-> & t1 & F1). wp_steps. set (fs1 := fs ++ [(T_FILE, [])]) in *.
  assert (fs1 !! O = Some (T_DIR, dir_bytes argv)) as H0 by done.
  assert (<[O := (T_DIR, dir_bytes (argv ++ [p]))]> fs1 = (T_DIR, dir_bytes (argv ++ [p])) :: ((f <$> argv) ++ [(T_FILE, [])])) as E1 by done.
  assert (dir_bytes argv ++ entry (inum_of (length fs)) (skip_underscore (shortname p)) = dir_bytes (argv ++ [p])) as Ed by (rewrite dir_snoc, El; done).
  rewrite Ef in Hroom. set (root := (T_DIR, dir_bytes (argv ++ [p]))) in *.
  assert (blocks_all (root :: ((f <$> argv) ++ [(T_FILE, [])])) ≤ blocks_all (root :: ((f <$> argv) ++ [(T_FILE, [] ++ concat reads)]))) as Hmono.
  { change (blocks_all (root :: ?l)) with (blocks_for (Z.of_nat (length root.2)) + blocks_all l). rewrite !blocks_all_app. cbn [blocks_all foldr snd].
    pose proof (blocks_for_mono (Z.of_nat (length ([] : list Z))) (Z.of_nat (length ([] ++ concat reads))) ltac:(simpl; lia)). lia. }
  eapply wp_mono.
  { apply (iappend_file m1 t1 fs1 O T_DIR (dir_bytes argv)); [done|done|rewrite Ed, length_dir, length_app; simpl length; change (MAXFILE * BSIZE) with 274432; lia|].
    rewrite Ed. fold root. rewrite E1. lia. }
  rewrite Ed. fold root. rewrite E1. intros [] m2 (t2 & F2). set (fs2 := root :: ((f <$> argv) ++ [(T_FILE, [])])) in *.
  assert (fs2 !! length fs = Some (T_FILE, [])) as H2.
  { rewrite El. change (fs2 !! S (length argv)) with (((f <$> argv) ++ [(T_FILE, [])]) !! length argv).
    rewrite lookup_app_r; rewrite length_fmap; [|done]. by rewrite Nat.sub_diag. }
  assert (<[length fs := (T_FILE, [] ++ concat reads)]> fs2 = files_of host (argv ++ [p])) as E2.
  { rewrite Ef, El. change (<[S (length argv) := ?x]> fs2) with (root :: <[length argv := x]> ((f <$> argv) ++ [(T_FILE, [])])). f_equal.
    rewrite insert_app_r_alt; rewrite length_fmap; [|done]. by rewrite Nat.sub_diag. }
  rewrite <- E2. apply (append_all reads m2 t2 fs2 (length fs) T_FILE []); [done|done|simpl; by rewrite <- Ec|]. rewrite E2, Ef. done.
Qed.

(** What the kernel finds on an image of the files [argv] of which the first
    [next] blocks are in use. *)
Record good_image (host : list Z → option (list (list Z))) (argv : list (list Z)) (t : tstore) (next : Z) : Prop := {
  gi_disk : disk_ok k t;
  gi_len b : length (tview t b) = Z.to_nat BSIZE;
  gi_sb : tview t 1 = sb_block;
  gi_used b : 0 ≤ b < FSSIZE → used t k b = (b <? next);
  gi_file i p : argv !! i = Some p → is_file t (inum_of (S i)) T_FILE (contents host p);
  gi_root : let n := dinode_at t ROOTINO in let len := Z.of_nat (length (dir_bytes argv)) in
    file_wf k t n ∧ i_type n = T_DIR ∧ i_size n = (len / BSIZE + 1) * BSIZE ∧ take (Z.to_nat len) (fbytes t n) = dir_bytes argv;
  gi_apart i j : (i ≤ length argv)%nat → (j ≤ length argv)%nat → i ≠ j → apart t (dinode_at t (inum_of i)) (dinode_at t (inum_of j))
}.

Lemma fbytes_sized t n s : 0 ≤ i_size n ≤ s → take (Z.to_nat (i_size n)) (fbytes t (set_isize s n)) = fbytes t n.
Proof.
  intros Hs. apply list_eq. intros i. destruct (decide (Z.of_nat i < i_size n)).
  - rewrite lookup_take_lt by lia. by rewrite !lookup_fbytes by (simpl; lia).
  - rewrite lookup_take_ge by lia. by rewrite lookup_fbytes_ge by lia.
Qed.

Section finish.
Context (host : list Z → option (list (list Z))) (argv : list (list Z)) (m : mkst) (t : tstore).
Context (F : files_on m t (files_of host argv)).
Context (m' : mkst) (s : Z).
Notation root := (dinode_at t 1).
Context (R' : mk_rep m' (inode_logged (set_isize s root) k t)) (Hs : s = (i_size root / BSIZE + 1) * BSIZE) (Hlt : i_size root < 2 ^ 16).
Let t' := image (Mk (<[sb_bmapstart k := first_bits (freeblock m')]> (mk_img m')) (freeinode m') (freeblock m')).

Lemma finish_view b : 0 ≤ b < FSSIZE → b ≠ sb_bmapstart k → tview t' b = tview (inode_logged (set_isize s root) k t) b.
Proof. intros Hb Hne. rewrite (mr_view _ _ R') by done. unfold t', image, tview, disk_block; simpl t_view. by rewrite lookup_insert_ne. Qed.

Lemma finish_data b : 0 < b < FSSIZE → ¬ meta_block k b → tview t' b = tview t b.
Proof.
  intros Hb Hm. rewrite finish_view; [|lia|by intros ->; apply Hm; left; apply map_block_sb].
  unfold inode_logged. rewrite tview_logged, decide_False; [done|]. intros E. apply Hm. right; left. rewrite <- E. by exists 1.
Qed.

Lemma finish_used b : 0 ≤ b < FSSIZE → used t' k b = (b <? freeblock m').
Proof.
  intros Hb. unfold used. assert (BBLOCK b k = sb_bmapstart k) as -> by (apply map_block_sb; by exists b).
  pose proof (mr_free _ _ R') as Hf. change nmeta with 46 in Hf. unfold t', image, tview, disk_block; simpl t_view. rewrite lookup_insert_eq.
  apply first_bits_ok; lia.
Qed.

Lemma finish_mono b : 0 ≤ b < sb_size k → used t k b = true → used t' k b = true.
Proof.
  intros Hb Hu. rewrite finish_used, <- (mr_used _ _ R') by done. by rewrite used_inode.
Qed.

Lemma finish_blocks i ty d : files_of host argv !! i = Some (ty, d) → let n := dinode_at t (inum_of i) in
  ∀ x, -1 ≤ x < MAXFILE → fblk t n x ≠ 0 → tview t' (fblk t n x) = tview t (fblk t n x).
Proof. intros Hi n x Hx Hne. destruct (fw_data _ _ _ (if_wf _ _ _ _ (fo_file _ _ _ F i ty d Hi)) x Hx Hne) as (H1 & _ & H3). by apply finish_data. Qed.

Lemma finish_kept i ty d : files_of host argv !! S i = Some (ty, d) → kept t t' (inum_of (S i)).
Proof.
  intros Hi. split; [|by eapply finish_blocks]. destruct (fo_count _ _ _ F) as [_ Hc]. pose proof (lookup_lt_Some _ _ _ Hi) as Hl.
  assert (0 ≤ inum_of (S i) < NINODES ∧ inum_of (S i) ≠ 1) as [Hr Hne] by (unfold inum_of in *; lia).
  assert (inode_block k (IBLOCK (inum_of (S i)) k)) as Hb%inode_block_sb by (by exists (inum_of (S i))).
  unfold dinode_at, disk_inode. rewrite finish_view; [|unfold FSSIZE; lia|change (sb_bmapstart k) with 45; lia].
  fold (disk_inode (inode_logged (set_isize s root) k t) k (inum_of (S i)) (din (inum_of (S i)))). apply disk_inode_other; [done|].
  apply (fo_rep _ _ _ F).
Qed.

Lemma finish_root : dinode_at t' 1 = set_isize s root.
Proof.
  assert (0 ≤ s < 2 ^ 32) as Hsr.
  { pose proof (proj1 (if_holes _ _ _ _ (fo_file _ _ _ F O T_DIR _ eq_refl))) as H0. change (inum_of 0) with 1 in H0.
    rewrite Hs. unfold BSIZE. div_lia. }
  apply dinode_ext; try done. assert (inode_block k (IBLOCK 1 k)) as Hb%inode_block_sb by (by exists 1).
  unfold dinode_at at 1, disk_inode. rewrite finish_view; [|unfold FSSIZE; lia|change (sb_bmapstart k) with 45; lia].
  fold (disk_inode (inode_logged (set_isize s root) k t) k 1 (din 1)). apply (disk_inode_same (set_isize s root)); [|apply (fo_rep _ _ _ F)].
  destruct (dinode_typed t 1) as (T1 & T2 & T3 & T4 & T5 & T6 & T7). unfold inode_typed. cbn [set_isize i_type i_major i_minor i_nlink i_size i_addrs]. done.
Qed.

Lemma finish_fblk i : (i < length (files_of host argv))%nat → ∀ x, -1 ≤ x < MAXFILE →
  fblk t' (dinode_at t' (inum_of i)) x = fblk t (dinode_at t (inum_of i)) x.
Proof.
  intros Hi x Hx. destruct (fs_lookup _ i Hi) as (ty & d & E). rewrite <- (agree_fblk t t') by (done || by eapply finish_blocks).
  destruct i as [|i]; [change (inum_of 0) with 1; by rewrite finish_root|]. by rewrite (proj1 (finish_kept i ty d E)).
Qed.

Lemma finish_image : good_image host argv t' (freeblock m').
Proof.
  pose proof (fo_file _ _ _ F O T_DIR _ eq_refl) as Fr. change (inum_of 0) with 1 in Fr. pose proof (is_file_length _ _ _ _ Fr) as Esz.
  split.
  - apply (disk_ok_step k _ (rep_disk_ok _ _ R')); [done|]. intros b Hb Hu. rewrite finish_used by done. by rewrite <- (mr_used _ _ R').
  - intros b. destruct (decide (b = sb_bmapstart k)) as [->|Hne].
    + unfold t', image, tview, disk_block; simpl t_view. rewrite lookup_insert_eq. pose proof (mr_free _ _ R') as Hf. change nmeta with 46 in Hf.
      apply (first_bits_ok (freeblock m') 0); [lia|done].
    + unfold t', image, tview; simpl t_view. unfold disk_block. rewrite lookup_insert_ne by done. apply (mr_block _ _ R').
  - rewrite finish_data; [apply F|done|]. intros Hm%meta_block_sb. lia.
  - apply finish_used.
  - intros i p Hp. assert (files_of host argv !! S i = Some (T_FILE, contents host p)) as E by (unfold files_of; simpl; by rewrite list_lookup_fmap, Hp).
    eapply kept_is_file; [exact finish_mono|by eapply finish_kept|by eapply fo_file].
  - intros n len. unfold n. change ROOTINO with 1. rewrite finish_root. split_and!.
    + pose proof (agree_file_wf t t' root (finish_blocks O T_DIR _ eq_refl) k finish_mono (if_wf _ _ _ _ Fr)) as [W1 W2 W3]. by split.
    + exact (if_type _ _ _ _ Fr).
    + simpl. by rewrite Hs, Esz.
    + unfold len. rewrite <- Esz. rewrite fbytes_sized by (rewrite Hs; unfold BSIZE; div_lia).
      rewrite (agree_fbytes t t' root (finish_blocks O T_DIR _ eq_refl)) by apply Fr. apply Fr.
  - intros i j Hi Hj Hne x y Hx Hy. assert (length (files_of host argv) = S (length argv)) as El by (unfold files_of; simpl; by rewrite length_fmap).
    rewrite !finish_fblk by (done || lia). apply (fo_apart _ _ _ F); (done || lia).
Qed.
End finish.

(** The end of [main]: the size of the root directory, and the free map. *)
Lemma mkfs_end host argv m t : files_on m t (files_of host argv) → (2 + length argv ≤ Z.to_nat NINODES)%nat →
  wp (n ← rinode ROOTINO;
      winode ROOTINO (set_isize (u32 ((i_size n / BSIZE + 1) * BSIZE)) n);;
      used ← gets freeblock;
      mkfs_balloc used) m (λ _ m', good_image host argv (image m') (freeblock m')).
Proof.
  intros F Hn. unfold NINODES in Hn. pose proof (fo_rep _ _ _ F) as R.
  pose proof (is_file_length _ _ _ _ (fo_file _ _ _ F O T_DIR _ eq_refl)) as Esz. change (inum_of 0) with ROOTINO in Esz. rewrite length_dir in Esz.
  wp_steps. apply (wp_rinode m t R); [done|]. wp_steps.
  rewrite u32_small by (unfold BSIZE; div_lia).
  eapply (wp_winode m t R); [done|done|]. intros m1 R1 _ F1. wp_steps. pose proof (mr_free _ _ R1) as Hf. change nmeta with 46 in Hf.
  unfold mkfs_balloc. destruct (Z.ltb_spec (freeblock m1) (BSIZE * 8)); [|unfold FSSIZE, BSIZE in *; lia]. cbn [negb]. apply wp_wsect.
  apply (finish_image host argv m t F m1 _ R1); [done|]. change ROOTINO with 1 in Esz. lia.
Qed.

Lemma mkfs_main_ok host argv : Forall (can_add host) argv → (2 + length argv ≤ Z.to_nat NINODES)%nat →
  nmeta + blocks_all (files_of host argv) ≤ FSSIZE →
  wp (mkfs_main host argv) mkfs_start (λ _ m, good_image host argv (image m) (freeblock m)).
Proof.
  intros Ha Hn Hroom. unfold mkfs_main. apply wp_bind, zero_image. intros img Himg. apply wp_bind, wp_wsect.
  destruct (first_image img Himg) as [t0 F0]. apply wp_bind. eapply wp_mono; [apply (mkfs_ialloc_ok _ t0 [] T_DIR F0); done|].
  intros inum m1 (-> & t1 & F1). change (inum_of (length [])) with ROOTINO. rewrite Z.eqb_refl. cbn [negb]. change (inum_of 0) with 1 in *.
  pose proof (blocks_all_prefix host [] argv) as Hp. rewrite app_nil_l in Hp.
  assert (∀ d d', (length d ≤ length d')%nat → blocks_all [(T_DIR, d)] ≤ blocks_all [(T_DIR, d')]) as Hd.
  { intros d d' Hl. cbn [blocks_all foldr snd]. pose proof (blocks_for_mono (Z.of_nat (length d)) (Z.of_nat (length d')) ltac:(lia)). lia. }
  apply wp_bind. eapply wp_mono.
  { apply (iappend_file m1 t1 _ O T_DIR [] (entry 1 [46]) F1); [done|by rewrite app_nil_l, length_entry|].
    specialize (Hd (entry 1 [46]) (dir_bytes [])). rewrite length_dir, length_entry in Hd. specialize (Hd ltac:(simpl; lia)).
    change (files_of host []) with [(T_DIR, dir_bytes [])] in Hp. cbn [app insert list_insert]. lia. }
  intros [] m2 (t2 & F2). cbn [app insert list_insert] in F2. apply wp_bind. eapply wp_mono.
  { apply (iappend_file m2 t2 _ O T_DIR (entry 1 [46]) (entry 1 [46; 46]) F2); [done|by rewrite length_app, !length_entry|].
    cbn [insert list_insert]. change (files_of host []) with [(T_DIR, entry 1 [46] ++ entry 1 [46; 46] ++ [])] in Hp. rewrite app_nil_r in Hp. lia. }
  intros [] m3 (t3 & F3). cbn [insert list_insert] in F3. apply wp_bind.
  apply (wp_foreach (λ l m, ∃ t, files_on m t (files_of host l))).
  - exists t3. unfold files_of, dir_bytes. simpl imap. simpl concat. rewrite app_nil_r. exact F3.
  - intros l1 p l2 m4 -> [t4 F4]. apply (add_file_ok host m4 t4 l1 p F4).
    + apply Forall_app in Ha as [_ Ha]. by apply Forall_cons in Ha as [? _].
    + rewrite length_app in Hn. simpl in Hn. lia.
    + pose proof (blocks_all_prefix host (l1 ++ [p]) l2) as Hq. rewrite <- app_assoc in Hq. cbn [app] in Hq. lia.
  - intros m4 [t4 F4]. by apply (mkfs_end host argv m4 t4).
Qed.

(** *** The kernel on the image *)

Section kernel.
Context {St : Type} `{TX : Txn St, !TxnOk St}.

Lemma readsb_ok (s : St) f t : tx_rep s t → may_read t 1 → tview t 1 = sb_block →
  wp (readsb ROOTDEV) (s, f) (λ r _, r = k).
Proof.
  intros R Hr E. unfold readsb. wp_steps. eapply wp_tread; [done|done|]. intros i s1 R1 H1 _. wp_steps.
  eapply wp_tdata; [done|done|simpl; apply lookup_insert_eq|]. wp_steps. eapply wp_trelse; [done|done|apply Hr|]. intros s2 _ _. wp_steps.
  rewrite E. by vm_compute.
Qed.

Lemma read_file (s : St) f m host argv i p ip n off len : tx_rep s (image m) → good_image host argv (image m) (freeblock m) →
  argv !! i = Some p → inodes f !! ip = Some n → i_dev n = ROOTDEV → imeta n = imeta (dinode_at (image m) (inum_of (S i))) →
  0 ≤ off < 2 ^ 32 → 0 ≤ len < 2 ^ 32 →
  let r := readable (Z.of_nat (length (contents host p))) off len in
  wp (readi ip kernel_copy 0 off len) (s, f) (λ x _, x = (r, take (Z.to_nat r) (drop (Z.to_nat off) (contents host p)))).
Proof.
  intros R G Hp Hn Hd E Hoff Hlen r. pose proof (gi_file _ _ _ _ G i p Hp) as Fi. pose proof (is_file_length _ _ _ _ Fi) as Esz.
  pose proof (if_holes _ _ _ _ Fi) as Hh. pose proof (if_bytes _ _ _ _ Fi) as Hb. set (t := image m) in *. set (n' := dinode_at t (inum_of (S i))) in *. clearbody n'.
  assert (i_size n = i_size n' ∧ i_addrs n = i_addrs n') as [E1 E2] by (unfold imeta in E; by simplify_eq).
  assert (∀ b, blk_of t n b = blk_of t n' b) as E3 by (intros; unfold blk_of, addr_at; by rewrite E2).
  assert (fbytes t n = fbytes t n') as E4 by (unfold fbytes, fbyte; rewrite E1; apply list_fmap_ext; intros; by rewrite E3).
  eapply (readi_ok ip n s f t kernel_copy 0 off len); try done.
  - destruct Hh as [H1 H2]. split; [by rewrite E1|]. intros bn. rewrite E1, E3. apply H2.
  - intros s' _ _. by rewrite E1, Esz, E4, Hb.
Qed.
End kernel.

(** ** Properties *)

(** C14: The kernel finds on the image what mkfs was given.  When every path can
    be opened and has no slash in its name, no file is larger than a file can
    be, and inodes and blocks are enough, mkfs ends without an error, and on
    its image, for any kernel store that holds it: the superblock that the
    kernel reads is the one mkfs computed; the free map marks exactly the
    blocks below the first unused one; each file is an inode with one link
    whose blocks are data blocks, apart from those of every other file, and
    [readi] of it answers the bytes that mkfs read on the host; the root
    directory holds the entries of the names, in order. *)
Theorem mkfs_files_readable host argv : Forall (can_add host) argv → (2 + length argv ≤ Z.to_nat NINODES)%nat →
  nmeta + blocks_all (files_of host argv) ≤ FSSIZE →
  wp (mkfs_main host argv) mkfs_start (λ _ m, good_image host argv (image m) (freeblock m) ∧
    ∀ (St : Type) (TX : Txn St) (TO : TxnOk St) (s : St) f, tx_rep s (image m) →
      wp (readsb ROOTDEV) (s, f) (λ r _, r = mkfs_sb) ∧
      ∀ i p ip n off len, argv !! i = Some p → inodes f !! ip = Some n → i_dev n = ROOTDEV →
        imeta n = imeta (dinode_at (image m) (inum_of (S i))) → 0 ≤ off < 2 ^ 32 → 0 ≤ len < 2 ^ 32 →
        let r := readable (Z.of_nat (length (contents host p))) off len in
        wp (readi ip kernel_copy 0 off len) (s, f) (λ x _, x = (r, take (Z.to_nat r) (drop (Z.to_nat off) (contents host p))))).
Proof.
  intros Ha Hn Hroom. eapply wp_mono; [by apply mkfs_main_ok|]. intros [] m G. split; [exact G|].
  intros St TX TO s f R. split; [|intros; by eapply read_file].
  eapply readsb_ok; [done|done|apply G].
Qed.

Definition ex_path : list Z := USER_DIR ++ [95; 99; 97; 116].
Definition ex_host (p : list Z) : option (list (list Z)) := if bool_decide (p = ex_path) then Some [[127; 69]; [76]] else None.
Lemma mkfs_files_readable_witness : file_name ex_path = [99; 97; 116] ∧
  wp (mkfs_main ex_host [ex_path]) mkfs_start (λ _ m, is_file (image m) 2 T_FILE [127; 69; 76]).
Proof.
  split; [done|]. eapply wp_mono.
  - apply (mkfs_files_readable ex_host [ex_path]); [|simpl; unfold NINODES; lia|by vm_compute].
    constructor; [|constructor]. split; [done|]. split; [by eexists|by vm_compute].
  - intros [] m [G _]. exact (gi_file _ _ _ _ G O ex_path eq_refl).
Defined.
