(* ===== verification/Partial.v ===== *)
(** Partial correctness of the monad's programs: what holds when a run
    returns, for invariants of systems whose steps may also panic. *)
From S2P Require Import Prelude.

(** ** Definitions *)

Definition wlp {St A} (m : M St A) (s : St) (Q : A → St → Prop) : Prop :=
  match m s with
  | Ok (a, s') => Q a s'
  | _ => True
  end.

(** ** Lemmas *)

Section wlp_rules.
Context {St : Type}.

Lemma wlp_ret {A} (a : A) (s : St) (Q : A → St → Prop) : Q a s → wlp (mret a) s Q.
Proof. done. Qed.

Lemma wlp_bind {A B} (m : M St A) (f : A → M St B) s Q :
  wlp m s (λ a s', wlp (f a) s' Q) → wlp (m ≫= f) s Q.
Proof. unfold wlp, mbind, M_bind. by destruct (m s) as [[a s']| |]. Qed.

Lemma wlp_bind_inv {A B} (m : M St A) (f : A → M St B) s Q :
  wlp (m ≫= f) s Q → wlp m s (λ a s', wlp (f a) s' Q).
Proof. unfold wlp, mbind, M_bind. by destruct (m s) as [[a s']| |]. Qed.

Lemma wlp_mono {A} (m : M St A) s (P Q : A → St → Prop) :
  wlp m s P → (∀ a s', P a s' → Q a s') → wlp m s Q.
Proof. unfold wlp. destruct (m s) as [[a s']| |]; naive_solver. Qed.

Lemma wlp_gets {A} (f : St → A) s Q : Q (f s) s → wlp (gets f) s Q.
Proof. done. Qed.

Lemma wlp_modify (f : St → St) s Q : Q tt (f s) → wlp (modify f) s Q.
Proof. done. Qed.

Lemma wlp_panic {A} msg (s : St) (Q : A → St → Prop) : wlp (panic msg) s Q.
Proof. done. Qed.

Lemma wlp_ok {A} (m : M St A) s a s' (Q : A → St → Prop) : wlp m s Q → m s = Ok (a, s') → Q a s'.
Proof. unfold wlp. by intros H1 H2; rewrite H2 in H1. Qed.

Lemma wlp_foreach {A} (I : list A → St → Prop) (f : A → M St unit) (l : list A) s Q :
  I [] s →
  (∀ l1 x l2 s, l = l1 ++ x :: l2 → I l1 s → wlp (f x) s (λ _ s', I (l1 ++ [x]) s')) →
  (∀ s, I l s → Q tt s) →
  wlp (foreach f l) s Q.
Proof.
  intros H0 Hf HQ.
  cut (∀ l2 l1 s, l = l1 ++ l2 → I l1 s → wlp (foreach f l2) s Q).
  { intros Hcut. by apply (Hcut l []). }
  induction l2 as [|x l2 IH]; intros l1 s' Hl HI; simpl.
  - apply wlp_ret, HQ. rewrite app_nil_r in Hl. by rewrite Hl.
  - apply wlp_bind. eapply wlp_mono; [by eapply Hf|]. intros [] s'' HI'.
    apply (IH (l1 ++ [x])); [|done]. by rewrite <- app_assoc.
Qed.

(** The loop keeps an invariant that does not speak of the part done. *)
Lemma wlp_foreach_inv {A} (I : St → Prop) (f : A → M St unit) (l : list A) s Q :
  I s → (∀ x s, x ∈ l → I s → wlp (f x) s (λ _ s', I s')) → (∀ s, I s → Q tt s) → wlp (foreach f l) s Q.
Proof.
  intros H0 Hf HQ. apply (wlp_foreach (λ _, I)); [done| |done]. intros l1 x l2 s' -> HI. apply Hf; [|done]. set_solver.
Qed.

(** The loop [for(i = 0; i < n; i++)] over numbers, with an invariant that
    speaks of [i]. *)
Lemma wlp_foreach_seq (I : nat → St → Prop) (f : nat → M St unit) (n : nat) s Q :
  I O s → (∀ i s, (i < n)%nat → I i s → wlp (f i) s (λ _ s', I (S i) s')) → (∀ s, I n s → Q tt s) →
  wlp (foreach f (seq 0 n)) s Q.
Proof.
  intros H0 Hf HQ. apply (wlp_foreach (λ l1, I (length l1))); [done| |].
  - intros l1 x l2 s' El HI. assert (seq 0 n !! length l1 = Some x) as Hx by (rewrite El; by apply list_lookup_middle).
    apply lookup_seq in Hx as [-> Hlt]. rewrite Nat.add_0_l, length_app, Nat.add_1_r. by apply Hf.
  - intros s'. rewrite length_seq. apply HQ.
Qed.
End wlp_rules.

Lemma wlp_lift {S1 S2 A} (get : S2 → S1) (put : S1 → S2 → S2) (m : M S1 A) s Q :
  (∀ a s1, m (get s) = Ok (a, s1) → Q a (put s1 s)) → wlp (lift_m get put m) s Q.
Proof. unfold wlp, lift_m. destruct (m (get s)) as [[a s1]| |]; naive_solver. Qed.

(** ** Automation *)

Ltac wlp_step :=
  lazymatch goal with
  | |- wlp (mbind _ _) _ _ => apply wlp_bind
  | |- wlp (mret _) _ _ => apply wlp_ret
  | |- wlp (gets _) _ _ => apply wlp_gets
  | |- wlp (modify _) _ _ => apply wlp_modify
  | |- wlp (panic _) _ _ => apply wlp_panic
  end; cbv beta.
Ltac wlp_steps := repeat wlp_step.
Ltac wlp_call H := eapply wlp_mono; [eapply H|cbv beta].

(** ** Code that moves along a relation

    [keeping R m]: whenever [m] returns, its states are related by the
    preorder [R]: a frame, or the preservation of an invariant. *)

Definition keeping {St} (R : relation St) {A} (m : M St A) : Prop := ∀ s, wlp m s (λ _ s', R s s').

Section keeping_rules.
Context {St : Type} (R : relation St) `{!PreOrder R}.

Lemma keeping_ret {A} (a : A) : keeping R (mret a).
Proof. intros s. by apply wlp_ret. Qed.
Lemma wlp_then_keeping {A B} (m : M St A) (f : A → M St B) s :
  wlp m s (λ _ s', R s s') → (∀ a, keeping R (f a)) → wlp m s (λ a s', wlp (f a) s' (λ _ s'', R s s'')).
Proof.
  intros Hm Hf. eapply wlp_mono; [exact Hm|]. intros a s1 H1. simpl.
  eapply wlp_mono; [apply (Hf a s1)|]. intros b s2 H2. by trans s1.
Qed.
Lemma keeping_bind {A B} (m : M St A) (f : A → M St B) : keeping R m → (∀ a, keeping R (f a)) → keeping R (m ≫= f).
Proof. intros Hm Hf s. by apply wlp_bind, wlp_then_keeping. Qed.
Lemma keeping_gets {A} (f : St → A) : keeping R (gets f).
Proof. intros s. by apply wlp_gets. Qed.
Lemma keeping_modify (f : St → St) : (∀ s, R s (f s)) → keeping R (modify f).
Proof. intros Hf s. apply wlp_modify, Hf. Qed.
Lemma keeping_panic {A} msg : keeping R (A := A) (panic msg).
Proof. intros s. apply wlp_panic. Qed.
Lemma keeping_if {A} (b : bool) (m1 m2 : M St A) : keeping R m1 → keeping R m2 → keeping R (if b then m1 else m2).
Proof. by destruct b. Qed.
Lemma keeping_decide {A} (P : Prop) `{Decision P} (m1 m2 : M St A) : keeping R m1 → keeping R m2 → keeping R (if decide P then m1 else m2).
Proof. by destruct (decide P). Qed.
Lemma keeping_foreach {A} (f : A → M St unit) l : (∀ x, keeping R (f x)) → keeping R (foreach f l).
Proof. intros Hf. induction l as [|x l IH]; simpl; [apply keeping_ret|]. apply keeping_bind; [done|]. by intros []. Qed.
Lemma keeping_while {A B} n (body : A → M St (A + B)) a : (∀ a, keeping R (body a)) → keeping R (while_ n body a).
Proof.
  intros Hb. revert a. induction n as [|n IH]; intros a; [by intros s|]. simpl. apply keeping_bind; [apply Hb|].
  intros [a'|b]; [apply IH|apply keeping_ret].
Qed.
End keeping_rules.

Lemma keeping_lift {S1 S2 A} (R : relation S2) (get : S2 → S1) (put : S1 → S2 → S2) (m : M S1 A) :
  (∀ s1 s, R s (put s1 s)) → keeping R (lift_m get put m).
Proof. intros HR s. apply wlp_lift. intros a s1 _. apply HR. Qed.

(** [keeping] goals by the structure of the code; calls by the hints. *)
Create HintDb keeping.
Ltac keeping_step :=
  lazymatch goal with
  | |- keeping _ (mbind _ _) => apply keeping_bind; [typeclasses eauto| |intros ?]
  | |- keeping _ (mret _) => apply keeping_ret, _
  | |- keeping _ (gets _) => apply keeping_gets, _
  | |- keeping _ (panic _) => apply keeping_panic
  | |- keeping _ (foreach _ _) => apply keeping_foreach; [typeclasses eauto|intros ?]
  | |- keeping _ (while_ _ _ _) => apply keeping_while; [typeclasses eauto|intros ?]
  | |- keeping _ (if decide _ then _ else _) => apply keeping_decide
  | |- keeping _ (if _ then _ else _) => apply keeping_if
  | |- keeping _ (match ?x with _ => _ end) => destruct x
  | |- keeping _ _ => solve [eauto with keeping]
  end; cbv beta zeta.
Ltac keeping := repeat keeping_step.
