(* ===== verification/Proc.v ===== *)
(** kernel/proc.c: the process table, processes from fork to wait, and the
    hand-over of a CPU between a process and the scheduler.

    A function that gives up the CPU ends there in the model; the context
    [swtch] saves in the process tells where it goes on ([kctx]), and the
    scheduler's turn with that process continues it.  Each lock is a
    held/free flag, as in [Kalloc]: what runs between two switches is a
    turn of one hart, and between turns no lock is held. *)
From S2P Require Import Prelude Riscv Memory Kalloc Vm.

(** ** Definitions *)

Definition NPROC : nat := 64.
Definition NCPU : nat := 8.
Definition NOFILE : nat := 16.

Inductive procstate := UNUSED | USED | SLEEPING | RUNNABLE | RUNNING | ZOMBIE.
Global Instance procstate_eq_dec : EqDecision procstate.
Proof. solve_decision. Defined.

(** What a process sleeps on: nothing, a process, or another address. *)
Inductive chan := NoChan | ChProc (p : nat) | ChAddr (a : Z).
Global Instance chan_eq_dec : EqDecision chan.
Proof. solve_decision. Defined.

(** Where a process goes on: in user code, at the start of [forkret], after
    the [sched] of [yield] or of [sleep], or at the lock of the loop of
    [wait] or [waitx]. *)
Inductive kctx := CNone | CUser | CForkret | CYield | CSleep (k : kctx) | CWait (addr : Z) | CWaitx (addr : Z).
Global Instance kctx_eq_dec : EqDecision kctx.
Proof. solve_decision. Defined.

Record proc := Proc {
  p_lock : bool;
  p_state : procstate;
  p_chan : chan;
  p_killed : Z;
  p_xstate : Z;
  p_pid : Z;
  p_parent : option nat;
  p_kstack : Z;
  p_sz : Z;
  p_pagetable : Z;
  p_trapframe : Z;
  p_context : kctx;
  p_ofile : list (option nat);
  p_cwd : option nat;
  p_name : list Z;
  p_rtime : Z;
  p_ctime : Z;
  p_etime : Z;
  p_pagefaultcount : Z
}.

Definition set_p_lock (v : bool) (p : proc) : proc :=
  Proc v (p_state p) (p_chan p) (p_killed p) (p_xstate p) (p_pid p) (p_parent p) (p_kstack p) (p_sz p) (p_pagetable p) (p_trapframe p) (p_context p) (p_ofile p) (p_cwd p) (p_name p) (p_rtime p) (p_ctime p) (p_etime p) (p_pagefaultcount p).
Definition set_p_state (v : procstate) (p : proc) : proc :=
  Proc (p_lock p) v (p_chan p) (p_killed p) (p_xstate p) (p_pid p) (p_parent p) (p_kstack p) (p_sz p) (p_pagetable p) (p_trapframe p) (p_context p) (p_ofile p) (p_cwd p) (p_name p) (p_rtime p) (p_ctime p) (p_etime p) (p_pagefaultcount p).
Definition set_p_chan (v : chan) (p : proc) : proc :=
  Proc (p_lock p) (p_state p) v (p_killed p) (p_xstate p) (p_pid p) (p_parent p) (p_kstack p) (p_sz p) (p_pagetable p) (p_trapframe p) (p_context p) (p_ofile p) (p_cwd p) (p_name p) (p_rtime p) (p_ctime p) (p_etime p) (p_pagefaultcount p).
Definition set_p_killed (v : Z) (p : proc) : proc :=
  Proc (p_lock p) (p_state p) (p_chan p) v (p_xstate p) (p_pid p) (p_parent p) (p_kstack p) (p_sz p) (p_pagetable p) (p_trapframe p) (p_context p) (p_ofile p) (p_cwd p) (p_name p) (p_rtime p) (p_ctime p) (p_etime p) (p_pagefaultcount p).
Definition set_p_xstate (v : Z) (p : proc) : proc :=
  Proc (p_lock p) (p_state p) (p_chan p) (p_killed p) v (p_pid p) (p_parent p) (p_kstack p) (p_sz p) (p_pagetable p) (p_trapframe p) (p_context p) (p_ofile p) (p_cwd p) (p_name p) (p_rtime p) (p_ctime p) (p_etime p) (p_pagefaultcount p).
Definition set_p_pid (v : Z) (p : proc) : proc :=
  Proc (p_lock p) (p_state p) (p_chan p) (p_killed p) (p_xstate p) v (p_parent p) (p_kstack p) (p_sz p) (p_pagetable p) (p_trapframe p) (p_context p) (p_ofile p) (p_cwd p) (p_name p) (p_rtime p) (p_ctime p) (p_etime p) (p_pagefaultcount p).
Definition set_p_parent (v : option nat) (p : proc) : proc :=
  Proc (p_lock p) (p_state p) (p_chan p) (p_killed p) (p_xstate p) (p_pid p) v (p_kstack p) (p_sz p) (p_pagetable p) (p_trapframe p) (p_context p) (p_ofile p) (p_cwd p) (p_name p) (p_rtime p) (p_ctime p) (p_etime p) (p_pagefaultcount p).
Definition set_p_kstack (v : Z) (p : proc) : proc :=
  Proc (p_lock p) (p_state p) (p_chan p) (p_killed p) (p_xstate p) (p_pid p) (p_parent p) v (p_sz p) (p_pagetable p) (p_trapframe p) (p_context p) (p_ofile p) (p_cwd p) (p_name p) (p_rtime p) (p_ctime p) (p_etime p) (p_pagefaultcount p).
Definition set_p_sz (v : Z) (p : proc) : proc :=
  Proc (p_lock p) (p_state p) (p_chan p) (p_killed p) (p_xstate p) (p_pid p) (p_parent p) (p_kstack p) v (p_pagetable p) (p_trapframe p) (p_context p) (p_ofile p) (p_cwd p) (p_name p) (p_rtime p) (p_ctime p) (p_etime p) (p_pagefaultcount p).
Definition set_p_pagetable (v : Z) (p : proc) : proc :=
  Proc (p_lock p) (p_state p) (p_chan p) (p_killed p) (p_xstate p) (p_pid p) (p_parent p) (p_kstack p) (p_sz p) v (p_trapframe p) (p_context p) (p_ofile p) (p_cwd p) (p_name p) (p_rtime p) (p_ctime p) (p_etime p) (p_pagefaultcount p).
Definition set_p_trapframe (v : Z) (p : proc) : proc :=
  Proc (p_lock p) (p_state p) (p_chan p) (p_killed p) (p_xstate p) (p_pid p) (p_parent p) (p_kstack p) (p_sz p) (p_pagetable p) v (p_context p) (p_ofile p) (p_cwd p) (p_name p) (p_rtime p) (p_ctime p) (p_etime p) (p_pagefaultcount p).
Definition set_p_context (v : kctx) (p : proc) : proc :=
  Proc (p_lock p) (p_state p) (p_chan p) (p_killed p) (p_xstate p) (p_pid p) (p_parent p) (p_kstack p) (p_sz p) (p_pagetable p) (p_trapframe p) v (p_ofile p) (p_cwd p) (p_name p) (p_rtime p) (p_ctime p) (p_etime p) (p_pagefaultcount p).
Definition set_p_ofile (v : list (option nat)) (p : proc) : proc :=
  Proc (p_lock p) (p_state p) (p_chan p) (p_killed p) (p_xstate p) (p_pid p) (p_parent p) (p_kstack p) (p_sz p) (p_pagetable p) (p_trapframe p) (p_context p) v (p_cwd p) (p_name p) (p_rtime p) (p_ctime p) (p_etime p) (p_pagefaultcount p).
Definition set_p_cwd (v : option nat) (p : proc) : proc :=
  Proc (p_lock p) (p_state p) (p_chan p) (p_killed p) (p_xstate p) (p_pid p) (p_parent p) (p_kstack p) (p_sz p) (p_pagetable p) (p_trapframe p) (p_context p) (p_ofile p) v (p_name p) (p_rtime p) (p_ctime p) (p_etime p) (p_pagefaultcount p).
Definition set_p_name (v : list Z) (p : proc) : proc :=
  Proc (p_lock p) (p_state p) (p_chan p) (p_killed p) (p_xstate p) (p_pid p) (p_parent p) (p_kstack p) (p_sz p) (p_pagetable p) (p_trapframe p) (p_context p) (p_ofile p) (p_cwd p) v (p_rtime p) (p_ctime p) (p_etime p) (p_pagefaultcount p).
Definition set_p_rtime (v : Z) (p : proc) : proc :=
  Proc (p_lock p) (p_state p) (p_chan p) (p_killed p) (p_xstate p) (p_pid p) (p_parent p) (p_kstack p) (p_sz p) (p_pagetable p) (p_trapframe p) (p_context p) (p_ofile p) (p_cwd p) (p_name p) v (p_ctime p) (p_etime p) (p_pagefaultcount p).
Definition set_p_ctime (v : Z) (p : proc) : proc :=
  Proc (p_lock p) (p_state p) (p_chan p) (p_killed p) (p_xstate p) (p_pid p) (p_parent p) (p_kstack p) (p_sz p) (p_pagetable p) (p_trapframe p) (p_context p) (p_ofile p) (p_cwd p) (p_name p) (p_rtime p) v (p_etime p) (p_pagefaultcount p).
Definition set_p_etime (v : Z) (p : proc) : proc :=
  Proc (p_lock p) (p_state p) (p_chan p) (p_killed p) (p_xstate p) (p_pid p) (p_parent p) (p_kstack p) (p_sz p) (p_pagetable p) (p_trapframe p) (p_context p) (p_ofile p) (p_cwd p) (p_name p) (p_rtime p) (p_ctime p) v (p_pagefaultcount p).
Definition set_p_pagefaultcount (v : Z) (p : proc) : proc :=
  Proc (p_lock p) (p_state p) (p_chan p) (p_killed p) (p_xstate p) (p_pid p) (p_parent p) (p_kstack p) (p_sz p) (p_pagetable p) (p_trapframe p) (p_context p) (p_ofile p) (p_cwd p) (p_name p) (p_rtime p) (p_ctime p) (p_etime p) v.

(** The process table with what it stands on: the memory of the kernel, the
    CPUs' [c->proc], and the state [F] of the open files. *)
Record pst (F : Type) := PSt {
  kern : kst;
  procs : list proc;
  cpus : list (option nat);
  pid_lock : bool;
  wait_lock : bool;
  nextpid : Z;
  initproc : option nat;
  ticks : Z;
  ftable : F
}.
Arguments PSt {F}.
Arguments kern {F}.
Arguments procs {F}.
Arguments cpus {F}.
Arguments pid_lock {F}.
Arguments wait_lock {F}.
Arguments nextpid {F}.
Arguments initproc {F}.
Arguments ticks {F}.
Arguments ftable {F}.

Definition set_kern {F} (v : kst) (s : pst F) : pst F :=
  PSt v (procs s) (cpus s) (pid_lock s) (wait_lock s) (nextpid s) (initproc s) (ticks s) (ftable s).
Definition set_procs {F} (v : list proc) (s : pst F) : pst F :=
  PSt (kern s) v (cpus s) (pid_lock s) (wait_lock s) (nextpid s) (initproc s) (ticks s) (ftable s).
Definition set_cpus {F} (v : list (option nat)) (s : pst F) : pst F :=
  PSt (kern s) (procs s) v (pid_lock s) (wait_lock s) (nextpid s) (initproc s) (ticks s) (ftable s).
Definition set_pid_lock {F} (v : bool) (s : pst F) : pst F :=
  PSt (kern s) (procs s) (cpus s) v (wait_lock s) (nextpid s) (initproc s) (ticks s) (ftable s).
Definition set_wait_lock {F} (v : bool) (s : pst F) : pst F :=
  PSt (kern s) (procs s) (cpus s) (pid_lock s) v (nextpid s) (initproc s) (ticks s) (ftable s).
Definition set_nextpid {F} (v : Z) (s : pst F) : pst F :=
  PSt (kern s) (procs s) (cpus s) (pid_lock s) (wait_lock s) v (initproc s) (ticks s) (ftable s).
Definition set_initproc {F} (v : option nat) (s : pst F) : pst F :=
  PSt (kern s) (procs s) (cpus s) (pid_lock s) (wait_lock s) (nextpid s) v (ticks s) (ftable s).
Definition set_ticks {F} (v : Z) (s : pst F) : pst F :=
  PSt (kern s) (procs s) (cpus s) (pid_lock s) (wait_lock s) (nextpid s) (initproc s) v (ftable s).
Definition set_ftable {F} (v : F) (s : pst F) : pst F :=
  PSt (kern s) (procs s) (cpus s) (pid_lock s) (wait_lock s) (nextpid s) (initproc s) (ticks s) v.

(** What processes ask of the layer of open files: a copy of a file or of a
    working directory, and their release, which answers the channels it
    wakes; [namei("/")]. *)
Class Files (F : Type) := {
  f_dup : nat → M F nat;
  f_close : nat → M F (list chan);
  f_idup : nat → M F nat;
  f_iput : nat → M F (list chan);
  f_root : M F nat
}.

Section proc.
Context `{L : Layout} {F : Type} `{FO : Files F}.
Local Notation P := (M (pst F)).

Definition kern_m {A} (m : M kst A) : P A := lift_m kern set_kern m.
Definition file_m {A} (m : M F A) : P A := lift_m ftable set_ftable m.

Definition null_proc : proc :=
  Proc false UNUSED NoChan 0 0 0 None 0 0 0 0 CNone (replicate NOFILE None) None [] 0 0 0 0.
Definition get_p (i : nat) : P proc := gets (λ s, default null_proc (procs s !! i)).
Definition upd_p (i : nat) (f : proc → proc) : P unit := modify (λ s, set_procs (alter f i (procs s)) s).

(** *** Locks *)

Definition acquire_p (i : nat) : P unit := λ s,
  if p_lock (default null_proc (procs s !! i)) then Panic "acquire" else upd_p i (set_p_lock true) s.
Definition release_p (i : nat) : P unit := λ s,
  if p_lock (default null_proc (procs s !! i)) then upd_p i (set_p_lock false) s else Panic "release".
Definition acquire_wait : P unit := λ s,
  if wait_lock s then Panic "acquire" else Ok (tt, set_wait_lock true s).
Definition release_wait : P unit := λ s,
  if wait_lock s then Ok (tt, set_wait_lock false s) else Panic "release".
Definition acquire_pid : P unit := λ s,
  if pid_lock s then Panic "acquire" else Ok (tt, set_pid_lock true s).
Definition release_pid : P unit := λ s,
  if pid_lock s then Ok (tt, set_pid_lock false s) else Panic "release".

(** [mycpu()->noff]: how many locks the hart holds. *)
Definition noff (s : pst F) : nat :=
  (Nat.b2n (wait_lock s) + Nat.b2n (pid_lock s) + Nat.b2n (kmem_lock (kern s)) + Nat.b2n (ref_page_lock (kern s)) +
   sum_list_with (λ p, Nat.b2n (p_lock p)) (procs s))%nat.

(** A loop over the table that may return from its middle. *)
Fixpoint for_procs {A} (body : nat → P (option A)) (l : list nat) : P (option A) :=
  match l with
  | [] => mret None
  | i :: l' => r ← body i; match r with Some a => mret (Some a) | None => for_procs body l' end
  end.
Definition all_procs : list nat := seq 0 NPROC.

(** *** Allocation *)

Definition proc_mapstacks (kpgtbl : Z) : P unit :=
  foreach (λ i,
    pa ← kern_m kalloc;
    if pa =? 0 then panic "kalloc"
    else kern_m (kvmmap kpgtbl (KSTACK (Z.of_nat i)) pa PGSIZE (Z.lor PTE_R PTE_W))) all_procs.

Definition procinit : P unit :=
  modify (set_pid_lock false);;
  modify (set_wait_lock false);;
  foreach (λ i, upd_p i (λ p, set_p_kstack (KSTACK (Z.of_nat i)) (set_p_state UNUSED (set_p_lock false p)))) all_procs.

Definition allocpid : P Z :=
  acquire_pid;;
  pid ← gets nextpid;
  modify (set_nextpid (i32 (pid + 1)));;
  release_pid;;
  mret pid.

Definition proc_pagetable (tf : Z) : M kst Z :=
  pagetable ← uvmcreate;
  if pagetable =? 0 then mret 0
  else
    r ← mappages pagetable TRAMPOLINE PGSIZE trampoline (Z.lor PTE_R PTE_X);
    if r <? 0 then uvmfree pagetable 0;; mret 0
    else
      r ← mappages pagetable TRAPFRAME PGSIZE tf (Z.lor PTE_R PTE_W);
      if r <? 0 then uvmunmap pagetable TRAMPOLINE 1 false;; uvmfree pagetable 0;; mret 0
      else mret pagetable.

Definition proc_freepagetable (pagetable sz : Z) : M kst unit :=
  uvmunmap pagetable TRAMPOLINE 1 false;;
  uvmunmap pagetable TRAPFRAME 1 false;;
  uvmfree pagetable sz.

(** The fields [freeproc] resets. *)
Definition clear_proc (p : proc) : proc :=
  set_p_state UNUSED (set_p_xstate 0 (set_p_killed 0 (set_p_chan NoChan (set_p_name [] (set_p_parent None
    (set_p_pid 0 (set_p_sz 0 p))))))).

Definition freeproc (i : nat) : P unit :=
  p ← get_p i;
  (if negb (p_trapframe p =? 0) then kern_m (kfree (p_trapframe p)) else mret tt);;
  upd_p i (set_p_trapframe 0);;
  (if negb (p_pagetable p =? 0) then kern_m (proc_freepagetable (p_pagetable p) (p_sz p)) else mret tt);;
  upd_p i (set_p_pagetable 0);;
  upd_p i clear_proc.

(** The start of a new process: [forkret], with the counters at zero. *)
Definition fresh_proc (t : Z) (p : proc) : proc :=
  set_p_pagefaultcount 0 (set_p_ctime t (set_p_etime 0 (set_p_rtime 0 (set_p_context CForkret p)))).

(** [allocproc]: the process answered has its lock held. *)
Definition allocproc : P (option nat) :=
  found ← for_procs (λ i,
    acquire_p i;;
    p ← get_p i;
    if decide (p_state p = UNUSED) then mret (Some i) else release_p i;; mret None) all_procs;
  match found with
  | None => mret None
  | Some i =>
      pid ← allocpid;
      upd_p i (set_p_pid pid);;
      upd_p i (set_p_state USED);;
      tf ← kern_m kalloc;
      upd_p i (set_p_trapframe tf);;
      if tf =? 0 then freeproc i;; release_p i;; mret None
      else
        pt ← kern_m (proc_pagetable tf);
        upd_p i (set_p_pagetable pt);;
        if pt =? 0 then freeproc i;; release_p i;; mret None
        else
          t ← gets ticks;
          upd_p i (fresh_proc t);;
          mret (Some i)
  end.

(** [initcode]. *)
Definition initcode : list Z :=
  [0x17; 0x05; 0x00; 0x00; 0x13; 0x05; 0x45; 0x02; 0x97; 0x05; 0x00; 0x00; 0x93; 0x85; 0x35; 0x02;
   0x93; 0x08; 0x70; 0x00; 0x73; 0x00; 0x00; 0x00; 0x93; 0x08; 0x20; 0x00; 0x73; 0x00; 0x00; 0x00;
   0xef; 0xf0; 0x9f; 0xff; 0x2f; 0x69; 0x6e; 0x69; 0x74; 0x00; 0x00; 0x24; 0x00; 0x00; 0x00; 0x00;
   0x00; 0x00; 0x00; 0x00].
Definition TF_EPC : Z := 24.
Definition TF_SP : Z := 48.
Definition TF_A0 : Z := 112.
Definition TF_SIZE : Z := 288.

(** [safestrcpy] between two 16-byte names, as the bytes before the NUL. *)
Definition copy_name (t : list Z) : list Z := take 15 t.

(** [userinit], whose caller relies on [allocproc] not to fail: with no
    process the first access is through a null pointer. *)
Definition userinit : P unit :=
  r ← allocproc;
  modify (set_initproc r);;
  match r with
  | None => panic "null dereference"
  | Some i =>
      p ← get_p i;
      kern_m (uvmfirst (p_pagetable p) initcode);;
      upd_p i (set_p_sz PGSIZE);;
      kern_m (store64 (p_trapframe p + TF_EPC) 0);;
      kern_m (store64 (p_trapframe p + TF_SP) PGSIZE);;
      upd_p i (set_p_name (copy_name [105; 110; 105; 116; 99; 111; 100; 101]));;
      cwd ← file_m f_root;
      upd_p i (set_p_cwd (Some cwd));;
      upd_p i (set_p_state RUNNABLE);;
      release_p i
  end.

Definition growproc (me : nat) (n : Z) : P Z :=
  p ← get_p me;
  if n >? 0 then
    sz ← kern_m (uvmalloc (p_pagetable p) (p_sz p) (u64 (p_sz p + n)) PTE_W);
    if sz =? 0 then mret (-1) else upd_p me (set_p_sz sz);; mret 0
  else if n <? 0 then
    sz ← kern_m (uvmdealloc (p_pagetable p) (p_sz p) (u64 (p_sz p + n)));
    upd_p me (set_p_sz sz);; mret 0
  else upd_p me (set_p_sz (p_sz p));; mret 0.

(** *** Sleep and wakeup *)

(** [wakeup], by process [me] or (with none) by an interrupt handler. *)
Definition wakeup (me : option nat) (ch : chan) : P unit :=
  foreach (λ i,
    if decide (Some i = me) then mret tt
    else
      acquire_p i;;
      p ← get_p i;
      (if decide (p_state p = SLEEPING ∧ p_chan p = ch) then upd_p i (set_p_state RUNNABLE) else mret tt);;
      release_p i) all_procs.

(** [sched]: the tests, then the switch to the scheduler of the CPU, which
    lets go of the process and of its lock. *)
Definition sched (me : nat) (k : kctx) : P unit :=
  p ← get_p me;
  n ← gets noff;
  if negb (p_lock p) then panic "sched p->lock"
  else if negb (n =? 1)%nat then panic "sched locks"
  else if decide (p_state p = RUNNING) then panic "sched running"
  else
    upd_p me (set_p_context k);;
    modify (λ s, set_cpus ((λ c, if decide (c = Some me) then None else c) <$> cpus s) s);;
    release_p me.

Definition yield (me : nat) : P unit :=
  acquire_p me;;
  upd_p me (set_p_state RUNNABLE);;
  sched me CYield.

(** [sleep(chan, lk)], up to its switch: [release_lk] releases the caller's
    lock, [k] is where the process goes on once it has the lock again. *)
Definition sleep (me : nat) (ch : chan) (release_lk : P unit) (k : kctx) : P unit :=
  acquire_p me;;
  release_lk;;
  upd_p me (set_p_chan ch);;
  upd_p me (set_p_state SLEEPING);;
  sched me (CSleep k).

(** The turn of [scheduler] on CPU [c] with process [i]: false when it is
    not runnable; the process goes on where its context says, up to the
    release of its lock in [forkret], [yield] or [sleep]. *)
Definition scheduler (c i : nat) : P bool :=
  acquire_p i;;
  p ← get_p i;
  if decide (p_state p = RUNNABLE) then
    upd_p i (set_p_state RUNNING);;
    modify (λ s, set_cpus (<[c := Some i]> (cpus s)) s);;
    match p_context p with
    | CForkret | CYield => upd_p i (set_p_context CUser);; release_p i
    | CSleep k => upd_p i (set_p_chan NoChan);; upd_p i (set_p_context k);; release_p i
    | _ => panic "swtch"
    end;;
    mret true
  else release_p i;; mret false.

(** *** Fork, exit and wait *)

(** The loop of [fork] over the open files. *)
Definition dup_files (np : nat) (l : list (option nat)) : P unit :=
  foreach (λ '(i, o), match o with
    | Some f => g ← file_m (f_dup f); upd_p np (λ p, set_p_ofile (<[i := Some g]> (p_ofile p)) p)
    | None => mret tt
    end) (imap pair l).

Definition fork (me : nat) : P Z :=
  r ← allocproc;
  match r with
  | None => mret (-1)
  | Some np =>
      p ← get_p me;
      q ← get_p np;
      c ← kern_m (uvmcopy (p_pagetable p) (p_pagetable q) (p_sz p));
      if c <? 0 then freeproc np;; release_p np;; mret (-1)
      else
        upd_p np (set_p_sz (p_sz p));;
        kern_m (update_ram (λ m, memmove m (p_trapframe q) (p_trapframe p) TF_SIZE));;
        kern_m (store64 (p_trapframe q + TF_A0) 0);;
        dup_files np (p_ofile p);;
        cwd ← file_m (f_idup (default O (p_cwd p)));
        upd_p np (set_p_cwd (Some cwd));;
        upd_p np (set_p_name (copy_name (p_name p)));;
        let pid := p_pid q in
        release_p np;;
        acquire_wait;;
        upd_p np (set_p_parent (Some me));;
        release_wait;;
        acquire_p np;;
        upd_p np (set_p_state RUNNABLE);;
        release_p np;;
        mret pid
  end.

Definition reparent (me : nat) : P unit :=
  foreach (λ i,
    p ← get_p i;
    if decide (p_parent p = Some me) then
      init ← gets initproc;
      upd_p i (set_p_parent init);;
      wakeup (Some me) (match init with Some j => ChProc j | None => NoChan end)
    else mret tt) all_procs.

Definition close_files (me : nat) : P unit :=
  foreach (λ fd,
    p ← get_p me;
    match p_ofile p !! fd with
    | Some (Some f) =>
        chs ← file_m (f_close f);
        foreach (wakeup (Some me)) chs;;
        upd_p me (λ p, set_p_ofile (<[fd := None]> (p_ofile p)) p)
    | _ => mret tt
    end) (seq 0 NOFILE).

Definition exit (me : nat) (status : Z) : P unit :=
  init ← gets initproc;
  if decide (init = Some me) then panic "init exiting"
  else
    close_files me;;
    p ← get_p me;
    chs ← file_m (f_iput (default O (p_cwd p)));
    foreach (wakeup (Some me)) chs;;
    upd_p me (set_p_cwd None);;
    acquire_wait;;
    reparent me;;
    p ← get_p me;
    wakeup (Some me) (match p_parent p with Some j => ChProc j | None => NoChan end);;
    acquire_p me;;
    upd_p me (set_p_xstate status);;
    upd_p me (set_p_state ZOMBIE);;
    t ← gets ticks;
    upd_p me (set_p_etime t);;
    release_wait;;
    sched me CNone.

Definition killed (me : nat) : P Z :=
  acquire_p me;;
  p ← get_p me;
  release_p me;;
  mret (p_killed p).

Definition setkilled (i : nat) : P unit :=
  acquire_p i;;
  upd_p i (set_p_killed 1);;
  release_p i.

(** The address space's view of an [int]. *)
Definition int_bytes (x : Z) : list Z := [u8 x; u8 (x / 2 ^ 8); u8 (x / 2 ^ 16); u8 (x / 2 ^ 24)].

(** The scan of [wait] over the table: the answer of a zombie child, or
    whether there are children. *)
Definition reap (me i : nat) (addr : Z) (kids : bool) : P (Z + bool) :=
  p ← get_p i;
  if decide (p_parent p = Some me) then
    acquire_p i;;
    if decide (p_state p = ZOMBIE) then
      q ← get_p me;
      r ← (if negb (addr =? 0) then kern_m (copyout (p_pagetable q) addr (int_bytes (p_xstate p))) else mret 0);
      if r <? 0 then release_p i;; release_wait;; mret (inl (-1))
      else freeproc i;; release_p i;; release_wait;; mret (inl (p_pid p))
    else release_p i;; mret (inr true)
  else mret (inr kids).

Fixpoint wait_scan (me : nat) (addr : Z) (l : list nat) (kids : bool) : P (Z + bool) :=
  match l with
  | [] => mret (inr kids)
  | i :: l' =>
      r ← reap me i addr kids;
      match r with inl pid => mret (inl pid) | inr kids => wait_scan me addr l' kids end
  end.

(** A turn of [wait]'s loop, from the acquisition of [wait_lock]: the
    answer, or none when the process went to sleep. *)
Definition wait (me : nat) (addr : Z) : P (option Z) :=
  acquire_wait;;
  r ← wait_scan me addr all_procs false;
  match r with
  | inl pid => mret (Some pid)
  | inr kids =>
      k ← (if negb kids then mret 1 else killed me);
      if negb (k =? 0) then release_wait;; mret (Some (-1))
      else sleep me (ChProc me) release_wait (CWait addr);; mret None
  end.

Definition kill (pid : Z) : P Z :=
  r ← for_procs (λ i,
    acquire_p i;;
    p ← get_p i;
    if p_pid p =? pid then
      upd_p i (set_p_killed 1);;
      (if decide (p_state p = SLEEPING) then upd_p i (set_p_state RUNNABLE) else mret tt);;
      release_p i;;
      mret (Some 0)
    else release_p i;; mret None) all_procs;
  mret (default (-1) r).

(** *** Copies and times *)

Definition either_copyout (me : nat) (user_dst : bool) (dst : Z) (src : list Z) : P Z :=
  p ← get_p me;
  if user_dst then kern_m (copyout (p_pagetable p) dst src)
  else kern_m (update_ram (λ m, write_bytes m dst src));; mret 0.

Definition either_copyin (me : nat) (user_src : bool) (src len : Z) : P (option (list Z)) :=
  p ← get_p me;
  if user_src then kern_m (copyin (p_pagetable p) src len)
  else kern_m (gets (λ s, Some (bytes_at (ram s) src (Z.to_nat len)))).

Definition update_time : P unit :=
  foreach (λ i,
    acquire_p i;;
    p ← get_p i;
    (if decide (p_state p = RUNNING) then upd_p i (set_p_rtime (u32 (p_rtime p + 1))) else mret tt);;
    release_p i) all_procs.

(** [waitx]: like [wait], with the times of the child. *)
Definition reapx (me i : nat) (addr : Z) (kids : bool) : P ((Z * option (Z * Z)) + bool) :=
  p ← get_p i;
  if decide (p_parent p = Some me) then
    acquire_p i;;
    if decide (p_state p = ZOMBIE) then
      let times := Some (u32 (p_etime p - p_ctime p - p_rtime p), p_rtime p) in
      q ← get_p me;
      r ← (if negb (addr =? 0) then kern_m (copyout (p_pagetable q) addr (int_bytes (p_xstate p))) else mret 0);
      if r <? 0 then release_p i;; release_wait;; mret (inl (-1, times))
      else freeproc i;; release_p i;; release_wait;; mret (inl (p_pid p, times))
    else release_p i;; mret (inr true)
  else mret (inr kids).

Fixpoint waitx_scan (me : nat) (addr : Z) (l : list nat) (kids : bool) : P ((Z * option (Z * Z)) + bool) :=
  match l with
  | [] => mret (inr kids)
  | i :: l' =>
      r ← reapx me i addr kids;
      match r with inl a => mret (inl a) | inr kids => waitx_scan me addr l' kids end
  end.

Definition waitx (me : nat) (addr : Z) : P (option (Z * option (Z * Z))) :=
  acquire_wait;;
  r ← waitx_scan me addr all_procs false;
  match r with
  | inl a => mret (Some a)
  | inr kids =>
      p ← get_p me;
      if negb kids || negb (p_killed p =? 0) then release_wait;; mret (Some (-1, None))
      else sleep me (ChProc me) release_wait (CWaitx addr);; mret None
  end.
End proc.
