(* ===== verification/ProcInv.v ===== *)
(** The kernel's processes as a system of turns, and the invariant of the
    process table. *)
From S2P Require Import Prelude Riscv Memory Kalloc Vm Partial Proc.

(** ** Definitions *)

(** *** What a process or an interrupt does next *)

Inductive call :=
| Fork | Exit (status : Z) | Wait (addr : Z) | Waitx (addr : Z) | Kill (pid : Z) | Yield | Sbrk (n : Z)
| SleepOn (ch : chan) | Wakeup (ch : chan) | SetKilled.

Section steps.
Context `{L : Layout} {F : Type} `{FO : Files F}.
Implicit Types s : pst F.

Definition running s (me : nat) (k : kctx) : Prop :=
  ∃ p, procs s !! me = Some p ∧ p_state p = RUNNING ∧ p_context p = k.

(** A process whose call returned is back in user code. *)
Definition back {A} (me : nat) (r : option A) : M (pst F) unit :=
  match r with Some _ => upd_p me (set_p_context CUser) | None => mret tt end.

Definition do_call (me : nat) (c : call) : M (pst F) unit :=
  match c with
  | Fork => fork me;; mret tt
  | Exit status => exit me status
  | Wait addr => r ← wait me addr; back me r
  | Waitx addr => r ← waitx me addr; back me r
  | Kill pid => kill pid;; mret tt
  | Yield => yield me
  | Sbrk n => growproc me n;; mret tt
  | SleepOn ch => sleep me ch (mret tt) CUser
  | Wakeup ch => wakeup (Some me) ch
  | SetKilled => setkilled me
  end.

(** What user code, [exec] and the file calls change of their process. *)
Definition own_fields (l : list (option nat)) (cwd : option nat) (n : list Z) (pt sz : Z) (p : proc) : proc :=
  set_p_sz sz (set_p_pagetable pt (set_p_name n (set_p_cwd cwd (set_p_ofile l p)))).

Inductive pstep s : pst F → Prop :=
| step_scheduler c i b s' : cpus s !! c = Some None → (i < NPROC)%nat → scheduler c i s = Ok (b, s') → pstep s s'
| step_call me c s' : running s me CUser → do_call me c s = Ok (tt, s') → pstep s s'
| step_wait me addr s' : running s me (CWait addr) → do_call me (Wait addr) s = Ok (tt, s') → pstep s s'
| step_waitx me addr s' : running s me (CWaitx addr) → do_call me (Waitx addr) s = Ok (tt, s') → pstep s s'
| step_interrupt ch t s' : wakeup None ch (set_ticks t s) = Ok (tt, s') → pstep s s'
| step_clock s' : update_time s = Ok (tt, s') → pstep s s'
| step_user me k f l cwd n pt sz s' : running s me CUser → pt ≠ 0 →
    upd_p me (own_fields l cwd n pt sz) (set_kern k (set_ftable f s)) = Ok (tt, s') → pstep s s'.

(** The kernel after [userinit]. *)
Definition booted s : Prop :=
  ∃ k f b1 b2, (procinit;; userinit) (PSt k (replicate NPROC null_proc) (replicate NCPU None) b1 b2 1 None 0 f) = Ok (tt, s).

Definition reachable s : Prop := ∃ s0, booted s0 ∧ rtc pstep s0 s.

(** Reached by turns none of which made [nextpid] wrap around: the
    [int] overflows to a negative number. *)
Definition pids_fresh s : Prop := ∃ s0, booted s0 ∧ rtc (λ a b, pstep a b ∧ 0 < nextpid b) s0 s.
End steps.

(** *** The invariant *)

(** Points of control a running process can be at. *)
Definition resumable (k : kctx) : Prop :=
  match k with CUser | CWait _ | CWaitx _ => True | _ => False end.
Definition in_wait (k : kctx) : Prop := match k with CSleep (CWait _) | CSleep (CWaitx _) => True | _ => False end.
Definition asleep_ctx (k : kctx) : Prop := match k with CSleep k' => resumable k' | _ => False end.

Definition live (p : proc) : Prop := p_state p ≠ UNUSED.
Definition active (p : proc) : Prop :=
  match p_state p with SLEEPING | RUNNABLE | RUNNING => True | _ => False end.

(** The fields of a process fit its state. *)
Definition proc_ok (p : proc) : Prop :=
  match p_state p with
  | UNUSED => p_pid p = 0 ∧ p_parent p = None ∧ p_chan p = NoChan ∧ p_xstate p = 0 ∧
              p_sz p = 0 ∧ p_pagetable p = 0 ∧ p_trapframe p = 0
  | USED => False
  | SLEEPING => asleep_ctx (p_context p)
  | RUNNABLE => p_chan p = NoChan ∧ (p_context p = CForkret ∨ p_context p = CYield) ∨ asleep_ctx (p_context p)
  | RUNNING => p_chan p = NoChan ∧ resumable (p_context p)
  | ZOMBIE => p_chan p = NoChan ∧ p_cwd p = None
  end ∧ (live p → p_trapframe p ≠ 0 ∧ p_pagetable p ≠ 0) ∧ p_lock p = false.

(** The table is in order.  [nextpid] is an [int] that wraps around; [NW]
    stands for a history in which it has not: then the pids of the live
    processes are positive, below it and distinct. *)
Record table_ok (NW : Prop) (l : list proc) (cs : list (option nat)) (npid : Z) (init : option nat) : Prop := {
  tb_length : length l = NPROC;
  tb_npid : - 2 ^ 31 <= npid < 2 ^ 31 ∧ (NW → 0 < npid);
  tb_procs i p : l !! i = Some p → proc_ok p ∧ (NW → live p → 0 < p_pid p < npid);
  tb_pids i j p q : NW → l !! i = Some p → l !! j = Some q → live p → live q → p_pid p = p_pid q → i = j;
  tb_init : ∃ j q, init = Some j ∧ l !! j = Some q ∧ active q ∧ p_parent q = None;
  tb_parents i p : l !! i = Some p → live p → init ≠ Some i →
    ∃ j q, p_parent p = Some j ∧ l !! j = Some q ∧ active q;
  tb_cpus i p : l !! i = Some p → p_state p = RUNNING ↔ ∃ c, cs !! c = Some (Some i);
  tb_cpu c c' i : cs !! c = Some (Some i) → cs !! c' = Some (Some i) → c = c';
  tb_wait i p : l !! i = Some p → p_state p = SLEEPING → in_wait (p_context p) →
    p_chan p = ChProc i ∧ (∃ j q, l !! j = Some q ∧ live q ∧ p_parent q = Some i) ∧
    ∀ j q, l !! j = Some q → p_parent q = Some i → p_state q ≠ ZOMBIE
}.

Definition kernel_ok (NW : Prop) {F} (s : pst F) : Prop :=
  wait_lock s = false ∧ pid_lock s = false ∧ table_ok NW (procs s) (cpus s) (nextpid s) (initproc s).

(** [q] is [p], or [p] woken from its sleep. *)
Definition woke (p q : proc) : Prop := q = p ∨ p_state p = SLEEPING ∧ q = set_p_state RUNNABLE p.
Definition wokes (l l' : list proc) : Prop := Forall2 woke l l'.

(** ** Lemmas *)

(** *** Rules for the table *)

Section rules.
Context `{L : Layout} {F : Type} `{FO : Files F}.
Implicit Types (l : list proc).

Lemma wlp_acquire_p i p k l c b1 b2 n ini t f (Q : unit → pst F → Prop) : l !! i = Some p →
  (p_lock p = false → Q tt (PSt k (<[i := set_p_lock true p]> l) c b1 b2 n ini t f)) →
  wlp (acquire_p i) (PSt k l c b1 b2 n ini t f) Q.
Proof.
  intros Hi HQ. unfold wlp, acquire_p. cbn [procs]. rewrite Hi. simpl. destruct (p_lock p); [done|].
  unfold upd_p, modify, set_procs; simpl. rewrite (alter_insert _ _ _ _ Hi). by apply HQ.
Qed.

Lemma wlp_release_p i p k l c b1 b2 n ini t f (Q : unit → pst F → Prop) : l !! i = Some p →
  Q tt (PSt k (<[i := set_p_lock false p]> l) c b1 b2 n ini t f) →
  wlp (release_p i) (PSt k l c b1 b2 n ini t f) Q.
Proof.
  intros Hi HQ. unfold wlp, release_p. cbn [procs]. rewrite Hi. simpl. destruct (p_lock p); [|done].
  unfold upd_p, modify, set_procs; simpl. by rewrite (alter_insert _ _ _ _ Hi).
Qed.

Lemma wlp_get_p i p k l c b1 b2 n ini t f (Q : proc → pst F → Prop) : l !! i = Some p →
  Q p (PSt k l c b1 b2 n ini t f) → wlp (get_p i) (PSt k l c b1 b2 n ini t f) Q.
Proof. intros Hi HQ. unfold wlp, get_p, gets; simpl. by rewrite Hi. Qed.

Lemma wlp_upd_p i p g k l c b1 b2 n ini t f (Q : unit → pst F → Prop) : l !! i = Some p →
  Q tt (PSt k (<[i := g p]> l) c b1 b2 n ini t f) → wlp (upd_p i g) (PSt k l c b1 b2 n ini t f) Q.
Proof. intros Hi HQ. unfold wlp, upd_p, modify, set_procs; simpl. by rewrite (alter_insert _ _ _ _ Hi). Qed.

Lemma wlp_kern {A} (m : M kst A) k l c b1 b2 n ini t f (Q : A → pst F → Prop) :
  (∀ a k', Q a (PSt k' l c b1 b2 n ini t f)) → wlp (kern_m m) (PSt k l c b1 b2 n ini t f) Q.
Proof. intros HQ. apply wlp_lift. intros a k' _. apply HQ. Qed.

Lemma wlp_file {A} (m : M F A) k l c b1 b2 n ini t f (Q : A → pst F → Prop) :
  (∀ a f', Q a (PSt k l c b1 b2 n ini t f')) → wlp (file_m m) (PSt k l c b1 b2 n ini t f) Q.
Proof. intros HQ. apply wlp_lift. intros a k' _. apply HQ. Qed.

Lemma wlp_wait_lock k l c b1 b2 n ini t f (Q : unit → pst F → Prop) :
  (b2 = false → Q tt (PSt k l c b1 true n ini t f)) → wlp acquire_wait (PSt k l c b1 b2 n ini t f) Q.
Proof. intros HQ. unfold wlp, acquire_wait; simpl. destruct b2; [done|]. by apply HQ. Qed.
Lemma wlp_wait_unlock k l c b1 b2 n ini t f (Q : unit → pst F → Prop) :
  Q tt (PSt k l c b1 false n ini t f) → wlp release_wait (PSt k l c b1 b2 n ini t f) Q.
Proof. intros HQ. unfold wlp, release_wait; simpl. by destruct b2. Qed.

Lemma wlp_allocpid k l c b1 b2 n ini t f (Q : Z → pst F → Prop) :
  (b1 = false → Q n (PSt k l c false b2 (i32 (n + 1)) ini t f)) → wlp allocpid (PSt k l c b1 b2 n ini t f) Q.
Proof. intros HQ. unfold wlp, allocpid, acquire_pid, mbind, M_bind; simpl. destruct b1; [done|]. by apply HQ. Qed.
End rules.

Lemma lock_twice p : p_lock p = false → set_p_lock false (set_p_lock true p) = p.
Proof. destruct p; simpl. by intros ->. Qed.

(** Look up a process in a table that was just changed. *)
Ltac p_lookup := first
  [ eassumption
  | apply list_lookup_insert_eq; rewrite ?length_insert; eapply lookup_lt_Some; eassumption
  | rewrite list_lookup_insert_ne by (done || congruence || (intros ?; subst; congruence)); p_lookup ].

(** One step of the code of proc.c. *)
Ltac p_step :=
  lazymatch goal with
  | |- wlp (acquire_p _) _ _ => eapply wlp_acquire_p; [p_lookup|let H := fresh "Hlk" in intros H]
  | |- wlp (release_p _) _ _ => eapply wlp_release_p; [p_lookup|]
  | |- wlp (get_p _) _ _ => eapply wlp_get_p; [p_lookup|]
  | |- wlp (upd_p _ _) _ _ => eapply wlp_upd_p; [p_lookup|]
  | |- wlp (kern_m _) _ _ => apply wlp_kern; intros ? ?
  | |- wlp (file_m _) _ _ => apply wlp_file; intros ? ?
  | |- wlp acquire_wait _ _ => apply wlp_wait_lock; intros ?
  | |- wlp release_wait _ _ => apply wlp_wait_unlock
  | |- wlp allocpid _ _ => apply wlp_allocpid; intros ?
  | |- wlp (gets _) _ _ => apply wlp_gets; cbn [kern procs cpus pid_lock wait_lock nextpid initproc ticks ftable]
  | |- wlp (modify _) _ _ => apply wlp_modify; unfold set_cpus, set_nextpid, set_initproc, set_ticks;
      cbn [kern procs cpus pid_lock wait_lock nextpid initproc ticks ftable]
  | _ => wlp_step
  end; cbv beta; rewrite ?list_insert_insert_eq.
Ltac p_steps := repeat p_step.
