(* ===== verification/ProcEffect.v ===== *)
(** What each operation of proc.c does to the process table. *)
From S2P Require Import Prelude Riscv Memory Kalloc Vm Partial Proc ProcInv.

(** ** Definitions *)

(** A process woken from a sleep on [ch] by [me]. *)
Definition wake (me : option nat) (ch : chan) (i : nat) (p : proc) : proc :=
  if decide (Some i ≠ me ∧ p_state p = SLEEPING ∧ p_chan p = ch) then set_p_state RUNNABLE p else p.

(** The table with a process allocated and initialised, and given back. *)
Definition born (n tf pt t : Z) (p : proc) : proc :=
  fresh_proc t (set_p_pagetable pt (set_p_trapframe tf (set_p_state USED (set_p_pid n (set_p_lock true p))))).
Definition freed (p : proc) : proc := set_p_lock false (clear_proc (set_p_pagetable 0 (set_p_trapframe 0 p))).

(** The child of a successful [fork], up to its memory and files. *)
Definition child_of (me : nat) (n : Z) (p q : proc) : Prop :=
  p_lock q = false ∧ p_state q = RUNNABLE ∧ p_context q = CForkret ∧ p_chan q = p_chan p ∧ p_killed q = p_killed p ∧
  p_pid q = n ∧ p_parent q = Some me ∧ p_trapframe q ≠ 0 ∧ p_pagetable q ≠ 0.

(** The answer [r] of the copy of a zombie's status to address [addr] of its
    parent [pm] (no copy to a null address), and the memory after it. *)
Definition status_out `{L : Layout} (pm p : proc) (addr : Z) (k : kst) (r : Z) (k1 : kst) : Prop :=
  if addr =? 0 then r = 0 ∧ k1 = k else copyout (p_pagetable pm) addr (int_bytes (p_xstate p)) k = Ok (r, k1).

(** ** Lemmas *)

Section effect.
Context `{L : Layout} {F : Type} `{FO : Files F}.
Implicit Types (l : list proc).

Lemma in_table l i : length l = NPROC → i ∈ all_procs → ∃ p, l !! i = Some p.
Proof. intros Hl Hi. apply elem_of_seq in Hi. apply lookup_lt_is_Some. lia. Qed.

Lemma wlp_for_procs {A} (body : nat → M (pst F) (option A)) il (s : pst F) Q :
  (∀ i, i ∈ il → wlp (body i) s (λ r s', match r with Some a => Q (Some a) s' | None => s' = s end)) →
  Q None s → wlp (for_procs body il) s Q.
Proof.
  induction il as [|i il IH]; intros Hb HQ; [done|]. simpl. apply wlp_bind.
  eapply wlp_mono; [apply Hb; set_solver|]. intros [a|] s' H'; [done|]. subst s'. apply IH; [|done].
  intros j Hj. apply Hb. set_solver.
Qed.

(** A loop over the table whose body changes its own process only. *)
Lemma wlp_each (g : nat → proc → proc) body k l c b1 b2 n ini t f (Q : unit → pst F → Prop) : length l = NPROC →
  (∀ i l p, l !! i = Some p → wlp (body i) (PSt k l c b1 b2 n ini t f) (λ _ s', s' = PSt k (<[i := g i p]> l) c b1 b2 n ini t f)) →
  Q tt (PSt k (imap g l) c b1 b2 n ini t f) →
  wlp (foreach body all_procs) (PSt k l c b1 b2 n ini t f) Q.
Proof.
  intros Hl Hb HQ.
  apply (wlp_foreach (λ (l1 : list nat) s', s' = PSt k (imap g (take (length l1) l) ++ drop (length l1) l) c b1 b2 n ini t f)); [done| |].
  - intros l1 x l2 s' El ->. unfold all_procs in El. assert (seq 0 NPROC !! length l1 = Some x) as Hx by (rewrite El; by apply list_lookup_middle).
    apply lookup_seq in Hx as [-> Hlt]. rewrite Nat.add_0_l, length_app, Nat.add_1_r.
    destruct (lookup_lt_is_Some_2 l (length l1)) as [p Hp]; [lia|].
    eapply wlp_mono.
    { apply (Hb _ _ p). rewrite lookup_app_r by (rewrite length_imap, length_take; lia).
      rewrite length_imap, length_take_le, Nat.sub_diag, lookup_drop, Nat.add_0_r by lia. done. }
    intros [] s' ->. f_equal. rewrite (take_S_r l _ p Hp), imap_app. simpl. rewrite length_take_le, Nat.add_0_r by lia.
    rewrite (drop_S l p _ Hp), insert_app_r_alt by (rewrite length_imap, length_take; lia).
    rewrite length_imap, length_take_le, Nat.sub_diag by lia. simpl. by rewrite <- app_assoc.
  - intros s' ->. unfold all_procs. rewrite length_seq, <- Hl, take_ge, drop_ge, app_nil_r by done. done.
Qed.

Lemma wakeup_effect me ch k l c b1 b2 n ini t f (Q : unit → pst F → Prop) : length l = NPROC →
  Q tt (PSt k (imap (wake me ch) l) c b1 b2 n ini t f) → wlp (wakeup me ch) (PSt k l c b1 b2 n ini t f) Q.
Proof.
  intros Hl HQ. unfold wakeup. eapply wlp_each; [done| |exact HQ]. intros i l' p Hi.
  unfold wake. destruct (decide (Some i = me)) as [E|E].
  { apply wlp_ret. rewrite decide_False by tauto. by rewrite list_insert_id. }
  p_steps. simpl. destruct (decide (p_state p = SLEEPING ∧ p_chan p = ch)) as [E'|E']; p_steps.
  - rewrite decide_True by done. do 2 f_equal. destruct p; simpl in *. by subst.
  - rewrite decide_False by tauto. do 2 f_equal. by apply lock_twice.
Qed.

Lemma update_time_effect k l c b1 b2 n ini t f (Q : unit → pst F → Prop) : length l = NPROC →
  Q tt (PSt k (imap (λ _ p, if decide (p_state p = RUNNING) then set_p_rtime (u32 (p_rtime p + 1)) p else p) l) c b1 b2 n ini t f) →
  wlp update_time (PSt k l c b1 b2 n ini t f) Q.
Proof.
  intros Hl HQ. unfold update_time. eapply wlp_each; [done| |exact HQ]. intros i l' p Hi.
  p_steps. simpl. destruct (decide (p_state p = RUNNING)); p_steps; do 2 f_equal; [|by apply lock_twice].
  destruct p; simpl in *. by subst.
Qed.

Lemma kill_effect pid k l c b1 b2 n ini t f (Q : Z → pst F → Prop) : length l = NPROC →
  Q (-1) (PSt k l c b1 b2 n ini t f) →
  (∀ i p q, l !! i = Some p → p_lock p = false → p_pid p = pid → q = set_p_killed 1 p ∨ p_state p = SLEEPING ∧ q = set_p_state RUNNABLE (set_p_killed 1 p) →
     Q 0 (PSt k (<[i := q]> l) c b1 b2 n ini t f)) →
  wlp (kill pid) (PSt k l c b1 b2 n ini t f) Q.
Proof.
  intros Hl H1 H0. unfold kill. apply wlp_bind. apply wlp_for_procs; [|by apply wlp_ret].
  intros i [p Hp]%(in_table l); [|done]. p_steps. simpl. case_if.
  - p_steps. simpl. destruct (decide (p_state p = SLEEPING)); p_steps.
    + eapply H0; try done. right. split; [done|]. destruct p; simpl in *. by subst.
    + eapply H0; try done. left. destruct p; simpl in *. by subst.
  - p_steps. f_equal. rewrite lock_twice by done. by apply list_insert_id.
Qed.
(** *** Creation and release of a process *)

Lemma freeproc_effect i p k l c b1 b2 n ini t f (Q : unit → pst F → Prop) : l !! i = Some p →
  (∀ k', Q tt (PSt k' (<[i := clear_proc (set_p_pagetable 0 (set_p_trapframe 0 p))]> l) c b1 b2 n ini t f)) →
  wlp (freeproc i) (PSt k l c b1 b2 n ini t f) Q.
Proof.
  intros Hi HQ. unfold freeproc. p_steps.
  eapply (wlp_mono _ _ (λ _ s', ∃ k', s' = PSt k' l c b1 b2 n ini t f)).
  { destruct (negb (p_trapframe p =? 0)); p_steps; eauto. }
  intros _ _ (k1 & ->). p_steps.
  eapply (wlp_mono _ _ (λ _ s', ∃ k', s' = PSt k' (<[i := set_p_trapframe 0 p]> l) c b1 b2 n ini t f)).
  { destruct (negb (p_pagetable p =? 0)); p_steps; eauto. }
  intros _ _ (k2 & ->). p_steps. apply HQ.
Qed.

(** An unused process as [freeproc] leaves it, and [release] after it. *)
Definition unused_proc (q : proc) : Prop :=
  p_state q = UNUSED ∧ p_pid q = 0 ∧ p_parent q = None ∧ p_chan q = NoChan ∧ p_killed q = 0 ∧ p_xstate q = 0 ∧
  p_sz q = 0 ∧ p_pagetable q = 0 ∧ p_trapframe q = 0 ∧ p_lock q = false.

Lemma free_release i p k l c b1 b2 n ini t f {A} (a : A) (Q : A → pst F → Prop) : l !! i = Some p →
  (∀ k' q, unused_proc q → p_ofile q = p_ofile p → Q a (PSt k' (<[i := q]> l) c b1 b2 n ini t f)) →
  wlp (freeproc i;; release_p i;; mret a) (PSt k l c b1 b2 n ini t f) Q.
Proof.
  intros Hi HQ. apply wlp_bind. eapply freeproc_effect; [done|]. intros k'. p_steps. apply HQ; [|done].
  unfold unused_proc; simpl. tauto.
Qed.

Lemma allocproc_effect k l c b1 b2 n ini t f (Q : option nat → pst F → Prop) : length l = NPROC →
  Q None (PSt k l c b1 b2 n ini t f) →
  (∀ i p k' q, b1 = false → l !! i = Some p → p_state p = UNUSED → unused_proc q → p_ofile q = p_ofile p → Q None (PSt k' (<[i := q]> l) c false b2 (i32 (n + 1)) ini t f)) →
  (∀ i p k' tf pt, b1 = false → l !! i = Some p → p_state p = UNUSED → tf ≠ 0 → pt ≠ 0 →
     Q (Some i) (PSt k' (<[i := born n tf pt t p]> l) c false b2 (i32 (n + 1)) ini t f)) →
  wlp allocproc (PSt k l c b1 b2 n ini t f) Q.
Proof.
  intros Hl Q0 Q1 Q2. unfold allocproc. apply wlp_bind. apply wlp_for_procs; [|by apply wlp_ret].
  intros i [p Hp]%(in_table l); [|done]. p_steps. simpl. destruct (decide (p_state p = UNUSED)) as [E|E].
  2: { p_steps. f_equal. rewrite lock_twice by done. by apply list_insert_id. }
  p_steps. case_if.
  { eapply free_release; [p_lookup|]. intros ? q Hq Ho. rewrite list_insert_insert_eq. by eapply Q1. }
  p_steps. case_if.
  { eapply free_release; [p_lookup|]. intros ? q Hq Ho. rewrite list_insert_insert_eq. by eapply Q1. }
  p_steps. by eapply Q2.
Qed.

(** The loop of [fork] over the files [os], with an invariant on the number of
    turns, the new descriptors and the state of the files. *)
Lemma dup_files_inv (J : nat → list (option nat) → F → Prop) np q os k l c b1 b2 n ini t f (Q : unit → pst F → Prop) : l !! np = Some q →
  J O (p_ofile q) f →
  (∀ i o f, os !! i = Some None → J i o f → J (S i) o f) →
  (∀ i fd g o f f', os !! i = Some (Some fd) → J i o f → f_dup fd f = Ok (g, f') → J (S i) (<[i := Some g]> o) f') →
  (∀ o f', J (length os) o f' → Q tt (PSt k (<[np := set_p_ofile o q]> l) c b1 b2 n ini t f')) →
  wlp (dup_files np os) (PSt k l c b1 b2 n ini t f) Q.
Proof.
  intros Hq H0 HN HS HQ. unfold dup_files.
  apply (wlp_foreach (λ (l1 : list (nat * option nat)) s, ∃ o f', s = PSt k (<[np := set_p_ofile o q]> l) c b1 b2 n ini t f' ∧ J (length l1) o f')).
  - exists (p_ofile q), f. split; [|done]. f_equal. replace (set_p_ofile (p_ofile q) q) with q by (by destruct q). by rewrite list_insert_id.
  - intros l1 [i o] l2 _ El (o' & f' & -> & HJ). rewrite length_app, Nat.add_1_r.
    assert (imap pair os !! length l1 = Some (i, o)) as Hi by (rewrite El; by apply list_lookup_middle).
    rewrite list_lookup_imap in Hi. apply fmap_Some in Hi as (x & Hx & [= -> ->]).
    destruct x as [fd|]; [|p_steps; eauto]. apply wlp_bind, wlp_lift. intros g f2 Eg. unfold set_ftable; simpl in *. p_steps. eauto.
  - intros _ (o & f' & -> & HJ). rewrite length_imap in HJ. by apply HQ.
Qed.

Lemma dup_files_effect np q os k l c b1 b2 n ini t f (Q : unit → pst F → Prop) : l !! np = Some q →
  (∀ o f', Q tt (PSt k (<[np := set_p_ofile o q]> l) c b1 b2 n ini t f')) →
  wlp (dup_files np os) (PSt k l c b1 b2 n ini t f) Q.
Proof. intros Hq HQ. by apply (dup_files_inv (λ _ _ _, True) np q). Qed.

Lemma fork_effect me pm k l c b1 b2 n ini t f (Q : Z → pst F → Prop) : length l = NPROC →
  l !! me = Some pm → p_state pm ≠ UNUSED →
  Q (-1) (PSt k l c b1 b2 n ini t f) →
  (∀ i p k' q, l !! i = Some p → p_state p = UNUSED → unused_proc q → p_ofile q = p_ofile p → Q (-1) (PSt k' (<[i := q]> l) c false b2 (i32 (n + 1)) ini t f)) →
  (∀ i p k' f' q, l !! i = Some p → p_state p = UNUSED → child_of me n p q → b2 = false →
     Q n (PSt k' (<[i := q]> l) c false false (i32 (n + 1)) ini t f')) →
  wlp (fork me) (PSt k l c b1 b2 n ini t f) Q.
Proof.
  intros Hl Hm Hst Q0 Q1 Q2. unfold fork. apply wlp_bind. apply allocproc_effect; [done|by apply wlp_ret| |].
  { intros. apply wlp_ret. by eapply Q1. }
  intros i p k' tf pt -> Hi Hu Htf Hpt. assert (i ≠ me) as Hne by (intros ->; congruence). p_steps. case_if.
  { eapply free_release; [p_lookup|]. intros k2 q Hq Ho. rewrite list_insert_insert_eq. by eapply Q1. }
  p_steps. eapply dup_files_effect; [p_lookup|]. intros o f1. rewrite list_insert_insert_eq. p_steps.
  eapply Q2; [done|done| |done]. unfold child_of; simpl. tauto.
Qed.
(** *** Exit *)

(** The child of an exiting process goes to [init]. *)
Definition adopt (me : nat) (ini : option nat) (p : proc) : proc :=
  if decide (p_parent p = Some me) then set_p_parent ini p else p.
Definition ch_of (o : option nat) : chan := match o with Some j => ChProc j | None => NoChan end.

Lemma woke_trans p q r : woke p q → woke q r → woke p r.
Proof. intros [->|[H1 ->]] [->|[H2 ->]]; unfold woke; naive_solver. Qed.

Lemma wake_woke me ch i p : woke p (wake me ch i p).
Proof. unfold wake, woke. case_decide; tauto. Qed.

Lemma wake_me me ch p : wake (Some me) ch me p = p.
Proof. unfold wake. by rewrite decide_False by tauto. Qed.

Lemma wake_awake me ch i p : Some i ≠ me → p_chan (wake me ch i p) = ch → p_state (wake me ch i p) ≠ SLEEPING.
Proof. unfold wake. case_decide as E; simpl; [done|]. tauto. Qed.

Lemma woke_adopt me ini p q : woke p q → woke (adopt me ini p) (adopt me ini q).
Proof.
  intros [->|[H ->]]; [by left|]. unfold adopt, woke; simpl. case_decide; simpl; [right|by right]. split; [done|]. by destruct p.
Qed.

(** What is left of others' processes, and of its own files, when a process
    has closed its files. *)
Definition closed (me : nat) (l l' : list proc) : Prop :=
  length l' = length l ∧ ∀ i p, l !! i = Some p → ∃ p', l' !! i = Some p' ∧
    if decide (i = me) then ∃ o c, p' = set_p_cwd c (set_p_ofile o p) else woke p p'.

Lemma closed_refl me l : closed me l l.
Proof.
  split; [done|]. intros i p Hi. exists p. split; [done|]. case_decide; [|by left]. exists (p_ofile p), (p_cwd p). by destruct p.
Qed.
Lemma closed_trans me l1 l2 l3 : closed me l1 l2 → closed me l2 l3 → closed me l1 l3.
Proof.
  intros [L1 H1] [L2 H2]. split; [congruence|]. intros i p Hi. destruct (H1 i p Hi) as (q & Hq & Hpq).
  destruct (H2 i q Hq) as (r & Hr & Hqr). exists r. split; [done|]. case_decide.
  - destruct Hpq as (o & c & ->), Hqr as (o' & c' & ->). eauto.
  - by eapply woke_trans.
Qed.
Lemma closed_wake me ch l : closed me l (imap (wake (Some me) ch) l).
Proof.
  split; [by rewrite length_imap|]. intros i p Hi. exists (wake (Some me) ch i p). split; [by rewrite list_lookup_imap, Hi|].
  case_decide; [subst; rewrite wake_me; exists (p_ofile p), (p_cwd p); by destruct p|apply wake_woke].
Qed.
Lemma closed_own me p o cw l : l !! me = Some p → closed me l (<[me := set_p_cwd cw (set_p_ofile o p)]> l).
Proof.
  intros Hp. split; [by rewrite length_insert|]. intros i q Hi. destruct (decide (i = me)) as [->|].
  - simplify_eq. exists (set_p_cwd cw (set_p_ofile o p)). split; [|eauto]. apply list_lookup_insert_eq. by eapply lookup_lt_Some.
  - exists q. split; [by rewrite list_lookup_insert_ne|by left].
Qed.

Lemma wakeups_effect me chs k l c b1 b2 n ini t f (Q : unit → pst F → Prop) : length l = NPROC →
  (∀ l', closed me l l' → Q tt (PSt k l' c b1 b2 n ini t f)) →
  wlp (foreach (wakeup (Some me)) chs) (PSt k l c b1 b2 n ini t f) Q.
Proof.
  intros Hl HQ. apply (wlp_foreach_inv (λ s, ∃ l', s = PSt k l' c b1 b2 n ini t f ∧ closed me l l')).
  - exists l. split; [done|apply closed_refl].
  - intros ch _ _ (l' & -> & Hc). apply wakeup_effect; [destruct Hc as [Hc _]; congruence|]. eexists. split; [done|].
    eapply closed_trans; [done|apply closed_wake].
  - intros _ (l' & -> & Hc). by apply HQ.
Qed.

Lemma close_files_effect me pm k l c b1 b2 n ini t f (Q : unit → pst F → Prop) : length l = NPROC → l !! me = Some pm →
  (∀ l' f', closed me l l' → Q tt (PSt k l' c b1 b2 n ini t f')) →
  wlp (close_files me) (PSt k l c b1 b2 n ini t f) Q.
Proof.
  intros Hl Hm HQ. unfold close_files.
  apply (wlp_foreach_inv (λ s, ∃ l' f', s = PSt k l' c b1 b2 n ini t f' ∧ closed me l l')).
  - exists l, f. split; [done|apply closed_refl].
  - intros fd _ _ (l' & f' & -> & Hc). destruct (proj2 Hc me pm Hm) as (q & Hq & _).
    p_steps. case_match; [|p_steps; eauto]. case_match; [|p_steps; eauto]. p_steps.
    apply wakeups_effect; [destruct Hc; congruence|]. intros l2 Hc2.
    destruct (proj2 Hc2 me q Hq) as (r & Hr & _). p_steps. eexists _, _. split; [done|].
    eapply closed_trans; [done|]. eapply closed_trans; [done|].
    pose proof (closed_own me r (<[fd:=None]> (p_ofile r)) (p_cwd r) l2 Hr) as Hx. by destruct r.
  - intros _ (l' & f' & -> & Hc). by apply HQ.
Qed.

(** [reparent] of the first [m] processes. *)
Definition adopted (me : nat) (ini : option nat) (m : nat) (l l' : list proc) : Prop :=
  length l' = length l ∧
  (∀ i p, l !! i = Some p → ∃ p', l' !! i = Some p' ∧
     let a := if decide (i < m)%nat then adopt me ini p else p in if decide (i = me) then p' = a else woke a p') ∧
  ((∃ j q, (j < m)%nat ∧ l !! j = Some q ∧ p_parent q = Some me) →
     ∀ i p', l' !! i = Some p' → i ≠ me → p_chan p' = ch_of ini → p_state p' ≠ SLEEPING).

Lemma reparent_effect me k l c b1 b2 n ini t f (Q : unit → pst F → Prop) : length l = NPROC →
  (∀ l', adopted me ini NPROC l l' → Q tt (PSt k l' c b1 b2 n ini t f)) →
  wlp (reparent me) (PSt k l c b1 b2 n ini t f) Q.
Proof.
  intros Hl HQ. unfold reparent.
  apply (wlp_foreach_seq (λ m s, ∃ l', s = PSt k l' c b1 b2 n ini t f ∧ adopted me ini m l l')).
  - exists l. split; [done|]. split; [done|]. split; [|intros (? & ? & ? & _); lia].
    intros i p Hi. exists p. split; [done|]. simpl. by case_decide; [|left].
  - intros m _ Hm (l' & -> & Hlen & Hall & Hkids). destruct (lookup_lt_is_Some_2 l m) as [p Hp]; [lia|].
    destruct (Hall m p Hp) as (p' & Hp' & Hw). rewrite (decide_False (P := (m < m)%nat)) in Hw by lia. simpl in Hw.
    assert (woke p p') as Hpw by (case_decide; [by left|done]).
    assert (p_parent p' = p_parent p) as Epar by (by destruct Hpw as [->|[_ ->]]). p_steps. rewrite Epar.
    assert (∀ i q, l !! i = Some q → i ≠ m → (if decide (i < S m)%nat then adopt me ini q else q) = if decide (i < m)%nat then adopt me ini q else q) as Hsame.
    { intros i q _ Hne. destruct (decide (i < S m)%nat), (decide (i < m)%nat); done || lia. }
    destruct (decide (p_parent p = Some me)) as [E|E].
    + p_steps. apply wakeup_effect; [rewrite length_insert; congruence|]. eexists. split; [done|].
      assert (set_p_parent ini p' = adopt me ini p') as -> by (unfold adopt; by rewrite decide_True by congruence).
      split_and!; [by rewrite length_imap, length_insert| |].
      * intros i q Hi. destruct (decide (i = m)) as [->|Hne].
        { simplify_eq. eexists. rewrite list_lookup_imap, list_lookup_insert_eq by (by eapply lookup_lt_Some). split; [done|].
          cbv zeta. rewrite (decide_True (P := (m < S m)%nat)) by lia. destruct (decide (m = me)) as [->|Hme].
          - by rewrite wake_me, Hw.
          - eapply woke_trans; [|apply wake_woke]. by apply woke_adopt. }
        { destruct (Hall i q Hi) as (q' & Hq' & Hwq). eexists. rewrite list_lookup_imap, list_lookup_insert_ne, Hq' by done. split; [done|].
          cbv zeta. rewrite (Hsame i q Hi Hne). cbv zeta in Hwq. destruct (decide (i = me)) as [->|Hme].
          - by rewrite wake_me.
          - eapply woke_trans; [exact Hwq|apply wake_woke]. }
      * intros _ i q Hi Hne. rewrite list_lookup_imap in Hi. apply fmap_Some in Hi as (x & _ & ->).
        apply wake_awake. congruence.
    + p_steps. eexists. split; [done|]. split_and!; [done| |].
      * intros i q Hi. destruct (Hall i q Hi) as (q' & Hq' & Hwq). exists q'. split; [done|].
        destruct (decide (i = m)) as [->|Hne]; [|by rewrite (Hsame i q Hi Hne)]. simplify_eq.
        cbv zeta. assert (adopt me ini p = p) as -> by (unfold adopt; by rewrite decide_False). destruct (decide (m < S m)%nat); [|lia].
        rewrite (decide_False (P := (m < m)%nat)) in Hwq by lia. done.
      * intros (j & q & Hj & Hq & Epq). apply Hkids. exists j, q. split_and!; [|done|done].
        assert (j ≠ m) by (intros ->; simplify_eq). lia.
  - intros _ (l' & -> & Ha). by apply HQ.
Qed.
(** *** Leaving a CPU *)

Definition off_cpu (me : nat) (c : list (option nat)) : list (option nat) :=
  (λ x, if decide (x = Some me) then None else x) <$> c.

Lemma sched_effect me p kc k l c b1 b2 n ini t f (Q : unit → pst F → Prop) : l !! me = Some p →
  Q tt (PSt k (<[me := set_p_lock false (set_p_context kc p)]> l) (off_cpu me c) b1 b2 n ini t f) →
  wlp (sched me kc) (PSt k l c b1 b2 n ini t f) Q.
Proof.
  intros Hp HQ. unfold sched. p_steps. case_if; [p_steps|]. case_if; [p_steps|].
  destruct (decide (p_state p = RUNNING)); p_steps. exact HQ.
Qed.

Lemma yield_effect me p k l c b1 b2 n ini t f (Q : unit → pst F → Prop) : l !! me = Some p →
  Q tt (PSt k (<[me := set_p_lock false (set_p_context CYield (set_p_state RUNNABLE (set_p_lock true p)))]> l) (off_cpu me c) b1 b2 n ini t f) →
  wlp (yield me) (PSt k l c b1 b2 n ini t f) Q.
Proof. intros Hp HQ. unfold yield. p_steps. eapply sched_effect; [p_lookup|]. by rewrite list_insert_insert_eq. Qed.

(** [sleep], with a lock of no concern to the table or with [wait_lock]. *)
Definition slept (ch : chan) (kc : kctx) (p : proc) : proc :=
  set_p_lock false (set_p_context (CSleep kc) (set_p_state SLEEPING (set_p_chan ch (set_p_lock true p)))).

Lemma sleep_effect me p ch kc k l c b1 b2 n ini t f (Q : unit → pst F → Prop) : l !! me = Some p →
  Q tt (PSt k (<[me := slept ch kc p]> l) (off_cpu me c) b1 b2 n ini t f) →
  wlp (sleep me ch (mret tt) kc) (PSt k l c b1 b2 n ini t f) Q.
Proof. intros Hp HQ. unfold sleep. p_steps. eapply sched_effect; [p_lookup|]. by rewrite list_insert_insert_eq. Qed.

Lemma sleep_wait_effect me p ch kc k l c b1 b2 n ini t f (Q : unit → pst F → Prop) : l !! me = Some p →
  Q tt (PSt k (<[me := slept ch kc p]> l) (off_cpu me c) b1 false n ini t f) →
  wlp (sleep me ch release_wait kc) (PSt k l c b1 b2 n ini t f) Q.
Proof. intros Hp HQ. unfold sleep. p_steps. eapply sched_effect; [p_lookup|]. by rewrite list_insert_insert_eq. Qed.

(** The turn of the scheduler. *)
Lemma scheduler_effect cpu i p k l c b1 b2 n ini t f (Q : bool → pst F → Prop) : l !! i = Some p →
  Q false (PSt k l c b1 b2 n ini t f) →
  (∀ q kc, p_state p = RUNNABLE →
     (p_context p = CForkret ∨ p_context p = CYield) ∧ kc = CUser ∧ p_chan q = p_chan p ∨ p_context p = CSleep kc ∧ p_chan q = NoChan →
     p_state q = RUNNING → p_context q = kc → p_pid q = p_pid p → p_parent q = p_parent p → p_lock q = false →
     p_trapframe q = p_trapframe p → p_pagetable q = p_pagetable p →
     Q true (PSt k (<[i := q]> l) (<[cpu := Some i]> c) b1 b2 n ini t f)) →
  wlp (scheduler cpu i) (PSt k l c b1 b2 n ini t f) Q.
Proof.
  intros Hp Q0 Q1. unfold scheduler. p_steps. simpl. destruct (decide (p_state p = RUNNABLE)) as [E|E].
  2: { p_steps. rewrite lock_twice by done. by rewrite list_insert_id. }
  p_steps. simpl. destruct (p_context p) eqn:Ek; p_steps; eapply Q1; simpl; eauto.
Qed.

(** *** Exit and wait *)

(** The table after the exit of [me], which was [pm]. *)
Definition exited (me : nat) (ini : option nat) (pm : proc) (st : Z) (l l' : list proc) : Prop :=
  length l' = length l ∧
  (∀ i p, l !! i = Some p → ∃ p', l' !! i = Some p' ∧
     if decide (i = me) then
       p_state p' = ZOMBIE ∧ p_chan p' = p_chan p ∧ p_pid p' = p_pid p ∧ p_parent p' = p_parent (adopt me ini p) ∧
       p_trapframe p' = p_trapframe p ∧ p_pagetable p' = p_pagetable p ∧ p_cwd p' = None ∧ p_lock p' = false ∧ p_xstate p' = st
     else woke (adopt me ini p) p') ∧
  ((∃ j q, l !! j = Some q ∧ p_parent q = Some me) →
     ∀ i p', l' !! i = Some p' → i ≠ me → p_chan p' = ch_of ini → p_state p' ≠ SLEEPING) ∧
  (∀ i p', l' !! i = Some p' → i ≠ me → p_chan p' = ch_of (p_parent (adopt me ini pm)) → p_state p' ≠ SLEEPING).

Lemma woke_not_asleep p q : woke p q → p_chan q = p_chan p ∧ (p_state p ≠ SLEEPING → p_state q ≠ SLEEPING).
Proof. intros [->|[_ ->]]; [tauto|by split]. Qed.

Lemma exit_effect me pm st k l c b1 b2 n ini t f (Q : unit → pst F → Prop) : length l = NPROC → l !! me = Some pm →
  (∀ l' f', ini ≠ Some me → exited me ini pm st l l' → Q tt (PSt k l' (off_cpu me c) b1 false n ini t f')) →
  wlp (exit me st) (PSt k l c b1 b2 n ini t f) Q.
Proof.
  intros Hl Hm HQ. unfold exit. p_steps. destruct (decide (ini = Some me)); [p_steps|]. p_steps.
  eapply close_files_effect; [done|done|]. intros l1 f1 C1. destruct (proj2 C1 me pm Hm) as (p1 & Hp1 & _). p_steps.
  apply wakeups_effect; [destruct C1; congruence|]. intros l2 C2. destruct (proj2 C2 me p1 Hp1) as (p2 & Hp2 & _). p_steps.
  pose proof (closed_own me p2 (p_ofile p2) None l2 Hp2) as C3. replace (set_p_ofile (p_ofile p2) p2) with p2 in C3 by (by destruct p2).
  pose proof (closed_trans me _ _ _ (closed_trans me _ _ _ C1 C2) C3) as C. set (l3 := <[me := _]> l2) in *.
  assert (l3 !! me = Some (set_p_cwd None p2)) as Hp3 by (apply list_lookup_insert_eq; by eapply lookup_lt_Some).
  apply reparent_effect; [destruct C; congruence|]. intros l4 (Hlen & Hall & Hkids).
  destruct (Hall me _ Hp3) as (p4 & Hp4 & E4). rewrite (decide_True (P := me = me)) in E4 by done.
  rewrite (decide_True (P := (me < NPROC)%nat)) in E4 by (apply lookup_lt_Some in Hm; lia). simpl in E4. p_steps.
  apply wakeup_effect; [destruct C; congruence|].
  assert (imap (wake (Some me) (match p_parent p4 with Some j => ChProc j | None => NoChan end)) l4 !! me = Some p4) as Hp5
    by (by rewrite list_lookup_imap, Hp4; simpl; rewrite wake_me).
  p_steps. eapply sched_effect; [p_lookup|]. rewrite list_insert_insert_eq. apply HQ; [done|].
  destruct C as [CL CA]. destruct (CA me pm Hm) as (x & Hx & Hmx). rewrite Hp3 in Hx. simplify_eq.
  rewrite (decide_True (P := me = me)) in Hmx by done. destruct Hmx as (o & cw & Emx).
  assert (p_parent (set_p_cwd None p2) = p_parent pm) as Epar by (by rewrite Emx).
  assert (∀ y z, p_parent y = p_parent z → p_parent (adopt me ini y) = p_parent (adopt me ini z)) as Had.
  { intros y z E. unfold adopt. rewrite E. by case_decide. }
  split_and!; [rewrite length_insert, length_imap; congruence| | |].
  - intros i p Hi. destruct (decide (i = me)) as [->|Hne].
    + assert (p = pm) as -> by congruence. eexists. rewrite list_lookup_insert_eq by (by eapply lookup_lt_Some). split; [done|]. simpl.
      assert (∀ y, p_chan (adopt me ini y) = p_chan y ∧ p_pid (adopt me ini y) = p_pid y ∧ p_trapframe (adopt me ini y) = p_trapframe y ∧
        p_pagetable (adopt me ini y) = p_pagetable y ∧ p_cwd (adopt me ini y) = p_cwd y) as Hf by (intros y; unfold adopt; by case_decide).
      destruct (Hf (set_p_cwd None p2)) as (-> & -> & -> & -> & ->). simpl.
      assert (∀ A (g : proc → A), g (set_p_cwd None p2) = g (set_p_cwd cw (set_p_ofile o pm))) as Hg by (intros; by rewrite Emx).
      pose proof (Hg _ p_chan) as G1. pose proof (Hg _ p_pid) as G2. pose proof (Hg _ p_trapframe) as G3.
      pose proof (Hg _ p_pagetable) as G4. simpl in G1, G2, G3, G4. split_and!; try done. by apply Had.
    + destruct (CA i p Hi) as (p3 & Hi3 & Hw3). rewrite decide_False in Hw3 by done.
      destruct (Hall i p3 Hi3) as (p5 & Hi5 & Hw5). rewrite (decide_False (P := i = me)) in Hw5 by done.
      rewrite decide_True in Hw5 by (apply lookup_lt_Some in Hi; lia).
      eexists. rewrite list_lookup_insert_ne, list_lookup_imap, Hi5 by done. split; [done|].
      eapply woke_trans; [by apply woke_adopt|]. eapply woke_trans; [exact Hw5|apply wake_woke].
  - intros (j & q & Hj & Hq) i p' Hi Hne Hch. rewrite list_lookup_insert_ne, list_lookup_imap in Hi by done.
    apply fmap_Some in Hi as (y & Hy & ->). destruct (woke_not_asleep _ _ (wake_woke (Some me) (match p_parent (adopt me ini (set_p_cwd None p2)) with Some j => ChProc j | None => NoChan end) i y)) as [E1 E2].
    rewrite E1 in Hch. apply E2. eapply (Hkids); try done.
    destruct (CA j q Hj) as (q3 & Hq3 & Hw3). exists j, q3. split_and!; [apply lookup_lt_Some in Hj; lia|done|].
    case_decide; [destruct Hw3 as (? & ? & ->); done|]. by destruct Hw3 as [->|[_ ->]].
  - intros i p' Hi Hne Hch. rewrite list_lookup_insert_ne, list_lookup_imap in Hi by done.
    apply fmap_Some in Hi as (y & Hy & ->). apply wake_awake; [congruence|]. rewrite Hch. unfold ch_of. by rewrite (Had pm (set_p_cwd None p2)).
Qed.

(** The scan of [wait]. *)
Lemma reap_effect me pm i p addr kids k l c b1 n ini t f (Q : Z + bool → pst F → Prop) :
  l !! me = Some pm → p_state pm = RUNNING → l !! i = Some p →
  (p_parent p ≠ Some me → Q (inr kids) (PSt k l c b1 true n ini t f)) →
  (p_parent p = Some me → p_state p ≠ ZOMBIE → Q (inr true) (PSt k l c b1 true n ini t f)) →
  (∀ k', p_parent p = Some me → p_state p = ZOMBIE → (∃ r, status_out pm p addr k r k' ∧ r < 0) →
     Q (inl (-1)) (PSt k' l c b1 false n ini t f)) →
  (∀ k' q, p_parent p = Some me → p_state p = ZOMBIE → unused_proc q → p_ofile q = p_ofile p →
     (∃ r k1, status_out pm p addr k r k1 ∧ 0 <= r) → Q (inl (p_pid p)) (PSt k' (<[i := q]> l) c b1 false n ini t f)) →
  wlp (reap me i addr kids) (PSt k l c b1 true n ini t f) Q.
Proof.
  intros Hm Hr Hi Q0 Q1 Q2 Q3. unfold reap. p_steps. destruct (decide (p_parent p = Some me)) as [Ep|Ep]; [|p_steps; by apply Q0].
  p_steps. destruct (decide (p_state p = ZOMBIE)) as [Ez|Ez].
  2: { p_steps. rewrite lock_twice, list_insert_id by done. by apply Q1. }
  assert (i ≠ me) as Hne by (intros ->; congruence). p_steps.
  eapply (wlp_mono _ _ (λ r s', ∃ k', s' = PSt k' (<[i:=set_p_lock true p]> l) c b1 true n ini t f ∧ status_out pm p addr k r k')).
  { unfold status_out. destruct (addr =? 0); simpl; [p_steps; eauto|]. apply wlp_lift. intros r k' E. eauto. }
  intros r _ (k' & -> & Ho). destruct (r <? 0) eqn:Er.
  - p_steps. rewrite lock_twice, list_insert_id by done. apply Q2; [done|done|]. apply Z.ltb_lt in Er. eauto.
  - p_steps. apply Z.ltb_ge in Er. eapply freeproc_effect; [p_lookup|]. intros k2. p_steps. apply Q3; try done. eauto.
Qed.

Lemma wait_scan_effect me pm addr il kids k l c b1 n ini t f (Q : Z + bool → pst F → Prop) :
  l !! me = Some pm → p_state pm = RUNNING → Forall (λ i, is_Some (l !! i)) il →
  (∀ kids', (kids' = true → kids = true ∨ ∃ i p, l !! i = Some p ∧ p_parent p = Some me) →
     (kids' = false → kids = false ∧ ∀ i p, i ∈ il → l !! i = Some p → p_parent p ≠ Some me) →
     (∀ i p, i ∈ il → l !! i = Some p → p_parent p = Some me → p_state p ≠ ZOMBIE) →
     Q (inr kids') (PSt k l c b1 true n ini t f)) →
  (∀ k', (∃ i p r, l !! i = Some p ∧ p_parent p = Some me ∧ p_state p = ZOMBIE ∧ status_out pm p addr k r k' ∧ r < 0) →
     Q (inl (-1)) (PSt k' l c b1 false n ini t f)) →
  (∀ k' i p q, l !! i = Some p → p_parent p = Some me → p_state p = ZOMBIE → unused_proc q → p_ofile q = p_ofile p →
     (∃ r k1, status_out pm p addr k r k1 ∧ 0 <= r) → Q (inl (p_pid p)) (PSt k' (<[i := q]> l) c b1 false n ini t f)) →
  wlp (wait_scan me addr il kids) (PSt k l c b1 true n ini t f) Q.
Proof.
  intros Hm Hr Hil Q0 Q1 Q2. revert kids Q0. induction Hil as [|i il [p Hp] Hil IH]; intros kids Q0; simpl.
  { apply wlp_ret. apply Q0; [tauto|intros ->; split; [done|]|]; intros i p Hi; by apply not_elem_of_nil in Hi. }
  apply wlp_bind. eapply (reap_effect me pm i p); try done.
  - intros Hnp. apply IH. intros kids' Hk Hn Hz. apply Q0; [done| |].
    + intros [-> Hn']%Hn. split; [done|]. intros j q [->|Hj]%elem_of_cons Hq; [by simplify_eq|by eapply Hn'].
    + intros j q [->|Hj]%elem_of_cons Hq Hpq; [by simplify_eq|by eapply Hz].
  - intros Hpp Hnz. apply IH. intros kids' Hk Hn Hz. apply Q0; [eauto|by intros []%Hn|].
    intros j q [->|Hj]%elem_of_cons Hq Hpq; [by simplify_eq|by eapply Hz].
  - intros k' Hpp Hz (r & Hr' & Hneg). apply wlp_ret, Q1. eauto 10.
  - intros k' q Hpp Hz Hu Ho Hs. apply wlp_ret. by eapply Q2.
Qed.
End effect.
