(* ===== verification/ProcSafe.v ===== *)
(** The changes the operations make keep the process table in order. *)
From S2P Require Import Prelude Riscv Memory Kalloc Vm Partial Proc ProcInv ProcEffect.

(** ** Definitions *)

(** A change that neither moves a process nor frees it: a wakeup, or of the
    fields that are the process's own. *)
Definition minor (p q : proc) : Prop :=
  p_pid q = p_pid p ∧ p_parent q = p_parent p ∧ p_chan q = p_chan p ∧ p_trapframe q = p_trapframe p ∧
  p_xstate q = p_xstate p ∧ (p_context q = p_context p ∨ p_state p = UNUSED) ∧
  (p_state q = p_state p ∨ p_state p = SLEEPING ∧ p_state q = RUNNABLE) ∧ p_lock q = false ∧
  (p_state p = UNUSED → p_sz q = p_sz p ∧ p_pagetable q = p_pagetable p) ∧
  (p_pagetable p ≠ 0 → p_pagetable q ≠ 0) ∧ (p_state p = ZOMBIE → p_cwd q = p_cwd p).

Definition minors (l l' : list proc) : Prop := Forall2 minor l l'.

(** ** Lemmas *)

Lemma minors_lookup l l' i p' : minors l l' → l' !! i = Some p' → ∃ p, l !! i = Some p ∧ minor p p'.
Proof. intros H Hi. destruct (Forall2_lookup_r _ _ _ _ _ H Hi) as (p & Hp & Hm). eauto. Qed.
Lemma minors_lookup_l l l' i p : minors l l' → l !! i = Some p → ∃ p', l' !! i = Some p' ∧ minor p p'.
Proof. intros H Hi. destruct (Forall2_lookup_l _ _ _ _ _ H Hi) as (p' & Hp & Hm). eauto. Qed.

Lemma minor_refl p : p_lock p = false → minor p p.
Proof. unfold minor. tauto. Qed.
Lemma minor_live p q : minor p q → live q → live p.
Proof. unfold minor, live. intros (_ & _ & _ & _ & _ & _ & [->|[-> _]] & _); done. Qed.
Lemma minor_active p q : minor p q → active p → active q.
Proof. unfold minor, active. intros (_ & _ & _ & _ & _ & _ & [->|[-> ->]] & _); done. Qed.

Lemma minor_ok p q : minor p q → proc_ok p → proc_ok q.
Proof.
  unfold minor, proc_ok, live. intros (E1 & E2 & E3 & E4 & E5 & E6 & E7 & E8 & E9 & E10 & E11) (H1 & H2 & H3).
  split_and!; [|intros Hl; split_and!; [rewrite E4; apply H2; by destruct E7 as [<-|[-> _]]|apply E10, H2; by destruct E7 as [<-|[-> _]]]|done].
  destruct E7 as [->|[Es ->]].
  - destruct (p_state p) eqn:Es.
    + destruct (E9 eq_refl) as [-> ->]. rewrite E1, E2, E3, E4, E5. tauto.
    + done.
    + destruct E6 as [->|]; [|done]. tauto.
    + destruct E6 as [->|]; [|done]. rewrite E3. tauto.
    + destruct E6 as [->|]; [|done]. rewrite E3. tauto.
    + rewrite E3, (E11 eq_refl). tauto.
  - rewrite Es in H1. destruct E6 as [->|]; [by right|congruence].
Qed.

(** [nextpid] moves on only. *)
Lemma next_pid n : - 2 ^ 31 <= n < 2 ^ 31 → - 2 ^ 31 <= i32 (n + 1) < 2 ^ 31 ∧ (0 < i32 (n + 1) → 0 < n → i32 (n + 1) = n + 1).
Proof.
  intros Hn. pose proof (i32_range (n + 1)) as Hr. split; [lia|]. intros Hp Hp'.
  destruct (decide (n + 1 = 2 ^ 31)) as [E|]; [exfalso; rewrite E in Hp; by vm_compute in Hp|]. apply i32_small. lia.
Qed.

Lemma table_npid NW l cs n ini : table_ok NW l cs n ini → table_ok (NW ∧ 0 < i32 (n + 1)) l cs (i32 (n + 1)) ini.
Proof.
  intros [H1 [Hn Hn'] H2 H3 H4 H5 H6 H7 H8]. destruct (next_pid n Hn) as [Hr Hw]. split; try done.
  - split; [done|tauto].
  - intros i p Hi. destruct (H2 i p Hi) as [Ho Hp]. split; [done|]. intros [HW Hpos] Lp. specialize (Hp HW Lp). rewrite Hw by auto. lia.
  - intros i j p q [HW _]. by apply H3.
Qed.

Lemma table_minors NW l l' cs n ini : table_ok NW l cs n ini → minors l l' → table_ok NW l' cs n ini.
Proof.
  intros [H1 Hn H2 H3 H4 H5 H6 H7 H8] Hm.
  assert (∀ i p', l' !! i = Some p' → ∃ p, l !! i = Some p ∧ minor p p') as Hr by (intros; by eapply minors_lookup).
  assert (∀ i p, l !! i = Some p → ∃ p', l' !! i = Some p' ∧ minor p p') as Hl by (intros; by eapply minors_lookup_l).
  split.
  - by rewrite <- (Forall2_length _ _ _ Hm).
  - done.
  - intros i p' Hi. destruct (Hr i p' Hi) as (p & Hp & Hpm). destruct (H2 i p Hp) as [Ho Hp0]. split; [by eapply minor_ok|].
    intros HW Lp'. rewrite (proj1 Hpm). apply Hp0; [done|]. by eapply minor_live.
  - intros i j p' q' HW Hi Hj L1 L2 E. destruct (Hr i p' Hi) as (p & Hp & Hpm), (Hr j q' Hj) as (q & Hq & Hqm).
    eapply (H3 i j p q); try done; [by eapply minor_live|by eapply minor_live|].
    destruct Hpm as [<- _], Hqm as [<- _]. done.
  - destruct H4 as (j & q & -> & Hq & Ha & Hp). destruct (Hl j q Hq) as (q' & Hq' & Hqm). exists j, q'.
    split_and!; [done|done|by eapply minor_active|]. by destruct Hqm as (_ & -> & _).
  - intros i p' Hi Hlv Hne. destruct (Hr i p' Hi) as (p & Hp & Hpm).
    destruct (H5 i p Hp) as (j & q & E & Hq & Ha); [by eapply minor_live|done|]. destruct (Hl j q Hq) as (q' & Hq' & Hqm).
    exists j, q'. split_and!; [|done|by eapply minor_active]. by destruct Hpm as (_ & -> & _).
  - intros i p' Hi. destruct (Hr i p' Hi) as (p & Hp & Hpm). rewrite <- (H6 i p Hp).
    destruct Hpm as (_ & _ & _ & _ & _ & _ & [->|[-> ->]] & _); done.
  - done.
  - intros i p' Hi Hs Hw. destruct (Hr i p' Hi) as (p & Hp & Hpm).
    assert (p_state p = SLEEPING ∧ p_context p' = p_context p ∧ p_chan p' = p_chan p) as (Es & Ec & Eh).
    { destruct Hpm as (_ & _ & Ech & _ & _ & Ec & [Es|[_ Es]] & _); [|congruence]. rewrite Es in Hs. split_and!; try done.
      destruct Ec as [|]; congruence. }
    rewrite Ec in Hw. destruct (H8 i p Hp Es Hw) as (E & (j & q & Hq & Hql & Hqp) & Hz). rewrite Eh. split_and!; [done| |].
    + destruct (Hl j q Hq) as (q' & Hq' & Hqm). exists j, q'. split_and!; [done| |by destruct Hqm as (_ & -> & _)].
      unfold live in *. by destruct Hqm as (_ & _ & _ & _ & _ & _ & [->|[_ ->]] & _).
    + intros k x' Hk Hx. destruct (Hr k x' Hk) as (x & Hxx & Hxm). pose proof (Hz k x Hxx) as Hnz.
      destruct Hxm as (_ & Ep & _ & _ & _ & _ & [->|[_ ->]] & _); [|done]. apply Hnz. congruence.
Qed.

(** A process that stays active moves between the CPUs, the queue and sleep. *)
Lemma table_move NW l cs cs' n ini i p q : table_ok NW l cs n ini → l !! i = Some p → active p → active q → proc_ok q →
  p_pid q = p_pid p → p_parent q = p_parent p →
  (∀ c c' j, cs' !! c = Some (Some j) → cs' !! c' = Some (Some j) → c = c') →
  (∀ j, j ≠ i → (∃ c, cs' !! c = Some (Some j)) ↔ ∃ c, cs !! c = Some (Some j)) →
  (p_state q = RUNNING ↔ ∃ c, cs' !! c = Some (Some i)) →
  (p_state q = SLEEPING → in_wait (p_context q) → p_chan q = ChProc i ∧
     (∃ j x, l !! j = Some x ∧ live x ∧ p_parent x = Some i) ∧ ∀ j x, l !! j = Some x → p_parent x = Some i → p_state x ≠ ZOMBIE) →
  table_ok NW (<[i := q]> l) cs' n ini.
Proof.
  intros [H1 Hn H2 H3 H4 H5 H6 H7 H8] Hi Ap Aq Oq Epid Epar U1 U2 U3 W.
  assert (∀ j x, <[i:=q]> l !! j = Some x → j = i ∧ x = q ∨ j ≠ i ∧ l !! j = Some x) as Hc.
  { intros j x Hx. destruct (decide (j = i)) as [->|]; [|by rewrite list_lookup_insert_ne in Hx; auto].
    rewrite list_lookup_insert_eq in Hx by (by eapply lookup_lt_Some). left. by simplify_eq. }
  assert (∀ j x, l !! j = Some x → ∃ y, <[i:=q]> l !! j = Some y ∧ (j = i ∧ y = q ∧ x = p ∨ j ≠ i ∧ y = x)) as Hf.
  { intros j x Hx. destruct (decide (j = i)) as [->|].
    - exists q. split; [apply list_lookup_insert_eq; by eapply lookup_lt_Some|left]. split_and!; congruence.
    - exists x. split; [by rewrite list_lookup_insert_ne|auto]. }
  assert (live p ∧ live q ∧ p_state p ≠ ZOMBIE ∧ p_state q ≠ ZOMBIE) as (Lp & Lq & Zp & Zq).
  { unfold active, live in *. destruct (p_state p), (p_state q); done. }
  split.
  - by rewrite length_insert.
  - done.
  - intros j x [[-> ->]|[_ Hx]]%Hc; [|by eapply H2]. split; [done|]. rewrite Epid. intros HW _. by apply (H2 i p).
  - intros a b x y HW [[-> ->]|[Ha Hx]]%Hc [[-> ->]|[Hb Hy]]%Hc Lx Ly E; [done| | |].
    + rewrite Epid in E. by eapply H3.
    + rewrite Epid in E. by eapply H3.
    + by eapply H3.
  - destruct H4 as (j & x & -> & Hx & Ax & Px). destruct (Hf j x Hx) as (y & Hy & [(-> & -> & ->)|[_ ->]]); eexists _, _; split_and!; try done; congruence.
  - assert (∀ x, (∃ j y, p_parent x = Some j ∧ l !! j = Some y ∧ active y) →
      ∃ j y, p_parent x = Some j ∧ <[i:=q]> l !! j = Some y ∧ active y) as Hpar.
    { intros x (j & y & Ex & Hy & Ay). destruct (Hf j y Hy) as (z & Hz & [(_ & -> & _)|[_ ->]]); eauto. }
    intros j x [[-> ->]|[_ Hx]]%Hc Lx Hne; [|by apply Hpar, (H5 j)].
    destruct (H5 i p Hi Lp Hne) as (k & y & E & Hk). apply (Hpar q). exists k, y. rewrite Epar. done.
  - intros j x [[-> ->]|[Hne Hx]]%Hc; [done|]. rewrite U2 by done. by apply H6.
  - done.
  - assert (∀ k, (∃ j x, l !! j = Some x ∧ live x ∧ p_parent x = Some k) ∧ (∀ j x, l !! j = Some x → p_parent x = Some k → p_state x ≠ ZOMBIE) →
      (∃ j x, <[i:=q]> l !! j = Some x ∧ live x ∧ p_parent x = Some k) ∧ (∀ j x, <[i:=q]> l !! j = Some x → p_parent x = Some k → p_state x ≠ ZOMBIE)) as Hw.
    { intros k [(j & x & Hx & Lx & Px) Hz]. split.
      - destruct (Hf j x Hx) as (y & Hy & [(-> & -> & ->)|[_ ->]]); eexists _, _; split_and!; try done; congruence.
      - intros a y [[-> ->]|[_ Hy]]%Hc Py; [done|by eapply Hz]. }
    intros j x [[-> ->]|[_ Hx]]%Hc Sx Wx.
    + destruct (W Sx Wx) as [E Hr]. split; [done|by apply Hw].
    + destruct (H8 j x Hx Sx Wx) as [E Hr]. split; [done|by apply Hw].
Qed.

(** A new child of the active process [me]. *)
Lemma table_fork NW l cs n ini i me p pm q : table_ok NW l cs n ini → l !! i = Some p → p_state p = UNUSED →
  l !! me = Some pm → active pm → child_of me n p q → table_ok (NW ∧ 0 < i32 (n + 1)) (<[i := q]> l) cs (i32 (n + 1)) ini.
Proof.
  intros [H1 Hn H2 H3 H4 H5 H6 H7 H8] Hi Hu Hm Am (C1 & C2 & C3 & C4 & C5 & C6 & C7 & C8 & C9).
  destruct Hn as [Hr Hn]. destruct (next_pid n Hr) as [Hr' Hs].
  assert (p_chan p = NoChan) as Ech by (destruct (H2 i p Hi) as [(Hp & _) _]; rewrite Hu in Hp; tauto).
  assert (∀ j x, <[i:=q]> l !! j = Some x → j = i ∧ x = q ∨ j ≠ i ∧ l !! j = Some x) as Hc.
  { intros j x Hx. destruct (decide (j = i)) as [->|]; [|by rewrite list_lookup_insert_ne in Hx; auto].
    rewrite list_lookup_insert_eq in Hx by (by eapply lookup_lt_Some). left. by simplify_eq. }
  assert (∀ j x, l !! j = Some x → live x → <[i:=q]> l !! j = Some x) as Hf.
  { intros j x Hx Lx. rewrite list_lookup_insert_ne; [done|]. intros ->. unfold live in Lx. congruence. }
  assert (∀ x, active x → live x) as Hal by (intros x; unfold active, live; by destruct (p_state x)).
  assert (live q) as Lq by (unfold live; congruence).
  split.
  - by rewrite length_insert.
  - split; [done|]. by intros [].
  - intros j x [[-> ->]|[_ Hx]]%Hc.
    + split; [unfold proc_ok; rewrite C2; split_and!; [left; split; [congruence|by left]|done|done]|].
      intros [HW Hp] _. specialize (Hn HW). rewrite (Hs Hp Hn). lia.
    + destruct (H2 j x Hx) as [Ho Hb]. split; [done|]. intros [HW Hp] Lx. rewrite (Hs Hp (Hn HW)). specialize (Hb HW Lx). lia.
  - intros a b x y HW [[-> ->]|[Ha Hx]]%Hc [[-> ->]|[Hb Hy]]%Hc Lx Ly E; [done| | |by eapply H3; [apply HW|..]].
    + destruct (H2 b y Hy) as [_ Hb']. specialize (Hb' (proj1 HW) Ly). lia.
    + destruct (H2 a x Hx) as [_ Ha']. specialize (Ha' (proj1 HW) Lx). lia.
  - destruct H4 as (j & x & -> & Hx & Ax & Px). exists j, x. split_and!; try done. apply Hf; auto.
  - intros j x [[-> ->]|[Hne Hx]]%Hc Lx Hni.
    + exists me, pm. split_and!; [done|apply Hf; auto|done].
    + destruct (H5 j x Hx Lx Hni) as (k & y & E & Hy & Ay). exists k, y. split_and!; [done|apply Hf; auto|done].
  - intros j x [[-> ->]|[Hne Hx]]%Hc; [|by apply H6]. split; [congruence|]. intros Hcpu. apply (H6 i p Hi) in Hcpu. congruence.
  - done.
  - intros j x [[-> ->]|[Hne Hx]]%Hc Sx Wx; [congruence|]. destruct (H8 j x Hx Sx Wx) as (E & (k & y & Hy & Ly & Py) & Hz).
    split_and!; [done|exists k, y; split_and!; [by apply Hf|done|done]|]. intros a y' [[-> ->]|[_ Hy']]%Hc Py'; [congruence|by eapply Hz].
Qed.

(** A zombie child of the running process [me] is freed. *)
Lemma table_free NW l cs n ini i me p pm q : table_ok NW l cs n ini → l !! i = Some p → p_state p = ZOMBIE → p_parent p = Some me →
  l !! me = Some pm → p_state pm = RUNNING → unused_proc q → table_ok NW (<[i := q]> l) cs n ini.
Proof.
  intros [H1 Hn H2 H3 H4 H5 H6 H7 H8] Hi Hz Hpar Hm Hr (C1 & C2 & C3 & C4 & C5 & C6 & C7 & C8 & C9 & C10).
  assert (∀ j x, <[i:=q]> l !! j = Some x → j = i ∧ x = q ∨ j ≠ i ∧ l !! j = Some x) as Hc.
  { intros j x Hx. destruct (decide (j = i)) as [->|]; [|by rewrite list_lookup_insert_ne in Hx; auto].
    rewrite list_lookup_insert_eq in Hx by (by eapply lookup_lt_Some). left. by simplify_eq. }
  assert (∀ j x, l !! j = Some x → p_state x ≠ ZOMBIE → <[i:=q]> l !! j = Some x) as Hf.
  { intros j x Hx Lx. rewrite list_lookup_insert_ne; [done|]. intros ->. congruence. }
  assert (∀ x, active x → p_state x ≠ ZOMBIE) as Hal by (intros x; unfold active; by destruct (p_state x)).
  split.
  - by rewrite length_insert.
  - done.
  - intros j x [[-> ->]|[_ Hx]]%Hc; [|by apply (H2 j)]. unfold proc_ok, live. rewrite C1. tauto.
  - intros a b x y HW [[-> ->]|[Ha Hx]]%Hc [[-> ->]|[Hb Hy]]%Hc Lx Ly E; [done|done|done|by eapply H3].
  - destruct H4 as (j & x & -> & Hx & Ax & Px). exists j, x. split_and!; try done. apply Hf; auto.
  - intros j x [[-> ->]|[Hne Hx]]%Hc Lx Hni; [done|].
    destruct (H5 j x Hx Lx Hni) as (k & y & E & Hy & Ay). exists k, y. split_and!; [done|apply Hf; auto|done].
  - intros j x [[-> ->]|[Hne Hx]]%Hc; [|by apply H6]. split; [congruence|]. intros Hcpu. apply (H6 i p Hi) in Hcpu. congruence.
  - done.
  - intros j x [[-> ->]|[Hne Hx]]%Hc Sx Wx; [congruence|]. destruct (H8 j x Hx Sx Wx) as (E & (k & y & Hy & Ly & Py) & Hnz).
    split_and!; [done| |].
    + exists k, y. split_and!; [apply Hf; [done|by eapply Hnz]|done|done].
    + intros a y' [[-> ->]|[_ Hy']]%Hc Py'; [congruence|by eapply Hnz].
Qed.

(** The exit of the running process [me]. *)
Lemma table_exit NW l l' cs n ini me pm st : table_ok NW l cs n ini → l !! me = Some pm → p_state pm = RUNNING → ini ≠ Some me →
  exited me ini pm st l l' → table_ok NW l' (off_cpu me cs) n ini.
Proof.
  intros [H1 Hn H2 H3 H4 H5 H6 H7 H8] Hm Hr Hini (L & Hall & Hkids & Hpar).
  assert (∀ i p', l' !! i = Some p' → ∃ p, l !! i = Some p) as Hdom.
  { intros i p' Hi. apply lookup_lt_is_Some. apply lookup_lt_Some in Hi. lia. }
  set (a := adopt me ini) in *.
  assert (∀ p, p_state (a p) = p_state p ∧ p_pid (a p) = p_pid p ∧ p_chan (a p) = p_chan p ∧ p_context (a p) = p_context p ∧
    p_trapframe (a p) = p_trapframe p ∧ p_pagetable (a p) = p_pagetable p ∧ p_lock (a p) = p_lock p ∧ p_xstate (a p) = p_xstate p ∧
    p_sz (a p) = p_sz p ∧ p_cwd (a p) = p_cwd p) as Ha.
  { intros p. unfold a, adopt. by case_decide. }
  assert (∀ i p p', l !! i = Some p → l' !! i = Some p' → i ≠ me → woke (a p) p') as Hoth.
  { intros i p p' Hi Hi' Hne. destruct (Hall i p Hi) as (x & Hx & Hw). rewrite decide_False in Hw by done. congruence. }
  destruct (Hall me pm Hm) as (pz & Hpz & Z). rewrite decide_True in Z by done. destruct Z as (Z1 & Z2 & Z3 & Z4 & Z5 & Z6 & Z7 & Z8 & _).
  assert (∀ i p p', l !! i = Some p → l' !! i = Some p' → p_pid p' = p_pid p ∧ p_parent p' = p_parent (a p) ∧ p_chan p' = p_chan p ∧
    p_trapframe p' = p_trapframe p ∧ p_pagetable p' = p_pagetable p ∧ (live p' ↔ live p)) as Hsame.
  { intros i p p' Hi Hi'. destruct (decide (i = me)) as [->|Hne].
    - assert (p = pm) as -> by congruence. assert (p' = pz) as -> by congruence. unfold live. rewrite Z1, Hr. done.
    - destruct (Ha p) as (A1 & A2 & A3 & A4 & A5 & A6 & _). unfold live.
      destruct (Hoth i p p' Hi Hi' Hne) as [->|[As ->]]; simpl; rewrite ?A1, ?A2, ?A3, ?A5, ?A6; split_and!; try done.
      rewrite A1 in As. rewrite As. done. }
  assert (∀ j q, l !! j = Some q → active q → j ≠ me → ∃ q', l' !! j = Some q' ∧ active q') as Hact.
  { intros j q Hj Aq Hne. destruct (Hall j q Hj) as (x & Hx & Hw). rewrite decide_False in Hw by done. exists x. split; [done|].
    destruct (Ha q) as (A1 & _). unfold active in *. destruct Hw as [->|[_ ->]]; [by rewrite A1|done]. }
  destruct (H2 me pm Hm) as [(Om & Om2 & _) _]. rewrite Hr in Om.
  split.
  - congruence.
  - done.
  - intros i p' Hi. destruct (Hdom i p' Hi) as [p Hp]. destruct (H2 i p Hp) as [Hok Hlt].
    destruct (Hsame i p p' Hp Hi) as (-> & S2 & S3 & S4 & S5 & S6). split; [|intros HW Lp; apply Hlt; [done|by apply S6]].
    destruct (decide (i = me)) as [->|Hne].
    + assert (p = pm) as -> by congruence. assert (p' = pz) as -> by congruence. unfold proc_ok. rewrite Z1, Z2, Z5, Z6.
      split; [tauto|]. split; [|done]. intros _. apply Om2. unfold live. congruence.
    + unfold proc_ok in Hok |- *. destruct (Ha p) as (A1 & A2 & A3 & A4 & A5 & A6 & A7 & A8 & A9 & A10).
      destruct Hok as (O1 & O2 & O3).
      destruct (Hoth i p p' Hp Hi Hne) as [->|[As ->]].
      * unfold live in *. rewrite A1, A2, A3, A4, A5, A6, A7, A8, A9, A10. split_and!; [|done|done].
        destruct (p_state p) eqn:Es; try done. assert (p_parent (a p) = None) as ->; [|tauto].
        unfold a, adopt. rewrite decide_False; [tauto|]. intros E. destruct O1 as (_ & O1 & _). congruence.
      * rewrite A1 in As. unfold live in *. simpl. rewrite A4, A5, A6, A7. rewrite As in O1. split_and!; [by right|intros _; apply O2; congruence|done].
  - intros i j p' q' HW Hi Hj L1 L2 E. destruct (Hdom i p' Hi) as [p Hp], (Hdom j q' Hj) as [q Hq].
    destruct (Hsame i p p' Hp Hi) as (S1 & _ & _ & _ & _ & S6), (Hsame j q q' Hq Hj) as (T1 & _ & _ & _ & _ & T6).
    eapply (H3 i j p q); try done; [by apply S6|by apply T6|congruence].
  - destruct H4 as (j & q & -> & Hq & Aq & Pq). assert (j ≠ me) as Hne by congruence.
    destruct (Hact j q Hq Aq Hne) as (q' & Hq' & Aq'). exists j, q'. split_and!; try done.
    destruct (Hsame j q q' Hq Hq') as (_ & -> & _). unfold a, adopt. rewrite decide_False by congruence. done.
  - intros i p' Hi Lp' Hni. destruct (Hdom i p' Hi) as [p Hp]. destruct (Hsame i p p' Hp Hi) as (_ & S2 & _ & _ & _ & S6).
    destruct (H5 i p Hp) as (j & q & Eq & Hq & Aq); [by apply S6|done|]. rewrite S2. unfold a, adopt.
    destruct (decide (p_parent p = Some me)) as [E|E]; simpl.
    + destruct H4 as (k & y & Ek & Hy & Ay & _). assert (k ≠ me) as Hne by congruence.
      destruct (Hact k y Hy Ay Hne) as (y' & Hy' & Ay'). exists k, y'. done.
    + assert (j ≠ me) as Hne by congruence. destruct (Hact j q Hq Aq Hne) as (q' & Hq' & Aq'). exists j, q'. done.
  - intros i p' Hi. destruct (Hdom i p' Hi) as [p Hp]. unfold off_cpu. destruct (decide (i = me)) as [->|Hne].
    + assert (p' = pz) as -> by congruence. rewrite Z1. split; [done|]. intros [c Hcpu]. rewrite list_lookup_fmap in Hcpu.
      destruct (cs !! c) as [x|]; [|done]. simpl in Hcpu. by case_decide; simplify_eq.
    + trans (p_state p = RUNNING).
      { destruct (Ha p) as (A1 & _). destruct (Hoth i p p' Hp Hi Hne) as [->|[As ->]]; [by rewrite A1|]. simpl. rewrite A1 in As. rewrite As. done. }
      rewrite (H6 i p Hp). apply exist_proper. intros c. rewrite list_lookup_fmap. destruct (cs !! c) as [x|]; [|done]. simpl.
      case_decide; [|done]. split; congruence.
  - intros c c' i. unfold off_cpu. rewrite !list_lookup_fmap. intros E1 E2.
    destruct (cs !! c) as [x|] eqn:X; [|done]. destruct (cs !! c') as [y|] eqn:Y; [|done]. simpl in *.
    case_decide; [done|]. case_decide; [done|]. simplify_eq. by eapply H7.
  - intros i p' Hi Sp' Wp'. destruct (Hdom i p' Hi) as [p Hp].
    assert (i ≠ me) as Hne by (intros ->; congruence).
    destruct (Ha p) as (A1 & A2 & A3 & A4 & _).
    destruct (Hoth i p p' Hp Hi Hne) as [E|[_ E]]; [|by rewrite E in Sp']. rewrite E, A1 in Sp'. rewrite E, A4 in Wp'.
    destruct (H8 i p Hp Sp' Wp') as (Ech & (j & q & Hq & Lq & Pq) & Hnz).
    assert (p_chan p' = ChProc i) as Ech' by (rewrite E; congruence). assert (p_state p' = SLEEPING) as Sleep by (rewrite E; congruence).
    assert (ini = Some i → ∀ j q, l !! j = Some q → p_parent q ≠ Some me) as Hnk.
    { intros -> k x Hx Px. eapply (Hkids ltac:(eauto) i p'); try done. }
    assert (∀ x, (∃ k, l !! k = Some x) → p_parent (a x) = Some i → p_parent x = Some i) as Hback.
    { intros x [k Hx]. unfold a, adopt. case_decide as E'; [|done]. simpl. intros ->. by destruct (Hnk eq_refl k x Hx). }
    split_and!; [done| |].
    + destruct (Hall j q Hq) as (q' & Hq' & _). exists j, q'. destruct (Hsame j q q' Hq Hq') as (_ & -> & _ & _ & _ & T6).
      split_and!; [done|by apply T6|]. unfold a, adopt. rewrite decide_False by congruence. done.
    + intros k x' Hk Px'. destruct (Hdom k x' Hk) as [x Hx]. destruct (Hsame k x x' Hx Hk) as (_ & T2 & _).
      rewrite T2 in Px'. destruct (decide (k = me)) as [->|Hkne].
      * exfalso. assert (x = pm) as -> by congruence. eapply (Hpar i p'); try done. fold a. rewrite Px'. done.
      * pose proof (Hnz k x Hx (Hback x (ex_intro _ k Hx) Px')) as Hz. destruct (Ha x) as (B1 & _).
        destruct (Hoth k x x' Hx Hk Hkne) as [->|[_ ->]]; [by rewrite B1|done].
Qed.
