(* ===== verification/ProcReach.v ===== *)
(** Every turn of the kernel keeps the process table in order; and the turns of
    kernel/proc.c that leave the open files alone. *)
From S2P Require Import Prelude Riscv Memory Kalloc Vm Partial Proc ProcInv ProcEffect ProcSafe.

(** ** Lemmas *)

(** *** CPUs *)

Lemma off_cpu_lookup me cs c i : off_cpu me cs !! c = Some (Some i) ↔ cs !! c = Some (Some i) ∧ i ≠ me.
Proof.
  unfold off_cpu. rewrite list_lookup_fmap. destruct (cs !! c) as [x|]; simpl; [|naive_solver].
  case_decide; naive_solver.
Qed.

Definition cpus_unique (cs : list (option nat)) : Prop :=
  ∀ c c' j, cs !! c = Some (Some j) → cs !! c' = Some (Some j) → c = c'.

Lemma off_cpu_unique me cs : cpus_unique cs → cpus_unique (off_cpu me cs).
Proof. intros H c c' j [H1 _]%off_cpu_lookup [H2 _]%off_cpu_lookup. by eapply H. Qed.
Lemma off_cpu_other me cs j : j ≠ me → (∃ c, off_cpu me cs !! c = Some (Some j)) ↔ ∃ c, cs !! c = Some (Some j).
Proof. intros Hne. apply exist_proper. intros c. rewrite off_cpu_lookup. tauto. Qed.
Lemma off_cpu_me me cs : ¬ ∃ c, off_cpu me cs !! c = Some (Some me).
Proof. intros [c [_ H]%off_cpu_lookup]. done. Qed.

Lemma on_cpu_lookup (cs : list (option nat)) (c : nat) i (c' : nat) j : cs !! c = Some None → (<[c := Some i]> cs) !! c' = Some (Some j) ↔ c' = c ∧ j = i ∨ cs !! c' = Some (Some j).
Proof.
  intros Hc. destruct (decide (c' = c)) as [->|].
  - rewrite list_lookup_insert_eq by (by eapply lookup_lt_Some). naive_solver.
  - rewrite list_lookup_insert_ne by done. naive_solver.
Qed.

(** *** Leaving a CPU and taking one *)

Lemma table_leave NW l cs n ini me p q : table_ok NW l cs n ini → l !! me = Some p → p_state p = RUNNING →
  proc_ok q → active q → p_state q ≠ RUNNING → p_pid q = p_pid p → p_parent q = p_parent p →
  (p_state q = SLEEPING → in_wait (p_context q) → p_chan q = ChProc me ∧
     (∃ j x, l !! j = Some x ∧ live x ∧ p_parent x = Some me) ∧ ∀ j x, l !! j = Some x → p_parent x = Some me → p_state x ≠ ZOMBIE) →
  table_ok NW (<[me := q]> l) (off_cpu me cs) n ini.
Proof.
  intros Ht Hp Hr Oq Aq Nq E1 E2 W. eapply table_move; try done.
  - unfold active. by rewrite Hr.
  - apply off_cpu_unique. intros c c' j. apply Ht.
  - intros j Hj. by apply off_cpu_other.
  - split; [done|]. by intros ?%off_cpu_me.
Qed.

Lemma table_take NW l cs n ini cpu i p q : table_ok NW l cs n ini → cs !! cpu = Some None → l !! i = Some p → p_state p = RUNNABLE →
  proc_ok q → p_state q = RUNNING → p_pid q = p_pid p → p_parent q = p_parent p →
  table_ok NW (<[i := q]> l) (<[cpu := Some i]> cs) n ini.
Proof.
  intros Ht Hc Hp Hr Oq Rq E1 E2.
  assert (¬ ∃ c, cs !! c = Some (Some i)) as Hno by (intros H%(tb_cpus _ _ _ _ _ Ht i p Hp); congruence).
  eapply table_move; try done.
  - unfold active. by rewrite Hr.
  - unfold active. by rewrite Rq.
  - intros c c' j H1%on_cpu_lookup H2%on_cpu_lookup; try done.
    destruct H1 as [[-> ->]|H1], H2 as [[-> E]|H2]; [done|destruct Hno; eauto|subst j; destruct Hno; eauto|by eapply (tb_cpu _ _ _ _ _ Ht)].
  - intros j Hj. apply exist_proper. intros c. rewrite on_cpu_lookup by done. naive_solver.
  - split; [|done]. intros _. exists cpu. apply list_lookup_insert_eq. by eapply lookup_lt_Some.
  - congruence.
Qed.

Lemma minors_imap (g : nat → proc → proc) l : (∀ i p, l !! i = Some p → minor p (g i p)) → minors l (imap g l).
Proof.
  intros Hg. apply Forall2_same_length_lookup_2; [by rewrite length_imap|]. intros i p q Hp Hq.
  rewrite list_lookup_imap, Hp in Hq. simpl in Hq. simplify_eq. by apply Hg.
Qed.
Lemma minors_insert l i p q : (∀ j x, l !! j = Some x → p_lock x = false) → l !! i = Some p → minor p q → minors l (<[i := q]> l).
Proof.
  intros Hl Hp Hm. apply Forall2_same_length_lookup_2; [by rewrite length_insert|]. intros j x y Hx Hy.
  destruct (decide (j = i)) as [->|]; [|rewrite list_lookup_insert_ne in Hy by done; simplify_eq; apply minor_refl; by eapply Hl].
  rewrite list_lookup_insert_eq in Hy by (by eapply lookup_lt_Some). by simplify_eq.
Qed.

Lemma table_unlocked NW l cs n ini j x : table_ok NW l cs n ini → l !! j = Some x → p_lock x = false.
Proof. intros Ht Hx. by destruct (tb_procs _ _ _ _ _ Ht j x Hx) as [(_ & _ & ?) _]. Qed.

Lemma table_insert NW l cs n ini i p q : table_ok NW l cs n ini → l !! i = Some p → minor p q → table_ok NW (<[i := q]> l) cs n ini.
Proof. intros Ht Hp Hm. eapply table_minors; [done|]. eapply minors_insert; [|done|done]. intros j x. by apply (table_unlocked _ _ _ _ _ _ _ Ht). Qed.

Lemma table_wake NW l cs n ini me ch : table_ok NW l cs n ini → table_ok NW (imap (wake me ch) l) cs n ini.
Proof.
  intros Ht. eapply table_minors; [done|]. apply minors_imap. intros i p Hp.
  pose proof (table_unlocked _ _ _ _ _ _ _ Ht Hp). unfold wake. case_decide; [|by apply minor_refl].
  unfold minor; simpl. tauto.
Qed.

(** *** The turns *)

Section turns.
Context `{L : Layout} {F : Type} `{FO : Files F}.
Implicit Types (s : pst F) (f : F).

Local Notation keeps_table NW m s := (wlp m s (λ _ s', kernel_ok NW s')).

Lemma running_proc k l c b1 b2 n ini t f me kc : running (PSt k l c b1 b2 n ini t f) me kc →
  ∃ p, l !! me = Some p ∧ p_state p = RUNNING ∧ p_context p = kc.
Proof. intros (p & Hp & Hs). eauto. Qed.

Lemma running_ok NW l cs n ini me p : table_ok NW l cs n ini → l !! me = Some p → p_state p = RUNNING →
  p_chan p = NoChan ∧ resumable (p_context p) ∧ p_trapframe p ≠ 0 ∧ p_pagetable p ≠ 0 ∧ p_lock p = false.
Proof.
  intros Ht Hp Hr. destruct (tb_procs _ _ _ _ _ Ht me p Hp) as [(H1 & H2 & H3) _]. rewrite Hr in H1.
  assert (live p) as Lp by (unfold live; congruence). destruct (H2 Lp) as (? & ?). tauto.
Qed.

(** What holds with fewer wrap-arounds excluded. *)
Lemma kernel_ok_weaker (NW NW' : Prop) s : (NW' → NW) → kernel_ok NW s → kernel_ok NW' s.
Proof. intros Hw (E1 & E2 & [H1 [Hn Hn'] H2 H3 H4 H5 H6 H7 H8]). split; [done|]. split; [done|]. split; try done.
  - split; [done|]. intros H. apply Hn', Hw, H.
  - intros i p Hi. destruct (H2 i p Hi) as [Ho Hp]. split; [done|]. intros H. apply Hp, Hw, H.
  - intros i j p q H. apply H3, Hw, H.
Qed.
Lemma keeps_weaker {A} NW (m : M (pst F) A) s : keeps_table NW m s → wlp m s (λ _ s', kernel_ok (NW ∧ 0 < nextpid s') s').
Proof. intros Hm. eapply wlp_mono; [exact Hm|]. intros a s'. apply kernel_ok_weaker. tauto. Qed.

Lemma fork_keeps NW me k l c n ini t f kc : table_ok NW l c n ini → running (PSt k l c false false n ini t f) me kc →
  wlp (fork me) (PSt k l c false false n ini t f) (λ _ s', kernel_ok (NW ∧ 0 < nextpid s') s').
Proof.
  intros Ht (p & Hp & Hr & _)%running_proc. eapply fork_effect; [apply Ht|done|congruence| | |].
  - by apply (kernel_ok_weaker NW); [tauto|].
  - intros i x k' q Hx Hu Hq _. split; [done|]. split; [done|]. simpl. apply table_npid.
    eapply table_insert; [done|done|]. destruct (tb_procs _ _ _ _ _ Ht i x Hx) as [(Hok & _) _]. rewrite Hu in Hok.
    destruct Hok as (E1 & E2 & E3 & E4 & E5 & E6 & E7), Hq as (Q1 & Q2 & Q3 & Q4 & Q5 & Q6 & Q7 & Q8 & Q9 & Q10).
    unfold minor. rewrite Q1, Q2, Q3, Q4, Q6, Q7, Q8, Q9, E1, E2, E3, E4, E5, E6, E7, Hu. split_and!; auto; done.
  - intros i x k' f' q Hx Hu Hq _. split; [done|]. split; [done|]. simpl. eapply (table_fork _ _ _ _ _ i me x p); try done. unfold active. by rewrite Hr.
Qed.

Lemma exit_keeps NW me st k l c n ini t f kc : table_ok NW l c n ini → running (PSt k l c false false n ini t f) me kc →
  keeps_table NW (exit me st) (PSt k l c false false n ini t f).
Proof.
  intros Ht (p & Hp & Hr & _)%running_proc. eapply exit_effect; [apply Ht|done|]. intros l' f' Hini He.
  split; [done|]. split; [done|]. simpl. by eapply table_exit.
Qed.

(** A process that goes to sleep in [wait] or [waitx]. *)
Lemma slept_ok NW l c n ini me p ch kc : table_ok NW l c n ini → l !! me = Some p → p_state p = RUNNING → resumable kc →
  proc_ok (slept ch kc p).
Proof.
  intros Ht Hp Hr Hk. destruct (running_ok _ _ _ _ _ _ _ Ht Hp Hr) as (_ & _ & H). unfold proc_ok, slept; simpl. tauto.
Qed.

Lemma sleep_in_wait NW l c n ini me p kc : table_ok NW l c n ini → l !! me = Some p → p_state p = RUNNING → resumable kc →
  (∃ i x, l !! i = Some x ∧ p_parent x = Some me) → (∀ i x, l !! i = Some x → p_parent x = Some me → p_state x ≠ ZOMBIE) →
  table_ok NW (<[me := slept (ChProc me) kc p]> l) (off_cpu me c) n ini.
Proof.
  intros Ht Hp Hr Hk (i & x & Hx & Hpx) Hz. eapply table_leave; try done; [by eapply slept_ok|].
  intros _ _. split; [done|]. split; [|done]. exists i, x. split_and!; [done| |done]. intros Hu.
  destruct (tb_procs _ _ _ _ _ Ht i x Hx) as [(Hok & _) _]. rewrite Hu in Hok. destruct Hok as (_ & Hpar & _). congruence.
Qed.

Lemma back_keeps {A} NW me (r : option A) k l c n ini t f kc : table_ok NW l c n ini → running (PSt k l c false false n ini t f) me kc →
  keeps_table NW (back me r) (PSt k l c false false n ini t f).
Proof.
  intros Ht (p & Hp & Hr & _)%running_proc. unfold back. destruct r; [|by p_steps]. p_steps. split; [done|]. split; [done|]. simpl.
  destruct (running_ok _ _ _ _ _ _ _ Ht Hp Hr) as (E1 & _ & E). eapply table_move; try done.
  - unfold active. by rewrite Hr.
  - unfold active; simpl. by rewrite Hr.
  - unfold proc_ok; simpl. rewrite Hr. unfold live; simpl. tauto.
  - intros c1 c2 j. apply Ht.
  - simpl. by apply (tb_cpus _ _ _ _ _ Ht).
Qed.

Lemma killed_effect me p k l c b1 b2 n ini t f (Q : Z → pst F → Prop) : l !! me = Some p →
  Q (p_killed p) (PSt k l c b1 b2 n ini t f) → wlp (killed me) (PSt k l c b1 b2 n ini t f) Q.
Proof. intros Hp HQ. unfold killed. p_steps. rewrite lock_twice, list_insert_id by done. simpl. done. Qed.

Lemma all_in_table (l : list proc) : length l = NPROC → Forall (λ i, is_Some (l !! i)) all_procs.
Proof. intros Hl. apply Forall_forall. intros i Hi. apply elem_of_seq in Hi. apply lookup_lt_is_Some. lia. Qed.
Lemma in_all_procs (l : list proc) i p : length l = NPROC → l !! i = Some p → i ∈ all_procs.
Proof. intros Hl Hi. apply elem_of_seq. apply lookup_lt_Some in Hi. lia. Qed.

Lemma wait_keeps NW me addr k l c n ini t f kc : table_ok NW l c n ini → running (PSt k l c false false n ini t f) me kc →
  keeps_table NW (do_call me (Wait addr)) (PSt k l c false false n ini t f).
Proof.
  intros Ht Hrun. pose proof Hrun as (p & Hp & Hr & Hk)%running_proc. pose proof (tb_length _ _ _ _ _ Ht) as Hlen.
  unfold do_call, wait. p_steps. eapply (wait_scan_effect me p); [done|done|by apply all_in_table| | |].
  - intros kids Hkids _ Hz. p_steps.
    eapply (wlp_mono _ _ (λ r s', s' = PSt k l c false true n ini t f ∧ (r = 0 → kids = true))).
    { destruct kids; simpl; [|by p_steps]. eapply killed_effect; done. }
    intros r _ [-> Hkid]. case_if; p_steps; [by eapply back_keeps|].
    eapply sleep_wait_effect; [done|]. p_steps. simpl. p_steps. split; [done|]. split; [done|]. simpl. eapply sleep_in_wait; try done.
    + by destruct (Hkids (Hkid Heqb)).
    + intros i x Hx Hpx. eapply Hz; [by eapply in_all_procs|done|done].
  - intros k' _. p_steps. by eapply back_keeps.
  - intros k' i x q Hx Hpx Hzx Hq _ _. p_steps. eapply back_keeps.
    + by eapply (table_free _ _ _ _ _ i me).
    + exists p. simpl. rewrite list_lookup_insert_ne; [done|]. intros ->. congruence.
Qed.

(** [waitx] goes through the table as [wait] does. *)
Lemma reapx_wlp me i addr kids s Q :
  wlp (reap me i addr kids) s (λ r s', match r with inl pid => ∀ tm, Q (inl (pid, tm)) s' | inr k => Q (inr k) s' end) →
  wlp (reapx me i addr kids) s Q.
Proof.
  unfold reap, reapx, wlp, mbind, M_bind, mret, M_ret, get_p, gets. repeat case_match; simplify_eq; naive_solver.
Qed.

Lemma waitx_scan_wlp me addr il kids s Q :
  wlp (wait_scan me addr il kids) s (λ r s', match r with inl pid => ∀ tm, Q (inl (pid, tm)) s' | inr k => Q (inr k) s' end) →
  wlp (waitx_scan me addr il kids) s Q.
Proof.
  revert kids s. induction il as [|i il IH]; intros kids s Hw; [done|]. simpl. apply wlp_bind, reapx_wlp.
  eapply wlp_mono; [by apply wlp_bind_inv in Hw|]. intros [pid|k] s' Hr; [intros tm; by apply wlp_ret, Hr|by apply IH].
Qed.

Lemma waitx_keeps NW me addr k l c n ini t f kc : table_ok NW l c n ini → running (PSt k l c false false n ini t f) me kc →
  keeps_table NW (do_call me (Waitx addr)) (PSt k l c false false n ini t f).
Proof.
  intros Ht Hrun. pose proof Hrun as (p & Hp & Hr & Hk)%running_proc. pose proof (tb_length _ _ _ _ _ Ht) as Hlen.
  unfold do_call, waitx. p_steps. apply waitx_scan_wlp.
  eapply (wait_scan_effect me p); [done|done|by apply all_in_table| | |].
  - intros kids Hkids _ Hz. p_steps. destruct kids; simpl; [case_if|]; p_steps; [by eapply back_keeps| |by eapply back_keeps].
    eapply sleep_wait_effect; [done|]. p_steps. simpl. p_steps. split; [done|]. split; [done|]. simpl. eapply sleep_in_wait; try done.
    + by destruct (Hkids eq_refl).
    + intros i x Hx Hpx. eapply Hz; [by eapply in_all_procs|done|done].
  - intros k' _ tm. p_steps. by eapply back_keeps.
  - intros k' i x q Hx Hpx Hzx Hq _ _ tm. p_steps. eapply back_keeps.
    + by eapply (table_free _ _ _ _ _ i me).
    + exists p. simpl. rewrite list_lookup_insert_ne; [done|]. intros ->. congruence.
Qed.

Lemma other_keeps NW me cl k l c n ini t f : table_ok NW l c n ini → running (PSt k l c false false n ini t f) me CUser →
  match cl with Kill _ | Yield | Sbrk _ | SleepOn _ | Wakeup _ | SetKilled => True | _ => False end →
  keeps_table NW (do_call me cl) (PSt k l c false false n ini t f).
Proof.
  intros Ht (p & Hp & Hr & Hk)%running_proc Hcl. pose proof (tb_length _ _ _ _ _ Ht) as Hlen.
  destruct (running_ok _ _ _ _ _ _ _ Ht Hp Hr) as (E1 & _ & E3 & E4 & E5).
  destruct cl as [|st|a|a|pid| |sz|ch|ch|]; try done; unfold do_call.
  - p_steps. eapply kill_effect; [done|by p_steps|]. intros i x q Hx Hlx _ Hq. p_steps. split; [done|]. split; [done|]. simpl.
    eapply table_insert; [done|done|]. destruct Hq as [->|[Hs ->]]; unfold minor; simpl; tauto.
  - eapply yield_effect; [done|]. split; [done|]. split; [done|]. simpl. eapply table_leave; try done.
    unfold proc_ok, live; simpl. tauto.
  - unfold growproc. p_steps. repeat (case_if; p_steps). all: split; [done|]; split; [done|]; simpl; try done.
    all: eapply table_insert; [done|done|]; unfold minor; simpl; rewrite Hr; split_and!; auto; done.
  - eapply sleep_effect; [done|]. split; [done|]. split; [done|]. simpl. eapply table_leave; try done; by eapply slept_ok.
  - apply wakeup_effect; [done|]. split; [done|]. split; [done|]. simpl. by apply table_wake.
  - unfold setkilled. p_steps. split; [done|]. split; [done|]. simpl. eapply table_insert; [done|done|]. unfold minor; simpl. rewrite Hr. split_and!; auto; done.
Qed.

Lemma scheduler_keeps NW cpu i k l c n ini t f : table_ok NW l c n ini → c !! cpu = Some None → (i < NPROC)%nat →
  keeps_table NW (scheduler cpu i) (PSt k l c false false n ini t f).
Proof.
  intros Ht Hc Hi. destruct (lookup_lt_is_Some_2 l i) as [p Hp]; [by rewrite (tb_length _ _ _ _ _ Ht)|].
  eapply scheduler_effect; [done|done|]. intros q kc Hs Hcase Q1 Q2 Q3 Q4 Q5 Q6 Q7. split; [done|]. split; [done|]. simpl.
  destruct (tb_procs _ _ _ _ _ Ht i p Hp) as [(H1 & H2 & H3) _]. rewrite Hs in H1.
  assert (live p) as Lp by (unfold live; congruence).
  eapply table_take; try done. unfold proc_ok. rewrite Q1, Q2, Q6, Q7. split_and!; [..|intros _; by apply H2|done].
  - destruct Hcase as [(Hk & _ & ->)|[_ ->]]; [|done]. destruct H1 as [[-> _]|H1]; [done|].
    unfold asleep_ctx in H1. by destruct Hk as [Hk|Hk]; rewrite Hk in H1.
  - destruct Hcase as [(_ & -> & _)|[Hk _]]; [done|]. rewrite Hk in H1. by destruct H1 as [(_ & [|])|H1].
Qed.

(** Every turn keeps the invariant, as long as [nextpid] does not wrap. *)
Lemma pstep_keeps NW s s' : kernel_ok NW s → pstep s s' → kernel_ok (NW ∧ 0 < nextpid s') s'.
Proof.
  destruct s as [k l c b1 b2 n ini t f]. unfold kernel_ok at 1. simpl. intros (-> & -> & Ht) Hs.
  destruct Hs as [cpu i b s' Hc Hi E|me cl s' Hr E|me addr s' Hr E|me addr s' Hr E|ch t' s' E|s' E|me k' f' o cw nm pt sz s' Hr Hpt E].
  - assert (wlp (scheduler cpu i) (PSt k l c false false n ini t f) (λ _ s', kernel_ok (NW ∧ 0 < nextpid s') s')) as W by (by apply keeps_weaker, scheduler_keeps).
    by eapply wlp_ok in W.
  - assert (wlp (do_call me cl) (PSt k l c false false n ini t f) (λ _ s', kernel_ok (NW ∧ 0 < nextpid s') s')) as W; [|by eapply wlp_ok in W].
    destruct cl; try (by apply keeps_weaker, other_keeps).
    + simpl. p_steps. eapply wlp_mono; [by eapply (fork_keeps _ me)|]. intros r s1 H1. p_steps. exact H1.
    + eapply keeps_weaker, exit_keeps; done.
    + eapply keeps_weaker, wait_keeps; done.
    + eapply keeps_weaker, waitx_keeps; done.
  - assert (wlp (do_call me (Wait addr)) (PSt k l c false false n ini t f) (λ _ s', kernel_ok (NW ∧ 0 < nextpid s') s')) as W by (eapply keeps_weaker, wait_keeps; done).
    by eapply wlp_ok in W.
  - assert (wlp (do_call me (Waitx addr)) (PSt k l c false false n ini t f) (λ _ s', kernel_ok (NW ∧ 0 < nextpid s') s')) as W by (eapply keeps_weaker, waitx_keeps; done).
    by eapply wlp_ok in W.
  - unfold set_ticks in E. simpl in E.
    assert (wlp (wakeup None ch) (PSt k l c false false n ini t' f) (λ _ s', kernel_ok (NW ∧ 0 < nextpid s') s')) as W; [|by eapply wlp_ok in W].
    apply keeps_weaker, wakeup_effect; [apply Ht|]. split; [done|]. split; [done|]. simpl. by apply table_wake.
  - assert (wlp update_time (PSt k l c false false n ini t f) (λ _ s', kernel_ok (NW ∧ 0 < nextpid s') s')) as W; [|by eapply wlp_ok in W].
    apply keeps_weaker, update_time_effect; [apply Ht|]. split; [done|]. split; [done|]. simpl. eapply table_minors; [done|]. apply minors_imap.
    intros i p Hp. pose proof (table_unlocked _ _ _ _ _ _ _ Ht Hp). case_decide; [|by apply minor_refl]. unfold minor; simpl. tauto.
  - destruct Hr as (p & Hp & Hr & _). unfold set_kern, set_ftable in E. simpl in E.
    assert (wlp (upd_p me (own_fields o cw nm pt sz)) (PSt k' l c false false n ini t f') (λ _ s', kernel_ok (NW ∧ 0 < nextpid s') s')) as W; [|by eapply wlp_ok in W].
    destruct (running_ok _ _ _ _ _ _ _ Ht Hp Hr) as (E1 & _ & E3 & E4 & E5).
    apply keeps_weaker. p_steps. split; [done|]. split; [done|]. simpl. eapply table_insert; [done|done|].
    unfold minor, own_fields; simpl. rewrite Hr. split_and!; auto; done.
Qed.

(** *** Boot *)

(** A process that [procinit] has set up, and the first one, [init]. *)
Definition fresh (i : nat) (p : proc) : proc := set_p_kstack (KSTACK (Z.of_nat i)) (set_p_state UNUSED (set_p_lock false p)).
Definition first_proc (n tf pt t : Z) (cwd : nat) (p : proc) : proc :=
  set_p_lock false (set_p_state RUNNABLE (set_p_cwd (Some cwd)
    (set_p_name (copy_name [105; 110; 105; 116; 99; 111; 100; 101]) (set_p_sz PGSIZE (born n tf pt t p))))).

Lemma procinit_effect l k c b1 b2 n ini t f (Q : unit → pst F → Prop) : length l = NPROC →
  Q tt (PSt k (imap fresh l) c false false n ini t f) → wlp procinit (PSt k l c b1 b2 n ini t f) Q.
Proof.
  intros Hl HQ. unfold procinit. p_steps. unfold set_pid_lock, set_wait_lock.
  cbn [kern procs cpus pid_lock wait_lock nextpid initproc ticks ftable].
  apply (wlp_each fresh); [done|intros i l' p Hp; by p_steps|done].
Qed.

Lemma fresh_table i p : imap fresh (replicate NPROC null_proc) !! i = Some p → p = fresh i null_proc.
Proof. rewrite list_lookup_imap. by intros (x & [-> _]%lookup_replicate & ->)%fmap_Some. Qed.
Lemma fresh_length : length (imap fresh (replicate NPROC null_proc)) = NPROC.
Proof. by rewrite length_imap, length_replicate. Qed.

Lemma userinit_effect l k c b1 b2 n ini t f (Q : unit → pst F → Prop) : length l = NPROC →
  (∀ i p k' tf pt cwd f', l !! i = Some p → p_state p = UNUSED → tf ≠ 0 → pt ≠ 0 → f_root f = Ok (cwd, f') →
     Q tt (PSt k' (<[i := first_proc n tf pt t cwd p]> l) c false b2 (i32 (n + 1)) (Some i) t f')) →
  wlp userinit (PSt k l c b1 b2 n ini t f) Q.
Proof.
  intros Hl HQ. unfold userinit. p_steps. apply allocproc_effect; [done|p_steps; apply wlp_panic|intros; p_steps; apply wlp_panic|].
  intros i p k' tf pt _ Hi Hu Htf Hpt. do 14 p_step. apply wlp_bind, wlp_lift. intros cwd f' E. unfold set_ftable; simpl. p_steps. by apply HQ.
Qed.

(** The kernel after boot: one process, [init]. *)
Lemma boot_keeps s : booted s → kernel_ok True s.
Proof.
  intros (k & f & b1 & b2 & E).
  assert (wlp (procinit;; userinit) (PSt k (replicate NPROC null_proc) (replicate NCPU None) b1 b2 1 None 0 f) (λ _ s', kernel_ok True s')) as W;
    [|by eapply wlp_ok in W]. clear E.
  apply wlp_bind, procinit_effect; [by rewrite length_replicate|]. set (l := imap fresh _).
  apply userinit_effect; [exact fresh_length|]. intros i p k' tf pt cwd f' Hi Hu Htf Hpt _. split; [done|]. split; [done|]. simpl.
  pose proof (fresh_table i p Hi) as ->. set (q := first_proc _ _ _ _ _ _).
  assert (∀ j x, <[i:=q]> l !! j = Some x → j = i ∧ x = q ∨ j ≠ i ∧ x = fresh j null_proc) as Hc.
  { intros j x Hx. destruct (decide (j = i)) as [->|]; [|rewrite list_lookup_insert_ne in Hx by done; right; by apply fresh_table in Hx].
    rewrite list_lookup_insert_eq in Hx by (by eapply lookup_lt_Some). left. by simplify_eq. }
  assert (<[i:=q]> l !! i = Some q) as Hq by (apply list_lookup_insert_eq; by eapply lookup_lt_Some).
  assert (∀ c' j, replicate NCPU (None : option nat) !! c' ≠ Some (Some j)) as Hno by (intros c' j [E _]%lookup_replicate; done).
  split.
  - rewrite length_insert. apply fresh_length.
  - by vm_compute.
  - intros j x [[-> ->]|[_ ->]]%Hc; unfold proc_ok, live; simpl; [|tauto]. split; [|by vm_compute].
    split_and!; [left; auto|done|done].
  - intros j1 j2 x y _ [[-> ->]|[_ ->]]%Hc [[-> ->]|[_ ->]]%Hc Lx Ly _; done.
  - exists i, q. done.
  - intros j x [[-> ->]|[_ ->]]%Hc Lx Hne; done.
  - intros j x [[-> ->]|[_ ->]]%Hc; (split; [done|]); intros [c' H']; by destruct (Hno c' _ H').
  - intros c' c2 j H'. by destruct (Hno c' j H').
  - intros j x [[-> ->]|[_ ->]]%Hc Sx; done.
Qed.

Lemma reachable_ok s : reachable s → kernel_ok False s.
Proof.
  intros (s0 & Hb & Hr). apply boot_keeps, (kernel_ok_weaker _ False) in Hb; [|done].
  induction Hr as [|s1 s2 s3 H1 _ IH]; [done|]. apply IH. eapply kernel_ok_weaker; [|by eapply pstep_keeps]. done.
Qed.

(** As long as [nextpid] has not wrapped, the pids are in order as well. *)
Lemma pids_fresh_ok s : pids_fresh s → kernel_ok True s.
Proof.
  intros (s0 & Hb & Hr). apply boot_keeps in Hb. induction Hr as [|s1 s2 s3 [H1 Hpos] _ IH]; [done|]. apply IH.
  eapply kernel_ok_weaker; [|by eapply pstep_keeps]. done.
Qed.
Lemma table_ok_both NW l cs n ini : table_ok False l cs n ini → (NW → table_ok True l cs n ini) → table_ok NW l cs n ini.
Proof.
  intros [H1 [Hn _] H2 _ H4 H5 H6 H7 H8] Ht. split; try done.
  - split; [done|]. intros Hw. by apply (tb_npid _ _ _ _ _ (Ht Hw)).
  - intros i p Hp. split; [by apply (H2 i)|]. intros Hw. by apply (tb_procs _ _ _ _ _ (Ht Hw) i).
  - intros i j p q Hw. by apply (tb_pids _ _ _ _ _ (Ht Hw)).
Qed.
End turns.

(** ** The turns that leave the open files alone *)

(** A process that is not there, or no longer, has no files. *)
Definition idle (p : proc) : Prop := p_state p = UNUSED ∨ p_state p = USED ∨ p_state p = ZOMBIE.
Definition same_fds (p q : proc) : Prop := p_ofile q = p_ofile p ∧ (idle q → idle p).
Definition fd_frame {F} (s s' : pst F) : Prop := ftable s' = ftable s ∧ Forall2 same_fds (procs s) (procs s').

Global Instance same_fds_preorder : PreOrder same_fds.
Proof. split; [by split|]. intros p q r [A1 B1] [A2 B2]. split; [congruence|tauto]. Qed.
Global Instance fd_frame_preorder {F} : PreOrder (fd_frame (F := F)).
Proof.
  split.
  - intros s. split; [done|]. reflexivity.
  - intros s1 s2 s3 [E1 H1] [E2 H2]. split; [congruence|by trans (procs s2)].
Qed.

Lemma fds_insert (l : list proc) i p q : l !! i = Some p → same_fds p q → Forall2 same_fds l (<[i := q]> l).
Proof. intros Hi Hq. rewrite <- (list_insert_id l i p) at 1 by done. by apply Forall2_insert. Qed.

Section frame.
Context `{L : Layout} {F : Type} `{FO : Files F}.
Implicit Types s : pst F.
Local Notation keeps m := (keeping (fd_frame (F := F)) m).

Lemma keeps_kern {A} (m : M kst A) : keeps (kern_m m).
Proof. apply keeping_lift. intros k s. split; [done|]. reflexivity. Qed.
Lemma keeps_get_p i : keeps (get_p i).
Proof. apply keeping_gets, _. Qed.
Lemma keeps_modify (f : pst F → pst F) : (∀ s, procs (f s) = procs s ∧ ftable (f s) = ftable s) → keeps (modify f).
Proof. intros Hf. apply keeping_modify. intros s. destruct (Hf s) as [E1 E2]. unfold fd_frame. by rewrite E1, E2. Qed.
Lemma keeps_upd_p i g : (∀ p, same_fds p (g p)) → keeps (upd_p i g).
Proof.
  intros Hg. apply keeping_modify. intros s. split; [done|]. simpl. apply Forall2_lookup. intros j. rewrite list_lookup_alter.
  destruct (procs s !! j) eqn:E; case_decide; try subst; rewrite ?E; by constructor.
Qed.
Lemma keeps_acquire_p i : keeps (acquire_p i).
Proof. intros s. unfold wlp, acquire_p. destruct (p_lock _); [done|]. apply (keeps_upd_p i (set_p_lock true)). done. Qed.
Lemma keeps_release_p i : keeps (release_p i).
Proof. intros s. unfold wlp, release_p. destruct (p_lock _); [|done]. apply (keeps_upd_p i (set_p_lock false)). done. Qed.
Lemma keeps_wait_lock : keeps acquire_wait.
Proof. intros s. unfold wlp, acquire_wait. destruct (wait_lock s); [done|]. split; [done|reflexivity]. Qed.
Lemma keeps_wait_unlock : keeps release_wait.
Proof. intros s. unfold wlp, release_wait. destruct (wait_lock s); [|done]. split; [done|reflexivity]. Qed.
Lemma keeps_for_procs {A} (f : nat → M (pst F) (option A)) l : (∀ x, keeps (f x)) → keeps (for_procs f l).
Proof.
  intros Hf. induction l as [|x l IH]; simpl; [apply keeping_ret, _|]. apply keeping_bind; [apply _|done|].
  intros [a|]; [apply keeping_ret, _|done].
Qed.
End frame.

#[export] Hint Extern 1 (keeping fd_frame (upd_p _ _)) =>
  apply keeps_upd_p; intros []; split; [done|by unfold idle; simpl; naive_solver] : keeping.
#[export] Hint Extern 1 (keeping fd_frame (modify _)) => apply keeps_modify; done : keeping.
#[export] Hint Extern 1 (keeping fd_frame (for_procs _ _)) => apply keeps_for_procs; intros ?; keeping : keeping.
#[export] Hint Resolve keeps_kern keeps_get_p keeps_acquire_p keeps_release_p keeps_wait_lock keeps_wait_unlock : keeping.

Section turns.
Context `{L : Layout} {F : Type} `{FO : Files F}.
Implicit Types s : pst F.
Local Notation keeps m := (keeping (fd_frame (F := F)) m).

Lemma keeps_wakeup me ch : keeps (wakeup me ch).
Proof. unfold wakeup. keeping. Qed.
Hint Resolve keeps_wakeup : keeping.
Lemma keeps_sched me k : keeps (sched me k).
Proof. unfold sched. keeping. Qed.
Hint Resolve keeps_sched : keeping.
Lemma keeps_yield me : keeps (yield me).
Proof. unfold yield. keeping. Qed.
Lemma keeps_sleep me ch rel k : keeps rel → keeps (sleep me ch rel k).
Proof. intros. unfold sleep. keeping. Qed.
Lemma keeps_scheduler c i : keeps (scheduler c i).
Proof. unfold scheduler. keeping. Qed.
Lemma keeps_kill pid : keeps (kill pid).
Proof. unfold kill. keeping. Qed.
Lemma keeps_killed me : keeps (killed me).
Proof. unfold killed. keeping. Qed.
Lemma keeps_setkilled me : keeps (setkilled me).
Proof. unfold setkilled. keeping. Qed.
Lemma keeps_update_time : keeps update_time.
Proof. unfold update_time. keeping. Qed.
Lemma keeps_growproc me n : keeps (growproc me n).
Proof. unfold growproc. keeping. Qed.
Lemma keeps_reparent me : keeps (reparent me).
Proof. unfold reparent. keeping. Qed.
End turns.
#[export] Hint Resolve keeps_wakeup keeps_sched keeps_yield keeps_sleep keeps_scheduler keeps_kill keeps_killed keeps_setkilled
  keeps_update_time keeps_growproc keeps_reparent : keeping.

Section waiting.
Context `{L : Layout} {F : Type} `{FO : Files F}.
Implicit Types s : pst F.

Lemma wait_scan_fds me pm addr il kids k l c b1 n ini t f : l !! me = Some pm → p_state pm = RUNNING → Forall (λ i, is_Some (l !! i)) il →
  wlp (wait_scan me addr il kids) (PSt k l c b1 true n ini t f) (λ _ s', fd_frame (PSt k l c b1 true n ini t f) s').
Proof.
  intros Hm Hr Hil. eapply wait_scan_effect; [done|done|done|intros; reflexivity|intros; split; [done|reflexivity]|].
  intros k' i p q Hi _ Hz Hu Ho _. split; [done|]. eapply fds_insert; [done|]. split; [done|]. intros _. unfold idle. auto.
Qed.

Lemma wait_fds me addr s kc : length (procs s) = NPROC → running s me kc → wlp (wait me addr) s (λ _ s', fd_frame s s').
Proof.
  destruct s as [k l c b1 b2 n ini t f]. intros Hl (pm & Hm & Hr & _). simpl in *. unfold wait. p_steps.
  change (fd_frame (PSt k l c b1 b2 n ini t f)) with (fd_frame (PSt k l c b1 true n ini t f)).
  apply (wlp_then_keeping (fd_frame (F := F))); [|intros r; keeping].
  apply (wait_scan_fds me pm); [done|done|]. apply Forall_forall. intros i Hi. by apply (in_table l i) in Hi.
Qed.

Lemma waitx_fds me addr s kc : length (procs s) = NPROC → running s me kc → wlp (waitx me addr) s (λ _ s', fd_frame s s').
Proof.
  destruct s as [k l c b1 b2 n ini t f]. intros Hl (pm & Hm & Hr & _). simpl in *. unfold waitx. p_steps.
  change (fd_frame (PSt k l c b1 b2 n ini t f)) with (fd_frame (PSt k l c b1 true n ini t f)).
  apply (wlp_then_keeping (fd_frame (F := F))); [|intros r; keeping].
  apply waitx_scan_wlp. eapply wlp_mono; [apply (wait_scan_fds me pm); [done|done|]|].
  { apply Forall_forall. intros i Hi. by apply (in_table l i) in Hi. }
  by intros [pid|kids] s1 H1.
Qed.
End waiting.
