(* ===== verification/ProcProps.v ===== *)
(** The properties of processes: the table in every reachable state, and what
    fork, exit and wait answer. *)
From S2P Require Import Prelude Riscv Memory Kalloc Vm Partial Proc ProcInv ProcEffect ProcSafe ProcReach.

(** ** Definitions *)

Module Example.

(** A machine with 24 free pages and files that are only counted on. *)
Definition layout : Layout :=
  {| kend := PHYSTOP - 24 * PGSIZE; etext := KERNBASE + PGSIZE; trampoline := KERNBASE + PGSIZE |}.
Definition pg (i : Z) : Z := PHYSTOP - 24 * PGSIZE + i * PGSIZE.
Definition memory : kst := KSt false false (pg 0) ∅ (foldr (λ i m, st64 m (pg i) (pg (i + 1))) ∅ (seqZ 0 23)).
Definition files : Files unit :=
  {| f_dup := λ f s, Ok (f, s); f_close := λ _ s, Ok ([], s); f_idup := λ i s, Ok (i, s); f_iput := λ _ s, Ok ([], s);
     f_root := λ s, Ok (O, s) |}.

(** The state a run ends in, if it does. *)
Definition final {A S} (r : res (A * S)) (d : S) : S := match r with Ok (_, s) => s | _ => d end.
Definition ended {A S} (r : res (A * S)) : bool := match r with Ok _ => true | _ => false end.

(** Power on; [init] in the table; [init] on the first CPU. *)
Definition off : pst unit := PSt memory (replicate NPROC null_proc) (replicate NCPU None) true true 1 None 0 tt.
Definition boot : res (unit * pst unit) := (procinit;; userinit (L := layout) (FO := files)) off.
Definition on : pst unit := final boot off.
Definition user : pst unit := final (scheduler (F := unit) 0 0 on) off.
(** [init] forks, and its child runs on the second CPU. *)
Definition forked : pst unit := final (fork (L := layout) (FO := files) 0 user) off.
Definition two : pst unit := final (scheduler (F := unit) 1 1 forked) off.
End Example.

Definition has_child {F} (me : nat) (s : pst F) : Prop := ∃ i p, procs s !! i = Some p ∧ p_parent p = Some me.
Definition no_zombie_child {F} (me : nat) (s : pst F) : Prop :=
  ∀ i p, procs s !! i = Some p → p_parent p = Some me → p_state p ≠ ZOMBIE.

(** What a process knows when [wait] answers [r], or sends it to sleep. *)
Definition wait_answer `{L : Layout} {F} (me : nat) (addr : Z) (s : pst F) (r : option Z) (s' : pst F) : Prop :=
  ∃ pm, procs s !! me = Some pm ∧
  match r with
  | None => has_child me s ∧ no_zombie_child me s ∧ p_killed pm = 0 ∧
      procs s' = <[me := slept (ChProc me) (CWait addr) pm]> (procs s)
  | Some pid =>
      (∃ i p q, procs s !! i = Some p ∧ p_parent p = Some me ∧ p_state p = ZOMBIE ∧ pid = p_pid p ∧
         (∃ c k1, status_out pm p addr (kern s) c k1 ∧ 0 <= c) ∧ unused_proc q ∧ procs s' = <[i := q]> (procs s)) ∨
      pid = -1 ∧ procs s' = procs s ∧
        (kern s' = kern s ∧ (¬ has_child me s ∨ no_zombie_child me s ∧ p_killed pm ≠ 0) ∨
         ∃ i p c, procs s !! i = Some p ∧ p_parent p = Some me ∧ p_state p = ZOMBIE ∧
           status_out pm p addr (kern s) c (kern s') ∧ c < 0)
  end.

(** ** Lemmas *)

Lemma ended_ok {A S} (r : res (A * S)) d : Example.ended r = true → ∃ a, r = Ok (a, Example.final r d).
Proof. destruct r as [[a s]| |]; [|done..]. eauto. Qed.

Lemma example_booted : booted (L := Example.layout) (FO := Example.files) Example.on.
Proof.
  destruct (ended_ok Example.boot Example.off) as [[] E]; [by vm_compute|].
  exists Example.memory, tt, true, true. unfold Example.on. rewrite <- E. unfold Example.boot at 1. unfold Example.off. reflexivity.
Qed.

Lemma example_user : reachable (L := Example.layout) (FO := Example.files) Example.user ∧ running Example.user 0 CUser.
Proof.
  destruct (ended_ok (scheduler (F := unit) 0 0 Example.on) Example.off) as [b E]; [by vm_compute|]. split.
  - exists Example.on. split; [exact example_booted|]. apply rtc_once. eapply (step_scheduler _ 0 0 b); [by vm_compute|unfold NPROC; lia|exact E].
  - destruct (procs Example.user !! 0%nat) as [p|] eqn:Ep; [|exfalso; revert Ep; vm_compute; discriminate].
    exists p. split; [done|].
    assert (match procs Example.user !! 0%nat with Some p => bool_decide (p_state p = RUNNING ∧ p_context p = CUser) | None => false end = true) as H
      by (by vm_compute).
    rewrite Ep in H. by apply bool_decide_eq_true in H.
Qed.

Lemma example_fresh : pids_fresh (L := Example.layout) (FO := Example.files) Example.user.
Proof.
  destruct (ended_ok (scheduler (F := unit) 0 0 Example.on) Example.off) as [b E]; [by vm_compute|].
  exists Example.on. split; [exact example_booted|]. apply rtc_once. split; [|by vm_compute].
  eapply (step_scheduler _ 0 0 b); [by vm_compute|unfold NPROC; lia|exact E].
Qed.

(** A process of the table is running user code. *)
Definition runs_user {F} (s : pst F) (i : nat) : bool :=
  match procs s !! i with Some p => bool_decide (p_state p = RUNNING ∧ p_context p = CUser) | None => false end.
Lemma runs_user_running {F} (s : pst F) i : runs_user s i = true → running s i CUser.
Proof. unfold runs_user, running. destruct (procs s !! i) as [p|]; [|done]. intros H%bool_decide_eq_true. eauto. Qed.

Lemma fork_pstep `{L : Layout} {F : Type} `{FO : Files F} (s : pst F) me r s' : running s me CUser → fork me s = Ok (r, s') → pstep s s'.
Proof. intros Hu E. apply (step_call s me Fork s' Hu). unfold do_call, mbind, M_bind. by rewrite E. Qed.

Lemma example_two : reachable (L := Example.layout) (FO := Example.files) Example.two ∧ running Example.two 1 CUser.
Proof.
  destruct (ended_ok (fork (L := Example.layout) (FO := Example.files) 0 Example.user) Example.off) as [r E]; [by vm_compute|].
  destruct (ended_ok (scheduler (F := unit) 1 1 Example.forked) Example.off) as [b E2]; [by vm_compute|].
  destruct example_user as [(s0 & Hb & Hr) Hu]. split; [|apply runs_user_running; by vm_compute].
  assert (pstep (L := Example.layout) (FO := Example.files) Example.user Example.forked) as H1.
  { unfold Example.forked. exact (fork_pstep (L := Example.layout) (FO := Example.files) _ 0%nat r _ Hu E). }
  assert (pstep (L := Example.layout) (FO := Example.files) Example.forked Example.two) as H2.
  { unfold Example.two. apply (step_scheduler _ 1 1 b); [by vm_compute|unfold NPROC; lia|exact E2]. }
  exists s0. split; [exact Hb|]. eapply rtc_r; [|exact H2]. eapply rtc_r; [exact Hr|exact H1].
Qed.

(** ** Properties *)

(** C3: In every state the kernel reaches, the process table is in order: each
    process's fields fit its state, the parent of every process but [init] is alive and not a
    zombie, RUNNING means on exactly one CPU, no lock is held between turns,
    and a process asleep in [wait] has a child and no zombie child.  As long as
    the [int] [nextpid] has not overflowed on the way, live processes have
    positive and distinct pids below it. *)
Theorem process_table_ok `{L : Layout} {F : Type} `{FO : Files F} (s : pst F) : reachable s → kernel_ok (pids_fresh s) s.
Proof.
  intros Hr. destruct (reachable_ok s Hr) as (E1 & E2 & Ht). split; [done|]. split; [done|].
  apply table_ok_both; [done|]. intros Hf. apply (pids_fresh_ok s Hf).
Qed.
Lemma process_table_ok_witness : reachable (L := Example.layout) (FO := Example.files) Example.user ∧
  pids_fresh (L := Example.layout) (FO := Example.files) Example.user ∧
  kernel_ok (pids_fresh (L := Example.layout) (FO := Example.files) Example.user) Example.user.
Proof.
  split; [apply example_user|]. split; [apply example_fresh|].
  apply (process_table_ok (L := Example.layout) (FO := Example.files) Example.user), example_user.
Defined.

(** C25: [wait] answers the pid of a zombie child, whose status it has copied out
    (if asked), and frees that child and nothing else in the table; or -1 with
    the table as it was, when there is no child, or no zombie child and the
    caller is killed, or the copy of a zombie's status failed; it goes to sleep
    only with a child, no zombie child and no kill pending. *)
Theorem wait_reaps_child `{L : Layout} {F : Type} `{FO : Files F} (s : pst F) me kc addr :
  reachable s → running s me kc → wlp (wait me addr) s (wait_answer me addr s).
Proof.
  intros (_ & Hb2 & Ht)%reachable_ok Hrun. destruct s as [k l c b1 b2 n ini t f]. simpl in *.
  apply running_proc in Hrun as (p & Hp & Hr & _). pose proof (tb_length _ _ _ _ _ Ht) as Hlen.
  unfold wait. p_steps. eapply (wait_scan_effect me p); [done|done|by apply all_in_table| | |].
  - intros kids Hkids Hnone Hz. p_steps.
    assert (no_zombie_child me (PSt k l c b1 b2 n ini t f)) as Hnz by (intros i x Hx; eapply Hz; [by eapply in_all_procs|done]).
    eapply (wlp_mono _ _ (λ r s', s' = PSt k l c b1 true n ini t f ∧ (if kids then r = p_killed p else r = 1))).
    { destruct kids; simpl; [|by p_steps]. eapply killed_effect; done. }
    intros r _ [-> Hkid]. destruct (negb (r =? 0)) eqn:Er; bool_prop; p_steps.
    + exists p. split; [done|]. right. split; [done|]. split; [done|]. left. split; [done|]. destruct kids; subst r; [by right; split; [|lia]|left].
      intros (i & x & Hx & Hpx). destruct (Hnone eq_refl) as [_ Hn]. by eapply Hn; [eapply in_all_procs|..].
    + destruct kids; subst r; [|done]. eapply sleep_wait_effect; [done|]. p_steps. exists p. split; [done|]. split_and!; [|done|lia|done].
      by destruct (Hkids eq_refl).
  - intros k' Hk. p_steps. exists p. split; [done|]. right. split; [done|]. split; [done|]. by right.
  - intros k' i x q Hx Hpx Hzx Hq _ Hs. p_steps. exists p. split; [done|]. left. exists i, x, q. done.
Qed.
Lemma wait_reaps_child_witness : wlp (wait (L := Example.layout) (F := unit) 0 0) Example.user (wait_answer (L := Example.layout) 0 0 Example.user) ∧
  Example.ended (wait (L := Example.layout) (F := unit) 0 0 Example.user) = true.
Proof.
  split; [|by vm_compute].
  apply (wait_reaps_child (L := Example.layout) (FO := Example.files) Example.user 0%nat CUser 0); apply example_user.
Defined.

(** C37: [fork] answers [nextpid] for a slot that was unused, now runnable with
    the caller as its parent, or -1 with no process more; the other processes
    are as they were.  As long as [nextpid] has not overflowed on the way, the
    pid is positive and no live process has it. *)
Theorem fork_makes_child `{L : Layout} {F : Type} `{FO : Files F} (s : pst F) me kc : reachable s → running s me kc →
  wlp (fork me) s (λ r s', (r = -1 ∧ procs s' = procs s) ∨
    ∃ i p q, procs s !! i = Some p ∧ p_state p = UNUSED ∧ procs s' = <[i := q]> (procs s) ∧
      (r = -1 ∧ unused_proc q ∨ r = nextpid s ∧ child_of me r p q ∧
        (pids_fresh s → 0 < r ∧ ∀ j x, procs s !! j = Some x → live x → p_pid x ≠ r))).
Proof.
  intros (_ & _ & Ht)%reachable_ok Hrun.
  assert (pids_fresh s → 0 < nextpid s ∧ ∀ j x, procs s !! j = Some x → live x → p_pid x ≠ nextpid s) as Hfresh.
  { intros (_ & _ & Hw)%pids_fresh_ok. split; [by apply (tb_npid _ _ _ _ _ Hw)|]. intros j x Hx Lx.
    destruct (tb_procs _ _ _ _ _ Hw j x Hx) as [_ Hb]. specialize (Hb I Lx). lia. }
  revert Hfresh. generalize (pids_fresh s). intros NW Hfresh. destruct s as [k l c b1 b2 n ini t f]. simpl in *.
  apply running_proc in Hrun as (p & Hp & Hr & _).
  eapply fork_effect; [apply Ht|done|congruence|by left| |].
  - intros i x k' q Hx Hu Hq. right. exists i, x, q. tauto.
  - intros i x k' f' q Hx Hu Hq _. right. exists i, x, q. tauto.
Qed.
Lemma fork_makes_child_witness :
  wlp (fork (L := Example.layout) (FO := Example.files) 0) Example.user (λ r s',
    (r = -1 ∧ procs s' = procs Example.user) ∨
    ∃ i p q, procs Example.user !! i = Some p ∧ p_state p = UNUSED ∧ procs s' = <[i := q]> (procs Example.user) ∧
      (r = -1 ∧ unused_proc q ∨ r = nextpid Example.user ∧ child_of 0 r p q ∧
        (pids_fresh (L := Example.layout) (FO := Example.files) Example.user →
         0 < r ∧ ∀ j x, procs Example.user !! j = Some x → live x → p_pid x ≠ r))) ∧
  pids_fresh (L := Example.layout) (FO := Example.files) Example.user ∧
  match fork (L := Example.layout) (FO := Example.files) 0 Example.user with Ok (r, _) => r = 2 | _ => False end.
Proof.
  split; [|split; [apply example_fresh|by vm_compute]].
  apply (fork_makes_child (L := Example.layout) (FO := Example.files) Example.user 0%nat CUser); apply example_user.
Defined.

(** C38: After [exit] the process is a zombie with its status, its children belong
    to [init] and the other processes have the parent they had, its parent does
    not sleep in [wait], nor does [init] if it has
    got a child. *)
Theorem exit_leaves_zombie `{L : Layout} {F : Type} `{FO : Files F} (s : pst F) me kc st : reachable s → running s me kc →
  wlp (exit me st) s (λ _ s', ∃ p, procs s !! me = Some p ∧ initproc s ≠ Some me ∧
    (∃ q, procs s' !! me = Some q ∧ p_state q = ZOMBIE ∧ p_xstate q = st ∧ p_pid q = p_pid p) ∧
    (∀ i q x, procs s' !! i = Some q → procs s !! i = Some x → i ≠ me →
       p_parent q = if decide (p_parent x = Some me) then initproc s else p_parent x) ∧
    (∀ i q, procs s' !! i = Some q → i ≠ me → p_parent p = Some i → p_chan q = ChProc i → p_state q ≠ SLEEPING) ∧
    (∀ i q j x, procs s' !! i = Some q → i ≠ me → initproc s = Some i → procs s !! j = Some x → p_parent x = Some me →
       p_chan q = ChProc i → p_state q ≠ SLEEPING)).
Proof.
  intros (_ & _ & Ht)%reachable_ok Hrun. destruct s as [k l c b1 b2 n ini t f]. simpl in *.
  apply running_proc in Hrun as (p & Hp & Hr & _).
  eapply exit_effect; [apply Ht|done|]. intros l' f' Hini (Hlen & Hall & Hkids & Hpar). simpl.
  exists p. split; [done|]. split; [done|]. split_and!.
  - destruct (Hall me p Hp) as (q & Hq & Z). rewrite decide_True in Z by done. exists q. tauto.
  - intros i q x Hi Hx Hne. destruct (Hall i x Hx) as (y & Hy & W). rewrite decide_False in W by done. simplify_eq.
    assert (p_parent q = p_parent (adopt me ini x)) as -> by (by destruct W as [->|[_ ->]]).
    unfold adopt. by case_decide.
  - intros i q Hi Hne Hpp Hch. eapply Hpar; [done|done|].
    assert (p_parent p ≠ Some me) as Hself by congruence. unfold adopt. rewrite decide_False by done. by rewrite Hpp.
  - intros i q j x Hi Hne -> Hj Hx Hch. eapply Hkids; [eauto|done|done|done].
Qed.
Lemma exit_leaves_zombie_witness : (wlp (exit (FO := Example.files) 1 7) Example.two (λ _ s', ∃ p,
    procs Example.two !! 1%nat = Some p ∧ initproc Example.two ≠ Some 1%nat ∧
    (∃ q, procs s' !! 1%nat = Some q ∧ p_state q = ZOMBIE ∧ p_xstate q = 7 ∧ p_pid q = p_pid p) ∧
    (∀ i q x, procs s' !! i = Some q → procs Example.two !! i = Some x → i ≠ 1%nat →
       p_parent q = if decide (p_parent x = Some 1%nat) then initproc Example.two else p_parent x) ∧
    (∀ i q, procs s' !! i = Some q → i ≠ 1%nat → p_parent p = Some i → p_chan q = ChProc i → p_state q ≠ SLEEPING) ∧
    (∀ i q j x, procs s' !! i = Some q → i ≠ 1%nat → initproc Example.two = Some i → procs Example.two !! j = Some x →
       p_parent x = Some 1%nat → p_chan q = ChProc i → p_state q ≠ SLEEPING))) ∧
  Example.ended (exit (FO := Example.files) 1 7 Example.two) = true.
Proof.
  split; [|by vm_compute].
  apply (exit_leaves_zombie (L := Example.layout) (FO := Example.files) Example.two 1%nat CUser 7); apply example_two.
Defined.

(** [kill(0)] finds an unused slot, whose pid is 0, and marks it killed; the
    next child is created in that slot and is killed before it runs. *)
Lemma kill_zero_kills_next_child :
  reachable (L := Example.layout) (FO := Example.files) Example.user ∧ running Example.user 0 CUser ∧
  match kill (F := unit) 0 Example.user with
  | Ok (r, s) => r = 0 ∧
      match fork (L := Example.layout) (FO := Example.files) 0 s with
      | Ok (pid, s') => pid = 2 ∧ (p_state <$> procs s' !! 1%nat) = Some RUNNABLE ∧ (p_killed <$> procs s' !! 1%nat) = Some 1
      | _ => False
      end
  | _ => False
  end.
Proof. split; [apply example_user|]. split; [apply example_user|]. vm_compute. auto. Qed.
