(* ===== verification/Pipe.v ===== *)
(** kernel/pipe.c: the ring buffer of a pipe, and the turns of its writers and
    readers between two sleeps, against a queue of bytes. *)
From S2P Require Import Prelude.

(** ** Definitions *)

Definition PIPESIZE : Z := 512.

Record pipe := Pipe { pi_data : list Z; pi_nread : Z; pi_nwrite : Z; pi_readopen : bool; pi_writeopen : bool }.

(** What is woken: the readers or the writers. *)
Inductive pchan := Nread | Nwrite.

(** A pipe with its lock, and the wakeups done so far. *)
Record pipest := PipeSt { pi : pipe; pi_lock : bool; pi_woken : list pchan }.

Definition acquire_pipe : M pipest unit := λ s,
  if pi_lock s then Panic "acquire" else Ok (tt, PipeSt (pi s) true (pi_woken s)).
Definition release_pipe : M pipest unit := λ s,
  if pi_lock s then Ok (tt, PipeSt (pi s) false (pi_woken s)) else Panic "release".
Definition upd_pipe (f : pipe → pipe) : M pipest unit := modify (λ s, PipeSt (f (pi s)) (pi_lock s) (pi_woken s)).
Definition wakeup_pipe (c : pchan) : M pipest unit := modify (λ s, PipeSt (pi s) (pi_lock s) (pi_woken s ++ [c])).

(** The pipe [pipealloc] makes of a page: its data is what the page holds. *)
Definition new_pipe (page : list Z) : pipe := Pipe page 0 0 true true.

(** [pipeclose]; true when the page of the pipe is freed. *)
Definition pipeclose (writable : bool) : M pipest bool :=
  acquire_pipe;;
  (if writable then
     upd_pipe (λ p, Pipe (pi_data p) (pi_nread p) (pi_nwrite p) (pi_readopen p) false);;
     wakeup_pipe Nread
   else
     upd_pipe (λ p, Pipe (pi_data p) (pi_nread p) (pi_nwrite p) false (pi_writeopen p));;
     wakeup_pipe Nwrite);;
  p ← gets pi;
  release_pipe;;
  mret (negb (pi_readopen p) && negb (pi_writeopen p)).

(** [pi->data[pi->nwrite++ % PIPESIZE] = ch] and [pi->data[pi->nread++ % PIPESIZE]]. *)
Definition put_byte (ch : Z) (p : pipe) : pipe :=
  Pipe (<[Z.to_nat (pi_nwrite p mod PIPESIZE) := ch]> (pi_data p)) (pi_nread p) (u32 (pi_nwrite p + 1))
    (pi_readopen p) (pi_writeopen p).
Definition next_byte (p : pipe) : Z := default 0 (pi_data p !! Z.to_nat (pi_nread p mod PIPESIZE)).
Definition drop_byte (p : pipe) : pipe :=
  Pipe (pi_data p) (u32 (pi_nread p + 1)) (pi_nwrite p) (pi_readopen p) (pi_writeopen p).

(** How a turn of [pipewrite] ends: with a result, or asleep on [nwrite]
    after [i] bytes. *)
Inductive wturn := WDone (r : Z) | WSleep (i : Z).

(** The loop of [pipewrite] from byte [i] on, with the lock held: [fetch a]
    is the user's byte at [a], if [copyin] finds it; [killed] is the flag of
    the process. *)
Definition pipewrite_loop (fetch : Z → option Z) (killed : bool) (addr n i : Z) : M pipest wturn :=
  r ← while_ (S (Z.to_nat (n - i)))
    (λ i,
      if negb (i <? n) then mret (inr (inr i))
      else
        p ← gets pi;
        if negb (pi_readopen p) || killed then release_pipe;; mret (inr (inl (WDone (-1))))
        else if pi_nwrite p =? u32 (pi_nread p + PIPESIZE) then
          wakeup_pipe Nread;; release_pipe;; mret (inr (inl (WSleep i)))
        else
          match fetch (addr + i) with
          | None => mret (inr (inr i))
          | Some ch => upd_pipe (put_byte ch);; mret (inl (i + 1))
          end)
    i;
  match r with
  | inl w => mret w
  | inr i => wakeup_pipe Nread;; release_pipe;; mret (WDone i)
  end.

(** A turn of [pipewrite]: from its call ([i = 0]), or from the sleep it was
    woken from. *)
Definition pipewrite (fetch : Z → option Z) (killed : bool) (addr n i : Z) : M pipest wturn :=
  acquire_pipe;; pipewrite_loop fetch killed addr n i.

(** How a turn of [piperead] ends: with a result and the bytes copied out, or
    asleep on [nread]. *)
Inductive rturn := RDone (r : Z) (bytes : list Z) | RSleep.

(** The copy of [piperead]: [store a] tells whether [copyout] of a byte to
    the user's [a] works. *)
Definition piperead_copy (store : Z → bool) (addr n : Z) : M pipest (Z * list Z) :=
  while_ (S (Z.to_nat n))
    (λ '(i, bytes),
      if negb (i <? n) then mret (inr (i, bytes))
      else
        p ← gets pi;
        if pi_nread p =? pi_nwrite p then mret (inr (i, bytes))
        else
          let ch := next_byte p in
          upd_pipe drop_byte;;
          if negb (store (addr + i)) then mret (inr (i, bytes))
          else mret (inl (i + 1, bytes ++ [ch])))
    (0, []).

Definition piperead (store : Z → bool) (killed : bool) (addr n : Z) : M pipest rturn :=
  acquire_pipe;;
  p ← gets pi;
  if (pi_nread p =? pi_nwrite p) && pi_writeopen p then
    if killed then release_pipe;; mret (RDone (-1) [])
    else release_pipe;; mret RSleep
  else
    r ← piperead_copy store addr n;
    wakeup_pipe Nwrite;;
    release_pipe;;
    mret (RDone (fst r) (snd r)).

(** *** The queue *)

(** A pipe's counters may wrap around; what is between them is a queue. *)
Definition plen (p : pipe) : Z := u32 (pi_nwrite p - pi_nread p).
Definition queue (p : pipe) : list Z :=
  (λ j, default 0 (pi_data p !! Z.to_nat ((pi_nread p + j) mod PIPESIZE))) <$> seqZ 0 (plen p).
Definition pipe_ok (p : pipe) : Prop :=
  length (pi_data p) = Z.to_nat PIPESIZE ∧ 0 ≤ pi_nread p < 2 ^ 32 ∧ 0 ≤ pi_nwrite p < 2 ^ 32 ∧ plen p ≤ PIPESIZE.

(** *** A pipe between its processes *)

(** The history: what the writers' turns took from their buffers, and what
    the readers' turns delivered. *)
Record history := History { h_pipe : pipest; h_in : list Z; h_out : list Z }.

(** The bytes of a buffer at [addr] from [i] to [j]. *)
Definition buffer (fetch : Z → option Z) (addr i j : Z) : list Z :=
  (λ k, default 0 (fetch (addr + k))) <$> seqZ i (j - i).
Definition stop (w : wturn) (p p' : pipe) (i : Z) : Z := i + (plen p' - plen p).

Inductive hstep (h : history) : history → Prop :=
| h_write fetch killed addr n i w s' : 0 ≤ i → pipewrite fetch killed addr n i (h_pipe h) = Ok (w, s') →
    hstep h (History s' (h_in h ++ buffer fetch addr i (stop w (pi (h_pipe h)) (pi s') i)) (h_out h))
| h_read store killed addr n r bytes s' : (∀ a, store a = true) → piperead store killed addr n (h_pipe h) = Ok (RDone r bytes, s') →
    hstep h (History s' (h_in h) (h_out h ++ bytes))
| h_wait store killed addr n s' : piperead store killed addr n (h_pipe h) = Ok (RSleep, s') → hstep h (History s' (h_in h) (h_out h))
| h_close wr b s' : pipeclose wr (h_pipe h) = Ok (b, s') → hstep h (History s' (h_in h) (h_out h)).

Definition fresh_history (page : list Z) : history := History (PipeSt (new_pipe page) false []) [] [].

(** ** Lemmas *)

Lemma plen_range p : 0 ≤ plen p < 2 ^ 32.
Proof. apply u32_range. Qed.

Lemma length_queue p : Z.of_nat (length (queue p)) = plen p.
Proof. unfold queue. rewrite length_fmap, length_seqZ. pose proof (plen_range p). lia. Qed.

Lemma full_iff p : pipe_ok p → pi_nwrite p = u32 (pi_nread p + PIPESIZE) ↔ plen p = PIPESIZE.
Proof. unfold pipe_ok, plen, PIPESIZE, u32. intros (_ & H1 & H2 & H3). split; intros E; div_lia. Qed.
Lemma empty_iff p : pipe_ok p → pi_nread p = pi_nwrite p ↔ plen p = 0.
Proof. unfold pipe_ok, plen, PIPESIZE, u32. intros (_ & H1 & H2 & H3). split; intros E; div_lia. Qed.

Lemma put_byte_ok ch p : pipe_ok p → plen p < PIPESIZE → pipe_ok (put_byte ch p) ∧ plen (put_byte ch p) = plen p + 1 ∧
  queue (put_byte ch p) = queue p ++ [ch].
Proof.
  intros (H1 & H2 & H3 & H4) Hlt. pose proof (plen_range p) as Hr.
  assert (plen (put_byte ch p) = plen p + 1) as El by (unfold plen, put_byte, PIPESIZE, u32 in *; simpl; div_lia).
  split; [|split; [done|]].
  - split; [unfold put_byte; simpl; by rewrite length_insert|]. split; [done|]. split; [apply u32_range|lia].
  - assert (Z.to_nat ((pi_nread p + plen p) mod PIPESIZE) = Z.to_nat (pi_nwrite p mod PIPESIZE)) as Ew.
    { f_equal. unfold plen, PIPESIZE, u32 in *. div_lia. }
    unfold queue at 1. rewrite El, seqZ_app, fmap_app by lia. f_equal.
    + unfold queue. apply list_fmap_ext. intros k j Hj. apply lookup_seqZ in Hj as [-> Hk]. simpl. f_equal.
      apply list_lookup_insert_ne. unfold plen, PIPESIZE, u32 in *. div_lia.
    + rewrite Z.add_0_l. assert (seqZ (plen p) 1 = [plen p]) as -> by done. simpl. rewrite Ew. rewrite list_lookup_insert_eq; [done|].
      rewrite H1. unfold PIPESIZE. div_lia.
Qed.

Lemma drop_byte_ok p : pipe_ok p → 0 < plen p → pipe_ok (drop_byte p) ∧ plen (drop_byte p) = plen p - 1 ∧
  queue p = next_byte p :: queue (drop_byte p).
Proof.
  intros (H1 & H2 & H3 & H4) Hlt. pose proof (plen_range p) as Hr.
  assert (plen (drop_byte p) = plen p - 1) as El by (unfold plen, drop_byte, PIPESIZE, u32 in *; simpl; div_lia).
  split; [|split; [done|]].
  - split; [done|]. split; [apply u32_range|]. split; [done|lia].
  - unfold queue. rewrite El. rewrite (seqZ_cons 0 (plen p)) by lia. simpl. rewrite Z.add_0_r. f_equal.
    rewrite <- (fmap_add_seqZ 1 0). rewrite <- list_fmap_compose.
    replace (Z.pred (plen p)) with (plen p - 1) by lia. apply list_fmap_ext. intros k j Hj. apply lookup_seqZ in Hj as [-> Hk]. simpl. do 3 f_equal.
    unfold plen, PIPESIZE, u32 in *. div_lia.
Qed.

(** *** Turns *)

Lemma buffer_snoc fetch addr i j : i ≤ j → buffer fetch addr i (j + 1) = buffer fetch addr i j ++ [default 0 (fetch (addr + j))].
Proof.
  intros Hij. unfold buffer. replace (j + 1 - i) with ((j - i) + 1) by lia. rewrite seqZ_app, fmap_app by lia. f_equal.
  replace (i + (j - i)) with j by lia. assert (seqZ j 1 = [j]) as -> by (unfold seqZ; simpl; f_equal; lia). done.
Qed.

Lemma buffer_nil fetch addr i : buffer fetch addr i i = [].
Proof. unfold buffer. by rewrite Z.sub_diag. Qed.

Lemma wp_acquire_pipe s (Q : unit → pipest → Prop) : pi_lock s = false → Q tt (PipeSt (pi s) true (pi_woken s)) → wp acquire_pipe s Q.
Proof. unfold wp, acquire_pipe. by intros ->. Qed.
Lemma wp_release_pipe p w (Q : unit → pipest → Prop) : Q tt (PipeSt p false w) → wp release_pipe (PipeSt p true w) Q.
Proof. done. Qed.

(** What a turn of a writer did, [j] bytes in: it appended bytes [i] to [j]
    of the buffer; it stops for a closed reader or a kill, for the end or a
    bad address, or because the pipe is full. *)
Definition wrote (fetch : Z → option Z) (killed : bool) (addr n i : Z) (s : pipest) (w : wturn) (s' : pipest) : Prop :=
  pi_lock s' = false ∧ pipe_ok (pi s') ∧ pi_readopen (pi s') = pi_readopen (pi s) ∧ pi_writeopen (pi s') = pi_writeopen (pi s) ∧
  ∃ j, i ≤ j ∧ (i < j → j ≤ n) ∧ (∀ k, i ≤ k < j → is_Some (fetch (addr + k))) ∧
    queue (pi s') = queue (pi s) ++ buffer fetch addr i j ∧
    match w with
    | WSleep j' => j' = j ∧ j < n ∧ plen (pi s') = PIPESIZE ∧ pi_readopen (pi s) = true ∧ killed = false ∧
        pi_woken s' = pi_woken s ++ [Nread]
    | WDone r =>
        (r = -1 ∧ j = i ∧ i < n ∧ (pi_readopen (pi s) = false ∨ killed = true) ∧ pi_woken s' = pi_woken s) ∨
        (r = j ∧ (n ≤ j ∨ fetch (addr + j) = None) ∧ pi_woken s' = pi_woken s ++ [Nread])
    end.

Lemma pipewrite_ok fetch killed addr n i s : pi_lock s = false → pipe_ok (pi s) →
  wp (pipewrite fetch killed addr n i) s (wrote fetch killed addr n i s).
Proof.
  destruct s as [p l w]. simpl. intros -> Hok. unfold pipewrite. wp_steps. apply wp_acquire_pipe; [done|]. simpl.
  unfold pipewrite_loop. wp_steps.
  apply (wp_while (λ j σ, i ≤ j ∧ (i < j → j ≤ n ∧ pi_readopen p = true ∧ killed = false) ∧ (∀ k, i ≤ k < j → is_Some (fetch (addr + k))) ∧
      ∃ q, σ = PipeSt q true w ∧ pipe_ok q ∧ pi_readopen q = pi_readopen p ∧ pi_writeopen q = pi_writeopen p ∧
        queue q = queue p ++ buffer fetch addr i j) (λ j, Z.to_nat (n - j))).
  2: { split; [lia|]. split; [lia|]. split; [intros; lia|]. exists p. by rewrite buffer_nil, app_nil_r. }
  2: lia.
  intros j _ (Hij & Hjn & Hf & q & -> & Hq & Eo & Ew & Eq). case_if.
  { wp_steps. unfold wakeup_pipe. wp_steps. simpl. apply wp_release_pipe. wp_steps.
    split; [done|]. split; [done|]. split; [done|]. split; [done|]. exists j. simpl.
    split; [lia|]. split; [intros Hlt; apply Hjn, Hlt|]. split; [done|]. split; [done|]. right. split_and!; [done|by left|done]. }
  wp_steps. simpl. rewrite Eo. destruct (negb (pi_readopen p) || killed) eqn:Ek.
  { wp_steps. apply wp_release_pipe. wp_steps.
    assert (pi_readopen p = false ∨ killed = true) as Hk by (by destruct (pi_readopen p), killed; auto).
    assert (i = j) as -> by (destruct (decide (i = j)); [done|]; destruct (Hjn ltac:(lia)) as (_ & R1 & R2); destruct Hk; congruence).
    split; [done|]. split; [done|]. split; [done|]. split; [done|]. exists j. simpl.
    split; [lia|]. split; [lia|]. split; [done|]. split; [done|]. by left. }
  apply orb_false_iff in Ek as [Ek ->]. apply negb_false_iff in Ek. case_if.
  - apply full_iff in Heqb0; [|done]. unfold wakeup_pipe. wp_steps. simpl. apply wp_release_pipe. wp_steps.
    split; [done|]. split; [done|]. split; [done|]. split; [done|]. exists j. simpl.
    split; [lia|]. split; [lia|]. split; [done|]. split; [done|]. split_and!; try done; lia.
  - assert (plen q < PIPESIZE) as Hlt.
    { assert (plen q ≠ PIPESIZE) by (intros E; by apply full_iff in E). destruct Hq as (_ & _ & _ & ?). lia. }
    destruct (fetch (addr + j)) as [ch|] eqn:Ef.
    + unfold upd_pipe. wp_steps. simpl. destruct (put_byte_ok ch q Hq Hlt) as (P1 & P2 & P3). split; [|lia].
      split; [lia|]. split; [intros; split_and!; [lia|done|done]|]. split.
      { intros k Hk. destruct (decide (k = j)) as [->|]; [by rewrite Ef|apply Hf; lia]. }
      exists (put_byte ch q). split_and!; try done. rewrite P3, Eq, buffer_snoc, Ef by lia. simpl. by rewrite app_assoc.
    + wp_steps. unfold wakeup_pipe. wp_steps. simpl. apply wp_release_pipe. wp_steps.
      split; [done|]. split; [done|]. split; [done|]. split; [done|]. exists j. simpl.
      split; [lia|]. split; [intros Hlt'; apply Hjn, Hlt'|]. split; [done|]. split; [done|]. right. auto.
Qed.

(** What a turn of a reader did: it slept on an empty pipe with a writer, was
    killed there, or took bytes off the front, as many as asked for, as the
    pipe had or as the buffer could take. *)
Definition did_read (store : Z → bool) (killed : bool) (addr n : Z) (s : pipest) (r : rturn) (s' : pipest) : Prop :=
  pi_lock s' = false ∧ pipe_ok (pi s') ∧ pi_readopen (pi s') = pi_readopen (pi s) ∧ pi_writeopen (pi s') = pi_writeopen (pi s) ∧
  match r with
  | RSleep => queue (pi s) = [] ∧ pi s' = pi s ∧ pi_writeopen (pi s) = true ∧ killed = false ∧ pi_woken s' = pi_woken s
  | RDone m bytes =>
      (m = -1 ∧ bytes = [] ∧ queue (pi s) = [] ∧ pi s' = pi s ∧ pi_writeopen (pi s) = true ∧ killed = true ∧ pi_woken s' = pi_woken s) ∨
      m = Z.of_nat (length bytes) ∧ pi_woken s' = pi_woken s ++ [Nwrite] ∧
      (queue (pi s) = bytes ++ queue (pi s') ∧ m = Z.min (Z.max 0 n) (plen (pi s)) ∨
       m < n ∧ store (addr + m) = false ∧ ∃ lost, queue (pi s) = bytes ++ lost :: queue (pi s'))
  end.

Lemma piperead_ok store killed addr n s : pi_lock s = false → pipe_ok (pi s) →
  wp (piperead store killed addr n) s (did_read store killed addr n s).
Proof.
  destruct s as [p l w]. simpl. intros -> Hok. unfold piperead. wp_steps. apply wp_acquire_pipe; [done|]. wp_steps. simpl.
  assert (pi_nread p = pi_nwrite p → queue p = []) as Hemp.
  { intros E. apply empty_iff in E; [|done]. unfold queue. by rewrite E. }
  destruct ((pi_nread p =? pi_nwrite p) && pi_writeopen p) eqn:E.
  { apply andb_true_iff in E as [E Ew]. bool_prop. destruct killed; wp_steps; apply wp_release_pipe; wp_steps.
    - repeat (split; [done|]). left. split_and!; auto.
    - repeat (split; [done|]). split_and!; auto. }
  clear E. wp_steps. unfold piperead_copy.
  apply (wp_while (λ '(i, bytes) σ, 0 ≤ i ∧ (0 < i → i ≤ n) ∧ i = Z.of_nat (length bytes) ∧
      ∃ q, σ = PipeSt q true w ∧ pipe_ok q ∧ pi_readopen q = pi_readopen p ∧ pi_writeopen q = pi_writeopen p ∧
        queue p = bytes ++ queue q) (λ '(i, _), Z.to_nat (n - i))).
  2: { split; [lia|]. split; [lia|]. split; [done|]. exists p. done. }
  2: lia.
  intros [i bytes] _ (Hi & Hn & Hl & q & -> & Hq & Eo & Ew & Eq).
  assert (plen p = i + plen q) as Hpl by (rewrite <- !length_queue, Eq, length_app; lia). pose proof (plen_range q) as Hpq.
  case_if.
  { wp_steps. unfold wakeup_pipe. wp_steps. simpl. apply wp_release_pipe. wp_steps. repeat (split; [done|]). right.
    split; [done|]. split; [done|]. left. simpl. split; [done|lia]. }
  wp_steps. simpl. case_if.
  { apply empty_iff in Heqb0; [|done]. wp_steps. unfold wakeup_pipe. wp_steps. simpl. apply wp_release_pipe. wp_steps.
    repeat (split; [done|]). right. split; [done|]. split; [done|]. left. simpl. split; [done|lia]. }
  assert (0 < plen q) as Hpos by (assert (plen q ≠ 0) by (intros E; by apply empty_iff in E); lia).
  destruct (drop_byte_ok q Hq Hpos) as (D1 & D2 & D3). unfold upd_pipe. wp_steps. simpl. case_if.
  - wp_steps. unfold wakeup_pipe. wp_steps. simpl. apply wp_release_pipe. wp_steps. repeat (split; [done|]). right.
    split; [done|]. split; [done|]. right. simpl. split; [lia|]. split; [done|]. exists (next_byte q). by rewrite Eq, D3.
  - wp_steps. split; [|lia]. split; [lia|]. split; [lia|]. split; [rewrite length_app; simpl; lia|].
    exists (drop_byte q). split_and!; try done. by rewrite Eq, D3, <- app_assoc.
Qed.

Lemma pipeclose_ok wr s : pi_lock s = false → pipe_ok (pi s) → wp (pipeclose wr) s (λ b s', pi_lock s' = false ∧ pipe_ok (pi s') ∧
  queue (pi s') = queue (pi s)).
Proof. destruct s as [p l w]. simpl. intros -> Hok. by destruct wr. Qed.

(** *** Histories *)

Lemma hstep_fifo h h' : hstep h h' →
  pi_lock (h_pipe h) = false → pipe_ok (pi (h_pipe h)) → h_in h = h_out h ++ queue (pi (h_pipe h)) →
  pi_lock (h_pipe h') = false ∧ pipe_ok (pi (h_pipe h')) ∧ h_in h' = h_out h' ++ queue (pi (h_pipe h')).
Proof.
  intros Hs Hl Hok Hin. destruct Hs as [fetch killed addr n i w s' Hi E|store killed addr n r bytes s' Hst E|store killed addr n s' E|wr b s' E]; simpl.
  - pose proof (pipewrite_ok fetch killed addr n i (h_pipe h) Hl Hok) as W. unfold wp in W. rewrite E in W.
    destruct W as (W1 & W2 & _ & _ & j & Hij & _ & _ & Eq & _). split_and!; [done|done|].
    assert (stop w (pi (h_pipe h)) (pi s') i = j) as ->.
    { unfold stop. rewrite <- !length_queue, Eq, length_app. unfold buffer. rewrite length_fmap, length_seqZ. lia. }
    by rewrite Eq, Hin, app_assoc.
  - pose proof (piperead_ok store killed addr n (h_pipe h) Hl Hok) as W. unfold wp in W. rewrite E in W.
    destruct W as (W1 & W2 & _ & _ & W). split_and!; [done|done|]. rewrite Hin, <- app_assoc. f_equal.
    destruct W as [(_ & -> & _ & -> & _)|(_ & _ & [[W _]|(_ & W & _)])]; [done|done|congruence].
  - pose proof (piperead_ok store killed addr n (h_pipe h) Hl Hok) as W. unfold wp in W. rewrite E in W.
    destruct W as (W1 & W2 & _ & _ & _ & W & _). by rewrite W in *.
  - pose proof (pipeclose_ok wr (h_pipe h) Hl Hok) as W. unfold wp in W. rewrite E in W. destruct W as (W1 & W2 & W3). by rewrite W3.
Qed.

Lemma histories_fifo page h : length page = Z.to_nat PIPESIZE → rtc hstep (fresh_history page) h →
  pi_lock (h_pipe h) = false ∧ pipe_ok (pi (h_pipe h)) ∧ h_in h = h_out h ++ queue (pi (h_pipe h)).
Proof.
  intros Hp. apply (rtc_ind_r (λ h, pi_lock (h_pipe h) = false ∧ pipe_ok (pi (h_pipe h)) ∧ h_in h = h_out h ++ queue (pi (h_pipe h))) (fresh_history page)).
  - split; [done|]. split; [|done]. split_and!; done.
  - intros h1 h2 _ Hs (H1 & H2 & H3). by eapply hstep_fifo.
Qed.

(** ** Properties *)

(** C11: A pipe is a queue, when every copy of a read to user memory succeeds (a
    failed one loses the byte it was for): whatever its writers and readers do,
    in whatever order and however often its counters wrap around, the bytes
    delivered followed by those in the buffer are the bytes written, in order;
    the buffer never holds more than [PIPESIZE]. *)
Theorem pipe_fifo page h : length page = Z.to_nat PIPESIZE → rtc hstep (fresh_history page) h →
  h_in h = h_out h ++ queue (pi (h_pipe h)) ∧ Z.of_nat (length (queue (pi (h_pipe h)))) ≤ PIPESIZE.
Proof.
  intros Hp Hr. destruct (histories_fifo page h Hp Hr) as (_ & Hok & E). split; [done|]. rewrite length_queue. apply Hok.
Qed.
Lemma pipe_fifo_witness : ∃ h, h_out h = [7; 8] ∧ h_in h = h_out h ++ queue (pi (h_pipe h)) ∧
  Z.of_nat (length (queue (pi (h_pipe h)))) ≤ PIPESIZE.
Proof.
  set (fetch := λ a, if decide (a < 3) then Some (a + 7) else None).
  eexists (History _ _ _). split; [|apply (pipe_fifo (replicate 512 0)); [done|]].
  2: { eapply rtc_l; [eapply (h_write _ fetch false 0 3 0); [lia|vm_compute; reflexivity]|].
       eapply rtc_l; [eapply (h_read _ (λ _, true) false 0 2); [done|vm_compute; reflexivity]|]. apply rtc_refl. }
  vm_compute. reflexivity.
Defined.
