(* ===== verification/Ftable.v ===== *)
(** kernel/file.c: the table of open files over pipes, devices and the file
    system, and [pipealloc] of kernel/pipe.c. *)
From S2P Require Import Prelude Bytes Bio Txn TxnOps Fs Pipe.

(** ** Definitions *)

Definition NFILE : Z := 100.
Definition NDEV : Z := 10.

Inductive ftype := FD_NONE | FD_PIPE | FD_INODE | FD_DEVICE.
Global Instance ftype_eq_dec : EqDecision ftype.
Proof. solve_decision. Defined.

(** [struct file]; the pipe is a name of it, the inode its index in the table. *)
Record file := File {
  f_type : ftype; f_ref : Z; f_readable : bool; f_writable : bool; f_pipe : nat; f_ip : nat; f_off : Z; f_major : Z
}.
Definition set_fref (r : Z) (f : file) : file :=
  File (f_type f) r (f_readable f) (f_writable f) (f_pipe f) (f_ip f) (f_off f) (f_major f).
Definition set_ftype (t : ftype) (f : file) : file :=
  File t (f_ref f) (f_readable f) (f_writable f) (f_pipe f) (f_ip f) (f_off f) (f_major f).
Definition set_foff (o : Z) (f : file) : file :=
  File (f_type f) (f_ref f) (f_readable f) (f_writable f) (f_pipe f) (f_ip f) o (f_major f).
Definition null_file : file := File FD_NONE 0 false false 0 0 0 0.

(** How a turn of a read or a write ends: with a result and the bytes copied
    to the user, or asleep after [i] bytes. *)
Inductive fturn := FDone (r : Z) (bytes : list Z) | FSleep (i : Z).

(** The devices of [devsw]: their read and write, given what user copies work
    and the user's bytes. *)
Class Devices (D : Type) := {
  dev_read : Z → option ((Z → bool) → Z → Z → M D fturn);
  dev_write : Z → option ((Z → option Z) → Z → Z → M D fturn)
}.

Section file.
Context {St : Type} `{OP : Ops St} {D : Type} `{DV : Devices D}.
(** The page that the [n]-th [kalloc] for a pipe gets, if any. *)
Context (kpage : nat → option (list Z)).

(** [ftable], the pipes by name, the calls of [kalloc] so far, the file system
    and the devices. *)
Record fworld := FW {
  w_lock : bool; w_files : list file; w_pipes : gmap nat pipest; w_pages : nat; w_fs : St * fsst; w_dev : D
}.
Definition set_wlock (l : bool) (w : fworld) : fworld := FW l (w_files w) (w_pipes w) (w_pages w) (w_fs w) (w_dev w).
Definition set_wfiles (l : list file) (w : fworld) : fworld := FW (w_lock w) l (w_pipes w) (w_pages w) (w_fs w) (w_dev w).
Definition set_wpipes (m : gmap nat pipest) (w : fworld) : fworld := FW (w_lock w) (w_files w) m (w_pages w) (w_fs w) (w_dev w).
Definition set_wpages (n : nat) (w : fworld) : fworld := FW (w_lock w) (w_files w) (w_pipes w) n (w_fs w) (w_dev w).
Definition set_wfs (s : St * fsst) (w : fworld) : fworld := FW (w_lock w) (w_files w) (w_pipes w) (w_pages w) s (w_dev w).
Definition set_wdev (d : D) (w : fworld) : fworld := FW (w_lock w) (w_files w) (w_pipes w) (w_pages w) (w_fs w) d.

Definition acquire_ft : M fworld unit := λ w, if w_lock w then Panic "acquire" else Ok (tt, set_wlock true w).
Definition release_ft : M fworld unit := λ w, if w_lock w then Ok (tt, set_wlock false w) else Panic "release".
Definition fileinit : M fworld unit := modify (set_wlock false).
Definition file_at (f : nat) : M fworld file := gets (λ w, default null_file (w_files w !! f)).
Definition upd_file (f : nat) (g : file → file) : M fworld unit := modify (λ w, set_wfiles (alter g f (w_files w)) w).
(** The layers below. *)
Definition fs_m {A} (m : M (St * fsst) A) : M fworld A := lift_m w_fs set_wfs m.
Definition dev_m {A} (m : M D A) : M fworld A := lift_m w_dev set_wdev m.
Definition pipe_m {A} (p : nat) (m : M pipest A) : M fworld A := λ w,
  match w_pipes w !! p with
  | None => Panic "no pipe"
  | Some q =>
      match m q with
      | Ok (a, q') => Ok (a, set_wpipes (<[p := q']> (w_pipes w)) w)
      | Panic e => Panic e
      | Diverge => Diverge
      end
  end.

(** The loop of [filealloc]. *)
Fixpoint find_file (l : list file) (i : nat) : option nat :=
  match l with
  | [] => None
  | f :: l' => if f_ref f =? 0 then Some i else find_file l' (S i)
  end.
Definition filealloc : M fworld (option nat) :=
  acquire_ft;;
  l ← gets w_files;
  match find_file l 0 with
  | Some f => upd_file f (set_fref 1);; release_ft;; mret (Some f)
  | None => release_ft;; mret None
  end.

Definition filedup (f : nat) : M fworld nat :=
  acquire_ft;;
  ff ← file_at f;
  if f_ref ff <? 1 then panic "filedup"
  else
    upd_file f (set_fref (f_ref ff + 1));;
    release_ft;;
    mret f.

(** [pipeclose]; the last one frees the page. *)
Definition close_pipe (p : nat) (writable : bool) : M fworld unit :=
  freed ← pipe_m p (pipeclose writable);
  if (freed : bool) then modify (λ w, set_wpipes (delete p (w_pipes w)) w) else mret tt.

Definition fileclose (f : nat) : M fworld unit :=
  acquire_ft;;
  ff ← file_at f;
  if f_ref ff <? 1 then panic "fileclose"
  else
    upd_file f (set_fref (f_ref ff - 1));;
    if f_ref ff - 1 >? 0 then release_ft
    else
      upd_file f (λ ff, set_ftype FD_NONE (set_fref 0 ff));;
      release_ft;;
      match f_type ff with
      | FD_PIPE => close_pipe (f_pipe ff) (f_writable ff)
      | FD_INODE | FD_DEVICE =>
          fs_m (tio op_begin);;
          fs_m (iput (f_ip ff));;
          fs_m (tio op_end)
      | FD_NONE => mret tt
      end.

(** [filestat]: the result, and the [struct stat] if it was copied out. *)
Definition filestat (f : nat) (ok : Z → Z → bool) (addr : Z) : M fworld (Z * option (Z * Z * Z * Z * Z)) :=
  ff ← file_at f;
  match f_type ff with
  | FD_INODE | FD_DEVICE =>
      fs_m (ilock (f_ip ff));;
      st ← fs_m (stati (f_ip ff));
      fs_m (iunlock (f_ip ff));;
      mret (if negb (ok addr 24) then (-1, None) else (0, Some st))
  | _ => mret (-1, None)
  end.

(** [fileread]: [ok] tells which user copies work, [killed] is the flag of the
    process. *)
Definition fileread (f : nat) (ok : Z → Z → bool) (killed : bool) (addr n : Z) : M fworld fturn :=
  ff ← file_at f;
  if negb (f_readable ff) then mret (FDone (-1) [])
  else
    match f_type ff with
    | FD_PIPE =>
        r ← pipe_m (f_pipe ff) (piperead (λ a, ok a 1) killed addr n);
        mret (match r with RDone r bytes => FDone r bytes | RSleep => FSleep 0 end)
    | FD_DEVICE =>
        if (f_major ff <? 0) || (f_major ff >=? NDEV) then mret (FDone (-1) [])
        else match dev_read (f_major ff) with
             | None => mret (FDone (-1) [])
             | Some rd => dev_m (rd (λ a, ok a 1) addr n)
             end
    | FD_INODE =>
        fs_m (ilock (f_ip ff));;
        ff ← file_at f;
        r ← fs_m (readi (f_ip ff) ok addr (f_off ff) (u32 n));
        (if fst r >? 0 then upd_file f (λ ff, set_foff (u32 (f_off ff + fst r)) ff) else mret tt);;
        fs_m (iunlock (f_ip ff));;
        mret (FDone (fst r) (snd r))
    | FD_NONE => panic "fileread"
    end.

(** How many bytes [filewrite] puts in one transaction. *)
Definition max_write : Z := ((MAXOPBLOCKS - 1 - 1 - 2) / 2) * BSIZE.
(** [fetch a] is the user's byte at [a], if it can be copied in: [copyin] stops
    at the first that cannot. *)
Fixpoint leading (fetch : Z → option Z) (a : Z) (n : nat) : Z :=
  match n with
  | O => 0
  | S n' => match fetch a with Some _ => 1 + leading fetch (a + 1) n' | None => 0 end
  end.
Definition copied (fetch : Z → option Z) (a m : Z) : Z := leading fetch a (Z.to_nat m).

(** The loop of [filewrite] on an inode. *)
Definition write_step (f : nat) (fetch : Z → option Z) (addr n : Z) (i : Z) : M fworld (Z + Z) :=
  if negb (i <? n) then mret (inr i)
  else
    let n1 := if n - i >? max_write then max_write else n - i in
    ff ← file_at f;
    fs_m (tio op_begin);;
    fs_m (ilock (f_ip ff));;
    ff ← file_at f;
    r ← fs_m (writei (f_ip ff) (copied fetch) (addr + i) (buffer fetch addr i (i + n1)) (f_off ff));
    (if r >? 0 then upd_file f (λ ff, set_foff (u32 (f_off ff + r)) ff) else mret tt);;
    fs_m (iunlock (f_ip ff));;
    fs_m (tio op_end);;
    mret (if negb (r =? n1) then inr i else inl (i + r)).

(** [filewrite], from its call or from the sleep of a pipe after [i] bytes. *)
Definition filewrite (f : nat) (fetch : Z → option Z) (killed : bool) (addr n i : Z) : M fworld fturn :=
  ff ← file_at f;
  if negb (f_writable ff) then mret (FDone (-1) [])
  else
    match f_type ff with
    | FD_PIPE =>
        r ← pipe_m (f_pipe ff) (pipewrite fetch killed addr n i);
        mret (match r with WDone r => FDone r [] | WSleep i => FSleep i end)
    | FD_DEVICE =>
        if (f_major ff <? 0) || (f_major ff >=? NDEV) then mret (FDone (-1) [])
        else match dev_write (f_major ff) with
             | None => mret (FDone (-1) [])
             | Some wr => dev_m (wr fetch addr n)
             end
    | FD_INODE =>
        i ← while_ (S (Z.to_nat n)) (write_step f fetch addr n) 0;
        mret (FDone (if i =? n then n else -1) [])
    | FD_NONE => panic "filewrite"
    end.

(** The page of a pipe, from [kalloc]. *)
Definition alloc_pipe : M fworld (option nat) := λ w,
  Ok (match kpage (w_pages w) with
      | None => (None, set_wpages (S (w_pages w)) w)
      | Some page => (Some (w_pages w), set_wpipes (<[w_pages w := PipeSt (new_pipe page) false []]> (w_pipes w)) (set_wpages (S (w_pages w)) w))
      end).
Definition pipe_file (p : nat) (wr : bool) (f : file) : file :=
  File FD_PIPE (f_ref f) (negb wr) wr p (f_ip f) (f_off f) (f_major f).

(** [pipealloc]: the files of the read end and of the write end. *)
Definition pipealloc : M fworld (option (nat * nat)) :=
  let bad := λ f0 f1 : option nat,
    (match f0 with Some f => fileclose f | None => mret tt end);;
    (match f1 with Some f => fileclose f | None => mret tt end);;
    mret None in
  f0 ← filealloc;
  match f0 with
  | None => bad None None
  | Some g0 =>
      f1 ← filealloc;
      match f1 with
      | None => bad f0 None
      | Some g1 =>
          pi ← alloc_pipe;
          match pi with
          | None => bad f0 f1
          | Some p =>
              upd_file g0 (pipe_file p false);;
              upd_file g1 (pipe_file p true);;
              mret (Some (g0, g1))
          end
      end
  end.
End file.
Arguments fworld : clear implicits.
