(* ===== verification/FtableProof.v ===== *)
(** [fileread] and [filewrite] on files of the file system: the bytes, the
    offset, and what is on the disk afterwards. *)
From S2P Require Import Prelude Bytes Bio Txn TxnOps Fs FsBlocks FsInode FsWrite FsFrame FsProps FsWriteProps Pipe Ftable.

(** ** Definitions *)

(** An inode that a file refers to, loaded and not locked. *)
Record open_inode (k : superblock) (v : gmap Z block) (n : inode) : Prop := {
  oi_dev : i_dev n = ROOTDEV;
  oi_inum : 0 ≤ i_inum n < sb_ninodes k;
  oi_ref : 1 ≤ i_ref n;
  oi_lock : i_lock n = false;
  oi_valid : i_valid n = true;
  oi_wf : file_wf k (blank v) n;
  oi_holes : no_holes (blank v) n
}.

(** The bytes [l] with [w] written over them from [off] on. *)
Definition splice (off : Z) (w l : list Z) : list Z :=
  take (Z.to_nat off) l ++ w ++ drop (Z.to_nat off + length w) l.

(** The files other than [n] have kept their blocks and bytes. *)
Definition others_kept (k : superblock) (v v' : gmap Z block) (n n' : inode) : Prop :=
  ∀ m, file_wf k (blank v) m → no_holes (blank v) m → apart (blank v) n m →
    fbytes (blank v') m = fbytes (blank v) m ∧ file_wf k (blank v') m ∧ no_holes (blank v') m ∧ apart (blank v') n' m.

(** ** Lemmas *)

(** *** Lists *)

Lemma splice_nil off l : splice off [] l = l.
Proof. unfold splice. simpl. by rewrite Nat.add_0_r, take_drop. Qed.

Lemma splice_splice off w c l : 0 ≤ off ≤ Z.of_nat (length l) →
  splice (off + Z.of_nat (length w)) c (splice off w l) = splice off (w ++ c) l.
Proof.
  intros Ho. unfold splice. assert (length (take (Z.to_nat off) l) = Z.to_nat off) as El by (rewrite length_take; lia).
  replace (Z.to_nat (off + Z.of_nat (length w))) with (Z.to_nat off + length w)%nat by lia.
  rewrite !(app_assoc (take _ _)). rewrite take_app_length' by (rewrite length_app; lia). rewrite <- !app_assoc. do 3 f_equal.
  rewrite length_app, (app_assoc (take _ _) w), drop_app_ge by (rewrite length_app; lia). rewrite drop_drop. f_equal. rewrite length_app. lia.
Qed.

Lemma take_buffer fetch addr i j m : i ≤ j → 0 ≤ m ≤ j - i → take (Z.to_nat m) (buffer fetch addr i j) = buffer fetch addr i (i + m).
Proof.
  intros Hij Hm. unfold buffer. rewrite <- fmap_take. f_equal. replace (j - i) with (m + (j - i - m)) by lia.
  rewrite seqZ_app by lia. replace (i + m - i) with m by lia. apply take_app_length'. rewrite length_seqZ. lia.
Qed.

Lemma buffer_app fetch addr i j l : i ≤ j → j ≤ l → buffer fetch addr i l = buffer fetch addr i j ++ buffer fetch addr j l.
Proof.
  intros Hij Hjl. unfold buffer. rewrite <- fmap_app. f_equal. replace (l - i) with ((j - i) + (l - j)) by lia.
  rewrite seqZ_app by lia. by replace (i + (j - i)) with j by lia.
Qed.

Lemma length_buffer fetch addr i j : i ≤ j → Z.of_nat (length (buffer fetch addr i j)) = j - i.
Proof. intros. unfold buffer. rewrite length_fmap, length_seqZ. lia. Qed.

Lemma leading_all fetch a n : (∀ a, is_Some (fetch a)) → leading fetch a n = Z.of_nat n.
Proof. intros Hf. revert a. induction n as [|n IH]; intros a; [done|]. simpl leading. destruct (Hf a) as [x ->]. rewrite IH. lia. Qed.
Lemma copied_all fetch a m : (∀ a, is_Some (fetch a)) → 0 < m → copied fetch a m = m.
Proof. intros Hf Hm. unfold copied. rewrite leading_all by done. lia. Qed.

Lemma file_wf_ilock k t n l : file_wf k t n → file_wf k t (set_ilock l n).
Proof. intros [H1 H2 H3]. split; [exact H1|exact H2|exact H3]. Qed.

Section files.
Context {St : Type} `{OP : Ops St, !TxnOk St, !OpsOk St} {D : Type} `{DV : Devices D}.
Local Notation fworld := (fworld St D).
Implicit Types (w : fworld).

Lemma wp_fs {A} (m : M (St * fsst) A) w (Q : A → fworld → Prop) :
  wp m (w_fs w) (λ a s, Q a (set_wfs s w)) → wp (fs_m m) w Q.
Proof. apply wp_lift. Qed.

Lemma wp_file_at f ff w (Q : file → fworld → Prop) : w_files w !! f = Some ff → Q ff w → wp (file_at f) w Q.
Proof. intros Hf HQ. unfold file_at, wp, gets. by rewrite Hf. Qed.

Lemma wp_upd_file f ff g w (Q : unit → fworld → Prop) : w_files w !! f = Some ff →
  Q tt (set_wfiles (<[f := g ff]> (w_files w)) w) → wp (upd_file f g) w Q.
Proof. intros Hf HQ. unfold upd_file, wp, modify. by rewrite (alter_insert _ _ _ _ Hf). Qed.

(** The log of the file system lies where the log layer has it. *)
Definition log_placed (k : superblock) : Prop := ∀ b, op_area (St := St) b → log_block k b.

(** [w'] is [w] after a write of [bytes] to the file [f], an open file of the
    inode at [ip]; the file was [n] on the disk [v] and is [n'] on [v']. *)
Record file_written (f ip : nat) w v n (bytes : list Z) w' v' n' : Prop := {
  fwr_world : ∃ s ff, w_files w !! f = Some ff ∧
    w' = set_wfs (s, put_inode ip n' (snd (w_fs w))) (set_wfiles (<[f := set_foff (f_off ff + Z.of_nat (length bytes)) ff]> (w_files w)) w) ∧
    f_off ff + Z.of_nat (length bytes) ≤ i_size n' ∧ i_size n' = i_size n `max` (f_off ff + Z.of_nat (length bytes)) ∧
    fbytes (blank v') n' = splice (f_off ff) bytes (fbytes (blank v) n) ∧ 0 ≤ f_off ff ≤ i_size n;
  fwr_inode : inodes (snd (w_fs w')) !! ip = Some n';
  fwr_idle : op_idle (fst (w_fs w')) v';
  fwr_disk : disk_ok (sb (snd (w_fs w'))) (blank v');
  fwr_open : open_inode (sb (snd (w_fs w'))) v' n';
  fwr_others : others_kept (sb (snd (w_fs w))) v v' n n'
}.

Lemma file_written_trans f ip w v n b1 w1 v1 n1 b2 w2 v2 n2 :
  file_written f ip w v n b1 w1 v1 n1 → file_written f ip w1 v1 n1 b2 w2 v2 n2 → file_written f ip w v n (b1 ++ b2) w2 v2 n2.
Proof.
  intros [(s1 & ff & F1 & W1 & O1 & S1 & B1 & H1) I1 _ _ _ K1] [(s2 & ff' & F2 & W2 & O2 & S2 & B2 & H2) I2 D2 X2 N2 K2].
  assert (length (w_files w) > f)%nat as Hlt by (by apply lookup_lt_Some in F1).
  rewrite W1 in F2. simpl in F2. rewrite list_lookup_insert_eq in F2 by done. injection F2 as <-. simpl in *.
  split; try done.
  - exists s2, ff. rewrite length_app, Nat2Z.inj_add, Z.add_assoc. split; [done|]. split.
    { rewrite W2, W1. unfold set_wfs, set_wfiles; simpl. rewrite list_insert_insert_eq, put_inode_twice. done. }
    split; [done|]. split; [lia|]. split; [|done]. rewrite B2, B1. apply splice_splice. rewrite length_fbytes by lia. lia.
  - intros m Hm Hh Ha. destruct (K1 m Hm Hh Ha) as (E1 & Hm1 & Hh1 & Ha1).
    assert (sb (snd (w_fs w1)) = sb (snd (w_fs w))) as Esb by (by rewrite W1). unfold others_kept in K2. rewrite Esb in K2.
    destruct (K2 m Hm1 Hh1 Ha1) as (E2 & ? & ? & ?). by rewrite E2.
Qed.

Lemma file_written_nil f ff ip w s fs v n : w_fs w = (s, fs) → w_files w !! f = Some ff → inodes fs !! ip = Some n → 0 ≤ f_off ff ≤ i_size n →
  op_idle s v → disk_ok (sb fs) (blank v) → open_inode (sb fs) v n → file_written f ip w v n [] w v n.
Proof.
  intros Ef Hf Hi Ho H1 H2 H3. split; rewrite ?Ef; try done.
  exists s, ff. simpl. rewrite Z.add_0_r. split; [done|]. split; [|split; [lia|split; [lia|split; [by rewrite splice_nil|done]]]].
  rewrite put_inode_id by done. rewrite <- Ef. assert (set_foff (f_off ff) ff = ff) as -> by (by destruct ff). rewrite list_insert_id by done. by destruct w.
Qed.

(** A turn of the loop of [filewrite]. *)
Lemma write_step_ok f ff w s fs v n fetch addr len i (Q : Z + Z → fworld → Prop) : let ip := f_ip ff in let k := sb fs in
  w_fs w = (s, fs) → w_files w !! f = Some ff → inodes fs !! ip = Some n → 0 ≤ f_off ff ≤ i_size n →
  op_idle s v → disk_ok k (blank v) → open_inode k v n → log_placed k → (∀ a, is_Some (fetch a)) →
  0 ≤ i < len → f_off ff + (len - i) ≤ MAXFILE * BSIZE →
  (∀ m w' v' n', file_written f ip w v n (buffer fetch addr i (i + m)) w' v' n' → 0 < m ≤ len - i → Q (inl (i + m)) w') →
  (∀ m w' v' n', file_written f ip w v n (buffer fetch addr i (i + m)) w' v' n' → 0 ≤ m < len - i →
     (∀ b, 0 ≤ b < sb_size k → used (blank v') k b = true) → Q (inr i) w') →
  wp (write_step f fetch addr len i) w Q.
Proof.
  intros ip k Ew Hf Hn Hoff Hid Hdk Hop Hlog Hfetch Hi Hmax Hdone Hfull. pose proof Hop as [O1 O2 O3 O4 O5 O6 O7].
  unfold write_step. replace (i <? len) with true by (symmetry; apply Z.ltb_lt; lia). simpl negb. cbv iota zeta.
  set (n1 := if len - i >? max_write then max_write else len - i).
  assert (0 < n1 ≤ len - i ∧ n1 ≤ max_write) as [Hn1 Hn1m].
  { unfold n1. change max_write with 3072. destruct (len - i >? 3072) eqn:E; rewrite Z.gtb_ltb in E; bool_prop; lia. }
  wp_steps. eapply wp_file_at; [done|]. wp_steps. apply wp_fs. rewrite Ew. apply wp_tio.
  eapply wp_mono; [by apply (op_begin_ok s v)|]. intros [] s1 R1. wp_steps. apply wp_fs.
  eapply ilock_valid; [done|done|done|done|]. wp_steps. eapply wp_file_at; [done|]. wp_steps. apply wp_fs.
  set (src := buffer fetch addr i (i + n1)). assert (Z.of_nat (length src) = n1) as Elen by (unfold src; rewrite length_buffer; lia).
  eapply (writei_ok _ (set_ilock true n) _ (put_inode ip (set_ilock true n) fs)); simpl; try done.
  { intros a m Hm. left. by apply copied_all. }
  { by eapply put_inode_eq. }
  { by apply file_wf_ilock. }
  { rewrite Elen. lia. }
  { rewrite Elen. apply write_cost_bound; [lia|]. change ((MAXOPBLOCKS - 1 - 1 - 2) / 2 * BSIZE) with max_write. lia. }
  rewrite Elen. intros s2 t2 n2 r R2 Hr W Hroom Hend. rewrite put_inode_twice.
  assert (length (take (Z.to_nat r) src) = Z.to_nat r) as El by (rewrite length_take; lia).
  assert (take (Z.to_nat r) src = buffer fetch addr i (i + r)) as Esrc by (unfold src; apply take_buffer; lia).
  pose proof (wn_meta _ _ _ _ _ _ _ W) as Em. rewrite El, Z2Nat.id in Em by lia.
  assert (i_size n2 = i_size n `max` (f_off ff + r)) as Esz by (rewrite Em; done).
  assert (0 ≤ i_size n2 < 2 ^ 32) as Hsz by (rewrite Esz; destruct O7 as [? _]; change (MAXFILE * BSIZE) with 274432 in *; lia).
  wp_steps.
  (* the offset *)
  set (ff' := set_foff (f_off ff + r) ff).
  assert (wp (fs_m (iunlock (f_ip ff));; fs_m (tio op_end);; mret (if negb (r =? n1) then inr i else inl (i + r)))
    (set_wfs (s2, put_inode ip n2 fs) (set_wfiles (<[f := ff']> (w_files w)) w)) Q) as Hfin.
  { wp_steps. apply wp_fs. unfold iunlock. simpl w_fs. wp_steps. eapply wp_inode_at; [by eapply put_inode_eq|].
    assert (i_lock n2 = true ∧ i_ref n2 = i_ref n) as [E1 E2] by (by rewrite Em). rewrite E1, E2. simpl negb. simpl orb.
    replace (i_ref n <? 1) with false by (symmetry; apply Z.ltb_ge; lia). eapply wp_upd_inode; [by eapply put_inode_eq|]. rewrite put_inode_twice.
    set (n3 := set_ilock false n2). wp_steps. apply wp_fs. simpl w_fs. apply wp_tio. pose proof (wn_disk _ _ _ _ _ _ _ W) as D2.
    eapply wp_mono; [apply (op_end_ok s2 t2 R2); [apply D2| |]|].
    { pose proof (write_cost_bound (f_off ff) n1 ltac:(lia) ltac:(change ((MAXOPBLOCKS - 1 - 1 - 2) / 2 * BSIZE) with max_write; lia)). simpl in Hroom. lia. }
    { intros b Hb Ha. destruct (wn_log _ _ _ _ _ _ _ W) as [_ Hl]. destruct (Hl b Hb) as [Hin|[_ Hn2]]; [by apply elem_of_empty in Hin|]. by apply Hn2, Hlog. }
    intros [] s3 (v' & Hid' & Hsame). wp_steps.
    assert (∀ b, ¬ log_block k b → tview (blank v') b = tview t2 b) as Hs by (intros b Hb; apply Hsame; intros ?; by apply Hb, Hlog).
    pose proof (wn_wf _ _ _ _ _ _ _ W) as W2. pose proof (same_view k t2 (blank v') Hs n2 W2) as Hv2. pose proof (wn_holes _ _ _ _ _ _ _ W) as H2.
    match goal with |- _ _ ?w2 => assert (file_written f ip w v n (buffer fetch addr i (i + r)) w2 v' n3) as HW end.
    { rewrite <- Esrc. split; simpl.
      - exists s3, ff. rewrite Ew, El, Z2Nat.id by lia. split; [done|]. split; [done|]. split; [simpl; lia|]. split; [done|]. split; [|done].
        change (fbytes (blank v') n3) with (fbytes (blank v') n2). rewrite (agree_fbytes t2 (blank v') n2 Hv2 H2), (wn_bytes _ _ _ _ _ _ _ W). done.
      - by eapply put_inode_eq.
      - done.
      - by apply (same_disk_ok k t2).
      - split; [unfold n3; simpl; by rewrite Em|unfold n3; simpl; by rewrite Em|unfold n3; simpl; rewrite E2; lia|done|unfold n3; simpl; by rewrite Em| |].
        + apply file_wf_ilock. by apply (same_file_wf k t2).
        + by apply (agree_no_holes t2).
      - rewrite Ew. intros m Hm Hh Ha. pose proof (other_view k _ _ m _ _ _ _ W Hm Ha) as Hov. pose proof (other_file_wf k _ _ m _ _ _ _ W Hm Ha) as Hom.
        pose proof (same_view k t2 (blank v') Hs m Hom) as Hvm. pose proof (agree_no_holes _ _ m Hov Hh) as Hhm.
        split; [|split; [|split]].
        + rewrite (agree_fbytes t2 (blank v') m Hvm Hhm). by apply agree_fbytes.
        + by apply (same_file_wf k t2).
        + by apply (agree_no_holes t2).
        + change (apart (blank v') n2 m). apply (same_apart k t2); [done|done|done|]. by eapply other_apart. }
    destruct (r =? n1) eqn:Er; bool_prop; simpl negb; cbv iota.
    - eapply Hdone; [exact HW|lia].
    - eapply Hfull; [exact HW|lia|]. intros b Hb. rewrite (same_used k t2) by done.
      destruct Hend as [Hend|(a & m & Hm & E)]; [lia|by apply Hend|]. rewrite copied_all in E by done. lia. }
  destruct (r >? 0) eqn:E; rewrite Z.gtb_ltb in E; bool_prop.
  - eapply wp_upd_file; [done|]. assert (u32 (f_off ff + r) = f_off ff + r) as -> by (unfold u32; apply Z.mod_small; lia). exact Hfin.
  - assert (r = 0) as -> by lia. assert (ff' = ff) as E' by (unfold ff'; rewrite Z.add_0_r; by destruct ff).
    rewrite E', list_insert_id in Hfin by done. assert (set_wfiles (w_files w) w = w) as Ew2 by (by destruct w). rewrite Ew2 in Hfin. apply wp_ret. exact Hfin.
Qed.

(** [filewrite] of a file of the file system. *)
Lemma filewrite_inode_ok f ff w s fs v n fetch killed addr len j (Q : fturn → fworld → Prop) : let ip := f_ip ff in let k := sb fs in
  w_fs w = (s, fs) → w_files w !! f = Some ff → f_type ff = FD_INODE → f_writable ff = true →
  inodes fs !! ip = Some n → 0 ≤ f_off ff ≤ i_size n →
  op_idle s v → disk_ok k (blank v) → open_inode k v n → log_placed k → (∀ a, is_Some (fetch a)) →
  0 ≤ len → f_off ff + len ≤ MAXFILE * BSIZE →
  (∀ m w' v' n', file_written f ip w v n (buffer fetch addr 0 m) w' v' n' → 0 ≤ m ≤ len →
     (m < len → ∀ b, 0 ≤ b < sb_size k → used (blank v') k b = true) → Q (FDone (if m =? len then len else -1) []) w') →
  wp (filewrite f fetch killed addr len j) w Q.
Proof.
  intros ip k Ew Hf Ht Hwr Hn Hoff Hid Hdk Hop Hlog Hfetch Hlen Hmax HQ. unfold filewrite. wp_steps. eapply wp_file_at; [done|].
  rewrite Hwr, Ht. simpl negb. cbv iota. wp_steps.
  apply (wp_while (λ i w', 0 ≤ i ≤ len ∧ ∃ v' n', file_written f ip w v n (buffer fetch addr 0 i) w' v' n') (λ i, Z.to_nat (len - i))).
  2: { split; [lia|]. exists v, n. by eapply file_written_nil. }
  2: lia.
  intros i w1 (Hi & v1 & n1 & W1). pose proof W1 as [(s1 & ff0 & F1 & E1 & O1 & S1 & B1 & H1) I1 D1 X1 N1 K1].
  rewrite Hf in F1. injection F1 as <-. rewrite length_buffer in * by lia. rewrite Z.sub_0_r in *.
  destruct (decide (i = len)) as [->|Hne].
  { unfold write_step. rewrite Z.ltb_irrefl. simpl. apply wp_ret, wp_ret.
    pose proof (HQ len w1 v1 n1 W1 ltac:(lia) ltac:(lia)) as HQ1. exact HQ1. }
  assert (w_files w1 !! f = Some (set_foff (f_off ff + i) ff)) as F2.
  { rewrite E1. simpl. apply list_lookup_insert_eq. by eapply lookup_lt_Some. }
  assert (sb (snd (w_fs w1)) = k) as Esb by (by rewrite E1, Ew). destruct (w_fs w1) as [s1' fs1] eqn:Ew1. simpl in *.
  rewrite Esb in *. eapply (write_step_ok f (set_foff (f_off ff + i) ff) w1 s1' fs1 v1 n1); simpl; rewrite ?Esb; try done; try lia.
  - intros m w2 v2 n2 W2 Hm. split; [|lia]. split; [lia|]. exists v2, n2. rewrite (buffer_app fetch addr 0 i (i + m)) by lia.
    by eapply file_written_trans.
  - intros m w2 v2 n2 W2 Hm Hfull. apply wp_ret. assert (file_written f ip w v n (buffer fetch addr 0 (i + m)) w2 v2 n2) as W3.
    { rewrite (buffer_app fetch addr 0 i (i + m)) by lia. by eapply file_written_trans. }
    pose proof (HQ (i + m) w2 v2 n2 W3 ltac:(lia) ltac:(done)) as HQ1.
    rewrite (proj2 (Z.eqb_neq i len)) by lia. by rewrite (proj2 (Z.eqb_neq (i + m) len)) in HQ1 by lia.
Qed.

(** [fileread] of a file of the file system. *)
Lemma fileread_inode_ok f ff w s fs v n ok killed addr len (Q : fturn → fworld → Prop) : let ip := f_ip ff in let k := sb fs in
  w_fs w = (s, fs) → w_files w !! f = Some ff → f_type ff = FD_INODE → f_readable ff = true →
  inodes fs !! ip = Some n → 0 ≤ f_off ff < 2 ^ 32 → op_idle s v → open_inode k v n → (∀ a m, ok a m = true) → 0 ≤ len < 2 ^ 31 →
  (∀ s', let m := readable (i_size n) (f_off ff) len in op_idle s' v →
     Q (FDone m (take (Z.to_nat m) (drop (Z.to_nat (f_off ff)) (fbytes (blank v) n))))
       (set_wfs (s', fs) (set_wfiles (<[f := set_foff (f_off ff + m) ff]> (w_files w)) w))) →
  wp (fileread f ok killed addr len) w Q.
Proof.
  intros ip k Ew Hf Ht Hrd Hn Hoff Hid [O1 O2 O3 O4 O5 O6 O7] Hok Hlen HQ. unfold fileread. wp_steps. eapply wp_file_at; [done|].
  rewrite Hrd, Ht. simpl negb. cbv iota. wp_steps. apply wp_fs. rewrite Ew. eapply ilock_valid; [done|done|done|done|]. wp_steps.
  eapply wp_file_at; [done|]. wp_steps. apply wp_fs. simpl w_fs. assert (u32 len = len) as -> by (unfold u32; apply Z.mod_small; lia).
  set (n1 := set_ilock true n). set (m := readable (i_size n) (f_off ff) len) in *.
  assert (0 ≤ m ∧ f_off ff + m < 2 ^ 32) as [Hm0 Hm].
  { unfold m, readable. destruct O7 as [Hsz _]. change (MAXFILE * BSIZE) with 274432 in Hsz.
    destruct (f_off ff >? i_size n) eqn:E1; simpl; [lia|]. destruct (f_off ff + len >=? 2 ^ 32) eqn:E2; bool_prop; lia. }
  eapply (readi_ok ip n1 s (put_inode ip n1 fs) (resting v)); [by apply op_read_ok|by eapply put_inode_eq|done|done|done|done|done|lia|].
  intros s1 R1 _. change (i_size n1) with (i_size n). fold m. wp_steps. simpl fst. simpl snd.
  assert (∀ w1, w1 = set_wfs (s1, put_inode ip n1 fs) (set_wfiles (<[f := set_foff (f_off ff + m) ff]> (w_files w)) w) →
    wp (fs_m (iunlock (f_ip ff));; mret (FDone m (take (Z.to_nat m) (drop (Z.to_nat (f_off ff)) (fbytes (resting v) n1))))) w1 Q) as Hfin.
  { intros w1 ->. wp_steps. apply wp_fs. unfold iunlock. simpl w_fs. wp_steps. eapply wp_inode_at; [by eapply put_inode_eq|].
    simpl negb. simpl orb. change (i_ref n1) with (i_ref n). replace (i_ref n <? 1) with false by (symmetry; apply Z.ltb_ge; lia).
    eapply wp_upd_inode; [by eapply put_inode_eq|]. rewrite put_inode_twice. wp_steps.
    assert (put_inode ip (set_ilock false n1) fs = fs) as ->.
    { assert (set_ilock false n1 = n) as -> by (unfold n1; destruct n; simpl in *; by subst). by apply put_inode_id. }
    apply (HQ s1). by apply op_read_ok. }
  destruct (m >? 0) eqn:E; rewrite Z.gtb_ltb in E; bool_prop.
  - eapply wp_upd_file; [done|]. assert (u32 (f_off ff + m) = f_off ff + m) as -> by (unfold u32; apply Z.mod_small; lia). by apply Hfin.
  - apply wp_ret. apply Hfin. assert (m = 0) as -> by lia. rewrite Z.add_0_r. assert (set_foff (f_off ff) ff = ff) as -> by (by destruct ff).
    rewrite list_insert_id by done. by destruct w.
Qed.
End files.

(** ** Definitions *)

(** A machine without devices; file 0 is open for writing and file 1 for
    reading, both at offset 32 of the directory of the example disk. *)
#[local] Instance no_devices : Devices unit := {| dev_read := λ _, None; dev_write := λ _, None |}.
Definition ex_world : fworld tstore unit :=
  FW false [File FD_INODE 1 false true 0 0 32 0; File FD_INODE 1 true false 0 0 32 0] ∅ 0 (resting (t_view ex_store), ex_fs) tt.
Definition ex_user (a : Z) : option Z := Some (a mod 256).

(** ** Lemmas *)

Lemma ex_idle : op_idle (resting (t_view ex_store)) (t_view ex_store).
Proof. split; [done|]. intros b. apply ex_store_ok. Qed.

Lemma ex_open : open_inode ex_sb (t_view ex_store) ex_dir.
Proof. split; try done; [exact ex_file_wf|exact ex_no_holes]. Qed.

(** ** Properties *)


(** C16: What a [filewrite] has put into a file, a [fileread] of the same file
    from the same offset answers: all of it, when the write returned its
    length. *)
Theorem filewrite_fileread {St} `{OP : Ops St, !TxnOk St, !OpsOk St} {D} `{DV : Devices D} (w : fworld St D) f g ff gg s fs v n fetch killed addr dst len :
  let ip := f_ip ff in let k := sb fs in
  w_fs w = (s, fs) → w_files w !! f = Some ff → f_type ff = FD_INODE → f_writable ff = true →
  f ≠ g → w_files w !! g = Some gg → f_type gg = FD_INODE → f_readable gg = true → f_ip gg = ip → f_off gg = f_off ff →
  inodes fs !! ip = Some n → 0 ≤ f_off ff ≤ i_size n →
  op_idle s v → disk_ok k (blank v) → open_inode k v n → log_placed (St := St) k → (∀ a, is_Some (fetch a)) →
  0 ≤ len → f_off ff + len ≤ MAXFILE * BSIZE →
  wp (x ← filewrite f fetch killed addr len 0; y ← fileread g (λ _ _, true) killed dst len; mret (x, y)) w (λ '(x, y) _,
    x = FDone len [] → y = FDone len (buffer fetch addr 0 len)).
Proof.
  intros ip k Ew Hf Ht Hw Hfg Hg Hgt Hgr Hgi Hgo Hn Hoff Hid Hdk Hop Hlog Hfetch Hlen Hmax. wp_steps.
  change (MAXFILE * BSIZE) with 274432 in *. eapply (filewrite_inode_ok f ff w s fs v n); try done.
  intros m w' v' n' [(s' & ff' & F & E & O & S & B & _) I Di Dk Op Ot] Hm Hfull. rewrite Hf in F. injection F as <-.
  assert (Z.of_nat (length (buffer fetch addr 0 m)) = m) as El by (rewrite length_buffer; lia). rewrite El in *.
  assert (w_files w' !! g = Some gg) as Hg' by (rewrite E; simpl; by rewrite list_lookup_insert_ne).
  destruct (w_fs w') as [s1 fs1] eqn:Ew'. simpl in *. pose proof (f_equal w_fs E) as Efs. rewrite Ew', Ew in Efs. simpl in Efs. injection Efs as -> ->.
  wp_steps. eapply (fileread_inode_ok g gg w' s' _ v' n'); try done; [by rewrite Hgi|lia|lia|].
  intros s2 r Hid2. wp_steps. intros Ex. destruct (m =? len) eqn:Em; bool_prop; [subst m|injection Ex; lia].
  assert (r = len) as Er.
  { unfold r, readable. rewrite Hgo. destruct (f_off ff >? i_size n') eqn:E1; [bool_prop; lia|].
    destruct (f_off ff + len >=? 2 ^ 32) eqn:E2; [rewrite Z.geb_leb in E2; bool_prop; lia|]. simpl. lia. }
  rewrite Er, Hgo, B. f_equal. unfold splice. assert (length (take (Z.to_nat (f_off ff)) (fbytes (blank v) n)) = Z.to_nat (f_off ff)) as Eo.
  { rewrite length_take. pose proof (length_fbytes (blank v) n ltac:(lia)). lia. }
  rewrite drop_app_length' by done. apply take_app_length'. lia.
Qed.
Lemma filewrite_fileread_witness :
  wp (x ← filewrite (D := unit) 0 ex_user false 1000 2000 0; y ← fileread 1 (λ _ _, true) false 0 2000; mret (x, y)) ex_world (λ '(x, y) _,
    x = FDone 2000 [] → y = FDone 2000 (buffer ex_user 1000 0 2000)).
Proof.
  apply (filewrite_fileread ex_world 0%nat 1%nat (File FD_INODE 1 false true 0 0 32 0) (File FD_INODE 1 true false 0 0 32 0)
    (resting (t_view ex_store)) ex_fs (t_view ex_store) ex_dir ex_user false 1000 0 2000); try done.
  - exact ex_idle.
  - exact ex_disk_ok.
  - exact ex_open.
Defined.
