(* ===== verification/FtableRefs.v ===== *)
(** The invariant of the open-file table: reference counts, and the ends of
    pipes; each operation of kernel/file.c against it. *)
From stdpp Require Import gmultiset.
From S2P Require Import Prelude Bytes Bio Txn TxnOps Fs Pipe Ftable Partial.

(** ** Definitions *)

Definition is_open (wr : bool) (q : pipest) : bool := if wr then pi_writeopen (pi q) else pi_readopen (pi q).

(** [ff] is an end of pipe [p]: of its writers, or of its readers. *)
Definition pipe_end (p : nat) (wr : bool) (ff : file) : Prop :=
  f_type ff = FD_PIPE ∧ f_pipe ff = p ∧ f_writable ff = wr ∧ f_readable ff = negb wr.

(** The files are referred to by [R].  The reference counts are right, a file
    without references is closed, and the flags of a pipe tell which of its
    ends, each one file, are open; a pipe with no open end is gone. *)
Record files_ok {St D} (w : fworld St D) (R : gmultiset nat) : Prop := {
  fo_lock : w_lock w = false;
  fo_names f : f ∈ R → is_Some (w_files w !! f);
  fo_refs f ff : w_files w !! f = Some ff → f_ref ff = Z.of_nat (multiplicity f R);
  fo_closed f ff : w_files w !! f = Some ff → f_ref ff = 0 → f_type ff = FD_NONE;
  fo_end f ff : w_files w !! f = Some ff → f_type ff = FD_PIPE → f_readable ff = negb (f_writable ff) ∧
    ∃ q, w_pipes w !! f_pipe ff = Some q ∧ is_open (f_writable ff) q = true;
  fo_ends f g ff gg p wr : w_files w !! f = Some ff → w_files w !! g = Some gg → pipe_end p wr ff → pipe_end p wr gg → f = g;
  fo_pipe p q : w_pipes w !! p = Some q → pi_lock q = false ∧ pipe_ok (pi q) ∧ (p < w_pages w)%nat ∧
    (is_open false q = true ∨ is_open true q = true);
  fo_open p q wr : w_pipes w !! p = Some q → is_open wr q = true → ∃ f ff, w_files w !! f = Some ff ∧ pipe_end p wr ff
}.

(** The files [R] have a type: they have been set up. *)
Definition typed {St D} (w : fworld St D) (R : gmultiset nat) : Prop :=
  ∀ f ff, f ∈ R → w_files w !! f = Some ff → f_type ff ≠ FD_NONE.

(** The files of [R] have kept their types. *)
Definition types_kept {St D} (R : gmultiset nat) (w w' : fworld St D) : Prop :=
  ∀ f ff', f ∈ R → w_files w' !! f = Some ff' → ∃ ff, w_files w !! f = Some ff ∧ f_type ff' = f_type ff.

(** What two states of the table have in common when only offsets, the
    contents of pipes, the file system and the devices differ. *)
Definition same_file (ff gg : file) : Prop :=
  f_type gg = f_type ff ∧ f_ref gg = f_ref ff ∧ f_readable gg = f_readable ff ∧ f_writable gg = f_writable ff ∧ f_pipe gg = f_pipe ff.
Definition same_ends (q q' : pipest) : Prop :=
  pi_lock q' = false ∧ pipe_ok (pi q') ∧ pi_readopen (pi q') = pi_readopen (pi q) ∧ pi_writeopen (pi q') = pi_writeopen (pi q).
Record same_table {St D} (w w' : fworld St D) : Prop := {
  st_lock : w_lock w' = w_lock w;
  st_files : Forall2 same_file (w_files w) (w_files w');
  st_pipes p : option_Forall2 same_ends (w_pipes w !! p) (w_pipes w' !! p);
  st_pages : w_pages w' = w_pages w
}.

(** ** Lemmas *)

Lemma multiplicity_add (f : nat) (R : gmultiset nat) : multiplicity f (R ⊎ {[+ f +]}) = S (multiplicity f R).
Proof. rewrite multiplicity_disj_union, multiplicity_singleton, decide_True by done. lia. Qed.
Lemma multiplicity_add_ne (f g : nat) (R : gmultiset nat) : g ≠ f → multiplicity g (R ⊎ {[+ f +]}) = multiplicity g R.
Proof. intros. by rewrite multiplicity_disj_union, multiplicity_singleton, decide_False, Nat.add_0_r by done. Qed.
Lemma add_remove (f : nat) (R : gmultiset nat) : (R ⊎ {[+ f +]}) ∖ {[+ f +]} = R.
Proof. multiset_solver. Qed.
Lemma multiplicity_0 (f : nat) (R : gmultiset nat) : f ∉ R → multiplicity f R = O.
Proof. rewrite elem_of_multiplicity. lia. Qed.

Lemma pipe_end_same p wr ff gg : same_file ff gg → pipe_end p wr gg ↔ pipe_end p wr ff.
Proof. intros (E1 & _ & E2 & E3 & E4). unfold pipe_end. by rewrite E1, E2, E3, E4. Qed.
Lemma same_ends_open q q' wr : same_ends q q' → is_open wr q' = is_open wr q.
Proof. intros (_ & _ & E1 & E2). by destruct wr. Qed.

Section refs.
Context {St : Type} `{OP : Ops St} {D : Type} `{DV : Devices D}.
Local Notation fworld := (fworld St D).
Implicit Types (w : fworld) (R : gmultiset nat).

Lemma same_table_files_ok w w' R : same_table w w' → files_ok w R → files_ok w' R.
Proof.
  intros [S1 S2 S3 S4] [H1 H2 H3 H4 H5 H6 H7 H8].
  assert (∀ f gg, w_files w' !! f = Some gg → ∃ ff, w_files w !! f = Some ff ∧ same_file ff gg) as Hb.
  { intros f gg Hf. eapply Forall2_lookup_r in S2; [|done]. naive_solver. }
  assert (∀ f ff, w_files w !! f = Some ff → ∃ gg, w_files w' !! f = Some gg ∧ same_file ff gg) as Hc.
  { intros f ff Hf. eapply Forall2_lookup_l in S2; [|done]. naive_solver. }
  assert (∀ p q', w_pipes w' !! p = Some q' → ∃ q, w_pipes w !! p = Some q ∧ same_ends q q') as Hp.
  { intros p q' Hq. specialize (S3 p). rewrite Hq in S3. inversion S3; subst. eauto. }
  split.
  - congruence.
  - intros f [ff Hf]%H2. destruct (Hc f ff Hf) as (gg & Hg & _). eauto.
  - intros f gg Hg. destruct (Hb f gg Hg) as (ff & Hf & S). rewrite <- (H3 f ff Hf). apply S.
  - intros f gg Hg. destruct (Hb f gg Hg) as (ff & Hf & (-> & -> & _)). by eapply H4.
  - intros f gg Hg. destruct (Hb f gg Hg) as (ff & Hf & (-> & _ & -> & -> & ->)). intros Ht.
    destruct (H5 f ff Hf Ht) as (E & q & Hq & Ho). split; [done|]. specialize (S3 (f_pipe ff)). rewrite Hq in S3. inversion S3; subst.
    eexists. split; [done|]. by rewrite (same_ends_open q).
  - intros f g ff gg p wr Hf Hg Ef Eg. destruct (Hb f ff Hf) as (ff0 & Hf0 & Sf). destruct (Hb g gg Hg) as (gg0 & Hg0 & Sg).
    eapply (H6 f g ff0 gg0 p wr); [done|done|by apply (pipe_end_same _ _ ff0 ff)|by apply (pipe_end_same _ _ gg0 gg)].
  - intros p q' Hq. destruct (Hp p q' Hq) as (q & Hq0 & S). destruct (H7 p q Hq0) as (_ & _ & Hlt & Ho). pose proof S as (L & O & _).
    rewrite S4, !(same_ends_open q q') by done. done.
  - intros p q' wr Hq Ho. destruct (Hp p q' Hq) as (q & Hq0 & S). rewrite (same_ends_open q q') in Ho by done.
    destruct (H8 p q wr Hq0 Ho) as (f & ff & Hf & Hff). destruct (Hc f ff Hf) as (gg & Hg & Sg). exists f, gg. split; [done|].
    by apply (pipe_end_same _ _ ff gg).
Qed.

Lemma same_table_typed w w' R : same_table w w' → typed w R → typed w' R.
Proof.
  intros [_ S2 _ _] Ht f gg Hin Hg. eapply Forall2_lookup_r in S2 as (ff & Hf & (E & _)); [|done]. rewrite E. by eapply Ht.
Qed.

(** *** Allocation *)

Lemma find_file_Some l i f : find_file l i = Some f → ∃ j ff, f = (i + j)%nat ∧ l !! j = Some ff ∧ f_ref ff = 0.
Proof.
  revert i. induction l as [|ff l IH]; intros i; simpl; [done|]. case_if.
  - intros [= <-]. exists O, ff. split; [lia|]. done.
  - intros (j & gg & -> & Hj & Hr)%IH. exists (S j), gg. split; [lia|]. done.
Qed.

Lemma wp_acquire_ft w (Q : unit → fworld → Prop) : w_lock w = false → Q tt (set_wlock true w) → wp acquire_ft w Q.
Proof. unfold wp, acquire_ft. by intros ->. Qed.
Lemma wp_release_ft w (Q : unit → fworld → Prop) : w_lock w = true → Q tt (set_wlock false w) → wp release_ft w Q.
Proof. unfold wp, release_ft. by intros ->. Qed.
Lemma set_wlock_id w : w_lock w = false → set_wlock false (set_wlock true w) = w.
Proof. destruct w; simpl. by intros ->. Qed.

(** [filealloc] finds a file without references. *)
Lemma filealloc_ok w R : files_ok w R → wp (filealloc (St := St) (D := D)) w (λ r w', match r with
  | None => w' = w
  | Some f => ∃ ff, w_files w !! f = Some ff ∧ f_type ff = FD_NONE ∧ f ∉ R ∧ w' = set_wfiles (<[f := set_fref 1 ff]> (w_files w)) w
  end).
Proof.
  intros Hok. pose proof (fo_lock _ _ Hok) as Hlk. unfold filealloc. wp_steps. apply wp_acquire_ft; [done|]. wp_steps. simpl.
  destruct (find_file (w_files w) 0) as [f|] eqn:Ef.
  - apply find_file_Some in Ef as (j & ff & -> & Hj & Hr). simpl. unfold upd_file. wp_steps. apply wp_release_ft; [done|]. wp_steps.
    exists ff. split; [done|]. split; [by apply (fo_closed _ _ Hok j ff)|]. split.
    + intros Hin. pose proof (fo_refs _ _ Hok j ff Hj) as E. rewrite Hr in E. rewrite elem_of_multiplicity in Hin. lia.
    + unfold set_wfiles, set_wlock; simpl. by rewrite (alter_insert _ _ _ _ Hj), Hlk.
  - wp_steps. apply wp_release_ft; [done|]. wp_steps. by apply set_wlock_id.
Qed.

(** A change of a file that is no end of a pipe, before and after. *)
Lemma files_ok_upd w R R' f ff gg : files_ok w R → w_files w !! f = Some ff → f_type ff ≠ FD_PIPE → f_type gg ≠ FD_PIPE →
  f_ref gg = Z.of_nat (multiplicity f R') → (f_ref gg = 0 → f_type gg = FD_NONE) → (∀ g, g ≠ f → multiplicity g R' = multiplicity g R) →
  files_ok (set_wfiles (<[f := gg]> (w_files w)) w) R'.
Proof.
  intros Hok Hf Hff Hgg Hr Hz Hm.
  assert (∀ g hh, <[f := gg]> (w_files w) !! g = Some hh → g = f ∧ hh = gg ∨ g ≠ f ∧ w_files w !! g = Some hh) as Hb.
  { intros g hh Hg. destruct (decide (g = f)) as [->|]; [|rewrite list_lookup_insert_ne in Hg by done; auto].
    rewrite list_lookup_insert_eq in Hg by (by eapply lookup_lt_Some). left. by simplify_eq. }
  assert (∀ p wr, ¬ pipe_end p wr gg) as Hne by (by intros p wr (E & _)).
  split; unfold set_wfiles; simpl.
  - apply Hok.
  - intros g Hg. apply lookup_lt_is_Some. rewrite length_insert. apply lookup_lt_is_Some. destruct (decide (g = f)) as [->|Hgf]; [eauto|].
    apply (fo_names _ _ Hok). by rewrite elem_of_multiplicity, <- Hm, <- elem_of_multiplicity.
  - intros g hh [[-> ->]|[Hn Hg]]%Hb; [done|]. rewrite Hm by done. by apply (fo_refs _ _ Hok).
  - intros g hh [[-> ->]|[Hn Hg]]%Hb; [done|]. by eapply (fo_closed _ _ Hok).
  - intros g hh [[-> ->]|[Hn Hg]]%Hb; [done|]. by eapply (fo_end _ _ Hok).
  - intros g h hg hh p wr [[-> ->]|[Hn Hg]]%Hb [[-> ->]|[Hn' Hh]]%Hb Eg Eh; [done|by apply Hne in Eg|by apply Hne in Eh|].
    by eapply (fo_ends _ _ Hok).
  - apply Hok.
  - intros p q wr Hq Ho. destruct (fo_open _ _ Hok p q wr Hq Ho) as (g & hh & Hg & Eg). exists g, hh. split; [|done].
    rewrite list_lookup_insert_ne; [done|]. intros <-. destruct Eg as (E & _). congruence.
Qed.

(** A file just allocated, and one that gets its type. *)
Lemma files_ok_alloc w R f ff : files_ok w R → w_files w !! f = Some ff → f_type ff = FD_NONE → f ∉ R →
  files_ok (set_wfiles (<[f := set_fref 1 ff]> (w_files w)) w) (R ⊎ {[+ f +]}).
Proof.
  intros Hok Hf Ht Hnin. eapply files_ok_upd; [done|done|congruence|simpl; congruence| |done|].
  - by rewrite multiplicity_add, multiplicity_0.
  - intros g Hg. by apply multiplicity_add_ne.
Qed.
Lemma files_ok_retype w R f ff gg : files_ok w R → w_files w !! f = Some ff → f_type ff = FD_NONE → f ∈ R →
  f_ref gg = f_ref ff → f_type gg ≠ FD_PIPE → files_ok (set_wfiles (<[f := gg]> (w_files w)) w) R.
Proof.
  intros Hok Hf Ht Hin Hr Hgg. pose proof (fo_refs _ _ Hok f ff Hf) as E. rewrite elem_of_multiplicity in Hin.
  eapply files_ok_upd; [done|done|congruence|done|congruence|lia|done].
Qed.

(** *** References *)

Lemma file_in w R f ff : files_ok w R → w_files w !! f = Some ff → f ∈ R ↔ 1 ≤ f_ref ff.
Proof. intros Hok Hf. rewrite (fo_refs _ _ Hok f ff Hf), elem_of_multiplicity. lia. Qed.

(** A change of the count of a file that is still referred to. *)
Lemma files_ok_count w R R' f ff r : files_ok w R → w_files w !! f = Some ff → f_ref ff ≠ 0 → r ≠ 0 →
  r = Z.of_nat (multiplicity f R') → (∀ g, g ≠ f → multiplicity g R' = multiplicity g R) →
  files_ok (set_wfiles (<[f := set_fref r ff]> (w_files w)) w) R'.
Proof.
  intros Hok Hf Hr0 Hr Er Hm.
  assert (∀ g gg, <[f := set_fref r ff]> (w_files w) !! g = Some gg → ∃ gg0, w_files w !! g = Some gg0 ∧ f_type gg = f_type gg0 ∧
    f_readable gg = f_readable gg0 ∧ f_writable gg = f_writable gg0 ∧ f_pipe gg = f_pipe gg0 ∧ (g ≠ f ∧ gg = gg0 ∨ g = f ∧ f_ref gg = r)) as Hb.
  { intros g gg Hg. destruct (decide (g = f)) as [->|]; [|rewrite list_lookup_insert_ne in Hg by done; naive_solver].
    rewrite list_lookup_insert_eq in Hg by (by eapply lookup_lt_Some). injection Hg as <-. exists ff. split_and!; auto. }
  assert (∀ g gg0, w_files w !! g = Some gg0 → ∃ gg, <[f := set_fref r ff]> (w_files w) !! g = Some gg ∧ ∀ p wr, pipe_end p wr gg0 → pipe_end p wr gg) as Hc.
  { intros g gg Hg. destruct (decide (g = f)) as [->|]; [|rewrite list_lookup_insert_ne by done; eauto].
    rewrite list_lookup_insert_eq by (by eapply lookup_lt_Some). simplify_eq. eauto. }
  assert (∀ gg gg0 p wr, f_type gg = f_type gg0 → f_readable gg = f_readable gg0 → f_writable gg = f_writable gg0 → f_pipe gg = f_pipe gg0 →
    pipe_end p wr gg → pipe_end p wr gg0) as Hpe by (unfold pipe_end; intros ???? -> -> -> ->; done).
  split; unfold set_wfiles; simpl.
  - apply Hok.
  - intros g Hg. assert (is_Some (w_files w !! g)) as [gg Hgg].
    { destruct (decide (g = f)) as [->|Hn]; [eauto|]. apply (fo_names _ _ Hok). rewrite elem_of_multiplicity, <- Hm by done. by rewrite <- elem_of_multiplicity. }
    destruct (Hc g gg Hgg) as (? & ? & _). eauto.
  - intros g gg (gg0 & Hg & _ & _ & _ & _ & [[Hn ->]|[-> E]])%Hb; [|congruence]. rewrite Hm by done. by apply (fo_refs _ _ Hok).
  - intros g gg (gg0 & Hg & -> & _ & _ & _ & [[Hn ->]|[-> E]])%Hb E0; [by apply (fo_closed _ _ Hok g)|congruence].
  - intros g gg (gg0 & Hg & -> & -> & -> & -> & _)%Hb. by apply (fo_end _ _ Hok g).
  - intros g h gg hh p wr (gg0 & Hg & E1 & E2 & E3 & E4 & _)%Hb (hh0 & Hh & F1 & F2 & F3 & F4 & _)%Hb Eg Eh.
    eapply (fo_ends _ _ Hok g h gg0 hh0); eauto.
  - apply Hok.
  - intros p q wr Hq Ho. destruct (fo_open _ _ Hok p q wr Hq Ho) as (g & gg & Hg & Eg). destruct (Hc g gg Hg) as (gg' & Hg' & E). exists g, gg'. eauto.
Qed.

(** [filedup] of a file that is referred to. *)
Lemma filedup_ok w R f : files_ok w R → f ∈ R →
  wp (filedup (St := St) (D := D) f) w (λ r w', r = f ∧ files_ok w' (R ⊎ {[+ f +]}) ∧
    ∃ ff, w_files w !! f = Some ff ∧ w' = set_wfiles (<[f := set_fref (f_ref ff + 1) ff]> (w_files w)) w).
Proof.
  intros Hok Hin. destruct (fo_names _ _ Hok f Hin) as [ff Hf]. pose proof (fo_lock _ _ Hok) as Hlk.
  pose proof (proj1 (file_in _ _ _ _ Hok Hf) Hin) as Hr. unfold filedup. wp_steps. apply wp_acquire_ft; [done|]. wp_steps.
  unfold file_at. wp_steps. simpl. rewrite Hf. simpl. rewrite (proj2 (Z.ltb_ge _ _)) by lia. unfold upd_file. wp_steps.
  apply wp_release_ft; [done|]. wp_steps. split; [done|]. simpl.
  assert (set_wlock false (set_wfiles (alter (set_fref (f_ref ff + 1)) f (w_files w)) (set_wlock true w)) =
    set_wfiles (<[f := set_fref (f_ref ff + 1) ff]> (w_files w)) w) as ->
    by (unfold set_wlock, set_wfiles; simpl; by rewrite (alter_insert _ _ _ _ Hf), Hlk).
  split; [|eauto]. eapply files_ok_count; [done|done|lia|lia| |].
  - rewrite multiplicity_add, (fo_refs _ _ Hok f ff Hf). lia.
  - intros g Hg. by apply multiplicity_add_ne.
Qed.

(** *** Operations on open files *)

#[local] Instance same_file_preorder : PreOrder same_file.
Proof. split; [done|]. intros x y z (E1 & E2 & E3 & E4 & E5) (F1 & F2 & F3 & F4 & F5). unfold same_file. intuition congruence. Qed.
Lemma same_files_refl (l : list file) : Forall2 same_file l l.
Proof. done. Qed.
Lemma same_pipes_refl w R p : files_ok w R → option_Forall2 same_ends (w_pipes w !! p) (w_pipes w !! p).
Proof.
  intros Hok. destruct (w_pipes w !! p) as [q|] eqn:E; constructor. destruct (fo_pipe _ _ Hok p q E) as (? & ? & _). done.
Qed.
#[local] Hint Resolve same_files_refl same_pipes_refl : core.

Lemma same_table_fs w R s : files_ok w R → same_table w (set_wfs s w).
Proof. intros Hok. split; simpl; eauto. Qed.
Lemma same_table_dev w R d : files_ok w R → same_table w (set_wdev d w).
Proof. intros Hok. split; simpl; eauto. Qed.
Lemma same_table_refl w R : files_ok w R → same_table w w.
Proof. intros Hok. split; simpl; eauto. Qed.
Lemma same_table_file w R f ff gg : files_ok w R → w_files w !! f = Some ff → same_file ff gg →
  same_table w (set_wfiles (<[f := gg]> (w_files w)) w).
Proof.
  intros Hok Hf Hs. split; simpl; eauto. rewrite <- (list_insert_id (w_files w) f ff) at 1 by done. by apply Forall2_insert.
Qed.
Lemma same_table_pipe w R p q q' : files_ok w R → w_pipes w !! p = Some q → same_ends q q' →
  same_table w (set_wpipes (<[p := q']> (w_pipes w)) w).
Proof.
  intros Hok Hq Hs. split; simpl; eauto. intros r. destruct (decide (r = p)) as [->|].
  - rewrite Hq, lookup_insert_eq. by constructor.
  - rewrite lookup_insert_ne by done. eauto.
Qed.
Lemma same_table_trans w1 w2 w3 : same_table w1 w2 → same_table w2 w3 → same_table w1 w3.
Proof.
  intros [A1 A2 A3 A4] [B1 B2 B3 B4]. split; [congruence|by etrans| |congruence].
  intros p. specialize (A3 p). specialize (B3 p). destruct A3 as [x y Hxy|]; inversion B3 as [a b Hab|]; subst; constructor.
  destruct Hxy as (_ & _ & E1 & E2), Hab as (L & O & F1 & F2). unfold same_ends. split_and!; [done|done|congruence|congruence].
Qed.
End refs.

(** The table of a good state changes in this way only. *)
Definition table_kept {St D} (w w' : fworld St D) : Prop := ∀ R, files_ok w R → same_table w w'.
Global Instance table_kept_preorder {St D} : PreOrder (table_kept (St := St) (D := D)).
Proof.
  split.
  - intros w R. apply same_table_refl.
  - intros w1 w2 w3 H1 H2 R Hok. apply (same_table_trans w1 w2 w3); [by eapply H1|].
    eapply H2, same_table_files_ok; [by eapply H1|done].
Qed.

Section ops.
Context {St : Type} `{OP : Ops St} {D : Type} `{DV : Devices D}.
Local Notation keeps m := (keeping (table_kept (St := St) (D := D)) m).

Lemma keeps_file_at f : keeps (file_at f).
Proof. apply keeping_gets, _. Qed.
Lemma keeps_fs {A} (m : M (St * fsst) A) : keeps (fs_m m).
Proof. apply keeping_lift. intros s w R. apply same_table_fs. Qed.
Lemma keeps_dev {A} (m : M D A) : keeps (dev_m m).
Proof. apply keeping_lift. intros s w R. apply same_table_dev. Qed.
Lemma keeps_upd_file f g : (∀ ff, same_file ff (g ff)) → keeps (upd_file f g).
Proof.
  intros Hg. apply keeping_modify. intros w R Hok. destruct (w_files w !! f) as [ff|] eqn:E.
  - rewrite (alter_insert _ _ _ _ E). by eapply same_table_file.
  - replace (alter g f (w_files w)) with (w_files w); [destruct w; by eapply same_table_refl|].
    apply list_eq. intros j. rewrite list_lookup_alter. case_decide; [subst; by rewrite E|done].
Qed.
Lemma keeps_pipe {A} p (m : M pipest A) :
  (∀ q, pi_lock q = false → pipe_ok (pi q) → wp m q (λ _ q', same_ends q q')) → keeps (pipe_m p m).
Proof.
  intros Hm w. unfold wlp, pipe_m. destruct (w_pipes w !! p) as [q|] eqn:E; [|done]. destruct (m q) as [[a q']| |] eqn:Eq; [|done..].
  intros R Hok. destruct (fo_pipe _ _ Hok p q E) as (Hl & Hp & _). pose proof (Hm q Hl Hp) as W. unfold wp in W. rewrite Eq in W.
  by eapply same_table_pipe.
Qed.
Lemma keeps_piperead p store killed addr n : keeps (pipe_m p (piperead store killed addr n)).
Proof. apply keeps_pipe. intros q Hl Hp. eapply wp_mono; [by apply piperead_ok|]. intros r q' (H1 & H2 & H3 & H4 & _). done. Qed.
Lemma keeps_pipewrite p fetch killed addr n i : keeps (pipe_m p (pipewrite fetch killed addr n i)).
Proof. apply keeps_pipe. intros q Hl Hp. eapply wp_mono; [by apply pipewrite_ok|]. intros r q' (H1 & H2 & H3 & H4 & _). done. Qed.
End ops.
#[export] Hint Resolve keeps_file_at keeps_fs keeps_dev keeps_piperead keeps_pipewrite : keeping.
#[export] Hint Extern 1 (keeping table_kept (upd_file _ _)) => apply keeps_upd_file; done : keeping.

Section files.
Context {St : Type} `{OP : Ops St} {D : Type} `{DV : Devices D}.
Local Notation keeps m := (keeping (table_kept (St := St) (D := D)) m).

Lemma keeps_filestat f ok addr : keeps (filestat f ok addr).
Proof. unfold filestat. keeping. Qed.
Lemma keeps_fileread f ok killed addr n : keeps (fileread f ok killed addr n).
Proof. unfold fileread. keeping. Qed.
Lemma keeps_filewrite f fetch killed addr n i : keeps (filewrite f fetch killed addr n i).
Proof. unfold filewrite, write_step. keeping. Qed.

(** *** Closing *)

Implicit Types (w : fworld St D) (R : gmultiset nat).

Lemma wp_wlp {A} (m : M (fworld St D) A) w (Q : A → fworld St D → Prop) : wp m w Q → wlp m w Q.
Proof. unfold wp, wlp. by destruct (m w) as [[]| |]. Qed.

Definition closed_file (ff : file) : file := set_ftype FD_NONE (set_fref 0 ff).

(** The last reference to [ff] is gone, and its end of a pipe is closed. *)
Lemma files_ok_close w R f ff ps : files_ok w R → w_files w !! f = Some ff → multiplicity f R = 1%nat →
  (∀ p q', ps !! p = Some q' → ∃ q, w_pipes w !! p = Some q ∧ pi_lock q' = false ∧ pipe_ok (pi q') ∧
     (is_open false q' = true ∨ is_open true q' = true) ∧ ∀ wr, is_open wr q' = true → is_open wr q = true ∧ ¬ pipe_end p wr ff) →
  (∀ p q wr, w_pipes w !! p = Some q → is_open wr q = true → ¬ pipe_end p wr ff → ∃ q', ps !! p = Some q' ∧ is_open wr q' = true) →
  files_ok (set_wpipes ps (set_wfiles (<[f := closed_file ff]> (w_files w)) w)) (R ∖ {[+ f +]}).
Proof.
  intros Hok Hf Hm Hps Hps'.
  assert (∀ g gg, <[f := closed_file ff]> (w_files w) !! g = Some gg → g = f ∧ gg = closed_file ff ∨ g ≠ f ∧ w_files w !! g = Some gg) as Hb.
  { intros g gg Hg. destruct (decide (g = f)) as [->|]; [|rewrite list_lookup_insert_ne in Hg by done; auto].
    rewrite list_lookup_insert_eq in Hg by (by eapply lookup_lt_Some). left. by simplify_eq. }
  assert (∀ p wr, ¬ pipe_end p wr (closed_file ff)) as Hne by (by intros p wr (E & _)).
  assert (∀ g, multiplicity g (R ∖ {[+ f +]}) = if decide (g = f) then O else multiplicity g R) as Hd.
  { intros g. rewrite multiplicity_difference, multiplicity_singleton. case_decide; [subst; by rewrite Hm|apply Nat.sub_0_r]. }
  split; unfold set_wpipes, set_wfiles; simpl.
  - apply Hok.
  - intros g Hg. rewrite elem_of_multiplicity, Hd in Hg. case_decide as E; [lia|]. rewrite list_lookup_insert_ne by done.
    apply (fo_names _ _ Hok). by rewrite elem_of_multiplicity.
  - intros g gg [[-> ->]|[Hn Hg]]%Hb; rewrite Hd; [by rewrite decide_True|]. rewrite decide_False by done. by apply (fo_refs _ _ Hok).
  - intros g gg [[-> ->]|[Hn Hg]]%Hb; [done|]. by apply (fo_closed _ _ Hok g).
  - intros g gg [[-> ->]|[Hn Hg]]%Hb Ht; [done|]. destruct (fo_end _ _ Hok g gg Hg Ht) as (Er & q & Hq & Ho). split; [done|].
    eapply Hps'; [done|done|]. intros Hff. apply Hn. by eapply (fo_ends _ _ Hok g f).
  - intros g h gg hh p wr [[-> ->]|[Hn Hg]]%Hb [[-> ->]|[Hn' Hh]]%Hb Eg Eh; [done|by apply Hne in Eg|by apply Hne in Eh|].
    by eapply (fo_ends _ _ Hok).
  - intros p q' Hq'. destruct (Hps p q' Hq') as (q & Hq & Hl & Hp & Ho & _). destruct (fo_pipe _ _ Hok p q Hq) as (_ & _ & Hlt & _). done.
  - intros p q' wr Hq' Ho'. destruct (Hps p q' Hq') as (q & Hq & _ & _ & _ & Hwr). destruct (Hwr wr Ho') as [Ho Hnp].
    destruct (fo_open _ _ Hok p q wr Hq Ho) as (g & gg & Hg & Eg). exists g, gg. split; [|done].
    rewrite list_lookup_insert_ne; [done|]. intros <-. by simplify_eq.
Qed.

(** [pipeclose] of one end. *)
Lemma close_pipe_ok w p q wr (Q : unit → fworld St D → Prop) : w_pipes w !! p = Some q → pi_lock q = false → pipe_ok (pi q) →
  (∀ q', pi_lock q' = false → pipe_ok (pi q') → is_open wr q' = false → is_open (negb wr) q' = is_open (negb wr) q →
     Q tt (set_wpipes (if is_open (negb wr) q then <[p := q']> (w_pipes w) else delete p (w_pipes w)) w)) →
  wp (close_pipe p wr) w Q.
Proof.
  intros Hq Hl Hp HQ. destruct q as [[d nr nw ro wo] lk wk]. simpl in Hl, Hp. subst lk. unfold close_pipe. wp_steps. unfold pipe_m.
  unfold wp at 1. rewrite Hq. pose proof (HQ (PipeSt (Pipe d nr nw false false) false [])) as HF.
  destruct wr, ro, wo; cbn -[set_wpipes]; unfold wp, modify, set_wpipes in *; simpl in *; rewrite ?delete_insert_eq; by first [apply HF|apply HQ].
Qed.

Lemma types_kept_trans w1 w2 w3 R : types_kept R w1 w2 → types_kept R w2 w3 → types_kept R w1 w3.
Proof. intros H1 H2 f ff Hin Hf. destruct (H2 f ff Hin Hf) as (gg & Hg & ->). destruct (H1 f gg Hin Hg) as (hh & Hh & ->). eauto. Qed.
Lemma types_kept_typed w w' R : types_kept R w w' → typed w R → typed w' R.
Proof. intros Hk Ht f ff Hin Hf. destruct (Hk f ff Hin Hf) as (gg & Hg & ->). by eapply Ht. Qed.
Lemma types_kept_alloc w R f ff : w_files w !! f = Some ff → types_kept R w (set_wfiles (<[f := set_fref 1 ff]> (w_files w)) w).
Proof.
  intros Hf g gg _ Hg. simpl in Hg. destruct (decide (g = f)) as [->|]; [|rewrite list_lookup_insert_ne in Hg by done; eauto].
  rewrite list_lookup_insert_eq in Hg by (by eapply lookup_lt_Some). injection Hg as <-. eauto.
Qed.
Lemma typed_sub w R R' : (∀ f, f ∈ R' → f ∈ R) → typed w R → typed w R'.
Proof. intros Hs Ht f ff Hin. by apply Ht, Hs. Qed.

(** [fileclose] drops a reference. *)
Lemma fileclose_ok w R f : files_ok w R → f ∈ R →
  wlp (fileclose (St := St) (D := D) f) w (λ _ w', files_ok w' (R ∖ {[+ f +]}) ∧
    types_kept (R ∖ {[+ f +]}) w w').
Proof.
  intros Hok Hin. destruct (fo_names _ _ Hok f Hin) as [ff Hf]. pose proof (proj1 (file_in _ _ _ _ Hok Hf) Hin) as Hr.
  pose proof (fo_refs _ _ Hok f ff Hf) as Em. pose proof (fo_lock _ _ Hok) as Hlk.
  unfold fileclose. wlp_steps. unfold wlp at 1, acquire_ft. rewrite Hlk. wlp_steps. apply wlp_gets. simpl. rewrite Hf. simpl.
  rewrite (proj2 (Z.ltb_ge _ _)) by lia. unfold upd_file. wlp_steps. simpl.
  destruct (f_ref ff - 1 >? 0) eqn:E1; bool_prop.
  - unfold wlp, release_ft; simpl. unfold set_wlock, set_wfiles; simpl. rewrite (alter_insert _ _ _ _ Hf), <- Hlk.
    split.
    + eapply (files_ok_count w R (R ∖ {[+ f +]}) f ff (f_ref ff - 1)) in Hok; try done; [lia|lia| |].
      * rewrite multiplicity_difference, multiplicity_singleton, decide_True by done. lia.
      * intros g Hg. rewrite multiplicity_difference, multiplicity_singleton, decide_False by done. lia.
    + intros g gg' _ Hg. simpl in Hg. destruct (decide (g = f)) as [->|]; [|rewrite list_lookup_insert_ne in Hg by done; eauto].
      rewrite list_lookup_insert_eq in Hg by (by eapply lookup_lt_Some). injection Hg as <-. eauto.
  - wlp_steps. simpl. unfold wlp at 1, release_ft; simpl. wlp_steps. unfold set_wlock, set_wfiles; simpl.
    rewrite list_alter_alter_eq, (alter_insert _ _ _ _ Hf). simpl. fold (closed_file ff). rewrite <- Hlk.
    assert (multiplicity f R = 1%nat) as Hm by lia.
    change (FW _ _ _ _ _ _) with (set_wfiles (<[f := closed_file ff]> (w_files w)) w). set (w1 := set_wfiles _ w).
    assert (∀ w', Forall2 same_file (w_files w1) (w_files w') → types_kept (R ∖ {[+ f +]}) w w') as Htypes.
    { intros w' S2 g gg' Hg Hgg. eapply Forall2_lookup_r in S2 as (gg & Hgg0 & (-> & _)); [|done]. unfold w1 in Hgg0. simpl in Hgg0.
      rewrite elem_of_multiplicity, multiplicity_difference, multiplicity_singleton in Hg. case_decide as E; [subst; lia|].
      rewrite list_lookup_insert_ne in Hgg0 by done. eauto. }
    destruct (decide (f_type ff = FD_PIPE)) as [Ept|Ept].
    + rewrite Ept. destruct (fo_end _ _ Hok f ff Hf Ept) as (Er & q & Hq & Ho). destruct (fo_pipe _ _ Hok _ q Hq) as (Hl & Hp & Hlt & _).
      assert (∀ p wr, pipe_end p wr ff ↔ p = f_pipe ff ∧ wr = f_writable ff) as Hpe.
      { intros p wr. unfold pipe_end. rewrite Ept, Er. naive_solver. }
      apply wp_wlp. eapply (close_pipe_ok w1 _ q); [done|done|done|]. intros q' Hl' Hp' Hc' Ho'. unfold w1.
      split.
      2: { intros g gg' Hg Hgg. apply (Htypes w1 (same_files_refl _) g gg' Hg Hgg). }
      apply files_ok_close; [done|done|done| |].
      * intros p r Hr'. simpl in Hr'. destruct (decide (p = f_pipe ff)) as [->|Hn].
        { destruct (is_open (negb (f_writable ff)) q) eqn:Eo; [|by rewrite lookup_delete_eq in Hr']. rewrite lookup_insert_eq in Hr'. injection Hr' as <-.
          exists q. split_and!; [done|done|done| |].
          - destruct (f_writable ff); simpl in *; rewrite Ho'; auto.
          - intros wr Hwr. destruct (f_writable ff) eqn:Ew, wr; simpl in *; try congruence; (split; [done|]); intros [_ E]%Hpe; congruence. }
        assert (w_pipes w !! p = Some r) as Hr2 by by (destruct (is_open (negb (f_writable ff)) q); [by rewrite lookup_insert_ne in Hr'|by rewrite lookup_delete_ne in Hr']).
        exists r. destruct (fo_pipe _ _ Hok p r Hr2) as (H1 & H2 & _ & H3). split_and!; try done. intros wr Hwr. split; [done|]. rewrite Hpe. naive_solver.
      * intros p r wr Hr' Hor Hn. simpl. destruct (decide (p = f_pipe ff)) as [->|Hnp].
        { assert (r = q) as -> by congruence. assert (wr = negb (f_writable ff)) as ->.
          { rewrite Hpe in Hn. destruct wr, (f_writable ff); naive_solver. }
          rewrite Hor. rewrite lookup_insert_eq. exists q'. split; [done|congruence]. }
        exists r. split; [|done]. destruct (is_open (negb (f_writable ff)) q); [by rewrite lookup_insert_ne|by rewrite lookup_delete_ne].
    + assert (files_ok w1 (R ∖ {[+ f +]})) as Hok1.
      { replace w1 with (set_wpipes (w_pipes w) w1) by (by destruct w). apply files_ok_close; [done|done|done| |].
        - intros p q Hq. exists q. destruct (fo_pipe _ _ Hok p q Hq) as (Hl & Hp & _ & Ho). split_and!; try done.
          intros wr Ho'. split; [done|]. by intros (E & _).
        - intros p q wr Hq Ho _. eauto. }
      eapply (wlp_mono _ _ (λ _ w', same_table w1 w')).
      * destruct (f_type ff); try done; try (apply wlp_ret; by eapply same_table_refl).
        all: assert (keeps (fs_m (tio op_begin);; fs_m (iput (f_ip ff));; fs_m (tio op_end))) as Hk by keeping.
        all: eapply wlp_mono; [apply (Hk w1)|]; intros ? w' S'; exact (S' _ Hok1).
      * intros _ w' S'. split; [by eapply same_table_files_ok|apply Htypes, S'].
Qed.

(** *** The ends of a new pipe *)

(** Two files just allocated become the ends of a new pipe. *)
Lemma files_ok_pipe w R f g ff gg page : files_ok w R → f ≠ g → w_files w !! f = Some ff → w_files w !! g = Some gg →
  f_type ff = FD_NONE → f_type gg = FD_NONE → f ∈ R → g ∈ R → length page = Z.to_nat PIPESIZE →
  let n := w_pages w in
  files_ok (set_wfiles (<[g := pipe_file n true gg]> (<[f := pipe_file n false ff]> (w_files w)))
    (set_wpipes (<[n := PipeSt (new_pipe page) false []]> (w_pipes w)) (set_wpages (S n) w))) R.
Proof.
  intros Hok Hfg Hf Hg Tf Tg If Ig Hpage n. set (l := <[g := _]> _).
  assert (w_pipes w !! n = None) as Hn.
  { destruct (w_pipes w !! n) as [q|] eqn:E; [|done]. destruct (fo_pipe _ _ Hok n q E) as (_ & _ & Hlt & _). unfold n in Hlt. lia. }
  assert (∀ h hh, l !! h = Some hh → h = f ∧ hh = pipe_file n false ff ∨ h = g ∧ hh = pipe_file n true gg ∨ h ≠ f ∧ h ≠ g ∧ w_files w !! h = Some hh) as Hb.
  { intros h hh Hh. unfold l in Hh. destruct (decide (h = g)) as [->|Hhg].
    - rewrite list_lookup_insert_eq in Hh by (rewrite length_insert; by eapply lookup_lt_Some). right; left. by simplify_eq.
    - rewrite list_lookup_insert_ne in Hh by done. destruct (decide (h = f)) as [->|Hhf].
      + rewrite list_lookup_insert_eq in Hh by (by eapply lookup_lt_Some). left. by simplify_eq.
      + rewrite list_lookup_insert_ne in Hh by done. auto. }
  assert (l !! f = Some (pipe_file n false ff)) as Lf.
  { unfold l. rewrite list_lookup_insert_ne, list_lookup_insert_eq by (done || by eapply lookup_lt_Some). done. }
  assert (l !! g = Some (pipe_file n true gg)) as Lg by (unfold l; rewrite list_lookup_insert_eq; [done|rewrite length_insert; by eapply lookup_lt_Some]).
  assert (∀ h, h ≠ f → h ≠ g → l !! h = w_files w !! h) as Ln by (intros; unfold l; by rewrite !list_lookup_insert_ne by done).
  assert (∀ h hh p wr, w_files w !! h = Some hh → pipe_end p wr hh → p ≠ n ∧ h ≠ f ∧ h ≠ g) as Hold.
  { intros h hh p wr Hh (E1 & E2 & E3 & _). split_and!; [|intros ->; congruence|intros ->; congruence].
    intros ->. destruct (fo_end _ _ Hok h hh Hh E1) as (_ & q & Hq & _). congruence. }
  assert (∀ p wr, pipe_end p wr (pipe_file n false ff) ↔ p = n ∧ wr = false) as Ef.
  { intros p wr. unfold pipe_end; simpl. split; [|naive_solver]. intros (_ & <- & <- & _). done. }
  assert (∀ p wr, pipe_end p wr (pipe_file n true gg) ↔ p = n ∧ wr = true) as Eg.
  { intros p wr. unfold pipe_end; simpl. split; [|naive_solver]. intros (_ & <- & <- & _). done. }
  split; unfold set_wfiles, set_wpipes, set_wpages; simpl.
  - apply Hok.
  - intros h [hh Hh]%(fo_names _ _ Hok). apply lookup_lt_is_Some. unfold l. rewrite !length_insert. by eapply lookup_lt_Some.
  - intros h hh [[-> ->]|[[-> ->]|(_ & _ & Hh)]]%Hb; simpl; by apply (fo_refs _ _ Hok).
  - intros h hh [[-> ->]|[[-> ->]|(_ & _ & Hh)]]%Hb; simpl; intros E0.
    + apply (file_in _ _ _ _ Hok Hf) in If. lia.
    + apply (file_in _ _ _ _ Hok Hg) in Ig. lia.
    + by apply (fo_closed _ _ Hok h).
  - intros h hh [[-> ->]|[[-> ->]|(_ & _ & Hh)]]%Hb Ht; simpl; [split; [done|]; rewrite lookup_insert_eq; eauto..|].
    destruct (fo_end _ _ Hok h hh Hh Ht) as (Er & q & Hq & Ho). split; [done|]. exists q. split; [|done].
    rewrite lookup_insert_ne; [done|]. intros E. rewrite <- E in Hq. congruence.
  - intros h k hh kk p wr Hh%Hb Hk%Hb Eh Ek. destruct Hh as [[-> ->]|[[-> ->]|(_ & _ & Hh)]], Hk as [[-> ->]|[[-> ->]|(_ & _ & Hk)]]; try done.
    all: rewrite ?Ef, ?Eg in *; try (by destruct Eh, Ek; congruence).
    all: try (exfalso; destruct (Hold _ _ _ _ Hk Ek) as (Hpn & _); destruct Eh as [Ep _]; exact (Hpn Ep)).
    all: try (exfalso; destruct (Hold _ _ _ _ Hh Eh) as (Hpn & _); destruct Ek as [Ep _]; exact (Hpn Ep)).
    by eapply (fo_ends _ _ Hok h k hh kk).
  - intros p q. destruct (decide (p = n)) as [->|Hp].
    + rewrite lookup_insert_eq. intros [= <-]. unfold pipe_ok, plen, new_pipe; simpl. split; [done|]. split; [|split; [unfold n; lia|auto]].
      split_and!; try done; lia.
    + rewrite lookup_insert_ne by done. intros Hq. destruct (fo_pipe _ _ Hok p q Hq) as (H1 & H2 & H3 & H4). split_and!; try done. unfold n. lia.
  - intros p q wr. destruct (decide (p = n)) as [->|Hp].
    + intros _ _. destruct wr; [exists g|exists f]; eexists; (split; [done|]); [by apply Eg|by apply Ef].
    + rewrite lookup_insert_ne by done. intros Hq Ho. destruct (fo_open _ _ Hok p q wr Hq Ho) as (h & hh & Hh & Eh).
      destruct (Hold h hh p wr Hh Eh) as (_ & H1 & H2). exists h, hh. by rewrite Ln.
Qed.

(** [pipealloc] makes two references, or none. *)
Lemma pipealloc_ok kpage w R : (∀ n page, kpage n = Some page → length page = Z.to_nat PIPESIZE) → files_ok w R → typed w R →
  wlp (pipealloc (St := St) (D := D) kpage) w (λ r w', match r with
    | None => files_ok w' R ∧ typed w' R
    | Some (f, g) => files_ok w' (R ⊎ {[+ f +]} ⊎ {[+ g +]}) ∧ typed w' (R ⊎ {[+ f +]} ⊎ {[+ g +]})
    end).
Proof.
  intros Hpage Hok Ht. unfold pipealloc. wlp_steps. eapply wlp_mono; [by apply wp_wlp, filealloc_ok|]. intros [f|] w1 Hw1; simpl in Hw1.
  2: { subst w1. by wlp_steps. }
  destruct Hw1 as (ff & Hf & Tf & Nf & ->). pose proof (files_ok_alloc w R f ff Hok Hf Tf Nf) as Hok1.
  pose proof (types_kept_alloc w R f ff Hf) as K1. set (w1 := set_wfiles _ w) in *.
  assert (w_files w1 !! f = Some (set_fref 1 ff)) as Hf1 by (apply list_lookup_insert_eq; by eapply lookup_lt_Some).
  wlp_steps. eapply wlp_mono; [by apply wp_wlp, (filealloc_ok w1 _ Hok1)|]. intros [g|] w2 Hw2; simpl in Hw2.
  2: { subst w2. wlp_steps. eapply wlp_mono; [apply (fileclose_ok w1 _ f Hok1); multiset_solver|]. intros _ w3 [Hok3 K3].
       rewrite add_remove in Hok3, K3. wlp_steps. split; [done|]. eapply types_kept_typed; [|done]. by eapply types_kept_trans. }
  destruct Hw2 as (gg & Hg & Tg & Ng & ->). pose proof (files_ok_alloc w1 _ g gg Hok1 Hg Tg Ng) as Hok2.
  pose proof (types_kept_alloc w1 R g gg Hg) as K2. set (w2 := set_wfiles _ w1) in *.
  assert (f ≠ g) as Hfg by multiset_solver.
  assert (w_files w2 !! f = Some (set_fref 1 ff)) as Hf2 by (unfold w2; simpl; by rewrite list_lookup_insert_ne).
  assert (w_files w2 !! g = Some (set_fref 1 gg)) as Hg2 by (apply list_lookup_insert_eq; by eapply lookup_lt_Some).
  wlp_steps. unfold wlp at 1, alloc_pipe. destruct (kpage (w_pages w2)) as [page|] eqn:Ep.
  - wlp_steps. unfold upd_file. wlp_steps. simpl.
    assert (∀ h, <[g := pipe_file (w_pages w2) true (set_fref 1 gg)]> (<[f := pipe_file (w_pages w2) false (set_fref 1 ff)]> (w_files w2)) = h →
      alter (pipe_file (w_pages w2) true) g (alter (pipe_file (w_pages w2) false) f (w_files w2)) = h) as Ealt.
    { intros h <-. rewrite (alter_insert _ _ _ _ Hf2). apply alter_insert. by rewrite list_lookup_insert_ne. }
    pose proof (files_ok_pipe w2 _ f g _ _ page Hok2 Hfg Hf2 Hg2 Tf Tg ltac:(multiset_solver) ltac:(multiset_solver) (Hpage _ _ Ep)) as Hok3.
    unfold set_wfiles, set_wpipes, set_wpages in *. simpl in *. erewrite Ealt by done. split; [exact Hok3|].
    intros h hh Hin Hh. simpl in Hh. destruct (decide (h = g)) as [->|Hhg].
    { rewrite list_lookup_insert_eq in Hh by (rewrite length_insert; by eapply lookup_lt_Some). by injection Hh as <-. }
    rewrite list_lookup_insert_ne in Hh by done. destruct (decide (h = f)) as [->|Hhf].
    { rewrite list_lookup_insert_eq in Hh by (by eapply lookup_lt_Some). by injection Hh as <-. }
    rewrite list_lookup_insert_ne in Hh by done. eapply (types_kept_typed w w2 R); [by eapply types_kept_trans|done| |exact Hh]. multiset_solver.
  - set (w3 := set_wpages _ w2).
    assert (files_ok w3 (R ⊎ {[+ f +]} ⊎ {[+ g +]})) as Hok3.
    { destruct Hok2 as [A1 A2 A3 A4 A5 A6 A7 A8]. split; try done. intros p q Hq. destruct (A7 p q Hq) as (? & ? & Hlt & ?). split_and!; try done. exact (Nat.lt_lt_succ_r _ _ Hlt). }
    wlp_steps. eapply wlp_mono; [apply (fileclose_ok w3 _ f Hok3); multiset_solver|]. intros _ w4 [Hok4 K4].
    assert ((R ⊎ {[+ f +]} ⊎ {[+ g +]}) ∖ {[+ f +]} = R ⊎ {[+ g +]}) as E by multiset_solver. rewrite E in Hok4, K4.
    wlp_steps. eapply wlp_mono; [apply (fileclose_ok w4 _ g Hok4); multiset_solver|]. intros _ w5 [Hok5 K5].
    rewrite add_remove in Hok5, K5. wlp_steps. split; [done|]. eapply types_kept_typed; [|done]. eapply types_kept_trans; [|exact K5].
    eapply types_kept_trans; [by eapply types_kept_trans|]. intros h hh Hin Hh. apply (K4 h hh); [multiset_solver|done].
Qed.
End files.
