(* ===== verification/Sysfile.v ===== *)
(** kernel/sysfile.c: the system calls on files, over the process table, the
    open files and the file system; and the arguments of system calls, from
    kernel/syscall.c.  [sys_exec] is in [Syscall]. *)
From S2P Require Import Prelude Riscv Memory Kalloc Vm Proc Bytes Bio Txn TxnOps Fs Pipe Ftable.

(** ** Definitions *)

(** *** The arguments of a system call *)

Definition MAXPATH : Z := 128.
Definition MAXARG : Z := 32.
(** [a7], the number of the system call, in the trapframe. *)
Definition TF_A7 : Z := 168.

Section args.
Context `{L : Layout} {F : Type} `{FO : Files F}.
Local Notation P := (M (pst F)).

(** The 64-bit word at [addr] of process [me], or none for -1. *)
Definition fetchaddr (me : nat) (addr : Z) : P (option Z) :=
  p ← get_p me;
  if (addr >=? p_sz p) || (u64 (addr + 8) >? p_sz p) then mret None
  else
    r ← kern_m (copyin (p_pagetable p) addr 8);
    mret (le_get <$> r).

(** The bytes before the NUL of the string at [addr], or none for -1; the
    buffer has [max] bytes. *)
Definition fetchstr (me : nat) (addr max : Z) : P (option (list Z)) :=
  p ← get_p me;
  r ← kern_m (copyinstr (p_pagetable p) addr max);
  mret ((λ s, removelast s) <$> r).

Definition argraw (me : nat) (n : Z) : P Z :=
  p ← get_p me;
  if (n <? 0) || (n >? 5) then panic "argraw"
  else kern_m (load64 (p_trapframe p + TF_A0 + 8 * n)).
Definition argint (me : nat) (n : Z) : P Z := x ← argraw me n; mret (i32 x).
Definition argaddr (me : nat) (n : Z) : P Z := argraw me n.
Definition argstr (me : nat) (n max : Z) : P (option (list Z)) :=
  addr ← argaddr me n;
  fetchstr me addr max.
End args.

(** *** Files *)

Definition O_RDONLY : Z := 0.
Definition O_WRONLY : Z := 1.
Definition O_RDWR : Z := 2.
Definition O_CREATE : Z := 0x200.
Definition O_TRUNC : Z := 0x400.
Definition flag (omode f : Z) : bool := negb (Z.land omode f =? 0).

(** The addresses processes sleep on: the counters of a pipe, and the log. *)
Class Channels := { pipe_chan : nat → pchan → Z; log_chan : Z }.

Section sysfile.
Context `{L : Layout} {St : Type} `{OP : Ops St} {D : Type} `{DV : Devices D} `{CH : Channels}.
(** The page that the [n]-th [kalloc] for a pipe gets, if any. *)
Context (kpage : nat → option (list Z)).
Local Notation W := (fworld St D).
Local Notation P := (M (pst W)).

(** [fileclose], and whom it wakes: the other end of a pipe, or whoever waits
    for the log. *)
Definition close_wakes (ff : file) : list chan :=
  if negb (f_ref ff =? 1) then []
  else match f_type ff with
       | FD_PIPE => [ChAddr (pipe_chan (f_pipe ff) (if f_writable ff then Nread else Nwrite))]
       | FD_INODE | FD_DEVICE => [ChAddr log_chan]
       | FD_NONE => []
       end.
Global Instance kernel_files : Files W := {|
  f_dup := filedup;
  f_close := λ f, ff ← file_at f; fileclose f;; mret (close_wakes ff);
  f_idup := λ ip, fs_m (idup ip);
  f_iput := λ ip, fs_m (tio op_begin);; fs_m (iput ip);; fs_m (tio op_end);; mret [ChAddr log_chan];
  f_root := r ← fs_m (namei 0 [slash]); match r with Some ip => mret ip | None => panic "null dereference" end
|}.

Definition fsm {A} (m : M (St * fsst) A) : P A := file_m (fs_m m).
Definition begin_fs : P unit := fsm (tio op_begin).
Definition end_fs (me : nat) : P unit := fsm (tio op_end);; wakeup (Some me) (ChAddr log_chan).
Definition closef (me f : nat) : P unit :=
  chs ← file_m (f_close f);
  foreach (wakeup (Some me)) chs.
Definition my_cwd (me : nat) : P nat := p ← get_p me; mret (default O (p_cwd p)).
Definition am_killed (me : nat) : P bool := p ← get_p me; mret (negb (p_killed p =? 0)).

(** *** Descriptors *)

(** [argfd]: the descriptor and its file, or none for -1. *)
Definition argfd (me : nat) (n : Z) : P (option (nat * nat)) :=
  fd ← argint me n;
  if (fd <? 0) || (fd >=? Z.of_nat NOFILE) then mret None
  else
    p ← get_p me;
    match p_ofile p !! Z.to_nat fd with
    | Some (Some f) => mret (Some (Z.to_nat fd, f))
    | _ => mret None
    end.

(** The loop of [fdalloc]. *)
Fixpoint find_fd (l : list (option nat)) (fd : nat) : option nat :=
  match l with
  | [] => None
  | None :: _ => Some fd
  | Some _ :: l' => find_fd l' (S fd)
  end.
Definition set_fd (me fd : nat) (o : option nat) : P unit := upd_p me (λ p, set_p_ofile (<[fd := o]> (p_ofile p)) p).
Definition fdalloc (me f : nat) : P (option nat) :=
  p ← get_p me;
  match find_fd (p_ofile p) 0 with
  | Some fd => set_fd me fd (Some f);; mret (Some fd)
  | None => mret None
  end.

Definition sys_dup (me : nat) : P Z :=
  r ← argfd me 0;
  match r with
  | None => mret (-1)
  | Some (_, f) =>
      r ← fdalloc me f;
      match r with
      | None => mret (-1)
      | Some fd => file_m (filedup f);; mret (Z.of_nat fd)
      end
  end.

(** A turn of [sys_read] or [sys_write]; [ok] and [fetch] tell which copies to
    and from user memory work, [i] is where a write that slept goes on. *)
Definition sys_read (me : nat) (ok : Z → Z → bool) : P fturn :=
  p ← argaddr me 1;
  n ← argint me 2;
  r ← argfd me 0;
  match r with
  | None => mret (FDone (-1) [])
  | Some (_, f) => k ← am_killed me; file_m (fileread f ok k p n)
  end.

Definition sys_write (me : nat) (fetch : Z → option Z) (i : Z) : P fturn :=
  p ← argaddr me 1;
  n ← argint me 2;
  r ← argfd me 0;
  match r with
  | None => mret (FDone (-1) [])
  | Some (_, f) => k ← am_killed me; file_m (filewrite f fetch k p n i)
  end.

Definition sys_close (me : nat) : P Z :=
  r ← argfd me 0;
  match r with
  | None => mret (-1)
  | Some (fd, f) => set_fd me fd None;; closef me f;; mret 0
  end.

Definition sys_fstat (me : nat) (ok : Z → Z → bool) : P (Z * option (Z * Z * Z * Z * Z)) :=
  st ← argaddr me 1;
  r ← argfd me 0;
  match r with
  | None => mret (-1, None)
  | Some (_, f) => file_m (filestat f ok st)
  end.

(** *** Names: what the calls do between [begin_op] and [end_op] *)

Section names.
Local Notation FM := (M (St * fsst)).

Definition sys_link_op (cwd : nat) (old new : list Z) : FM Z :=
  r ← namei cwd old;
  match r with
  | None => mret (-1)
  | Some ip =>
      ilock ip;;
      n ← inode_at ip;
      if i_type n =? T_DIR then iunlockput ip;; mret (-1)
      else
        upd_inode ip (λ n, set_inlink (i16 (i_nlink n + 1)) n);;
        iupdate ip;;
        iunlock ip;;
        let bad :=
          ilock ip;;
          upd_inode ip (λ n, set_inlink (i16 (i_nlink n - 1)) n);;
          iupdate ip;;
          iunlockput ip;;
          mret (-1) in
        r ← nameiparent cwd new;
        match r with
        | None => bad
        | Some (dp, name) =>
            ilock dp;;
            d ← inode_at dp;
            n ← inode_at ip;
            w ← (if negb (i_dev d =? i_dev n) then mret (-1) else dirlink dp name (i_inum n));
            if w <? 0 then iunlockput dp;; bad
            else iunlockput dp;; iput ip;; mret 0
        end
  end.

Definition isdirempty (dp : nat) : FM bool :=
  n ← inode_at dp;
  while_ (S (Z.to_nat (i_size n)))
    (λ off,
      n ← inode_at dp;
      if negb (off <? i_size n) then mret (inr true)
      else
        de ← read_dirent "isdirempty: readi" dp off;
        if negb (de_inum de =? 0) then mret (inr false) else mret (inl (off + DIRENT)))
    (2 * DIRENT).

Definition dot : list Z := [46].
Definition dotdot : list Z := [46; 46].

Definition sys_unlink_op (cwd : nat) (path : list Z) : FM Z :=
  r ← nameiparent cwd path;
  match r with
  | None => mret (-1)
  | Some (dp, name) =>
      let bad := iunlockput dp;; mret (-1) in
      ilock dp;;
      if (namecmp name dot =? 0) || (namecmp name dotdot =? 0) then bad
      else
        r ← dirlookup dp name;
        match r with
        | None => bad
        | Some (ip, off) =>
            ilock ip;;
            n ← inode_at ip;
            if i_nlink n <? 1 then panic "unlink: nlink < 1"
            else
              e ← (if i_type n =? T_DIR then isdirempty ip else mret true);
              if negb e then iunlockput ip;; bad
              else
                w ← writei dp kernel_copyin 0 (print_dirent (Dirent 0 (replicate (Z.to_nat DIRSIZ) 0))) off;
                if negb (w =? DIRENT) then panic "unlink: writei"
                else
                  (if i_type n =? T_DIR then
                     upd_inode dp (λ d, set_inlink (i16 (i_nlink d - 1)) d);; iupdate dp
                   else mret tt);;
                  iunlockput dp;;
                  upd_inode ip (λ n, set_inlink (i16 (i_nlink n - 1)) n);;
                  iupdate ip;;
                  iunlockput ip;;
                  mret 0
        end
  end.

Definition set_dev (major minor : Z) (n : inode) : inode :=
  Inode (i_dev n) (i_inum n) (i_ref n) (i_lock n) (i_valid n) (i_type n) major minor 1 (i_size n) (i_addrs n).

(** [create]: the locked inode. *)
Definition create (cwd : nat) (path : list Z) (type major minor : Z) : FM (option nat) :=
  r ← nameiparent cwd path;
  match r with
  | None => mret None
  | Some (dp, name) =>
      ilock dp;;
      r ← dirlookup dp name;
      match r with
      | Some (ip, _) =>
          iunlockput dp;;
          ilock ip;;
          n ← inode_at ip;
          if (type =? T_FILE) && ((i_type n =? T_FILE) || (i_type n =? T_DEVICE)) then mret (Some ip)
          else iunlockput ip;; mret None
      | None =>
          d ← inode_at dp;
          r ← ialloc (i_dev d) type;
          match r with
          | None => iunlockput dp;; mret None
          | Some ip =>
              ilock ip;;
              upd_inode ip (set_dev major minor);;
              iupdate ip;;
              n ← inode_at ip;
              d ← inode_at dp;
              w ← (if type =? T_DIR then
                     w ← dirlink ip dot (i_inum n);
                     if w <? 0 then mret w else dirlink ip dotdot (i_inum d)
                   else mret 0);
              w ← (if w <? 0 then mret w else dirlink dp name (i_inum n));
              if w <? 0 then
                upd_inode ip (set_inlink 0);;
                iupdate ip;;
                iunlockput ip;;
                iunlockput dp;;
                mret None
              else
                (if type =? T_DIR then
                   upd_inode dp (λ d, set_inlink (i16 (i_nlink d + 1)) d);; iupdate dp
                 else mret tt);;
                iunlockput dp;;
                mret (Some ip)
          end
      end
  end.

(** [sys_open] up to the inode, locked. *)
Definition open_inode_op (cwd : nat) (path : list Z) (omode : Z) : FM (option nat) :=
  r ← (if flag omode O_CREATE then create cwd path T_FILE 0 0
       else
         r ← namei cwd path;
         match r with
         | None => mret None
         | Some ip =>
             ilock ip;;
             n ← inode_at ip;
             if (i_type n =? T_DIR) && negb (omode =? O_RDONLY) then iunlockput ip;; mret None
             else mret (Some ip)
         end);
  match r with
  | None => mret None
  | Some ip =>
      n ← inode_at ip;
      if (i_type n =? T_DEVICE) && ((i_major n <? 0) || (i_major n >=? NDEV)) then iunlockput ip;; mret None
      else mret (Some ip)
  end.

Definition make_node_op (cwd : nat) (path : list Z) (type major minor : Z) : FM Z :=
  r ← create cwd path type major minor;
  match r with
  | None => mret (-1)
  | Some ip => iunlockput ip;; mret 0
  end.

(** [sys_chdir]: the new directory. *)
Definition sys_chdir_op (cwd : nat) (path : list Z) : FM (option nat) :=
  r ← namei cwd path;
  match r with
  | None => mret None
  | Some ip =>
      ilock ip;;
      n ← inode_at ip;
      if negb (i_type n =? T_DIR) then iunlockput ip;; mret None
      else iunlock ip;; iput cwd;; mret (Some ip)
  end.
End names.

(** *** System calls on names *)

Definition sys_link (me : nat) : P Z :=
  old ← argstr me 0 MAXPATH;
  match old with
  | None => mret (-1)
  | Some old =>
      new ← argstr me 1 MAXPATH;
      match new with
      | None => mret (-1)
      | Some new =>
          begin_fs;;
          cwd ← my_cwd me;
          r ← fsm (sys_link_op cwd old new);
          end_fs me;;
          mret r
      end
  end.

Definition sys_unlink (me : nat) : P Z :=
  path ← argstr me 0 MAXPATH;
  match path with
  | None => mret (-1)
  | Some path =>
      begin_fs;;
      cwd ← my_cwd me;
      r ← fsm (sys_unlink_op cwd path);
      end_fs me;;
      mret r
  end.

(** The file of an open inode. *)
Definition opened (ip : nat) (n : inode) (omode : Z) (f : file) : file :=
  let rd := negb (flag omode O_WRONLY) in
  let wr := flag omode O_WRONLY || flag omode O_RDWR in
  if i_type n =? T_DEVICE then File FD_DEVICE (f_ref f) rd wr (f_pipe f) ip (f_off f) (i_major n)
  else File FD_INODE (f_ref f) rd wr (f_pipe f) ip 0 (f_major f).

(** [sys_open] from the inode on, until [end_op]. *)
Definition open_file (me ip : nat) (omode : Z) : P Z :=
  let bad := fsm (iunlockput ip);; mret (-1) in
  r ← file_m filealloc;
  match r with
  | None => bad
  | Some f =>
      r ← fdalloc me f;
      match r with
      | None => closef me f;; bad
      | Some fd =>
          n ← fsm (inode_at ip);
          file_m (upd_file f (opened ip n omode));;
          (if flag omode O_TRUNC && (i_type n =? T_FILE) then fsm (itrunc ip) else mret tt);;
          fsm (iunlock ip);;
          mret (Z.of_nat fd)
      end
  end.

Definition sys_open (me : nat) : P Z :=
  omode ← argint me 1;
  path ← argstr me 0 MAXPATH;
  match path with
  | None => mret (-1)
  | Some path =>
      begin_fs;;
      cwd ← my_cwd me;
      r ← fsm (open_inode_op cwd path omode);
      r ← (match r with None => mret (-1) | Some ip => open_file me ip omode end);
      end_fs me;;
      mret r
  end.

Definition sys_mkdir (me : nat) : P Z :=
  begin_fs;;
  path ← argstr me 0 MAXPATH;
  cwd ← my_cwd me;
  r ← (match path with None => mret (-1) | Some path => fsm (make_node_op cwd path T_DIR 0 0) end);
  end_fs me;;
  mret r.

Definition sys_mknod (me : nat) : P Z :=
  begin_fs;;
  major ← argint me 1;
  minor ← argint me 2;
  path ← argstr me 0 MAXPATH;
  cwd ← my_cwd me;
  r ← (match path with
       | None => mret (-1)
       | Some path => fsm (make_node_op cwd path T_DEVICE (i16 major) (i16 minor))
       end);
  end_fs me;;
  mret r.

Definition sys_chdir (me : nat) : P Z :=
  begin_fs;;
  path ← argstr me 0 MAXPATH;
  cwd ← my_cwd me;
  r ← (match path with None => mret None | Some path => fsm (sys_chdir_op cwd path) end);
  end_fs me;;
  match r with
  | None => mret (-1)
  | Some ip => upd_p me (set_p_cwd (Some ip));; mret 0
  end.

Definition sys_pipe (me : nat) : P Z :=
  fdarray ← argaddr me 0;
  r ← file_m (pipealloc kpage);
  match r with
  | None => mret (-1)
  | Some (rf, wf) =>
      let close := closef me rf;; closef me wf;; mret (-1) in
      r ← fdalloc me rf;
      match r with
      | None => close
      | Some fd0 =>
          r ← fdalloc me wf;
          match r with
          | None => set_fd me fd0 None;; close
          | Some fd1 =>
              p ← get_p me;
              c ← kern_m (copyout (p_pagetable p) fdarray (int_bytes (Z.of_nat fd0)));
              c ← (if c <? 0 then mret c
                   else kern_m (copyout (p_pagetable p) (u64 (fdarray + 4)) (int_bytes (Z.of_nat fd1))));
              if c <? 0 then set_fd me fd0 None;; set_fd me fd1 None;; close
              else mret 0
          end
      end
  end.
End sysfile.
