(* ===== verification/Descriptors.v ===== *)
(** File descriptors: in every state the kernel can reach, the reference count
    of each open file is the number of descriptors that name it. *)
From stdpp Require Import gmultiset.
From S2P Require Import Prelude Riscv Memory Kalloc Vm Bytes Bio Txn TxnOps Fs Partial.
From S2P Require Import Proc ProcInv ProcEffect ProcReach Pipe Ftable FtableRefs Sysfile.

(** ** Definitions *)

(** The files that descriptors name. *)
Definition own (o : list (option nat)) : gmultiset nat := list_to_set_disj (omap id o).
Definition refs (l : list proc) : gmultiset nat := list_to_set_disj (l ≫= λ p, omap id (p_ofile p)).
Definition no_files (p : proc) : Prop := Forall (λ o, o = None) (p_ofile p).

(** The process table and the open files agree; besides the descriptors there
    are the references [X], and the files [Y] have no type yet. *)
Record fd_table {St D} (X : gmultiset nat) (Y : gset nat) (l : list proc) (w : fworld St D) : Prop := {
  fd_size : length l = NPROC;
  fd_files : files_ok w (refs l ⊎ X);
  fd_typed f ff : f ∈ refs l → f ∉ Y → w_files w !! f = Some ff → f_type ff ≠ FD_NONE;
  fd_len i p : l !! i = Some p → length (p_ofile p) = NOFILE;
  fd_idle i p : l !! i = Some p → idle p → no_files p
}.

(** ** Lemmas *)

(** *** References of a table *)

Lemma refs_middle l1 p l2 : refs (l1 ++ p :: l2) = own (p_ofile p) ⊎ refs (l1 ++ l2).
Proof. unfold refs, own. rewrite !bind_app, bind_cons, !list_to_set_disj_app. multiset_solver. Qed.

Lemma refs_insert l i p q : l !! i = Some p → refs (<[i := q]> l) ⊎ own (p_ofile p) = refs l ⊎ own (p_ofile q).
Proof.
  intros Hi. rewrite <- (take_drop_middle l i p Hi) at 2. rewrite (insert_take_drop l i q) by (by eapply lookup_lt_Some).
  rewrite !refs_middle. multiset_solver.
Qed.

Lemma refs_same l l' : Forall2 same_fds l l' → refs l' = refs l.
Proof. intros H. unfold refs. induction H as [|p q l l' [E _] _ IH]; [done|]. rewrite !bind_cons, !list_to_set_disj_app, E. by rewrite IH. Qed.

Definition one (o : option nat) : gmultiset nat := match o with Some f => {[+ f +]} | None => ∅ end.
Lemma own_middle l1 x l2 : own (l1 ++ x :: l2) = one x ⊎ own (l1 ++ l2).
Proof.
  unfold own. rewrite !omap_app, !list_to_set_disj_app. destruct x as [f|]; simpl one.
  - change (omap id (Some f :: l2)) with (f :: omap id l2). rewrite list_to_set_disj_cons. multiset_solver.
  - change (omap id (None :: l2)) with (omap id l2). multiset_solver.
Qed.
Lemma own_insert o fd x y : o !! fd = Some x → own (<[fd := y]> o) ⊎ one x = own o ⊎ one y.
Proof.
  intros Hi. rewrite <- (take_drop_middle o fd x Hi) at 2. rewrite (insert_take_drop o fd y) by (by eapply lookup_lt_Some).
  rewrite !own_middle. multiset_solver.
Qed.
Lemma own_in o fd f : o !! fd = Some (Some f) → f ∈ own o.
Proof. intros Hi. rewrite <- (take_drop_middle o fd _ Hi), own_middle. simpl. multiset_solver. Qed.
Lemma own_none o : Forall (λ x, x = None) o → own o = ∅.
Proof. induction 1 as [|x o -> _ IH]; [done|]. done. Qed.

Lemma refs_in l i p f : l !! i = Some p → f ∈ own (p_ofile p) → f ∈ refs l.
Proof. intros Hi Hf. rewrite <- (take_drop_middle l i p Hi), refs_middle. multiset_solver. Qed.

(** One descriptor of one process changes. *)
Lemma refs_fd l i p fd x y : l !! i = Some p → p_ofile p !! fd = Some x →
  refs (<[i := set_p_ofile (<[fd := y]> (p_ofile p)) p]> l) ⊎ one x = refs l ⊎ one y.
Proof.
  intros Hi Hfd. pose proof (refs_insert l i p (set_p_ofile (<[fd := y]> (p_ofile p)) p) Hi) as E1. simpl in E1.
  pose proof (own_insert (p_ofile p) fd x y Hfd) as E2. multiset_solver.
Qed.

Lemma refs_ofile l i q q' : p_ofile q = p_ofile q' → refs (<[i := q]> l) = refs (<[i := q']> l).
Proof.
  intros E. destruct (decide (i < length l)%nat) as [Hi|Hi].
  - rewrite !insert_take_drop by done. rewrite !refs_middle. by rewrite E.
  - by rewrite !list_insert_ge by lia.
Qed.

Section table.
Context {St D : Type}.
Implicit Types (l : list proc) (w : fworld St D).

Lemma fd_table_frame X Y l l' w : fd_table X Y l w → Forall2 same_fds l l' → fd_table X Y l' w.
Proof.
  intros [H1 H2 H3 H4 H5] Hf. pose proof (refs_same _ _ Hf) as E. split.
  - by rewrite <- (Forall2_length _ _ _ Hf).
  - by rewrite E.
  - by rewrite E.
  - intros i q Hq. destruct (Forall2_lookup_r _ _ _ _ _ Hf Hq) as (p & Hp & (-> & _)). by eapply H4.
  - intros i q Hq Hi. destruct (Forall2_lookup_r _ _ _ _ _ Hf Hq) as (p & Hp & (E' & Hi')). unfold no_files. rewrite E'. eapply H5; [done|by apply Hi'].
Qed.

Lemma fd_table_same X Y l w w' : fd_table X Y l w → table_kept w w' → fd_table X Y l w'.
Proof.
  intros [H1 H2 H3 H4 H5] Hk. specialize (Hk _ H2). split; try done; [by eapply same_table_files_ok|].
  intros f ff Hin Hy Hf. destruct Hk as [_ S2 _ _]. eapply Forall2_lookup_r in S2 as (gg & Hg & (-> & _)); [|done]. by eapply H3.
Qed.

(** One process has new descriptors. *)
Lemma fd_table_change X Y X' Y' l w w' i p q : fd_table X Y l w → l !! i = Some p → files_ok w' (refs (<[i := q]> l) ⊎ X') →
  (∀ f ff, f ∈ refs (<[i := q]> l) → f ∉ Y' → w_files w' !! f = Some ff → f_type ff ≠ FD_NONE) →
  length (p_ofile q) = NOFILE → (idle q → no_files q) → fd_table X' Y' (<[i := q]> l) w'.
Proof.
  intros [H1 H2 H3 H4 H5] Hi Hok Ht Hlen Hidle. split; [by rewrite length_insert|done|done| |].
  - intros j x Hx. destruct (decide (j = i)) as [->|]; [|rewrite list_lookup_insert_ne in Hx by done; by eapply H4].
    rewrite list_lookup_insert_eq in Hx by (by eapply lookup_lt_Some). by simplify_eq.
  - intros j x Hx. destruct (decide (j = i)) as [->|]; [|rewrite list_lookup_insert_ne in Hx by done; by eapply H5].
    rewrite list_lookup_insert_eq in Hx by (by eapply lookup_lt_Some). by simplify_eq.
Qed.

Lemma fd_table_types X Y l w w' R : fd_table X Y l w → (∀ f, f ∈ refs l → f ∈ R) → types_kept R w w' →
  ∀ f ff, f ∈ refs l → f ∉ Y → w_files w' !! f = Some ff → f_type ff ≠ FD_NONE.
Proof. intros H HR Hk f ff Hin Hy Hf. destruct (Hk f ff (HR f Hin) Hf) as (gg & Hg & ->). by eapply (fd_typed _ _ _ _ H). Qed.

(** A reference moves into a descriptor, and out of one. *)
Lemma fd_table_put X Y l w i p fd f : fd_table (X ⊎ {[+ f +]}) Y l w → l !! i = Some p → ¬ idle p → p_ofile p !! fd = Some None →
  (f ∈ Y ∨ ∀ ff, w_files w !! f = Some ff → f_type ff ≠ FD_NONE) →
  fd_table X Y (<[i := set_p_ofile (<[fd := Some f]> (p_ofile p)) p]> l) w.
Proof.
  intros H Hi Hni Hfd Hty. pose proof (refs_fd l i p fd None (Some f) Hi Hfd) as E. simpl in E.
  assert (refs (<[i := set_p_ofile (<[fd := Some f]> (p_ofile p)) p]> l) = refs l ⊎ {[+ f +]}) as E' by multiset_solver. clear E.
  eapply fd_table_change; [exact H|done| | | |].
  - rewrite E'. replace (refs l ⊎ {[+ f +]} ⊎ X) with (refs l ⊎ (X ⊎ {[+ f +]})) by multiset_solver. apply H.
  - intros g gg Hg Hy Hgg. rewrite E' in Hg. destruct (decide (g = f)) as [->|Hne]; [destruct Hty as [?|Hty]; [done|by apply Hty]|].
    eapply (fd_typed _ _ _ _ H); [|exact Hy|exact Hgg]. multiset_solver.
  - simpl. rewrite length_insert. by apply (fd_len _ _ _ _ H i).
  - intros Hid. by destruct Hni.
Qed.

Lemma fd_table_take X Y l w i p fd f : fd_table X Y l w → l !! i = Some p → p_ofile p !! fd = Some (Some f) →
  fd_table (X ⊎ {[+ f +]}) Y (<[i := set_p_ofile (<[fd := None]> (p_ofile p)) p]> l) w.
Proof.
  intros H Hi Hfd. pose proof (refs_fd l i p fd (Some f) None Hi Hfd) as E. simpl in E.
  assert (refs l = refs (<[i := set_p_ofile (<[fd := None]> (p_ofile p)) p]> l) ⊎ {[+ f +]}) as E' by multiset_solver. clear E.
  eapply fd_table_change; [exact H|done| | | |].
  - pose proof (fd_files _ _ _ _ H) as Hok. rewrite E' in Hok.
    set (R := refs (<[i := _]> l)) in *. replace (R ⊎ (X ⊎ {[+ f +]})) with (R ⊎ {[+ f +]} ⊎ X) by multiset_solver. done.
  - intros g gg Hg. apply (fd_typed _ _ _ _ H). rewrite E'. multiset_solver.
  - simpl. rewrite length_insert. by apply (fd_len _ _ _ _ H i).
  - intros Hid. unfold no_files; simpl. apply Forall_insert; [|done]. by apply (fd_idle _ _ _ _ H i).
Qed.

(** A reference given up. *)
Lemma fd_table_drop X Y l w w' f : fd_table (X ⊎ {[+ f +]}) Y l w → files_ok w' ((refs l ⊎ (X ⊎ {[+ f +]})) ∖ {[+ f +]}) →
  types_kept ((refs l ⊎ (X ⊎ {[+ f +]})) ∖ {[+ f +]}) w w' → fd_table X Y l w'.
Proof.
  intros H Hok Hk. assert ((refs l ⊎ (X ⊎ {[+ f +]})) ∖ {[+ f +]} = refs l ⊎ X) as E by multiset_solver. rewrite E in Hok, Hk.
  split; try apply H; [done|]. eapply fd_table_types; [exact H| |exact Hk]. multiset_solver.
Qed.
End table.

(** *** The kernel's state *)

(** A process that is running or asleep. *)
Definition awake {F} (me : nat) (s : pst F) : Prop := ∃ p, procs s !! me = Some p ∧ ¬ idle p.
Definition fds_in {St D} (X : gmultiset nat) (Y : gset nat) (me : nat) (s : pst (fworld St D)) : Prop :=
  fd_table X Y (procs s) (ftable s) ∧ awake me s.
(** Steps that keep the agreement. *)
Definition fds_kept {St D} (me : nat) (s s' : pst (fworld St D)) : Prop := ∀ X Y, fds_in X Y me s → fds_in X Y me s'.
Global Instance fds_kept_preorder {St D} me : PreOrder (fds_kept (St := St) (D := D) me).
Proof. split; [by intros s X Y|]. intros s1 s2 s3 H1 H2 X Y H. by apply H2, H1. Qed.

Lemma awake_frame {F} me (s s' : pst F) : fd_frame s s' → awake me s → awake me s'.
Proof.
  intros [_ Hf] (p & Hp & Hi). destruct (Forall2_lookup_l _ _ _ _ _ Hf Hp) as (q & Hq & (_ & Hq')). exists q. split; [done|]. tauto.
Qed.

Section kernel.
Context `{L : Layout} {St : Type} `{OP : Ops St} {D : Type} `{DV : Devices D} `{CH : Channels}.
Local Notation W := (fworld St D).
Implicit Types s : pst W.
Local Notation kept me m := (keeping (fds_kept (St := St) (D := D) me) m).

Lemma fds_frame me s s' : fd_frame s s' → fds_kept me s s'.
Proof. intros Hs X Y [HT Ha]. split; [|by eapply awake_frame]. destruct Hs as [E Hf]. rewrite E. by eapply fd_table_frame. Qed.
Lemma kept_frame me {A} (m : M (pst W) A) : keeping fd_frame m → keeping (fds_kept (St := St) (D := D) me) m.
Proof. intros Hm s. eapply wlp_mono; [apply Hm|]. intros a s' Hs. by apply (fds_frame me s s'). Qed.
Lemma kept_file me {A} (m : M W A) : keeping table_kept m → kept me (file_m m).
Proof.
  intros Hm s. apply wlp_lift. intros a w E X Y [HT Ha]. split; [|done]. simpl. eapply fd_table_same; [done|].
  pose proof (Hm (ftable s)) as Hw. unfold wlp in Hw. by rewrite E in Hw.
Qed.
Lemma kept_fsm me {A} (m : M (St * fsst) A) : kept me (fsm m).
Proof. apply kept_file, keeps_fs. Qed.
Lemma kept_upd_p me i g : (∀ p, same_fds p (g p)) → kept me (upd_p i g).
Proof. intros. by apply kept_frame, keeps_upd_p. Qed.
Lemma kept_get_p me i : kept me (get_p (F := W) i).
Proof. apply keeping_gets, _. Qed.
Lemma kept_wakeup me who ch : kept me (wakeup (F := W) who ch).
Proof. apply kept_frame, keeps_wakeup. Qed.
Lemma kept_kern me {A} (m : M kst A) : kept me (kern_m (F := W) m).
Proof. apply kept_frame, keeps_kern. Qed.
Hint Resolve kept_fsm kept_get_p kept_wakeup kept_kern : keeping.

Lemma kept_argraw me n : kept me (argraw (F := W) me n).
Proof. unfold argraw. keeping. Qed.
Hint Resolve kept_argraw : keeping.
Lemma kept_argint me n : kept me (argint (F := W) me n).
Proof. unfold argint. keeping. Qed.
Lemma kept_argstr me n max : kept me (argstr (F := W) me n max).
Proof. unfold argstr, argaddr, fetchstr. keeping. Qed.
Lemma kept_begin me : kept me begin_fs.
Proof. apply kept_fsm. Qed.
Lemma kept_end me : kept me (end_fs me).
Proof. unfold end_fs. keeping. Qed.
Lemma kept_cwd me : kept me (my_cwd (D := D) me).
Proof. unfold my_cwd. keeping. Qed.
Lemma kept_am_killed me : kept me (am_killed (D := D) me).
Proof. unfold am_killed. keeping. Qed.
Lemma kept_argfd me n : kept me (argfd (D := D) me n).
Proof. unfold argfd. keeping. apply kept_argint. Qed.
Hint Resolve kept_argint kept_argstr kept_begin kept_end kept_cwd kept_am_killed kept_argfd : keeping.

(** The calls that do not touch descriptors. *)
Lemma kept_read me ok : kept me (sys_read (D := D) me ok).
Proof. unfold sys_read, argaddr. keeping. apply kept_file, keeps_fileread. Qed.
Lemma kept_write me fetch i : kept me (sys_write (D := D) me fetch i).
Proof. unfold sys_write, argaddr. keeping. apply kept_file, keeps_filewrite. Qed.
Lemma kept_fstat me ok : kept me (sys_fstat (D := D) me ok).
Proof. unfold sys_fstat, argaddr. keeping. apply kept_file, keeps_filestat. Qed.
Lemma kept_link me : kept me (sys_link (D := D) me).
Proof. unfold sys_link. keeping. Qed.
Lemma kept_unlink me : kept me (sys_unlink (D := D) me).
Proof. unfold sys_unlink. keeping. Qed.
Lemma kept_mkdir me : kept me (sys_mkdir (D := D) me).
Proof. unfold sys_mkdir. keeping. Qed.
Lemma kept_mknod me : kept me (sys_mknod (D := D) me).
Proof. unfold sys_mknod. keeping. Qed.
Lemma kept_chdir me : kept me (sys_chdir (D := D) me).
Proof. unfold sys_chdir. keeping. apply kept_upd_p. intros []. by split. Qed.

(** *** Calls that change descriptors *)

Definition has_fd (me fd f : nat) s : Prop := ∃ p, procs s !! me = Some p ∧ p_ofile p !! fd = Some (Some f).
Definition file_typed (f : nat) s : Prop := ∀ ff, w_files (ftable s) !! f = Some ff → f_type ff ≠ FD_NONE.

Lemma wlp_file_m {A} (m : M W A) s (Q : A → pst W → Prop) : wlp m (ftable s) (λ a w, Q a (set_ftable w s)) → wlp (file_m m) s Q.
Proof. intros Hm. apply wlp_lift. intros a w E. unfold wlp in Hm. by rewrite E in Hm. Qed.

Lemma wlp_set_fd me fd o s p (Q : unit → pst W → Prop) : procs s !! me = Some p →
  Q tt (set_procs (<[me := set_p_ofile (<[fd := o]> (p_ofile p)) p]> (procs s)) s) → wlp (set_fd me fd o) s Q.
Proof. intros Hp HQ. unfold set_fd, upd_p. apply wlp_modify. by rewrite (alter_insert _ _ _ _ Hp). Qed.

Lemma fds_has_fd X Y me fd f s : fds_in X Y me s → has_fd me fd f s → f ∈ refs (procs s).
Proof. intros _ (p & Hp & Hfd). eapply refs_in; [done|by eapply own_in]. Qed.

Lemma find_fd_Some l i fd : find_fd l i = Some fd → ∃ j, fd = (i + j)%nat ∧ l !! j = Some None.
Proof.
  revert i. induction l as [|[f|] l IH]; intros i; simpl; [done| |].
  - intros (j & -> & Hj)%IH. exists (S j). split; [lia|done].
  - intros [= <-]. exists O. split; [lia|done].
Qed.

Lemma argfd_spec me n s : wlp (argfd (D := D) me n) s (λ r s', s' = s ∧ match r with Some (fd, f) => has_fd me fd f s | None => True end).
Proof.
  unfold argfd, argint, argraw. wlp_steps. apply wlp_gets. case_if; [apply wlp_panic|]. unfold kern_m, load64. wlp_steps. apply wlp_lift.
  intros a k E. unfold gets in E. injection E as _ <-. assert (set_kern (kern s) s = s) as -> by (by destruct s). wlp_steps.
  case_match; [done|]. wlp_steps. apply wlp_gets. destruct (p_ofile (default null_proc (procs s !! me)) !! Z.to_nat (i32 a)) as [[f|]|] eqn:Eo; [|done..].
  wlp_steps. split; [done|]. destruct (procs s !! me) as [p|] eqn:Ep; [by exists p|].
  change (replicate NOFILE None !! Z.to_nat (i32 a) = Some (Some f)) in Eo. by apply lookup_replicate in Eo as [? _].
Qed.

Lemma fdalloc_spec X Y me f s : fds_in (X ⊎ {[+ f +]}) Y me s → f ∈ Y ∨ file_typed f s →
  wlp (fdalloc (D := D) me f) s (λ r s', match r with
    | None => s' = s
    | Some fd => fds_in X Y me s' ∧ has_fd me fd f s' ∧ ftable s' = ftable s ∧ (∃ l, s' = set_procs l s) ∧
        ∀ g h, has_fd me g h s → g ≠ fd ∧ has_fd me g h s'
    end).
Proof.
  intros [HT (p & Hp & Hni)] Hty. unfold fdalloc. wlp_steps. apply wlp_gets. rewrite Hp. simpl. destruct (find_fd (p_ofile p) 0) as [fd|] eqn:Ef; [|done].
  apply find_fd_Some in Ef as (j & -> & Hj). simpl. wlp_steps. apply (wlp_set_fd me j _ s p); [done|]. wlp_steps.
  assert (<[me := set_p_ofile (<[j := Some f]> (p_ofile p)) p]> (procs s) !! me = Some (set_p_ofile (<[j := Some f]> (p_ofile p)) p)) as Hme
    by (apply list_lookup_insert_eq; by eapply lookup_lt_Some).
  split; [|split; [|split; [done|split; [by eexists|]]]].
  - split; [by eapply fd_table_put|]. eexists. by split.
  - eexists. split; [exact Hme|]. simpl. apply list_lookup_insert_eq. by eapply lookup_lt_Some.
  - intros g h (p' & Hp' & Hg). assert (p' = p) as -> by congruence. assert (g ≠ j) as Hne by congruence. split; [done|].
    eexists. split; [exact Hme|]. simpl. by rewrite list_lookup_insert_ne.
Qed.

Lemma take_spec X Y me fd f s (Q : unit → pst W → Prop) : fds_in X Y me s → has_fd me fd f s →
  (∀ l, fds_in (X ⊎ {[+ f +]}) Y me (set_procs l s) → (∀ g h, g ≠ fd → has_fd me g h s → has_fd me g h (set_procs l s)) →
     Q tt (set_procs l s)) →
  wlp (set_fd me fd None) s Q.
Proof.
  intros [HT (p & Hp & Hni)] (p' & Hp' & Hfd) HQ. assert (p' = p) as -> by congruence. apply (wlp_set_fd me fd _ s p); [done|].
  assert (<[me := set_p_ofile (<[fd := None]> (p_ofile p)) p]> (procs s) !! me = Some (set_p_ofile (<[fd := None]> (p_ofile p)) p)) as Hme
    by (apply list_lookup_insert_eq; by eapply lookup_lt_Some).
  apply HQ.
  - split; [by eapply fd_table_take|]. eexists. by split.
  - intros g h Hne (p' & Hp'' & Hg). assert (p' = p) as -> by congruence. eexists. split; [exact Hme|]. simpl. by rewrite list_lookup_insert_ne.
Qed.

Lemma closef_spec X Y me f s : fds_in (X ⊎ {[+ f +]}) Y me s → wlp (closef me f) s (λ _ s', fds_in X Y me s').
Proof.
  intros [HT Ha]. unfold closef. wlp_steps. apply wlp_file_m. simpl. wlp_steps. apply wlp_gets. wlp_steps.
  eapply wlp_mono; [apply (fileclose_ok _ _ f (fd_files _ _ _ _ HT)); multiset_solver|]. intros _ w' [Hok Hk]. wlp_steps.
  assert (fds_in X Y me (set_ftable w' s)) as Hin by (split; [by eapply fd_table_drop|done]).
  eapply wlp_mono; [apply (keeping_foreach (fds_kept me)); intros ch; apply kept_wakeup|]. intros ? s' Hk'. by apply Hk'.
Qed.

Definition fds_ok (s : pst W) : Prop := fd_table ∅ ∅ (procs s) (ftable s).

Lemma close_fds me s : fds_in ∅ ∅ me s → wlp (sys_close me) s (λ _ s', fds_in ∅ ∅ me s').
Proof.
  intros Hin. unfold sys_close. wlp_steps. eapply wlp_mono; [apply argfd_spec|]. intros [[fd f]|] _ [-> Hfd]; [|done].
  wlp_steps. eapply (take_spec ∅ ∅); [done|done|]. intros l Hin' _. wlp_steps. eapply wlp_mono; [by apply (closef_spec ∅ ∅)|done].
Qed.

Lemma dup_fds me s : fds_in ∅ ∅ me s → wlp (sys_dup me) s (λ _ s', fds_in ∅ ∅ me s').
Proof.
  intros Hin. unfold sys_dup. wlp_steps. eapply wlp_mono; [apply argfd_spec|]. intros [[fd f]|] _ [-> Hfd]; [|done].
  pose proof (fds_has_fd _ _ _ _ _ _ Hin Hfd) as Hf. destruct Hin as [HT (p & Hp & Hni)].
  wlp_steps. unfold fdalloc. wlp_steps. apply wlp_gets. rewrite Hp. simpl. destruct (find_fd (p_ofile p) 0) as [g|] eqn:Eg; [|wlp_steps; split; [done|by exists p]].
  apply find_fd_Some in Eg as (j & -> & Hj). simpl. wlp_steps. apply (wlp_set_fd me j _ s p); [done|]. wlp_steps. apply wlp_file_m. simpl.
  eapply wlp_mono; [apply wp_wlp, (filedup_ok _ _ f (fd_files _ _ _ _ HT)); multiset_solver|].
  intros _ w' (_ & Hok & ff & Hff & Ew). wlp_steps.
  assert (fd_table (∅ ⊎ {[+ f +]}) ∅ (procs s) w') as HT'.
  { split; try apply HT.
    - by replace (refs (procs s) ⊎ (∅ ⊎ {[+ f +]})) with (refs (procs s) ⊎ ∅ ⊎ {[+ f +]}) by multiset_solver.
    - intros h hh Hh Hy. rewrite Ew. simpl. destruct (decide (h = f)) as [->|].
      + rewrite list_lookup_insert_eq by (by eapply lookup_lt_Some). intros [= <-]. by apply (fd_typed _ _ _ _ HT f ff).
      + rewrite list_lookup_insert_ne by done. by apply (fd_typed _ _ _ _ HT h). }
  split; [|eexists; split; [apply list_lookup_insert_eq; by eapply lookup_lt_Some|done]].
  simpl. eapply fd_table_put; [exact HT'|done|done|done|]. right. intros hh Hh. by eapply (fd_typed _ _ _ _ HT').
Qed.

(** [sys_open] from the inode on. *)
Definition file_raw (f : nat) s : Prop := ∀ ff, w_files (ftable s) !! f = Some ff → f_type ff = FD_NONE.

Lemma raw_fsm f {A} (m : M (St * fsst) A) s : file_raw f s → wlp (fsm m) s (λ _ s', file_raw f s').
Proof. intros Hr. apply wlp_file_m, wlp_lift. by intros a w _. Qed.

Lemma fds_weaken X Y Y' me s : fds_in X Y me s → Y ⊆ Y' → fds_in X Y' me s.
Proof. intros [[H1 H2 H3 H4 H5] Ha] Hs. split; [split; try done|done]. intros f ff Hf Hy. apply H3; [done|set_solver]. Qed.

Lemma alloc_spec me s : fds_in ∅ ∅ me s → wlp (file_m filealloc) s (λ r s', match r with
  | None => fds_in ∅ ∅ me s'
  | Some f => fds_in (∅ ⊎ {[+ f +]}) ∅ me s' ∧ file_raw f s'
  end).
Proof.
  intros [HT Ha]. apply wlp_file_m. pose proof (fd_files _ _ _ _ HT) as Hok. eapply wlp_mono; [apply wp_wlp, (filealloc_ok _ _ Hok)|].
  intros [f|] w Hw; [|by subst w]. destruct Hw as (ff & Hf & Hty & Hn & ->).
  pose proof (files_ok_alloc _ _ _ _ Hok Hf Hty Hn) as Hok'. pose proof (types_kept_alloc (ftable s) (refs (procs s)) f ff Hf) as Hk.
  split.
  - split; [|done]. split; try apply HT.
    + by replace (refs (procs s) ⊎ (∅ ⊎ {[+ f +]})) with (refs (procs s) ⊎ ∅ ⊎ {[+ f +]}) by multiset_solver.
    + by eapply fd_table_types.
  - intros hh Hh. simpl in Hh. rewrite list_lookup_insert_eq in Hh by (by eapply lookup_lt_Some). by injection Hh as <-.
Qed.

Lemma opened_spec me f ip n omode s : fds_in ∅ {[f]} me s → f ∈ refs (procs s) → file_raw f s →
  wlp (file_m (upd_file f (opened ip n omode))) s (λ _ s', fds_in ∅ ∅ me s').
Proof.
  intros [HT Ha] Hin Hr. apply wlp_file_m. unfold upd_file. apply wlp_modify. pose proof (fd_files _ _ _ _ HT) as Hok.
  destruct (fo_names _ _ Hok f ltac:(multiset_solver)) as [ff Hf]. rewrite (alter_insert _ _ _ _ Hf). split; [|done]. simpl.
  split; try apply HT.
  - eapply files_ok_retype; [done|done|by apply Hr|multiset_solver| |]; unfold opened; by case_match.
  - intros g gg Hg _. simpl. destruct (decide (g = f)) as [->|].
    + rewrite list_lookup_insert_eq by (by eapply lookup_lt_Some). intros [= <-]. unfold opened. by case_match.
    + rewrite list_lookup_insert_ne by done. apply (fd_typed _ _ _ _ HT); [done|set_solver].
Qed.

Lemma fds_step X Y me {A} (m : M (pst W) A) s : kept me m → fds_in X Y me s → wlp m s (λ _ s', fds_in X Y me s').
Proof. intros Hm Hin. eapply wlp_mono; [apply Hm|]. intros ? s' Hk. by apply Hk. Qed.
Lemma fds_fsm X Y me {A} (m : M (St * fsst) A) s : fds_in X Y me s → wlp (fsm m) s (λ _ s', fds_in X Y me s').
Proof. apply fds_step, kept_fsm. Qed.

Lemma open_file_spec me ip omode s : fds_in ∅ ∅ me s → wlp (open_file me ip omode) s (λ _ s', fds_in ∅ ∅ me s').
Proof.
  intros Hin. unfold open_file. wlp_steps. eapply wlp_mono; [by apply alloc_spec|]. intros [f|] s1 H1; cbv beta iota zeta.
  2: { wlp_steps. eapply wlp_mono; [by apply fds_fsm|]. done. }
  destruct H1 as [H1 Hr1]. wlp_steps.
  eapply wlp_mono; [apply (fdalloc_spec ∅ {[f]} me f); [by eapply fds_weaken|left; set_solver]|]. intros [fd|] s2 H2; cbv beta iota zeta.
  2: { subst s2. wlp_steps. eapply wlp_mono; [by apply (closef_spec ∅ ∅)|]. intros ? s3 H3. cbv beta in H3. wlp_steps. eapply wlp_mono; [by apply fds_fsm|]. done. }
  destruct H2 as (H2 & Hfd & Eft & (l & ->) & _). assert (file_raw f (set_procs l s1)) as Hr2 by (intros ff Hff; by apply Hr1).
  pose proof (fds_has_fd _ _ _ _ _ _ H2 Hfd) as Hf.
  wlp_steps. apply wlp_file_m, wlp_lift. intros n w E. simpl in E. unfold inode_at, fget, gets in E. injection E as <- <-.
  assert (set_ftable (set_wfs (w_fs (ftable s1)) (ftable (set_procs l s1))) (set_procs l s1) = set_procs l s1) as -> by (by destruct s1 as [???????? []]).
  wlp_steps. eapply wlp_mono; [by apply opened_spec|]. intros ? s3 H3. cbv beta in H3. wlp_steps.
  eapply (wlp_mono _ _ (λ _ s', fds_in ∅ ∅ me s')); [case_match; [by apply fds_fsm|done]|]. intros ? s4 H4. wlp_steps.
  eapply wlp_mono; [by apply fds_fsm|]. done.
Qed.

Lemma open_fds me s : fds_in ∅ ∅ me s → wlp (sys_open me) s (λ _ s', fds_in ∅ ∅ me s').
Proof.
  intros Hin. unfold sys_open. wlp_steps. eapply wlp_mono; [by apply fds_step, Hin; apply kept_argint|]. intros omode s1 H1.
  wlp_steps. eapply wlp_mono; [by apply fds_step, H1; apply kept_argstr|]. intros [path|] s2 H2; [|done]. cbv beta in H2.
  wlp_steps. eapply wlp_mono; [by apply fds_step, H2; apply kept_begin|]. intros ? s3 H3.
  wlp_steps. eapply wlp_mono; [by apply fds_step, H3; apply kept_cwd|]. intros cwd s4 H4.
  wlp_steps. eapply wlp_mono; [by apply fds_fsm, H4|]. intros r s5 H5. cbv beta in H5. wlp_steps.
  eapply (wlp_mono _ _ (λ _ s', fds_in ∅ ∅ me s')); [destruct r; [by apply open_file_spec|done]|]. intros ? s6 H6.
  wlp_steps. eapply wlp_mono; [by apply fds_step, H6; apply kept_end|]. done.
Qed.

(** *** [fork] *)

(** The state of the files while [fork] has copied the first descriptors. *)
Definition dup_state (l : list proc) (np : nat) (p : proc) (i : nat) (o : list (option nat)) (w : W) : Prop :=
  files_ok w (refs (<[np := set_p_ofile o p]> l)) ∧ typed w (refs (<[np := set_p_ofile o p]> l)) ∧ length o = NOFILE ∧
  ∀ j, (i ≤ j < NOFILE)%nat → o !! j = Some None.

Lemma dup_step l np p q me pm i fd o w : l !! np = Some p → l !! me = Some pm → me ≠ np → p_ofile pm !! i = Some (Some fd) → (i < NOFILE)%nat →
  q = set_p_ofile o p → dup_state l np p i o w →
  wlp (filedup fd) w (λ g w', dup_state l np p (S i) (<[i := Some g]> o) w').
Proof.
  intros Hp Hm Hne Hfd Hi -> (Hok & Ht & Hlen & Hfree).
  assert (fd ∈ refs (<[np := set_p_ofile o p]> l)) as Hin.
  { eapply (refs_in _ me pm); [by rewrite list_lookup_insert_ne|by eapply own_in]. }
  eapply wlp_mono; [apply wp_wlp, (filedup_ok w _ fd Hok Hin)|]. intros g w' (-> & Hok' & ff & Hff & ->).
  assert (<[np := set_p_ofile o p]> l !! np = Some (set_p_ofile o p)) as Hnp by (apply list_lookup_insert_eq; by eapply lookup_lt_Some).
  pose proof (refs_fd _ np (set_p_ofile o p) i None (Some fd) Hnp (Hfree i ltac:(lia))) as E. simpl in E. rewrite list_insert_insert_eq in E.
  assert (∀ l', refs l' ⊎ ∅ = refs (<[np := set_p_ofile o p]> l) ⊎ {[+ fd +]} → refs l' = refs (<[np := set_p_ofile o p]> l) ⊎ {[+ fd +]}) as E'
    by (intros l' E'; multiset_solver).
  apply E' in E. split; [|split; [|split]].
  - unfold set_p_ofile in *; simpl in *. by rewrite E.
  - unfold set_p_ofile in *; simpl in *. rewrite E. intros h hh Hh Hhh. simpl in Hhh. destruct (decide (h = fd)) as [->|Hn].
    + rewrite list_lookup_insert_eq in Hhh by (by eapply lookup_lt_Some). injection Hhh as <-. by apply (Ht fd ff).
    + rewrite list_lookup_insert_ne in Hhh by done. apply (Ht h hh); [|done]. multiset_solver.
  - by rewrite length_insert.
  - intros j Hj. rewrite list_lookup_insert_ne by lia. apply Hfree. lia.
Qed.

Lemma no_files_free p : no_files p → length (p_ofile p) = NOFILE → ∀ j, (j < NOFILE)%nat → p_ofile p !! j = Some None.
Proof. intros Hn Hl j Hj. destruct (lookup_lt_is_Some_2 (p_ofile p) j) as [x Hx]; [lia|]. by rewrite (Forall_lookup_1 _ _ _ _ Hn Hx) in Hx. Qed.

Lemma fork_fds me s kc : running s me kc → fds_ok s → wlp (fork me) s (λ _ s', fds_in ∅ ∅ me s').
Proof.
  destruct s as [k l c b1 b2 n ini t f]. intros (pm & Hm & Hr & _) Hok. unfold fds_in, fds_ok, awake in *. simpl in *.
  assert (¬ idle pm) as Hni by (unfold idle; rewrite Hr; naive_solver). pose proof (fd_size _ _ _ _ Hok) as Hl.
  unfold fork. apply wlp_bind. apply allocproc_effect; [done|p_steps; eauto| |].
  { intros i p k' q -> Hi Hu Hq Ho. assert (i ≠ me) as Hne by (intros ->; congruence). p_steps. split; [|exists pm; simpl; split; [p_lookup|done]].
    eapply fd_table_frame; [done|]. eapply fds_insert; [done|]. split; [done|]. by intros _; left. }
  intros i p k' tf pt -> Hi Hu Htf Hpt. assert (i ≠ me) as Hne by (intros ->; congruence).
  pose proof (fd_idle _ _ _ _ Hok i p Hi (or_introl Hu)) as Hnf. pose proof (fd_len _ _ _ _ Hok i p Hi) as Hlen.
  p_steps. case_if.
  { eapply free_release; [p_lookup|]. intros k2 q Hq Ho. rewrite list_insert_insert_eq.
    split; [|exists pm; simpl; split; [p_lookup|done]]. eapply fd_table_frame; [done|]. eapply fds_insert; [done|].
    split; [exact Ho|]. by intros _; left. }
  p_steps. set (q := set_p_sz _ _).
  apply (dup_files_inv (dup_state l i p) i q); [p_lookup| | | |].
  - pose proof (fd_files _ _ _ _ Hok) as Hf. rewrite gmultiset_disj_union_right_id in Hf.
    assert (<[i := set_p_ofile (p_ofile q) p]> l = l) as E by (apply list_insert_id; rewrite Hi; f_equal; by destruct p).
    split; [by rewrite E|]. split; [rewrite E; intros h hh Hh; apply (fd_typed _ _ _ _ Hok); [done|set_solver]|]. split; [done|].
    intros j Hj. apply (no_files_free p); [done|done|lia].
  - intros j o w _ (H1 & H2 & H3 & H4). split_and!; try done. intros x Hx. apply H4. lia.
  - intros j fd g o w w' Hj HJ E. simpl in E. assert (j < NOFILE)%nat as Hjn.
    { rewrite <- (fd_len _ _ _ _ Hok me pm Hm). by eapply lookup_lt_Some. }
    pose proof (dup_step l i p _ me pm j fd o w Hi Hm ltac:(done) Hj Hjn eq_refl HJ) as Hw. unfold wlp in Hw. by rewrite E in Hw.
  - intros o w (H1 & H2 & H3 & _). rewrite list_insert_insert_eq. apply wlp_bind, wlp_file_m, wlp_lift. intros cwd st _. unfold set_ftable; simpl. p_steps.
    assert (∀ q', p_ofile q' = o → ¬ idle q' → fd_table ∅ ∅ (<[i := q']> l) (set_wfs st w)) as Hfin.
    { intros q' Eo Hnq. assert (refs (<[i := q']> l) = refs (<[i := set_p_ofile o p]> l)) as E by (by apply refs_ofile).
      assert (files_ok (set_wfs st w) (refs (<[i := q']> l))) as Hok'.
      { rewrite E. eapply same_table_files_ok; [by eapply same_table_fs|done]. }
      eapply fd_table_change; [exact Hok|done|by rewrite gmultiset_disj_union_right_id| |by rewrite Eo|by intros ?].
      intros h hh Hh _ Hhh. rewrite E in Hh. by apply (H2 h). }
    split; [|exists pm; simpl; split; [p_lookup|done]]. apply Hfin; [done|]. unfold idle; simpl. naive_solver.
Qed.

(** *** [exit] *)

Lemma close_one me fd f s : fds_in ∅ ∅ me s → has_fd me fd f s →
  wlp (chs ← file_m (f_close f); foreach (wakeup (Some me)) chs;; upd_p me (λ p, set_p_ofile (<[fd := None]> (p_ofile p)) p)) s
    (λ _ s', fds_in ∅ ∅ me s' ∧ ∃ p p', procs s !! me = Some p ∧ procs s' !! me = Some p' ∧ p_ofile p' = <[fd := None]> (p_ofile p)).
Proof.
  intros [HT (p0 & Hp0 & Hni)] (p & Hp & Hfd). assert (p0 = p) as -> by congruence. wlp_steps. apply wlp_file_m. simpl. wlp_steps. apply wlp_gets. wlp_steps.
  pose proof (fd_files _ _ _ _ HT) as Hok. rewrite gmultiset_disj_union_right_id in Hok.
  assert (f ∈ refs (procs s)) as Hin by (eapply refs_in; [done|by eapply own_in]).
  eapply wlp_mono; [by apply (fileclose_ok _ _ f Hok)|]. intros _ w [Hok' Hk]. wlp_steps.
  eapply wlp_mono; [apply (keeping_foreach fd_frame); intros ch; apply keeps_wakeup|]. intros ? s2 [Eft Hf]. simpl in Eft, Hf.
  destruct (Forall2_lookup_l _ _ _ _ _ Hf Hp) as (q & Hq & Eo & Hid). apply (wlp_set_fd me fd None s2 q); [exact Hq|].
  pose proof (fd_table_frame _ _ _ _ _ HT Hf) as HT2. rewrite <- Eo in Hfd. pose proof (fd_table_take _ _ _ _ _ _ _ _ HT2 Hq Hfd) as HT3.
  pose proof (refs_fd _ _ _ _ _ None Hq Hfd) as E. rewrite (refs_same _ _ Hf) in E. simpl in E.
  set (q' := set_p_ofile _ q) in *.
  assert (<[me := q']> (procs s2) !! me = Some q') as Hq' by (apply list_lookup_insert_eq; by eapply lookup_lt_Some).
  split; [split|].
  - simpl. rewrite Eft. eapply fd_table_drop; [exact HT3| |].
    + by replace ((refs (<[me := q']> (procs s2)) ⊎ (∅ ⊎ {[+ f +]})) ∖ {[+ f +]}) with (refs (procs s) ∖ {[+ f +]}) by multiset_solver.
    + by replace ((refs (<[me := q']> (procs s2)) ⊎ (∅ ⊎ {[+ f +]})) ∖ {[+ f +]}) with (refs (procs s) ∖ {[+ f +]}) by multiset_solver.
  - exists q'. split; [done|]. intros Hi. apply Hni, Hid. exact Hi.
  - exists p, q'. split; [done|]. split; [done|]. simpl. by rewrite Eo.
Qed.

(** [me] has closed its files. *)
Definition shut (me : nat) s : Prop := fds_ok s ∧ ∀ p, procs s !! me = Some p → no_files p.
Definition shut_kept (me : nat) s s' : Prop := shut me s → shut me s'.
Local Instance shut_kept_preorder me : PreOrder (shut_kept me).
Proof. split; [by intros s Hs|]. intros s1 s2 s3 H1 H2 Hs. by apply H2, H1. Qed.

Lemma close_files_fds me s : fds_in ∅ ∅ me s → wlp (close_files me) s (λ _ s', shut me s').
Proof.
  intros Hin. unfold close_files.
  apply (wlp_foreach_seq (λ i s', fds_in ∅ ∅ me s' ∧ ∀ p j, procs s' !! me = Some p → (j < i)%nat → p_ofile p !! j = Some None)).
  - split; [done|]. intros p j _ Hj. lia.
  - intros i s1 Hi [Hin1 Hdone]. apply wlp_bind, wlp_gets. pose proof Hin1 as [HT (p & Hp & Hni)]. rewrite Hp. simpl.
    destruct (p_ofile p !! i) as [[f|]|] eqn:Eo.
    + eapply wlp_mono; [apply (close_one me i f); [done|by exists p]|]. intros _ s2 (Hin2 & p1 & p2 & Hp1 & Hp2 & E). split; [done|].
      assert (p1 = p) as -> by congruence. intros q j Hq Hj. assert (q = p2) as -> by congruence. rewrite E.
      destruct (decide (j = i)) as [->|]; [apply list_lookup_insert_eq; by eapply lookup_lt_Some|].
      rewrite list_lookup_insert_ne by done. apply (Hdone p); [done|lia].
    + apply wlp_ret. split; [done|]. intros q j Hq Hj. assert (q = p) as -> by congruence. destruct (decide (j = i)) as [->|]; [done|].
      apply (Hdone p); [done|lia].
    + apply lookup_ge_None in Eo. rewrite (fd_len _ _ _ _ HT me p Hp) in Eo. lia.
  - intros s1 [[HT Ha] Hdone]. split; [done|]. intros p Hp. apply Forall_lookup. intros j o Hj.
    assert (j < NOFILE)%nat as Hlt by (rewrite <- (fd_len _ _ _ _ HT me p Hp); by eapply lookup_lt_Some).
    pose proof (Hdone p j Hp Hlt). congruence.
Qed.

Lemma shut_frame me {A} (m : M (pst W) A) : keeping fd_frame m → keeping (shut_kept me) m.
Proof.
  intros Hm s. eapply wlp_mono; [apply Hm|]. intros a s' [E Hf] [HT Hn]. split.
  - unfold fds_ok. rewrite E. by eapply fd_table_frame.
  - intros q Hq. destruct (Forall2_lookup_r _ _ _ _ _ Hf Hq) as (p & Hp & (Eo & _)). unfold no_files. rewrite Eo. by apply Hn.
Qed.
Lemma shut_file me {A} (m : M W A) : keeping table_kept m → keeping (shut_kept me) (file_m m).
Proof.
  intros Hm s. apply wlp_lift. intros a w E [HT Hn]. split; [|done]. unfold fds_ok. simpl. eapply fd_table_same; [done|].
  pose proof (Hm (ftable s)) as Hw. unfold wlp in Hw. by rewrite E in Hw.
Qed.
Lemma shut_state me st : keeping (shut_kept me) (upd_p me (set_p_state st)).
Proof.
  intros s. apply wlp_modify. intros [HT Hn]. destruct (procs s !! me) as [p|] eqn:Hp.
  - unfold set_procs. rewrite (alter_insert _ _ _ _ Hp). split.
    + unfold fds_ok; simpl. assert (refs (<[me := set_p_state st p]> (procs s)) = refs (procs s)) as E.
      { rewrite (refs_ofile _ me _ p) by done. by rewrite list_insert_id. }
      eapply fd_table_change; [exact HT|done| | | |].
      * rewrite E. by apply HT.
      * intros f ff Hf. rewrite E in Hf. by apply (fd_typed _ _ _ _ HT).
      * simpl. by eapply (fd_len _ _ _ _ HT me p).
      * intros _. by apply (Hn p eq_refl).
    + intros q Hq. change (<[me := set_p_state st p]> (procs s) !! me = Some q) in Hq.
      rewrite list_lookup_insert_eq in Hq by (by eapply lookup_lt_Some). injection Hq as <-. by apply (Hn p eq_refl).
  - unfold shut, fds_ok, set_procs; simpl. replace (alter (set_p_state st) me (procs s)) with (procs s); [by rewrite Hp|].
    apply list_eq. intros j. rewrite list_lookup_alter. case_decide; [subst; by rewrite Hp|done].
Qed.

Lemma exit_fds me st s : fds_in ∅ ∅ me s → wlp (exit me st) s (λ _ s', fds_ok s').
Proof.
  intros Hin. unfold exit. apply wlp_bind, wlp_gets. case_decide; [apply wlp_panic|].
  apply wlp_bind. eapply wlp_mono; [by apply close_files_fds|]. intros ? s1 H1. cbv beta in H1.
  match goal with |- wlp ?m _ _ => assert (keeping (shut_kept me) m) as Hk end.
  { repeat first [apply keeping_bind; [apply _| |intros ?] | apply shut_state | apply shut_frame; solve [keeping]
      | apply shut_file; simpl; solve [keeping] | apply keeping_foreach; [apply _|intros ?] ]. }
  eapply wlp_mono; [apply Hk|]. intros ? s2 H2. by apply H2.
Qed.

(** *** [sys_pipe] *)

Context (kpage : nat → option (list Z)) (Hpage : ∀ n page, kpage n = Some page → length page = Z.to_nat PIPESIZE).

Lemma pipe_fds me s : fds_in ∅ ∅ me s → wlp (sys_pipe kpage me) s (λ _ s', fds_in ∅ ∅ me s').
Proof.
  intros Hin. unfold sys_pipe, argaddr. wlp_steps. eapply wlp_mono; [by apply fds_step, Hin; apply kept_argraw|]. intros fdarray s1 [HT Ha]. wlp_steps.
  apply wlp_file_m. pose proof (fd_files _ _ _ _ HT) as Hok. rewrite gmultiset_disj_union_right_id in Hok.
  assert (typed (ftable s1) (refs (procs s1))) as Ht by (intros f ff Hf; apply (fd_typed _ _ _ _ HT); [done|set_solver]).
  eapply wlp_mono; [by apply pipealloc_ok|]. intros [[f g]|] w Hw; wlp_steps.
  2: { destruct Hw as [Hok' Ht']. split; [|done]. split; try apply HT; [by rewrite gmultiset_disj_union_right_id|by intros h hh Hh _; apply Ht']. }
  destruct Hw as [Hok' Ht']. set (s2 := set_ftable w s1).
  assert (fds_in (∅ ⊎ {[+ g +]} ⊎ {[+ f +]}) ∅ me s2) as H2.
  { split; [|done]. split; try apply HT.
    - simpl. replace (refs (procs s1) ⊎ (∅ ⊎ {[+ g +]} ⊎ {[+ f +]})) with (refs (procs s1) ⊎ {[+ f +]} ⊎ {[+ g +]}) by multiset_solver. done.
    - intros h hh Hh _. apply Ht'. multiset_solver. }
  assert (file_typed f s2 ∧ file_typed g s2) as [Tf Tg] by (split; intros ff; apply Ht'; multiset_solver).
  assert (∀ s, fds_in (∅ ⊎ {[+ g +]} ⊎ {[+ f +]}) ∅ me s → wlp (closef me f;; closef me g;; mret (-1)) s (λ _ s', fds_in ∅ ∅ me s')) as Hclose.
  { intros s0 H0. wlp_steps. eapply wlp_mono; [by apply (closef_spec (∅ ⊎ {[+ g +]}) ∅)|]. intros ? s' H'. cbv beta in H'.
    wlp_steps. eapply wlp_mono; [by apply (closef_spec ∅ ∅)|]. done. }
  cbv zeta. wlp_steps. eapply wlp_mono; [apply (fdalloc_spec (∅ ⊎ {[+ g +]}) ∅ me f); [done|by right]|].
  intros [fd0|] s3 H3; cbv beta iota zeta; [|subst s3; by apply Hclose]. destruct H3 as (H3 & Hfd0 & Eft & _ & _).
  wlp_steps. eapply wlp_mono; [apply (fdalloc_spec ∅ ∅ me g); [done|right; unfold file_typed; rewrite Eft; exact Tg]|].
  intros [fd1|] s4 H4; cbv beta iota zeta.
  2: { subst s4. wlp_steps. eapply (take_spec (∅ ⊎ {[+ g +]}) ∅ me fd0 f); [done|done|]. intros l H5 _. by apply Hclose. }
  destruct H4 as (H4 & Hfd1 & _ & _ & Hold). destruct (Hold fd0 f Hfd0) as [Hne Hfd0'].
  wlp_steps. apply wlp_gets. wlp_steps. apply wlp_lift. intros c k _. wlp_steps.
  eapply (wlp_mono _ _ (λ _ s', ∃ k, s' = set_kern k s4)).
  { case_if; wlp_steps; [by eexists|]. apply wlp_lift. intros c2 k2 _. by exists k2. }
  intros c2 s5 (k2 & ->). case_if; wlp_steps; [|exact H4].
  eapply (take_spec ∅ ∅ me fd0 f); [exact H4|exact Hfd0'|]. intros l H5 Hrest. wlp_steps.
  eapply (take_spec (∅ ⊎ {[+ f +]}) ∅ me fd1 g); [exact H5|by apply Hrest|].
  intros l' H6 _. apply Hclose. by replace (∅ ⊎ {[+ g +]} ⊎ {[+ f +]}) with (∅ ⊎ {[+ f +]} ⊎ {[+ g +]} : gmultiset nat) by multiset_solver.
Qed.
End kernel.
#[export] Hint Resolve kept_fsm kept_get_p kept_wakeup kept_kern kept_argraw kept_argint kept_argstr kept_begin kept_end kept_cwd
  kept_am_killed kept_argfd : keeping.
#[export] Hint Extern 1 (keeping (fds_kept _) (upd_p _ _)) =>
  apply kept_upd_p; intros []; split; [reflexivity|let Hi := fresh in intros Hi; exact Hi] : keeping.
