(* ===== verification/Syscall.v ===== *)
(** kernel/sysproc.c, kernel/exec.c with [sys_exec], kernel/syscall.c and
    kernel/trap.c: from a trap to the system call and back to user code. *)
From S2P Require Import Prelude Riscv Memory Kalloc Vm Cow Proc ProcInv Bytes Bio Txn TxnOps Fs Pipe Ftable Sysfile.

(** ** Definitions *)

(** *** ELF *)

Definition ELF_MAGIC : Z := 0x464C457F.
Definition ELF_PROG_LOAD : Z := 1.
Definition ELFHDR : Z := 64.
Definition PROGHDR : Z := 56.
Record elfhdr := ElfHdr { e_magic : Z; e_entry : Z; e_phoff : Z; e_phnum : Z }.
Definition elf_of (d : list Z) : elfhdr := ElfHdr (field 4 d 0) (field 8 d 24) (field 8 d 32) (field 2 d 56).
Record proghdr := ProgHdr { ph_type : Z; ph_flags : Z; ph_off : Z; ph_vaddr : Z; ph_filesz : Z; ph_memsz : Z }.
Definition ph_of (d : list Z) : proghdr := ProgHdr (field 4 d 0) (field 4 d 4) (field 8 d 8) (field 8 d 16) (field 8 d 32) (field 8 d 40).

Definition flags2perm (flags : Z) : Z :=
  let perm := if has flags 1 then PTE_X else 0 in
  if has flags 2 then Z.lor perm PTE_W else perm.

(** The name that [exec] keeps: what follows the last slash. *)
Fixpoint last_name (s last : list Z) : list Z :=
  match s with
  | [] => last
  | c :: s' => last_name s' (if c =? slash then s' else last)
  end.

Definition TF_A1 : Z := 120.

(** The addresses that sleeping processes wait for: the clock, and the buffers
    of the devices. *)
Class Clocks := { ticks_chan : Z; dev_chan : Z → Z }.

(** What a turn of a system call gets from outside the model or from its turn
    before: which copies to user memory work and the bytes of user memory (for
    file data), where a write goes on, the pages of a pipe, and when a sleep
    began. *)
Record env := Env {
  e_ok : Z → Z → bool; e_fetch : Z → option Z; e_from : Z; e_page : nat → option (list Z); e_ticks0 : option Z
}.

(** What the trap hardware tells: the cause, the address, the program counter,
    and what [devintr]'s device handlers do. *)
Record trapinfo := TrapInfo { scause : Z; stval : Z; sepc : Z }.

Section syscalls.
Context `{L : Layout} {St : Type} `{OP : Ops St} {D : Type} `{DV : Devices D} `{CH : Channels} `{CK : Clocks}.
Local Notation W := (fworld St D).
Local Notation P := (M (pst W)).

(** *** kernel/exec.c *)

(** The loop of [loadseg]: false for -1. *)
Definition loadseg (pagetable va : Z) (ip : nat) (offset sz : Z) : P bool :=
  while_ (S (Z.to_nat (sz / PGSIZE + 1)))
    (λ i,
      if negb (i <? sz) then mret (inr true)
      else
        pa ← kern_m (walkaddr pagetable (u64 (va + i)));
        if pa =? 0 then panic "loadseg: address should exist"
        else
          let n := if sz - i <? PGSIZE then sz - i else PGSIZE in
          r ← fsm (readi ip kernel_copy pa (u32 (offset + i)) n);
          kern_m (update_ram (λ m, write_bytes m pa (snd r)));;
          if negb (fst r =? n) then mret (inr false) else mret (inl (i + PGSIZE)))
    0.

(** The loop of [exec] over the program headers: the size so far, and whether
    all went well. *)
Definition load_program (pagetable : Z) (ip : nat) (elf : elfhdr) : P (Z * bool) :=
  while_ (S (Z.to_nat (e_phnum elf)))
    (λ '(i, off, sz),
      if negb (i <? e_phnum elf) then mret (inr (sz, true))
      else
        r ← fsm (readi ip kernel_copy 0 (u32 off) PROGHDR);
        let ph := ph_of (snd r) in
        if negb (fst r =? PROGHDR) then mret (inr (sz, false))
        else if negb (ph_type ph =? ELF_PROG_LOAD) then mret (inl (i + 1, i32 (off + PROGHDR), sz))
        else if ph_memsz ph <? ph_filesz ph then mret (inr (sz, false))
        else if u64 (ph_vaddr ph + ph_memsz ph) <? ph_vaddr ph then mret (inr (sz, false))
        else if negb (ph_vaddr ph mod PGSIZE =? 0) then mret (inr (sz, false))
        else
          sz1 ← kern_m (uvmalloc pagetable sz (u64 (ph_vaddr ph + ph_memsz ph)) (flags2perm (ph_flags ph)));
          if sz1 =? 0 then mret (inr (sz, false))
          else
            ok ← loadseg pagetable (ph_vaddr ph) ip (u32 (ph_off ph)) (u32 (ph_filesz ph));
            if negb ok then mret (inr (sz1, false)) else mret (inl (i + 1, i32 (off + PROGHDR), sz1)))
    (0, i32 (e_phoff elf), 0).

(** The arguments on the stack: the stack pointer and [ustack], or none. *)
Fixpoint push_args (pagetable stackbase : Z) (argv : list (list Z)) (sp : Z) (ustack : list Z) : P (option (Z * list Z)) :=
  match argv with
  | [] => mret (Some (sp, ustack))
  | a :: argv' =>
      if Z.of_nat (length ustack) >=? MAXARG then mret None
      else
        let sp := u64 (sp - (Z.of_nat (length a) + 1)) in
        let sp := u64 (sp - sp mod 16) in
        if sp <? stackbase then mret None
        else
          c ← kern_m (copyout pagetable sp (a ++ [0]));
          if c <? 0 then mret None else push_args pagetable stackbase argv' sp (ustack ++ [sp])
  end.

(** The arguments and then the array of their addresses. *)
Definition build_stack (pagetable sz : Z) (argv : list (list Z)) : P (option (Z * Z)) :=
  let stackbase := u64 (sz - PGSIZE) in
  r ← push_args pagetable stackbase argv sz [];
  match r with
  | None => mret None
  | Some (sp, ustack) =>
      let argc := Z.of_nat (length ustack) in
      let sp := u64 (sp - (argc + 1) * 8) in
      let sp := u64 (sp - sp mod 16) in
      if sp <? stackbase then mret None
      else
        c ← kern_m (copyout pagetable sp (concat (le_put 8 <$> ustack ++ [0])));
        if c <? 0 then mret None else mret (Some (argc, sp))
  end.

(** From the open inode to the program in a new page table: the page table (0
    for none), its size, the entry, or a failure. *)
Definition load_image (me ip : nat) : P (Z * Z * option Z) :=
  fsm (ilock ip);;
  r ← fsm (readi ip kernel_copy 0 0 ELFHDR);
  let elf := elf_of (snd r) in
  if negb (fst r =? ELFHDR) || negb (e_magic elf =? ELF_MAGIC) then mret (0, 0, None)
  else
    p ← get_p me;
    pagetable ← kern_m (proc_pagetable (p_trapframe p));
    if pagetable =? 0 then mret (0, 0, None)
    else
      r ← load_program pagetable ip elf;
      mret (pagetable, fst r, if snd r : bool then Some (e_entry elf) else None).

Definition free_image (pagetable sz : Z) : P unit :=
  if negb (pagetable =? 0) then kern_m (proc_freepagetable pagetable sz) else mret tt.

Definition exec (me : nat) (path : list Z) (argv : list (list Z)) : P Z :=
  begin_fs;;
  cwd ← my_cwd me;
  r ← fsm (namei cwd path);
  match r with
  | None => end_fs me;; mret (-1)
  | Some ip =>
      '(pagetable, sz, r) ← load_image me ip;
      match r with
      | None => free_image pagetable sz;; fsm (iunlockput ip);; end_fs me;; mret (-1)
      | Some entry =>
          fsm (iunlockput ip);;
          end_fs me;;
          p ← get_p me;
          let oldsz := p_sz p in
          let sz := PGROUNDUP sz in
          sz1 ← kern_m (uvmalloc pagetable sz (u64 (sz + 2 * PGSIZE)) PTE_W);
          if sz1 =? 0 then free_image pagetable sz;; mret (-1)
          else
            kern_m (uvmclear pagetable (sz1 - 2 * PGSIZE));;
            r ← build_stack pagetable sz1 argv;
            match r with
            | None => free_image pagetable sz1;; mret (-1)
            | Some (argc, sp) =>
                kern_m (store64 (p_trapframe p + TF_A1) sp);;
                upd_p me (set_p_name (copy_name (last_name path path)));;
                let oldpagetable := p_pagetable p in
                upd_p me (set_p_pagetable pagetable);;
                upd_p me (set_p_sz sz1);;
                kern_m (store64 (p_trapframe p + TF_EPC) entry);;
                kern_m (store64 (p_trapframe p + TF_SP) sp);;
                kern_m (proc_freepagetable oldpagetable oldsz);;
                mret argc
            end
      end
  end.

(** *** [sys_exec] *)

(** The pages of [argv]. *)
Fixpoint free_args (argv : list (Z * list Z)) : P unit :=
  match argv with
  | [] => mret tt
  | (pa, _) :: argv' => kern_m (kfree pa);; free_args argv'
  end.

(** The loop over [uargv]: the pages with their strings, and whether all went
    well. *)
Fixpoint fetch_args (me : nat) (uargv : Z) (n : nat) (argv : list (Z * list Z)) : P (list (Z * list Z) * bool) :=
  match n with
  | O => mret (argv, false)
  | S n' =>
      uarg ← fetchaddr me (u64 (uargv + 8 * Z.of_nat (length argv)));
      match uarg with
      | None => mret (argv, false)
      | Some uarg =>
          if uarg =? 0 then mret (argv, true)
          else
            pa ← kern_m kalloc;
            if pa =? 0 then mret (argv, false)
            else
              s ← fetchstr me uarg PGSIZE;
              match s with
              | None => mret (argv ++ [(pa, [])], false)
              | Some s =>
                  kern_m (update_ram (λ m, write_bytes m pa (s ++ [0])));;
                  fetch_args me uargv n' (argv ++ [(pa, s)])
              end
      end
  end.

Definition sys_exec (me : nat) : P Z :=
  uargv ← argaddr me 1;
  path ← argstr me 0 MAXPATH;
  match path with
  | None => mret (-1)
  | Some path =>
      '(argv, ok) ← fetch_args me uargv (Z.to_nat MAXARG) [];
      r ← (if ok : bool then exec me path (snd <$> argv) else mret (-1));
      free_args argv;;
      mret r
  end.

(** *** kernel/sysproc.c: the result, or none when the process went to sleep
    or ended *)

Definition sys_exit (me : nat) : P (option Z) :=
  n ← argint me 0;
  exit me n;;
  mret None.
Definition sys_getpid (me : nat) : P Z := p ← get_p me; mret (p_pid p).
Definition sys_fork (me : nat) : P Z := fork me.
Definition sys_wait (me : nat) : P (option Z) := p ← argaddr me 0; wait me p.
Definition sys_sbrk (me : nat) : P Z :=
  n ← argint me 0;
  p ← get_p me;
  r ← growproc me n;
  if r <? 0 then mret (-1) else mret (p_sz p).

(** A turn of [sys_sleep]; [t0] is [ticks0] when it has slept before. *)
Definition sys_sleep (me : nat) (t0 : option Z) : P (option Z) :=
  n ← argint me 0;
  now ← gets ticks;
  let ticks0 := default now t0 in
  if u32 (now - ticks0) <? u32 n then
    k ← killed me;
    if negb (k =? 0) then mret (Some (-1))
    else sleep me (ChAddr ticks_chan) (mret tt) CUser;; mret None
  else mret (Some 0).

Definition sys_kill (me : nat) : P Z := pid ← argint me 0; kill pid.
Definition sys_uptime : P Z := gets ticks.

(** What [sys_waitx] does with the answer of [waitx]; when [waitx] fails it has
    not set the times, and what the stack holds is copied. *)
Definition waitx_done (me : nat) (garbage : Z * Z) (r : Z * option (Z * Z)) : P Z :=
  addr1 ← argaddr me 1;
  addr2 ← argaddr me 2;
  p ← get_p me;
  let '(wtime, rtime) := default garbage (snd r) in
  c ← kern_m (copyout (p_pagetable p) addr1 (int_bytes wtime));
  if c <? 0 then mret (-1)
  else
    c ← kern_m (copyout (p_pagetable p) addr2 (int_bytes rtime));
    if c <? 0 then mret (-1) else mret (fst r).
Definition sys_waitx (me : nat) (garbage : Z * Z) : P (option Z) :=
  addr ← argaddr me 0;
  r ← waitx me addr;
  match r with None => mret None | Some r => v ← waitx_done me garbage r; mret (Some v) end.

(** *** The ends of the turns of a read and a write: whom they wake, and on what
    they sleep *)

Definition file_chan (ff : file) (c : pchan) : Z :=
  match f_type ff with FD_PIPE => pipe_chan (f_pipe ff) c | _ => dev_chan (f_major ff) end.
Definition turn_end (me : nat) (wr : bool) (t : fturn) : P (option Z) :=
  let mine := if wr then Nwrite else Nread in
  let other := if wr then Nread else Nwrite in
  r ← argfd me 0;
  match r, t with
  | Some (_, f), FSleep _ =>
      ff ← file_m (file_at f);
      (if wr && bool_decide (f_type ff = FD_PIPE) then wakeup (Some me) (ChAddr (file_chan ff other)) else mret tt);;
      sleep me (ChAddr (file_chan ff mine)) (mret tt) CUser;;
      mret None
  | Some (_, f), FDone v _ =>
      ff ← file_m (file_at f);
      (if negb (v =? -1) && bool_decide (f_type ff = FD_PIPE) then wakeup (Some me) (ChAddr (file_chan ff other)) else mret tt);;
      mret (Some v)
  | None, _ => mret (Some (-1))
  end.

(** *** kernel/syscall.c *)

Definition some {A} (m : P A) : P (option A) := r ← m; mret (Some r).

(** The table of system calls. *)
Definition syscalls (e : env) (garbage : Z * Z) (num : Z) : option (nat → P (option Z)) :=
  match num with
  | 1 => Some (λ me, some (sys_fork me))
  | 2 => Some sys_exit
  | 3 => Some sys_wait
  | 4 => Some (λ me, some (sys_pipe (e_page e) me))
  | 5 => Some (λ me, t ← sys_read me (e_ok e); turn_end me false t)
  | 6 => Some (λ me, some (sys_kill me))
  | 7 => Some (λ me, some (sys_exec me))
  | 8 => Some (λ me, r ← sys_fstat me (e_ok e); mret (Some (fst r)))
  | 9 => Some (λ me, some (sys_chdir me))
  | 10 => Some (λ me, some (sys_dup me))
  | 11 => Some (λ me, some (sys_getpid me))
  | 12 => Some (λ me, some (sys_sbrk me))
  | 13 => Some (λ me, sys_sleep me (e_ticks0 e))
  | 14 => Some (λ _, some sys_uptime)
  | 15 => Some (λ me, some (sys_open me))
  | 16 => Some (λ me, t ← sys_write me (e_fetch e) (e_from e); turn_end me true t)
  | 17 => Some (λ me, some (sys_mknod me))
  | 18 => Some (λ me, some (sys_unlink me))
  | 19 => Some (λ me, some (sys_link me))
  | 20 => Some (λ me, some (sys_mkdir me))
  | 21 => Some (λ me, some (sys_close me))
  | 22 => Some (λ me, sys_waitx me garbage)
  | _ => None
  end.

(** The result of a call into [a0]; false when there is none yet. *)
Definition set_result (me : nat) (r : option Z) : P bool :=
  match r with
  | Some v => p ← get_p me; kern_m (store64 (p_trapframe p + TF_A0) (u64 v));; mret true
  | None => mret false
  end.

Definition syscall (e : env) (garbage : Z * Z) (me : nat) : P bool :=
  p ← get_p me;
  num ← kern_m (load64 (p_trapframe p + TF_A7));
  r ← (match syscalls e garbage (i32 num) with Some f => f me | None => mret (Some (-1)) end);
  set_result me r.

(** *** kernel/trap.c *)

Definition clockintr (me : option nat) : P unit :=
  modify (λ s, set_ticks (u32 (ticks s + 1)) s);;
  update_time;;
  wakeup me (ChAddr ticks_chan).

(** [devintr] on CPU [c]: 2 for the timer, 1 for a device, whose handler is
    [dev] and answers whom it wakes, 0 for another cause. *)
Definition devintr (me : option nat) (c : nat) (cause : Z) (dev : M D (list chan)) : P Z :=
  if has cause (2 ^ 63) && (u8 cause =? 9) then
    chs ← file_m (dev_m dev);
    foreach (wakeup me) chs;;
    mret 1
  else if cause =? 2 ^ 63 + 1 then (if decide (c = O) then clockintr me else mret tt);; mret 2
  else mret 0.

(** The branch of [usertrap] for a page fault: none when it is not one of a
    copy-on-write page, false when it ended in [exit]. *)
Definition page_fault (me : nat) (t : trapinfo) : P (option bool) :=
  p ← get_p me;
  if (scause t =? 15) || (scause t =? 13) then
    b ← kern_m (iscowpage (p_sz p) (p_pagetable p) (stval t));
    if b : bool then
      upd_p me (λ p, set_p_pagefaultcount (u32 (p_pagefaultcount p + 1)) p);;
      ok ← kern_m (cow_fault (p_pagetable p) (stval t));
      if ok : bool then kern_m (store64 (p_trapframe p + TF_EPC) (sepc t));; mret (Some true)
      else upd_p me (set_p_killed 1);; exit me (-1);; mret (Some false)
    else mret None
  else mret None.

(** The end of [usertrap]: a process that was killed exits; after a timer
    interrupt ([which] is 2) it gives up the CPU. *)
Definition trap_end (me : nat) (which : Z) : P unit :=
  k ← killed me;
  if negb (k =? 0) then exit me (-1)
  else if which =? 2 then yield me else mret tt.

(** A process that slept in a system call goes on with it: where it was asleep
    in [wait] or [waitx], or in the turn [e] of another call. *)
Definition resume (e : env) (garbage : Z * Z) (me : nat) : P unit :=
  done ← syscall e garbage me;
  if done : bool then trap_end me 0 else mret tt.
Definition resume_wait (me : nat) (addr : Z) : P unit :=
  r ← wait me addr;
  back me r;;
  done ← set_result me r;
  if done : bool then trap_end me 0 else mret tt.
Definition resume_waitx (garbage : Z * Z) (me : nat) (addr : Z) : P unit :=
  r ← waitx me addr;
  back me r;;
  r ← (match r with None => mret None | Some r => v ← waitx_done me garbage r; mret (Some v) end);
  done ← set_result me r;
  if done : bool then trap_end me 0 else mret tt.

(** [usertrap] for process [me] on CPU [c], as far as it gets before it sleeps
    or is back at [usertrapret]. *)
Definition usertrap (e : env) (garbage : Z * Z) (me c : nat) (t : trapinfo) (dev : M D (list chan)) : P unit :=
  p ← get_p me;
  kern_m (store64 (p_trapframe p + TF_EPC) (sepc t));;
  if scause t =? 8 then
    k ← killed me;
    if negb (k =? 0) then exit me (-1)
    else
      kern_m (epc ← load64 (p_trapframe p + TF_EPC); store64 (p_trapframe p + TF_EPC) (u64 (epc + 4)));;
      resume e garbage me
  else
    which ← devintr (Some me) c (scause t) dev;
    if negb (which =? 0) then trap_end me which
    else
      f ← page_fault me t;
      match f with
      | Some true => trap_end me 0
      | Some false => mret tt
      | None => setkilled me;; trap_end me 0
      end.

(** [kerneltrap] on CPU [c], which runs [me] or nothing. *)
Definition kerneltrap (me : option nat) (c : nat) (cause : Z) (dev : M D (list chan)) : P unit :=
  which ← devintr me c cause dev;
  if which =? 0 then panic "kerneltrap"
  else
    match me with
    | Some i =>
        p ← get_p i;
        if (which =? 2) && bool_decide (p_state p = RUNNING) then yield i else mret tt
    | None => mret tt
    end.
End syscalls.
