(* ===== verification/FdProps.v ===== *)
(** The kernel's processes and open files as one system of turns, and its
    properties: what the descriptors of all processes say of the open files. *)
From stdpp Require Import gmultiset.
From S2P Require Import Prelude Riscv Memory Kalloc Vm Bytes Bio Txn TxnOps Fs FsProps Partial.
From S2P Require Import Proc ProcInv ProcEffect ProcReach ProcProps Pipe Ftable FtableRefs Sysfile Descriptors Syscall.

(** ** Definitions *)

(** The pages a pipe gets are pages. *)
Definition env_ok (e : env) : Prop := ∀ n page, e_page e n = Some page → length page = Z.to_nat PIPESIZE.

Section steps.
Context `{L : Layout} {St : Type} `{OP : Ops St} {D : Type} `{DV : Devices D} `{CH : Channels} `{CK : Clocks}.
Implicit Types s : pst (fworld St D).

(** A turn of the kernel: of the scheduler, from a trap of user code, in a
    system call that slept, from a trap on a CPU that is in the kernel, or of a
    device; or of user code, which changes memory. *)
Inductive kstep s : pst (fworld St D) → Prop :=
| k_scheduler c i b s' : cpus s !! c = Some None → (i < NPROC)%nat → scheduler c i s = Ok (b, s') → kstep s s'
| k_trap e g me c t dev s' : running s me CUser → env_ok e → usertrap e g me c t dev s = Ok (tt, s') → kstep s s'
| k_resume e g me s' : running s me CUser → env_ok e → resume e g me s = Ok (tt, s') → kstep s s'
| k_wait me addr s' : running s me (CWait addr) → resume_wait me addr s = Ok (tt, s') → kstep s s'
| k_waitx g me addr s' : running s me (CWaitx addr) → resume_waitx g me addr s = Ok (tt, s') → kstep s s'
| k_kernel me c cause dev s' : cpus s !! c = Some me → kerneltrap me c cause dev s = Ok (tt, s') → kstep s s'
| k_device d : kstep s (set_ftable (set_wdev d (ftable s)) s)
| k_user me k : running s me CUser → kstep s (set_kern k s).

(** The kernel after [procinit], [fileinit] and [userinit]. *)
Definition kbooted s : Prop :=
  ∃ k b1 b2 b3 st d, (procinit;; file_m fileinit;; userinit)
    (PSt k (replicate NPROC null_proc) (replicate NCPU None) b1 b2 1 None 0 (FW b3 (replicate (Z.to_nat NFILE) null_file) ∅ 0 st d)) = Ok (tt, s).
Definition kreachable s : Prop := ∃ s0, kbooted s0 ∧ rtc kstep s0 s.

(** The descriptors of all processes, and how many of them name file [f]. *)
Definition descriptors s : list (option nat) := procs s ≫= p_ofile.
Definition names (f : nat) s : nat := length (filter (λ o, o = Some f) (descriptors s)).

(** An end of a pipe is open in the pipe. *)
Definition end_open s (ff : file) : Prop :=
  ∃ q, w_pipes (ftable s) !! f_pipe ff = Some q ∧ is_open (f_writable ff) q = true.
Record counted s : Prop := {
  cn_refs f ff : w_files (ftable s) !! f = Some ff → f_ref ff = Z.of_nat (names f s);
  cn_open f : Some f ∈ descriptors s → ∃ ff, w_files (ftable s) !! f = Some ff ∧ 0 < f_ref ff ∧ f_type ff ≠ FD_NONE;
  cn_end f ff : w_files (ftable s) !! f = Some ff → f_type ff = FD_PIPE → end_open s ff;
  cn_pipe p q wr : w_pipes (ftable s) !! p = Some q → is_open wr q = true →
    ∃ f ff, w_files (ftable s) !! f = Some ff ∧ 0 < f_ref ff ∧ pipe_end p wr ff;
  cn_gone p q : w_pipes (ftable s) !! p = Some q → is_open false q = true ∨ is_open true q = true;
  cn_idle i p : procs s !! i = Some p → idle p → no_files p
}.
End steps.

Module Ends.

(** The machine of [Example] with the example disk: [init] makes a pipe, whose
    descriptors go to address 0, and duplicates descriptor 0. *)
#[local] Instance channels : Channels := {| pipe_chan := λ p c, 2 * Z.of_nat p + match c with Nread => 0 | Nwrite => 1 end; log_chan := -1 |}.
#[local] Instance no_devices : Devices unit := {| dev_read := λ _, None; dev_write := λ _, None |}.
#[local] Instance clocks : Clocks := {| ticks_chan := -2; dev_chan := λ m, -3 - m |}.
#[local] Instance layout : Layout := Example.layout.
Notation world := (fworld tstore unit).

Definition off : pst world :=
  PSt Example.memory (replicate NPROC null_proc) (replicate NCPU None) true true 1 None 0
    (FW true (replicate (Z.to_nat NFILE) null_file) ∅ 0 (resting (t_view ex_store), ex_fs) tt).
Definition boot : res (unit * pst world) := (procinit;; file_m fileinit;; userinit) off.
Definition on : pst world := Example.final boot off.
Definition user : pst world := Example.final (scheduler 0 0 on) off.
(** User code loads [a7] with [n] and [a0] with 0. *)
Definition set_args (n : Z) (s : pst world) : pst world :=
  let tf := p_trapframe (default null_proc (procs s !! 0%nat)) in
  set_kern (KSt (kmem_lock (kern s)) (ref_page_lock (kern s)) (freelist (kern s)) (reference_counter (kern s))
    (st64 (st64 (ram (kern s)) (tf + TF_A7) n) (tf + TF_A0) 0)) s.
Definition user_env : env := Env (λ _ _, true) (λ _, None) 0 (λ _, Some (replicate (Z.to_nat PIPESIZE) 0)) None.
Definition ecall (s : pst world) : res (unit * pst world) := usertrap user_env (0, 0) 0 0 (TrapInfo 8 0 0) (mret []) s.
Definition ready : pst world := set_args 4 user.
Definition piped : pst world := Example.final (ecall ready) off.
Definition again : pst world := set_args 10 piped.
Definition dupped : pst world := Example.final (ecall again) off.
End Ends.

(** ** Lemmas *)

Section kernel.
Context `{L : Layout} {St : Type} `{OP : Ops St} {D : Type} `{DV : Devices D} `{CH : Channels} `{CK : Clocks}.
Local Notation W := (fworld St D).
Implicit Types s : pst W.

Lemma count_omap (f : nat) (l : list (option nat)) :
  multiplicity f (list_to_set_disj (omap id l) : gmultiset nat) = length (filter (λ o, o = Some f) l).
Proof.
  induction l as [|[g|] l IH]; [done| |].
  - change (omap id (Some g :: l)) with (g :: omap id l). rewrite list_to_set_disj_cons, multiplicity_disj_union, IH, filter_cons.
    destruct (decide (f = g)) as [->|].
    + rewrite multiplicity_singleton, !decide_True by done. done.
    + rewrite multiplicity_singleton_ne by done. rewrite decide_False by congruence. done.
  - change (omap id (None :: l)) with (omap id l). rewrite IH, filter_cons, decide_False by done. done.
Qed.
Lemma refs_omap (l : list proc) : refs l = list_to_set_disj (omap id (l ≫= p_ofile)).
Proof. unfold refs. f_equal. induction l as [|p l IH]; [done|]. by rewrite !bind_cons, omap_app, IH. Qed.
Lemma names_refs s f : multiplicity f (refs (procs s)) = names f s.
Proof. by rewrite refs_omap, count_omap. Qed.
Lemma descriptors_refs s f : Some f ∈ descriptors s → f ∈ refs (procs s).
Proof.
  intros Hin. apply elem_of_multiplicity. rewrite names_refs. unfold names.
  destruct (filter _ _) eqn:E; [|simpl; lia]. exfalso. eapply (not_elem_of_nil (Some f)). rewrite <- E. by apply list_elem_of_filter.
Qed.

Lemma fds_ok_counted s : fds_ok s → counted s.
Proof.
  intros [H1 H2 H3 H4 H5]. rewrite gmultiset_disj_union_right_id in H2. destruct H2 as [F1 F2 F3 F4 F5 F6 F7 F8].
  split.
  - intros f ff Hf. by rewrite (F3 f ff Hf), names_refs.
  - intros f Hin%descriptors_refs. destruct (F2 f Hin) as [ff Hf]. exists ff. split; [done|]. rewrite (F3 f ff Hf). split; [|by apply (H3 f)].
    rewrite elem_of_multiplicity in Hin. lia.
  - intros f ff Hf Ht. by apply (F5 f ff Hf).
  - intros p q wr Hp Ho. destruct (F8 p q wr Hp Ho) as (f & ff & Hf & He). exists f, ff. split; [done|]. split; [|done].
    pose proof (F4 f ff Hf) as Hc. rewrite (F3 f ff Hf) in Hc |- *. destruct He as [Et _]. rewrite Et in Hc.
    destruct (multiplicity f (refs (procs s))); [by discriminate Hc|lia].
  - intros p q Hp. by apply (F7 p q Hp).
  - done.
Qed.

Lemma running_awake s me k : running s me k → awake me s.
Proof. intros (p & Hp & Hr & _). exists p. split; [done|]. unfold idle. rewrite Hr. naive_solver. Qed.

Lemma frame_step {A} (m : M (pst W) A) s a s' : wlp m s (λ _ s', fd_frame s s') → m s = Ok (a, s') → fds_ok s → fds_ok s'.
Proof. intros Hm E Hok. eapply wlp_ok in Hm; [|exact E]. destruct Hm as [Eft Hf]. unfold fds_ok. rewrite Eft. by eapply fd_table_frame. Qed.

(** *** The arguments of a call *)

(** The process, and the number in [a]n of its trapframe. *)
Definition proc_at s (me : nat) : proc := default null_proc (procs s !! me).
Definition arg s (me : nat) (n : Z) : Z := i32 (ld64 (ram (kern s)) (p_trapframe (proc_at s me) + TF_A0 + 8 * n)).

Lemma set_kern_same s : set_kern (kern s) s = s.
Proof. by destruct s. Qed.

Lemma argint_run me n s : 0 ≤ n ≤ 5 → argint me n s = Ok (arg s me n, s).
Proof.
  intros Hn. unfold argint, argraw, mbind, M_bind, get_p, gets. fold (proc_at s me).
  replace ((n <? 0) || (n >? 5)) with false by (symmetry; bool_prop; lia). by destruct s.
Qed.

Lemma argaddr_run me n s : 0 ≤ n ≤ 5 → argaddr me n s = Ok (ld64 (ram (kern s)) (p_trapframe (proc_at s me) + TF_A0 + 8 * n), s).
Proof.
  intros Hn. unfold argaddr, argraw, mbind, M_bind, get_p, gets. fold (proc_at s me).
  replace ((n <? 0) || (n >? 5)) with false by (symmetry; bool_prop; lia). by destruct s.
Qed.

Lemma argfd_run me n s : 0 ≤ n ≤ 5 → argfd me n s = Ok (
  if decide (0 ≤ arg s me n < Z.of_nat NOFILE) then
    match p_ofile (proc_at s me) !! Z.to_nat (arg s me n) with Some (Some f) => Some (Z.to_nat (arg s me n), f) | _ => None end
  else None, s).
Proof.
  intros Hn. unfold argfd, mbind, M_bind. rewrite argint_run by done. case_if; [by rewrite decide_False by lia|]. rewrite decide_True by lia.
  unfold get_p, gets. fold (proc_at s me). by destruct (p_ofile (proc_at s me) !! Z.to_nat (arg s me n)) as [[f|]|].
Qed.

(** *** System calls *)

(** A call that answered has kept the agreement and the process; one that did
    not, the agreement. *)
Definition turn_ok {A} (me : nat) (r : option A) (s' : pst W) : Prop := if r then fds_in ∅ ∅ me s' else fds_ok s'.

Lemma turn_fds {A} me (r : option A) s' : fds_in ∅ ∅ me s' → turn_ok me r s'.
Proof. destruct r; [done|]. by intros [Hok _]. Qed.
Lemma turn_some {A} me (m : M (pst W) A) s : wlp m s (λ _ s', fds_in ∅ ∅ me s') → wlp (some m) s (turn_ok me).
Proof. intros Hm. apply wlp_bind. eapply wlp_mono; [exact Hm|]. intros a s' H'. by apply wlp_ret. Qed.
Lemma turn_kept {A} me (m : M (pst W) (option A)) s : keeping (fds_kept me) m → fds_in ∅ ∅ me s → wlp m s (turn_ok me).
Proof. intros Hm Hin. eapply wlp_mono; [by apply (fds_step ∅ ∅ me m)|]. intros r s' H'. by apply turn_fds. Qed.

Lemma kept_killed me i : keeping (fds_kept (St := St) (D := D) me) (killed i).
Proof. apply kept_frame, keeps_killed. Qed.
Lemma kept_sleep me i ch k : keeping (fds_kept (St := St) (D := D) me) (sleep i ch (mret tt) k).
Proof. apply kept_frame, keeps_sleep. keeping. Qed.
Lemma kept_file_at me f : keeping (fds_kept (St := St) (D := D) me) (file_m (file_at f)).
Proof. apply kept_file. keeping. Qed.
Hint Resolve kept_killed kept_sleep kept_file_at : keeping.

Lemma kept_load me pagetable ip elf : keeping (fds_kept (St := St) (D := D) me) (load_program pagetable ip elf).
Proof. unfold load_program, loadseg. keeping. Qed.
Lemma kept_push me pagetable base argv sp ustack : keeping (fds_kept (St := St) (D := D) me) (push_args pagetable base argv sp ustack).
Proof. revert sp ustack. induction argv as [|a argv IH]; intros sp ustack; simpl; keeping. Qed.
Lemma kept_free_args me argv : keeping (fds_kept (St := St) (D := D) me) (free_args argv).
Proof. induction argv as [|[pa a] argv IH]; simpl; keeping. Qed.
Lemma kept_fetch_args me uargv n argv : keeping (fds_kept (St := St) (D := D) me) (fetch_args me uargv n argv).
Proof. revert argv. induction n as [|n IH]; intros argv; simpl; unfold fetchaddr, fetchstr; keeping. Qed.
Hint Resolve kept_load kept_push kept_free_args kept_fetch_args : keeping.
Lemma kept_exec me path argv : keeping (fds_kept (St := St) (D := D) me) (exec me path argv).
Proof. unfold exec, load_image, build_stack, free_image. keeping. Qed.
Hint Resolve kept_exec : keeping.
Lemma kept_sys_exec me : keeping (fds_kept (St := St) (D := D) me) (sys_exec me).
Proof. unfold sys_exec, argaddr. keeping. Qed.
Lemma kept_turn_end me wr t : keeping (fds_kept (St := St) (D := D) me) (turn_end me wr t).
Proof. unfold turn_end. keeping. Qed.
Hint Resolve kept_sys_exec kept_turn_end : keeping.

Lemma exit_turn {A} me n s : fds_in ∅ ∅ me s → wlp (exit me n;; mret (None : option A)) s (turn_ok me).
Proof. intros Hin. apply wlp_bind. eapply wlp_mono; [by apply exit_fds|]. intros a s' H'. by apply wlp_ret. Qed.

Lemma wait_turn me addr s k : running s me k → fds_in ∅ ∅ me s → wlp (wait me addr) s (λ _ s', fds_in ∅ ∅ me s').
Proof. intros Hr Hin. eapply wlp_mono; [eapply wait_fds; [apply Hin|done]|]. intros r s' Hs. by apply (fds_frame me s s'). Qed.
Lemma waitx_turn me addr s k : running s me k → fds_in ∅ ∅ me s → wlp (waitx me addr) s (λ _ s', fds_in ∅ ∅ me s').
Proof. intros Hr Hin. eapply wlp_mono; [eapply waitx_fds; [apply Hin|done]|]. intros r s' Hs. by apply (fds_frame me s s'). Qed.
Lemma kept_waitx_done me g r : keeping (fds_kept (St := St) (D := D) me) (waitx_done me g r).
Proof. unfold waitx_done, argaddr. keeping. Qed.
Lemma kept_set_result me r : keeping (fds_kept (St := St) (D := D) me) (set_result me r).
Proof. unfold set_result. destruct r; keeping. Qed.
Lemma kept_growproc me n : keeping (fds_kept (St := St) (D := D) me) (growproc me n).
Proof. apply kept_frame, keeps_growproc. Qed.
Lemma kept_kill me n : keeping (fds_kept (St := St) (D := D) me) (kill n).
Proof. apply kept_frame, keeps_kill. Qed.
Hint Resolve kept_waitx_done kept_set_result kept_growproc kept_kill : keeping.


Lemma sys_exit_turn me s : fds_in ∅ ∅ me s → wlp (sys_exit me) s (turn_ok me).
Proof. intros Hin. unfold sys_exit. apply wlp_bind. unfold wlp at 1. rewrite argint_run by lia. by apply exit_turn. Qed.
Lemma sys_wait_turn me s k : running s me k → fds_in ∅ ∅ me s → wlp (sys_wait me) s (turn_ok me).
Proof.
  intros Hr Hin. unfold sys_wait. apply wlp_bind. unfold wlp at 1. rewrite argaddr_run by lia.
  eapply wlp_mono; [by eapply wait_turn|]. intros r s' H'. by apply turn_fds.
Qed.
Lemma sys_waitx_turn me g s k : running s me k → fds_in ∅ ∅ me s → wlp (sys_waitx me g) s (turn_ok me).
Proof.
  intros Hr Hin. unfold sys_waitx. apply wlp_bind. unfold wlp at 1. rewrite argaddr_run by lia.
  apply wlp_bind. eapply wlp_mono; [by eapply waitx_turn|]. intros [r|] s' H'; [|by apply wlp_ret, turn_fds].
  apply (turn_kept me (v ← waitx_done me g r; mret (Some v))); [keeping|done].
Qed.
Hint Resolve kept_read kept_write kept_fstat kept_link kept_unlink kept_mkdir kept_mknod kept_chdir : keeping.

Lemma syscalls_fds e g num f me s k : syscalls e g num = Some f → env_ok e → running s me k → fds_in ∅ ∅ me s → wlp (f me) s (turn_ok me).
Proof.
  intros Hf He Hr Hin. unfold syscalls in Hf. repeat case_match; simplify_eq; try apply turn_some.
  all: lazymatch goal with
    | |- wlp (sys_dup _) _ _ => by apply dup_fds
    | |- wlp (sys_open _) _ _ => by apply open_fds
    | |- wlp (sys_close _) _ _ => by apply close_fds
    | |- wlp (sys_pipe _ _) _ _ => by apply pipe_fds
    | |- wlp (sys_fork _) _ _ => by eapply fork_fds; [|apply Hin]
    | |- wlp (sys_exit _) _ _ => by apply sys_exit_turn
    | |- wlp (sys_wait _) _ _ => by eapply sys_wait_turn
    | |- wlp (sys_waitx _ _) _ _ => by eapply sys_waitx_turn
    | |- wlp _ _ (turn_ok _) => apply turn_kept; [unfold sys_sleep; keeping|exact Hin]
    | |- _ => apply fds_step; [unfold sys_getpid, sys_uptime, sys_kill, sys_sbrk; keeping|exact Hin]
    end.
Qed.

Lemma set_result_fds me r s : turn_ok me r s → wlp (set_result me r) s (λ b s', if b : bool then fds_in ∅ ∅ me s' else fds_ok s').
Proof.
  destruct r as [v|]; simpl; intros Hin; [|by apply wlp_ret]. unfold get_p. apply wlp_bind, wlp_gets, wlp_bind.
  eapply wlp_mono; [by apply (fds_step ∅ ∅ me), Hin; apply kept_kern|]. intros a s' H'. by apply wlp_ret.
Qed.
Lemma syscall_fds e g me s k : env_ok e → running s me k → fds_in ∅ ∅ me s →
  wlp (syscall e g me) s (λ b s', if b : bool then fds_in ∅ ∅ me s' else fds_ok s').
Proof.
  intros He Hr Hin. unfold syscall. apply wlp_bind, wlp_gets, wlp_bind. unfold kern_m, load64, lift_m, wlp at 1, gets.
  rewrite set_kern_same. apply wlp_bind. destruct (syscalls e g _) as [f|] eqn:Ef.
  - eapply wlp_mono; [by eapply syscalls_fds|]. intros r s' H'. by apply set_result_fds.
  - apply wlp_ret. by apply set_result_fds.
Qed.

Lemma trap_end_fds me which s : fds_in ∅ ∅ me s → wlp (trap_end me which) s (λ _ s', fds_ok s').
Proof.
  intros Hin. unfold trap_end. apply wlp_bind. eapply wlp_mono; [by apply (fds_step ∅ ∅ me), Hin; apply kept_killed|].
  intros r s1 H1. cbv beta in H1. case_if; [by apply exit_fds|]. case_if; [|by apply wlp_ret, H1].
  eapply wlp_mono; [by apply (fds_step ∅ ∅ me), H1; apply kept_frame, keeps_yield|]. by intros a s' [H' _].
Qed.
Lemma finish_fds me (b : bool) s : (if b then fds_in ∅ ∅ me s else fds_ok s) →
  wlp (if b then trap_end me 0 else mret tt) s (λ _ s', fds_ok s').
Proof. destruct b; [apply trap_end_fds|]. intros Hok. by apply wlp_ret. Qed.

Lemma resume_fds e g me s k : env_ok e → running s me k → fds_in ∅ ∅ me s → wlp (resume e g me) s (λ _ s', fds_ok s').
Proof.
  intros He Hr Hin. apply wlp_bind. eapply wlp_mono; [by eapply syscall_fds|]. intros b s' H'. by apply finish_fds.
Qed.

Lemma keeps_devintr me c cause dev : keeping (fds_kept (St := St) (D := D) me) (devintr (Some me) c cause dev).
Proof.
  unfold devintr, clockintr. keeping.
  - apply kept_file, keeps_dev.
  - apply kept_frame. keeping.
  - apply kept_frame. keeping.
Qed.

Lemma page_fault_fds me t s : fds_in ∅ ∅ me s →
  wlp (page_fault me t) s (λ r s', match r with Some false => fds_ok s' | _ => fds_in ∅ ∅ me s' end).
Proof.
  intros Hin. unfold page_fault. apply wlp_bind, wlp_gets. case_if; [|by apply wlp_ret].
  apply wlp_bind. eapply wlp_mono; [by apply (fds_step ∅ ∅ me), Hin; apply kept_kern|]. intros [] s1 H1; [|by apply wlp_ret]. cbv beta in H1.
  apply wlp_bind. eapply wlp_mono; [apply (fds_step ∅ ∅ me); [keeping|exact H1]|]. intros ? s2 H2. cbv beta in H2.
  apply wlp_bind. eapply wlp_mono; [by apply (fds_step ∅ ∅ me), H2; apply kept_kern|]. intros [] s3 H3; cbv beta in H3.
  - apply wlp_bind. eapply wlp_mono; [by apply (fds_step ∅ ∅ me), H3; apply kept_kern|]. intros a' s4 H4. by apply wlp_ret.
  - apply wlp_bind. eapply wlp_mono; [apply (fds_step ∅ ∅ me); [keeping|exact H3]|]. intros a' s4 H4. cbv beta in H4.
    apply wlp_bind. eapply wlp_mono; [by apply exit_fds|]. intros a2 s5 H5. by apply wlp_ret.
Qed.

Lemma killed_same me s p : procs s !! me = Some p → wlp (killed me) s (λ r s', s' = s ∧ r = p_killed p).
Proof. destruct s as [k l c b1 b2 n ini t f]. intros Hp. by apply (killed_effect me p). Qed.

Lemma usertrap_fds e g me c t dev s k : env_ok e → running s me k → fds_ok s → wlp (usertrap e g me c t dev) s (λ _ s', fds_ok s').
Proof.
  intros He Hr Hok. assert (fds_in ∅ ∅ me s) as Hin by (split; [done|by eapply running_awake]).
  unfold usertrap. apply wlp_bind, wlp_gets, wlp_bind, wlp_lift. intros ? k1 _.
  assert (running (set_kern k1 s) me k) as Hr1 by done. assert (fds_in ∅ ∅ me (set_kern k1 s)) as H1 by done.
  set (s1 := set_kern k1 s) in *. case_if.
  - apply wlp_bind. pose proof Hr1 as (p & Hp & _). eapply wlp_mono; [by apply (killed_same me s1 p)|]. intros r s' [-> ->].
    case_if; [eapply wlp_mono; [by apply exit_fds|done]|].
    apply wlp_bind, wlp_lift. intros ? k2 _. by apply (resume_fds e g me _ k).
  - apply wlp_bind. eapply wlp_mono; [by apply (fds_step ∅ ∅ me), H1; apply keeps_devintr|]. intros which s2 H2. cbv beta in H2.
    case_if; [by apply trap_end_fds|].
    apply wlp_bind. eapply wlp_mono; [by apply page_fault_fds|]. intros [[]|] s3 H3; cbv beta iota in H3.
    + by apply trap_end_fds.
    + by apply wlp_ret.
    + apply wlp_bind. eapply wlp_mono; [apply (fds_step ∅ ∅ me), H3; apply kept_frame, keeps_setkilled|]. intros x s4 H4. by apply trap_end_fds.
Qed.

Lemma keeps_back {A} me (r : option A) : keeping (fd_frame (F := W)) (back me r).
Proof. unfold back. destruct r; keeping. Qed.

Lemma resume_wait_fds me addr s k : running s me k → fds_ok s → wlp (resume_wait me addr) s (λ _ s', fds_ok s').
Proof.
  intros Hr Hok. assert (fds_in ∅ ∅ me s) as Hin by (split; [done|by eapply running_awake]).
  unfold resume_wait. apply wlp_bind. eapply wlp_mono; [by eapply wait_turn|]. intros r s1 H1. cbv beta in H1.
  apply wlp_bind. eapply wlp_mono; [apply (fds_step ∅ ∅ me), H1; apply kept_frame, keeps_back|]. intros ? s2 H2. cbv beta in H2.
  apply wlp_bind. eapply wlp_mono; [by apply set_result_fds, turn_fds|]. intros b s' H'. by apply finish_fds.
Qed.
Lemma resume_waitx_fds g me addr s k : running s me k → fds_ok s → wlp (resume_waitx g me addr) s (λ _ s', fds_ok s').
Proof.
  intros Hr Hok. assert (fds_in ∅ ∅ me s) as Hin by (split; [done|by eapply running_awake]).
  unfold resume_waitx. apply wlp_bind. eapply wlp_mono; [by eapply waitx_turn|]. intros r s1 H1. cbv beta in H1.
  apply wlp_bind. eapply wlp_mono; [apply (fds_step ∅ ∅ me), H1; apply kept_frame, keeps_back|]. intros ? s2 H2. cbv beta in H2.
  apply wlp_bind. eapply wlp_mono; [apply (fds_step ∅ ∅ me), H2; destruct r; keeping|]. intros v s3 H3. cbv beta in H3.
  apply wlp_bind. eapply wlp_mono; [by apply set_result_fds, turn_fds|]. intros b s' H'. by apply finish_fds.
Qed.

(** A trap from the kernel, also on an idle CPU. *)
Definition fds_held (s s' : pst W) : Prop := fds_ok s → fds_ok s'.
Local Instance fds_held_preorder : PreOrder fds_held.
Proof. split; [by intros s Hs|]. intros s1 s2 s3 H1 H2 Hs. by apply H2, H1. Qed.
Lemma held_frame {A} (m : M (pst W) A) : keeping fd_frame m → keeping fds_held m.
Proof. intros Hm s. eapply wlp_mono; [apply Hm|]. intros a s' [Eft Hf] Hs. unfold fds_ok. rewrite Eft. by eapply fd_table_frame. Qed.
Lemma held_file {A} (m : M W A) : keeping table_kept m → keeping fds_held (file_m m).
Proof.
  intros Hm s. apply wlp_lift. intros a w E Hs. unfold fds_ok; simpl. eapply fd_table_same; [done|].
  pose proof (Hm (ftable s)) as Hw. unfold wlp in Hw. by rewrite E in Hw.
Qed.
Lemma kerneltrap_fds me c cause dev : keeping fds_held (kerneltrap me c cause dev).
Proof.
  unfold kerneltrap, devintr, clockintr, get_p. keeping.
  all: try (apply held_frame; keeping; done). all: apply held_file, keeps_dev.
Qed.

Lemma kstep_fds s s' : kstep s s' → fds_ok s → fds_ok s'.
Proof.
  intros Hs Hok. destruct Hs as [c i b s' _ _ E|e g me c t dev s' Hr He E|e g me s' Hr He E|me addr s' Hr E|g me addr s' Hr E|me c cause dev s' _ E|d|me k Hr].
  - apply (wlp_ok _ _ _ _ _ (held_frame _ (keeps_scheduler c i) s) E Hok).
  - apply (wlp_ok _ _ _ _ _ (usertrap_fds e g me c t dev s CUser He Hr Hok) E).
  - refine (wlp_ok _ _ _ _ _ (resume_fds e g me s CUser He Hr _) E). split; [done|by eapply running_awake].
  - apply (wlp_ok _ _ _ _ _ (resume_wait_fds me addr s _ Hr Hok) E).
  - apply (wlp_ok _ _ _ _ _ (resume_waitx_fds g me addr s _ Hr Hok) E).
  - apply (wlp_ok _ _ _ _ _ (kerneltrap_fds me c cause dev s) E Hok).
  - eapply fd_table_same; [exact Hok|]. intros R HR. by eapply same_table_dev.
  - exact Hok.
Qed.

Lemma refs_none l : Forall no_files l → refs l = ∅.
Proof.
  induction 1 as [|p l Hp _ IH]; [done|]. change (p :: l) with ([] ++ p :: l). rewrite refs_middle. simpl.
  rewrite IH, own_none by done. multiset_solver.
Qed.

Lemma files_ok_init st d : files_ok (FW (St := St) (D := D) false (replicate (Z.to_nat NFILE) null_file) ∅ 0 st d) ∅.
Proof.
  assert (∀ f ff, replicate (Z.to_nat NFILE) null_file !! f = Some ff → ff = null_file) as Hn by (by intros f ff [-> _]%lookup_replicate).
  split; simpl.
  - done.
  - intros f Hf. multiset_solver.
  - intros f ff ->%Hn. by rewrite multiplicity_empty.
  - by intros f ff ->%Hn.
  - by intros f ff ->%Hn.
  - by intros f ff g gg p wr ->%Hn _ [? _].
  - done.
  - done.
Qed.

Lemma kboot_fds s : kbooted s → fds_ok s.
Proof.
  intros (k & b1 & b2 & b3 & st & d & E). set (w := FW b3 _ _ _ _ _) in E.
  assert (wlp (procinit;; file_m fileinit;; userinit) (PSt k (replicate NPROC null_proc) (replicate NCPU None) b1 b2 1 None 0 w) (λ _ s', fds_ok s')) as Hw;
    [|by eapply wlp_ok in Hw]. clear E.
  apply wlp_bind, procinit_effect; [by rewrite length_replicate|]. apply wlp_bind, wlp_file_m, wlp_modify.
  unfold set_ftable, set_wlock; cbn -[NPROC NCPU]. apply userinit_effect; [exact fresh_length|].
  intros i p k' tf pt cwd f' Hi _ _ _ Er. pose proof (fresh_table i p Hi) as ->. set (q := first_proc _ _ _ _ _ _).
  assert (∀ j x, <[i := q]> (imap fresh (replicate NPROC null_proc)) !! j = Some x → p_ofile x = replicate NOFILE None) as Hnone.
  { intros j x Hx. destruct (decide (j = i)) as [->|].
    - rewrite list_lookup_insert_eq in Hx by (by eapply lookup_lt_Some). by injection Hx as <-.
    - rewrite list_lookup_insert_ne in Hx by done. by rewrite (fresh_table j x Hx). }
  assert (refs (<[i := q]> (imap fresh (replicate NPROC null_proc))) = ∅) as Er0.
  { apply refs_none, Forall_lookup. intros j x Hx. unfold no_files. rewrite (Hnone j x Hx). by apply Forall_replicate. }
  assert (files_ok f' ∅) as Hf.
  { assert (keeping (table_kept (St := St) (D := D)) f_root) as Hk by (simpl; keeping).
    pose proof (wlp_ok _ _ _ _ _ (Hk _) Er _ (files_ok_init st d)) as Hs.
    eapply same_table_files_ok; [exact Hs|apply files_ok_init]. }
  split; cbn [procs ftable].
  - rewrite length_insert. apply fresh_length.
  - by rewrite Er0, gmultiset_disj_union_right_id.
  - rewrite Er0. multiset_solver.
  - intros j x Hx. by rewrite (Hnone j x Hx), length_replicate.
  - intros j x Hx _. unfold no_files. rewrite (Hnone j x Hx). by apply Forall_replicate.
Qed.

Lemma find_fd_first l g i : find_fd l i = Some g → ∀ j, (i + j < g)%nat → l !! j ≠ Some None.
Proof.
  revert i. induction l as [|[f|] l IH]; intros i; simpl; [done| |].
  - intros Hg [|j] Hj; [done|]. apply (IH (S i)); [done|lia].
  - intros [= <-] j Hj. lia.
Qed.
Lemma find_fd_None l i : find_fd l i = None → ∀ j, l !! j ≠ Some None.
Proof. revert i. induction l as [|[f|] l IH]; intros i; simpl; [done| |done]. intros Hg [|j]; [done|]. by apply (IH (S i)). Qed.
End kernel.

#[local] Existing Instances Ends.layout Ends.channels Ends.no_devices Ends.clocks.

Lemma example_at_user : kreachable Ends.user.
Proof.
  destruct (ended_ok Ends.boot Ends.off) as [[] E0]; [by vm_compute|].
  destruct (ended_ok (scheduler (F := Ends.world) 0 0 Ends.on) Ends.off) as [b E1]; [by vm_compute|].
  exists Ends.on. split.
  { exists Example.memory, true, true, true, (resting (t_view ex_store), ex_fs), tt.
    unfold Ends.on. rewrite <- E0. unfold Ends.boot at 1. unfold Ends.off. reflexivity. }
  apply rtc_once. eapply (k_scheduler _ 0 0 b); [by vm_compute|unfold NPROC; lia|exact E1].
Qed.
Lemma example_ready : kreachable Ends.ready ∧ running Ends.ready 0 CUser.
Proof.
  split; [|apply runs_user_running; by vm_compute]. destruct example_at_user as (s0 & Hb & Hs). exists s0. split; [exact Hb|].
  eapply rtc_r; [exact Hs|]. unfold Ends.ready, Ends.set_args. apply (k_user _ 0), runs_user_running. by vm_compute.
Qed.

Lemma ecall_kstep s s' : running s 0 CUser → Ends.ecall s = Ok (tt, s') → kstep s s'.
Proof. intros Hr E. by apply (k_trap _ Ends.user_env (0, 0) 0 0 (TrapInfo 8 0 0) (mret [])); [|intros n page [= <-]|]. Qed.

Lemma example_again : kreachable Ends.again ∧ running Ends.again 0 CUser.
Proof.
  destruct (ended_ok (Ends.ecall Ends.ready) Ends.off) as [[] E]; [by vm_compute|]. split; [|apply runs_user_running; by vm_compute].
  destruct example_ready as [(s0 & Hb & Hs) Hr]. exists s0. split; [exact Hb|]. eapply rtc_r; [eapply rtc_r; [exact Hs|]|].
  - apply (ecall_kstep _ Ends.piped); [exact Hr|exact E].
  - unfold Ends.again, Ends.set_args. apply (k_user _ 0), runs_user_running. by vm_compute.
Qed.
Lemma example_dupped : kreachable Ends.dupped.
Proof.
  destruct (ended_ok (Ends.ecall Ends.again) Ends.off) as [[] E]; [by vm_compute|].
  destruct example_again as [(s0 & Hb & Hs) Hr]. exists s0. split; [exact Hb|]. eapply rtc_r; [exact Hs|].
  by apply (ecall_kstep _ Ends.dupped).
Qed.

Lemma reachable_fds `{L : Layout} {St} `{OP : Ops St} {D} `{DV : Devices D} `{CH : Channels} `{CK : Clocks} (s : pst (fworld St D)) : kreachable s → fds_ok s.
Proof. intros (s0 & Hb & Hs). apply kboot_fds in Hb. induction Hs as [|s1 s2 s3 H1 _ IH]; [done|]. apply IH. by eapply kstep_fds. Qed.

(** ** Properties *)

(** C4: In every state the kernel reaches, the reference count of each open file
    is the number of descriptors, of all processes, that name it; a descriptor
    names a file of the table that has a type; a file that is an end of a pipe
    is open in that pipe, and an open end of a pipe is a file; a process that
    is unused or a zombie has no descriptors. *)
Theorem descriptors_counted `{L : Layout} {St} `{OP : Ops St} {D} `{DV : Devices D} `{CH : Channels} `{CK : Clocks} (s : pst (fworld St D)) :
  kreachable s → counted s.
Proof. intros Hs%reachable_fds. by apply fds_ok_counted. Qed.
Lemma descriptors_counted_witness : counted Ends.dupped ∧ names 0 Ends.dupped = 2%nat ∧ f_ref <$> w_files (ftable Ends.dupped) !! 0%nat = Some 2.
Proof. split; [apply (descriptors_counted Ends.dupped), example_dupped|]. by vm_compute. Defined.

(** What [sys_dup] does for [me] with descriptor [n]. *)
Definition dup_answer {St D} (me : nat) (n : Z) (s : pst (fworld St D)) (r : Z) (s' : pst (fworld St D)) : Prop :=
  let o := p_ofile (proc_at s me) in
  (∃ f ff g, 0 ≤ n < Z.of_nat NOFILE ∧ o !! Z.to_nat n = Some (Some f) ∧ w_files (ftable s) !! f = Some ff ∧
     r = Z.of_nat g ∧ o !! g = Some None ∧ (∀ j, (j < g)%nat → o !! j ≠ Some None) ∧
     s' = set_ftable (set_wfiles (<[f := set_fref (f_ref ff + 1) ff]> (w_files (ftable s))) (ftable s))
            (set_procs (<[me := set_p_ofile (<[g := Some f]> o) (proc_at s me)]> (procs s)) s)) ∨
  r = -1 ∧ s' = s ∧ ((∀ f, 0 ≤ n < Z.of_nat NOFILE → o !! Z.to_nat n ≠ Some (Some f)) ∨ ∀ j, o !! j ≠ Some None).

(** C22: [sys_dup] returns in every state the kernel reaches: with the first free
    descriptor, which names the same file, whose count goes up by one; or with
    -1 and nothing changed, when the argument is not an open descriptor or no
    descriptor is free. *)
Theorem dup_shares_file `{L : Layout} {St} `{OP : Ops St} {D} `{DV : Devices D} `{CH : Channels} `{CK : Clocks} (s : pst (fworld St D)) me k :
  kreachable s → running s me k → wp (sys_dup me) s (dup_answer me (arg s me 0) s).
Proof.
  intros Hok%reachable_fds (p & Hp & _). assert (proc_at s me = p) as Ep by (unfold proc_at; by rewrite Hp). set (n := arg s me 0).
  pose proof (fd_files _ _ _ _ Hok) as Hf. rewrite gmultiset_disj_union_right_id in Hf. unfold dup_answer. rewrite Ep.
  unfold sys_dup. apply wp_bind. unfold wp at 1. rewrite argfd_run by lia. fold n. rewrite Ep.
  destruct (decide (0 ≤ n < Z.of_nat NOFILE)) as [Hn|Hn]; [|by wp_steps; right; split; [|split; [|left; intros f Hn']]].
  destruct (p_ofile p !! Z.to_nat n) as [[f|]|] eqn:Eo; simpl; [|by wp_steps; right; split; [|split; [|left; intros g _]]..].
  wp_steps. unfold fdalloc. apply wp_bind. unfold get_p. wp_steps. rewrite Hp. simpl.
  destruct (find_fd (p_ofile p) 0) as [g|] eqn:Eg; [|wp_steps; right; split; [done|split; [done|right; by eapply find_fd_None]]].
  pose proof (find_fd_first _ _ _ Eg) as Hlow. apply find_fd_Some in Eg as (j & -> & Hj). simpl in *.
  wp_steps. unfold set_fd, upd_p. wp_steps. rewrite (alter_insert _ _ _ _ Hp).
  assert (f ∈ refs (procs s)) as Hin by (eapply refs_in; [done|by eapply own_in]).
  apply wp_lift. eapply wp_mono; [apply (filedup_ok _ _ f Hf Hin)|]. intros a w (_ & _ & ff & Hff & ->). wp_steps.
  left. exists f, ff, j. split_and!; try done; apply Hn.
Qed.
Lemma dup_shares_file_witness : wp (sys_dup 0) Ends.again (dup_answer 0 (arg Ends.again 0 0) Ends.again) ∧
  match sys_dup 0 Ends.again with Ok (r, _) => r = 2 | _ => False end.
Proof. split; [apply (dup_shares_file Ends.again 0 CUser); apply example_again|]. by vm_compute. Defined.
