(* ===== verification/TrapProps.v ===== *)
(** The properties of traps and of [exec]: how a killed process ends, which turns
    can go back to user code, and where [exec] puts the arguments. *)
From S2P Require Import Prelude Riscv Memory Kalloc Vm Cow Bytes Bio Txn TxnOps Fs Partial.
From S2P Require Import Proc ProcInv ProcEffect ProcReach ProcProps Pipe Ftable Sysfile Syscall FdProps.

(** ** Definitions *)

Section views.
Context {F : Type}.
Implicit Types s : pst F.

(** [me] asleep or gone; in user code, or on its way there after a [yield],
    only if it was not killed; a zombie with status -1. *)
Definition to_user (k : kctx) : Prop := k = CUser ∨ k = CYield.
Definition away (me : nat) s : Prop := ∀ p, procs s !! me = Some p → ¬ to_user (p_context p).
Definition user_ok (me : nat) s : Prop := ∀ p, procs s !! me = Some p → to_user (p_context p) → p_killed p = 0.
Definition ended (me : nat) s : Prop := ∃ q, procs s !! me = Some q ∧ p_state q = ZOMBIE ∧ p_xstate q = -1.

(** A killed process stays so. *)
Definition marked (me : nat) s : Prop := length (procs s) = NPROC ∧ ∃ p, procs s !! me = Some p ∧ p_killed p ≠ 0.
Definition mark_kept (me : nat) s s' : Prop := marked me s → marked me s'.
End views.

(** The turns of a process that can end in user code. *)
Section turns.
Context `{L : Layout} {St : Type} `{OP : Ops St} {D : Type} `{DV : Devices D} `{CH : Channels} `{CK : Clocks}.
Definition user_turns (e : env) (g : Z * Z) (me c : nat) (t : trapinfo) (dev : M D (list chan)) (addr : Z) : list (M (pst (fworld St D)) unit) :=
  [usertrap e g me c t dev; resume e g me; resume_wait me addr; resume_waitx g me addr].
End turns.

(** The strings [argv] at the addresses [us], one below the other between [base]
    and [top], each on a multiple of 16. *)
Fixpoint placed (base top : Z) (argv : list (list Z)) (us : list Z) : Prop :=
  match argv, us with
  | [], [] => base ≤ top
  | a :: argv', u :: us' => base ≤ u ∧ u mod 16 = 0 ∧ u + Z.of_nat (length a) + 1 ≤ top ∧ placed base u argv' us'
  | _, _ => False
  end.

Module Kill.

(** [init] forks, its child runs on the second CPU, and [init] kills it. *)
#[local] Existing Instances Ends.layout Ends.channels Ends.no_devices Ends.clocks.
Definition set_args (me : nat) (n a : Z) (s : pst Ends.world) : pst Ends.world :=
  let tf := p_trapframe (default null_proc (procs s !! me)) in
  set_kern (KSt (kmem_lock (kern s)) (ref_page_lock (kern s)) (freelist (kern s)) (reference_counter (kern s))
    (st64 (st64 (ram (kern s)) (tf + TF_A7) n) (tf + TF_A0) a)) s.
Definition trap (me : nat) (cause : Z) : M (pst Ends.world) unit := usertrap Ends.user_env (0, 0) me me (TrapInfo cause 0 0) (mret []).
Definition to_fork : pst Ends.world := set_args 0 1 0 Ends.user.
Definition forked : pst Ends.world := Example.final (trap 0 8 to_fork) Ends.off.
Definition two : pst Ends.world := Example.final (scheduler 1 1 forked) Ends.off.
Definition to_kill : pst Ends.world := set_args 0 6 2 two.
Definition victim : pst Ends.world := Example.final (trap 0 8 to_kill) Ends.off.
Definition timer : Z := 2 ^ 63 + 1.
End Kill.

(** ** Lemmas *)

Lemma wlp_true {S A} (m : M S A) s : wlp m s (λ _ _, True).
Proof. unfold wlp. by destruct (m s) as [[a s']| |]. Qed.

Lemma wlp_and {S A} (m : M S A) s P Q : wlp m s P → wlp m s Q → wlp m s (λ a s', P a s' ∧ Q a s').
Proof. unfold wlp. by destruct (m s) as [[a s']| |]. Qed.

Section contexts.
Context `{L : Layout} {F : Type} `{FO : Files F}.
Implicit Types s : pst F.

Lemma away_user_ok me s : away me s → user_ok me s.
Proof. intros Ha p Hp Hc. by destruct (Ha p Hp). Qed.

Lemma sched_context me k s : wlp (sched me k) s (λ _ s', ∀ p, procs s' !! me = Some p → p_context p = k).
Proof.
  unfold sched. apply wlp_bind, wlp_gets, wlp_bind, wlp_gets. case_if; [apply wlp_panic|]. case_if; [apply wlp_panic|].
  case_decide; [apply wlp_panic|]. apply wlp_bind, wlp_modify, wlp_bind, wlp_modify. unfold wlp, release_p, upd_p, modify. simpl.
  match goal with |- context [if p_lock ?x then _ else _] => destruct (p_lock x) eqn:E end; [|done].
  simpl. intros p. rewrite !list_lookup_alter_eq. destruct (procs s !! me) as [q|]; simpl; [|done]. by intros [= <-].
Qed.
Lemma sched_away me k s : ¬ to_user k → wlp (sched me k) s (λ _ s', away me s').
Proof. intros Hk. eapply wlp_mono; [apply sched_context|]. intros a s' Hs p Hp. by rewrite (Hs p Hp). Qed.

Lemma wlp_last {A B} (m : M (pst F) A) (f : A → M (pst F) B) s Q : (∀ a s', wlp (f a) s' Q) → wlp (m ≫= f) s Q.
Proof. intros Hf. apply wlp_bind. eapply wlp_mono; [apply wlp_true|]. intros a s' _. apply Hf. Qed.

Lemma exit_away me st s : wlp (exit me st) s (λ _ s', away me s').
Proof.
  unfold exit. apply wlp_last. intros ini s1. case_decide; [apply wlp_panic|].
  do 15 (apply wlp_last; intros ? ?). apply sched_away. by intros [].
Qed.
(** [yield] leaves the mark of [kill] alone. *)
Lemma yield_killed me p s : procs s !! me = Some p → wlp (yield me) s (λ _ s', ∀ q, procs s' !! me = Some q → p_killed q = p_killed p).
Proof.
  destruct s as [k l c b1 b2 n ini t f]. intros Hp. eapply yield_effect; [exact Hp|]. simpl. intros q.
  rewrite list_lookup_insert_eq by (by eapply lookup_lt_Some). by intros [= <-].
Qed.
Lemma sleep_away me ch rel k s : wlp (sleep me ch rel k) s (λ _ s', away me s').
Proof. unfold sleep. do 4 (apply wlp_last; intros ? ?). apply sched_away. by intros []. Qed.

(** A call without an answer has left. *)
Definition left_or {A} (me : nat) (r : option A) (s' : pst F) : Prop := r = None → away me s'.
Lemma left_away {A} me (m : M (pst F) unit) s : wlp m s (λ _ s', away me s') → wlp (m;; mret (None : option A)) s (left_or me).
Proof. intros Hm. apply wlp_bind. eapply wlp_mono; [exact Hm|]. intros a s' Ha. apply wlp_ret. by intros _. Qed.

Lemma wait_left me addr s : wlp (wait me addr) s (left_or me).
Proof.
  unfold wait. do 2 (apply wlp_last; intros ? ?). case_match; [by apply wlp_ret|]. apply wlp_last; intros k ?.
  case_if; [apply wlp_last; intros ? ?; by apply wlp_ret|]. apply left_away, sleep_away.
Qed.
Lemma waitx_left me addr s : wlp (waitx me addr) s (left_or me).
Proof.
  unfold waitx. do 2 (apply wlp_last; intros ? ?). case_match; [by apply wlp_ret|]. apply wlp_last; intros k ?.
  case_if; [apply wlp_last; intros ? ?; by apply wlp_ret|]. apply left_away, sleep_away.
Qed.

Lemma killed_answer me s : wlp (killed me) s (λ r s', s' = s ∧ ∀ p, procs s !! me = Some p → r = p_killed p).
Proof.
  destruct (procs s !! me) as [p|] eqn:Hp.
  - destruct s as [k l c b1 b2 n ini t f]. apply (killed_effect me p); [exact Hp|]. split; [done|]. by intros q [= <-].
  - unfold killed, wlp, acquire_p, release_p, upd_p, modify, mbind, M_bind. rewrite Hp. simpl. rewrite !list_lookup_alter_eq, Hp. done.
Qed.
End contexts.

Section traps.
Context `{L : Layout} {St : Type} `{OP : Ops St} {D : Type} `{DV : Devices D} `{CH : Channels} `{CK : Clocks}.
Local Notation W := (fworld St D).
Implicit Types s : pst W.

Lemma left_some {A} me (m : M (pst W) A) s : wlp (some m) s (left_or me).
Proof. apply wlp_last. intros a s'. by apply wlp_ret. Qed.
Lemma turn_end_left me wr t s : wlp (turn_end (D := D) me wr t) s (left_or me).
Proof.
  unfold turn_end. apply wlp_last. intros [[fd f]|] s1; [|destruct t; by apply wlp_ret]. destruct t as [v bytes|i].
  - do 2 (apply wlp_last; intros ? ?). by apply wlp_ret.
  - do 2 (apply wlp_last; intros ? ?). apply left_away, sleep_away.
Qed.
Lemma sys_sleep_left me t0 s : wlp (sys_sleep (D := D) me t0) s (left_or me).
Proof.
  unfold sys_sleep. do 2 (apply wlp_last; intros ? ?). case_if; [|by apply wlp_ret]. apply wlp_last; intros k ?.
  case_if; [by apply wlp_ret|]. apply left_away, sleep_away.
Qed.

Lemma syscalls_left e g num f me s : syscalls (D := D) e g num = Some f → wlp (f me) s (left_or me).
Proof.
  intros Hf. unfold syscalls in Hf. repeat case_match; simplify_eq; try apply left_some.
  all: lazymatch goal with
    | |- wlp (sys_sleep _ _) _ _ => apply sys_sleep_left
    | |- wlp (sys_wait _) _ _ => apply wlp_last; intros ? ?; apply wait_left
    | |- wlp (sys_waitx _ _) _ _ => apply wlp_last; intros ? ?
    | |- wlp (sys_exit _) _ _ => apply wlp_last; intros ? ?; apply left_away, exit_away
    | |- wlp (sys_fstat _ _ ≫= _) _ _ => apply wlp_last; intros ? ?; by apply wlp_ret
    | |- _ => apply wlp_last; intros ? ?; apply turn_end_left
    end.
  apply wlp_bind. eapply wlp_mono; [apply waitx_left|]. intros [r|] ? Hr; [apply wlp_last; intros ? ?; by apply wlp_ret|].
  apply wlp_ret. intros _. by apply Hr.
Qed.

Lemma set_result_left me r s : left_or me r s → wlp (set_result (D := D) me r) s (λ b s', b = false → away me s').
Proof. destruct r as [v|]; simpl; intros Hr; [|apply wlp_ret; intros _; by apply Hr]. do 2 (apply wlp_last; intros ? ?). by apply wlp_ret. Qed.
Lemma syscall_left e g me s : wlp (syscall (D := D) e g me) s (λ b s', b = false → away me s').
Proof.
  unfold syscall. do 2 (apply wlp_last; intros ? ?). apply wlp_bind.
  eapply (wlp_mono _ _ (left_or me)); [|intros r ? Hr; by apply set_result_left].
  destruct (syscalls _ _ _) as [f|] eqn:Ef; [by eapply syscalls_left|by apply wlp_ret].
Qed.

Lemma trap_end_ok me which s : wlp (trap_end (D := D) me which) s (λ _ s', user_ok me s').
Proof.
  unfold trap_end. apply wlp_bind. eapply wlp_mono; [apply killed_answer|]. intros k s' [-> Hk]. case_if.
  - eapply wlp_mono; [apply exit_away|]. intros ? ? Ha. by apply away_user_ok.
  - assert (∀ p, procs s !! me = Some p → p_killed p = 0) as H0 by (intros p Hp; rewrite <- (Hk p Hp); bool_prop; lia).
    case_if; [|apply wlp_ret; intros p Hp _; by apply H0]. destruct (procs s !! me) as [p|] eqn:Hp.
    + eapply wlp_mono; [by apply yield_killed|]. intros ? s' Hy q Hq _. rewrite (Hy q Hq). by apply H0.
    + unfold yield, acquire_p, wlp, mbind, M_bind. rewrite Hp. unfold sched, mbind, M_bind, get_p, gets. simpl. by rewrite !list_lookup_alter_eq, Hp.
Qed.
Lemma finish_ok me (b : bool) s : (b = false → away me s) → wlp (if b then trap_end (D := D) me 0 else mret tt) s (λ _ s', user_ok me s').
Proof. destruct b; [intros _; apply trap_end_ok|]. intros Ha. by apply wlp_ret, away_user_ok, Ha. Qed.
Lemma resume_ok e g me s : wlp (resume (D := D) e g me) s (λ _ s', user_ok me s').
Proof. apply wlp_bind. eapply wlp_mono; [apply syscall_left|]. intros b s' Hb. by apply finish_ok. Qed.

Lemma page_fault_left me t s : wlp (page_fault (D := D) me t) s (λ r s', r = Some false → away me s').
Proof.
  unfold page_fault. apply wlp_last; intros ? ?. case_if; [|by apply wlp_ret]. apply wlp_last; intros [] ?; [|by apply wlp_ret].
  do 2 (apply wlp_last; intros ? ?). case_match; [apply wlp_last; intros ? ?; by apply wlp_ret|].
  apply wlp_last; intros ? ?. apply wlp_bind. eapply wlp_mono; [apply exit_away|]. intros ? ? Ha. by apply wlp_ret.
Qed.
Lemma usertrap_ok e g me c t dev s : wlp (usertrap (D := D) e g me c t dev) s (λ _ s', user_ok me s').
Proof.
  unfold usertrap. do 2 (apply wlp_last; intros ? ?). case_if.
  - apply wlp_last; intros k s1. case_if; [eapply wlp_mono; [apply exit_away|]; intros ? ? Ha; by apply away_user_ok|].
    apply wlp_last; intros ? ?. apply resume_ok.
  - apply wlp_last; intros which s1. case_if; [apply trap_end_ok|].
    apply wlp_bind. eapply wlp_mono; [apply page_fault_left|]. intros [[]|] s2 H2.
    + apply trap_end_ok.
    + by apply wlp_ret, away_user_ok, H2.
    + apply wlp_last; intros ? ?. apply trap_end_ok.
Qed.
Lemma back_none me s : wlp (back me (None : option Z)) s (λ _ s', s' = s).
Proof. done. Qed.
Lemma resume_wait_ok me addr s : wlp (resume_wait (D := D) me addr) s (λ _ s', user_ok me s').
Proof.
  unfold resume_wait. apply wlp_bind. eapply wlp_mono; [apply wait_left|]. intros r s1 H1. apply wlp_bind.
  eapply (wlp_mono _ _ (λ _ s', left_or me r s')); [destruct r; [eapply wlp_mono; [apply wlp_true|done]|by apply wlp_ret]|].
  intros ? s2 H2. apply wlp_bind. eapply wlp_mono; [by apply set_result_left|]. intros b s3 H3. by apply finish_ok.
Qed.
Lemma resume_waitx_ok g me addr s : wlp (resume_waitx (D := D) g me addr) s (λ _ s', user_ok me s').
Proof.
  unfold resume_waitx. apply wlp_bind. eapply wlp_mono; [apply waitx_left|]. intros r s1 H1. apply wlp_bind.
  eapply (wlp_mono _ _ (λ _ s', left_or me r s')); [destruct r; [eapply wlp_mono; [apply wlp_true|done]|by apply wlp_ret]|].
  intros ? s2 H2. apply wlp_bind. eapply (wlp_mono _ _ (left_or me)).
  { destruct r; [apply wlp_last; intros ? ?; by apply wlp_ret|apply wlp_ret; intros _; by apply H2]. }
  intros v s3 H3. apply wlp_bind. eapply wlp_mono; [by apply set_result_left|]. intros b s4 H4. by apply finish_ok.
Qed.
End traps.

(** *** A process that is killed *)

Section killed.
Context `{L : Layout} {St : Type} `{OP : Ops St} {D : Type} `{DV : Devices D} `{CH : Channels} `{CK : Clocks}.
Local Notation W := (fworld St D).
Implicit Types s : pst W.
Local Notation keeps me m := (keeping (mark_kept (F := W) me) m).

Global Instance mark_kept_preorder {F} me : PreOrder (mark_kept (F := F) me).
Proof. split; [by intros s Hs|]. intros s1 s2 s3 H1 H2 Hs. by apply H2, H1. Qed.

Lemma mark_kern me {A} (m : M kst A) : keeps me (kern_m m).
Proof. apply keeping_lift. intros k s Hs. exact Hs. Qed.
Lemma mark_file me {A} (m : M W A) : keeps me (file_m m).
Proof. apply keeping_lift. intros k s Hs. exact Hs. Qed.
Lemma mark_get me i : keeps me (get_p i).
Proof. apply keeping_gets, _. Qed.
Lemma mark_upd me i g : (∀ p, p_killed p ≠ 0 → p_killed (g p) ≠ 0) → keeps me (upd_p i g).
Proof.
  intros Hg. apply keeping_modify. intros s [Hl (p & Hp & Hk)]. split; [simpl; by rewrite length_alter|]. simpl.
  destruct (decide (i = me)) as [->|Hne]; [|exists p; by rewrite list_lookup_alter_ne].
  exists (g p). rewrite list_lookup_alter_eq, Hp. split; [done|by apply Hg].
Qed.
Lemma mark_lock me i : keeps me (acquire_p i) ∧ keeps me (release_p i).
Proof. split; intros s; unfold wlp, acquire_p, release_p; destruct (p_lock _); try done; by apply mark_upd. Qed.
Lemma mark_acquire me i : keeps me (acquire_p i).
Proof. apply mark_lock. Qed.
Lemma mark_release me i : keeps me (release_p i).
Proof. apply mark_lock. Qed.
Hint Resolve mark_kern mark_file mark_get mark_acquire mark_release : keeping.
Hint Extern 1 (keeping (mark_kept _) (upd_p _ _)) => apply mark_upd; by intros [] : keeping.

Lemma mark_wakeup me i ch : keeps me (wakeup i ch).
Proof. unfold wakeup. keeping. Qed.
Lemma mark_update_time me : keeps me update_time.
Proof. unfold update_time. keeping. Qed.
Lemma mark_ticks me f : keeps me (modify (λ s, set_ticks (f s) s)).
Proof. apply keeping_modify. intros s Hs. exact Hs. Qed.
Hint Resolve mark_wakeup mark_update_time mark_ticks : keeping.
Lemma mark_devintr me c cause dev : keeps me (devintr (Some me) c cause dev).
Proof. unfold devintr, clockintr. keeping. Qed.
Lemma mark_setkilled me : keeps me (setkilled me).
Proof. unfold setkilled. keeping. Qed.

Lemma exit_ended me s : marked me s → wlp (exit me (-1)) s (λ _ s', ended me s').
Proof.
  destruct s as [k l c b1 b2 n ini t f]. intros [Hl (p & Hp & _)]. eapply exit_effect; [exact Hl|exact Hp|].
  intros l' f' _ (_ & Hall & _). destruct (Hall me p Hp) as (q & Hq & Z). rewrite decide_True in Z by done. exists q. tauto.
Qed.
Lemma trap_end_ended me which s : marked me s → wlp (trap_end (D := D) me which) s (λ _ s', ended me s').
Proof.
  intros Hm. unfold trap_end. apply wlp_bind. eapply wlp_mono; [apply killed_answer|]. intros r s' [-> Hr].
  destruct Hm as [Hl (p & Hp & Hk)]. rewrite (Hr p Hp). case_if; [apply exit_ended; split; eauto|bool_prop; lia].
Qed.
Lemma page_fault_ended me t s : marked me s → wlp (page_fault (D := D) me t) s (λ r s', if decide (r = Some false) then ended me s' else marked me s').
Proof.
  intros Hm. unfold page_fault. apply wlp_bind, wlp_gets. case_if; [|by apply wlp_ret].
  apply wlp_bind. eapply wlp_mono; [apply mark_kern|]. intros [] s1 H1; [|by apply wlp_ret, H1]. specialize (H1 Hm). clear Hm.
  apply wlp_bind. eapply wlp_mono; [apply mark_upd; by intros []|]. intros ? s2 H2. specialize (H2 H1). clear H1.
  apply wlp_bind. eapply wlp_mono; [apply mark_kern|]. intros ok s3 H3. specialize (H3 H2). clear H2. destruct ok.
  - apply wlp_bind. eapply wlp_mono; [apply mark_kern|]. intros ? s4 H4. by apply wlp_ret, H4.
  - apply wlp_bind. eapply wlp_mono; [apply mark_upd; by intros []|]. intros ? s4 H4. specialize (H4 H3).
    apply wlp_bind. eapply wlp_mono; [by apply exit_ended|]. intros ? s5 H5. by apply wlp_ret.
Qed.
Lemma usertrap_ended e g me c t dev s : marked me s → wlp (usertrap (D := D) e g me c t dev) s (λ _ s', ended me s').
Proof.
  intros Hm. unfold usertrap. apply wlp_bind, wlp_gets.
  apply wlp_bind. eapply wlp_mono; [apply mark_kern|]. intros ? s1 H1. specialize (H1 Hm). clear Hm. case_if.
  - apply wlp_bind. eapply wlp_mono; [apply killed_answer|]. intros r s' [-> Hr]. destruct H1 as [Hl (p & Hp & Hk)].
    rewrite (Hr p Hp). case_if; [apply exit_ended; split; eauto|bool_prop; lia].
  - apply wlp_bind. eapply wlp_mono; [apply mark_devintr|]. intros which s2 H2. specialize (H2 H1). clear H1.
    case_if; [by apply trap_end_ended|]. apply wlp_bind. eapply wlp_mono; [by apply page_fault_ended|]. intros [[]|] s3 H3; simpl in H3.
    + by apply trap_end_ended.
    + by apply wlp_ret.
    + apply wlp_bind. eapply wlp_mono; [apply mark_setkilled|]. intros ? s4 H4. by apply trap_end_ended, H4.
Qed.
End killed.

(** *** [exec] *)

Section exec.
Context `{L : Layout} {St : Type} `{OP : Ops St} {D : Type} `{DV : Devices D} `{CH : Channels} `{CK : Clocks}.
Local Notation W := (fworld St D).
Implicit Types s : pst W.

Lemma align16 sp : 0 ≤ sp < 2 ^ 64 → u64 (sp - sp mod 16) = sp - sp mod 16 ∧ (sp - sp mod 16) mod 16 = 0 ∧ sp - 16 < sp - sp mod 16 ≤ sp.
Proof.
  intros Hs. pose proof (Z.mod_pos_bound sp 16). pose proof (Z.div_mod sp 16). split; [apply Z.mod_small; lia|]. split; [|lia].
  replace (sp - sp mod 16) with (sp / 16 * 16) by lia. apply Z.mod_mul. lia.
Qed.

Lemma push_args_placed pagetable base argv sp ustack s : PGSIZE ≤ base → base ≤ sp < 2 ^ 64 → Forall (λ a, Z.of_nat (length a) < PGSIZE) argv →
  wlp (push_args (D := D) pagetable base argv sp ustack) s (λ r _, match r with
    | Some (sp', us) => ∃ us', us = ustack ++ us' ∧ placed base sp argv us' ∧ sp' = default sp (last us') ∧ base ≤ sp' ≤ sp
    | None => True
    end).
Proof.
  intros Hb Hsp Ha. revert sp ustack s Hsp. induction Ha as [|a argv Hlen Ha IH]; intros sp ustack s Hsp; simpl.
  { apply wlp_ret. exists []. rewrite app_nil_r. simpl. repeat split; lia. }
  case_if; [by apply wlp_ret|]. set (sp1 := u64 (sp - _)). change (u64 (sp - (Z.of_nat (length a) + 1))) with sp1.
  assert (sp1 = sp - (Z.of_nat (length a) + 1)) as E1 by (apply Z.mod_small; unfold PGSIZE in *; lia).
  destruct (align16 sp1) as (E2 & Hmod & Hle); [unfold PGSIZE in *; lia|]. rewrite E2. set (sp2 := sp1 - _) in *.
  case_if; [by apply wlp_ret|]. apply wlp_last; intros c s'. case_if; [by apply wlp_ret|].
  eapply wlp_mono; [apply (IH sp2); lia|]. intros [[sp' us]|] ? Hr; [|done]. destruct Hr as (us' & -> & Hpl & Hl & Hr).
  exists (sp2 :: us'). rewrite <- app_assoc. split; [done|]. split; [|split; [|lia]].
  - simpl. repeat split; [lia|exact Hmod|lia|exact Hpl].
  - rewrite Hl. rewrite last_cons. by destruct (last us').
Qed.

Lemma placed_length base top argv us : placed base top argv us → length us = length argv.
Proof. revert top us. induction argv as [|a argv IH]; intros top [|u us]; simpl; try done. intros (_ & _ & _ & Hp). f_equal. by eapply IH. Qed.

Lemma build_stack_bounds pagetable sz argv s : 2 * PGSIZE ≤ sz < 2 ^ 64 → Forall (λ a, Z.of_nat (length a) < PGSIZE) argv →
  (length argv < Z.to_nat MAXARG)%nat →
  wlp (build_stack (D := D) pagetable sz argv) s (λ r _, match r with
    | Some (argc, sp) => argc = Z.of_nat (length argv) ∧ sz - PGSIZE ≤ sp ∧ sp + 8 * (argc + 1) ≤ sz ∧ sp mod 16 = 0
    | None => True
    end).
Proof.
  intros Hsz Ha Hn. assert (u64 (sz - PGSIZE) = sz - PGSIZE) as Eb by (apply Z.mod_small; unfold PGSIZE in *; lia).
  unfold build_stack. cbv zeta. rewrite Eb. apply wlp_bind. eapply wlp_mono; [apply push_args_placed; [lia|unfold PGSIZE in *; lia|done]|].
  intros [[sp us]|] s' Hr; [|by apply wlp_ret]. destruct Hr as (us' & -> & Hpl & _ & Hsp). apply placed_length in Hpl.
  cbv beta iota. simpl app. rewrite Hpl. set (n := Z.of_nat (length argv)). assert (0 ≤ n < 32) as Hn' by (unfold MAXARG in Hn; lia).
  assert (u64 (sp - (n + 1) * 8) = sp - (n + 1) * 8) as E1 by (apply Z.mod_small; unfold PGSIZE in *; lia). rewrite E1.
  destruct (align16 (sp - (n + 1) * 8)) as (E2 & Hmod & Hle); [unfold PGSIZE in *; lia|]. rewrite E2.
  case_if; [by apply wlp_ret|]. apply wlp_last; intros c s2. case_if; apply wlp_ret; [done|]. split; [done|]. split; [lia|]. split; [lia|exact Hmod].
Qed.

End exec.

#[local] Existing Instances Ends.layout Ends.channels Ends.no_devices Ends.clocks.

Lemma kreachable_step (s s' : pst Ends.world) : kreachable s → kstep s s' → kreachable s'.
Proof. intros (s0 & Hb & Hs) H1. exists s0. split; [exact Hb|]. eapply rtc_r; [exact Hs|exact H1]. Qed.
Lemma trap_kstep (s s' : pst Ends.world) me cause : runs_user s me = true → Kill.trap me cause s = Ok (tt, s') → kstep s s'.
Proof.
  intros Hr%runs_user_running E. by apply (k_trap _ Ends.user_env (0, 0) me me (TrapInfo cause 0 0) (mret [])); [|intros n page [= <-]|].
Qed.
Lemma example_victim : kreachable Kill.victim.
Proof.
  destruct (ended_ok (Kill.trap 0 8 Kill.to_fork) Ends.off) as [[] E1]; [by vm_compute|].
  destruct (ended_ok (scheduler (F := Ends.world) 1 1 Kill.forked) Ends.off) as [b E2]; [by vm_compute|].
  destruct (ended_ok (Kill.trap 0 8 Kill.to_kill) Ends.off) as [[] E3]; [by vm_compute|].
  apply (kreachable_step Kill.to_kill); [|apply (trap_kstep _ _ 0 8); [by vm_compute|exact E3]].
  apply (kreachable_step Kill.two); [|unfold Kill.to_kill, Kill.set_args; apply (k_user _ 0), runs_user_running; by vm_compute].
  apply (kreachable_step Kill.forked); [|eapply (k_scheduler _ 1 1 b); [by vm_compute|unfold NPROC; lia|exact E2]].
  apply (kreachable_step Kill.to_fork); [|apply (trap_kstep _ _ 0 8); [by vm_compute|exact E1]].
  apply (kreachable_step Ends.user); [exact example_at_user|].
  unfold Kill.to_fork, Kill.set_args. apply (k_user _ 0), runs_user_running. by vm_compute.
Qed.

(** ** Properties *)

(** C33: The stack that [exec] builds fits: with fewer than MAXARG arguments, each
    shorter than a page, the strings lie one below the other in the page under
    [sz], the array of their addresses fits below them, and every address is a
    multiple of 16; the 64-bit stack pointer never wraps around. *)
Theorem exec_stack_layout `{L : Layout} {St} `{OP : Ops St} {D} `{DV : Devices D} pagetable sz argv (s : pst (fworld St D)) :
  2 * PGSIZE ≤ sz < 2 ^ 64 → Forall (λ a, Z.of_nat (length a) < PGSIZE) argv → (length argv < Z.to_nat MAXARG)%nat →
  wlp (push_args pagetable (u64 (sz - PGSIZE)) argv sz []) s (λ r _, match r with
    | Some (sp, us) => placed (sz - PGSIZE) sz argv us ∧ sp = default sz (last us)
    | None => True
    end) ∧
  wlp (build_stack pagetable sz argv) s (λ r _, match r with
    | Some (argc, sp) => argc = Z.of_nat (length argv) ∧ sz - PGSIZE ≤ sp ∧ sp + 8 * (argc + 1) ≤ sz ∧ sp mod 16 = 0
    | None => True
    end).
Proof.
  intros Hsz Ha Hn. split; [|by apply build_stack_bounds].
  replace (u64 (sz - PGSIZE)) with (sz - PGSIZE) by (symmetry; apply Z.mod_small; unfold PGSIZE in *; lia).
  eapply wlp_mono; [apply push_args_placed; [lia|unfold PGSIZE in *; lia|done]|].
  intros [[sp us]|] s' Hr; [|done]. destruct Hr as (us' & -> & Hpl & Hl & _). by split.
Qed.
Definition ex_grown : pst Ends.world := Example.final (growproc 0 PGSIZE Ends.ready) Ends.off.
Lemma exec_stack_layout_witness :
  wlp (push_args (p_pagetable (proc_at ex_grown 0)) (u64 (2 * PGSIZE - PGSIZE)) [[97; 98]; [99]] (2 * PGSIZE) []) ex_grown (λ r _, match r with
    | Some (sp, us) => placed (2 * PGSIZE - PGSIZE) (2 * PGSIZE) [[97; 98]; [99]] us ∧ sp = default (2 * PGSIZE) (last us)
    | None => True
    end) ∧
  match build_stack (p_pagetable (proc_at ex_grown 0)) (2 * PGSIZE) [[97; 98]; [99]] ex_grown with
  | Ok (r, _) => r = Some (2, 2 * PGSIZE - 64) | _ => False end.
Proof.
  split; [|by vm_compute].
  refine (proj1 (exec_stack_layout (p_pagetable (proc_at ex_grown 0)) (2 * PGSIZE) [[97; 98]; [99]] ex_grown _ _ _)).
  - unfold PGSIZE; lia.
  - repeat (apply List.Forall_cons; [unfold PGSIZE; simpl; lia|]). apply List.Forall_nil.
  - unfold MAXARG; simpl; lia.
Defined.
