(* ===== verification/Locks.v ===== *)
(** kernel/spinlock.c and kernel/sleeplock.c: the nesting of [push_off], the
    spinlock, and the sleep-lock with the steps of [sleep] and [wakeup] that
    it is made of, for any number of harts and processes. *)
From S2P Require Import Prelude.

(** ** Definitions *)

(** A total map changed at one point. *)
Definition upd {A} (f : nat → A) (i : nat) (x : A) : nat → A := λ j, if decide (j = i) then x else f j.

(** *** Interrupts *)

(** What [push_off] counts of a CPU: [noff], [intena], and the interrupt
    enable bit of the hart. *)
Record cpu := Cpu { noff : Z; intena : bool; intr : bool }.

Definition push_off (c : cpu) : cpu :=
  Cpu (noff c + 1) (if noff c =? 0 then intr c else intena c) false.
Definition pop_off (c : cpu) : res cpu :=
  if intr c then Panic "pop_off - interruptible"
  else if noff c <? 1 then Panic "pop_off"
  else Ok (Cpu (noff c - 1) (intena c) (if (noff c - 1 =? 0) && intena c then true else intr c)).

Fixpoint pushes (n : nat) (c : cpu) : cpu := match n with O => c | S n' => push_off (pushes n' c) end.
Fixpoint pops (n : nat) (c : cpu) : res cpu :=
  match n with
  | O => Ok c
  | S n' => match pop_off c with Ok c' => pops n' c' | Panic m => Panic m | Diverge => Diverge end
  end.

(** *** The spinlock *)

Record spinlock := Spinlock { locked : bool; lk_cpu : option nat }.
Definition initlock : spinlock := Spinlock false None.
Definition holding (me : nat) (lk : spinlock) : bool := locked lk && bool_decide (lk_cpu lk = Some me).

(** The points of [acquire] and [release] between their accesses to the
    lock: outside, before the atomic swap, before the store to [lk->cpu],
    inside, and before the two stores of [release]. *)
Inductive lpc := LOut | LSwap | LCpu | LIn | LClear | LStore | LPop.
Record spin_state := LState { l_lock : spinlock; l_pc : nat → lpc; l_hart : nat → cpu }.

(** A step of hart [me]: none when it panics. *)
Definition spin_step (me : nat) (s : spin_state) : option spin_state :=
  let lk := l_lock s in
  let go lk pc c := Some (LState lk (upd (l_pc s) me pc) (upd (l_hart s) me c)) in
  let c := l_hart s me in
  match l_pc s me with
  | LOut => if holding me lk then None else go lk LSwap (push_off c)
  | LSwap => go (Spinlock true (lk_cpu lk)) (if locked lk then LSwap else LCpu) c
  | LCpu => go (Spinlock (locked lk) (Some me)) LIn c
  | LIn => if holding me lk then go lk LClear c else None
  | LClear => go (Spinlock (locked lk) None) LStore c
  | LStore => go (Spinlock false (lk_cpu lk)) LPop c
  | LPop => match pop_off c with Ok c' => go lk LOut c' | _ => None end
  end.

(** The hart is between the swap that took the lock and the store that frees
    it. *)
Definition owns (p : lpc) : Prop := match p with LCpu | LIn | LClear | LStore => True | _ => False end.

Definition linit (harts : nat → cpu) : spin_state := LState initlock (λ _, LOut) harts.
Inductive spin_reach (s0 : spin_state) : spin_state → Prop :=
| spin_reach_refl : spin_reach s0 s0
| spin_reach_step s s' me : spin_reach s0 s → spin_step me s = Some s' → spin_reach s0 s'.

(** *** The sleep-lock *)

(** The points of [acquiresleep] (with [sleep] in it) and of [releasesleep]
    (with [wakeup] in it). *)
Inductive spc :=
| SIdle                (* outside *)
| SAcq                 (* acquire(&lk->lk) *)
| STest                (* while(lk->locked) *)
| SSleep0              (* sleep: acquire(&p->lock) *)
| SSleep1              (* release(lk) *)
| SSleep2              (* p->chan = chan; p->state = SLEEPING *)
| SSched               (* sched, and the scheduler's release(&p->lock) *)
| SAsleep              (* off the CPU *)
| SWoken               (* p->chan = 0; release(&p->lock) *)
| SSet                 (* lk->locked = 1; lk->pid = pid *)
| SRel                 (* release(&lk->lk) *)
| SHold                (* the holder *)
| RAcq                 (* releasesleep: acquire(&lk->lk) *)
| RClear               (* lk->locked = 0; lk->pid = 0 *)
| RWake (j : nat)      (* wakeup: acquire of process j *)
| RWakeIn (j : nat)    (* the test and the release of process j *)
| RRel.                (* release(&lk->lk) *)

(** The sleep-lock, its spinlock [s_lk], and the processes: where each is,
    whether it is SLEEPING on the lock, and its [p->lock]. *)
Record sstate := SState {
  s_lk : option nat;
  s_locked : bool;
  s_pid : option nat;
  s_pc : nat → spc;
  s_asleep : nat → bool;
  s_plock : nat → option nat
}.

(** A step of process [me] of [n]; none when it has to wait. *)
Definition sstep (n me : nat) (s : sstate) : option sstate :=
  let '(SState lk lo pid pc sl pl) := s in
  let go p := upd pc me p in
  match pc me with
  | SIdle => Some (SState lk lo pid (go SAcq) sl pl)
  | SAcq => match lk with None => Some (SState (Some me) lo pid (go STest) sl pl) | Some _ => None end
  | STest => Some (SState lk lo pid (go (if lo then SSleep0 else SSet)) sl pl)
  | SSleep0 => match pl me with None => Some (SState lk lo pid (go SSleep1) sl (upd pl me (Some me))) | Some _ => None end
  | SSleep1 => Some (SState None lo pid (go SSleep2) sl pl)
  | SSleep2 => Some (SState lk lo pid (go SSched) (upd sl me true) pl)
  | SSched => Some (SState lk lo pid (go SAsleep) sl (upd pl me None))
  | SAsleep =>
      if sl me then None
      else match pl me with None => Some (SState lk lo pid (go SWoken) sl (upd pl me (Some me))) | Some _ => None end
  | SWoken => Some (SState lk lo pid (go SAcq) sl (upd pl me None))
  | SSet => Some (SState lk true (Some me) (go SRel) sl pl)
  | SRel => Some (SState None lo pid (go SHold) sl pl)
  | SHold => Some (SState lk lo pid (go RAcq) sl pl)
  | RAcq => match lk with None => Some (SState (Some me) lo pid (go RClear) sl pl) | Some _ => None end
  | RClear => Some (SState lk false None (go (RWake 0)) sl pl)
  | RWake j =>
      if decide (n ≤ j)%nat then Some (SState lk lo pid (go RRel) sl pl)
      else if decide (j = me) then Some (SState lk lo pid (go (RWake (S j))) sl pl)
      else match pl j with None => Some (SState lk lo pid (go (RWakeIn j)) sl (upd pl j (Some me))) | Some _ => None end
  | RWakeIn j => Some (SState lk lo pid (go (RWake (S j))) (upd sl j false) (upd pl j None))
  | RRel => Some (SState None lo pid (go SIdle) sl pl)
  end.

(** [holdingsleep] of process [me]. *)
Definition holdingsleep (me : nat) (s : sstate) : bool := s_locked s && bool_decide (s_pid s = Some me).

(** [kill] makes a sleeper runnable, under its [p->lock]. *)
Definition skill (t : nat) (s : sstate) : option sstate :=
  match s_plock s t with
  | None => Some (SState (s_lk s) (s_locked s) (s_pid s) (s_pc s) (upd (s_asleep s) t false) (s_plock s))
  | Some _ => None
  end.

Definition sinit : sstate := SState None false None (λ _, SIdle) (λ _, false) (λ _, None).
Inductive sreach (n : nat) : sstate → Prop :=
| sreach_init : sreach n sinit
| sreach_step s s' me : (me < n)%nat → sreach n s → sstep n me s = Some s' → sreach n s'
| sreach_kill s s' t : sreach n s → skill t s = Some s' → sreach n s'.

(** The runs of a schedule. *)
Fixpoint spin_run (sched : list nat) (s : spin_state) : option spin_state :=
  match sched with [] => Some s | me :: l => spin_step me s ≫= spin_run l end.
Fixpoint srun (n : nat) (sched : list nat) (s : sstate) : option sstate :=
  match sched with [] => Some s | me :: l => sstep n me s ≫= srun n l end.

(** Who holds what, by where it is. *)
Definition in_lk (p : spc) : Prop :=
  match p with STest | SSleep0 | SSleep1 | SSet | SRel | RClear | RWake _ | RWakeIn _ | RRel => True | _ => False end.
Definition in_plock (p : spc) (me t : nat) : Prop :=
  match p with SSleep1 | SSleep2 | SSched | SWoken => t = me | RWakeIn j => t = j | _ => False end.
Definition owner (p : spc) : Prop := match p with SRel | SHold | RAcq | RClear => True | _ => False end.
(** The process sleeps on the lock, or is on its way to. *)
Definition sleepy (pc : nat → spc) (sl : nat → bool) (t : nat) : Prop :=
  match pc t with SSleep2 => True | SSched | SAsleep => sl t = true | _ => False end.
(** Process [r] has freed the lock and will still come to [t] in [wakeup]. *)
Definition will_wake (pc : nat → spc) (r t : nat) : Prop :=
  match pc r with RWake j | RWakeIn j => (j ≤ t)%nat | _ => False end.

Record s_inv (n : nat) (s : sstate) : Prop := {
  si_lk t : in_lk (s_pc s t) ↔ s_lk s = Some t;
  si_plock t h : s_plock s t = Some h ↔ in_plock (s_pc s h) h t;
  si_owner t : owner (s_pc s t) ↔ s_locked s = true ∧ s_pid s = Some t;
  si_pid : s_locked s = true → is_Some (s_pid s);
  si_test t : match s_pc s t with SSleep0 | SSleep1 => s_locked s = true | SSet => s_locked s = false | _ => True end;
  si_range t : s_pc s t ≠ SIdle → (t < n)%nat;
  si_wake t : sleepy (s_pc s) (s_asleep s) t → s_locked s = true ∨ ∃ r, will_wake (s_pc s) r t
}.

(** ** Lemmas *)

Lemma upd_eq {A} (f : nat → A) i x : upd f i x i = x.
Proof. unfold upd. by rewrite decide_True. Qed.
Lemma upd_ne {A} (f : nat → A) i j x : j ≠ i → upd f i x j = f j.
Proof. intros. unfold upd. by rewrite decide_False. Qed.

(** *** Interrupts *)

(** A CPU whose interrupts are off while it has nesting. *)
Definition cpu_ok (c : cpu) : Prop := 0 ≤ noff c ∧ (0 < noff c → intr c = false).

Lemma push_off_ok c : cpu_ok c → cpu_ok (push_off c) ∧ 0 < noff (push_off c).
Proof. unfold cpu_ok, push_off; simpl. lia. Qed.
Lemma pushes_ok n c : cpu_ok c → cpu_ok (pushes n c) ∧ noff (pushes n c) = noff c + Z.of_nat n.
Proof.
  intros Hc. induction n as [|n [IH1 IH2]]; [split; [done|simpl; lia]|]. simpl. split; [by apply push_off_ok|simpl; lia].
Qed.

(** [pop_off] undoes [push_off], but for [intena] outside of any nesting. *)
Lemma pop_push c : cpu_ok c → ∃ e, pop_off (push_off c) = Ok (Cpu (noff c) e (intr c)) ∧ (0 < noff c → e = intena c).
Proof.
  intros [H1 H2]. unfold pop_off, push_off; simpl. replace (noff c + 1 <? 1) with false by (symmetry; apply Z.ltb_ge; lia).
  replace (noff c + 1 - 1) with (noff c) by lia. destruct (noff c =? 0) eqn:E; bool_prop; simpl.
  - exists (intr c). split; [|lia]. by destruct (intr c).
  - rewrite H2 by lia. eauto.
Qed.

Lemma pops_pushes m c : cpu_ok c → ∃ e, pops m (pushes m c) = Ok (Cpu (noff c) e (intr c)) ∧ (0 < noff c → e = intena c).
Proof.
  intros Hc. induction m as [|m IH]; [exists (intena c); by destruct c|]. simpl.
  destruct (pushes_ok m c Hc) as [Hok Hn]. destruct (pop_push (pushes m c) Hok) as (e & -> & He).
  destruct m as [|m]; [simpl in *; eauto|]. assert (Cpu (noff (pushes (S m) c)) e (intr (pushes (S m) c)) = pushes (S m) c) as ->; [|done].
  rewrite He by (destruct Hc; lia). by destruct (pushes (S m) c).
Qed.

(** *** The spinlock *)

Record l_inv (s : spin_state) : Prop := {
  li_owner t u : owns (l_pc s t) → owns (l_pc s u) → t = u;
  li_locked : locked (l_lock s) = true ↔ ∃ t, owns (l_pc s t);
  li_cpu t : lk_cpu (l_lock s) = Some t ↔ l_pc s t = LIn ∨ l_pc s t = LClear;
  li_hart t : cpu_ok (l_hart s t) ∧ (l_pc s t ≠ LOut → 0 < noff (l_hart s t))
}.

Lemma holding_iff s t : l_inv s → holding t (l_lock s) = true ↔ l_pc s t = LIn ∨ l_pc s t = LClear.
Proof.
  intros [H1 H2 H3 H4]. unfold holding. rewrite andb_true_iff, bool_decide_eq_true, H3, H2. split; [tauto|]. intros Hp. split; [|done].
  exists t. by destruct Hp as [->| ->].
Qed.

(** A step of hart [me] from a point that owns the lock or not to one that
    does or not. *)
Lemma upd_pc_cases (pc : nat → lpc) me p t : upd pc me p t = p ∧ t = me ∨ upd pc me p t = pc t ∧ t ≠ me.
Proof. unfold upd. case_decide; auto. Qed.

Lemma l_inv_step s s' me : l_inv s → spin_step me s = Some s' → l_inv s'.
Proof.
  intros Hinv Hs. pose proof (holding_iff s me Hinv) as Hh. destruct Hinv as [H1 H2 H3 H4]. destruct s as [[lo cp] pc ht]. unfold spin_step in Hs. simpl in *.
  assert (∀ p c, cpu_ok c → (p ≠ LOut → 0 < noff c) → ∀ t, cpu_ok (upd ht me c t) ∧ (upd pc me p t ≠ LOut → 0 < noff (upd ht me c t))) as Hht.
  { intros p c Hc Hp t. unfold upd. case_decide; [done|apply H4]. }
  destruct (H4 me) as [Hok Hpos].
  assert (∀ p, (owns p ↔ owns (pc me)) → (∀ t u, owns (upd pc me p t) → owns (upd pc me p u) → t = u) ∧ ((∃ t, owns (pc t)) ↔ ∃ t, owns (upd pc me p t))) as Hsame.
  { intros p Hp. assert (∀ t, owns (upd pc me p t) ↔ owns (pc t)) as Hx by (intros t; unfold upd; case_decide; by subst).
    split; [intros t u; rewrite !Hx; apply H1|]. apply exist_proper. intros t. by rewrite Hx. }
  assert (∀ p, pc me ≠ LIn → pc me ≠ LClear → p ≠ LIn → p ≠ LClear → ∀ t, cp = Some t ↔ upd pc me p t = LIn ∨ upd pc me p t = LClear) as Hcpu.
  { intros p N1 N2 N3 N4 t. rewrite H3. unfold upd. case_decide; [subst; tauto|done]. }
  destruct (pc me) eqn:Epc.
  - destruct (holding me (Spinlock lo cp)); [done|]. simplify_eq. destruct (push_off_ok (ht me) Hok). destruct (Hsame LSwap); [done|].
    split; simpl; [done|by rewrite H2|by apply Hcpu|by apply Hht].
  - simplify_eq. destruct lo; simpl.
    + destruct (Hsame LSwap); [done|]. split; simpl; [done|by rewrite <- H0|by apply Hcpu|apply Hht; [done|by intros _; apply Hpos]].
    + assert (∀ t, ¬ owns (pc t)) as Hno by (intros t Ht; assert (false = true) by (apply H2; eauto); done).
      assert (∀ t, owns (upd pc me LCpu t) → t = me) as Hone by (intros t; unfold upd; case_decide; [done|intros Ht; by destruct (Hno t)]).
      split; simpl; [intros t u ->%Hone ->%Hone; done| |by apply Hcpu|apply Hht; [done|by intros _; apply Hpos]].
      split; [|done]. intros _. exists me. by rewrite upd_eq.
  - simplify_eq. destruct (Hsame LIn) as [S1 S2]; [done|]. split; simpl; [done|by rewrite <- S2| |apply Hht; [done|by intros _; apply Hpos]].
    intros t. destruct (upd_pc_cases pc me LIn t) as [[-> ->]|[-> Hne]]; [split; auto|].
    split; [congruence|]. intros Ht. destruct Hne. apply H1; [by destruct Ht as [->| ->]|by rewrite Epc].
  - destruct (holding me (Spinlock lo cp)) eqn:E; [|done]. simplify_eq. destruct (Hsame LClear) as [S1 S2]; [done|].
    split; simpl; [done|by rewrite <- S2| |apply Hht; [done|by intros _; apply Hpos]].
    intros t. rewrite H3. destruct (upd_pc_cases pc me LClear t) as [[-> ->]|[-> Hne]]; [rewrite Epc; naive_solver|done].
  - simplify_eq. destruct (Hsame LStore) as [S1 S2]; [done|].
    split; simpl; [done|by rewrite <- S2| |apply Hht; [done|by intros _; apply Hpos]].
    intros t. split; [done|]. destruct (upd_pc_cases pc me LStore t) as [[-> ->]|[-> Hne]]; [naive_solver|].
    intros Ht. destruct Hne. apply H1; [by destruct Ht as [->| ->]|by rewrite Epc].
  - simplify_eq. assert (∀ t, ¬ owns (upd pc me LPop t)) as Hno.
    { intros t. unfold upd. case_decide as E; [tauto|]. intros Ht. destruct E. apply H1; [done|by rewrite Epc]. }
    split; simpl; [intros t u Ht; by destruct (Hno t)|split; [done|intros [t Ht]; by destruct (Hno t)]|by apply Hcpu|apply Hht; [done|by intros _; apply Hpos]].
  - destruct (pop_off (ht me)) as [c| |] eqn:E; try done. simplify_eq. destruct (Hsame LOut) as [S1 S2]; [done|].
    split; simpl; [done|by rewrite <- S2|by apply Hcpu|]. apply Hht; [|done].
    unfold pop_off in E. destruct Hok as [K1 K2]. destruct (intr (ht me)); [done|]. destruct (noff (ht me) <? 1) eqn:E1; [done|]. bool_prop. simplify_eq. unfold cpu_ok; simpl.
    split; [lia|]. intros Hp. rewrite (proj2 (Z.eqb_neq _ _)) by lia. done.
Qed.

Lemma l_inv_init harts : (∀ t, cpu_ok (harts t)) → l_inv (linit harts).
Proof.
  intros Hh. split; simpl; [done|split; [done|by intros [t []]]|intros t; split; [done|by intros [|]]|intros t; split; [apply Hh|done]].
Qed.

Lemma l_inv_reach harts s : (∀ t, cpu_ok (harts t)) → spin_reach (linit harts) s → l_inv s.
Proof. intros Hh. induction 1 as [|s s' me _ IH Hs]; [by apply l_inv_init|by eapply l_inv_step]. Qed.

(** *** The sleep-lock *)

Section sleeplock.
Implicit Types (pc : nat → spc) (lk : option nat) (pl : nat → option nat).

(** The spinlock is kept, taken or released by [me]. *)
Lemma lk_keep pc lk me p : (∀ t, in_lk (pc t) ↔ lk = Some t) → (in_lk p ↔ in_lk (pc me)) → ∀ t, in_lk (upd pc me p t) ↔ lk = Some t.
Proof. intros H Hp t. unfold upd. case_decide; [subst; by rewrite Hp|done]. Qed.
Lemma lk_take pc me p : (∀ t, in_lk (pc t) ↔ None = Some t) → in_lk p → ∀ t, in_lk (upd pc me p t) ↔ Some me = Some t.
Proof. intros H Hp t. unfold upd. case_decide; [by subst|]. rewrite H. split; [done|congruence]. Qed.
Lemma lk_drop pc lk me p : (∀ t, in_lk (pc t) ↔ lk = Some t) → in_lk (pc me) → ¬ in_lk p → ∀ t, in_lk (upd pc me p t) ↔ None = Some t.
Proof. intros H Hm Hp t. apply H in Hm. unfold upd. case_decide; [by split|]. rewrite H. split; congruence. Qed.

(** A process lock is kept, taken or released by [me]. *)
Lemma pl_keep pc pl me p : (∀ t h, pl t = Some h ↔ in_plock (pc h) h t) → (∀ t, in_plock p me t ↔ in_plock (pc me) me t) →
  ∀ t h, pl t = Some h ↔ in_plock (upd pc me p h) h t.
Proof. intros H Hp t h. unfold upd. case_decide; [subst; by rewrite Hp|done]. Qed.
Lemma pl_take pc pl me p x : (∀ t h, pl t = Some h ↔ in_plock (pc h) h t) → pl x = None → (∀ t, ¬ in_plock (pc me) me t) →
  (∀ t, in_plock p me t ↔ t = x) → ∀ t h, upd pl x (Some me) t = Some h ↔ in_plock (upd pc me p h) h t.
Proof.
  intros H Hx Hm Hp t h. unfold upd. case_decide as Ex; subst.
  - case_decide; [subst; rewrite Hp; naive_solver|]. rewrite <- H, Hx. split; congruence.
  - case_decide; [subst; rewrite Hp, H; split; [intros E; by destruct (Hm t)|done]|done].
Qed.
Lemma pl_drop pc pl me p x : (∀ t h, pl t = Some h ↔ in_plock (pc h) h t) → (∀ t, in_plock (pc me) me t ↔ t = x) →
  (∀ t, ¬ in_plock p me t) → ∀ t h, upd pl x None t = Some h ↔ in_plock (upd pc me p h) h t.
Proof.
  intros H Hm Hp t h. assert (pl x = Some me) as Hx by (apply H, Hm; done). unfold upd. case_decide as Ex; subst.
  - case_decide as Eh; [subst; split; [done|by intros ?%Hp]|]. rewrite <- H, Hx. split; congruence.
  - case_decide; [subst; rewrite H, Hm; split; [done|by intros ?%Hp]|done].
Qed.

Lemma owner_keep pc (lo : bool) (pid : option nat) me p : (∀ t, owner (pc t) ↔ lo = true ∧ pid = Some t) → (owner p ↔ owner (pc me)) →
  ∀ t, owner (upd pc me p t) ↔ lo = true ∧ pid = Some t.
Proof. intros H Hp t. unfold upd. case_decide; [subst; by rewrite Hp|done]. Qed.
End sleeplock.

(** No sleeper is forgotten when [me] moves on, if none falls asleep by it
    and, in [wakeup], none that [me] passes sleeps on. *)
Lemma wk_keep (pc : nat → spc) sl sl' (lo lo' : bool) me p :
  (∀ t, sleepy pc sl t → lo = true ∨ ∃ r, will_wake pc r t) →
  (∀ t, sleepy (upd pc me p) sl' t → sleepy pc sl t) →
  (∀ t, sleepy (upd pc me p) sl' t → lo = true → lo' = true ∨ will_wake (upd pc me p) me t) →
  (∀ t, sleepy (upd pc me p) sl' t → will_wake pc me t → will_wake (upd pc me p) me t) →
  ∀ t, sleepy (upd pc me p) sl' t → lo' = true ∨ ∃ r, will_wake (upd pc me p) r t.
Proof.
  intros H H1 H2 H3 t Ht. destruct (H t (H1 t Ht)) as [Hl|[r Hr]].
  - destruct (H2 t Ht Hl) as [|Hw]; [by left|right; eauto].
  - right. exists r. destruct (decide (r = me)) as [->|Hne]; [by apply H3|]. unfold will_wake. by rewrite upd_ne.
Qed.

Definition awake (p : spc) : Prop := match p with SSleep2 | SSched | SAsleep => False | _ => True end.
Definition scanning (p : spc) : Prop := match p with RWake _ | RWakeIn _ => True | _ => False end.

Lemma sleepy_awake (pc : nat → spc) sl me p t : awake p → sleepy (upd pc me p) sl t → sleepy pc sl t ∧ t ≠ me.
Proof. unfold sleepy, upd. case_decide; [|done]. subst. by destruct p. Qed.
Lemma not_scanning (pc : nat → spc) me t : ¬ scanning (pc me) → ¬ will_wake pc me t.
Proof. unfold will_wake. by destruct (pc me). Qed.

Lemma wk_simple (pc : nat → spc) sl (lo : bool) me p : (∀ t, sleepy pc sl t → lo = true ∨ ∃ r, will_wake pc r t) →
  awake p → ¬ scanning (pc me) → ∀ t, sleepy (upd pc me p) sl t → lo = true ∨ ∃ r, will_wake (upd pc me p) r t.
Proof.
  intros H Ha Hs. apply (wk_keep pc sl sl lo); [done| |auto|].
  - intros t Ht. by apply sleepy_awake in Ht as [? _].
  - intros t _ Hw. by apply not_scanning in Hw.
Qed.

Ltac s_clauses Epc :=
  split; simpl;
  [ first [apply lk_keep; [assumption|rewrite Epc; simpl; tauto]
          | apply lk_take; [assumption|exact I]
          | eapply lk_drop; [eassumption|rewrite Epc; exact I|simpl; tauto] | idtac ]
  | first [apply pl_keep; [assumption|rewrite Epc; simpl; intros; tauto]
          | apply pl_take; [assumption|assumption|rewrite Epc; simpl; tauto|simpl; tauto]
          | apply pl_drop; [assumption|rewrite Epc; simpl; tauto|simpl; tauto] | idtac ]
  | first [apply owner_keep; [assumption|rewrite Epc; simpl; tauto] | idtac ]
  | try assumption
  | first [match goal with H : ∀ p, _ → ∀ t, match upd _ _ p t with _ => _ end |- _ => apply H; done end | idtac ]
  | match goal with H : ∀ p t, _ → upd _ _ p t ≠ SIdle → _ |- _ => intros t; apply H; done end
  | first [apply wk_simple; [assumption|exact I|rewrite Epc; simpl; tauto] | idtac ] ].

Lemma s_inv_step n s s' me : (me < n)%nat → s_inv n s → sstep n me s = Some s' → s_inv n s'.
Proof.
  intros Hme [Ilk Ipl Iow Ipid Itest Irg Iwk] Hs. destruct s as [lk lo pid pc sl pl]. simpl in *.
  pose proof (Ilk me) as Lme. pose proof (Iow me) as Ome. pose proof (Itest me) as Tme.
  assert (∀ p t, (p ≠ SIdle → (me < n)%nat) → upd pc me p t ≠ SIdle → (t < n)%nat) as Hrg by (intros p t; unfold upd; case_decide; [by subst|auto]).
  assert (∀ p, match p with SSleep0 | SSleep1 => lo = true | SSet => lo = false | _ => True end →
    ∀ t, match upd pc me p t with SSleep0 | SSleep1 => lo = true | SSet => lo = false | _ => True end) as Htest.
  { intros p Hp t. unfold upd. case_decide; [done|apply Itest]. }
  assert (in_lk (pc me) → ∀ t, t ≠ me → ¬ in_lk (pc t)) as Hexcl.
  { intros Hi t Hne Ht. apply Ilk in Hi, Ht. congruence. }
  destruct (pc me) eqn:Epc; simpl in *.
  - (* SIdle *) simplify_eq. s_clauses Epc.
  - (* SAcq *) destruct lk; [done|]. simplify_eq. s_clauses Epc.
  - (* STest *) simplify_eq. destruct lo; s_clauses Epc.
  - (* SSleep0 *) destruct (pl me) eqn:Epl; [done|]. simplify_eq. s_clauses Epc.
  - (* SSleep1 *) simplify_eq. s_clauses Epc. intros t Ht. by left.
  - (* SSleep2 *) simplify_eq. s_clauses Epc. apply (wk_keep pc sl _ lo); [done| |auto|intros t _ Hw; apply not_scanning in Hw; [done|rewrite Epc; by intros []]].
    intros t. unfold sleepy, upd. case_decide; [subst; by rewrite Epc|done].
  - (* SSched *) simplify_eq. s_clauses Epc. apply (wk_keep pc sl _ lo); [done| |auto|intros t _ Hw; apply not_scanning in Hw; [done|rewrite Epc; by intros []]].
    intros t. unfold sleepy, upd. case_decide; [subst; by rewrite Epc|done].
  - (* SAsleep *) destruct (sl me) eqn:Es; [done|]. destruct (pl me) eqn:Epl; [done|]. simplify_eq. s_clauses Epc.
  - (* SWoken *) simplify_eq. s_clauses Epc.
  - (* SSet *) simplify_eq. s_clauses Epc.
    + intros t. unfold upd. case_decide; [subst; by split|]. rewrite Iow. split; [intros [? _]; congruence|intros [_ ?]; congruence].
    + by eexists.
    + intros t. unfold upd. case_decide as E; [done|]. specialize (Hexcl I t E). revert Hexcl. destruct (pc t); simpl; tauto.
    + intros t _. by left.
  - (* SRel *) simplify_eq. s_clauses Epc.
  - (* SHold *) simplify_eq. s_clauses Epc.
  - (* RAcq *) destruct lk; [done|]. simplify_eq. s_clauses Epc.
  - (* RClear *) simplify_eq. s_clauses Epc.
    + intros t. unfold upd. case_decide as E; [by split; [|intros [? _]]|]. rewrite Iow. split; [|by intros [? _]].
      intros [_ E2]. destruct Ome as [Ome _]. destruct (Ome I). congruence.
    + done.
    + intros t. unfold upd. case_decide as E; [done|]. specialize (Hexcl I t E). revert Hexcl. destruct (pc t); simpl; tauto.
    + intros t Ht. right. exists me. unfold will_wake. rewrite upd_eq. lia.
  - (* RWake *) case_decide; [|case_decide]; [..|destruct (pl j) eqn:Epl; [done|]]; simplify_eq; s_clauses Epc.
    + apply (wk_keep pc sl sl lo); [done|intros t Ht; by apply sleepy_awake in Ht as [? _]|auto|].
      intros t Ht Hw. apply sleepy_awake in Ht as [Ht Hne]; [|done]. unfold will_wake in Hw. rewrite Epc in Hw.
      assert (t < n)%nat; [apply Irg; intros E; unfold sleepy in Ht; by rewrite E in Ht|lia].
    + apply (wk_keep pc sl sl lo); [done|intros t Ht; by apply sleepy_awake in Ht as [? _]|auto|].
      intros t Ht Hw. apply sleepy_awake in Ht as [Ht Hne]; [|done]. unfold will_wake in *. rewrite Epc in Hw. rewrite upd_eq. lia.
    + apply (wk_keep pc sl sl lo); [done|intros t Ht; by apply sleepy_awake in Ht as [? _]|auto|].
      intros t Ht Hw. unfold will_wake in *. rewrite Epc in Hw. rewrite upd_eq. lia.
  - (* RWakeIn *) simplify_eq. s_clauses Epc.
    assert (pl j = Some me) as Hj by (apply Ipl; rewrite Epc; done).
    assert (∀ t, sleepy (upd pc me (RWake (S j))) (upd sl j false) t → sleepy pc sl t ∧ t ≠ j) as Hsl.
    { intros t Ht. apply sleepy_awake in Ht as [Ht Hne]; [|done]. unfold sleepy, upd in Ht. unfold sleepy.
      destruct (decide (t = j)) as [->|]; [|split; [by destruct (pc t)|done]].
      assert (pc j = SSleep2) as E by (by destruct (pc j)). assert (pl j = Some j) by (apply Ipl; by rewrite E). congruence. }
    apply (wk_keep pc sl _ lo); [done|intros t Ht; by apply Hsl|auto|].
    intros t Ht Hw. apply Hsl in Ht as [_ Hne]. unfold will_wake in *. rewrite Epc in Hw. rewrite upd_eq. lia.
  - (* RRel *) simplify_eq. s_clauses Epc.
Qed.

Lemma s_inv_kill n s s' t : s_inv n s → skill t s = Some s' → s_inv n s'.
Proof.
  intros [Ilk Ipl Iow Ipid Itest Irg Iwk] Hs. destruct s as [lk lo pid pc sl pl]. unfold skill in Hs. simpl in *.
  destruct (pl t); [done|]. simplify_eq. split; simpl; try done. intros u Hu. apply Iwk. revert Hu. unfold sleepy, upd.
  case_decide; [subst; by destruct (pc t)|done].
Qed.

Lemma s_inv_init n : s_inv n sinit.
Proof. split; simpl; try done; try (intros; split; try done); by intros [? ?]. Qed.

Lemma s_inv_reach n s : sreach n s → s_inv n s.
Proof.
  induction 1 as [|s s' me Hme _ IH Hs|s s' t _ IH Hs]; [apply s_inv_init|by eapply s_inv_step|by eapply s_inv_kill].
Qed.

Lemma spin_run_reach s0 l s s' : spin_reach s0 s → spin_run l s = Some s' → spin_reach s0 s'.
Proof.
  revert s. induction l as [|me l IH]; intros s Hr; simpl; [by intros [= <-]|]. destruct (spin_step me s) as [s1|] eqn:E; [|done].
  simpl. apply IH. by eapply spin_reach_step.
Qed.
Lemma srun_reach n l s s' : Forall (λ me, me < n)%nat l → sreach n s → srun n l s = Some s' → sreach n s'.
Proof.
  intros Hl. revert s. induction Hl as [|me l Hme _ IH]; intros s Hr; simpl; [by intros [= <-]|].
  destruct (sstep n me s) as [s1|] eqn:E; [|done]. simpl. apply IH. by eapply sreach_step.
Qed.

(** ** Properties *)

(** C36: At most one hart is between the swap that takes a spinlock and the store
    that frees it; whoever uses the lock runs with interrupts off, and no
    step of [acquire], [release] or [pop_off] panics. *)
Theorem spinlock_mutex harts s : (∀ t, cpu_ok (harts t)) → spin_reach (linit harts) s →
  (∀ t u, owns (l_pc s t) → owns (l_pc s u) → t = u) ∧
  (∀ t, l_pc s t ≠ LOut → intr (l_hart s t) = false) ∧ ∀ t, is_Some (spin_step t s).
Proof.
  intros Hh Hr. pose proof (l_inv_reach harts s Hh Hr) as Hinv. pose proof Hinv as [H1 H2 H3 H4]. split; [done|]. split.
  - intros t Ht. destruct (H4 t) as [[_ Hi] Hn]. by apply Hi, Hn.
  - intros t. pose proof (holding_iff s t Hinv) as Hold. destruct (H4 t) as [[_ Hi] Hn]. unfold spin_step. destruct (l_pc s t) eqn:E; try (by eexists).
    + destruct (holding t (l_lock s)); [|by eexists]. destruct Hold as [Hx _]. by destruct (Hx eq_refl).
    + destruct (holding t (l_lock s)); [by eexists|]. destruct Hold as [_ Hx]. by discriminate Hx; left.
    + specialize (Hn ltac:(done)). unfold pop_off. rewrite Hi by done. rewrite (proj2 (Z.ltb_ge _ _)) by lia. by eexists.
Qed.
Lemma spinlock_mutex_witness : ∃ s, l_pc s 0%nat = LIn ∧ l_pc s 1%nat = LSwap ∧
  (∀ t u, owns (l_pc s t) → owns (l_pc s u) → t = u) ∧
  (∀ t, l_pc s t ≠ LOut → intr (l_hart s t) = false) ∧ ∀ t, is_Some (spin_step t s).
Proof.
  set (harts := λ _ : nat, Cpu 0 false true).
  destruct (spin_run [0; 1; 0; 1; 0]%nat (linit harts)) as [s|] eqn:E; [|discriminate E].
  assert (spin_reach (linit harts) s) as Hr by (eapply spin_run_reach; [apply spin_reach_refl|exact E]).
  assert (l_pc s 0%nat = LIn ∧ l_pc s 1%nat = LSwap) as [H0 H1] by (injection E as <-; done).
  exists s. split; [exact H0|]. split; [exact H1|]. apply (spinlock_mutex harts s); [intros t; split; simpl; lia|exact Hr].
Defined.

(** C12: A sleep-lock has at most one holder, and no wakeup is lost: when it is
    free and no process is in [releasesleep], nobody sleeps on it. *)
Theorem sleeplock_no_lost_wakeup n s : sreach n s →
  (∀ t u, owner (s_pc s t) → owner (s_pc s u) → t = u) ∧
  (s_locked s = false → (∀ r, ¬ scanning (s_pc s r)) → ∀ t, ¬ sleepy (s_pc s) (s_asleep s) t).
Proof.
  intros [Ilk Ipl Iow Ipid Itest Irg Iwk]%s_inv_reach. split.
  - intros t u [_ Ht]%Iow [_ Hu]%Iow. congruence.
  - intros Hl Hns t Ht. destruct (Iwk t Ht) as [|[r Hr]]; [congruence|]. specialize (Hns r). unfold will_wake in Hr. by destruct (s_pc s r).
Qed.
Lemma sleeplock_no_lost_wakeup_witness : ∃ s, sreach 2 s ∧ s_pc s 1%nat = SAsleep ∧ s_locked s = false ∧
  (∀ t u, owner (s_pc s t) → owner (s_pc s u) → t = u) ∧ ∀ t, ¬ sleepy (s_pc s) (s_asleep s) t.
Proof.
  set (sched := (replicate 5 0 ++ replicate 7 1 ++ replicate 8 0)%nat).
  destruct (srun 2 sched sinit) as [s|] eqn:E; [|discriminate E].
  assert (sreach 2 s) as Hr by (eapply srun_reach; [|apply sreach_init|exact E]; unfold sched; simpl; repeat constructor; lia).
  assert (s_pc s 1%nat = SAsleep ∧ s_locked s = false ∧ ∀ r, ¬ scanning (s_pc s r)) as (H1 & H2 & H3).
  { injection E as <-. split; [done|]. split; [done|]. intros r. simpl. unfold upd. repeat case_decide; simpl; tauto. }
  destruct (sleeplock_no_lost_wakeup 2 s Hr) as [P1 P2]. exists s. split; [exact Hr|]. split; [exact H1|]. split; [exact H2|].
  split; [exact P1|]. apply P2; [exact H2|exact H3].
Defined.
