(* ===== verification/Grep.v ===== *)
(** user/grep.c: the matcher of Kernighan and Pike against the language its
    patterns stand for, and [grep] against the lines of its input. *)
From S2P Require Import Prelude.

(** ** Definitions *)

Definition STAR : Z := 42.
Definition DOT : Z := 46.
Definition CARET : Z := 94.
Definition DOLLAR : Z := 36.
Definition NL : Z := 10.

(** Strings are the bytes before their NUL. *)

(** The loop of [matchstar], over the match [here] of the rest of the pattern. *)
Fixpoint matchstar (c : Z) (here : list Z → bool) (text : list Z) : bool :=
  if here text then true
  else match text with
       | [] => false
       | x :: text' => if (x =? c) || (c =? DOT) then matchstar c here text' else false
       end.

Fixpoint matchhere (re : list Z) (text : list Z) : bool :=
  match re with
  | [] => true
  | c :: re1 =>
      match re1 with
      | s :: re2 =>
          if s =? STAR then matchstar c (matchhere re2) text
          else match text with
               | x :: text' => if (c =? DOT) || (c =? x) then matchhere re1 text' else false
               | [] => false
               end
      | [] =>
          if c =? DOLLAR then match text with [] => true | _ => false end
          else match text with
               | x :: text' => if (c =? DOT) || (c =? x) then matchhere re1 text' else false
               | [] => false
               end
      end
  end.

(** The loop of [match]. *)
Fixpoint match_from (re text : list Z) : bool :=
  if matchhere re text then true
  else match text with [] => false | _ :: text' => match_from re text' end.
Definition match_ (re text : list Z) : bool :=
  match re with
  | c :: re1 => if c =? CARET then matchhere re1 text else match_from re text
  | [] => match_from re text
  end.

(** [strchr(p, '\n')], as the line before the newline and what follows it. *)
Fixpoint cut_line (p : list Z) : option (list Z * list Z) :=
  match p with
  | [] => None
  | x :: p' =>
      if x =? 0 then None
      else if x =? NL then Some ([], p')
      else (λ '(l, r), (x :: l, r)) <$> cut_line p'
  end.

(** The inner loop of [grep]: what it writes, and what is left of the buffer. *)
Fixpoint grep_lines (fuel : nat) (pattern p out : list Z) : list Z * list Z :=
  match fuel with
  | O => (p, out)
  | S fuel' =>
      match cut_line p with
      | None => (p, out)
      | Some (l, r) => grep_lines fuel' pattern r (out ++ if match_ pattern l then l ++ [NL] else [])
      end
  end.

Definition BUFSIZE : nat := 1024.

(** The [i]-th [read] of [n] bytes from the input [inp]: at least one byte
    when there is one, and as many as [sizes] lets it. *)
Definition read_size (sizes : nat → nat) (i n : nat) (inp : list Z) : nat := S (sizes i) `min` (n `min` length inp).

(** The outer loop: [buf] is what the buffer holds. *)
Fixpoint grep_loop (fuel : nat) (sizes : nat → nat) (i : nat) (pattern buf inp out : list Z) : option (list Z) :=
  match fuel with
  | O => None
  | S fuel' =>
      let n := read_size sizes i (BUFSIZE - length buf - 1) inp in
      if decide (n = O) then Some out
      else
        let buf := buf ++ take n inp in
        let '(p, out) := grep_lines (S (length buf)) pattern buf out in
        grep_loop fuel' sizes (S i) pattern p (drop n inp) out
  end.
Definition grep (sizes : nat → nat) (pattern inp : list Z) : option (list Z) :=
  grep_loop (S (length inp)) sizes 0 pattern [] inp [].

(** *** What a pattern stands for *)

Inductive regex :=
| REnd                            (* the end of the pattern *)
| REol                            (* a final dollar *)
| ROne (c : Z) (r : regex)        (* a character, or any for a dot *)
| RStar (c : Z) (r : regex).      (* as many of it as one likes *)

Fixpoint parse (re : list Z) : regex :=
  match re with
  | [] => REnd
  | c :: re1 =>
      match re1 with
      | s :: re2 => if s =? STAR then RStar c (parse re2) else ROne c (parse re1)
      | [] => if c =? DOLLAR then REol else ROne c (parse re1)
      end
  end.

Definition char_ok (c x : Z) : Prop := c = DOT ∨ c = x.

(** [r] matches at the beginning of the text. *)
Fixpoint denotes (r : regex) (text : list Z) : Prop :=
  match r with
  | REnd => True
  | REol => text = []
  | ROne c r' => ∃ x text', text = x :: text' ∧ char_ok c x ∧ denotes r' text'
  | RStar c r' => ∃ a b, text = a ++ b ∧ Forall (char_ok c) a ∧ denotes r' b
  end.

(** A pattern matches a line from its start with a caret, or somewhere. *)
Definition pattern_matches (pattern line : list Z) : Prop :=
  match pattern with
  | c :: re => if c =? CARET then denotes (parse re) line else ∃ a b, line = a ++ b ∧ denotes (parse pattern) b
  | [] => ∃ a b, line = a ++ b ∧ denotes (parse pattern) b
  end.

(** The lines of an input that end in a newline, and the rest. *)
Fixpoint lines (inp : list Z) : list (list Z) * list Z :=
  match inp with
  | [] => ([], [])
  | x :: inp' =>
      let '(ls, r) := lines inp' in
      if x =? NL then ([] :: ls, r)
      else match ls with
           | [] => ([], x :: r)
           | l :: ls' => ((x :: l) :: ls', r)
           end
  end.

Definition printed (pattern : list Z) (ls : list (list Z)) : list Z :=
  concat ((λ l, if match_ pattern l then l ++ [NL] else []) <$> ls).

(** Text without NUL whose lines fit the buffer with their newline. *)
Definition text_ok (inp : list Z) : Prop :=
  Forall (λ x, x ≠ 0) inp ∧ Forall (λ l, (S (length l) < BUFSIZE)%nat) (fst (lines inp)) ∧
  (length (snd (lines inp)) < BUFSIZE - 1)%nat.

(** ** Lemmas *)

(** *** The matcher *)

Lemma matchstar_iff c here (r : regex) text : (∀ t, here t = true ↔ denotes r t) →
  matchstar c here text = true ↔ denotes (RStar c r) text.
Proof.
  intros Hh. induction text as [|x text IH]; simpl.
  - destruct (here []) eqn:E; split; intros H; try done.
    + exists [], []. by rewrite <- Hh.
    + destruct H as (a & b & Eq & _ & Hb). symmetry in Eq. apply app_nil in Eq as [-> ->]. by rewrite <- Hh, E in Hb.
  - destruct (here (x :: text)) eqn:E.
    { split; [intros _|done]. exists [], (x :: text). by rewrite <- Hh. }
    destruct ((x =? c) || (c =? DOT)) eqn:Ec.
    + rewrite IH. apply orb_true_iff in Ec. assert (char_ok c x) as Hc by (unfold char_ok; destruct Ec; bool_prop; auto). split.
      * intros (a & b & -> & Ha & Hb). exists (x :: a), b. split_and!; [done|by constructor|done].
      * intros (a & b & Eq & Ha & Hb). destruct a as [|y a]; [simpl in Eq; subst b; rewrite <- Hh, E in Hb; done|].
        simpl in Eq. simplify_eq. apply Forall_cons in Ha as [_ Ha]. by exists a, b.
    + split; [done|]. intros (a & b & Eq & Ha & Hb). destruct a as [|y a]; [simpl in Eq; subst b; rewrite <- Hh, E in Hb; done|].
      simpl in Eq. simplify_eq. apply Forall_cons in Ha as [Hc _]. apply orb_false_iff in Ec as [E1 E2]. bool_prop. by destruct Hc.
Qed.

Lemma one_iff c (k : list Z → bool) r text : (∀ t, k t = true ↔ denotes r t) →
  match text with x :: text' => if (c =? DOT) || (c =? x) then k text' else false | [] => false end = true ↔ denotes (ROne c r) text.
Proof.
  intros Hk. simpl. destruct text as [|x text]; [split; [done|intros (? & ? & ? & _); done]|].
  destruct ((c =? DOT) || (c =? x)) eqn:E.
  - rewrite Hk. apply orb_true_iff in E. split.
    + intros Ht. exists x, text. split_and!; [done| |done]. unfold char_ok. destruct E; bool_prop; auto.
    + intros (y & t & Eq & _ & Ht). by simplify_eq.
  - split; [done|]. intros (y & t & Eq & Hc & _). simplify_eq. apply orb_false_iff in E as [E1 E2]. bool_prop. by destruct Hc.
Qed.

Lemma matchhere_iff re text : matchhere re text = true ↔ denotes (parse re) text.
Proof.
  revert text. induction re as [re IH] using (induction_ltof1 _ (@length Z)). intros text. unfold ltof in IH.
  destruct re as [|c [|s re2]]; [done| |].
  - simpl matchhere. simpl parse. destruct (c =? DOLLAR).
    + destruct text; split; done.
    + apply (one_iff c (matchhere []) REnd). intros t. done.
  - simpl parse. simpl matchhere. destruct (s =? STAR).
    + apply matchstar_iff. apply IH. simpl. lia.
    + apply (one_iff c (matchhere (s :: re2)) (parse (s :: re2))). apply IH. simpl. lia.
Qed.

Lemma match_from_iff re text : match_from re text = true ↔ ∃ a b, text = a ++ b ∧ denotes (parse re) b.
Proof.
  induction text as [|x text IH]; simpl; (destruct (matchhere re _) eqn:E; [split; [intros _; eexists [], _; split; [done|]; by apply matchhere_iff|done]|]).
  - split; [done|]. intros (a & b & Eq & Hb). symmetry in Eq. apply app_nil in Eq as [-> ->]. apply matchhere_iff in Hb. congruence.
  - rewrite IH. split.
    + intros (a & b & -> & Hb). by exists (x :: a), b.
    + intros (a & b & Eq & Hb). destruct a as [|y a]; simpl in Eq; simplify_eq; [|eauto]. apply matchhere_iff in Hb. congruence.
Qed.

Lemma match_iff pattern line : match_ pattern line = true ↔ pattern_matches pattern line.
Proof.
  unfold match_, pattern_matches. destruct pattern as [|c re]; [apply match_from_iff|].
  destruct (c =? CARET); [apply matchhere_iff|apply match_from_iff].
Qed.

Global Instance pattern_matches_dec pattern line : Decision (pattern_matches pattern line).
Proof.
  destruct (match_ pattern line) eqn:E; [left; by apply match_iff|right]. intros H. apply match_iff in H. congruence.
Defined.

(** *** Lines *)

Lemma lines_app a b : lines (a ++ b) =
  (fst (lines a) ++ fst (lines (snd (lines a) ++ b)), snd (lines (snd (lines a) ++ b))).
Proof.
  induction a as [|x a IH]; simpl; [by destruct (lines b)|]. rewrite IH. destruct (lines a) as [[|l ls] r]; simpl.
  - destruct (x =? NL) eqn:E; simpl; [by destruct (lines (r ++ b))|]. rewrite E. destruct (lines (r ++ b)) as [[|l' ls'] r']; done.
  - by destruct (x =? NL).
Qed.

Lemma cut_line_spec p : Forall (λ x, x ≠ 0) p →
  match cut_line p with
  | None => lines p = ([], p)
  | Some (l, q) => lines p = (l :: fst (lines q), snd (lines q)) ∧ p = l ++ NL :: q
  end.
Proof.
  induction 1 as [|x p Hx Hp IH]; simpl; [done|]. apply Z.eqb_neq in Hx. rewrite Hx. destruct (x =? NL) eqn:E.
  - bool_prop. subst. split; [|done]. by destruct (lines p).
  - destruct (cut_line p) as [[l q]|]; simpl.
    + destruct IH as [-> ->]. done.
    + by rewrite IH.
Qed.

Lemma printed_cons pattern l ls : printed pattern (l :: ls) = (if match_ pattern l then l ++ [NL] else []) ++ printed pattern ls.
Proof. done. Qed.
Lemma printed_app pattern l1 l2 : printed pattern (l1 ++ l2) = printed pattern l1 ++ printed pattern l2.
Proof. unfold printed. by rewrite fmap_app, concat_app. Qed.

Lemma grep_lines_spec fuel pattern p out : (length p < fuel)%nat → Forall (λ x, x ≠ 0) p →
  grep_lines fuel pattern p out = (snd (lines p), out ++ printed pattern (fst (lines p))).
Proof.
  revert p out. induction fuel as [|n IH]; intros p out Hf Hp; [lia|]. simpl. pose proof (cut_line_spec p Hp) as Hc.
  destruct (cut_line p) as [[l q]|].
  - destruct Hc as [E Eq]. rewrite E. simpl fst. simpl snd. rewrite printed_cons, app_assoc.
    rewrite Eq in Hf, Hp. rewrite length_app in Hf. simpl in Hf. apply Forall_app in Hp as [_ Hp]. apply Forall_cons in Hp as [_ Hp].
    apply IH; [lia|done].
  - rewrite Hc. simpl. by rewrite app_nil_r.
Qed.

Lemma lines_tail p : lines (snd (lines p)) = ([], snd (lines p)).
Proof.
  induction p as [|x p IH]; [done|]. simpl. destruct (lines p) as [[|l ls] r] eqn:E; simpl in *.
  - destruct (x =? NL) eqn:Ex; simpl; [done|]. by rewrite IH, Ex.
  - by destruct (x =? NL).
Qed.

(** The partial line at the front of a text fits the buffer. *)
Lemma partial_fits buf inp : lines buf = ([], buf) → text_ok (buf ++ inp) → (length buf < BUFSIZE - 1)%nat.
Proof.
  intros Hb (_ & Hl & Ht). rewrite lines_app, Hb in Hl, Ht. simpl in Hl, Ht.
  assert (∀ b i, lines b = ([], b) → match lines (b ++ i) with
    | ([], r) => length b ≤ length r
    | (l :: _, _) => length b ≤ length l
    end)%nat as Hlen.
  { clear. intros b i. induction b as [|x b IH]; intros Hb; simpl; [destruct (lines i) as [[|? ?] ?]; simpl; lia|].
    simpl in Hb. destruct (lines b) as [ls r] eqn:E. destruct (x =? NL) eqn:Ex; [done|]. destruct ls as [|l ls]; simplify_eq.
    specialize (IH eq_refl). destruct (lines (b ++ i)) as [[|l' ls'] r']; simpl; lia. }
  specialize (Hlen buf inp Hb). destruct (lines (buf ++ inp)) as [[|l ls] r]; simpl in *; [lia|].
  apply Forall_cons in Hl as [Hl _]. unfold BUFSIZE in *. lia.
Qed.

Lemma text_ok_tail a b : text_ok (a ++ b) → text_ok (snd (lines a) ++ b).
Proof.
  intros (H1 & H2 & H3). rewrite lines_app in H2, H3. simpl in H2, H3. apply Forall_app in H1 as [Ha Hb], H2 as [_ H2].
  split_and!; [apply Forall_app; split; [|done]|done|done].
  clear -Ha. induction Ha as [|x p Hx Hp IH]; simpl; [done|]. destruct (lines p) as [[|l ls] r]; simpl in *; destruct (x =? NL); simpl; auto.
Qed.

Lemma grep_loop_spec fuel sizes i pattern buf inp out : (length inp < fuel)%nat → lines buf = ([], buf) → text_ok (buf ++ inp) →
  grep_loop fuel sizes i pattern buf inp out = Some (out ++ printed pattern (fst (lines (buf ++ inp)))).
Proof.
  revert i buf inp out. induction fuel as [|k IH]; intros i buf inp out Hf Hb Ht; [lia|]. cbn [grep_loop].
  pose proof (partial_fits buf inp Hb Ht) as Hfit. set (n := read_size sizes i (BUFSIZE - length buf - 1) inp).
  destruct (decide (n = O)) as [E|E].
  { assert (inp = []) as ->. { apply length_zero_iff_nil. unfold n, read_size in E. lia. }
    rewrite app_nil_r, Hb. simpl. by rewrite app_nil_r. }
  assert (buf ++ inp = (buf ++ take n inp) ++ drop n inp) as Esplit by (by rewrite <- app_assoc, take_drop).
  rewrite Esplit in Ht |- *. set (buf' := buf ++ take n inp) in *.
  assert (Forall (λ x, x ≠ 0) buf') as Hnz by (destruct Ht as (H & _); by apply Forall_app in H as [H _]).
  rewrite grep_lines_spec by (done || lia). rewrite IH.
  - rewrite (lines_app buf'). simpl. by rewrite printed_app, app_assoc.
  - rewrite length_drop. unfold n, read_size in *. lia.
  - apply lines_tail.
  - by apply text_ok_tail.
Qed.

(** ** Properties *)

(** C27: For a text without NUL bytes whose lines are shorter than 1023 bytes (the
    buffer without a newline and a NUL), [grep] prints the newline-terminated
    lines that its pattern matches, in order and nothing else, however [read]
    cuts the input into pieces; a last line without a newline is never
    printed. *)
Theorem grep_prints_matching_lines sizes pattern inp : text_ok inp →
  grep sizes pattern inp = Some (concat ((λ l, l ++ [NL]) <$> filter (pattern_matches pattern) (fst (lines inp)))).
Proof.
  intros Ht. unfold grep. rewrite grep_loop_spec by (done || lia). f_equal. simpl. unfold printed.
  generalize (fst (lines inp)). intros ls. induction ls as [|l ls IH]; [done|]. rewrite fmap_cons, filter_cons. simpl.
  destruct (match_ pattern l) eqn:E.
  - rewrite decide_True by (by apply match_iff). rewrite fmap_cons. simpl. f_equal. exact IH.
  - rewrite decide_False; [exact IH|]. intros H. apply match_iff in H. congruence.
Qed.
Lemma grep_prints_matching_lines_witness :
  let inp := [97; 98; 10; 99; 10; 98; 98; 98; 10; 98] in
  grep (λ _, 2%nat) [98; 42; 36] inp = Some (concat ((λ l, l ++ [NL]) <$> filter (pattern_matches [98; 42; 36]) (fst (lines inp)))) ∧
  grep (λ _, 2%nat) [94; 98; 98; 42; 36] inp = Some [98; 98; 98; 10].
Proof.
  split; [|by vm_compute]. apply (grep_prints_matching_lines (λ _, 2%nat) [98; 42; 36]). split_and!; [|simpl|simpl].
  - repeat constructor; done.
  - repeat constructor; unfold BUFSIZE; simpl; lia.
  - unfold BUFSIZE. lia.
Defined.
