(* ===== verification/Sh.v ===== *)
(** user/sh.c: the command parser of the shell against the grammar of its
    language, and [runcmd] against the descriptors that its programs get. *)
From S2P Require Import Prelude.

(** ** Definitions *)

Definition MAXARGS : nat := 10.
Definition O_RDONLY : Z := 0.
Definition O_WRONLY : Z := 1.
Definition O_CREATE : Z := 512.
Definition O_TRUNC : Z := 1024.

(** The characters of the language. *)
Definition whitespace : list Z := [32; 9; 13; 10; 11].
Definition symbols : list Z := [60; 124; 62; 38; 59; 40; 41].
Definition LT : Z := 60.
Definition BAR : Z := 124.
Definition GT : Z := 62.
Definition AMP : Z := 38.
Definition SEMI : Z := 59.
Definition OPEN : Z := 40.
Definition CLOSE : Z := 41.
Definition PLUS : Z := 43.
Definition CHAR_a : Z := 97.

(** [strchr] of user/ulib.c, as a test: the NUL is not found. *)
Definition strchr (s : list Z) (c : Z) : bool := existsb (Z.eqb c) s.

(** A parsed command.  The strings of a command are pointers into the line: where
    they start and where they end.  [EXEC] has the arguments before the null
    pointers of [argv] and [eargv]. *)
Inductive cmd :=
| EXEC (argv : list (nat * nat))
| REDIR (c : cmd) (file efile : nat) (mode fd : Z)
| PIPE (left right : cmd)
| LIST (left right : cmd)
| BACK (c : cmd).

Definition execcmd : cmd := EXEC [].
Definition redircmd (subcmd : cmd) (file efile : nat) (mode fd : Z) : cmd := REDIR subcmd file efile mode fd.
Definition pipecmd (left right : cmd) : cmd := PIPE left right.
Definition listcmd (left right : cmd) : cmd := LIST left right.
Definition backcmd (subcmd : cmd) : cmd := BACK subcmd.

(** [cmd->argv[argc] = q; cmd->eargv[argc] = eq] in [parseexec], where [cmd]
    is the command that the redirections of [ret] end in. *)
Fixpoint set_arg (ret : cmd) (q eq : nat) : cmd :=
  match ret with
  | EXEC argv => EXEC (argv ++ [(q, eq)])
  | REDIR c f ef m d => REDIR (set_arg c q eq) f ef m d
  | c => c
  end.

Section parser.
(** The line up to its NUL; a pointer is an index into it, and [es] is its
    length. *)
Context (buf : list Z).
Definition es : nat := length buf.
Definition at_ (s : nat) : Z := default 0 (buf !! s).

(** How far a loop over the bytes that satisfy [P] gets. *)
Fixpoint span (P : Z → bool) (l : list Z) : nat :=
  match l with
  | [] => O
  | c :: l' => if P c then S (span P l') else O
  end.
Definition skip_while (P : Z → bool) (s : nat) : nat := (s + span P (drop s buf))%nat.
Definition is_space (c : Z) : bool := strchr whitespace c.
Definition is_word (c : Z) : bool := negb (strchr whitespace c) && negb (strchr symbols c).

(** The state of the parser is [*ps].  The answer is the kind of the token,
    [*q] and [*eq]. *)
Definition gettoken : M nat (Z * nat * nat) :=
  ps ← gets id;
  let s := skip_while is_space ps in
  let q := s in
  let c := at_ s in
  let '(ret, s) :=
    if c =? 0 then (c, s)
    else if strchr [BAR; OPEN; CLOSE; SEMI; AMP; LT] c then (c, S s)
    else if c =? GT then
      let s := S s in
      if at_ s =? GT then (PLUS, S s) else (c, s)
    else (CHAR_a, skip_while is_word s) in
  let eq := s in
  modify (λ _, skip_while is_space s);;
  mret (ret, q, eq).

Definition peek (toks : list Z) : M nat bool :=
  ps ← gets id;
  let s := skip_while is_space ps in
  modify (λ _, s);;
  mret (negb (at_ s =? 0) && strchr toks (at_ s)).

(** The body of the loop of [parseredirs]. *)
Definition redir_step (c : cmd) : M nat (cmd + cmd) :=
  b ← peek [LT; GT];
  if (b : bool) then
    '(tok, _, _) ← gettoken;
    '(a, q, eq) ← gettoken;
    if negb (a =? CHAR_a) then panic "missing file for redirection"
    else if tok =? LT then mret (inl (redircmd c q eq O_RDONLY 0))
    else if tok =? GT then mret (inl (redircmd c q eq (O_WRONLY + O_CREATE + O_TRUNC) 1))
    else if tok =? PLUS then mret (inl (redircmd c q eq (O_WRONLY + O_CREATE) 1))
    else mret (inl c)
  else mret (inr c).
(** A turn of any loop of the parser reads a byte. *)
Definition loop_fuel : nat := S (S es).
Definition parseredirs (c : cmd) : M nat cmd := while_ loop_fuel redir_step c.

(** The body of the loop of [parseexec]. *)
Definition arg_step (st : nat * cmd) : M nat (nat * cmd + cmd) :=
  let '(argc, ret) := st in
  b ← peek [BAR; CLOSE; AMP; SEMI];
  if (b : bool) then mret (inr ret)
  else
    '(tok, q, eq) ← gettoken;
    if tok =? 0 then mret (inr ret)
    else if negb (tok =? CHAR_a) then panic "syntax"
    else
      let ret := set_arg ret q eq in
      let argc := S argc in
      if (MAXARGS <=? argc)%nat then panic "too many args"
      else
        ret ← parseredirs ret;
        mret (inl (argc, ret)).

(** The body of the loop of [parseline]. *)
Definition back_step (c : cmd) : M nat (cmd + cmd) :=
  b ← peek [AMP];
  if (b : bool) then gettoken;; mret (inl (backcmd c)) else mret (inr c).

Definition diverge {St A} : M St A := λ _, Diverge.

Fixpoint parseline (fuel : nat) : M nat cmd :=
  match fuel with
  | O => diverge
  | S n =>
      c ← parsepipe n;
      c ← while_ loop_fuel back_step c;
      b ← peek [SEMI];
      if (b : bool) then gettoken;; r ← parseline n; mret (listcmd c r)
      else mret c
  end
with parsepipe (fuel : nat) : M nat cmd :=
  match fuel with
  | O => diverge
  | S n =>
      c ← parseexec n;
      b ← peek [BAR];
      if (b : bool) then gettoken;; r ← parsepipe n; mret (pipecmd c r)
      else mret c
  end
with parseexec (fuel : nat) : M nat cmd :=
  match fuel with
  | O => diverge
  | S n =>
      b ← peek [OPEN];
      if (b : bool) then parseblock n
      else
        ret ← parseredirs execcmd;
        while_ loop_fuel arg_step (O, ret)
  end
with parseblock (fuel : nat) : M nat cmd :=
  match fuel with
  | O => diverge
  | S n =>
      b ← peek [OPEN];
      if negb (b : bool) then panic "parseblock"
      else
        gettoken;;
        c ← parseline n;
        b ← peek [CLOSE];
        if negb (b : bool) then panic "syntax - missing )"
        else
          gettoken;;
          parseredirs c
  end.

(** [nulterminate], on the line with its NUL. *)
Fixpoint nulterminate (c : cmd) : M (list Z) unit :=
  match c with
  | EXEC argv => foreach (λ '(_, eq), modify (<[eq := 0]>)) argv
  | REDIR c _ ef _ _ => nulterminate c;; modify (<[ef := 0]>)
  | PIPE l r => nulterminate l;; nulterminate r
  | LIST l r => nulterminate l;; nulterminate r
  | BACK c => nulterminate c
  end.

(** Between two parentheses that open there are four calls. *)
Definition parse_fuel : nat := 4 * es + 4.

(** The line up to its end. *)
Definition parse_all : M nat cmd :=
  c ← parseline parse_fuel;
  peek [];;
  s ← gets id;
  if negb (s =? es)%nat then panic "syntax" else mret c.

(** The command, and the memory its pointers are into. *)
Definition parsecmd : res (cmd * list Z) :=
  match parse_all O with
  | Ok (c, _) =>
      match nulterminate c (buf ++ [0]) with
      | Ok (_, mem) => Ok (c, mem)
      | Panic msg => Panic msg
      | Diverge => Diverge
      end
  | Panic msg => Panic msg
  | Diverge => Diverge
  end.
End parser.

(** *** The language *)

Inductive ast :=
| AExec (args : list (list Z))
| ARedir (t : ast) (file : list Z) (mode fd : Z)
| APipe (t1 t2 : ast)
| AList (t1 t2 : ast)
| ABack (t : ast).

(** A symbol is its character; [>>] is [TSym PLUS]. *)
Inductive tok :=
| TSym (c : Z)
| TWord (w : list Z).
Global Instance tok_eq_dec : EqDecision tok.
Proof. solve_decision. Defined.

(** The first token of a text, and the text after it. *)
Definition lex1 (l : list Z) : option (tok * list Z) :=
  match drop (span is_space l) l with
  | [] => None
  | c :: l1 =>
      if is_word c then
        let n := span is_word (c :: l1) in Some (TWord (take n (c :: l1)), drop n (c :: l1))
      else if c =? GT then
        match l1 with
        | d :: l2 => if d =? GT then Some (TSym PLUS, l2) else Some (TSym GT, l1)
        | [] => Some (TSym GT, l1)
        end
      else Some (TSym c, l1)
  end.
Fixpoint lex_ (fuel : nat) (l : list Z) : list tok :=
  match fuel with
  | O => []
  | S n => match lex1 l with None => [] | Some (t, r) => t :: lex_ n r end
  end.
Definition tokens (l : list Z) : list tok := lex_ (S (length l)) l.

(** A redirection: what it makes of a command. *)
Definition redir : Type := list Z * Z * Z.
Definition apply_redir (t : ast) (r : redir) : ast := let '(file, mode, fd) := r in ARedir t file mode fd.
Inductive gredir : list tok → redir → Prop :=
| gredir_in w : gredir [TSym LT; TWord w] (w, O_RDONLY, 0)
| gredir_out w : gredir [TSym GT; TWord w] (w, O_WRONLY + O_CREATE + O_TRUNC, 1)
| gredir_append w : gredir [TSym PLUS; TWord w] (w, O_WRONLY + O_CREATE, 1).
Inductive gredirs : list tok → list redir → Prop :=
| gredirs_nil : gredirs [] []
| gredirs_cons ts r ts' rs : gredir ts r → gredirs ts' rs → gredirs (ts ++ ts') (r :: rs).

(** Words and redirections in any order. *)
Inductive gargs : list tok → list (list Z) → list redir → Prop :=
| gargs_nil : gargs [] [] []
| gargs_word w ts ws rs : gargs ts ws rs → gargs (TWord w :: ts) (w :: ws) rs
| gargs_redir ts r ts' ws rs : gredir ts r → gargs ts' ws rs → gargs (ts ++ ts') ws (r :: rs).

Inductive gline : list tok → ast → Prop :=
| gline_last ts t n : gpipe ts t →
    gline (ts ++ replicate n (TSym AMP)) (Nat.iter n ABack t)
| gline_seq ts t n ts' t' : gpipe ts t → gline ts' t' →
    gline (ts ++ replicate n (TSym AMP) ++ TSym SEMI :: ts') (AList (Nat.iter n ABack t) t')
with gpipe : list tok → ast → Prop :=
| gpipe_last ts t : gexec ts t → gpipe ts t
| gpipe_pipe ts t ts' t' : gexec ts t → gpipe ts' t' → gpipe (ts ++ TSym BAR :: ts') (APipe t t')
with gexec : list tok → ast → Prop :=
| gexec_args ts ws rs : gargs ts ws rs → (length ws < MAXARGS)%nat →
    gexec ts (fold_left apply_redir rs (AExec ws))
| gexec_block ts t ts' rs : gline ts t → gredirs ts' rs →
    gexec (TSym OPEN :: ts ++ TSym CLOSE :: ts') (fold_left apply_redir rs t).

(** The command in memory, with the C strings its pointers point to. *)
Fixpoint cstring (l : list Z) : list Z :=
  match l with
  | [] => []
  | c :: l' => if c =? 0 then [] else c :: cstring l'
  end.
Fixpoint view (str : nat → nat → list Z) (c : cmd) : ast :=
  match c with
  | EXEC argv => AExec ((λ '(q, eq), str q eq) <$> argv)
  | REDIR c f ef m d => ARedir (view str c) (str f ef) m d
  | PIPE l r => APipe (view str l) (view str r)
  | LIST l r => AList (view str l) (view str r)
  | BACK c => ABack (view str c)
  end.
(** The string at [q] is read up to its NUL, wherever the parser thought it ends. *)
Definition in_memory (mem : list Z) (c : cmd) : ast := view (λ q _, cstring (drop q mem)) c.

(** *** Running commands *)

(** What a descriptor stands for, and what a process does that shows. *)
Inductive obj :=
| OStd (n : nat)                          (* what the shell was started with *)
| OFile (path : list Z) (mode : Z)
| OPipeR (n : nat)
| OPipeW (n : nat).
Global Instance obj_eq_dec : EqDecision obj.
Proof. solve_decision. Defined.
Definition fdt : Type := list (option obj).
Inductive action :=
| Fork (child : list action)
| Wait
| Exec (argv : list (list Z)) (fds : fdt)
| Chdir (path : list Z)
| Exit (code : Z).

Section run.
(** Whether [open] of a path succeeds, and whether the [n]-th [fork] or [pipe] does. *)
Context (can_open : list Z → Z → bool) (call_ok : nat → bool).

(** The system calls on descriptors: a new one is the lowest that is free. *)
Definition fd_new (fds : fdt) (o : obj) : option (nat * fdt) :=
  '(i, _) ← list_find (λ x, x = None) fds; Some (i, <[i := Some o]> fds).
Definition fd_open (path : list Z) (mode : Z) (fds : fdt) : option (nat * fdt) :=
  if can_open path mode then fd_new fds (OFile path mode) else None.
Definition fd_close (fd : nat) (fds : fdt) : fdt := <[fd := None]> fds.
Definition fd_dup (fd : nat) (fds : fdt) : fdt :=
  match fds !! fd with
  | Some (Some o) => match fd_new fds o with Some (_, fds) => fds | None => fds end
  | _ => fds
  end.
Definition fd_pipe (n : nat) (fds : fdt) : option (nat * nat * fdt) :=
  if call_ok n then
    '(p0, fds) ← fd_new fds (OPipeR n);
    '(p1, fds) ← fd_new fds (OPipeW n);
    Some (p0, p1, fds)
  else None.

(** A process is what it does until it exits; [n] numbers the calls. *)
Definition prog : Type := nat → fdt → nat * list action.
Definition exit_ (code : Z) : prog := λ n _, (n, [Exit code]).
Definition wait_ (k : prog) : prog := λ n fds, let '(n, l) := k n fds in (n, Wait :: l).
Definition with_fds (f : fdt → fdt) (k : prog) : prog := λ n fds, k n (f fds).
(** [if(fork1() == 0) child; k]. *)
Definition fork1 (child k : prog) : prog := λ n fds,
  if call_ok n then
    let '(n, c) := child (S n) fds in
    let '(n, l) := k n fds in
    (n, Fork c :: l)
  else exit_ 1 n fds.

Fixpoint runcmd (t : ast) : prog :=
  match t with
  | AExec [] => exit_ 1
  | AExec argv => λ n fds, (n, [Exec argv fds; Exit 0])    (* [exit] if [exec] fails *)
  | ARedir c file mode fd => λ n fds,
      let fds := fd_close (Z.to_nat fd) fds in
      match fd_open file mode fds with
      | None => exit_ 1 n fds
      | Some (_, fds) => runcmd c n fds
      end
  | AList l r => fork1 (runcmd l) (wait_ (runcmd r))
  | APipe l r => λ n fds,
      match fd_pipe n fds with
      | None => exit_ 1 n fds
      | Some (p0, p1, fds) =>
          fork1 (λ n fds, runcmd l n (fd_close p1 (fd_close p0 (fd_dup p1 (fd_close 1 fds)))))
            (fork1 (λ n fds, runcmd r n (fd_close p1 (fd_close p0 (fd_dup p0 (fd_close 0 fds)))))
              (with_fds (λ fds, fd_close p1 (fd_close p0 fds)) (wait_ (wait_ (exit_ 0))))) (S n) fds
      end
  | ABack c => fork1 (runcmd c) (exit_ 0)
  end.

(** [gets] of user/ulib.c: a line of at most [max - 1] bytes, and the rest of
    the input. *)
Fixpoint gets_line (n : nat) (inp : list Z) : list Z * list Z :=
  match n, inp with
  | S n', c :: inp' =>
      if (c =? 10) || (c =? 13) then ([c], inp')
      else let '(l, r) := gets_line n' inp' in (c :: l, r)
  | _, _ => ([], inp)
  end.
Definition BUFLEN : nat := 100.
(** [buf] as the C string that it is, or the end of the input. *)
Definition getcmd (inp : list Z) : option (list Z * list Z) :=
  let '(l, r) := gets_line (BUFLEN - 1) inp in
  match cstring l with [] => None | s => Some (s, r) end.

(** The loop that opens the console until descriptors 0, 1 and 2 are in use. *)
Fixpoint open_console (fuel : nat) (fds : fdt) : fdt :=
  match fuel with
  | O => fds
  | S f =>
      match fd_open [99; 111; 110; 115; 111; 108; 101] 2 fds with
      | None => fds
      | Some (fd, fds) => if (3 <=? fd)%nat then fd_close fd fds else open_console f fds
      end
  end.

(** What the child of the shell does with a line. *)
Definition child (line : list Z) : prog :=
  match parsecmd line with
  | Ok (c, mem) => runcmd (in_memory mem c)
  | _ => exit_ 1
  end.
Definition is_cd (buf : list Z) : bool := (at_ buf 0 =? 99) && (at_ buf 1 =? 100) && (at_ buf 2 =? 32).
Fixpoint main_loop (fuel : nat) (inp : list Z) : prog :=
  match fuel with
  | O => exit_ 0
  | S f =>
      match getcmd inp with
      | None => exit_ 0
      | Some (buf, inp) =>
          if is_cd buf then λ n fds,
            let '(n, l) := main_loop f inp n fds in (n, Chdir (drop 3 (take (length buf - 1) buf)) :: l)
          else fork1 (child buf) (wait_ (main_loop f inp))
      end
  end.
(** Every command takes a byte of the input. *)
Definition main (inp : list Z) : prog := with_fds (open_console (S (S (S (S O))))) (main_loop (S (length inp)) inp).

(** *** What a command means *)

(** The descriptors of a program: its standard input, output and error, and no other. *)
Definition std3 (i o e : obj) : fdt := [Some i; Some o; Some e] ++ replicate 13 None.

(** What a process that runs [t] does, with the files that it is to use. *)
Fixpoint meaning (t : ast) (i o e : obj) (n : nat) : nat * list action :=
  match t with
  | AExec [] => (n, [Exit 1])
  | AExec argv => (n, [Exec argv (std3 i o e); Exit 0])
  | ARedir c file mode fd =>
      if can_open file mode then
        if fd =? 0 then meaning c (OFile file mode) o e n else meaning c i (OFile file mode) e n
      else (n, [Exit 1])
  | AList l r =>
      let '(n, c) := meaning l i o e (S n) in
      let '(n, k) := meaning r i o e n in
      (n, Fork c :: Wait :: k)
  | APipe l r =>
      let '(n1, c1) := meaning l i (OPipeW n) e (S (S n)) in
      let '(n2, c2) := meaning r (OPipeR n) o e (S n1) in
      (n2, [Fork c1; Fork c2; Wait; Wait; Exit 0])
  | ABack c => let '(n, c) := meaning c i o e (S n) in (n, [Fork c; Exit 0])
  end.
End run.
