(* ===== verification/ShProof.v ===== *)
(** The parser of user/sh.c accepts exactly the language of its grammar, and
    the command it makes is the one the line stands for. *)
From S2P Require Import Prelude Sh.

(** ** Runs that may panic, or may run out of fuel *)

(** [wpx pp pd m s Q]: [Q] if [m] returns, [pp] if it panics, [pd] if it diverges. *)
Definition wpx {St A} (pp pd : Prop) (m : M St A) (s : St) (Q : A → St → Prop) : Prop :=
  match m s with
  | Ok (a, s') => Q a s'
  | Panic _ => pp
  | Diverge => pd
  end.

Section wpx_rules.
Context {St : Type} (pp pd : Prop).

Lemma wpx_ret {A} (a : A) (s : St) (Q : A → St → Prop) : Q a s → wpx pp pd (mret a) s Q.
Proof. done. Qed.
Lemma wpx_bind {A B} (m : M St A) (f : A → M St B) s Q :
  wpx pp pd m s (λ a s', wpx pp pd (f a) s' Q) → wpx pp pd (m ≫= f) s Q.
Proof. unfold wpx, mbind, M_bind. by destruct (m s) as [[a s']| |]. Qed.
Lemma wpx_mono {A} (m : M St A) s (P Q : A → St → Prop) :
  wpx pp pd m s P → (∀ a s', P a s' → Q a s') → wpx pp pd m s Q.
Proof. unfold wpx. destruct (m s) as [[a s']| |]; naive_solver. Qed.
Lemma wp_wpx {A} (m : M St A) s (P Q : A → St → Prop) :
  wp m s P → (∀ a s', P a s' → Q a s') → wpx pp pd m s Q.
Proof. unfold wp, wpx. destruct (m s) as [[a s']| |]; naive_solver. Qed.

Lemma wpx_gets {A} (f : St → A) (s : St) (Q : A → St → Prop) : Q (f s) s → wpx pp pd (gets f) s Q.
Proof. done. Qed.

(** A loop with an invariant and a measure. *)
Lemma wpx_while {A B} (I : A → St → Prop) (V : A → St → nat) (body : A → M St (A + B)) (Q : B → St → Prop) :
  (∀ a s, I a s → wpx pp pd (body a) s (λ r s',
     match r with inl a' => I a' s' ∧ (V a' s' < V a s)%nat | inr b => Q b s' end)) →
  ∀ fuel a s, I a s → (V a s < fuel)%nat → wpx pp pd (while_ fuel body a) s Q.
Proof.
  intros Hbody fuel. induction fuel as [|n IH]; intros a s HI HV; [lia|]; simpl.
  apply wpx_bind. eapply wpx_mono; [by apply Hbody|].
  intros [a'|b] s'; simpl; [|done]. intros [HI' HV']. apply IH; [done|lia].
Qed.
End wpx_rules.

(** ** Scanning and tokens *)

Lemma span_le P l : (span P l ≤ length l)%nat.
Proof. induction l as [|c l IH]; simpl; [lia|]. case_if; lia. Qed.

Lemma span_all P l : Forall (λ c, P c = true) (take (span P l) l).
Proof. induction l as [|c l IH]; simpl; [done|]. case_if; simpl; [by constructor|done]. Qed.

Lemma span_stop P l : match drop (span P l) l with [] => True | c :: _ => P c = false end.
Proof. induction l as [|c l IH]; simpl; [done|]. by case_if. Qed.

Lemma span_drop P l : span P (drop (span P l) l) = O.
Proof. pose proof (span_stop P l) as H. destruct (drop _ _) as [|c l']; [done|]. simpl. by rewrite H. Qed.

Definition valid_tok (t : tok) : Prop :=
  match t with
  | TSym c => c ∈ [LT; BAR; GT; AMP; SEMI; OPEN; CLOSE; PLUS]
  | TWord w => Forall (λ c, is_word c = true) w ∧ w ≠ []
  end.

Lemma lex1_space l : lex1 (drop (span is_space l) l) = lex1 l.
Proof. unfold lex1. by rewrite span_drop, drop_0. Qed.

(** A byte that ends the white space and is no word is a symbol. *)
Lemma symbol_cases c : is_space c = false → is_word c = false → c ∈ symbols.
Proof.
  unfold is_space, is_word. intros ->. cbn [negb andb]. intros H%negb_false_iff. unfold strchr in H.
  apply existsb_exists in H as (x & Hx%list_elem_of_In & ->%Z.eqb_eq). done.
Qed.

Lemma lex1_Some l t r : lex1 l = Some (t, r) → (length r < length l)%nat ∧ valid_tok t.
Proof.
  unfold lex1. pose proof (span_stop is_space l) as Hs. pose proof (length_drop l (span is_space l)) as Hl.
  destruct (drop (span is_space l) l) as [|c l1] eqn:E; [done|]. simpl in Hl.
  destruct (is_word c) eqn:Hw.
  - intros [= <- <-]. rewrite length_drop. simpl. rewrite Hw. split; [simpl; lia|]. split; [|done].
    constructor; [done|]. apply span_all.
  - destruct (c =? GT) eqn:Hg; bool_prop.
    + destruct l1 as [|d l2].
      * intros [= <- <-]. simpl in *. split; [lia|]. set_solver.
      * simpl in Hl. case_if; intros [= <- <-]; simpl; (split; [lia|]); unfold valid_tok; set_solver.
    + intros [= <- <-]. simpl. split; [lia|]. pose proof (symbol_cases c Hs Hw). unfold symbols, LT, BAR, GT, AMP, SEMI, OPEN, CLOSE in *. set_solver.
Qed.

Lemma lex_fuel n m l : (length l < n)%nat → (length l < m)%nat → lex_ n l = lex_ m l.
Proof.
  revert m l. induction n as [|n IH]; intros [|m] l Hn Hm; [lia..|]. simpl.
  destruct (lex1 l) as [[t r]|] eqn:E; [|done]. apply lex1_Some in E as [? _]. f_equal. apply IH; lia.
Qed.

Lemma tokens_unfold l : tokens l = match lex1 l with None => [] | Some (t, r) => t :: tokens r end.
Proof.
  unfold tokens at 1. simpl. destruct (lex1 l) as [[t r]|] eqn:E; [|done]. f_equal.
  apply lex1_Some in E as [? _]. apply lex_fuel; lia.
Qed.

Lemma tokens_space l : tokens (drop (span is_space l) l) = tokens l.
Proof. by rewrite tokens_unfold, lex1_space, <- tokens_unfold. Qed.

Lemma tokens_length l : (length (tokens l) ≤ length l)%nat.
Proof.
  remember (length l) as n eqn:En. revert l En. induction (lt_wf n) as [n _ IH]. intros l ->.
  rewrite tokens_unfold. destruct (lex1 l) as [[t r]|] eqn:E; simpl; [|lia].
  apply lex1_Some in E as [? _]. specialize (IH (length r) ltac:(lia) r eq_refl). lia.
Qed.

Lemma tokens_valid l : Forall valid_tok (tokens l).
Proof.
  remember (length l) as n eqn:En. revert l En. induction (lt_wf n) as [n _ IH]. intros l ->.
  rewrite tokens_unfold. destruct (lex1 l) as [[t r]|] eqn:E; [|done].
  apply lex1_Some in E as [? ?]. constructor; [done|]. by apply (IH (length r) ltac:(lia)).
Qed.

Lemma strchr_elem l c : strchr l c = true ↔ c ∈ l.
Proof.
  unfold strchr. rewrite existsb_exists. split.
  - intros (x & Hx%list_elem_of_In & ->%Z.eqb_eq). done.
  - intros Hc. exists c. split; [by apply list_elem_of_In|]. apply Z.eqb_refl.
Qed.

Lemma word_no_symbol c toks : is_word c = true → toks ⊆ symbols → strchr toks c = false.
Proof.
  unfold is_word. intros [_ Hs%negb_true_iff]%andb_true_iff Hsub. apply not_true_iff_false.
  intros Ht%strchr_elem. apply Hsub, strchr_elem in Ht. congruence.
Qed.

(** ** The grammar *)

(** What [gettoken] answers for the next token, and what [peek] compares. *)
Definition kind (ts : list tok) : Z :=
  match ts with [] => 0 | TSym c :: _ => c | TWord _ :: _ => CHAR_a end.
Definition peek_char (ts : list tok) : Z :=
  match ts with TSym c :: _ => if c =? PLUS then GT else c | _ => 0 end.

Lemma gredirs_snoc ts rs ts' r : gredirs ts rs → gredir ts' r → gredirs (ts ++ ts') (rs ++ [r]).
Proof.
  induction 1 as [|ts1 r1 ts2 rs H1 H2 IH]; intros Hr.
  - rewrite <- (app_nil_r ts'). simpl. rewrite app_nil_r. rewrite <- (app_nil_r ts'). apply gredirs_cons; [done|constructor].
  - rewrite <- app_assoc. simpl. apply gredirs_cons; [done|]. by apply IH.
Qed.

Lemma gargs_app ts ws rs ts' ws' rs' : gargs ts ws rs → gargs ts' ws' rs' → gargs (ts ++ ts') (ws ++ ws') (rs ++ rs').
Proof.
  induction 1; intros H'; simpl; [done|by constructor; auto|].
  rewrite <- app_assoc. constructor; auto.
Qed.

Lemma gargs_redirs ts rs : gredirs ts rs → gargs ts [] rs.
Proof. induction 1; by constructor. Qed.

Lemma gredir_inj ts r ts' r' a b : gredir ts r → gredir ts' r' → ts ++ a = ts' ++ b → ts = ts' ∧ r = r' ∧ a = b.
Proof. destruct 1, 1; intros E; simpl in E; by simplify_eq. Qed.

(** The redirections before the first word. *)
Lemma gargs_split ts ws rs : gargs ts ws rs → ∃ ts1 rs1 ts2 rs2, ts = ts1 ++ ts2 ∧ rs = rs1 ++ rs2 ∧ gredirs ts1 rs1 ∧
  ((ts2 = [] ∧ ws = [] ∧ rs2 = []) ∨ ∃ w ts3 ws', ts2 = TWord w :: ts3 ∧ ws = w :: ws' ∧ gargs ts3 ws' rs2).
Proof.
  induction 1 as [|w ts ws rs Hg IH|ts r ts' ws rs Hr Hg (ts1 & rs1 & ts2 & rs2 & -> & -> & H1 & H2)].
  - exists [], [], [], []. split; [done|]. split; [done|]. split; [constructor|by left].
  - exists [], [], (TWord w :: ts), rs. split; [done|]. split; [done|]. split; [constructor|]. right. by exists w, ts, ws.
  - exists (ts ++ ts1), (r :: rs1), ts2, rs2. rewrite <- app_assoc. split; [done|]. split; [done|]. split; [by constructor|done].
Qed.

Definition starts_redir (ts : list tok) : Prop :=
  match ts with TSym c :: _ => c ∈ [LT; GT; PLUS] | _ => False end.

(** What may come after a part of a line. *)
Definition follow (toks : list Z) (rest : list tok) : Prop :=
  match rest with [] => True | TSym c :: _ => c ∈ toks | TWord _ :: _ => False end.

Lemma follow_redir rest : follow [BAR; CLOSE; AMP; SEMI] rest → ¬ starts_redir rest.
Proof. destruct rest as [|[c|w] rest]; simpl; [auto| |done]. unfold BAR, CLOSE, AMP, SEMI, LT, GT, PLUS. set_solver. Qed.

Lemma gargs_head ts ws rs rest : gargs ts ws rs → follow [BAR; CLOSE; AMP; SEMI] rest → head (ts ++ rest) ≠ Some (TSym OPEN).
Proof.
  destruct 1 as [|w ts ws rs Hg|ts r ts' ws rs []]; simpl; [|done..].
  destruct rest as [|[c|w] rest]; [done| |done]. simpl. intros Hc [= ->]. unfold BAR, CLOSE, AMP, SEMI, OPEN in Hc. set_solver.
Qed.

Lemma peek_follow toks rest : follow toks rest → PLUS ∉ toks → strchr toks (peek_char rest) = false → rest = [].
Proof.
  destruct rest as [|[c|w] rest]; [done| |done]. unfold follow, peek_char. intros Hc Hp Hs. apply not_true_iff_false in Hs.
  destruct Hs. apply strchr_elem. destruct (c =? PLUS) eqn:E; [|done]. bool_prop. by subst.
Qed.

Scheme gline_ind' := Induction for gline Sort Prop
  with gpipe_ind' := Induction for gpipe Sort Prop
  with gexec_ind' := Induction for gexec Sort Prop.
Combined Scheme grammar_ind from gline_ind', gpipe_ind', gexec_ind'.

(** ** The parser at a place of the line *)

Section place.
Context (buf : list Z) (Hnz : 0 ∉ buf).
Notation T i := (tokens (drop i buf)).

(** The bytes between two pointers; a pair of pointers that holds a word. *)
Definition slice (q eq : nat) : list Z := take (eq - q) (drop q buf).
Definition word_at (p : nat * nat) : Prop :=
  (p.1 ≤ p.2 ≤ es buf)%nat ∧ Forall (λ c, is_word c = true) (slice p.1 p.2) ∧ ∀ c, buf !! p.2 = Some c → is_word c = false.

Lemma at_spec i : match drop i buf with [] => at_ buf i = 0 | c :: _ => at_ buf i = c ∧ c ≠ 0 end.
Proof.
  unfold at_. destruct (drop i buf) as [|c l] eqn:E.
  - apply (f_equal length) in E. rewrite length_drop in E. simpl in E. by rewrite lookup_ge_None_2 by lia.
  - assert (buf !! i = Some c) as Hc by (rewrite <- (Nat.add_0_r i), <- lookup_drop, E; done).
    rewrite Hc. split; [done|]. intros ->. by apply list_elem_of_lookup_2, Hnz in Hc.
Qed.

Lemma drop_skip P i : drop (skip_while buf P i) buf = drop (span P (drop i buf)) (drop i buf).
Proof. unfold skip_while. by rewrite drop_drop. Qed.

Lemma skip_le P i : (i ≤ es buf)%nat → (i ≤ skip_while buf P i ≤ es buf)%nat.
Proof. unfold skip_while, es. intros. pose proof (span_le P (drop i buf)) as H1. rewrite length_drop in H1. lia. Qed.

Lemma T_skip i : T (skip_while buf is_space i) = T i.
Proof. by rewrite drop_skip, tokens_space. Qed.

Lemma T_length i : (length (T i) ≤ es buf)%nat.
Proof. unfold es. pose proof (tokens_length (drop i buf)) as H. rewrite length_drop in H. lia. Qed.

Lemma T_sym i c ts : T i = TSym c :: ts → c ≠ 0 ∧ c ≠ CHAR_a.
Proof.
  intros E. pose proof (tokens_valid (drop i buf)) as Hv. rewrite E in Hv. apply Forall_cons in Hv as [Hv _].
  simpl in Hv. unfold LT, BAR, GT, AMP, SEMI, OPEN, CLOSE, PLUS, CHAR_a in *. split; intros ->; set_solver.
Qed.

Lemma peek_spec toks i : (i ≤ es buf)%nat → toks ⊆ symbols →
  wp (peek buf toks) i (λ b i', (i' ≤ es buf)%nat ∧ T i' = T i ∧ b = strchr toks (peek_char (T i)) ∧
    (drop i' buf = [] ↔ T i = [])).
Proof.
  intros Hi Hsub. unfold peek. wp_steps. change (id i) with i. split; [by apply skip_le|]. split; [apply T_skip|].
  pose proof (at_spec (skip_while buf is_space i)) as Ha. rewrite drop_skip in *.
  rewrite (tokens_unfold (drop i buf)). unfold lex1. set (l := drop i buf) in *.
  pose proof (span_stop is_space l) as Hs.
  assert (strchr toks 0 = false) as H0.
  { apply not_true_iff_false. intros H%strchr_elem%Hsub%strchr_elem. done. }
  destruct (drop (span is_space l) l) as [|c l1].
  - rewrite Ha. split; [|done]. simpl. done.
  - destruct Ha as [-> Hc]. apply Z.eqb_neq in Hc as ->. cbn [negb andb]. destruct (is_word c) eqn:Hw.
    + split; [|done]. simpl. by rewrite (word_no_symbol c toks), H0.
    + pose proof (symbol_cases c Hs Hw) as Hsym. destruct (c =? GT) eqn:Hg; bool_prop.
      * subst c. destruct l1 as [|d l2]; [done|]. by destruct (d =? GT).
      * split; [|done]. simpl. destruct (c =? PLUS) eqn:Hp; [|done]. bool_prop. subst c.
        unfold symbols, PLUS in Hsym. set_solver.
Qed.

Lemma gettoken_spec i : (i ≤ es buf)%nat →
  wp (gettoken buf) i (λ '(k, q, eq) i', (i' ≤ es buf)%nat ∧ k = kind (T i) ∧ T i' = tail (T i) ∧
    match T i with TWord w :: _ => word_at (q, eq) ∧ slice q eq = w | _ => True end).
Proof.
  intros Hi. unfold gettoken. wp_steps. change (id i) with i. destruct (skip_le is_space i Hi) as [Hq1 Hq2].
  set (q := skip_while buf is_space i) in *.
  pose proof (at_spec q) as Ha. assert (drop q buf = drop (span is_space (drop i buf)) (drop i buf)) as Eq by apply drop_skip.
  rewrite (tokens_unfold (drop i buf)). unfold lex1. rewrite <- Eq in *.
  pose proof (span_stop is_space (drop i buf)) as Hs. rewrite <- Eq in Hs.
  destruct (drop q buf) as [|c l1] eqn:E.
  - rewrite Ha. simpl. wp_steps. split; [by apply skip_le|]. split; [done|]. by rewrite T_skip, E.
  - destruct Ha as [-> Hc]. apply Z.eqb_neq in Hc as ->.
    assert (S q ≤ es buf)%nat as HS.
    { unfold es. apply (f_equal length) in E. rewrite length_drop in E. simpl in E. lia. }
    assert (drop (S q) buf = l1) as E1 by (rewrite <- Nat.add_1_r, <- drop_drop, E; done).
    destruct (is_word c) eqn:Hw.
    + rewrite (word_no_symbol c) by (try done; unfold symbols, BAR, OPEN, CLOSE, SEMI, AMP, LT; set_solver).
      destruct (c =? GT) eqn:Hg; [bool_prop; subst; done|]. wp_steps.
      destruct (skip_le is_word q Hq2) as [Hw1 Hw2].
      split; [by apply skip_le|]. split; [done|]. rewrite T_skip, drop_skip, E. split; [done|].
      assert (slice q (skip_while buf is_word q) = take (span is_word (c :: l1)) (c :: l1)) as Hsl.
      { unfold slice, skip_while. rewrite E. f_equal. lia. }
      split; [|done]. split; [simpl; lia|]. simpl. rewrite Hsl. split; [apply span_all|].
      intros d Hd. pose proof (span_stop is_word (c :: l1)) as Hst. rewrite <- E, <- drop_skip in Hst.
      erewrite drop_S in Hst by done. done.
    + pose proof (symbol_cases c Hs Hw) as Hsym. destruct (c =? GT) eqn:Hg; bool_prop.
      * subst c. simpl. pose proof (at_spec (S q)) as Ha. rewrite E1 in Ha. destruct l1 as [|d l2].
        -- rewrite Ha. simpl. wp_steps. split; [by apply skip_le|]. by rewrite T_skip, E1.
        -- destruct Ha as [-> _]. destruct (d =? GT); wp_steps.
           ++ assert (drop (S (S q)) buf = l2) as E2 by (rewrite <- Nat.add_1_r, <- drop_drop, E1; done).
              split; [apply skip_le; unfold es; apply (f_equal length) in E1; rewrite length_drop in E1; simpl in E1; lia|].
              by rewrite T_skip, E2.
           ++ split; [by apply skip_le|]. by rewrite T_skip, E1.
      * assert (strchr [BAR; OPEN; CLOSE; SEMI; AMP; LT] c = true) as ->.
        { apply strchr_elem. unfold symbols in Hsym. unfold GT in Hg. set_solver. }
        wp_steps. split; [by apply skip_le|]. by rewrite T_skip, E1.
Qed.

(** [peek] for one symbol, other than those that [>] starts. *)
Lemma peek1_spec x i : (i ≤ es buf)%nat → x ∈ [BAR; AMP; SEMI; OPEN; CLOSE] →
  wp (peek buf [x]) i (λ b i', (i' ≤ es buf)%nat ∧ T i' = T i ∧
    if b then T i = TSym x :: tail (T i) else head (T i) ≠ Some (TSym x)).
Proof.
  intros Hi Hx. eapply wp_mono; [apply peek_spec; [done|]; unfold symbols, BAR, AMP, SEMI, OPEN, CLOSE in *; set_solver|].
  intros b i' (? & ? & -> & _). do 2 (split; [done|]). destruct (strchr _ _) eqn:E.
  - apply strchr_elem, list_elem_of_singleton in E. destruct (T i) as [|[c|w] ts]; simpl in *.
    + subst x. unfold BAR, AMP, SEMI, OPEN, CLOSE in Hx. set_solver.
    + destruct (c =? PLUS); subst; [|done]. unfold BAR, AMP, SEMI, OPEN, CLOSE, GT in Hx. set_solver.
    + subst x. unfold BAR, AMP, SEMI, OPEN, CLOSE in Hx. set_solver.
  - intros Hh. apply not_true_iff_false in E. apply E, strchr_elem, list_elem_of_singleton.
    destruct (T i) as [|[c|w] ts]; simpl in *; simplify_eq.
    destruct (x =? PLUS) eqn:Ep; [|done]. bool_prop. subst. unfold BAR, AMP, SEMI, OPEN, CLOSE, PLUS in Hx. set_solver.
Qed.

(** *** Commands and the strings they point to *)

Notation V := (view slice).

Fixpoint wfc (c : cmd) : Prop :=
  match c with
  | EXEC argv => Forall word_at argv
  | REDIR c f ef _ _ => wfc c ∧ word_at (f, ef)
  | PIPE l r => wfc l ∧ wfc r
  | LIST l r => wfc l ∧ wfc r
  | BACK c => wfc c
  end.

Definition wrap (c : cmd) (r : nat * nat * Z * Z) : cmd := let '(f, ef, m, d) := r in REDIR c f ef m d.
Definition redir_of (r : nat * nat * Z * Z) : redir := let '(f, ef, m, d) := r in (slice f ef, m, d).
Definition wfr (r : nat * nat * Z * Z) : Prop := let '(f, ef, _, _) := r in word_at (f, ef).

Lemma view_wrap l c : V (fold_left wrap l c) = fold_left apply_redir (redir_of <$> l) (V c).
Proof. revert c. induction l as [|[[[f ef] m] d] l IH]; intros c; [done|]. simpl. by rewrite IH. Qed.

Lemma wfc_wrap l c : wfc c → Forall wfr l → wfc (fold_left wrap l c).
Proof. revert c. induction l as [|[[[f ef] m] d] l IH]; intros c Hc Hl; [done|]. apply Forall_cons in Hl as [? ?]. by apply IH. Qed.

Lemma set_arg_wrap l argv q eq : set_arg (fold_left wrap l (EXEC argv)) q eq = fold_left wrap l (EXEC (argv ++ [(q, eq)])).
Proof.
  cut (∀ c, set_arg (fold_left wrap l c) q eq = fold_left wrap l (set_arg c q eq)); [intros Hc; by rewrite Hc|].
  induction l as [|[[[f ef] m] d] l IH]; intros c; [done|]. simpl. by rewrite IH.
Qed.

Lemma view_back n c : V (Nat.iter n BACK c) = Nat.iter n ABack (V c).
Proof. induction n as [|n IH]; simpl; [done|]. by rewrite IH. Qed.

Lemma wfc_back n c : wfc c → wfc (Nat.iter n BACK c).
Proof. intros Hc. by induction n. Qed.

(** *** Redirections *)

Lemma redir_step_spec pp pd c i : (i ≤ es buf)%nat →
  (starts_redir (T i) → pp ∨ ∃ s w ts, T i = TSym s :: TWord w :: ts) →
  wpx pp pd (redir_step buf c) i (λ r i', (i' ≤ es buf)%nat ∧
    match r with
    | inl c' => ∃ p ts, c' = wrap c p ∧ wfr p ∧ gredir ts (redir_of p) ∧ T i = ts ++ T i'
    | inr c' => c' = c ∧ T i' = T i ∧ ¬ starts_redir (T i)
    end).
Proof.
  intros Hi Hpp. unfold redir_step. apply wpx_bind.
  eapply wp_wpx; [apply peek_spec; [done|]; unfold symbols, LT, GT; set_solver|]. intros b i1 (Hi1 & E1 & -> & _).
  destruct (strchr _ _) eqn:Eb.
  - apply strchr_elem in Eb. destruct (T i) as [|[s|w] ts1] eqn:ET; simpl in Eb; [unfold LT, GT in Eb; set_solver| |unfold LT, GT in Eb; set_solver].
    assert (s ∈ [LT; GT; PLUS]) as Hs by (destruct (s =? PLUS) eqn:?; bool_prop; set_solver).
    apply wpx_bind. eapply wp_wpx; [by apply gettoken_spec|]. intros [[k q] eq] i2 (Hi2 & -> & E2 & _).
    apply wpx_bind. eapply wp_wpx; [by apply gettoken_spec|]. intros [[k' q'] eq'] i3 (Hi3 & -> & E3 & Hw).
    rewrite E1 in *. simpl in E2. rewrite E2 in *. simpl kind.
    destruct ts1 as [|[c1|w] ts2]; simpl.
    + by destruct (Hpp Hs) as [Hp|(? & ? & ? & ?)].
    + destruct (T_sym _ _ _ E2) as [_ Hc1].
      apply Z.eqb_neq in Hc1 as ->. by destruct (Hpp Hs) as [Hp|(? & ? & ? & ?)].
    + destruct Hw as [Hw <-]. rewrite !elem_of_cons in Hs.
      destruct Hs as [->|[->|[->|Hs]]]; [..|by apply not_elem_of_nil in Hs]; simpl; apply wpx_ret; (split; [done|]);
        eexists (q', eq', _, _), _; (split; [done|]); (split; [done|]); (split; [constructor|]); by rewrite E3.
  - apply wpx_ret. split; [done|]. split; [done|]. split; [done|]. intros Hs. apply not_true_iff_false in Eb. apply Eb, strchr_elem.
    destruct (T i) as [|[s|w] ts1]; simpl in *; [done| |done]. destruct (s =? PLUS) eqn:Es; bool_prop; set_solver.
Qed.

Lemma gredir_length ts r : gredir ts r → length ts = 2%nat.
Proof. by destruct 1. Qed.

(** *** What is parsed is in the language *)

Lemma parseredirs_sound c i : (i ≤ es buf)%nat →
  wpx True False (parseredirs buf c) i (λ c' i', (i' ≤ es buf)%nat ∧
    ∃ l ts, c' = fold_left wrap l c ∧ Forall wfr l ∧ gredirs ts (redir_of <$> l) ∧ T i = ts ++ T i').
Proof.
  intros Hi. apply (wpx_while _ _ (λ c1 i1, (i1 ≤ es buf)%nat ∧
    ∃ l ts, c1 = fold_left wrap l c ∧ Forall wfr l ∧ gredirs ts (redir_of <$> l) ∧ T i = ts ++ T i1) (λ _ i1, length (T i1))).
  - intros c1 i1 (Hi1 & l & ts & -> & Hl & Hg & ET). eapply wpx_mono; [by apply redir_step_spec; auto|].
    intros [c'|c'] i2 (Hi2 & H).
    + destruct H as (p & ts' & -> & Hp & Hg' & ET'). split.
      * split; [done|]. exists (l ++ [p]), (ts ++ ts'). rewrite fold_left_app, fmap_app, <- app_assoc, <- ET'.
        split; [done|]. split; [by apply Forall_app_2; auto|]. split; [by apply gredirs_snoc|done].
      * apply gredir_length in Hg'. rewrite ET', length_app. lia.
    + destruct H as (-> & ET' & _). split; [done|]. exists l, ts. by rewrite ET'.
  - split; [done|]. exists [], []. split; [done|]. split; [done|]. split; [constructor|done].
  - pose proof (T_length i). unfold loop_fuel. lia.
Qed.

(** What the loop of [parseexec] has read: arguments and redirections. *)
Definition args_read (i0 : nat) (argv : list (nat * nat)) (l : list (nat * nat * Z * Z)) (i : nat) : Prop :=
  Forall word_at argv ∧ Forall wfr l ∧
  ∃ ts, T i0 = ts ++ T i ∧ gargs ts ((λ '(q, eq), slice q eq) <$> argv) (redir_of <$> l).

Lemma args_read_redirs i0 argv l i l' i' ts : args_read i0 argv l i → Forall wfr l' →
  gredirs ts (redir_of <$> l') → T i = ts ++ T i' → args_read i0 argv (l ++ l') i'.
Proof.
  intros (Ha & Hl & ts0 & ET & Hg) Hl' Hg' ET'. split; [done|]. split; [by apply Forall_app_2|].
  exists (ts0 ++ ts). rewrite <- app_assoc, <- ET'. split; [done|].
  rewrite fmap_app, <- (app_nil_r (_ <$> argv)). apply gargs_app; [done|]. by apply gargs_redirs.
Qed.

Lemma args_read_word i0 argv l i q eq w i' : args_read i0 argv l i → word_at (q, eq) → slice q eq = w →
  T i = TWord w :: T i' → args_read i0 (argv ++ [(q, eq)]) l i'.
Proof.
  intros (Ha & Hl & ts0 & ET & Hg) Hw <- ET'. split; [by apply Forall_app_2; auto|]. split; [done|].
  exists (ts0 ++ [TWord (slice q eq)]). rewrite <- app_assoc. simpl. rewrite <- ET'. split; [done|].
  rewrite fmap_app, <- (app_nil_r (_ <$> l)). apply gargs_app; [done|]. simpl. constructor. constructor.
Qed.

Lemma args_read_done i0 argv l i : args_read i0 argv l i → (length argv < MAXARGS)%nat →
  let c := fold_left wrap l (EXEC argv) in
  wfc c ∧ ∃ ts, T i0 = ts ++ T i ∧ gexec ts (V c).
Proof.
  intros (Ha & Hl & ts & ET & Hg) Hn c. split; [by apply wfc_wrap|]. exists ts. split; [done|].
  unfold c. rewrite view_wrap. simpl. constructor; [done|]. by rewrite length_fmap.
Qed.

Lemma parse_args_sound argv l i0 i : (i ≤ es buf)%nat → args_read i0 argv l i → (length argv < MAXARGS)%nat →
  wpx True False (while_ (loop_fuel buf) (arg_step buf) (length argv, fold_left wrap l (EXEC argv))) i
    (λ c i', (i' ≤ es buf)%nat ∧ wfc c ∧ ∃ ts, T i0 = ts ++ T i' ∧ gexec ts (V c)).
Proof.
  intros Hi Hr Hn. apply (wpx_while _ _ (λ '(argc, ret) i, (i ≤ es buf)%nat ∧
    ∃ argv l, argc = length argv ∧ ret = fold_left wrap l (EXEC argv) ∧ args_read i0 argv l i ∧ (length argv < MAXARGS)%nat)
    (λ _ i1, length (T i1))).
  - clear i argv l Hi Hr Hn. intros [argc ret] i (Hi & argv & l & -> & -> & Hr & Hn). unfold arg_step.
    apply wpx_bind. eapply wp_wpx; [apply peek_spec; [done..|]; unfold symbols, BAR, CLOSE, AMP, SEMI; set_solver|].
    intros b i1 (Hi1 & E1 & -> & _). assert (args_read i0 argv l i1) as Hr1 by (unfold args_read; by rewrite E1).
    destruct (strchr _ _) eqn:Eb; [apply wpx_ret; split; [done|]; by apply args_read_done|].
    apply wpx_bind. eapply wp_wpx; [by apply gettoken_spec|]. intros [[k q] eq] i2 (Hi2 & -> & E2 & Hw).
    rewrite E1 in *. destruct (T i) as [|[c|w] ts1] eqn:ET; simpl kind; simpl in E2.
    + apply wpx_ret. split; [done|]. apply args_read_done; [|done]. unfold args_read. by rewrite E2, <- E1.
    + destruct (T_sym _ _ _ ET) as [Hc0%Z.eqb_neq Hca%Z.eqb_neq]. by rewrite Hc0, Hca.
    + change (CHAR_a =? 0) with false. change (CHAR_a =? CHAR_a) with true. cbn [negb].
      destruct Hw as [Hw Hsl]. rewrite set_arg_wrap.
      destruct (MAXARGS <=? S (length argv))%nat eqn:Em; [done|]. apply Nat.leb_gt in Em.
      apply wpx_bind. eapply wpx_mono; [by apply parseredirs_sound|].
      intros c' i3 (Hi3 & l' & ts & -> & Hl' & Hg & ET3). apply wpx_ret.
      assert (args_read i0 (argv ++ [(q, eq)]) (l ++ l') i3) as Hr3.
      { eapply args_read_redirs; [|done..]. eapply args_read_word; [done..|]. by rewrite E1, E2. }
      split; [split; [done|]|].
      * exists (argv ++ [(q, eq)]), (l ++ l'). rewrite fold_left_app, length_app, Nat.add_1_r. done.
      * rewrite E2 in ET3. simpl. rewrite ET3, length_app. lia.
  - split; [done|]. by exists argv, l.
  - pose proof (T_length i). unfold loop_fuel. lia.
Qed.

(** The answer of a routine that parses a [g]. *)
Definition parsed (g : list tok → ast → Prop) (i : nat) (c : cmd) (i' : nat) : Prop :=
  (i' ≤ es buf)%nat ∧ wfc c ∧ ∃ ts, T i = ts ++ T i' ∧ g ts (V c).

(** The loop over the ampersands. *)
Lemma back_loop_sound c i : (i ≤ es buf)%nat →
  wpx True False (while_ (loop_fuel buf) (back_step buf) c) i (λ c' i', (i' ≤ es buf)%nat ∧
    ∃ n, c' = Nat.iter n BACK c ∧ T i = replicate n (TSym AMP) ++ T i').
Proof.
  intros Hi. apply (wpx_while _ _ (λ c1 i1, (i1 ≤ es buf)%nat ∧ ∃ n, c1 = Nat.iter n BACK c ∧ T i = replicate n (TSym AMP) ++ T i1)
    (λ _ i1, length (T i1))).
  - intros c1 i1 (Hi1 & n & -> & ET). unfold back_step. apply wpx_bind.
    eapply wp_wpx; [apply peek1_spec; [done|set_solver]|]. intros b i2 (Hi2 & E2 & Hb). destruct b.
    + apply wpx_bind. eapply wp_wpx; [by apply gettoken_spec|]. intros [[k q] eq] i3 (Hi3 & _ & E3 & _).
      apply wpx_ret. rewrite E2 in E3. rewrite Hb in ET |- *. rewrite <- E3 in *. split; [|simpl; lia].
      split; [done|]. exists (S n). split; [done|]. by rewrite replicate_S_end, <- app_assoc.
    + apply wpx_ret. split; [done|]. exists n. by rewrite E2.
  - split; [done|]. by exists O.
  - pose proof (T_length i). unfold loop_fuel. lia.
Qed.

Theorem parse_sound n :
  (∀ i, (i ≤ es buf)%nat → (4 * length (T i) + 4 ≤ n)%nat → wpx True False (parseline buf n) i (parsed gline i)) ∧
  (∀ i, (i ≤ es buf)%nat → (4 * length (T i) + 3 ≤ n)%nat → wpx True False (parsepipe buf n) i (parsed gpipe i)) ∧
  (∀ i, (i ≤ es buf)%nat → (4 * length (T i) + 2 ≤ n)%nat → wpx True False (parseexec buf n) i (parsed gexec i)) ∧
  (∀ i, (i ≤ es buf)%nat → (4 * length (T i) + 1 ≤ n)%nat → wpx True False (parseblock buf n) i (parsed gexec i)).
Proof.
  induction n as [|n (IHl & IHp & IHe & IHb)]; [split; [|split; [|split]]; intros; lia|].
  split; [|split; [|split]]; intros i Hi Hn.
  - simpl. apply wpx_bind. eapply wpx_mono; [apply IHp; [done|lia]|]. intros c i1 (Hi1 & Hc & ts & ET & Hg).
    apply wpx_bind. eapply wpx_mono; [by apply back_loop_sound|]. intros ? i2 (Hi2 & m & -> & ET2).
    apply wpx_bind. eapply wp_wpx; [apply peek1_spec; [done|set_solver]|]. intros b i3 (Hi3 & E3 & Hb). destruct b.
    + apply wpx_bind. eapply wp_wpx; [by apply gettoken_spec|]. intros [[k q] eq] i4 (Hi4 & _ & E4 & _).
      rewrite E3 in E4. rewrite <- E4 in Hb. rewrite ET2, Hb in ET. apply wpx_bind. eapply wpx_mono; [apply IHl; [done|]|].
      { apply (f_equal length) in ET. rewrite !length_app in ET. simpl in ET. lia. }
      intros r i5 (Hi5 & Hr & ts5 & ET5 & Hg5). apply wpx_ret. split; [done|]. split; [split; [by apply wfc_back|done]|].
      exists (ts ++ replicate m (TSym AMP) ++ TSym SEMI :: ts5). rewrite ET, ET5. split; [by rewrite <- !app_assoc|].
      simpl. rewrite view_back. by constructor.
    + apply wpx_ret. split; [done|]. split; [by apply wfc_back|]. exists (ts ++ replicate m (TSym AMP)).
      rewrite ET, ET2, E3. split; [by rewrite <- app_assoc|]. rewrite view_back. by constructor.
  - simpl. apply wpx_bind. eapply wpx_mono; [apply IHe; [done|lia]|]. intros c i1 (Hi1 & Hc & ts & ET & Hg).
    apply wpx_bind. eapply wp_wpx; [apply peek1_spec; [done|set_solver]|]. intros b i2 (Hi2 & E2 & Hb). destruct b.
    + apply wpx_bind. eapply wp_wpx; [by apply gettoken_spec|]. intros [[k q] eq] i3 (Hi3 & _ & E3 & _).
      rewrite E2 in E3. rewrite <- E3 in Hb. rewrite Hb in ET. apply wpx_bind. eapply wpx_mono; [apply IHp; [done|]|].
      { apply (f_equal length) in ET. rewrite !length_app in ET. simpl in ET. lia. }
      intros r i4 (Hi4 & Hr & ts4 & ET4 & Hg4). apply wpx_ret. split; [done|]. split; [done|].
      exists (ts ++ TSym BAR :: ts4). rewrite ET, ET4. split; [by rewrite <- app_assoc|]. by constructor.
    + apply wpx_ret. split; [done|]. split; [done|]. exists ts. rewrite E2. split; [done|]. by constructor.
  - simpl. apply wpx_bind. eapply wp_wpx; [apply peek1_spec; [done|set_solver]|]. intros b i1 (Hi1 & E1 & Hb). destruct b.
    + eapply wpx_mono; [apply IHb; [done|rewrite E1; lia]|]. intros c i2 (Hi2 & Hc & ts & ET & Hg).
      split; [done|]. split; [done|]. exists ts. by rewrite <- E1.
    + apply wpx_bind. eapply wpx_mono; [by apply parseredirs_sound|]. intros c i2 (Hi2 & l & ts & -> & Hl & Hg & ET).
      eapply wpx_mono; [apply (parse_args_sound [] l i)|done]; [done| |unfold MAXARGS; simpl; lia].
      apply (args_read_redirs i [] [] i l i2 ts); [|done..|by rewrite <- E1]. split; [done|]. split; [done|].
      exists []. split; [done|]. constructor.
  - simpl. apply wpx_bind. eapply wp_wpx; [apply peek1_spec; [done|set_solver]|]. intros b i1 (Hi1 & E1 & Hb). destruct b; [|done].
    cbn [negb]. apply wpx_bind. eapply wp_wpx; [by apply gettoken_spec|]. intros [[k q] eq] i2 (Hi2 & _ & E2 & _).
    rewrite E1 in E2. rewrite <- E2 in Hb. apply wpx_bind. eapply wpx_mono; [apply IHl; [done|]|].
    { apply (f_equal length) in Hb. simpl in Hb. lia. }
    intros c i3 (Hi3 & Hc & ts & ET & Hg). apply wpx_bind.
    eapply wp_wpx; [apply peek1_spec; [done|set_solver]|]. intros b i4 (Hi4 & E4 & Hb4). destruct b; [|done].
    cbn [negb]. apply wpx_bind. eapply wp_wpx; [by apply gettoken_spec|]. intros [[k' q'] eq'] i5 (Hi5 & _ & E5 & _).
    rewrite E4 in E5. rewrite <- E5 in Hb4. eapply wpx_mono; [by apply parseredirs_sound|].
    intros ? i6 (Hi6 & l & ts6 & -> & Hl & Hg6 & ET6). split; [done|]. split; [by apply wfc_wrap|].
    exists (TSym OPEN :: ts ++ TSym CLOSE :: ts6). rewrite Hb, ET, Hb4, ET6. split; [simpl; by rewrite <- app_assoc|].
    rewrite view_wrap. by constructor.
Qed.

(** *** What is in the language is parsed *)

Lemma parseredirs_complete ts rs : gredirs ts rs → ∀ n c i rest, (i ≤ es buf)%nat → T i = ts ++ rest → ¬ starts_redir rest →
  wpx False True (while_ n (redir_step buf) c) i (λ c' i', (i' ≤ es buf)%nat ∧ T i' = rest ∧
    ∃ l, c' = fold_left wrap l c ∧ redir_of <$> l = rs).
Proof.
  induction 1 as [|ts1 r ts2 rs Hr Hg IH]; intros [|n] c i rest Hi ET Hf; [done| |done|]; simpl in *; apply wpx_bind.
  - eapply wpx_mono; [apply redir_step_spec; [done|]; intros Hs; by rewrite ET in Hs|].
    intros [c'|c'] i' (Hi' & H); simpl.
    + destruct H as (p & ts & _ & _ & Hp & E). destruct Hf. rewrite <- ET, E. destruct Hp; simpl; set_solver.
    + destruct H as (-> & E & _). apply wpx_ret. split; [done|]. split; [by rewrite E|]. by exists [].
  - eapply wpx_mono; [apply redir_step_spec; [done|]|].
    { intros _. right. rewrite ET. destruct Hr; simpl; eauto. }
    intros [c'|c'] i' (Hi' & H); simpl.
    + destruct H as (p & ts & -> & _ & Hp & E). rewrite ET, <- app_assoc in E.
      destruct (gredir_inj _ _ _ _ _ _ Hr Hp E) as (-> & -> & E2).
      eapply wpx_mono; [by apply (IH n (wrap c p) i' rest)|]. intros c'' i'' (? & ? & l & -> & <-).
      split; [done|]. split; [done|]. by exists (p :: l).
    + destruct H as (_ & _ & Hns). destruct Hns. rewrite ET. destruct Hr; simpl; set_solver.
Qed.

Lemma parse_args_complete n : ∀ ts ws rs argv l i rest, (i ≤ es buf)%nat → T i = ts ++ rest →
  ((ts = [] ∧ ws = [] ∧ rs = []) ∨ ∃ w ts3 ws', ts = TWord w :: ts3 ∧ ws = w :: ws' ∧ gargs ts3 ws' rs) →
  follow [BAR; CLOSE; AMP; SEMI] rest → (length argv + length ws < MAXARGS)%nat →
  wpx False True (while_ n (arg_step buf) (length argv, fold_left wrap l (EXEC argv))) i
    (λ c i', (i' ≤ es buf)%nat ∧ T i' = rest ∧
       V c = fold_left apply_redir ((redir_of <$> l) ++ rs) (AExec (((λ '(q, eq), slice q eq) <$> argv) ++ ws))).
Proof.
  induction n as [|n IH]; intros ts ws rs argv l i rest Hi ET Hg Hf Hn; [done|]. cbn [while_]. apply wpx_bind.
  unfold arg_step. apply wpx_bind.
  eapply wp_wpx; [apply peek_spec; [done..|]; unfold symbols, BAR, CLOSE, AMP, SEMI; set_solver|].
  intros b i1 (Hi1 & E1 & -> & _).
  destruct Hg as [(-> & -> & ->)|(w & ts3 & ws' & -> & -> & Hg)].
  - simpl in ET. rewrite ET in *. rewrite !app_nil_r.
    destruct (strchr _ _) eqn:Eb; [apply wpx_ret, wpx_ret; split; [done|]; split; [done|]; by rewrite view_wrap|].
    assert (rest = []) as -> by (eapply peek_follow; [done| |done]; unfold PLUS, BAR, CLOSE, AMP, SEMI; set_solver).
    apply wpx_bind. eapply wp_wpx; [by apply gettoken_spec|]. intros [[k q] eq] i2 (Hi2 & -> & E2 & _).
    rewrite E1 in *. apply wpx_ret, wpx_ret. split; [done|]. split; [done|]. by rewrite view_wrap.
  - rewrite ET in E1 |- *. change (strchr _ (peek_char _)) with false. apply wpx_bind.
    eapply wp_wpx; [by apply gettoken_spec|]. intros [[k q] eq] i2 (Hi2 & -> & E2 & Hw). rewrite E1 in *. simpl in E2, Hw.
    change (kind _) with CHAR_a. change (CHAR_a =? 0) with false. change (CHAR_a =? CHAR_a) with true. cbn [negb].
    destruct Hw as [_ Hw]. rewrite set_arg_wrap. simpl in Hn.
    destruct (MAXARGS <=? S (length argv))%nat eqn:Em; [apply Nat.leb_le in Em; lia|].
    destruct (gargs_split _ _ _ Hg) as (ts1 & rs1 & ts2 & rs2 & -> & -> & Hg1 & Hg2).
    apply wpx_bind. eapply wpx_mono; [apply (parseredirs_complete _ _ Hg1 _ _ _ (ts2 ++ rest)); [done|by rewrite E2, <- app_assoc|]|].
    { destruct Hg2 as [(-> & _ & _)|(w2 & ts3 & ? & -> & _)]; [by apply follow_redir|]. simpl. auto. }
    intros c' i3 (Hi3 & E3 & l' & -> & <-). apply wpx_ret. rewrite <- fold_left_app.
    replace (S (length argv)) with (length (argv ++ [(q, eq)])) by (rewrite length_app; simpl; lia).
    eapply wpx_mono; [apply (IH ts2 ws' rs2); [done..|rewrite length_app; simpl; lia]|].
    intros c i4 (? & ? & ->). split; [done|]. split; [done|]. rewrite !fmap_app, <- !app_assoc. simpl. by rewrite Hw.
Qed.

Lemma back_loop_complete m : ∀ n c i rest, (i ≤ es buf)%nat → T i = replicate m (TSym AMP) ++ rest → head rest ≠ Some (TSym AMP) →
  wpx False True (while_ n (back_step buf) c) i (λ c' i', (i' ≤ es buf)%nat ∧ T i' = rest ∧ c' = Nat.iter m BACK c).
Proof.
  induction m as [|m IH]; intros [|n] c i rest Hi ET Hf; [done| |done|]; simpl while_; unfold back_step at 1; apply wpx_bind, wpx_bind;
    (eapply wp_wpx; [apply peek1_spec; [done|set_solver]|]); intros b i1 (Hi1 & E1 & Hb); simpl in ET.
  - rewrite ET in *. destruct b; [by rewrite Hb in Hf|]. by apply wpx_ret, wpx_ret.
  - rewrite ET in *. destruct b; [|done]. apply wpx_bind. eapply wp_wpx; [by apply gettoken_spec|].
    intros [[k q] eq] i2 (Hi2 & _ & E2 & _). apply wpx_ret. rewrite E1 in E2. simpl in E2.
    eapply wpx_mono; [by apply IH|]. intros c' i3 (? & ? & ->). split; [done|]. split; [done|].
    unfold backcmd. by rewrite Nat.iter_swap.
Qed.

Definition parses (m : nat → M nat cmd) (toks : list Z) (ts : list tok) (t : ast) : Prop :=
  ∀ n i rest, (i ≤ es buf)%nat → T i = ts ++ rest → follow toks rest →
    wpx False True (m n) i (λ c i', (i' ≤ es buf)%nat ∧ T i' = rest ∧ V c = t).

(** A line after its first pipe and the ampersands: the two ways it goes on. *)
Lemma pipe_then_backs ts t k n i rest (Q : cmd → nat → Prop) (f : cmd → M nat cmd) :
  parses (parsepipe buf) [CLOSE; AMP; SEMI] ts t → (i ≤ es buf)%nat →
  T i = ts ++ replicate k (TSym AMP) ++ rest → follow [CLOSE; SEMI] rest →
  (∀ c i1, (i1 ≤ es buf)%nat → T i1 = rest → V c = Nat.iter k ABack t → wpx False True (f c) i1 Q) →
  wpx False True (c ← parsepipe buf n; c ← while_ (loop_fuel buf) (back_step buf) c; f c) i Q.
Proof.
  intros IH Hi ET Hf HQ. apply wpx_bind. eapply wpx_mono; [apply (IH n i (replicate k (TSym AMP) ++ rest)); [done..|]|].
  { destruct k; simpl; [|set_solver]. destruct rest as [|[c|w] rest]; [done| |done]. unfold follow in *. set_solver. }
  intros c i1 (Hi1 & E1 & <-). apply wpx_bind. eapply wpx_mono; [apply (back_loop_complete k _ _ _ rest); [done..|]|].
  { destruct rest as [|[d|w] rest]; [done| |done]. simpl in *. unfold CLOSE, SEMI, AMP in *. intros [= ->]. set_solver. }
  intros ? i2 (Hi2 & E2 & ->). by apply HQ; [..|rewrite view_back].
Qed.

Ltac peek1_step b i' Hi' E' Hb :=
  apply wpx_bind; eapply wp_wpx; [apply peek1_spec; [done|set_solver]|]; intros b i' (Hi' & E' & Hb).
Ltac gettoken_step i' Hi' E' :=
  apply wpx_bind; eapply wp_wpx; [by apply gettoken_spec|]; intros [[? ?] ?] i' (Hi' & _ & E' & _).

Theorem parse_complete :
  (∀ ts t, gline ts t → parses (parseline buf) [CLOSE] ts t) ∧
  (∀ ts t, gpipe ts t → parses (parsepipe buf) [CLOSE; AMP; SEMI] ts t) ∧
  (∀ ts t, gexec ts t → parses (parseexec buf) [BAR; CLOSE; AMP; SEMI] ts t).
Proof.
  apply grammar_ind.
  - intros ts t k Hg IH [|n] i rest Hi ET Hf; [done|]. rewrite <- app_assoc in ET. cbn [parseline].
    apply (pipe_then_backs ts t k n i rest); [done..| |].
    { destruct rest as [|[c|w] rest]; [done| |done]. simpl in *. set_solver. }
    intros c i1 Hi1 E1 Hc. peek1_step b i2 Hi2 E2 Hb. destruct b; [|by apply wpx_ret; rewrite E2].
    rewrite E1 in Hb. rewrite Hb in Hf. simpl in Hf. unfold SEMI, CLOSE in Hf. set_solver.
  - intros ts t k ts' t' Hg IH Hg' IH' [|n] i rest Hi ET Hf; [done|]. rewrite <- !app_assoc in ET. cbn [parseline].
    apply (pipe_then_backs ts t k n i ((TSym SEMI :: ts') ++ rest)); [done..|simpl; set_solver|].
    intros c i1 Hi1 E1 Hc. peek1_step b i2 Hi2 E2 Hb. rewrite E1 in *. destruct b; [|done].
    gettoken_step i3 Hi3 E3. rewrite E2 in E3. apply wpx_bind. eapply wpx_mono; [by apply (IH' n i3 rest)|].
    intros c' i4 (? & ? & <-). apply wpx_ret. rewrite <- Hc. done.
  - intros ts t Hg IH [|n] i rest Hi ET Hf; [done|]. cbn [parsepipe]. apply wpx_bind.
    eapply wpx_mono; [apply (IH n i rest); [done..|]|].
    { destruct rest as [|[c|w] rest]; [done| |done]. unfold follow in *. set_solver. }
    intros c i1 (Hi1 & E1 & Hc). peek1_step b i2 Hi2 E2 Hb. destruct b; [|by apply wpx_ret; rewrite E2].
    rewrite E1 in Hb. rewrite Hb in Hf. simpl in Hf. unfold SEMI, CLOSE, AMP, BAR in Hf. set_solver.
  - intros ts t ts' t' Hg IH Hg' IH' [|n] i rest Hi ET Hf; [done|]. rewrite <- app_assoc in ET. cbn [parsepipe]. apply wpx_bind.
    eapply wpx_mono; [apply (IH n i ((TSym BAR :: ts') ++ rest)); [done..|simpl; set_solver]|].
    intros c i1 (Hi1 & E1 & <-). peek1_step b i2 Hi2 E2 Hb. rewrite E1 in *. destruct b; [|done].
    gettoken_step i3 Hi3 E3. rewrite E2 in E3. apply wpx_bind. eapply wpx_mono; [by apply (IH' n i3 rest)|].
    intros c' i4 (? & ? & <-). by apply wpx_ret.
  - intros ts ws rs Hg Hn [|n] i rest Hi ET Hf; [done|]. cbn [parseexec]. peek1_step b i1 Hi1 E1 Hb. rewrite ET in *.
    destruct b; [by destruct (gargs_head _ _ _ _ Hg Hf); rewrite Hb|].
    destruct (gargs_split _ _ _ Hg) as (ts1 & rs1 & ts2 & rs2 & -> & -> & Hg1 & Hg2).
    apply wpx_bind. eapply wpx_mono; [apply (parseredirs_complete _ _ Hg1 _ _ _ (ts2 ++ rest)); [done|by rewrite E1, <- app_assoc|]|].
    { destruct Hg2 as [(-> & _ & _)|(w2 & ts3 & ? & -> & _)]; [by apply follow_redir|]. simpl. auto. }
    intros c' i3 (Hi3 & E3 & l' & -> & <-). eapply wpx_mono; [by apply (parse_args_complete _ ts2 ws rs2 [] l' i3 rest)|].
    intros c i4 (? & ? & ->). done.
  - intros ts t ts' rs Hg IH Hg' [|n] i rest Hi ET Hf; [done|]. cbn [parseexec]. peek1_step b i1 Hi1 E1 Hb. rewrite ET in *.
    destruct b; [|done]. destruct n as [|n]; [done|]. cbn [parseblock]. peek1_step b i2 Hi2 E2 Hb2. rewrite E1 in *.
    destruct b; [|done]. cbn [negb]. gettoken_step i3 Hi3 E3. rewrite E2 in E3. simpl in E3. rewrite <- app_assoc in E3.
    apply wpx_bind. eapply wpx_mono; [apply (IH n i3 ((TSym CLOSE :: ts') ++ rest)); [done..|simpl; set_solver]|].
    intros c i4 (Hi4 & E4 & <-). peek1_step b i5 Hi5 E5 Hb5. rewrite E4 in *. destruct b; [|done]. cbn [negb].
    gettoken_step i6 Hi6 E6. rewrite E5 in E6. simpl in E6.
    eapply wpx_mono; [apply (parseredirs_complete _ _ Hg' _ _ _ rest); [done..|by apply follow_redir]|].
    intros ? i7 (? & ? & l & -> & <-). split; [done|]. split; [done|]. by rewrite view_wrap.
Qed.

(** *** The strings after [nulterminate] *)

Fixpoint pairs (c : cmd) : list (nat * nat) :=
  match c with
  | EXEC argv => argv
  | REDIR c f ef _ _ => pairs c ++ [(f, ef)]
  | PIPE l r => pairs l ++ pairs r
  | LIST l r => pairs l ++ pairs r
  | BACK c => pairs c
  end.

Lemma wfc_pairs c : wfc c → Forall word_at (pairs c).
Proof.
  induction c as [argv|c IH f ef m d|l IHl r IHr|l IHl r IHr|c IH]; simpl; [done| | | |done].
  - intros [? ?]. apply Forall_app_2; auto.
  - intros [? ?]. apply Forall_app_2; auto.
  - intros [? ?]. apply Forall_app_2; auto.
Qed.

Lemma view_ext str1 str2 c : Forall (λ '(q, eq), str1 q eq = str2 q eq) (pairs c) → view str1 c = view str2 c.
Proof.
  induction c as [argv|c IH f ef m d|l IHl r IHr|l IHl r IHr|c IH]; simpl.
  - intros H. f_equal. apply list_fmap_ext. intros i [q eq] Hq. rewrite Forall_forall in H.
    apply (H (q, eq)). by apply list_elem_of_lookup_2 in Hq.
  - rewrite Forall_app, Forall_singleton. intros [? E]. by rewrite IH, E.
  - rewrite Forall_app. intros [? ?]. by rewrite IHl, IHr.
  - rewrite Forall_app. intros [? ?]. by rewrite IHl, IHr.
  - intros ?. by rewrite IH.
Qed.

Definition zeros (l : list (nat * nat)) (mem : list Z) : list Z := fold_left (λ m p, <[p.2 := 0]> m) l mem.

Lemma nulterminate_zeros c mem : nulterminate c mem = Ok (tt, zeros (pairs c) mem).
Proof.
  revert mem. induction c as [argv|c IH f ef m d|l IHl r IHr|l IHl r IHr|c IH]; intros mem; simpl.
  - revert mem. induction argv as [|[q eq] argv IH]; intros mem; [done|]. apply IH.
  - unfold zeros. rewrite fold_left_app. unfold mbind, M_bind. by rewrite IH.
  - unfold zeros. rewrite fold_left_app. unfold mbind, M_bind. by rewrite IHl, IHr.
  - unfold zeros. rewrite fold_left_app. unfold mbind, M_bind. by rewrite IHl, IHr.
  - apply IH.
Qed.

Lemma zeros_lookup l mem j : (j < length mem)%nat →
  zeros l mem !! j = if decide (j ∈ l.*2) then Some 0 else mem !! j.
Proof.
  revert mem. induction l as [|[q e] l IH]; intros mem Hj; [by rewrite decide_False by apply not_elem_of_nil|].
  simpl. unfold zeros in *. simpl. rewrite IH by (by rewrite length_insert). destruct (decide (j ∈ l.*2)) as [Hin|Hin].
  - by rewrite decide_True by (by right).
  - destruct (decide (e = j)) as [->|Hne].
    + rewrite decide_True by left. by apply list_lookup_insert_eq.
    + rewrite decide_False by (rewrite elem_of_cons; naive_solver). by apply list_lookup_insert_ne.
Qed.

Lemma cstring_app w r : 0 ∉ w → cstring (w ++ 0 :: r) = w.
Proof.
  induction w as [|c w IH]; simpl; [done|]. intros [Hc Hw]%not_elem_of_cons. destruct (c =? 0) eqn:E; bool_prop; [done|].
  by rewrite IH.
Qed.

Lemma zeros_length l mem : length (zeros l mem) = length mem.
Proof. revert mem. induction l as [|p l IH]; intros mem; [done|]. unfold zeros in *. simpl. by rewrite IH, length_insert. Qed.

Lemma slice_lookup q e j : (q ≤ j < e)%nat → buf !! j = slice q e !! (j - q)%nat.
Proof. intros Hj. unfold slice. rewrite lookup_take_lt, lookup_drop by lia. f_equal. lia. Qed.

(** A word has no end of a word inside, so its string is what it was. *)
Lemma word_string l q e : Forall word_at l → (q, e) ∈ l → cstring (drop q (zeros l (buf ++ [0]))) = slice q e.
Proof.
  intros Hl Hin. rewrite Forall_forall in Hl. destruct (Hl _ Hin) as ((Hqe & He) & Hw & _). simpl in *. unfold es in He.
  set (mem := zeros l (buf ++ [0])).
  assert (length mem = S (length buf)) as Hlen by (unfold mem; rewrite zeros_length, length_app; simpl; lia).
  assert (length (slice q e) = e - q)%nat as Hls by (unfold slice; rewrite length_take, length_drop; lia).
  assert (drop q mem = slice q e ++ 0 :: drop (S e) mem) as ->.
  { rewrite <- (take_drop (e - q) (drop q mem)), drop_drop. replace (q + (e - q))%nat with e by lia. f_equal.
    - apply list_eq_same_length with (n := (e - q)%nat); [done|rewrite length_take, length_drop; lia|].
      intros j x y Hj Hx Hy. rewrite lookup_take_lt, lookup_drop in Hx by done.
      unfold mem in Hx. rewrite zeros_lookup in Hx by (rewrite length_app; simpl; lia).
      rewrite decide_False in Hx.
      + rewrite lookup_app_l, slice_lookup with (q := q) (e := e) in Hx by lia.
        replace (q + j - q)%nat with j in Hx by lia. congruence.
      + intros Hj2. apply list_elem_of_fmap in Hj2 as ([q' e'] & Ee & Hin'). simpl in Ee. subst e'.
        destruct (Hl _ Hin') as (_ & _ & Hstop). simpl in Hstop.
        assert (buf !! (q + j)%nat = Some y) as Hb.
        { rewrite (slice_lookup q e) by lia. by replace (q + j - q)%nat with j by lia. }
        apply Hstop in Hb. rewrite Forall_forall in Hw. apply list_elem_of_lookup_2 in Hy. apply Hw in Hy. congruence.
    - apply drop_S. unfold mem. rewrite zeros_lookup by (rewrite length_app; simpl; lia).
      rewrite decide_True; [done|]. apply list_elem_of_fmap. by exists (q, e). }
  apply cstring_app. intros [j Hj]%list_elem_of_lookup. unfold slice in Hj.
  apply lookup_take_Some in Hj as [Hj _]. rewrite lookup_drop in Hj. apply Hnz. by eapply list_elem_of_lookup_2.
Qed.

Lemma in_memory_view c mem : wfc c → nulterminate c (buf ++ [0]) = Ok (tt, mem) → in_memory mem c = V c.
Proof.
  intros Hc. rewrite nulterminate_zeros. intros [= <-]. apply view_ext. apply wfc_pairs in Hc.
  apply Forall_forall. intros [q e] Hin. by apply word_string.
Qed.
End place.
