(* ===== verification/ShProps.v ===== *)
(** The properties of the shell: the lines it accepts, and what it runs for
    them. *)
From S2P Require Import Prelude Sh ShProof.

(** ** Lemmas *)

Lemma parse_all_end pp pd line c i (Q : cmd → nat → Prop) : 0 ∉ line → (i ≤ es line)%nat →
  (tokens (drop i line) = [] → ∀ i', Q c i') → (tokens (drop i line) = [] ∨ pp) →
  wpx pp pd (peek line [];; s ← gets id; if negb (s =? es line)%nat then panic "syntax" else mret c) i Q.
Proof.
  intros Hnz Hi HQ Hpp. apply wpx_bind. eapply wp_wpx; [by apply peek_spec; [..|set_solver]|].
  intros b i1 (Hi1 & E1 & _ & Hd). apply wpx_bind, wpx_gets. change (id i1) with i1. assert (drop i1 line = [] ↔ i1 = es line) as He.
  { unfold es in *. split; [|intros ->; by apply drop_ge]. intros E%(f_equal length). rewrite length_drop in E. simpl in E. lia. }
  destruct (i1 =? es line)%nat eqn:Ee; cbn [negb].
  - apply Nat.eqb_eq, He in Ee. apply wpx_ret, HQ. by apply Hd.
  - apply Nat.eqb_neq in Ee. destruct Hpp as [Hpp|]; [|done]. by apply Hd, He in Hpp.
Qed.

Lemma parse_all_sound line : 0 ∉ line →
  wpx True False (parse_all line) O (λ c _, wfc line c ∧ gline (tokens line) (view (slice line) c)).
Proof.
  intros Hnz. destruct (parse_sound line Hnz (parse_fuel line)) as (Hp & _).
  apply wpx_bind. eapply wpx_mono; [apply Hp; [lia|]|].
  { pose proof (T_length line 0). unfold parse_fuel. lia. }
  intros c i (Hi & Hc & ts & ET & Hg). apply parse_all_end; [done..| |by right].
  intros E _. rewrite drop_0, E, app_nil_r in ET. by rewrite ET.
Qed.

Lemma parse_all_complete line t : 0 ∉ line → gline (tokens line) t →
  wpx False True (parse_all line) O (λ c _, view (slice line) c = t).
Proof.
  intros Hnz Hg. destruct (parse_complete line Hnz) as (Hp & _).
  apply wpx_bind. eapply wpx_mono; [apply (Hp _ _ Hg (parse_fuel line) O []); [lia|by rewrite drop_0, app_nil_r|done]|].
  intros c i (Hi & ET & Hc). apply parse_all_end; [done..|by auto|by left].
Qed.

(** The three ways [parsecmd] can go. *)
Lemma parsecmd_cases line : 0 ∉ line →
  (∃ c mem, parsecmd line = Ok (c, mem) ∧ gline (tokens line) (in_memory mem c)) ∨
  (∃ msg, parsecmd line = Panic msg ∧ ∀ t, ¬ gline (tokens line) t).
Proof.
  intros Hnz. pose proof (parse_all_sound line Hnz) as Hs. pose proof (λ t, parse_all_complete line t Hnz) as Hc.
  unfold wpx in Hs, Hc. unfold parsecmd. destruct (parse_all line O) as [[c i]|msg|]; [|right; eauto|done].
  destruct Hs as [Hw Hg]. left. pose proof (nulterminate_zeros c (line ++ [0])) as En. rewrite En.
  eexists c, _. split; [done|]. by rewrite (in_memory_view line Hnz c _ Hw En).
Qed.

(** The grammar is unambiguous. *)
Lemma gline_unique line t1 t2 : 0 ∉ line → gline (tokens line) t1 → gline (tokens line) t2 → t1 = t2.
Proof.
  intros Hnz H1 H2. pose proof (parse_all_sound line Hnz) as Hs.
  apply (parse_all_complete line _ Hnz) in H1, H2. unfold wpx in *.
  destruct (parse_all line O) as [[c i]|msg|]; [congruence|done..].
Qed.

(** ** Running *)

Fixpoint redirs_ok (t : ast) : Prop :=
  match t with
  | AExec _ => True
  | ARedir t _ _ fd => (fd = 0 ∨ fd = 1) ∧ redirs_ok t
  | APipe l r => redirs_ok l ∧ redirs_ok r
  | AList l r => redirs_ok l ∧ redirs_ok r
  | ABack t => redirs_ok t
  end.

Lemma redirs_ok_fold rs t : Forall (λ '(_, _, fd), fd = 0 ∨ fd = 1) rs → redirs_ok t → redirs_ok (fold_left apply_redir rs t).
Proof. intros H. revert t. induction H as [|[[f m] d] rs Hd _ IH]; intros t Ht; [done|]. by apply IH. Qed.

Lemma gredirs_fds ts rs : gredirs ts rs → Forall (λ '(_, _, fd), fd = 0 ∨ fd = 1) rs.
Proof. induction 1 as [|? ? ? ? [] ?]; constructor; auto. Qed.
Lemma gargs_fds ts ws rs : gargs ts ws rs → Forall (λ '(_, _, fd), fd = 0 ∨ fd = 1) rs.
Proof. induction 1 as [| |? ? ? ? ? [] ?]; [done..| | |]; constructor; auto. Qed.

Lemma grammar_redirs_ok :
  (∀ ts t, gline ts t → redirs_ok t) ∧ (∀ ts t, gpipe ts t → redirs_ok t) ∧ (∀ ts t, gexec ts t → redirs_ok t).
Proof.
  apply grammar_ind; simpl; auto.
  - intros ts t n _ H. by induction n.
  - intros ts t n ts' t' _ H _ H'. split; [|done]. by induction n.
  - intros ts ws rs Hg _. apply redirs_ok_fold; [by eapply gargs_fds|done].
  - intros ts t ts' rs _ H Hg. apply redirs_ok_fold; [by eapply gredirs_fds|done].
Qed.

Lemma runcmd_meaning can_open call_ok t : (∀ n, call_ok n = true) → redirs_ok t →
  ∀ n i o e, runcmd can_open call_ok t n (std3 i o e) = meaning can_open t i o e n.
Proof.
  intros Hok. induction t as [args|t IH f m d|l IHl r IHr|l IHl r IHr|t IH]; intros Ht n i o e.
  - by destruct args.
  - destruct Ht as [[-> | ->] Ht]; simpl; unfold fd_open; destruct (can_open f m); simpl; [|done| |done]; apply (IH Ht).
  - destruct Ht as [Hl Hr]. simpl. unfold fd_pipe, fork1. rewrite !Hok. simpl.
    change (runcmd can_open call_ok l (S (S n)) _) with (runcmd can_open call_ok l (S (S n)) (std3 i (OPipeW n) e)).
    rewrite (IHl Hl). destruct (meaning can_open l _ _ _ _) as [n1 c1]. rewrite Hok.
    change (runcmd can_open call_ok r (S n1) _) with (runcmd can_open call_ok r (S n1) (std3 (OPipeR n) o e)).
    rewrite (IHr Hr). by destruct (meaning can_open r _ _ _ _) as [n2 c2].
  - destruct Ht as [Hl Hr]. simpl. unfold fork1, wait_. rewrite !Hok, (IHl Hl).
    destruct (meaning can_open l _ _ _ _) as [n1 c1]. rewrite (IHr Hr). by destruct (meaning can_open r _ _ _ _) as [n2 c2].
  - simpl. unfold fork1. rewrite Hok, (IH Ht). by destruct (meaning can_open t _ _ _ _).
Qed.

(** ** The input *)

Lemma gets_line_spec n line c rest : Forall (λ x, x ≠ 10 ∧ x ≠ 13) line → c = 10 ∨ c = 13 → (length line < n)%nat →
  gets_line n (line ++ c :: rest) = (line ++ [c], rest).
Proof.
  revert n. induction line as [|x line IH]; intros [|n] Hl Hc Hn; simpl in *; [lia| |lia|].
  - by destruct Hc as [-> | ->].
  - apply Forall_cons in Hl as [[Hx1%Z.eqb_neq Hx2%Z.eqb_neq] Hl]. rewrite Hx1, Hx2. simpl. rewrite IH by (done || lia). done.
Qed.

Lemma cstring_id s : 0 ∉ s → cstring s = s.
Proof. induction s as [|c s IH]; simpl; [done|]. intros [Hc Hs]%not_elem_of_cons. destruct (c =? 0) eqn:E; bool_prop; [done|]. by rewrite IH. Qed.

Lemma getcmd_line line rest : Forall (λ x, x ≠ 0 ∧ x ≠ 10 ∧ x ≠ 13) line → (length line < 99)%nat →
  getcmd (line ++ 10 :: rest) = Some (line ++ [10], rest).
Proof.
  intros Hl Hn. unfold getcmd, BUFLEN. rewrite gets_line_spec; [|eapply Forall_impl; [done|]; by intros x (_ & ? & ?)|by left|lia].
  rewrite cstring_id; [by destruct line|]. rewrite not_elem_of_app, not_elem_of_cons. split; [|split; [done|apply not_elem_of_nil]].
  intros H0. rewrite Forall_forall in Hl. by destruct (Hl 0 H0).
Qed.

Lemma gets_line_length n inp : let '(l, r) := gets_line n inp in (length inp = length l + length r)%nat.
Proof.
  revert inp. induction n as [|n IH]; intros [|c inp]; simpl; [done..|].
  destruct ((c =? 10) || (c =? 13)); [done|]. specialize (IH inp). destruct (gets_line n inp) as [l r]. simpl. lia.
Qed.

Lemma getcmd_shorter inp buf rest : getcmd inp = Some (buf, rest) → (length rest < length inp)%nat.
Proof.
  unfold getcmd. pose proof (gets_line_length (BUFLEN - 1) inp) as Hl. destruct (gets_line _ inp) as [l r].
  destruct l as [|c l]; [done|]. simpl in *. destruct (c =? 0); [done|]. intros [= <- <-]. lia.
Qed.

Lemma main_loop_fuel can_open call_ok f1 : ∀ f2 inp n fds, (length inp < f1)%nat → (length inp < f2)%nat →
  main_loop can_open call_ok f1 inp n fds = main_loop can_open call_ok f2 inp n fds.
Proof.
  induction f1 as [|f1 IH]; intros [|f2] inp n fds H1 H2; [lia..|]. simpl.
  destruct (getcmd inp) as [[buf rest]|] eqn:E; [|done]. apply getcmd_shorter in E.
  assert (∀ n fds, main_loop can_open call_ok f1 rest n fds = main_loop can_open call_ok f2 rest n fds) as IH' by (intros; apply IH; lia).
  destruct (is_cd buf); [by rewrite IH'|]. unfold fork1, wait_. destruct (call_ok n); [|done].
  destruct (child _ _ _ _ _) as [n' c]. by rewrite IH'.
Qed.

Lemma open_console_std can_open i o e : open_console can_open 4 (std3 i o e) = std3 i o e.
Proof. simpl. unfold fd_open. by destruct (can_open _ _). Qed.

Lemma main_std can_open call_ok f inp n i o e : (length inp < f)%nat →
  main can_open call_ok inp n (std3 i o e) = main_loop can_open call_ok f inp n (std3 i o e).
Proof. intros Hf. unfold main, with_fds. rewrite open_console_std. apply main_loop_fuel; lia. Qed.

(** ** Properties *)

(** C7: The parser of the shell is right and complete for its language: for
    every line without a NUL it ends; when it answers a command, then the
    strings in memory, cut where [nulterminate] cut them, make it the tree that
    the grammar gives the line; and it answers one whenever the grammar has a
    tree for the line. *)
Theorem shell_parses_language line : 0 ∉ line →
  parsecmd line ≠ Diverge ∧
  (∀ c mem, parsecmd line = Ok (c, mem) → gline (tokens line) (in_memory mem c)) ∧
  (∀ t, gline (tokens line) t → ∃ c mem, parsecmd line = Ok (c, mem) ∧ in_memory mem c = t).
Proof.
  intros Hnz. destruct (parsecmd_cases line Hnz) as [(c & mem & E & Hg)|(msg & E & Hno)]; rewrite E.
  - split; [done|]. split; [by intros ? ? [= <- <-]|]. intros t Ht. exists c, mem. split; [done|]. by eapply gline_unique.
  - split; [done|]. split; [done|]. intros t Ht. by destruct (Hno t).
Qed.

(** [grep x | (wc; ls) >f &] *)
Definition sample_line : list Z :=
  [103; 114; 101; 112; 32; 120; 32; 124; 32; 40; 119; 99; 59; 32; 108; 115; 41; 32; 62; 102; 32; 38].
Definition sample_tree : ast :=
  ABack (APipe (AExec [[103; 114; 101; 112]; [120]])
    (ARedir (AList (AExec [[119; 99]]) (AExec [[108; 115]])) [102] (O_WRONLY + O_CREATE + O_TRUNC) 1)).

Lemma shell_parses_language_witness :
  gline (tokens sample_line) sample_tree ∧
  ∃ c mem, parsecmd sample_line = Ok (c, mem) ∧ in_memory mem c = sample_tree.
Proof.
  assert (0 ∉ sample_line) as Hnz by (apply (bool_decide_unpack _); vm_compute; exact I).
  assert (∃ c mem, parsecmd sample_line = Ok (c, mem) ∧ in_memory mem c = sample_tree) as (c & mem & E & Et).
  { eexists _, _. split; [vm_compute; reflexivity|reflexivity]. }
  destruct (shell_parses_language sample_line Hnz) as (_ & Hs & Hc).
  specialize (Hs c mem E). rewrite Et in Hs. split; [exact Hs|]. exact (Hc _ Hs).
Defined.

(** C34: The shell runs a line as the language means it, when no [fork] or [pipe]
    fails: for a line of at most 98 bytes without NUL that is not a [cd], [main] forks
    one child, waits for it and goes on with the rest of the input; if the
    grammar has a tree for the line, the child and its children do what the
    tree means, each program with the standard input, output and error that
    the redirections and pipes give it and with no other descriptor; and if it
    has none, the child exits with status 1. *)
Theorem shell_runs_line can_open call_ok line rest n i o e :
  (∀ k, call_ok k = true) → Forall (λ x, x ≠ 0 ∧ x ≠ 10 ∧ x ≠ 13) line → (length line < 99)%nat →
  is_cd (line ++ [10]) = false →
  ∃ n' acts,
    main can_open call_ok (line ++ 10 :: rest) n (std3 i o e) =
      (let '(n2, l) := main can_open call_ok rest n' (std3 i o e) in (n2, Fork acts :: Wait :: l)) ∧
    (∀ t, gline (tokens (line ++ [10])) t → (n', acts) = meaning can_open t i o e (S n)) ∧
    ((∀ t, ¬ gline (tokens (line ++ [10])) t) → acts = [Exit 1]).
Proof.
  intros Hok Hl Hn Hcd. remember (S (length (line ++ 10 :: rest))) as f eqn:Ef.
  rewrite (main_std _ _ (S f)) by lia. cbn [main_loop]. rewrite getcmd_line, Hcd by done. unfold fork1, wait_. rewrite Hok.
  destruct (child can_open call_ok (line ++ [10]) (S n) (std3 i o e)) as [n' acts] eqn:Ec. exists n', acts.
  assert (0 ∉ line ++ [10]) as Hnz.
  { rewrite not_elem_of_app, not_elem_of_cons. split; [|split; [done|apply not_elem_of_nil]].
    intros H0. rewrite Forall_forall in Hl. by destruct (Hl 0 H0). }
  split.
  { rewrite (main_std _ _ f rest) by (rewrite Ef, length_app; simpl; lia).
    by destruct (main_loop _ _ _ _ _ _). }
  unfold child in Ec. destruct (parsecmd_cases _ Hnz) as [(c & mem & E & Hg)|(msg & E & Hno)]; rewrite E in Ec.
  - rewrite runcmd_meaning in Ec by (done || exact (proj1 grammar_redirs_ok _ _ Hg)). split.
    + intros t Ht. rewrite <- Ec. by rewrite (gline_unique _ _ _ Hnz Hg Ht).
    + intros Hno. by destruct (Hno _ Hg).
  - injection Ec as <- <-. split; [|done]. intros t Ht. by destruct (Hno t).
Qed.

Lemma shell_runs_line_witness :
  ∃ n' acts,
    main (λ _ _, true) (λ _, true) (sample_line ++ [10]) 0%nat (std3 (OStd 0) (OStd 1) (OStd 2)) =
      (n', [Fork acts; Wait; Exit 0]).
Proof.
  destruct (shell_runs_line (λ _ _, true) (λ _, true) sample_line [] 0%nat (OStd 0) (OStd 1) (OStd 2)) as (n' & acts & E & _).
  - reflexivity.
  - apply (bool_decide_unpack _). vm_compute. exact I.
  - apply (bool_decide_unpack _). vm_compute. exact I.
  - reflexivity.
  - exists n', acts. exact E.
Defined.
