(* ===== verification/Umalloc.v ===== *)
(** user/umalloc.c: the allocator of Kernighan and Ritchie that user programs
    link to, against the blocks in use. *)
From S2P Require Import Prelude.

(** ** Definitions *)

(** The memory of a program as its allocator sees it, in units of one header
    (16 bytes): the two fields of the header at an address, [freep] (0 for the
    null pointer), and the end of the data segment. *)
Record um := Um { hd : gmap Z (Z * Z); freep : Z; brk : Z }.
Definition UNIT : Z := 16.                 (* sizeof(Header) *)

Definition ptr (s : um) (a : Z) : Z := (default (0, 0) (hd s !! a)).1.
Definition size_ (s : um) (a : Z) : Z := (default (0, 0) (hd s !! a)).2.
Definition set_ptr (a v : Z) : M um unit := modify (λ s, Um (<[a := (v, size_ s a)]> (hd s)) (freep s) (brk s)).
Definition set_size (a v : Z) : M um unit := modify (λ s, Um (<[a := (ptr s a, v)]> (hd s)) (freep s) (brk s)).
Definition set_freep (v : Z) : M um unit := modify (λ s, Um (hd s) v (brk s)).

Section umalloc.
(** The address of [base], and the end of the memory the kernel gives. *)
Context (base max_brk : Z).

(** [sbrk] of [n] bytes, an [int]: the old end of the data segment, or -1. *)
Definition sbrk (n : Z) : M um Z :=
  s ← gets id;
  let b := brk s + n / UNIT in
  if n <? 0 then
    if b <? 0 then mret (brk s) else modify (λ s, Um (hd s) (freep s) b);; mret (brk s)
  else if b <=? max_brk then modify (λ s, Um (hd s) (freep s) b);; mret (brk s)
  else mret (-1).

(** The free list is walked at most twice, before and after [morecore]; it is
    no longer than the memory has headers. *)
Definition walk_fuel (s : um) : nat := 4 * size (hd s) + 8.

(** The loop of [free]. *)
Definition find_step (bp p : Z) : M um (Z + Z) :=
  s ← gets id;
  if (p <? bp) && (bp <? ptr s p) then mret (inr p)
  else if (ptr s p <=? p) && ((p <? bp) || (bp <? ptr s p)) then mret (inr p)
  else mret (inl (ptr s p)).

Definition free (ap : Z) : M um unit :=
  let bp := ap - 1 in
  s ← gets id;
  p ← while_ (walk_fuel s) (find_step bp) (freep s);
  s ← gets id;
  (if bp + size_ s bp =? ptr s p then
     set_size bp (u32 (size_ s bp + size_ s (ptr s p)));;
     s ← gets id;
     set_ptr bp (ptr s (ptr s p))
   else set_ptr bp (ptr s p));;
  s ← gets id;
  (if p + size_ s p =? bp then
     set_size p (u32 (size_ s p + size_ s bp));;
     s ← gets id;
     set_ptr p (ptr s bp)
   else set_ptr p bp);;
  set_freep p.

Definition morecore (nu : Z) : M um Z :=
  let nu := if nu <? 4096 then 4096 else nu in
  p ← sbrk (i32 (nu * UNIT));
  if p =? -1 then mret 0
  else
    set_size p nu;;
    free (p + 1);;
    gets freep.

(** The loop of [malloc], over [prevp] and [p]. *)
Definition malloc_step (nunits : Z) (st : Z * Z) : M um (Z * Z + Z) :=
  let '(prevp, p) := st in
  s ← gets id;
  if nunits <=? size_ s p then
    p ← (if size_ s p =? nunits then set_ptr prevp (ptr s p);; mret p
         else
           set_size p (size_ s p - nunits);;
           s ← gets id;
           let p := p + size_ s p in
           set_size p nunits;;
           mret p);
    set_freep prevp;;
    mret (inr (p + 1))
  else if p =? freep s then
    p ← morecore nunits;
    if p =? 0 then mret (inr 0)
    else s ← gets id; mret (inl (p, ptr s p))
  else mret (inl (p, ptr s p)).

Definition malloc (nbytes : Z) : M um Z :=
  let nunits := u32 ((nbytes + UNIT - 1) / UNIT + 1) in
  s ← gets id;
  (if freep s =? 0 then
     set_ptr base base;;
     set_freep base;;
     set_size base 0
   else mret tt);;
  s ← gets id;
  while_ (walk_fuel s) (malloc_step nunits) (freep s, ptr s (freep s)).
End umalloc.

(** *** What the allocator promises *)

(** The blocks in use: their headers and sizes. *)
Definition used (A : gmap Z Z) (x : Z) : Prop := ∃ a n, A !! a = Some n ∧ a ≤ x < a + n.
Definition is_free (R : list (Z * Z)) (x : Z) : Prop := ∃ a n, (a, n) ∈ R ∧ a ≤ x < a + n.

(** The blocks of [F] linked one to the next, and the last to [last]. *)
Definition first (F : list (Z * Z)) (last : Z) : Z := match F with [] => last | (a, _) :: _ => a end.
Fixpoint chain (s : um) (F : list (Z * Z)) (last : Z) : Prop :=
  match F with
  | [] => True
  | (a, n) :: F' => hd s !! a = Some (first F' last, n) ∧ chain s F' last
  end.
(** Sorted by address with a gap between any two, from [lo] to [hi]. *)
Fixpoint fits (lo : Z) (R : list (Z * Z)) (hi : Z) : Prop :=
  match R with
  | [] => lo ≤ hi
  | (a, n) :: R' => lo < a ∧ 0 ≤ n ∧ fits (a + n) R' hi
  end.

Section spec.
(** [base], the start of the heap, and its limit, in units. *)
Context (base heap max_brk : Z).

Record heap_ok (s : um) (A : gmap Z Z) (R : list (Z * Z)) : Prop := HeapOk {
  ok_chain : chain s ((base, 0) :: R) base;
  ok_fits : fits (base - 1) ((base, 0) :: R) (brk s);
  ok_pos : ∀ a n, (a, n) ∈ R → 0 < n;
  ok_freep : freep s ∈ base :: R.*1;
  ok_cover : ∀ x, heap ≤ x < brk s ↔ used A x ∨ is_free R x;
  ok_sep : ∀ x, used A x → ¬ is_free R x;
  ok_disjoint : ∀ a n b m x, A !! a = Some n → A !! b = Some m → a ≤ x < a + n → b ≤ x < b + m → a = b;
  ok_used : ∀ a n, A !! a = Some n → 0 < n ∧ size_ s a = n;
  ok_brk : heap ≤ brk s ≤ max_brk }.

(** The allocator's state: nothing asked for yet, or a heap that is exactly
    the blocks in use and the free ones. *)
Definition alloc_ok (s : um) (A : gmap Z Z) : Prop :=
  (freep s = 0 ∧ A = ∅ ∧ brk s = heap ∧ heap ≤ max_brk) ∨ ∃ R, heap_ok s A R.

(** The blocks [A] hold what they held. *)
Definition untouched (A : gmap Z Z) (s s' : um) : Prop := ∀ x, used A x → hd s' !! x = hd s !! x.
End spec.
