(* ===== verification/UmallocProof.v ===== *)
(** The free list of user/umalloc.c: what [free], [morecore] and [malloc] do to
    it. *)
From S2P Require Import Prelude Umalloc.

(** ** Lists of blocks *)

Lemma first_app F G last : first (F ++ G) last = first F (first G last).
Proof. by destruct F as [|[a n] F]. Qed.

Lemma chain_app s F G last : chain s (F ++ G) last ↔ chain s F (first G last) ∧ chain s G last.
Proof.
  induction F as [|[a n] F IH]; simpl; [tauto|]. rewrite IH, first_app. tauto.
Qed.

Lemma chain_ext s s' F last : (∀ a, a ∈ F.*1 → hd s' !! a = hd s !! a) → chain s F last → chain s' F last.
Proof.
  induction F as [|[a n] F IH]; simpl; [done|]. intros He [Ha Hc]. split.
  - rewrite He by left. done.
  - apply IH; [|done]. intros b Hb. apply He. by right.
Qed.

Lemma fits_le lo R hi : fits lo R hi → lo ≤ hi.
Proof. revert lo. induction R as [|[a n] R IH]; intros lo; simpl; [done|]. intros (? & ? & H). apply IH in H. lia. Qed.

Lemma fits_app lo F G hi : fits lo (F ++ G) hi → ∃ mid, fits lo F mid ∧ fits mid G hi.
Proof.
  revert lo. induction F as [|[a n] F IH]; intros lo; simpl.
  - intros H. exists lo. split; [lia|done].
  - intros (? & ? & H). destruct (IH _ H) as (mid & ? & ?). by exists mid.
Qed.

Lemma fits_in lo R hi a n : fits lo R hi → (a, n) ∈ R → lo < a ∧ 0 ≤ n ∧ a + n ≤ hi.
Proof.
  revert lo. induction R as [|[b m] R IH]; intros lo; simpl; [by intros ? ?%not_elem_of_nil|].
  intros (? & ? & H) [[= -> ->]|Hin]%elem_of_cons.
  - apply fits_le in H. lia.
  - destruct (IH _ H Hin). lia.
Qed.

Lemma fits_addr lo R hi a : fits lo R hi → a ∈ R.*1 → lo < a ≤ hi.
Proof.
  intros H ([b m] & -> & Hin)%list_elem_of_fmap. pose proof (fits_in _ _ _ _ _ H Hin). simpl. lia.
Qed.

Lemma fits_weaken lo lo' R hi hi' : fits lo R hi → lo' ≤ lo → hi ≤ hi' → fits lo' R hi'.
Proof.
  revert lo lo'. induction R as [|[a n] R IH]; intros lo lo'; simpl; [lia|]. intros (? & ? & H) ? ?.
  split; [lia|]. split; [done|]. by eapply IH.
Qed.

Lemma fits_glue lo F mid G hi : fits lo F mid → fits mid G hi → fits lo (F ++ G) hi.
Proof.
  revert lo. induction F as [|[a n] F IH]; intros lo; simpl; [intros; by eapply fits_weaken|].
  intros (? & ? & H) HG. split; [done|]. split; [done|]. by apply IH.
Qed.

Lemma is_free_app F G x : is_free (F ++ G) x ↔ is_free F x ∨ is_free G x.
Proof. unfold is_free. setoid_rewrite elem_of_app. naive_solver. Qed.
Lemma is_free_cons a n R x : is_free ((a, n) :: R) x ↔ a ≤ x < a + n ∨ is_free R x.
Proof. unfold is_free. setoid_rewrite elem_of_cons. naive_solver. Qed.
Lemma is_free_nil x : ¬ is_free [] x.
Proof. by intros (? & ? & ?%not_elem_of_nil & _). Qed.

Lemma used_insert A a n x : A !! a = None → used (<[a := n]> A) x ↔ a ≤ x < a + n ∨ used A x.
Proof.
  intros Ha. unfold used. setoid_rewrite lookup_insert_Some. split.
  - intros (b & m & [[-> ->]|[? ?]] & ?); [by left|right; eauto].
  - intros [?|(b & m & Hb & ?)]; [by exists a, n; split; [left|]|]. exists b, m. split; [|done]. right. split; [congruence|done].
Qed.

Lemma used_delete A a n x : A !! a = Some n → (∀ b m y, A !! b = Some m → a ≤ y < a + n → b ≤ y < b + m → a = b) →
  used (delete a A) x ↔ used A x ∧ ¬ a ≤ x < a + n.
Proof.
  intros Ha Hd. unfold used. setoid_rewrite lookup_delete_Some. split.
  - intros (b & m & [Hne Hb] & Hx). split; [eauto|]. intros Hx'. by destruct Hne; eapply Hd.
  - intros [(b & m & Hb & Hx) Hn]. exists b, m. split; [|done]. split; [|done]. intros ->. simplify_eq. lia.
Qed.

Lemma fits_split lo L p n R hi : fits lo (L ++ (p, n) :: R) hi →
  0 ≤ n ∧ lo < p ∧ p + n ≤ hi ∧ (∀ a, a ∈ L.*1 → a < p) ∧ (∀ a, a ∈ R.*1 → p + n < a).
Proof.
  intros (mid & HL & Hp & Hn & HR)%fits_app. pose proof (fits_le _ _ _ HL). pose proof (fits_le _ _ _ HR).
  split; [done|]. split; [lia|]. split; [lia|]. split.
  - intros a Ha. pose proof (fits_addr _ _ _ _ HL Ha). lia.
  - intros a Ha. pose proof (fits_addr _ _ _ _ HR Ha). lia.
Qed.

Lemma chain_at s L p n R last : chain s (L ++ (p, n) :: R) last → ptr s p = first R last ∧ size_ s p = n.
Proof. intros [_ [Hp _]]%chain_app. unfold ptr, size_. by rewrite Hp. Qed.

(** A place of the list where every earlier address is below [t] and every
    later one is not. *)
Definition before (t p : Z) (R : list (Z * Z)) : Prop := p < t ∧ (R = [] ∨ t ≤ first R 0).

(** The length of a walk round the list that ends there. *)
Definition way (F : list (Z * Z)) (t p : Z) (R : list (Z * Z)) : nat :=
  if p <? t then S (length R) else length F + length R + 2.

Lemma way_step F lo hi base t L p n R : F = L ++ (p, n) :: R → fits lo F hi → head F.*1 = Some base → base < t →
  before t p R ∨
  match R with
  | [] => ∃ k F', F = (base, k) :: F' ∧ (way F t base F' < way F t p R)%nat
  | (q, k) :: R' => (way F t q R' < way F t p R)%nat
  end.
Proof.
  intros EF Hf Hb Ht. rewrite EF in Hf. destruct (fits_split _ _ _ _ _ _ Hf) as (Hn & _ & _ & _ & Hgt). unfold way, before.
  destruct R as [|[q m] R].
  - destruct (p <? t) eqn:Ep; bool_prop; [by left; auto|]. right.
    destruct F as [|[b k] F']; [done|]. injection Hb as ->. exists k, F'. split; [done|]. apply Z.ltb_lt in Ht as ->. simpl. lia.
  - assert (p + n < q) by (apply Hgt; left). destruct (p <? t) eqn:Ep; bool_prop.
    + destruct (Z.le_gt_cases t q); [by left; auto|]. right. destruct (q <? t) eqn:Eq; bool_prop; simpl; lia.
    + right. destruct (q <? t) eqn:Eq; bool_prop; simpl; lia.
Qed.

Lemma way_next F lo hi base t L p n R : F = L ++ (p, n) :: R → fits lo F hi → head F.*1 = Some base → base < t →
  before t p R ∨ ∃ L' n' R', F = L' ++ (first R base, n') :: R' ∧ (way F t (first R base) R' < way F t p R)%nat.
Proof.
  intros EF Hf Hb Ht. destruct (way_step F lo hi base t L p n R EF Hf Hb Ht) as [?|H]; [by left|right].
  destruct R as [|[q m] R]; simpl.
  - destruct H as (k & F' & E & H). by exists [], k, F'.
  - exists (L ++ [(p, n)]), m, R. by rewrite <- app_assoc.
Qed.

Lemma way_le F t L p n R : F = L ++ (p, n) :: R → (way F t p R ≤ 2 * length F + 1)%nat.
Proof. intros ->. unfold way. rewrite length_app. simpl. destruct (p <? t); lia. Qed.

(** The list is no longer than the memory has headers. *)
Lemma fits_NoDup lo F hi : fits lo F hi → NoDup F.*1.
Proof.
  revert lo. induction F as [|[a n] F IH]; intros lo; simpl; [constructor|]. intros (? & ? & H). constructor; [|by eapply IH].
  intros Ha. pose proof (fits_addr _ _ _ _ H Ha). lia.
Qed.

Lemma chain_lookup s F last a : chain s F last → a ∈ F.*1 → is_Some (hd s !! a).
Proof.
  induction F as [|[b n] F IH]; simpl; [by intros _ ?%not_elem_of_nil|]. intros [Hb Hc] [->|Ha]%elem_of_cons; eauto.
Qed.

Lemma chain_length s F last lo hi : chain s F last → fits lo F hi → (length F ≤ size (hd s))%nat.
Proof.
  intros Hc Hf. rewrite <- (length_fmap fst F), <- size_dom.
  rewrite <- (size_list_to_set (C := gset Z)) by (by eapply fits_NoDup). apply subseteq_size.
  intros a Ha%elem_of_list_to_set. apply elem_of_dom. by eapply chain_lookup.
Qed.

(** ** The loop of [free] *)

Section walk.
Context (base max_brk : Z).

Lemma find_ok s F hi bp : chain s F base → fits (base - 1) F hi → head F.*1 = Some base → base < bp → bp ∉ F.*1 →
  ∀ fuel L p n R, F = L ++ (p, n) :: R → (way F bp p R < fuel)%nat →
  wp (while_ fuel (find_step bp) p) s (λ q s', s' = s ∧ ∃ L n R, F = L ++ (q, n) :: R ∧ before bp q R).
Proof.
  intros Hc Hf Hb Hbp Hnin. induction fuel as [|fuel IH]; intros L p n R EF Hw; [lia|]. cbn [while_]. apply wp_bind.
  unfold find_step. apply wp_bind, wp_gets. change (id s) with s.
  assert (ptr s p = first R base) as Hptr by (rewrite EF in Hc; by apply chain_at in Hc as [? _]).
  rewrite !Hptr. rewrite EF in Hf. destruct (fits_split _ _ _ _ _ _ Hf) as (Hn & Hlo & _ & _ & Hgt). rewrite <- EF in Hf.
  assert (bp ≠ first R base) as Hne.
  { destruct R as [|[q m] R]; simpl; [lia|]. intros ->. apply Hnin. rewrite EF, fmap_app, elem_of_app. right. right. left. }
  assert (before bp p R ↔ p < bp ∧ (R = [] ∨ bp < first R base)) as Hbef.
  { unfold before. destruct R as [|[q m] R]; simpl in *; naive_solver lia. }
  destruct ((p <? bp) && (bp <? first R base)) eqn:E1.
  { bool_prop. apply wp_ret, wp_ret. split; [done|]. exists L, n, R. rewrite Hbef. auto. }
  destruct ((first R base <=? p) && ((p <? bp) || (bp <? first R base))) eqn:E2.
  { apply wp_ret, wp_ret. split; [done|]. exists L, n, R. rewrite Hbef. split; [done|].
    apply andb_true_iff in E2 as [E2 [E3|E3]%orb_true_iff]; bool_prop; (destruct R as [|[q m] R]; simpl in *; [split; [lia|by left]|]).
    - assert (p + n < q) by (apply Hgt; left). lia.
    - assert (p + n < q) by (apply Hgt; left). lia. }
  apply wp_ret. destruct (way_next F _ _ base bp L p n R EF Hf Hb Hbp) as [Hbf|(L' & n' & R' & EF' & Hlt)].
  - exfalso. apply Hbef in Hbf as [H1 H2]. apply andb_false_iff in E1, E2. rewrite orb_false_iff in E2.
    destruct R as [|[q m] R]; simpl in *; [|destruct H2 as [|H2]; [done|]; destruct E1; bool_prop; lia].
    destruct E2 as [E2|[E2 _]]; bool_prop; lia.
  - eapply (IH L' _ n' R'); [done|]. lia.
Qed.

(** ** What [free] makes of the list *)

(** The freed block with the free block after it, if they touch. *)
Definition absorb (bp n : Z) (R : list (Z * Z)) : Z * list (Z * Z) :=
  match R with
  | (q, m) :: R' => if bp + n =? q then (n + m, R') else (n, R)
  | [] => (n, [])
  end.
Definition join (p sp bp n : Z) (R : list (Z * Z)) : list (Z * Z) :=
  let '(n1, R1) := absorb bp n R in
  if p + sp =? bp then (p, sp + n1) :: R1 else (p, sp) :: (bp, n1) :: R1.

Lemma join_fits lo p sp bp n R hi : fits lo ((p, sp) :: R) hi → 0 ≤ n → p + sp ≤ bp → bp + n ≤ first R hi →
  fits lo (join p sp bp n R) hi.
Proof.
  simpl. intros (? & ? & HR) Hn Hp Hq. unfold join, absorb. destruct R as [|[q m] R]; simpl in *.
  - destruct (p + sp =? bp) eqn:E; bool_prop; simpl; lia.
  - destruct HR as (? & ? & HR). destruct (bp + n =? q) eqn:E1; destruct (p + sp =? bp) eqn:E2; bool_prop; simpl.
    + split; [lia|]. split; [lia|]. by replace (p + (sp + (n + m))) with (q + m) by lia.
    + split; [lia|]. split; [lia|]. split; [lia|]. split; [lia|]. by replace (bp + (n + m)) with (q + m) by lia.
    + split; [lia|]. split; [lia|]. split; [lia|]. by split.
    + split; [lia|]. split; [lia|]. split; [lia|]. split; [lia|]. split; [lia|]. by split.
Qed.

Lemma join_free p sp bp n R x : 0 ≤ sp → 0 ≤ n → (∀ q m, (q, m) ∈ R → 0 ≤ m) →
  is_free (join p sp bp n R) x ↔ is_free ((p, sp) :: R) x ∨ bp ≤ x < bp + n.
Proof.
  intros Hsp Hn HR. unfold join, absorb. destruct R as [|[q m] R].
  - destruct (p + sp =? bp) eqn:E; bool_prop; rewrite !is_free_cons; pose proof (is_free_nil x); intuition lia.
  - assert (0 ≤ m) by (apply (HR q); left).
    destruct (bp + n =? q) eqn:E1; destruct (p + sp =? bp) eqn:E2; bool_prop; rewrite !is_free_cons; intuition lia.
Qed.

Lemma join_pos p sp bp n R : 0 < n → 0 ≤ sp → (∀ a m, (a, m) ∈ R → 0 < m) →
  ∀ a m, (a, m) ∈ join p sp bp n R → 0 < m ∨ (a, m) = (p, sp).
Proof.
  intros Hn Hsp HR a m. unfold join, absorb. destruct R as [|[q k] R].
  - destruct (_ =? bp); rewrite ?elem_of_cons, ?elem_of_nil; naive_solver lia.
  - assert (0 < k) by (apply (HR q); left). assert (∀ a m, (a, m) ∈ R → 0 < m) by (intros ? ? ?; eapply HR; by right).
    destruct (_ =? q), (_ =? bp); rewrite ?elem_of_cons; naive_solver lia.
Qed.

Lemma join_head p sp bp n R : ∃ m T, join p sp bp n R = (p, m) :: T ∧ (p + sp ≠ bp → m = sp).
Proof.
  unfold join. destruct (absorb bp n R) as [n1 R1]. destruct (p + sp =? bp) eqn:E; bool_prop; eexists _, _; split; done.
Qed.

Lemma join_length p sp bp n R : (length (join p sp bp n R) ≤ S (S (length R)))%nat.
Proof.
  unfold join, absorb. destruct R as [|[q m] R]; [|destruct (_ =? q)]; destruct (_ =? bp); simpl; lia.
Qed.

(** The headers that [free] leaves. *)
Definition freed (s : um) (p sp bp n : Z) (R : list (Z * Z)) : um :=
  let '(n1, R1) := absorb bp n R in
  Um (<[p := if p + sp =? bp then (first R1 base, sp + n1) else (bp, sp)]> (<[bp := (first R1 base, n1)]> (hd s))) p (brk s).

Lemma hd_insert h a x b f g : default (0, 0) ((hd (Um (<[a := x]> h) f g)) !! b) = if decide (a = b) then x else default (0, 0) (h !! b).
Proof. simpl. case_decide as E; [subst; by rewrite lookup_insert_eq|by rewrite lookup_insert_ne]. Qed.

Lemma merge_next s p bp n R : chain s R base → ptr s p = first R base → size_ s bp = n →
  0 < n → base < bp → p ≠ bp → bp ∉ R.*1 → (∀ q m, (q, m) ∈ R → 0 ≤ m ∧ n + m < 2 ^ 32) →
  wp (if bp + n =? ptr s p then
        set_size bp (u32 (n + size_ s (ptr s p)));; s ← gets id; set_ptr bp (ptr s (ptr s p))
      else set_ptr bp (ptr s p)) s (λ _ s',
    let '(n1, R1) := absorb bp n R in s' = Um (<[bp := (first R1 base, n1)]> (hd s)) (freep s) (brk s)).
Proof.
  intros Hc Hptr Hn Hn0 Hbp Hne Hnin Hm. rewrite Hptr. destruct R as [|[q m] R]; simpl.
  - destruct (bp + n =? base) eqn:E; bool_prop; [lia|]. by rewrite <- Hn.
  - destruct Hc as [Hq Hc]. destruct (Hm q m) as [Hm0 Hm1]; [left|].
    assert (q ≠ bp) as Hqb by (intros ->; apply Hnin; left).
    assert (size_ s q = m) as Esz by (unfold size_; by rewrite Hq).
    assert (ptr s q = first R base) as Eq by (unfold ptr; by rewrite Hq).
    destruct (bp + n =? q) eqn:E; bool_prop; [|by rewrite <- Hn]. unfold set_size at 1. wp_steps.
    rewrite Esz, u32_small by lia. change (id ?x) with x.
    set (s1 := Um _ _ _). assert (ptr s1 p = q) as Ep.
    { unfold s1, ptr. rewrite hd_insert, decide_False by done. by apply Hptr. }
    assert (ptr s1 q = first R base) as Eq1 by (unfold s1, ptr; by rewrite hd_insert, decide_False).
    assert (size_ s1 bp = n + m) as Es by (unfold s1, size_; by rewrite hd_insert, decide_True).
    rewrite Ep, Eq1. unfold set_ptr. wp_steps. rewrite Es. unfold s1. simpl. by rewrite insert_insert_eq.
Qed.

Lemma merge_prev s p sp bp n1 b1 : ptr s bp = b1 → size_ s bp = n1 → size_ s p = sp → 0 ≤ sp + n1 < 2 ^ 32 → p ≠ bp →
  wp (if p + sp =? bp then
        set_size p (u32 (sp + n1));; s ← gets id; set_ptr p (ptr s bp)
      else set_ptr p bp) s (λ _ s',
    s' = Um (<[p := if p + sp =? bp then (b1, sp + n1) else (bp, sp)]> (hd s)) (freep s) (brk s)).
Proof.
  intros Hb Hn Hs Hlt Hne. destruct (p + sp =? bp) eqn:E; [|unfold set_ptr; wp_steps; by rewrite Hs].
  unfold set_size. wp_steps. rewrite u32_small by done. change (id ?x) with x. set (s1 := Um _ _ _).
  assert (ptr s1 bp = b1) as -> by (unfold s1, ptr; by rewrite hd_insert, decide_False).
  assert (size_ s1 p = sp + n1) as Es by (unfold s1, size_; by rewrite hd_insert, decide_True).
  unfold set_ptr. wp_steps. rewrite Es. unfold s1. simpl. by rewrite insert_insert_eq.
Qed.

Lemma free_writes s F bp n hi : chain s F base → fits (base - 1) F hi → head F.*1 = Some base →
  0 ≤ base → hi < 2 ^ 32 → bp ∉ F.*1 → base < bp → size_ s bp = n → 0 < n → bp + n ≤ hi →
  (∀ a m, (a, m) ∈ F → a + m ≤ bp ∨ bp + n ≤ a) → freep s ∈ F.*1 →
  wp (free (bp + 1)) s (λ _ s', ∃ L p sp R, F = L ++ (p, sp) :: R ∧ p + sp ≤ bp ∧ bp + n ≤ first R hi ∧
    s' = freed s p sp bp n R).
Proof.
  intros Hc Hf Hb Hb0 Hhi Hnin Hbp Hn Hn0 Hend Hsep Hfp. unfold free. replace (bp + 1 - 1) with bp by lia.
  apply wp_bind, wp_gets. change (id s) with s. apply wp_bind.
  apply list_elem_of_fmap in Hfp as ([f nf] & Ef & (Lf & Rf & EF)%list_elem_of_split). simpl in Ef. rewrite Ef.
  eapply wp_mono; [apply (find_ok s _ hi bp Hc Hf Hb Hbp Hnin _ Lf f nf Rf EF)|].
  { pose proof (chain_length _ _ _ _ _ Hc Hf). pose proof (way_le _ bp Lf f nf Rf EF). unfold walk_fuel. lia. }
  clear Lf Rf EF. intros p s' (-> & L & sp & R & EF & Hbef).
  rewrite EF in Hc, Hf. destruct (fits_split _ _ _ _ _ _ Hf) as (Hsp & Hlo & Hhi' & _ & Hgt). destruct (chain_at _ _ _ _ _ _ Hc) as [Hptr Hsz].
  assert (p < bp) as Hpbp by apply Hbef.
  assert (p + sp ≤ bp) as Hp by (destruct (Hsep p sp); [rewrite EF; apply elem_of_app; right; left|lia..]).
  assert (bp + n ≤ first R hi) as Hq.
  { destruct R as [|[q m] R]; [done|]. simpl. destruct Hbef as [_ [|Hbef]]; [done|]. simpl in Hbef.
    destruct (Hsep q m); [rewrite EF; apply elem_of_app; right; right; left| |lia].
    assert (bp ≠ q); [|assert (0 ≤ m); [|lia]].
    - intros ->. apply Hnin. rewrite EF, fmap_app, elem_of_app. right. right. left.
    - destruct (fits_in _ _ _ q m Hf) as (_ & ? & _); [|done]. apply elem_of_app. right. right. left. }
  assert (bp ∉ (L ++ (p, sp) :: R).*1) as Hnin' by (by rewrite <- EF).
  assert (bp ∉ R.*1) as HninR by (intros ?; apply Hnin'; rewrite fmap_app, elem_of_app; right; by right).
  assert (∀ q m, (q, m) ∈ R → 0 ≤ m ∧ n + m < 2 ^ 32) as Hm.
  { intros q m Hin. destruct (fits_in _ _ _ q m Hf) as (? & ? & ?); [apply elem_of_app; right; by right|].
    destruct (Hsep q m); [rewrite EF; apply elem_of_app; right; by right|lia..]. }
  apply wp_bind, wp_gets. change (id s) with s. apply wp_bind. rewrite Hn.
  eapply wp_mono; [apply (merge_next s p bp n R); try done; [by apply chain_app in Hc as [_ [_ ?]]|lia]|].
  cbv beta. intros _ s1 Hs1. apply wp_bind, wp_gets. change (id s1) with s1.
  unfold freed. destruct (absorb bp n R) as [n1 R1] eqn:Ea. subst s1. set (s1 := Um _ _ _).
  assert (0 ≤ n1 < 2 ^ 32 - sp) as Hn1.
  { unfold absorb in Ea. destruct R as [|[q m] R]; [injection Ea as <- <-; lia|].
    destruct (fits_in _ _ _ q m Hf) as (? & ? & ?); [apply elem_of_app; right; right; left|]. simpl in Hq.
    destruct (bp + n =? q); injection Ea as <- <-; lia. }
  assert (size_ s1 p = sp) as Es by (unfold s1, size_; rewrite hd_insert, decide_False; [done|lia]).
  assert (size_ s1 bp = n1) as Eb by (unfold s1, size_; by rewrite hd_insert, decide_True).
  assert (ptr s1 bp = first R1 base) as Ep by (unfold s1, ptr; by rewrite hd_insert, decide_True).
  apply wp_bind. rewrite Es, Eb. eapply wp_mono; [apply (merge_prev s1 p sp bp n1 _ Ep Eb Es); lia|].
  cbv beta. intros _ s2 ->. unfold set_freep. wp_steps. exists L, p, sp, R. by rewrite Ea.
Qed.

Lemma freed_lookup s p sp bp n R x : x ≠ p → x ≠ bp → hd (freed s p sp bp n R) !! x = hd s !! x.
Proof. intros. unfold freed. destruct (absorb bp n R) as [n1 R1]. simpl. by rewrite !lookup_insert_ne. Qed.

Lemma freed_chain s L p sp bp n R hi : chain s (L ++ (p, sp) :: R) base → fits (base - 1) (L ++ (p, sp) :: R) hi →
  bp ∉ (L ++ (p, sp) :: R).*1 → p ≠ bp → chain (freed s p sp bp n R) (L ++ join p sp bp n R) base.
Proof.
  intros Hc Hf Hnin Hne. destruct (fits_split _ _ _ _ _ _ Hf) as (Hsp & _ & _ & HL & HR).
  apply chain_app in Hc as [HcL [_ HcR]]. rewrite fmap_app, elem_of_app in Hnin.
  destruct (join_head p sp bp n R) as (m & T & EJ & _).
  apply chain_app. split.
  - rewrite EJ. simpl. eapply chain_ext; [|done]. intros a Ha. pose proof (HL a Ha).
    apply freed_lookup; [lia|]. intros ->. apply Hnin. by left.
  - clear m T EJ. unfold freed, join. destruct (absorb bp n R) as [n1 R1] eqn:Ea.
    assert (chain s R1 base ∧ ∀ a, a ∈ R1.*1 → a ∈ R.*1) as [Hc1 Hsub].
    { unfold absorb in Ea. destruct R as [|[q m] R]; [by injection Ea as <- <-|].
      destruct (bp + n =? q); injection Ea as <- <-; [|done]. split; [apply HcR|]. intros a Ha. by right. }
    set (s' := Um _ _ _). assert (chain s' R1 base) as Hc1'.
    { eapply chain_ext; [|done]. intros a Ha%Hsub. pose proof (HR a Ha). unfold s'. simpl.
      rewrite !lookup_insert_ne; [done|..]; [intros ->; apply Hnin; right; by right|lia]. }
    unfold s' in *. destruct (p + sp =? bp); simpl.
    + split; [by rewrite lookup_insert_eq|done].
    + split; [by rewrite lookup_insert_eq|]. split; [|done]. by rewrite lookup_insert_ne, lookup_insert_eq.
Qed.

(** ** [free] on the heap *)

Context (heap : Z) (Hbase : 0 < base < heap) (Hmax : max_brk < 2 ^ 27).
Notation heap_ok := (heap_ok base heap max_brk).

Lemma is_free_base R x : is_free ((base, 0) :: R) x ↔ is_free R x.
Proof. rewrite is_free_cons. intuition lia. Qed.

Lemma used_at A a n : A !! a = Some n → 0 < n → used A a.
Proof. intros Ha Hn. exists a, n. split; [done|lia]. Qed.

(** A block in use is apart from every block of the free list. *)
Lemma used_apart s A R bp n : heap_ok s A R → A !! bp = Some n →
  heap ≤ bp ∧ bp + n ≤ brk s ∧ bp ∉ ((base, 0) :: R).*1 ∧ ∀ a m, (a, m) ∈ (base, 0) :: R → a + m ≤ bp ∨ bp + n ≤ a.
Proof.
  intros H Hb. destruct (ok_used _ _ _ _ _ _ H _ _ Hb) as [Hn _].
  assert (∀ x, bp ≤ x < bp + n → heap ≤ x < brk s ∧ ¬ is_free R x) as Hx.
  { intros x Hx. assert (used A x) as Hu by (by exists bp, n). split; [|by apply (ok_sep _ _ _ _ _ _ H)].
    apply (ok_cover _ _ _ _ _ _ H). by left. }
  destruct (Hx bp) as [? Hnf]; [lia|]. destruct (Hx (bp + n - 1)) as [? _]; [lia|]. split; [lia|]. split; [lia|]. split.
  - simpl. intros [->|([a m] & -> & Hin)%list_elem_of_fmap]%elem_of_cons; [lia|]. apply Hnf. exists a, m. simpl.
    pose proof (ok_pos _ _ _ _ _ _ H _ _ Hin). split; [done|lia].
  - intros a m [[= -> ->]|Hin]%elem_of_cons; [lia|]. pose proof (ok_pos _ _ _ _ _ _ H _ _ Hin).
    destruct (Z.le_gt_cases (a + m) bp); [by left|]. destruct (Z.le_gt_cases (bp + n) a); [by right|].
    destruct (Hx (Z.max a bp)) as [_ Hf]; [lia|]. destruct Hf. exists a, m. split; [done|lia].
Qed.

(** The list after a change between [base] and its end. *)
Lemma base_first L p sp bp n R R0 : (base, 0) :: R0 = L ++ (p, sp) :: R → base ≠ bp →
  ∃ R', L ++ join p sp bp n R = (base, 0) :: R'.
Proof.
  intros E Hne. destruct (join_head p sp bp n R) as (m & T & EJ & Hm). destruct L as [|[b k] L]; simpl in *; simplify_eq.
  - rewrite EJ, Hm by lia. eauto.
  - eauto.
Qed.

Lemma listed_not_used s A R p : heap_ok s A R → p ∈ ((base, 0) :: R).*1 → ¬ used A p.
Proof.
  intros H Hin Hu. simpl in Hin. apply elem_of_cons in Hin as [->|([a m] & -> & Hin)%list_elem_of_fmap].
  - assert (heap ≤ base < brk s) by (apply (ok_cover _ _ _ _ _ _ H); by left). lia.
  - apply (ok_sep _ _ _ _ _ _ H _ Hu). exists a, m. pose proof (ok_pos _ _ _ _ _ _ H _ _ Hin). simpl. split; [done|lia].
Qed.

Lemma join_list_fits L p sp bp n R hi : fits (base - 1) (L ++ (p, sp) :: R) hi → 0 ≤ n → p + sp ≤ bp → bp + n ≤ first R hi →
  fits (base - 1) (L ++ join p sp bp n R) hi.
Proof. intros (mid & HL & HR)%fits_app ? ? ?. eapply fits_glue; [done|]. by apply join_fits. Qed.

(** The block that is freed ends up at [freep] or right after it. *)
Lemma join_big p sp bp n R : 0 ≤ n → 0 ≤ sp → (∀ a m, (a, m) ∈ R → 0 < m) →
  ∃ m T, join p sp bp n R = (p, m) :: T ∧ (n ≤ m ∨ ∃ q k T', T = (q, k) :: T' ∧ n ≤ k).
Proof.
  intros Hn Hsp HR. unfold join. destruct (absorb bp n R) as [n1 R1] eqn:Ea.
  assert (n ≤ n1) as Hle.
  { unfold absorb in Ea. destruct R as [|[q m] R]; [injection Ea as <- <-; lia|]. assert (0 < m) by (apply (HR q); left).
    destruct (_ =? q); injection Ea as <- <-; lia. }
  destruct (p + sp =? bp); eexists _, _; (split; [done|]); [left; lia|right; eauto].
Qed.

Lemma free_ok s A R bp n : heap_ok s A R → A !! bp = Some n →
  wp (free (bp + 1)) s (λ _ s', ∃ R', heap_ok s' (delete bp A) R' ∧ untouched (delete bp A) s s' ∧ (length R' ≤ S (length R))%nat ∧
    ∃ L m T, (base, 0) :: R' = L ++ (freep s', m) :: T ∧ (n ≤ m ∨ ∃ q k T', T = (q, k) :: T' ∧ n ≤ k)).
Proof.
  intros H Hb. destruct (used_apart _ _ _ _ _ H Hb) as (Hlo & Hhi & Hnin & Hsep). destruct (ok_used _ _ _ _ _ _ H _ _ Hb) as [Hn Hsz].
  pose proof (ok_brk _ _ _ _ _ _ H) as Hbrk. pose proof H as [Hc Hf Hpos Hfp Hcov Hdis Hdj Hus _].
  eapply wp_mono; [apply (free_writes s ((base, 0) :: R) bp n (brk s)); done || lia|].
  intros _ s' (L & p & sp & R2 & EF & Hp & Hq & ->).
  destruct (base_first L p sp bp n R2 R) as [R' ER]; [done|lia|].
  assert (p ∈ ((base, 0) :: R).*1) as Hpin by (rewrite EF, fmap_app, elem_of_app; right; left).
  assert (p ≠ bp) as Hne by congruence.
  assert (freep (freed s p sp bp n R2) = p ∧ brk (freed s p sp bp n R2) = brk s) as [Efp Ebrk] by (unfold freed; by destruct (absorb bp n R2)).
  assert (0 ≤ sp) as Hsp by (rewrite EF in Hf; by apply fits_split in Hf as (? & _)).
  assert (∀ a m, (a, m) ∈ L ++ (p, sp) :: R2 → 0 < m ∨ a = base) as Hpos'.
  { rewrite <- EF. intros a m [[= -> ->]|Hin]%elem_of_cons; [by right|left; eauto]. }
  assert (∀ a m, (a, m) ∈ R2 → 0 < m) as Hpos2.
  { intros a m Hin. destruct (Hpos' a m) as [|Ea]; [apply elem_of_app; right; by right|done|]. exfalso.
    subst a. rewrite EF in Hf. apply fits_split in Hf as (_ & Hgt & _ & _ & HgR).
    assert (p + sp < base) by (apply HgR, list_elem_of_fmap; by exists (base, m)). lia. }
  assert (∀ x, is_free R' x ↔ is_free R x ∨ bp ≤ x < bp + n) as Hfree.
  { intros x. rewrite <- is_free_base, <- ER, is_free_app, join_free by (lia || (intros q m Hin; specialize (Hpos2 q m Hin); lia)).
    rewrite <- (is_free_base R), EF, is_free_app. tauto. }
  assert (∀ x, used (delete bp A) x ↔ used A x ∧ ¬ bp ≤ x < bp + n) as Hdel.
  { intros x. apply used_delete; [done|]. intros b m y Hb' Hy Hy'. by eapply Hdj. }
  assert (∀ x, bp ≤ x < bp + n → used A x) as Hin_bp by (intros x Hx; by exists bp, n).
  assert (untouched (delete bp A) s (freed s p sp bp n R2)) as Hunt.
  { intros x [Hu Hx]%Hdel. apply freed_lookup; [|lia]. intros ->. by apply (listed_not_used _ _ _ _ H Hpin). }
  exists R'. split; [|split; [done|split]].
  - split; rewrite <- ?ER, ?Efp, ?Ebrk.
    + rewrite EF in Hc, Hf, Hnin. by eapply freed_chain.
    + rewrite EF in Hf. apply join_list_fits; [done|lia..].
    + intros a m Hin. rewrite EF in Hf. assert (base < a) as Hab.
      { apply (join_list_fits L p sp bp n R2) in Hf; [|lia..]. rewrite ER in Hf.
        destruct Hf as (_ & _ & Hf). destruct (fits_in _ _ _ _ _ Hf Hin). lia. }
      assert ((a, m) ∈ L ++ join p sp bp n R2) as [Hin'|Hin']%elem_of_app by (rewrite ER; by right).
      * destruct (Hpos' a m); [apply elem_of_app; by left|done|lia].
      * destruct (join_pos p sp bp n R2 Hn Hsp Hpos2 a m Hin') as [|[= -> ->]]; [done|].
        destruct (Hpos' p sp); [apply elem_of_app; right; left|done|lia].
    + change (base :: R'.*1) with ((base, 0) :: R').*1. rewrite <- ER, fmap_app, elem_of_app. right.
      destruct (join_head p sp bp n R2) as (m & T & -> & _). left.
    + intros x. rewrite Hcov, Hdel, Hfree. specialize (Hin_bp x). destruct (decide (bp ≤ x < bp + n)); tauto.
    + intros x [Hu Hx]%Hdel [Hf'|?]%Hfree; [|done]. by apply (Hdis x).
    + intros a k b m x [_ Ha]%lookup_delete_Some [_ Hb']%lookup_delete_Some. by apply Hdj.
    + intros a k [Hne' Ha]%lookup_delete_Some. destruct (Hus _ _ Ha) as [Hk Hk']. split; [done|]. rewrite <- Hk'. unfold size_.
      rewrite Hunt; [done|]. apply Hdel. split; [by eapply used_at|]. intros Hx. apply Hne', (Hdj bp n a k a); done || lia.
    + done.
  - apply (f_equal length) in ER, EF. pose proof (join_length p sp bp n R2). rewrite length_app in ER, EF. simpl in *. lia.
  - rewrite Efp. destruct (join_big p sp bp n R2) as (m & T & EJ & Hm); [lia|done..|]. exists L, m, T. by rewrite <- ER, EJ.
Qed.

(** ** [morecore] *)

Lemma heap_freep s A R : heap_ok s A R → freep s ≠ 0.
Proof.
  intros H. pose proof (ok_freep _ _ _ _ _ _ H) as Hin. pose proof (ok_fits _ _ _ _ _ _ H) as [_ [_ Hf]].
  apply elem_of_cons in Hin as [->|Hin]; [lia|]. pose proof (fits_addr _ _ _ _ Hf Hin). lia.
Qed.

Lemma listed_lt_brk s A R a : heap_ok s A R → a ∈ ((base, 0) :: R).*1 → a < brk s.
Proof.
  intros H Hin. pose proof (ok_brk _ _ _ _ _ _ H). apply elem_of_cons in Hin as [->|([b m] & -> & Hin)%list_elem_of_fmap]; [simpl; lia|].
  pose proof (ok_pos _ _ _ _ _ _ H _ _ Hin). pose proof (ok_fits _ _ _ _ _ _ H) as [_ [_ Hf]].
  destruct (fits_in _ _ _ _ _ Hf Hin). simpl. lia.
Qed.

(** The memory that the kernel adds, taken as one more block in use. *)
Lemma heap_grow s A R nu : heap_ok s A R → 0 < nu → brk s + nu ≤ max_brk → let b := brk s in
  let s1 := Um (<[b := (ptr s b, nu)]> (hd s)) (freep s) (b + nu) in
  A !! b = None ∧ heap_ok s1 (<[b := nu]> A) R ∧ untouched A s s1.
Proof.
  intros H Hnu Hmb b s1. pose proof H as [Hc Hf Hpos Hfp Hcov Hdis Hdj Hus Hbrk].
  assert (∀ x, used A x → x < b) as Hlt by (intros x Hu; apply Hcov; by left).
  assert (∀ x, is_free R x → x < b) as Hltf by (intros x Hu; apply Hcov; by right).
  assert (A !! b = None) as Hb.
  { destruct (A !! b) as [k|] eqn:E; [|done]. destruct (Hus _ _ E) as [Hk _]. assert (b < b); [|lia]. by apply Hlt, (used_at A b k). }
  assert (∀ x, x < b → hd s1 !! x = hd s !! x) as Hs1 by (intros x Hx; simpl; apply lookup_insert_ne; lia).
  split; [done|]. split; [|intros x Hu; by apply Hs1, Hlt]. split; simpl brk.
  - eapply chain_ext; [|done]. intros a Ha. apply Hs1. by eapply listed_lt_brk.
  - eapply fits_weaken; [done|lia..].
  - done.
  - done.
  - intros x. rewrite used_insert by done. specialize (Hcov x). unfold b in *. split; [|naive_solver lia].
    intros Hx. destruct (Z.lt_ge_cases x (brk s)); [naive_solver lia|]. left. left. lia.
  - intros x [Hx|Hx]%used_insert; [|by apply Hdis|done]. intros ?%Hltf. lia.
  - intros a n c m x Ha Hc' Hxa Hxc. apply lookup_insert_Some in Ha as [[<- <-]|[Hna Ha]], Hc' as [[<- <-]|[Hnc Hc']]; [done| | |by eapply Hdj].
    + assert (x < b) by (apply Hlt; by exists c, m). lia.
    + assert (x < b) by (apply Hlt; by exists a, n). lia.
  - intros a n [[<- <-]|[Hne Ha]]%lookup_insert_Some.
    + split; [done|]. unfold size_. simpl. by rewrite lookup_insert_eq.
    + destruct (Hus _ _ Ha) as [Hn Hsz]. split; [done|]. unfold size_. rewrite Hs1; [done|]. by apply Hlt, (used_at A a n).
  - lia.
Qed.

(** A block of at least [n] units at [freep] or right after it. *)
Definition big_at_freep (s : um) (R : list (Z * Z)) (n : Z) : Prop :=
  ∃ L m T, (base, 0) :: R = L ++ (freep s, m) :: T ∧ (n ≤ m ∨ ∃ q k T', T = (q, k) :: T' ∧ n ≤ k).

Lemma morecore_ok s A R nu : heap_ok s A R → 0 < nu → nu * 16 < 2 ^ 31 →
  wp (morecore max_brk nu) s (λ r s',
    (r = 0 ∧ s' = s ∧ max_brk < brk s + Z.max 4096 nu) ∨
    (r = freep s' ∧ r ≠ 0 ∧ ∃ R', heap_ok s' A R' ∧ untouched A s s' ∧ (length R' ≤ S (length R))%nat ∧ big_at_freep s' R' nu)).
Proof.
  intros H Hnu Hi. unfold morecore. replace (if nu <? 4096 then 4096 else nu) with (Z.max 4096 nu) by (case_if; lia).
  set (n := Z.max 4096 nu). assert (i32 (n * UNIT) = n * 16) as -> by (apply i32_small; unfold UNIT; lia).
  pose proof (ok_brk _ _ _ _ _ _ H) as Hbrk. unfold sbrk. wp_steps. change (id s) with s.
  replace (n * 16 / UNIT) with n by (unfold UNIT; by rewrite Z.div_mul). replace (n * 16 <? 0) with false by (symmetry; apply Z.ltb_ge; lia).
  destruct (brk s + n <=? max_brk) eqn:E; bool_prop; wp_steps.
  - replace (brk s =? -1) with false by (symmetry; apply Z.eqb_neq; lia). apply wp_bind. unfold set_size. apply wp_modify. simpl.
    destruct (heap_grow s A R n H) as (Hb & H1 & Hu1); [lia|done|]. cbv zeta in H1, Hu1.
    apply wp_bind. eapply wp_mono; [eapply (free_ok _ _ R (brk s) n); [exact H1|by apply lookup_insert_eq]|].
    intros _ s' (R' & H' & Hu' & Hlen & L & m & T & EF & Hbig). rewrite delete_insert_id in H', Hu' by done.
    apply wp_gets. right. split; [done|]. split; [by eapply heap_freep|]. exists R'. split; [done|].
    split; [intros x Hx; by rewrite Hu', Hu1|]. split; [done|]. exists L, m, T. split; [done|].
    destruct Hbig as [?|(q & k & T' & -> & ?)]; [left; lia|right]. exists q, k, T'. split; [done|lia].
  - left. split; [done|]. split; [done|lia].
Qed.

(** ** [malloc] *)

(** A block taken out of the free memory. *)
Lemma heap_take s A R s' R' q k : heap_ok s A R → chain s' ((base, 0) :: R') base → fits (base - 1) ((base, 0) :: R') (brk s) →
  (∀ a n, (a, n) ∈ R' → 0 < n) → freep s' ∈ base :: R'.*1 → brk s' = brk s → 0 < k → size_ s' q = k → untouched A s s' →
  (∀ x, is_free R x ↔ is_free R' x ∨ q ≤ x < q + k) → (∀ x, is_free R' x → ¬ q ≤ x < q + k) →
  A !! q = None ∧ heap_ok s' (<[q := k]> A) R'.
Proof.
  intros H Hc Hf Hpos Hfp Eb Hk Hsz Hu Hfree Hsep. pose proof H as [_ _ _ _ Hcov Hdis Hdj Hus Hbrk].
  assert (∀ x, used A x → ¬ q ≤ x < q + k) as Hq by (intros x Hx Hxq; apply (Hdis x Hx), Hfree; by right).
  assert (A !! q = None) as Hn.
  { destruct (A !! q) as [n|] eqn:E; [|done]. destruct (Hus _ _ E). destruct (Hq q); [by eapply used_at|lia]. }
  split; [done|]. split; rewrite ?Eb; try done.
  - intros x. rewrite Hcov, used_insert, Hfree by done. tauto.
  - intros x [Hx|Hx]%used_insert Hx'; [by apply (Hsep x)| |done]. apply (Hdis x Hx), Hfree. by left.
  - intros a n c m x Ha Hc' Hxa Hxc. apply lookup_insert_Some in Ha as [[<- <-]|[Hna Ha]], Hc' as [[<- <-]|[Hnc Hc']]; [done| | |by eapply Hdj].
    + destruct (Hq x); [by exists c, m|done].
    + destruct (Hq x); [by exists a, n|done].
  - intros a n [[<- <-]|[Hne Ha]]%lookup_insert_Some; [by split|]. destruct (Hus _ _ Ha) as [Hn' Hsz']. split; [done|].
    unfold size_. rewrite Hu; [done|]. by eapply used_at.
Qed.

Lemma fits_remove lo L a m p n R hi : fits lo (L ++ (a, m) :: (p, n) :: R) hi → fits lo (L ++ (a, m) :: R) hi.
Proof.
  intros (mid & HL & (? & ? & ? & ? & HR))%fits_app. eapply fits_glue; [done|]. simpl. split; [done|]. split; [done|].
  eapply fits_weaken; [done|lia..].
Qed.
Lemma fits_shrink lo L p n k R hi : fits lo (L ++ (p, n) :: R) hi → 0 ≤ k ≤ n → fits lo (L ++ (p, k) :: R) hi.
Proof.
  intros (mid & HL & (? & ? & HR))%fits_app ?. eapply fits_glue; [done|]. simpl. split; [done|]. split; [lia|].
  eapply fits_weaken; [done|lia..].
Qed.

(** What [malloc] does with the block [p] of [n] units that comes after [prevp]. *)
Definition taken (s : um) (prevp m p n nunits : Z) (R : list (Z * Z)) : um :=
  if n =? nunits then Um (<[prevp := (first R base, m)]> (hd s)) prevp (brk s)
  else let q := p + (n - nunits) in
    Um (<[q := ((default (0, 0) (<[p := (first R base, n - nunits)]> (hd s) !! q)).1, nunits)]>
          (<[p := (first R base, n - nunits)]> (hd s))) prevp (brk s).

Lemma take_writes s L prevp m p n nunits R (Q : Z * Z + Z → um → Prop) : chain s (L ++ (prevp, m) :: (p, n) :: R) base → nunits ≤ n →
  Q (inr (p + (n - nunits) + 1)) (taken s prevp m p n nunits R) → wp (malloc_step max_brk nunits (prevp, p)) s Q.
Proof.
  intros Hc Hn HQ. destruct (chain_at _ _ _ _ _ _ Hc) as [Hpp Hpm].
  destruct (chain_at s (L ++ [(prevp, m)]) p n R base) as [Hptr Hsz]; [by rewrite <- app_assoc|].
  unfold malloc_step. apply wp_bind, wp_gets. change (id s) with s. rewrite Hsz.
  replace (nunits <=? n) with true by (symmetry; apply Z.leb_le; lia). apply wp_bind. unfold taken in HQ.
  destruct (n =? nunits) eqn:E; bool_prop.
  - unfold set_ptr, set_freep. wp_steps. rewrite Hptr, Hpm. simpl. by replace (p + (n - nunits) + 1) with (p + 1) in HQ by lia.
  - unfold set_size, set_freep. wp_steps. change (id ?x) with x. rewrite Hptr. set (s1 := Um _ _ _).
    assert (size_ s1 p = n - nunits) as -> by (unfold s1, size_; by rewrite hd_insert, decide_True). done.
Qed.

Lemma fits_free lo F hi x : fits lo F hi → is_free F x → lo < x < hi.
Proof. intros Hf (a & n & Hin & Hx). destruct (fits_in _ _ _ _ _ Hf Hin) as (? & ? & ?). lia. Qed.

Lemma base_cons L y X R : (base, 0) :: R = L ++ y :: X → ∀ X', ∃ R', L ++ y :: X' = (base, 0) :: R'.
Proof. intros E X'. destruct L as [|b L]; simpl in *; simplify_eq; eauto. Qed.

Lemma taken_chain s L prevp m p n nunits R hi : chain s (L ++ (prevp, m) :: (p, n) :: R) base →
  fits (base - 1) (L ++ (prevp, m) :: (p, n) :: R) hi → 0 < nunits ≤ n →
  let s' := taken s prevp m p n nunits R in
  size_ s' (p + (n - nunits)) = nunits ∧
  chain s' (L ++ (prevp, m) :: if n =? nunits then R else (p, n - nunits) :: R) base.
Proof.
  intros Hc Hf Hn. destruct (fits_split _ _ _ _ _ _ Hf) as (Hm & _ & _ & HL & HR).
  assert (prevp + m < p) as Hpp by (apply HR; left).
  destruct (fits_split (base - 1) (L ++ [(prevp, m)]) p n R hi) as (_ & _ & _ & _ & HR2); [by rewrite <- app_assoc|].
  apply chain_app in Hc as [HcL (Hcp & Hcp2 & HcR)]. simpl in HcL, Hcp. unfold taken. destruct (n =? nunits) eqn:E; bool_prop.
  - set (s' := Um _ _ _). replace (p + (n - nunits)) with p by lia. split.
    { unfold size_, s'. simpl. rewrite lookup_insert_ne, Hcp2 by lia. done. }
    apply chain_app. simpl. split; [|split; [by rewrite lookup_insert_eq|]]; (eapply chain_ext; [|done]); intros a Ha; simpl; apply lookup_insert_ne.
    + specialize (HL a Ha). lia.
    + specialize (HR2 a Ha). lia.
  - set (q := p + (n - nunits)). set (s' := Um _ _ _).
    assert (∀ a, a < p ∨ p + n < a → hd s' !! a = hd s !! a) as Hs'.
    { intros a Ha. unfold s', q. simpl. rewrite !lookup_insert_ne by lia. done. }
    split; [unfold size_, s'; simpl; by rewrite lookup_insert_eq|].
    apply chain_app. simpl. split; [|split; [|split]].
    + eapply chain_ext; [|done]. intros a Ha. apply Hs'. specialize (HL a Ha). lia.
    + rewrite <- Hcp. apply Hs'. lia.
    + unfold q. rewrite lookup_insert_ne, lookup_insert_eq by lia. done.
    + eapply chain_ext; [|done]. intros a Ha. apply Hs'. specialize (HR2 a Ha). lia.
Qed.

Lemma taken_lookup s prevp m p n nunits R x : x ≠ prevp → x ≠ p → x ≠ p + (n - nunits) → hd (taken s prevp m p n nunits R) !! x = hd s !! x.
Proof. intros. unfold taken. destruct (n =? nunits); simpl; by rewrite !lookup_insert_ne. Qed.

(** Taking a block keeps the heap in order. *)
Lemma take_ok s A R L prevp m p n nunits R2 : heap_ok s A R → (base, 0) :: R = L ++ (prevp, m) :: (p, n) :: R2 →
  0 < nunits ≤ n →
  let q := p + (n - nunits) in let s' := taken s prevp m p n nunits R2 in
  untouched A s s' ∧ A !! q = None ∧ ∃ R', heap_ok s' (<[q := nunits]> A) R'.
Proof.
  intros H EF Hn q s'. pose proof H as [Hc Hf Hpos Hfp Hcov Hdis Hdj Hus Hbrk].
  assert (∀ x, is_free R x ↔ is_free (L ++ (prevp, m) :: (p, n) :: R2) x) as HF by (intros x; by rewrite <- EF, is_free_base).
  assert (prevp ∈ ((base, 0) :: R).*1 ∧ p ∈ ((base, 0) :: R).*1) as [Hin1 Hin2].
  { rewrite EF, fmap_app, !elem_of_app. split; right; [left|right; left]. }
  assert (untouched A s s') as Hunt.
  { intros x Hu. apply taken_lookup.
    - intros ->. by apply (listed_not_used _ _ _ _ H Hin1).
    - intros ->. by apply (listed_not_used _ _ _ _ H Hin2).
    - intros ->. apply (Hdis _ Hu), HF, is_free_app. right. rewrite !is_free_cons. right. left. lia. }
  split; [done|]. rewrite EF in Hc, Hf. destruct (taken_chain s L prevp m p n nunits R2 _ Hc Hf Hn) as [Hsz Hc'].
  destruct (base_cons _ _ _ _ EF (if n =? nunits then R2 else (p, n - nunits) :: R2)) as [R' ER].
  assert (fits (base - 1) ((base, 0) :: R') (brk s)) as Hf'.
  { rewrite <- ER. destruct (n =? nunits); [by eapply fits_remove|].
    assert (fits (base - 1) ((L ++ [(prevp, m)]) ++ (p, n) :: R2) (brk s)) as Hf2 by (by rewrite <- app_assoc).
    eapply (fits_shrink _ _ _ _ (n - nunits)) in Hf2; [|lia]. by rewrite <- app_assoc in Hf2. }
  assert (∀ x, is_free R' x ↔ is_free (L ++ (prevp, m) :: if n =? nunits then R2 else (p, n - nunits) :: R2) x) as HF'.
  { intros x. by rewrite ER, is_free_base. }
  assert (freep s' = prevp ∧ brk s' = brk s) as [Efp Ebrk] by (unfold s', taken; by destruct (n =? nunits)).
  assert (A !! q = None ∧ heap_ok s' (<[q := nunits]> A) R') as [? ?]; [|eauto].
  apply (heap_take s A R); try done.
  - by rewrite <- ER.
  - intros a k Hin. assert (base < a) as Hab by (destruct Hf' as (_ & _ & Hf'); destruct (fits_in _ _ _ _ _ Hf' Hin); lia).
    assert ((a, k) ∈ L ++ (prevp, m) :: if n =? nunits then R2 else (p, n - nunits) :: R2) as Hin' by (rewrite ER; by right).
    assert ((a, k) ∈ (base, 0) :: R ∨ 0 < k) as [[[= -> ->]|?]%elem_of_cons|]; [|lia|eauto|done].
    rewrite EF. destruct (n =? nunits) eqn:E; bool_prop; rewrite !elem_of_app, !elem_of_cons in *; naive_solver lia.
  - rewrite Efp. change (base :: R'.*1) with ((base, 0) :: R').*1. rewrite <- ER, fmap_app, elem_of_app. right. left.
  - lia.
  - intros x. rewrite HF, HF', !is_free_app. unfold q. destruct (n =? nunits) eqn:E; bool_prop; rewrite !is_free_cons; intuition lia.
  - intros x Hx Hxq. apply HF' in Hx. change (?a :: ?b) with ([a] ++ b) in Hf, Hx.
    rewrite app_assoc in Hf, Hx. apply fits_app in Hf as (mid & HfL & Hp & _ & HfR). apply is_free_app in Hx as [Hx|Hx].
    + pose proof (fits_free _ _ _ _ HfL Hx). lia.
    + destruct (n =? nunits); [pose proof (fits_free _ _ _ _ HfR Hx); lia|]. apply is_free_cons in Hx as [Hx|Hx]; [lia|].
      pose proof (fits_free _ _ _ _ HfR Hx). lia.
Qed.

(** *** The walk *)

Section malloc.
Context (nunits : Z) (Hunits : 0 < nunits) (Hi32 : nunits * 16 < 2 ^ 31).

(** [malloc] is at the block [p] of [np] units; the one before it is [prevp]
    (but for [base], which is never taken). *)
Definition walk_at (R Lp Rp : list (Z * Z)) (prevp p np : Z) : Prop :=
  (base, 0) :: R = Lp ++ (p, np) :: Rp ∧ (nunits ≤ np → ∃ L m, Lp = L ++ [(prevp, m)]).

(** What [malloc] has done from the state [s0]. *)
Definition malloc_post (A : gmap Z Z) (s0 : um) (r : Z) (s' : um) : Prop :=
  untouched A s0 s' ∧
  ((r = 0 ∧ max_brk < brk s' + Z.max 4096 nunits ∧ ∃ R', heap_ok s' A R') ∨
   (A !! (r - 1) = None ∧ ∃ R', heap_ok s' (<[r - 1 := nunits]> A) R')).

Lemma walk_take s0 s A R Lp Rp prevp p np : heap_ok s A R → untouched A s0 s → walk_at R Lp Rp prevp p np → nunits ≤ np →
  wp (malloc_step max_brk nunits (prevp, p)) s (λ r s', ∃ b, r = inr b ∧ malloc_post A s0 b s').
Proof.
  intros H Hu [EF Hprev] Hn. destruct (Hprev Hn) as (L & m & ->). rewrite <- app_assoc in EF. simpl in EF.
  pose proof (ok_chain _ _ _ _ _ _ H) as Hc. rewrite EF in Hc. eapply take_writes; [done..|]. eexists. split; [done|].
  destruct (take_ok s A R L prevp m p np nunits Rp H EF) as (Hu' & Hn' & Hh); [lia|].
  split; [intros x Hx; by rewrite Hu', Hu|]. right. replace (p + (np - nunits) + 1 - 1) with (p + (np - nunits)) by lia. done.
Qed.

Lemma walk_size s A R Lp Rp prevp p np : heap_ok s A R → walk_at R Lp Rp prevp p np → ptr s p = first Rp base ∧ size_ s p = np.
Proof. intros H [EF _]. pose proof (ok_chain _ _ _ _ _ _ H) as Hc. rewrite EF in Hc. by apply chain_at in Hc. Qed.

(** The place after [p], and how much less there is to walk to [freep]. *)
Lemma walk_next s A R Lp Rp prevp p np : heap_ok s A R → walk_at R Lp Rp prevp p np → p ≠ freep s →
  let F := (base, 0) :: R in let t := freep s + 1 in
  ∃ Lq Rq nq, walk_at R Lq Rq p (first Rp base) nq ∧ (way F t (first Rp base) Rq < way F t p Rp)%nat.
Proof.
  intros H [EF _] Hne F t. pose proof (ok_fits _ _ _ _ _ _ H) as Hf. pose proof (ok_freep _ _ _ _ _ _ H) as Hfp.
  change (base :: R.*1) with ((base, 0) :: R).*1 in Hfp.
  assert (base < t) as Ht.
  { unfold t. apply list_elem_of_fmap in Hfp as ([a k] & Ea & Hin). destruct (fits_in _ _ _ _ _ Hf Hin). simpl in Ea. lia. }
  destruct (way_step F _ _ base t Lp p np Rp EF Hf eq_refl Ht) as [[Hp Hn]|Hs].
  - exfalso. apply Hne. rewrite EF in Hf, Hfp. destruct (fits_split _ _ _ _ _ _ Hf) as (_ & _ & _ & HL & HR).
    rewrite fmap_app, elem_of_app in Hfp. destruct Hfp as [Ha|[Ha|Ha]%elem_of_cons]; [specialize (HL _ Ha); unfold t in *; lia|done|].
    destruct Hn as [->|Hn]; [by apply not_elem_of_nil in Ha|]. destruct Rp as [|[q k] Rp]; [by apply not_elem_of_nil in Ha|]. simpl in *.
    apply elem_of_cons in Ha as [Ha|Ha]; [unfold t in *; lia|].
    assert (q < freep s); [|unfold t in *; lia]. change (?a :: ?b) with ([a] ++ b) in Hf at 1. rewrite app_assoc in Hf.
    destruct (fits_split _ _ _ _ _ _ Hf) as (? & _ & _ & _ & HRq). specialize (HRq _ Ha). lia.
  - destruct Rp as [|[q k] Rp]; simpl.
    + destruct Hs as (k & F' & EF' & Hs). injection EF' as <- <-. exists [], R, 0. split; [|done]. split; [done|]. lia.
    + exists (Lp ++ [(p, np)]), Rp, k. split; [|done]. split; [by rewrite <- app_assoc|]. eauto.
Qed.

(** With a block that is large enough at [freep] the walk finds one. *)
Lemma walk_big s0 s A R : heap_ok s A R → untouched A s0 s → ∀ fuel Lp Rp prevp p np, walk_at R Lp Rp prevp p np →
  nunits ≤ np ∨ nunits ≤ size_ s (freep s) → (way ((base, 0%Z) :: R) (freep s + 1)%Z p Rp < fuel)%nat →
  wp (while_ fuel (malloc_step max_brk nunits) (prevp, p)) s (malloc_post A s0).
Proof.
  intros H Hu. induction fuel as [|fuel IH]; intros Lp Rp prevp p np Hw Hbig Hlt; [lia|]. cbn [while_]. apply wp_bind.
  destruct (walk_size _ _ _ _ _ _ _ _ H Hw) as [Hptr Hsz]. destruct (Z.le_gt_cases nunits np) as [Hn|Hn].
  { eapply wp_mono; [by eapply walk_take|]. intros r s' (b & -> & Hb). by apply wp_ret. }
  destruct Hbig as [|Hbig]; [lia|]. assert (p ≠ freep s) as Hne by (intros ->; lia).
  unfold malloc_step at 1. apply wp_bind, wp_gets. change (id s) with s. rewrite Hsz, Hptr.
  replace (nunits <=? np) with false by (symmetry; apply Z.leb_gt; lia). replace (p =? freep s) with false by (symmetry; by apply Z.eqb_neq).
  apply wp_ret. destruct (walk_next _ _ _ _ _ _ _ _ H Hw Hne) as (Lq & Rq & nq & Hq & Hless).
  apply (IH Lq Rq p (first Rp base) nq); [done|by right|lia].
Qed.

Lemma heap_length s A R : heap_ok s A R → (length ((base, 0%Z) :: R) ≤ size (hd s))%nat.
Proof. intros H. eapply chain_length; apply H. Qed.

(** After [morecore] the walk starts after [freep], with the new block there. *)
Lemma walk_after s0 s A R fuel : heap_ok s A R → untouched A s0 s → big_at_freep s R nunits →
  (2 * length R + 3 < fuel)%nat → wp (while_ fuel (malloc_step max_brk nunits) (freep s, ptr s (freep s))) s (malloc_post A s0).
Proof.
  intros H Hu (L & m & T & EF & Hbig) Hf.
  pose proof (ok_chain _ _ _ _ _ _ H) as Hc. rewrite EF in Hc. apply chain_at in Hc as [Hptr Hsz]. rewrite Hptr.
  destruct T as [|[q k] T]; simpl first.
  - apply (walk_big s0 s A R H Hu fuel [] R (freep s) base 0).
    + split; [done|]. lia.
    + right. destruct Hbig as [|(? & ? & ? & ? & _)]; [lia|done].
    + pose proof (way_le ((base, 0%Z) :: R) (freep s + 1) [] base 0 R eq_refl) as Hw. simpl in Hw. lia.
  - assert ((base, 0) :: R = (L ++ [(freep s, m)]) ++ (q, k) :: T) as EF2 by (by rewrite <- app_assoc).
    apply (walk_big s0 s A R H Hu fuel (L ++ [(freep s, m)]) T (freep s) q k).
    + split; [done|eauto].
    + destruct Hbig as [?|(? & ? & ? & [= <- <- <-] & ?)]; [right; lia|by left].
    + pose proof (way_le ((base, 0%Z) :: R) (freep s + 1) _ q k T EF2) as Hw. simpl in Hw. lia.
Qed.

Lemma walk_all s0 s A R : heap_ok s A R → untouched A s0 s → ∀ fuel Lp Rp prevp p np, walk_at R Lp Rp prevp p np →
  (way ((base, 0%Z) :: R) (freep s + 1)%Z p Rp + 2 * length R + 6 < fuel)%nat →
  wp (while_ fuel (malloc_step max_brk nunits) (prevp, p)) s (malloc_post A s0).
Proof.
  intros H Hu. induction fuel as [|fuel IH]; intros Lp Rp prevp p np Hw Hlt; [lia|]. cbn [while_]. apply wp_bind.
  destruct (walk_size _ _ _ _ _ _ _ _ H Hw) as [Hptr Hsz]. destruct (Z.le_gt_cases nunits np) as [Hn|Hn].
  { eapply wp_mono; [by eapply walk_take|]. intros r s' (b & -> & Hb). by apply wp_ret. }
  unfold malloc_step at 1. apply wp_bind, wp_gets. change (id s) with s. rewrite Hsz, Hptr.
  replace (nunits <=? np) with false by (symmetry; apply Z.leb_gt; lia). destruct (p =? freep s) eqn:E; bool_prop.
  - apply wp_bind. eapply wp_mono; [by apply (morecore_ok s A R nunits H)|].
    intros r s' [(-> & -> & Hfull)|(-> & Hne & R' & H' & Hu' & Hlen & Hbig)].
    + apply wp_ret, wp_ret. split; [done|]. left. eauto.
    + replace (freep s' =? 0) with false by (symmetry; by apply Z.eqb_neq). apply wp_bind, wp_gets, wp_ret.
      apply walk_after with (R := R'); [done|intros x Hx; by rewrite Hu', Hu|done|lia].
  - apply wp_ret. destruct (walk_next _ _ _ _ _ _ _ _ H Hw E) as (Lq & Rq & nq & Hq & Hless).
    apply (IH Lq Rq p (first Rp base) nq); [done|lia].
Qed.
End malloc.

(** The header count of the first [malloc]. *)
Definition fresh (s : um) : um := Um (<[base := (base, 0)]> (hd s)) base (brk s).

Lemma heap_fresh s : brk s = heap → heap ≤ max_brk → heap_ok (fresh s) ∅ [].
Proof.
  intros Hb Hm. split; simpl; try done.
  - by rewrite lookup_insert_eq.
  - lia.
  - by intros a n ?%not_elem_of_nil.
  - left.
  - intros x. rewrite Hb. split; [lia|]. intros [(a & n & Ha & _)|Hf]; [by rewrite lookup_empty in Ha|by apply is_free_nil in Hf].
  - intros x _. apply is_free_nil.
  - lia.
Qed.

Lemma malloc_from s0 s A R nunits : heap_ok s A R → untouched A s0 s → 0 < nunits → nunits * 16 < 2 ^ 31 →
  wp (while_ (walk_fuel s) (malloc_step max_brk nunits) (freep s, ptr s (freep s))) s (malloc_post nunits A s0).
Proof.
  intros H Hu Hn Hi. pose proof (heap_length _ _ _ H) as Hl. pose proof (ok_freep _ _ _ _ _ _ H) as Hfp.
  change (base :: R.*1) with ((base, 0) :: R).*1 in Hfp.
  apply list_elem_of_fmap in Hfp as ([f m] & Ef & (L & T & EF)%list_elem_of_split). simpl in Ef. subst f.
  pose proof (ok_chain _ _ _ _ _ _ H) as Hc. rewrite EF in Hc. apply chain_at in Hc as [Hptr Hsz]. rewrite Hptr.
  simpl in Hl. destruct T as [|[q k] T]; simpl first.
  - apply (walk_all nunits Hn Hi s0 s A R H Hu _ [] R (freep s) base 0); [split; [done|lia]|].
    pose proof (way_le ((base, 0%Z) :: R) (freep s + 1) [] base 0 R eq_refl) as Hw. simpl in Hw. unfold walk_fuel. lia.
  - assert ((base, 0) :: R = (L ++ [(freep s, m)]) ++ (q, k) :: T) as EF2 by (by rewrite <- app_assoc).
    apply (walk_all nunits Hn Hi s0 s A R H Hu _ (L ++ [(freep s, m)]) T (freep s) q k); [split; [done|eauto]|].
    pose proof (way_le ((base, 0%Z) :: R) (freep s + 1) _ q k T EF2) as Hw. simpl in Hw. unfold walk_fuel. lia.
Qed.
End walk.

(** A request near 4 GB makes the [int] argument of [sbrk] wrap around: the
    program gets a block of 2^28 units of which the kernel gave one. *)
Lemma malloc_wraps_around :
  ∃ p s', malloc 10 10000 4294967295 (Um ∅ 0 20) = Ok (p, s') ∧ p ≠ 0 ∧ size_ s' (p - 1) = 2 ^ 28 + 1 ∧ brk s' = 21.
Proof. eexists _, _. split; [vm_compute; reflexivity|]. done. Qed.

(** ** Properties *)

(** C32: [malloc] of fewer than 2^31 - 32 bytes, under a limit of 2 GB on the heap,
    returns; it changes nothing in the blocks in use; it answers 0 only when
    the kernel has no more memory for it, and else a new block, apart from all
    others and inside the heap, that is large enough; and the heap is again
    exactly the blocks in use and the free ones. *)
Theorem malloc_allocates base heap max_brk s A nbytes : 0 < base < heap → max_brk < 2 ^ 27 →
  alloc_ok base heap max_brk s A → 0 ≤ nbytes < 2 ^ 31 - 32 →
  let n := (nbytes + 15) / 16 + 1 in
  wp (malloc base max_brk nbytes) s (λ r s', untouched A s s' ∧
    ((r = 0 ∧ max_brk < brk s' + Z.max 4096 n ∧ alloc_ok base heap max_brk s' A) ∨
     (A !! (r - 1) = None ∧ heap ≤ r - 1 ∧ nbytes ≤ 16 * (n - 1) ∧ alloc_ok base heap max_brk s' (<[r - 1 := n]> A)))).
Proof.
  intros Hbase Hmax Hok Hn n. assert (0 < n ∧ n * 16 < 2 ^ 31 ∧ nbytes ≤ 16 * (n - 1)) as (Hn0 & Hn1 & Hn2) by (unfold n; div_lia).
  assert (∃ s1 R, heap_ok base heap max_brk s1 A R ∧ untouched A s s1 ∧
    ∀ Q, wp (while_ (walk_fuel s1) (malloc_step max_brk n) (freep s1, ptr s1 (freep s1))) s1 Q → wp (malloc base max_brk nbytes) s Q)
    as (s1 & R & H & Hu & Hwp).
  { assert (u32 ((nbytes + UNIT - 1) / UNIT + 1) = n) as En by (unfold UNIT, n; rewrite u32_small; [by replace (nbytes + 16 - 1) with (nbytes + 15) by lia|div_lia]).
    unfold malloc. rewrite En. destruct Hok as [(Hf & -> & Hb & Hm)|[R H]].
    - exists (fresh base s), []. split; [by apply heap_fresh|]. split; [intros x (a & k & Ha & _); by rewrite lookup_empty in Ha|].
      intros Q HQ. apply wp_bind, wp_gets. change (id s) with s. rewrite Hf. apply wp_bind. unfold set_ptr, set_freep, set_size.
      change (0 =? 0) with true. cbv iota. wp_steps. change (id ?x) with x.
      assert (∀ y, Um (<[base := (ptr (Um (<[base := (base, y)]> (hd s)) base (brk s)) base, 0)]> (<[base := (base, y)]> (hd s))) base (brk s) = fresh base s) as E.
      { intros y. unfold fresh, ptr. simpl. by rewrite lookup_insert_eq, insert_insert_eq. }
      simpl. rewrite E. exact HQ.
    - exists s, R. split; [done|]. split; [done|]. intros Q HQ. apply wp_bind, wp_gets. change (id s) with s.
      pose proof (heap_freep base max_brk heap Hbase _ _ _ H) as Hf%Z.eqb_neq. rewrite Hf. by wp_steps. }
  apply Hwp. eapply wp_mono; [by apply (malloc_from base max_brk heap Hbase Hmax s s1 A R n)|].
  intros r s' [Hu' [(-> & Hfull & R' & H')|(Hnone & R' & H')]]; (split; [done|]); [left|right].
  - split; [done|]. split; [done|]. right. eauto.
  - split; [done|]. split; [|split; [done|right; eauto]].
    destruct (ok_used _ _ _ _ _ _ H' (r - 1) n) as [Hn' _]; [by rewrite lookup_insert_eq|].
    apply (ok_cover _ _ _ _ _ _ H'). left. apply (used_at _ _ n); [by rewrite lookup_insert_eq|done].
Qed.

Lemma malloc_allocates_witness :
  ∃ s', malloc 10 10000 100 (Um ∅ 0 20) = Ok (4109, s') ∧ alloc_ok 10 20 10000 s' {[4108 := 8]}.
Proof.
  assert (alloc_ok 10 20 10000 (Um ∅ 0 20) ∅) as Hok by (left; split; [reflexivity|split; [reflexivity|split; [reflexivity|lia]]]).
  pose proof (malloc_allocates 10 20 10000 (Um ∅ 0 20) ∅ 100 ltac:(lia) ltac:(lia) Hok ltac:(lia)) as H.
  apply wp_ok in H as (r & s' & E & _ & H). assert (r = 4109) as Er.
  { assert (match malloc 10 10000 100 (Um ∅ 0 20) with Ok (r, _) => r =? 4109 | _ => false end = true) as E2 by (vm_compute; reflexivity).
    rewrite E in E2. by apply Z.eqb_eq in E2. }
  subst r. exists s'. split; [exact E|]. destruct H as [[H _]|(_ & _ & _ & H)]; [lia|exact H].
Defined.

(** [free] of a block in use returns, changes nothing in the other blocks
    in use, and makes the block free memory again: the heap is exactly the
    remaining blocks and the free ones, so that no memory is lost. *)
Theorem free_releases base heap max_brk s A p n : 0 < base < heap → max_brk < 2 ^ 27 →
  alloc_ok base heap max_brk s A → A !! (p - 1) = Some n →
  wp (free p) s (λ _ s', untouched (delete (p - 1) A) s s' ∧ alloc_ok base heap max_brk s' (delete (p - 1) A)).
Proof.
  intros Hbase Hmax [(_ & -> & _)|[R H]] Hp; [by rewrite lookup_empty in Hp|].
  replace p with (p - 1 + 1) at 1 by lia. eapply wp_mono; [by apply (free_ok base max_brk heap Hbase Hmax s A R (p - 1) n)|].
  intros _ s' (R' & H' & Hu & _). split; [done|]. right. eauto.
Qed.

Lemma free_releases_witness :
  let s := Um (<[20 := (0, 8)]> (<[10 := (10, 0)]> ∅)) 10 28 in
  alloc_ok 10 20 10000 s {[20 := 8]} ∧ wp (free 21) s (λ _ s', alloc_ok 10 20 10000 s' ∅).
Proof.
  intros s. assert (alloc_ok 10 20 10000 s {[20 := 8]}) as Hok.
  { right. exists []. assert (heap_ok 10 20 10000 (fresh 10 (Um ∅ 0 20)) ∅ []) as H0 by (apply heap_fresh; [lia|reflexivity|lia]).
    destruct (heap_grow 10 10000 20 ltac:(lia) _ _ _ 8 H0) as (_ & H1 & _); [lia|simpl; lia|]. exact H1. }
  split; [exact Hok|].
  pose proof (free_releases 10 20 10000 s {[20 := 8]} 21 8 ltac:(lia) ltac:(lia) Hok ltac:(reflexivity)) as H.
  eapply wp_mono; [exact H|]. cbv beta. intros _ s' [_ H']. rewrite (delete_singleton_eq (21 - 1) 8) in H'. exact H'.
Defined.
