(* ===== verification/Ring.v ===== *)
(** Ring buffers: an array of [N] bytes with counters that only go up, modulo
    [W], as the console and the UART driver have them. *)
From S2P Require Import Prelude.

(** ** Definitions *)

(** [n] bytes from index [r] on. *)
Definition items (N : Z) (d : list Z) (r n : Z) : list Z :=
  (λ j, default 0 (d !! Z.to_nat ((r + j) mod N))) <$> seqZ 0 n.

(** ** Lemmas *)

Section ring.
Context (N : Z) (HN : 0 < N).
Notation items := (items N).

Lemma length_items d r n : 0 ≤ n → Z.of_nat (length (items d r n)) = n.
Proof. intros. unfold items. rewrite length_fmap, length_seqZ. lia. Qed.

Lemma items_0 d r : items d r 0 = [].
Proof. done. Qed.

Lemma items_nil_iff d r n : 0 ≤ n → items d r n = [] ↔ n = 0.
Proof. intros Hn. split; [|by intros ->]. intros E%(f_equal length). apply (f_equal Z.of_nat) in E. by rewrite length_items in E. Qed.

Lemma items_mod d r r' n : r mod N = r' mod N → items d r n = items d r' n.
Proof.
  intros E. unfold items. apply list_fmap_ext. intros i j _. by rewrite <- (Z.add_mod_idemp_l r), E, Z.add_mod_idemp_l by lia.
Qed.

Lemma items_app d r n m : 0 ≤ n → 0 ≤ m → items d r (n + m) = items d r n ++ items d (r + n) m.
Proof.
  intros. unfold items. rewrite seqZ_app, fmap_app by lia. f_equal. replace (0 + n) with (n + 0) by lia. rewrite <- (fmap_add_seqZ n 0), <- list_fmap_compose.
  apply list_fmap_ext. intros i j _. simpl. by rewrite Z.add_assoc.
Qed.

Lemma items_1 d r : items d r 1 = [default 0 (d !! Z.to_nat (r mod N))].
Proof. unfold items. change (seqZ 0 1) with [0]. simpl. by rewrite Z.add_0_r. Qed.

Lemma items_cons d r n : 0 < n → items d r n = default 0 (d !! Z.to_nat (r mod N)) :: items d (r + 1) (n - 1).
Proof. intros. replace n with (1 + (n - 1)) at 1 by lia. rewrite items_app, items_1 by lia. done. Qed.

Lemma items_last d r n : 0 < n → items d r n = items d r (n - 1) ++ [default 0 (d !! Z.to_nat ((r + (n - 1)) mod N))].
Proof. intros. replace n with ((n - 1) + 1) at 1 by lia. by rewrite items_app, items_1 by lia. Qed.

(** A byte stored behind [n < N] bytes. *)
Lemma items_store d r n w c : Z.of_nat (length d) = N → 0 ≤ n < N → w mod N = (r + n) mod N →
  items (<[Z.to_nat (w mod N) := c]> d) r (n + 1) = items d r n ++ [c].
Proof.
  intros Hd Hn Hw. rewrite items_app, items_1 by lia. rewrite <- Hw.
  pose proof (Z.mod_pos_bound w N HN). rewrite list_lookup_insert_eq by lia. simpl. f_equal.
  unfold items. apply list_fmap_ext. intros i j Hj. apply lookup_seqZ in Hj as [-> Hj]. f_equal.
  apply list_lookup_insert_ne. rewrite Hw. intros E.
  apply Z2Nat.inj in E; [|apply Z.mod_pos_bound; lia..]. rewrite Z.add_0_l in E.
  assert (Z.of_nat i mod N = n mod N) as E2.
  { replace (Z.of_nat i) with ((r + Z.of_nat i) - r) by lia. replace n with ((r + n) - r) by lia.
    by rewrite Zminus_mod, <- E, <- Zminus_mod. }
  rewrite !Z.mod_small in E2 by lia. lia.
Qed.
End ring.

(** Counters modulo a multiple [W] of the size. *)
Lemma counter_mod N W x : (N | W) → (x mod W) mod N = x mod N.
Proof. apply Z.mod_mod_divide. Qed.
