(* ===== verification/Console.v ===== *)
(** kernel/console.c: the line discipline of the console, against a machine
    of two queues, the lines that are complete and the one being edited. *)
From S2P Require Import Prelude Ring.

(** ** Definitions *)

Definition INPUT_BUF_SIZE : Z := 128.
Definition BACKSPACE : Z := 256.
(** [C(x)], for the letter x. *)
Definition ctrl (x : Z) : Z := x - 64.
Definition CTRL_P : Z := ctrl 80.
Definition CTRL_U : Z := ctrl 85.
Definition CTRL_H : Z := ctrl 72.
Definition CTRL_D : Z := ctrl 68.
Definition DELETE : Z := 127.
Definition NEWLINE : Z := 10.
Definition RETURN : Z := 13.

(** [cons], with what the console has sent to the UART and how often it has
    woken its readers. *)
Record cons_st := Cons { c_buf : list Z; c_r : Z; c_w : Z; c_e : Z; c_lock : bool; c_out : list Z; c_woken : nat }.

Definition cons_acquire : M cons_st unit := λ s,
  if c_lock s then Panic "acquire" else Ok (tt, Cons (c_buf s) (c_r s) (c_w s) (c_e s) true (c_out s) (c_woken s)).
Definition cons_release : M cons_st unit := λ s,
  if c_lock s then Ok (tt, Cons (c_buf s) (c_r s) (c_w s) (c_e s) false (c_out s) (c_woken s)) else Panic "release".
Definition set_r (r : Z) : M cons_st unit := modify (λ s, Cons (c_buf s) r (c_w s) (c_e s) (c_lock s) (c_out s) (c_woken s)).
Definition set_e (e : Z) : M cons_st unit := modify (λ s, Cons (c_buf s) (c_r s) (c_w s) e (c_lock s) (c_out s) (c_woken s)).
Definition commit_line : M cons_st unit :=     (* cons.w = cons.e; wakeup(&cons.r) *)
  modify (λ s, Cons (c_buf s) (c_r s) (c_e s) (c_e s) (c_lock s) (c_out s) (S (c_woken s))).
Definition store_char (c : Z) : M cons_st unit :=     (* cons.buf[cons.e++ % INPUT_BUF_SIZE] = c *)
  modify (λ s, Cons (<[Z.to_nat (c_e s mod INPUT_BUF_SIZE) := u8 c]> (c_buf s)) (c_r s) (c_w s) (u32 (c_e s + 1)) (c_lock s) (c_out s) (c_woken s)).
Definition buf_at (s : cons_st) (i : Z) : Z := default 0 (c_buf s !! Z.to_nat (i mod INPUT_BUF_SIZE)).

(** What [consputc] sends. *)
Definition put_chars (c : Z) : list Z := if c =? BACKSPACE then [8; 32; 8] else [u8 c].
Definition consputc (c : Z) : M cons_st unit :=
  modify (λ s, Cons (c_buf s) (c_r s) (c_w s) (c_e s) (c_lock s) (c_out s ++ put_chars c) (c_woken s)).

(** The loop of control-U. *)
Definition kill_step (_ : unit) : M cons_st (unit + unit) :=
  s ← gets id;
  if negb (c_e s =? c_w s) && negb (buf_at s (u32 (c_e s - 1)) =? NEWLINE) then
    set_e (u32 (c_e s - 1));;
    consputc BACKSPACE;;
    mret (inl tt)
  else mret (inr tt).

(** [consoleintr]; control-P prints the processes and leaves the console as it is. *)
Definition consoleintr (c : Z) : M cons_st unit :=
  cons_acquire;;
  (if c =? CTRL_P then mret tt
   else if c =? CTRL_U then while_ (S (Z.to_nat INPUT_BUF_SIZE)) kill_step tt
   else if (c =? CTRL_H) || (c =? DELETE) then
     s ← gets id;
     if negb (c_e s =? c_w s) then
       set_e (u32 (c_e s - 1));;
       consputc BACKSPACE
     else mret tt
   else
     s ← gets id;
     if negb (c =? 0) && (u32 (c_e s - c_r s) <? INPUT_BUF_SIZE) then
       let c := if c =? RETURN then NEWLINE else c in
       consputc c;;
       store_char c;;
       s ← gets id;
       if (c =? NEWLINE) || (c =? CTRL_D) || (u32 (c_e s - c_r s) =? INPUT_BUF_SIZE) then commit_line
       else mret tt
     else mret tt);;
  cons_release.

(** How a turn of [consoleread] ends: with a result, or asleep with [n] bytes
    to go; and the bytes it copied out. *)
Inductive cturn := CDone (r : Z) (bytes : list Z) | CSleep (n : Z) (bytes : list Z).

(** The loop of [consoleread]: [store a] tells whether [either_copyout] of a
    byte to [a] works. *)
Definition read_step (store : Z → bool) (killed : bool) (target : Z) (st : Z * Z * list Z) :
    M cons_st (Z * Z * list Z + cturn) :=
  let '(n, dst, bytes) := st in
  if negb (n >? 0) then cons_release;; mret (inr (CDone (target - n) bytes))
  else
    s ← gets id;
    if c_r s =? c_w s then
      if killed then cons_release;; mret (inr (CDone (-1) bytes))
      else cons_release;; mret (inr (CSleep n bytes))
    else
      let c := buf_at s (c_r s) in
      set_r (u32 (c_r s + 1));;
      if c =? CTRL_D then
        (if n <? target then s ← gets id; set_r (u32 (c_r s - 1)) else mret tt);;
        cons_release;; mret (inr (CDone (target - n) bytes))
      else if negb (store dst) then cons_release;; mret (inr (CDone (target - n) bytes))
      else
        let n := n - 1 in
        if c =? NEWLINE then cons_release;; mret (inr (CDone (target - n) (bytes ++ [c])))
        else mret (inl (n, dst + 1, bytes ++ [c])).

(** A turn of [consoleread]: from its call ([n = target]), or from the sleep it
    was woken from. *)
Definition consoleread (store : Z → bool) (killed : bool) (target n dst : Z) : M cons_st cturn :=
  cons_acquire;;
  while_ (S (Z.to_nat n)) (read_step store killed target) (n, dst, []).

(** [consoleinit]: the globals are zero. *)
Definition consoleinit : cons_st := Cons (replicate (Z.to_nat INPUT_BUF_SIZE) 0) 0 0 0 false [] 0.

(** *** A machine of two queues *)

Record tty := Tty { ready : list Z; editing : list Z }.

(** What a key does, the characters it echoes, and whether it wakes the readers. *)
Definition type_key (c : Z) (t : tty) : tty * list Z * nat :=
  let held := Z.of_nat (length (ready t) + length (editing t)) in
  if c =? CTRL_P then (t, [], O)
  else if c =? CTRL_U then (Tty (ready t) [], mjoin (replicate (length (editing t)) [8; 32; 8]), O)
  else if (c =? CTRL_H) || (c =? DELETE) then
    match editing t with
    | [] => (t, [], O)
    | _ => (Tty (ready t) (removelast (editing t)), [8; 32; 8], O)
    end
  else if negb (c =? 0) && (held <? INPUT_BUF_SIZE) then
    let c := if c =? RETURN then NEWLINE else c in
    let line := editing t ++ [c] in
    if (c =? NEWLINE) || (c =? CTRL_D) || (held + 1 =? INPUT_BUF_SIZE)
    then (Tty (ready t ++ line) [], [u8 c], 1%nat)
    else (Tty (ready t) line, [u8 c], O)
  else (t, [], O).

(** A read of the bytes that are ready: up to a newline, to the end of the
    file, to a bad address, or to [n] bytes. *)
Fixpoint read_line (store : Z → bool) (killed : bool) (target n dst : Z) (r bytes : list Z) : cturn * list Z :=
  if negb (n >? 0) then (CDone (target - n) bytes, r)
  else
    match r with
    | [] => (if killed then CDone (-1) bytes else CSleep n bytes, [])
    | c :: r' =>
        if c =? CTRL_D then (CDone (target - n) bytes, if n <? target then r else r')
        else if negb (store dst) then (CDone (target - n) bytes, r')
        else if c =? NEWLINE then (CDone (target - (n - 1)) (bytes ++ [c]), r')
        else read_line store killed target (n - 1) (dst + 1) r' (bytes ++ [c])
    end.

(** *** What the console is asked to do, and what it answers *)

Inductive cop :=
| Key (c : Z)
| Read (store : Z → bool) (killed : bool) (target n dst : Z).
Inductive canswer :=
| Echo (chars : list Z) (wakeups : nat)
| Turn (t : cturn).

Fixpoint run_console (ops : list cop) (s : cons_st) : option (list canswer) :=
  match ops with
  | [] => Some []
  | Key c :: ops' =>
      match consoleintr c s with
      | Ok (_, s') => cons (Echo (drop (length (c_out s)) (c_out s')) (c_woken s' - c_woken s)) <$> run_console ops' s'
      | _ => None
      end
  | Read store killed target n dst :: ops' =>
      match consoleread store killed target n dst s with
      | Ok (t, s') => cons (Turn t) <$> run_console ops' s'
      | _ => None
      end
  end.
Fixpoint run_tty (ops : list cop) (t : tty) : list canswer :=
  match ops with
  | [] => []
  | Key c :: ops' => let '(t', echo, w) := type_key c t in Echo echo w :: run_tty ops' t'
  | Read store killed target n dst :: ops' =>
      let '(r, rest) := read_line store killed target n dst (ready t) [] in Turn r :: run_tty ops' (Tty rest (editing t))
  end.

(** ** Lemmas *)

Local Notation N := INPUT_BUF_SIZE.
Local Notation items := (items N).

(** The console holds the two queues of [t]; [l] is its lock. *)
Definition holds (l : bool) (s : cons_st) (t : tty) : Prop :=
  c_lock s = l ∧ Z.of_nat (length (c_buf s)) = N ∧ 0 ≤ c_r s < 2 ^ 32 ∧
  ∃ nr ne, 0 ≤ nr ∧ 0 ≤ ne ∧ nr + ne ≤ N ∧ c_w s = u32 (c_r s + nr) ∧ c_e s = u32 (c_w s + ne) ∧
    ready t = items (c_buf s) (c_r s) nr ∧ editing t = items (c_buf s) (c_w s) ne ∧ Forall (λ c, c ≠ NEWLINE) (editing t).

Lemma u32_mod_N x : u32 x mod N = x mod N.
Proof. apply counter_mod. by exists (2 ^ 25). Qed.

Lemma N_pos : 0 < N.
Proof. done. Qed.

(** The counters tell how long the queues are. *)
Lemma holds_counts l s t : holds l s t →
  c_e s = u32 (c_r s + Z.of_nat (length (ready t) + length (editing t))) ∧
  u32 (c_e s - c_r s) = Z.of_nat (length (ready t) + length (editing t)) ∧
  (c_e s = c_w s ↔ editing t = []) ∧ (c_r s = c_w s ↔ ready t = []) ∧
  Z.of_nat (length (ready t) + length (editing t)) ≤ N.
Proof.
  intros (_ & _ & Hr & nr & ne & Hnr & Hne & Hn & Ew & Ee & -> & -> & _).
  rewrite Nat2Z.inj_add, !length_items by done. rewrite !(items_nil_iff N) by done. unfold N in *.
  rewrite Ee, Ew. unfold u32. split; [div_lia|]. split; [div_lia|]. split; [split; intros; div_lia|]. split; [split; intros; div_lia|lia].
Qed.

Lemma removelast_snoc {A} (l : list A) x : removelast (l ++ [x]) = l.
Proof. apply removelast_last. Qed.

(** The last character of the line, and the line without it. *)
Lemma holds_last s t : holds true s t → editing t ≠ [] → ∃ l c, editing t = l ++ [c] ∧
  buf_at s (u32 (c_e s - 1)) = c ∧
  ∀ o k, holds true (Cons (c_buf s) (c_r s) (c_w s) (u32 (c_e s - 1)) true o k) (Tty (ready t) l).
Proof.
  intros (Hl & Hb & Hr & nr & ne & Hnr & Hne & Hn & Ew & Ee & Er & Ed & Hnl) Hne0.
  assert (0 < ne) as Hpos by (destruct (decide (ne = 0)) as [->|]; [by rewrite Ed in Hne0|lia]).
  rewrite Ed in Hnl |- *. rewrite (items_last N) in Hnl |- * by done. eexists _, _. split; [done|]. split.
  - unfold buf_at. rewrite u32_mod_N. do 3 f_equal. rewrite Ee. unfold u32, N. div_lia.
  - intros o k. split; [done|]. split; [done|]. split; [done|]. exists nr, (ne - 1). simpl.
    do 2 (split; [lia|]). split; [lia|]. split; [done|]. split; [rewrite Ee; unfold u32; div_lia|].
    split; [done|]. split; [done|]. by apply Forall_app in Hnl as [? _].
Qed.

(** A character typed. *)
Lemma holds_store s t c : holds true s t → 0 ≤ c < 256 → Z.of_nat (length (ready t) + length (editing t)) < N →
  let b := <[Z.to_nat (c_e s mod N) := u8 c]> (c_buf s) in let e := u32 (c_e s + 1) in
  (c ≠ NEWLINE → ∀ o k, holds true (Cons b (c_r s) (c_w s) e true o k) (Tty (ready t) (editing t ++ [c]))) ∧
  (∀ o k, holds true (Cons b (c_r s) e e true o k) (Tty (ready t ++ editing t ++ [c]) [])) ∧
  u32 (e - c_r s) = Z.of_nat (length (ready t) + length (editing t)) + 1.
Proof.
  intros (Hl & Hb & Hr & nr & ne & Hnr & Hne & Hn & Ew & Ee & Er & Ed & Hnl) Hc Hlt b e.
  assert (nr + ne < N) as Hlt' by (rewrite Er, Ed, Nat2Z.inj_add, !length_items in Hlt by done; lia).
  assert (u8 c = c) as Eu by (apply u8_small; lia). pose proof N_pos as HN.
  assert (c_e s mod N = (c_w s + ne) mod N) as Em1 by (by rewrite Ee, u32_mod_N).
  assert (c_e s mod N = (c_r s + (nr + ne)) mod N) as Em2.
  { rewrite Em1, Ew, <- Z.add_mod_idemp_l, u32_mod_N, Z.add_mod_idemp_l by done. f_equal. lia. }
  assert (items b (c_w s) (ne + 1) = editing t ++ [c]) as E1 by (rewrite Ed; unfold b; rewrite Eu; by apply items_store; [done|done|lia|]).
  assert (items b (c_r s) (nr + ne + 1) = ready t ++ editing t ++ [c]) as E2.
  { unfold b. rewrite Eu, items_store by (done || lia). rewrite items_app by lia. rewrite Er, Ed, <- app_assoc. do 2 f_equal.
    apply items_mod; [done|]. by rewrite Ew, u32_mod_N. }
  split; [|split].
  - intros Hcn o k. split; [done|]. split; [by unfold b; simpl; rewrite length_insert|]. split; [done|]. exists nr, (ne + 1). simpl.
    split; [done|]. split; [lia|]. split; [lia|]. split; [done|]. split; [unfold e; rewrite Ee; unfold u32; div_lia|].
    split; [|split; [by rewrite E1|by apply Forall_app_2; auto]].
    assert (items b (c_r s) (nr + ne + 1) = items b (c_r s) nr ++ items b (c_r s + nr) (ne + 1)) as E3.
    { rewrite <- items_app by lia. f_equal. lia. }
    rewrite E2 in E3. apply app_inj_1 in E3 as [-> _]; [done|]. apply Nat2Z.inj. rewrite Er, !length_items by lia. done.
  - intros o k. split; [done|]. split; [by unfold b; simpl; rewrite length_insert|]. split; [done|]. exists (nr + ne + 1), 0. simpl.
    split; [lia|]. split; [done|]. split; [lia|].
    split; [unfold e; rewrite Ee, Ew; unfold u32; div_lia|]. split; [unfold e, u32; div_lia|]. by rewrite E2.
  - unfold e. rewrite Er, Ed, Nat2Z.inj_add, !length_items by done. rewrite Ee, Ew. unfold u32, N in *. div_lia.
Qed.

(** A byte read. *)
Lemma holds_read s t c r' : holds true s t → ready t = c :: r' → buf_at s (c_r s) = c ∧
  ∀ o k, holds true (Cons (c_buf s) (u32 (c_r s + 1)) (c_w s) (c_e s) true o k) (Tty r' (editing t)).
Proof.
  intros (Hl & Hb & Hr & nr & ne & Hnr & Hne & Hn & Ew & Ee & Er & Ed & Hnl) E. pose proof N_pos as HN.
  assert (0 < nr) as Hpos by (destruct (decide (nr = 0)) as [->|]; [by rewrite E in Er|lia]).
  rewrite items_cons, E in Er by done. injection Er as -> ->. split; [done|]. intros o k.
  split; [done|]. split; [done|]. split; [apply u32_range|]. exists (nr - 1), ne. simpl.
  split; [lia|]. split; [done|]. split; [lia|]. split; [rewrite Ew; unfold u32; div_lia|]. split; [done|].
  split; [|done]. apply items_mod; [done|]. by rewrite u32_mod_N.
Qed.

(** *** Keys *)

Lemma kill_loop s t fuel : holds true s t → (length (editing t) < fuel)%nat →
  wp (while_ fuel kill_step tt) s (λ _ s', holds true s' (Tty (ready t) []) ∧
    c_out s' = c_out s ++ mjoin (replicate (length (editing t)) [8; 32; 8]) ∧ c_woken s' = c_woken s).
Proof.
  revert s t. induction fuel as [|fuel IH]; intros s t H Hf; [lia|]. cbn [while_]. apply wp_bind. unfold kill_step at 1.
  apply wp_bind, wp_gets. change (id s) with s. destruct (holds_counts _ _ _ H) as (_ & _ & Hew & _).
  destruct (decide (editing t = [])) as [E|E].
  - apply Hew in E as E'. rewrite E', Z.eqb_refl. cbn [negb andb]. apply wp_ret, wp_ret. rewrite E, app_nil_r. split; [|done].
    destruct t as [r e]; simpl in *. by subst.
  - assert (c_e s ≠ c_w s) as Hne%Z.eqb_neq by (by intros ?%Hew). rewrite Hne.
    destruct (holds_last s t H E) as (l & c & El & Ec & Hl).
    assert (c ≠ NEWLINE) as Hc%Z.eqb_neq.
    { destruct H as (_ & _ & _ & ? & ? & _ & _ & _ & _ & _ & _ & _ & Hnl). rewrite El in Hnl. apply Forall_app in Hnl as [_ Hnl].
      by apply Forall_cons in Hnl as [? _]. }
    rewrite Ec, Hc. cbn [negb andb]. unfold set_e, consputc. wp_steps. simpl.
    eapply wp_mono; [apply (IH _ (Tty (ready t) l)); [rewrite (proj1 H); apply Hl|rewrite El, length_app in Hf; simpl in *; lia]|].
    intros _ s' (H' & Ho & Hw). simpl in *. split; [done|]. split; [|done].
    rewrite Ho, El, length_app. simpl. rewrite Nat.add_1_r. simpl. by rewrite <- app_assoc.
Qed.

Lemma holds_lock l l' s t : holds l s t → holds l' (Cons (c_buf s) (c_r s) (c_w s) (c_e s) l' (c_out s) (c_woken s)) t.
Proof. intros (_ & H). split; [done|]. exact H. Qed.

Lemma wp_cons_acquire s (Q : unit → cons_st → Prop) : c_lock s = false →
  Q tt (Cons (c_buf s) (c_r s) (c_w s) (c_e s) true (c_out s) (c_woken s)) → wp cons_acquire s Q.
Proof. unfold wp, cons_acquire. by intros ->. Qed.
Lemma wp_cons_release s (Q : unit → cons_st → Prop) : c_lock s = true →
  Q tt (Cons (c_buf s) (c_r s) (c_w s) (c_e s) false (c_out s) (c_woken s)) → wp cons_release s Q.
Proof. unfold wp, cons_release. by intros ->. Qed.

Lemma consoleintr_ok s t c : holds false s t → 0 ≤ c < 256 →
  wp (consoleintr c) s (λ _ s', let '(t', echo, w) := type_key c t in
    holds false s' t' ∧ c_out s' = c_out s ++ echo ∧ c_woken s' = (c_woken s + w)%nat).
Proof.
  intros H Hc. unfold consoleintr. apply wp_bind, wp_cons_acquire; [apply H|]. apply (holds_lock false true) in H.
  set (s1 := Cons _ _ _ _ true _ _) in *. change (c_out s) with (c_out s1). change (c_woken s) with (c_woken s1). clearbody s1. clear s.
  apply wp_bind. eapply wp_mono with (P := λ _ s', let '(t', echo, w) := type_key c t in
    holds true s' t' ∧ c_out s' = c_out s1 ++ echo ∧ c_woken s' = (c_woken s1 + w)%nat).
  2: { intros _ s'. destruct (type_key c t) as [[t' echo] w]. intros (H' & Ho & Hw). apply wp_cons_release; [apply H'|].
       split; [by eapply holds_lock|done]. }
  unfold type_key. destruct (c =? CTRL_P); [apply wp_ret; by rewrite app_nil_r, Nat.add_0_r|].
  destruct (holds_counts _ _ _ H) as (Ee & Elen & Hew & _ & Hle).
  destruct (c =? CTRL_U).
  { eapply wp_mono; [apply (kill_loop s1 t); [done|]|].
    - unfold INPUT_BUF_SIZE in *. lia.
    - intros _ s' (? & ? & ->). by rewrite Nat.add_0_r. }
  destruct ((c =? CTRL_H) || (c =? DELETE)).
  { apply wp_bind, wp_gets. change (id s1) with s1. destruct (editing t) as [|x l] eqn:El.
    - rewrite (proj2 Hew eq_refl), Z.eqb_refl. apply wp_ret. by rewrite app_nil_r, Nat.add_0_r.
    - assert (c_e s1 ≠ c_w s1) as Hne%Z.eqb_neq by (intros E; by apply Hew in E). rewrite Hne. cbn [negb].
      destruct (holds_last s1 t H) as (l' & y & El' & _ & Hl); [by rewrite El|]. rewrite El in El'.
      unfold set_e, consputc. wp_steps. simpl. rewrite Nat.add_0_r. split; [|done].
      change (match l with [] => [] | _ :: _ => x :: removelast l end) with (removelast (x :: l)). rewrite El', removelast_snoc, (proj1 H). apply Hl. }
  apply wp_bind, wp_gets. change (id s1) with s1. rewrite Elen.
  destruct (negb (c =? 0) && (Z.of_nat (length (ready t) + length (editing t)) <? N)) eqn:Ec; [|apply wp_ret; by rewrite app_nil_r, Nat.add_0_r].
  apply andb_true_iff in Ec as [_ Hlt%Z.ltb_lt]. set (c' := if c =? RETURN then NEWLINE else c).
  assert (0 ≤ c' < 256) as Hc' by (unfold c'; destruct (c =? RETURN); unfold NEWLINE; lia).
  destruct (holds_store s1 t c' H Hc' Hlt) as (Hs1 & Hs2 & Hs3). unfold consputc, store_char. wp_steps. change (id ?x) with x. simpl.
  assert (put_chars c' = [u8 c']) as Ep.
  { unfold put_chars, BACKSPACE. by replace (c' =? 256) with false by (symmetry; apply Z.eqb_neq; lia). }
  rewrite Hs3, Ep. destruct ((c' =? NEWLINE) || (c' =? CTRL_D) || _) eqn:Ed.
  - unfold commit_line. apply wp_modify. simpl. split; [rewrite (proj1 H); apply Hs2|]. split; [done|lia].
  - apply wp_ret. simpl. rewrite Nat.add_0_r. split; [|done]. rewrite (proj1 H). apply Hs1.
    intros E. rewrite E in Ed. done.
Qed.

(** *** Reads *)

Lemma read_loop store killed target s t fuel n dst bytes : holds true s t → (Z.to_nat n < fuel)%nat →
  wp (while_ fuel (read_step store killed target) (n, dst, bytes)) s (λ r s',
    r = (read_line store killed target n dst (ready t) bytes).1 ∧
    holds false s' (Tty (read_line store killed target n dst (ready t) bytes).2 (editing t)) ∧
    c_out s' = c_out s ∧ c_woken s' = c_woken s).
Proof.
  revert s t n dst bytes. induction fuel as [|fuel IH]; intros s t n dst bytes H Hf; [lia|]. cbn [while_]. apply wp_bind.
  destruct t as [rd ed]. cbn [ready editing] in *.
  assert (c_lock s = true) as Hl by apply H. unfold read_step at 1.
  destruct (negb (n >? 0)) eqn:En.
  { apply wp_bind, wp_cons_release; [done|]. wp_steps. destruct rd; simpl; rewrite En; simpl;
      (split; [done|]); (split; [|done]); exact (holds_lock true false s _ H). }
  apply wp_bind, wp_gets. change (id s) with s. destruct (holds_counts _ _ _ H) as (_ & _ & _ & Hrw & _).
  cbn [ready] in Hrw. destruct rd as [|c r'].
  { rewrite (proj2 Hrw eq_refl), Z.eqb_refl. simpl. rewrite En. simpl.
    destruct killed; (apply wp_bind, wp_cons_release; [done|]); wp_steps; (split; [done|]); (split; [|done]); exact (holds_lock true false s _ H). }
  assert (c_r s ≠ c_w s) as Hne%Z.eqb_neq by (by intros ?%Hrw). rewrite Hne.
  destruct (holds_read s _ c r' H eq_refl) as [Ec Hr]. cbn [editing] in Hr. rewrite Ec. simpl read_line. rewrite En.
  unfold set_r at 1. apply wp_bind, wp_modify. destruct (c =? CTRL_D) eqn:Ed.
  { simpl. destruct (n <? target).
    - unfold set_r. wp_steps. change (id ?x) with x. simpl.
      assert (u32 (u32 (c_r s + 1) - 1) = c_r s) as -> by (destruct H as (_ & _ & ? & _); unfold u32; div_lia).
      apply wp_cons_release; [done|]. wp_steps. split; [done|]. split; [|done]. exact (holds_lock true false s _ H).
    - wp_steps. apply wp_cons_release; [done|]. wp_steps. split; [done|]. split; [|done]. exact (holds_lock true false _ _ (Hr (c_out s) (c_woken s))). }
  destruct (negb (store dst)).
  { apply wp_bind, wp_cons_release; [done|]. wp_steps. split; [done|]. split; [|done]. exact (holds_lock true false _ _ (Hr (c_out s) (c_woken s))). }
  destruct (c =? NEWLINE).
  { apply wp_bind, wp_cons_release; [done|]. wp_steps. split; [done|]. split; [|done]. exact (holds_lock true false _ _ (Hr (c_out s) (c_woken s))). }
  apply wp_ret. rewrite Hl. apply negb_false_iff in En. apply Z.gtb_lt in En.
  eapply wp_mono; [apply (IH _ (Tty r' ed) (n - 1) (dst + 1) (bytes ++ [c])); [apply Hr|lia]|]. done.
Qed.

Lemma consoleread_ok store killed target n dst s t : holds false s t →
  wp (consoleread store killed target n dst) s (λ r s',
    r = (read_line store killed target n dst (ready t) []).1 ∧
    holds false s' (Tty (read_line store killed target n dst (ready t) []).2 (editing t))).
Proof.
  intros H. unfold consoleread. apply wp_bind, wp_cons_acquire; [apply H|]. apply (holds_lock false true) in H.
  eapply wp_mono; [apply (read_loop _ _ _ _ t); [done|lia]|]. naive_solver.
Qed.

(** ** Property *)

Definition key_ok (o : cop) : Prop := match o with Key c => 0 ≤ c < 256 | Read _ _ _ _ _ => True end.

Lemma run_refines ops : Forall key_ok ops → ∀ s t, holds false s t → run_console ops s = Some (run_tty ops t).
Proof.
  induction 1 as [|[c|store killed target n dst] ops Hk _ IH]; intros s t H; simpl; [done| |].
  - destruct (wp_ok _ _ _ (consoleintr_ok s t c H Hk)) as ([] & s' & -> & Hs).
    destruct (type_key c t) as [[t' echo] w]. destruct Hs as (H' & Ho & Hw). rewrite (IH s' t' H'), Ho, Hw, drop_app_length. simpl.
    do 3 f_equal. lia.
  - destruct (wp_ok _ _ _ (consoleread_ok store killed target n dst s t H)) as (r & s' & -> & -> & H').
    destruct (read_line _ _ _ _ _ _ _) as [r rest]. by rewrite (IH s' _ H').
Qed.

(** C8: The console is a line editor over two queues: whatever keys are typed
    and whatever reads are made, in any order and through the wrap-around of
    its counters, it never panics or loops, and it echoes, wakes its readers
    and answers them exactly as the machine of the two queues does, which
    hands out complete lines as they were edited and nothing of a line before
    it is complete. *)
Theorem console_is_line_editor ops : Forall key_ok ops → run_console ops consoleinit = Some (run_tty ops (Tty [] [])).
Proof.
  intros Hk. apply run_refines; [done|]. split; [done|]. split; [done|]. split; [done|]. exists 0, 0. repeat split; done || lia.
Qed.

(** "ab", backspace, "c", return; then a read of ten bytes gets "ac" and a newline. *)
Lemma console_is_line_editor_witness :
  run_console [Key 97; Key 98; Key 8; Key 99; Key 13; Read (λ _, true) false 10 10 0] consoleinit =
    Some [Echo [97] 0; Echo [98] 0; Echo [8; 32; 8] 0; Echo [99] 0; Echo [10] 1; Turn (CDone 3 [97; 99; 10])].
Proof.
  rewrite console_is_line_editor; [reflexivity|]. repeat constructor; discriminate.
Defined.
