(* ===== verification/Uart.v ===== *)
(** kernel/uart.c: the transmit buffer of the UART driver, against a queue,
    and its interrupt handler. *)
From S2P Require Import Prelude Ring Console.

(** ** Definitions *)

Definition UART_TX_BUF_SIZE : Z := 32.

(** The driver: the transmit buffer with its lock, the wakeups done so far,
    and the input console.  The device: how often its line status has been
    read for the transmitter, the bytes that [uartstart] wrote to THR, and the
    bytes received that wait in RHR. *)
Record uart_st := Uart { u_buf : list Z; u_w : Z; u_r : Z; u_lock : bool; u_woken : nat; u_cons : cons_st;
                         u_polls : nat; u_sent : list Z; u_rx : list Z }.

Definition uart_acquire : M uart_st unit := λ s,
  if u_lock s then Panic "acquire"
  else Ok (tt, Uart (u_buf s) (u_w s) (u_r s) true (u_woken s) (u_cons s) (u_polls s) (u_sent s) (u_rx s)).
Definition uart_release : M uart_st unit := λ s,
  if u_lock s then Ok (tt, Uart (u_buf s) (u_w s) (u_r s) false (u_woken s) (u_cons s) (u_polls s) (u_sent s) (u_rx s))
  else Panic "release".

Section uart.
(** Whether the transmitter is idle at the [n]-th read of the line status. *)
Context (tx_idle : nat → bool).

(** [ReadReg(LSR) & LSR_TX_IDLE]. *)
Definition read_tx_idle : M uart_st bool := λ s,
  Ok (tx_idle (u_polls s), Uart (u_buf s) (u_w s) (u_r s) (u_lock s) (u_woken s) (u_cons s) (S (u_polls s)) (u_sent s) (u_rx s)).
(** [c = uart_tx_buf[uart_tx_r % UART_TX_BUF_SIZE]; uart_tx_r += 1; wakeup(&uart_tx_r); WriteReg(THR, c)]. *)
Definition send_byte : M uart_st unit := modify (λ s,
  Uart (u_buf s) (u_w s) (u64 (u_r s + 1)) (u_lock s) (S (u_woken s)) (u_cons s) (u_polls s)
    (u_sent s ++ [default 0 (u_buf s !! Z.to_nat (u_r s mod UART_TX_BUF_SIZE))]) (u_rx s)).

Definition start_step (_ : unit) : M uart_st (unit + unit) :=
  s ← gets id;
  if u_w s =? u_r s then mret (inr tt)
  else
    i ← read_tx_idle;
    if negb (i : bool) then mret (inr tt) else send_byte;; mret (inl tt).
(** Each turn of the loop empties a place of the buffer. *)
Definition uartstart : M uart_st unit := while_ (S (S (Z.to_nat UART_TX_BUF_SIZE))) start_step tt.

(** A turn of [uartputc], from its call or from the sleep it was woken from;
    false when it goes to sleep on a full buffer.  (After a panic it spins.) *)
Definition uartputc (c : Z) : M uart_st bool :=
  uart_acquire;;
  s ← gets id;
  if u_w s =? u64 (u_r s + UART_TX_BUF_SIZE) then uart_release;; mret false
  else
    modify (λ s, Uart (<[Z.to_nat (u_w s mod UART_TX_BUF_SIZE) := u8 c]> (u_buf s)) (u64 (u_w s + 1)) (u_r s)
                   (u_lock s) (u_woken s) (u_cons s) (u_polls s) (u_sent s) (u_rx s));;
    uartstart;;
    uart_release;;
    mret true.

(** [uartgetc]: the next byte received, or -1. *)
Definition uartgetc : M uart_st Z := λ s,
  match u_rx s with
  | [] => Ok (-1, s)
  | c :: rx => Ok (c, Uart (u_buf s) (u_w s) (u_r s) (u_lock s) (u_woken s) (u_cons s) (u_polls s) (u_sent s) rx)
  end.

Definition put_cons (k : cons_st) (s : uart_st) : uart_st :=
  Uart (u_buf s) (u_w s) (u_r s) (u_lock s) (u_woken s) k (u_polls s) (u_sent s) (u_rx s).
Definition intr_step (_ : unit) : M uart_st (unit + unit) :=
  c ← uartgetc;
  if c =? -1 then mret (inr tt)
  else lift_m u_cons put_cons (consoleintr c);; mret (inl tt).
Definition uartintr : M uart_st unit :=
  s ← gets id;
  while_ (S (length (u_rx s))) intr_step tt;;
  uart_acquire;;
  uartstart;;
  uart_release.

(** The bytes in the buffer, and its limits. *)
Definition tx_queue (s : uart_st) : list Z := items UART_TX_BUF_SIZE (u_buf s) (u_r s) (u64 (u_w s - u_r s)).
Definition tx_ok (s : uart_st) : Prop :=
  u_lock s = false ∧ Z.of_nat (length (u_buf s)) = UART_TX_BUF_SIZE ∧ 0 ≤ u_r s < 2 ^ 64 ∧ 0 ≤ u_w s < 2 ^ 64 ∧
  u64 (u_w s - u_r s) ≤ UART_TX_BUF_SIZE.

(** *** Histories of the driver *)

(** What has been accepted for sending, and what has been given to the console. *)
Record uhist := UHist { h_uart : uart_st; h_put : list Z; h_typed : list Z }.
Definition typed (l : list Z) (k : cons_st) : option cons_st :=
  foldl (λ o c, k ← o; match consoleintr c k with Ok (_, k') => Some k' | _ => None end) (Some k) l.

Inductive ustep (h : uhist) : uhist → Prop :=
| u_put c s' : uartputc c (h_uart h) = Ok (true, s') → ustep h (UHist s' (h_put h ++ [u8 c]) (h_typed h))
| u_wait c s' : uartputc c (h_uart h) = Ok (false, s') → ustep h (UHist s' (h_put h) (h_typed h))
| u_receive l : Forall (λ c, 0 ≤ c < 256) l →      (* bytes arrive *)
    ustep h (UHist (let s := h_uart h in Uart (u_buf s) (u_w s) (u_r s) (u_lock s) (u_woken s) (u_cons s) (u_polls s) (u_sent s) (u_rx s ++ l))
      (h_put h) (h_typed h))
| u_intr s' : uartintr (h_uart h) = Ok (tt, s') → ustep h (UHist s' (h_put h) (h_typed h ++ u_rx (h_uart h))).
End uart.

Definition uart0 : uart_st := Uart (replicate (Z.to_nat UART_TX_BUF_SIZE) 0) 0 0 false 0 consoleinit 0 [] [].

(** ** Lemmas *)

Local Notation TN := UART_TX_BUF_SIZE.

Lemma u64_mod_TN x : u64 x mod TN = x mod TN.
Proof. apply counter_mod. by exists (2 ^ 59). Qed.

Section proofs.
Context (tx_idle : nat → bool).

(** [uartstart] sends from the front of the queue until it is empty or the
    transmitter is busy. *)
Definition started (s s' : uart_st) : Prop :=
  u_lock s' = u_lock s ∧ length (u_buf s') = length (u_buf s) ∧ 0 ≤ u_r s' < 2 ^ 64 ∧ u_w s' = u_w s ∧ u_cons s' = u_cons s ∧ u_rx s' = u_rx s ∧
  u64 (u_w s' - u_r s') ≤ u64 (u_w s - u_r s) ∧
  ∃ l, tx_queue s = l ++ tx_queue s' ∧ u_sent s' = u_sent s ++ l ∧
    (tx_queue s' = [] ∨ ∃ n, (n < u_polls s')%nat ∧ tx_idle n = false) ∧ u_woken s' = (u_woken s + length l)%nat.

Lemma uartstart_ok s : 0 ≤ u_r s < 2 ^ 64 → 0 ≤ u_w s < 2 ^ 64 → u64 (u_w s - u_r s) ≤ TN →
  wp (uartstart tx_idle) s (λ _ s', started s s').
Proof.
  intros Hr Hw Hn. unfold uartstart.
  cut (∀ fuel s, 0 ≤ u_r s < 2 ^ 64 → 0 ≤ u_w s < 2 ^ 64 → u64 (u_w s - u_r s) ≤ TN → (Z.to_nat (u64 (u_w s - u_r s)) < fuel)%nat →
    wp (while_ fuel (start_step tx_idle) tt) s (λ _ s', started s s')).
  { intros Hcut. apply Hcut; try done. unfold TN in *. lia. }
  clear s Hr Hw Hn. induction fuel as [|fuel IH]; intros s Hr Hw Hn Hf; [lia|]. cbn [while_]. apply wp_bind. unfold start_step at 1.
  apply wp_bind, wp_gets. change (id s) with s. destruct (u_w s =? u_r s) eqn:E; bool_prop.
  - apply wp_ret, wp_ret. unfold started. repeat (split; [done|]). exists []. rewrite app_nil_r. repeat (split; [done|]).
    split; [left|simpl; lia]. unfold tx_queue. by rewrite E, Z.sub_diag.
  - assert (0 < u64 (u_w s - u_r s)) as Hpos by (unfold u64; div_lia).
    apply wp_bind. unfold read_tx_idle. unfold wp at 1. destruct (tx_idle (u_polls s)) eqn:Ei; cbn [negb].
    + unfold send_byte. wp_steps. simpl. set (s1 := Uart _ _ _ _ _ _ _ _ _).
      assert (u64 (u_w s1 - u_r s1) = u64 (u_w s - u_r s) - 1) as E1 by (unfold s1; simpl; unfold u64 in *; div_lia).
      eapply wp_mono; [apply IH; [apply u64_range|done|lia|lia]|]. intros _ s' (H1 & H2 & H3 & H4 & H5 & H6 & H7 & l & Hq & Hs & Hend & Hwk).
      split; [done|]. split; [done|]. split; [done|]. split; [done|]. split; [done|]. split; [done|]. split; [lia|].
      exists (default 0 (u_buf s !! Z.to_nat (u_r s mod TN)) :: l).
      split; [|split; [by rewrite Hs; simpl; rewrite <- app_assoc|split; [done|]]].
      * simpl. rewrite <- Hq. unfold tx_queue at 1. rewrite items_cons by done. f_equal. unfold tx_queue. rewrite E1.
        apply items_mod; [done|]. unfold s1. simpl. by rewrite u64_mod_TN.
      * rewrite Hwk. unfold s1. simpl. lia.
    + apply wp_ret, wp_ret. unfold started. simpl. repeat (split; [done|]). exists []. rewrite app_nil_r. repeat (split; [done|]).
      split; [right|simpl; lia]. exists (u_polls s). split; [lia|done].
Qed.

Lemma tx_store s c : Z.of_nat (length (u_buf s)) = TN → 0 ≤ u_r s < 2 ^ 64 → 0 ≤ u_w s < 2 ^ 64 → u64 (u_w s - u_r s) < TN →
  items TN (<[Z.to_nat (u_w s mod TN) := c]> (u_buf s)) (u_r s) (u64 (u_w s - u_r s) + 1) = tx_queue s ++ [c].
Proof.
  intros Hb Hr Hw Hn. unfold tx_queue. apply items_store; [done|done|split; [apply u64_range|done]|].
  replace (u_w s) with (u_r s + (u_w s - u_r s)) at 1 by lia. rewrite <- (Z.add_mod_idemp_r (u_r s) (u64 _)), u64_mod_TN by done.
  by rewrite Z.add_mod_idemp_r.
Qed.

(** [uartputc]: the byte goes to the end of the queue, and the front is sent;
    it sleeps only on a full buffer. *)
Lemma uartputc_ok c s : tx_ok s → wp (uartputc tx_idle c) s (λ b s', tx_ok s' ∧ u_rx s' = u_rx s ∧ u_cons s' = u_cons s ∧
  if b then ∃ l, tx_queue s ++ [u8 c] = l ++ tx_queue s' ∧ u_sent s' = u_sent s ++ l
  else u64 (u_w s - u_r s) = TN ∧ tx_queue s' = tx_queue s ∧ u_sent s' = u_sent s).
Proof.
  intros (Hl & Hb & Hr & Hw & Hn). unfold uartputc. apply wp_bind. unfold wp at 1, uart_acquire. rewrite Hl.
  apply wp_bind, wp_gets. change (id ?x) with x. simpl. destruct (u_w s =? u64 (u_r s + TN)) eqn:E; bool_prop.
  - apply wp_bind. unfold wp at 1, uart_release. simpl. apply wp_ret. split; [exact (conj eq_refl (conj Hb (conj Hr (conj Hw Hn))))|]. split; [done|]. split; [done|]. split; [|done].
    unfold u64, TN in *. div_lia.
  - assert (u64 (u_w s - u_r s) < TN) as Hlt by (unfold u64, TN in *; div_lia).
    apply wp_bind, wp_modify. simpl. set (s1 := Uart _ _ _ _ _ _ _ _ _).
    assert (u64 (u_w s1 - u_r s1) = u64 (u_w s - u_r s) + 1) as E1 by (unfold s1; simpl; unfold u64, TN in *; div_lia).
    apply wp_bind. eapply wp_mono; [apply (uartstart_ok s1); [done|apply u64_range|lia]|].
    intros _ s' (H1 & H2 & H3 & H4 & H5 & H6 & H7 & l & Hq & Hs & _). apply wp_bind. unfold wp at 1, uart_release. rewrite H1. simpl.
    apply wp_ret. simpl. split.
    { assert (u64 (u_w s' - u_r s') ≤ TN) as Hle by lia. rewrite H4 in Hle.
      split; [done|]. simpl. rewrite H2, H4. split; [unfold s1; simpl; by rewrite length_insert|]. split; [done|]. split; [apply u64_range|done]. }
    split; [done|]. split; [done|]. exists l. split; [|done].
    assert (tx_queue s1 = tx_queue s ++ [u8 c]) as E2 by (unfold tx_queue at 1; rewrite E1; unfold s1; simpl; by apply tx_store).
    rewrite <- E2. exact Hq.
Qed.

Lemma typed_app l1 l2 k : typed (l1 ++ l2) k = typed l1 k ≫= typed l2.
Proof.
  unfold typed. rewrite foldl_app. destruct (foldl _ (Some k) l1) as [k'|]; [done|]. simpl. by induction l2.
Qed.

(** The receiving half of the interrupt handler. *)
Lemma intr_loop fuel s t : (length (u_rx s) < fuel)%nat → Forall (λ c, 0 ≤ c < 256) (u_rx s) → holds false (u_cons s) t →
  wp (while_ fuel intr_step tt) s (λ _ s', ∃ k t', s' = Uart (u_buf s) (u_w s) (u_r s) (u_lock s) (u_woken s) k (u_polls s) (u_sent s) [] ∧
    holds false k t' ∧ typed (u_rx s) (u_cons s) = Some k).
Proof.
  revert s t. induction fuel as [|fuel IH]; intros s t Hf Hc H; [lia|]. cbn [while_]. apply wp_bind. unfold intr_step at 1. apply wp_bind.
  unfold wp at 1, uartgetc. destruct (u_rx s) as [|c rx] eqn:E.
  - simpl. apply wp_ret, wp_ret. exists (u_cons s), t. split; [|done]. destruct s; simpl in *. by subst.
  - apply Forall_cons in Hc as [Hc Hcs]. replace (c =? -1) with false by (symmetry; apply Z.eqb_neq; lia).
    apply wp_bind, wp_lift. simpl. destruct (wp_ok _ _ _ (consoleintr_ok _ t c H Hc)) as ([] & k & Ek & Hk). unfold wp at 1. rewrite Ek.
    destruct (type_key c t) as [[t' echo] w]. apply wp_ret.
    eapply wp_mono; [apply (IH _ t'); [simpl in *; lia|done|apply Hk]|]. intros _ s' (k' & t'' & -> & H' & Ht). simpl in *.
    exists k', t''. split; [done|]. split; [done|]. unfold typed in *. simpl. by rewrite Ek.
Qed.

Lemma uartintr_ok s t : tx_ok s → Forall (λ c, 0 ≤ c < 256) (u_rx s) → holds false (u_cons s) t →
  wp (uartintr tx_idle) s (λ _ s', tx_ok s' ∧ u_rx s' = [] ∧ (∃ t', holds false (u_cons s') t') ∧ typed (u_rx s) (u_cons s) = Some (u_cons s') ∧
    ∃ l, tx_queue s = l ++ tx_queue s' ∧ u_sent s' = u_sent s ++ l).
Proof.
  intros (Hl & Hb & Hr & Hw & Hn) Hc H. unfold uartintr. apply wp_bind, wp_gets. change (id s) with s. apply wp_bind.
  eapply wp_mono; [apply (intr_loop _ s t); [lia|done..]|]. intros _ s1 (k & t' & -> & H' & Ht).
  apply wp_bind. unfold wp at 1, uart_acquire. simpl. rewrite Hl. simpl. set (s1 := Uart _ _ _ _ _ _ _ _ _).
  apply wp_bind. eapply wp_mono; [apply (uartstart_ok s1); done|].
  intros _ s' (H1 & H2 & H3 & H4 & H5 & H6 & H7 & l & Hq & Hs & _). unfold wp at 1, uart_release. rewrite H1. simpl.
  split.
  { assert (u64 (u_w s' - u_r s') ≤ TN) as Hle by (etrans; [exact H7|done]). rewrite H4 in Hle.
    split; [done|]. simpl. rewrite H2, H4. by split; [|split; [|split]]. }
  split; [done|]. rewrite H5. split; [by exists t'|]. split; [done|]. exists l. done.
Qed.

(** *** Histories *)

Definition hist_ok (h : uhist) : Prop :=
  tx_ok (h_uart h) ∧ Forall (λ c, 0 ≤ c < 256) (u_rx (h_uart h)) ∧ (∃ t, holds false (u_cons (h_uart h)) t) ∧
  h_put h = u_sent (h_uart h) ++ tx_queue (h_uart h) ∧ typed (h_typed h) consoleinit = Some (u_cons (h_uart h)).

Lemma ustep_ok h h' : ustep tx_idle h h' → hist_ok h → hist_ok h'.
Proof.
  intros Hs (Htx & Hrx & (t & Ht) & Hp & Hty). destruct Hs as [c s' E|c s' E|l Hl|s' E].
  - pose proof (uartputc_ok c _ Htx) as W. unfold wp in W. rewrite E in W. destruct W as (W1 & W2 & W3 & l & W4 & W5).
    unfold hist_ok. simpl. rewrite W2, W3, W5, Hp, <- !app_assoc, W4. eauto 10.
  - pose proof (uartputc_ok c _ Htx) as W. unfold wp in W. rewrite E in W. destruct W as (W1 & W2 & W3 & W4 & W5 & W6).
    unfold hist_ok. simpl. rewrite W2, W3, W5, W6. eauto 10.
  - unfold hist_ok. simpl. split; [done|]. split; [by apply Forall_app_2|]. eauto 10.
  - pose proof (uartintr_ok _ t Htx Hrx Ht) as W. unfold wp in W. rewrite E in W. destruct W as (W1 & W2 & W3 & W4 & l & W5 & W6).
    unfold hist_ok. simpl. rewrite W2, W6, Hp, W5, <- app_assoc, typed_app, Hty. simpl. eauto 10.
Qed.

Lemma histories_ok h : rtc (ustep tx_idle) (UHist uart0 [] []) h → hist_ok h.
Proof.
  apply (rtc_ind_r hist_ok (UHist uart0 [] [])).
  - split; [by repeat split|]. split; [done|]. split; [exists (Tty [] [])|done].
    split; [done|]. split; [done|]. split; [done|]. exists 0, 0. repeat split; done || lia.
  - intros h1 h2 _ Hs H. by eapply ustep_ok.
Qed.
End proofs.

(** ** Property *)

(** C23: The UART driver is a queue in each direction: however its operations
    and interrupts are ordered, and whenever the transmitter is idle, the bytes
    it has sent followed by those in its buffer are those that [uartputc]
    accepted, in order; the buffer holds at most 32; the console has got exactly
    the bytes received so far, in order; and neither [uartputc] nor
    [uartintr] panics or fails to return. *)
Theorem uart_queues tx_idle h : rtc (ustep tx_idle) (UHist uart0 [] []) h →
  h_put h = u_sent (h_uart h) ++ tx_queue (h_uart h) ∧ Z.of_nat (length (tx_queue (h_uart h))) ≤ UART_TX_BUF_SIZE ∧
  typed (h_typed h) consoleinit = Some (u_cons (h_uart h)) ∧
  (∀ c, ∃ b s', uartputc tx_idle c (h_uart h) = Ok (b, s') ∧ (b = false → Z.of_nat (length (tx_queue (h_uart h))) = UART_TX_BUF_SIZE)) ∧
  ∃ s', uartintr tx_idle (h_uart h) = Ok (tt, s').
Proof.
  intros Hr. destruct (histories_ok tx_idle h Hr) as (Htx & Hrx & (t & Ht) & Hp & Hty).
  assert (Z.of_nat (length (tx_queue (h_uart h))) = u64 (u_w (h_uart h) - u_r (h_uart h))) as El by (apply length_items, u64_range).
  split; [done|]. split; [rewrite El; apply Htx|]. split; [done|]. split.
  - intros c. destruct (wp_ok _ _ _ (uartputc_ok tx_idle c _ Htx)) as (b & s' & E & _ & _ & _ & Hb). exists b, s'. split; [done|].
    intros ->. rewrite El. apply Hb.
  - destruct (wp_ok _ _ _ (uartintr_ok tx_idle _ t Htx Hrx Ht)) as ([] & s' & E & _). by exists s'.
Qed.

(** Two bytes are put while the transmitter is busy; the interrupt sends them. *)
Lemma uart_queues_witness : ∃ h, h_put h = [65; 66] ∧ u_sent (h_uart h) = [65; 66] ∧
  h_put h = u_sent (h_uart h) ++ tx_queue (h_uart h).
Proof.
  set (idle := λ n, (1 <? n)%nat). eexists (UHist _ _ _). split; [|split].
  3: { eapply (uart_queues idle). eapply rtc_l; [eapply (u_put idle _ 65); vm_compute; reflexivity|].
       eapply rtc_l; [eapply (u_put idle _ 66); vm_compute; reflexivity|].
       eapply rtc_l; [eapply (u_intr idle); vm_compute; reflexivity|]. apply rtc_refl. }
  - reflexivity.
  - reflexivity.
Defined.
