(* ===== verification/Virtio.v ===== *)
(** kernel/virtio_disk.c: the driver of the disk, with the processes inside
    [virtio_disk_rw], its interrupts and the device. *)
From S2P Require Import Prelude Riscv Bio.

(** ** Definitions *)

(** *** virtio.h *)

Definition NUM : nat := 8.
Definition VRING_DESC_F_NEXT : Z := 1.
Definition VRING_DESC_F_WRITE : Z := 2.
Definition VIRTIO_BLK_T_IN : Z := 0.
Definition VIRTIO_BLK_T_OUT : Z := 1.
(** [sizeof(struct virtio_blk_req)]. *)
Definition REQ_SIZE : Z := 16.

(** What a descriptor points to: a request header [ops[i]], the data of a
    buffer, or the status of a request. *)
Inductive vptr := VNull | VOp (i : nat) | VData (b : nat) | VStatus (i : nat).
Record virtq_desc := VDesc { d_addr : vptr; d_len : Z; d_flags : Z; d_next : nat }.
Record virtio_blk_req := VReq { q_type : Z; q_reserved : Z; q_sector : Z }.

(** *** The state *)

(** [disk.info]: the buffer of a request, and its status. *)
Record vinfo := VInfo { in_b : option nat; in_status : Z }.

(** [struct disk] and the queue memory: the descriptors; the avail ring and its
    [idx]; the used ring and its [idx]; then the driver's own book-keeping.
    [vdisk_lock] is held from the beginning to the end of each turn. *)
Record disk := Disk {
  dk_desc : list virtq_desc;
  dk_ring : list nat; dk_idx : Z;
  dk_done : list nat; dk_done_idx : Z;
  dk_free : list bool; dk_used_idx : Z; dk_info : list vinfo; dk_ops : list virtio_blk_req
}.
Definition set_desc (v : list virtq_desc) (d : disk) : disk :=
  Disk v (dk_ring d) (dk_idx d) (dk_done d) (dk_done_idx d) (dk_free d) (dk_used_idx d) (dk_info d) (dk_ops d).
Definition set_ring (r : list nat) (i : Z) (d : disk) : disk :=
  Disk (dk_desc d) r i (dk_done d) (dk_done_idx d) (dk_free d) (dk_used_idx d) (dk_info d) (dk_ops d).
Definition set_done (r : list nat) (i : Z) (d : disk) : disk :=
  Disk (dk_desc d) (dk_ring d) (dk_idx d) r i (dk_free d) (dk_used_idx d) (dk_info d) (dk_ops d).
Definition set_free (f : list bool) (d : disk) : disk :=
  Disk (dk_desc d) (dk_ring d) (dk_idx d) (dk_done d) (dk_done_idx d) f (dk_used_idx d) (dk_info d) (dk_ops d).
Definition set_used_idx (i : Z) (d : disk) : disk :=
  Disk (dk_desc d) (dk_ring d) (dk_idx d) (dk_done d) (dk_done_idx d) (dk_free d) i (dk_info d) (dk_ops d).
Definition set_info (i : list vinfo) (d : disk) : disk :=
  Disk (dk_desc d) (dk_ring d) (dk_idx d) (dk_done d) (dk_done_idx d) (dk_free d) (dk_used_idx d) i (dk_ops d).
Definition set_ops (o : list virtio_blk_req) (d : disk) : disk :=
  Disk (dk_desc d) (dk_ring d) (dk_idx d) (dk_done d) (dk_done_idx d) (dk_free d) (dk_used_idx d) (dk_info d) o.

(** [struct buf], as far as the driver uses it. *)
Record vbuf := VBuf { v_blockno : Z; v_data : list Z; v_disk : bool }.

(** A process inside [virtio_disk_rw]: its buffer, direction, and its three
    descriptors once it has them.  [c_data] is what the buffer held at the
    call; only the statements use it. *)
Record vcall := VCall { c_buf : nat; c_write : bool; c_idx : option (nat * nat * nat); c_data : list Z }.

(** The driver with the buffers, the processes that wait, and the device: the
    bytes on its medium, the avail index up to which it has looked, and the
    requests it is working on. *)
Record vst := VSt {
  vd : disk; vbufs : list vbuf; vcalls : list vcall;
  medium : Z → Z; v_seen : Z; v_pending : list nat
}.
Definition set_vd (d : disk) (s : vst) : vst := VSt d (vbufs s) (vcalls s) (medium s) (v_seen s) (v_pending s).
Definition set_vbufs (b : list vbuf) (s : vst) : vst := VSt (vd s) b (vcalls s) (medium s) (v_seen s) (v_pending s).
Definition set_vcalls (c : list vcall) (s : vst) : vst := VSt (vd s) (vbufs s) c (medium s) (v_seen s) (v_pending s).

Local Notation V := (M vst).
Definition upd_disk (f : disk → disk) : V unit := modify (λ s, set_vd (f (vd s)) s).
Definition upd_vbuf (b : nat) (f : vbuf → vbuf) : V unit := modify (λ s, set_vbufs (alter f b (vbufs s)) s).
Definition null_desc : virtq_desc := VDesc VNull 0 0 0.
Definition null_vbuf : vbuf := VBuf 0 [] false.
Definition desc_at (i : nat) : V virtq_desc := gets (λ s, default null_desc (dk_desc (vd s) !! i)).
Definition vbuf_at (b : nat) : V vbuf := gets (λ s, default null_vbuf (vbufs s !! b)).
Definition put_desc (i : nat) (d : virtq_desc) : V unit := upd_disk (λ k, set_desc (<[i := d]> (dk_desc k)) k).

(** *** Descriptors *)

Fixpoint first_free (l : list bool) (i : nat) : option nat :=
  match l with
  | [] => None
  | true :: _ => Some i
  | false :: l' => first_free l' (S i)
  end.
Definition alloc_desc : V (option nat) :=
  l ← gets (λ s, dk_free (vd s));
  match first_free l 0 with
  | Some i => upd_disk (λ k, set_free (<[i := false]> (dk_free k)) k);; mret (Some i)
  | None => mret None
  end.

(** [free_desc], whose [wakeup(&disk.free[0])] lets a process that waits for
    descriptors try again. *)
Definition free_desc (i : nat) : V unit :=
  if (NUM <=? i)%nat then panic "free_desc 1"
  else
    l ← gets (λ s, dk_free (vd s));
    if default false (l !! i) then panic "free_desc 2"
    else
      put_desc i null_desc;;
      upd_disk (λ k, set_free (<[i := true]> (dk_free k)) k).

Definition free_chain (i : nat) : V unit :=
  while_ (S NUM)
    (λ i,
      d ← desc_at i;
      free_desc i;;
      if has (d_flags d) VRING_DESC_F_NEXT then mret (inl (d_next d)) else mret (inr tt))
    i.

(** The loop of [alloc3_desc] with [idx] so far: [n] more to get. *)
Fixpoint alloc_descs (n : nat) (idx : list nat) : V (option (list nat)) :=
  match n with
  | O => mret (Some idx)
  | S n' =>
      r ← alloc_desc;
      match r with
      | Some i => alloc_descs n' (idx ++ [i])
      | None => foreach free_desc idx;; mret None
      end
  end.
Definition alloc3_desc : V (option (nat * nat * nat)) :=
  r ← alloc_descs 3 [];
  match r with
  | Some [i0; i1; i2] => mret (Some (i0, i1, i2))
  | _ => mret None
  end.

(** *** [virtio_disk_rw] *)

(** Format the descriptors of a request and give it to the device. *)
Definition submit (b : nat) (write : bool) (i0 i1 i2 : nat) : V unit :=
  bp ← vbuf_at b;
  let sector := u32 (v_blockno bp * (BSIZE / 512)) in
  upd_disk (λ k, set_ops (<[i0 := VReq (if write then VIRTIO_BLK_T_OUT else VIRTIO_BLK_T_IN) 0 sector]> (dk_ops k)) k);;
  put_desc i0 (VDesc (VOp i0) REQ_SIZE VRING_DESC_F_NEXT i1);;
  put_desc i1 (VDesc (VData b) BSIZE (Z.lor (if write then 0 else VRING_DESC_F_WRITE) VRING_DESC_F_NEXT) i2);;
  upd_disk (λ k, set_info (alter (λ x, VInfo (in_b x) 0xff) i0 (dk_info k)) k);;
  put_desc i2 (VDesc (VStatus i0) 1 VRING_DESC_F_WRITE 0);;
  upd_vbuf b (λ bp, VBuf (v_blockno bp) (v_data bp) true);;
  upd_disk (λ k, set_info (alter (λ x, VInfo (Some b) (in_status x)) i0 (dk_info k)) k);;
  upd_disk (λ k, set_ring (<[Z.to_nat (dk_idx k mod Z.of_nat NUM) := i0]> (dk_ring k)) (u16 (dk_idx k + 1)) k).

(** The turn that looks for descriptors: with them, the request is under way and
    the process sleeps on its buffer; without, it sleeps on [disk.free]. *)
Definition rw_start (b : nat) (write : bool) : V (option (nat * nat * nat)) :=
  r ← alloc3_desc;
  match r with
  | Some (i0, i1, i2) => submit b write i0 i1 i2;; mret r
  | None => mret None
  end.

(** The turn after [sleep(b)]: false when it sleeps again. *)
Definition rw_finish (b i0 : nat) : V bool :=
  bp ← vbuf_at b;
  if v_disk bp then mret false
  else
    upd_disk (λ k, set_info (alter (λ x, VInfo None (in_status x)) i0 (dk_info k)) k);;
    free_chain i0;;
    mret true.

(** *** [virtio_disk_intr] *)

Definition virtio_disk_intr : V unit :=
  while_ (S (Z.to_nat (2 ^ 16)))
    (λ _,
      k ← gets vd;
      if dk_used_idx k =? dk_done_idx k then mret (inr tt)
      else
        let id := default O (dk_done k !! Z.to_nat (dk_used_idx k mod Z.of_nat NUM)) in
        let info := default (VInfo None 0) (dk_info k !! id) in
        if negb (in_status info =? 0) then panic "virtio_disk_intr status"
        else
          match in_b info with
          | None => panic "null dereference"
          | Some b =>
              upd_vbuf b (λ bp, VBuf (v_blockno bp) (v_data bp) false);;
              upd_disk (λ k, set_used_idx (u16 (dk_used_idx k + 1)) k);;
              mret (inl tt)
          end)
    tt.

(** The queue and the book-keeping after [virtio_disk_init]. *)
Definition init_disk : disk :=
  Disk (replicate NUM null_desc) (replicate NUM O) 0 (replicate NUM O) 0 (replicate NUM true) 0 (replicate NUM (VInfo None 0))
    (replicate NUM (VReq 0 0 0)).

(** *** The device *)

(** Bytes of the medium. *)
Definition medium_get (m : Z → Z) (off : Z) (n : nat) : list Z := (λ i, m (off + Z.of_nat i)) <$> seq 0 n.
Definition medium_put (m : Z → Z) (off : Z) (d : list Z) : Z → Z :=
  λ a, if (off <=? a) && (a <? off + Z.of_nat (length d)) then default 0 (d !! Z.to_nat (a - off)) else m a.

(** What the specification of virtio says the device does with the queue: it
    takes the next entry of the avail ring... *)
Definition dev_fetches (s s' : vst) : Prop :=
  ∃ h, v_seen s ≠ dk_idx (vd s) ∧ dk_ring (vd s) !! Z.to_nat (v_seen s mod Z.of_nat NUM) = Some h ∧
    s' = VSt (vd s) (vbufs s) (vcalls s) (medium s) (u16 (v_seen s + 1)) (v_pending s ++ [h]).

(** ...and carries out one of the requests it has taken, whose chain is a
    header, the data and a status byte: it copies from or to the medium, at
    512 bytes a sector, sets the status to 0 and adds the head of the chain to
    the used ring.  (The medium does not fail.) *)
Definition dev_completes (s s' : vst) : Prop :=
  let k := vd s in
  ∃ l1 h l2 d0 d1 d2 i q b bp j bufs' m',
    v_pending s = l1 ++ h :: l2 ∧
    dk_desc k !! h = Some d0 ∧ has (d_flags d0) VRING_DESC_F_NEXT = true ∧
    dk_desc k !! d_next d0 = Some d1 ∧ has (d_flags d1) VRING_DESC_F_NEXT = true ∧
    dk_desc k !! d_next d1 = Some d2 ∧
    d_addr d0 = VOp i ∧ dk_ops k !! i = Some q ∧ d_addr d1 = VData b ∧ vbufs s !! b = Some bp ∧ d_addr d2 = VStatus j ∧
    (q_type q = VIRTIO_BLK_T_OUT ∧ has (d_flags d1) VRING_DESC_F_WRITE = false ∧
       bufs' = vbufs s ∧ m' = medium_put (medium s) (q_sector q * 512) (take (Z.to_nat (d_len d1)) (v_data bp)) ∨
     q_type q = VIRTIO_BLK_T_IN ∧ has (d_flags d1) VRING_DESC_F_WRITE = true ∧
       bufs' = <[b := VBuf (v_blockno bp) (medium_get (medium s) (q_sector q * 512) (Z.to_nat (d_len d1))) (v_disk bp)]> (vbufs s) ∧
       m' = medium s) ∧
    s' = VSt (set_done (<[Z.to_nat (dk_done_idx k mod Z.of_nat NUM) := h]> (dk_done k)) (u16 (dk_done_idx k + 1))
               (set_info (alter (λ x, VInfo (in_b x) 0) j (dk_info k)) k))
             bufs' (vcalls s) m' (v_seen s) (l1 ++ l2).

(** The device is not part of the program: all that is known is that each of its
    steps is one that the specification allows. *)
Class BlockDevice := {
  dev_step : vst → vst → Prop;
  dev_step_ok s s' : dev_step s s' → dev_fetches s s' ∨ dev_completes s s'
}.

(** *** Turns *)

Section turns.
Context `{BD : BlockDevice}.

(** [b] is not in use by a call, nor is its block. *)
Definition not_in_use (s : vst) (b : nat) (blockno : Z) : Prop :=
  ∀ c bp, c ∈ vcalls s → vbufs s !! c_buf c = Some bp → c_buf c ≠ b ∧ v_blockno bp ≠ blockno.

(** The kernel calls [virtio_disk_rw] with a locked buffer, and the buffer cache
    has one buffer per block; it changes buffers that no call uses. *)
Inductive vstep s : vst → Prop :=
| v_enter b write bp : vbufs s !! b = Some bp → not_in_use s b (v_blockno bp) →
    vstep s (set_vcalls (vcalls s ++ [VCall b write None (v_data bp)]) s)
| v_start j c r s' : vcalls s !! j = Some c → c_idx c = None → rw_start (c_buf c) (c_write c) s = Ok (r, s') →
    vstep s (set_vcalls (<[j := VCall (c_buf c) (c_write c) r (c_data c)]> (vcalls s')) s')
| v_finish j c i0 i1 i2 s' : vcalls s !! j = Some c → c_idx c = Some (i0, i1, i2) → rw_finish (c_buf c) i0 s = Ok (true, s') →
    vstep s (set_vcalls (delete j (vcalls s')) s')
| v_intr s' : virtio_disk_intr s = Ok (tt, s') → vstep s s'
| v_dev s' : dev_step s s' → vstep s s'
| v_touch b bp bp' : vbufs s !! b = Some bp → (∀ c, c ∈ vcalls s → c_buf c ≠ b) → not_in_use s b (v_blockno bp') →
    length (v_data bp') = Z.to_nat BSIZE → 0 ≤ v_blockno bp' < 2 ^ 31 → v_disk bp' = v_disk bp → vstep s (set_vbufs (<[b := bp']> (vbufs s)) s).

Definition vready (s : vst) : Prop :=
  vd s = init_disk ∧ vcalls s = [] ∧ v_seen s = 0 ∧ v_pending s = [] ∧
  Forall (λ bp, v_disk bp = false ∧ length (v_data bp) = Z.to_nat BSIZE ∧ 0 ≤ v_blockno bp < 2 ^ 31) (vbufs s).
Definition vreachable (s : vst) : Prop := ∃ s0, vready s0 ∧ rtc vstep s0 s.
End turns.
