(* ===== verification/VirtioProps.v ===== *)
(** The driver of the disk: its invariant, and that a transfer does what it
    should. *)
From S2P Require Import Prelude Riscv Bio Virtio.

(** ** Definitions *)

(** *** The invariant *)

(** The descriptors of a call, and of all calls. *)
Definition idxs (c : vcall) : list nat := match c_idx c with Some (i0, i1, i2) => [i0; i1; i2] | None => [] end.
Definition taken (calls : list vcall) : list nat := calls ≫= idxs.

(** The block of the medium that a buffer is for, and a buffer that is equal to
    it. *)
Definition block_of (m : Z → Z) (n : Z) : list Z := medium_get m (n * BSIZE) (Z.to_nat BSIZE).
Definition agrees (s : vst) (bp : vbuf) : Prop := v_data bp = block_of (medium s) (v_blockno bp).

(** The chain of a request, as the device reads it. *)
Record formatted (k : disk) (b : nat) (write : bool) (blockno : Z) (h i1 i2 : nat) : Prop := {
  fm_head : dk_desc k !! h = Some (VDesc (VOp h) REQ_SIZE VRING_DESC_F_NEXT i1);
  fm_data : dk_desc k !! i1 = Some (VDesc (VData b) BSIZE (Z.lor (if write then 0 else VRING_DESC_F_WRITE) VRING_DESC_F_NEXT) i2);
  fm_status : dk_desc k !! i2 = Some (VDesc (VStatus h) 1 VRING_DESC_F_WRITE 0);
  fm_op : dk_ops k !! h = Some (VReq (if write then VIRTIO_BLK_T_OUT else VIRTIO_BLK_T_IN) 0 (u32 (blockno * (BSIZE / 512))))
}.

(** [q] is in the ring from index [from] up to index [to]. *)
Record ring_holds (ring : list nat) (from : Z) (q : list nat) (to : Z) : Prop := {
  rh_size : length ring = NUM;
  rh_from : 0 ≤ from < 2 ^ 16;
  rh_to : to = u16 (from + Z.of_nat (length q));
  rh_fits : (length q ≤ NUM)%nat;
  rh_at k x : q !! k = Some x → ring !! Z.to_nat ((from + Z.of_nat k) mod Z.of_nat NUM) = Some x
}.

(** A call: waiting for descriptors; or with a request that the device has not
    done, one that it has done, or one whose interrupt has come.  [aq] and [uq]
    are what is in the rings. *)
Definition call_ok (s : vst) (aq uq : list nat) (c : vcall) : Prop :=
  ∃ bp, vbufs s !! c_buf c = Some bp ∧ (c_write c = true → v_data bp = c_data c) ∧
    match c_idx c with
    | None => v_disk bp = false
    | Some (h, i1, i2) =>
        formatted (vd s) (c_buf c) (c_write c) (v_blockno bp) h i1 i2 ∧
        (v_disk bp = true ↔ h ∈ aq ++ v_pending s ++ uq) ∧
        (h ∉ aq → h ∉ v_pending s → agrees s bp) ∧
        ∃ st, dk_info (vd s) !! h = Some (VInfo (Some (c_buf c)) st) ∧ (h ∈ uq → st = 0)
    end.

Record vinv (s : vst) (calls : list vcall) (aq uq : list nat) : Prop := {
  iv_calls : vcalls s ≡ₚ calls;
  iv_sizes : length (dk_desc (vd s)) = NUM ∧ length (dk_info (vd s)) = NUM ∧ length (dk_ops (vd s)) = NUM ∧ length (dk_free (vd s)) = NUM;
  iv_free i : (i < NUM)%nat → dk_free (vd s) !! i = Some (bool_decide (i ∉ taken calls));
  iv_taken : NoDup (taken calls) ∧ Forall (λ i, (i < NUM)%nat) (taken calls);
  iv_call c : c ∈ calls → call_ok s aq uq c;
  iv_bufs : NoDup (c_buf <$> calls);
  iv_blocks c c' bp bp' : c ∈ calls → c' ∈ calls → c_buf c ≠ c_buf c' →
    vbufs s !! c_buf c = Some bp → vbufs s !! c_buf c' = Some bp' → v_blockno bp ≠ v_blockno bp';
  iv_heads h : h ∈ aq ++ v_pending s ++ uq → ∃ c i1 i2, c ∈ calls ∧ c_idx c = Some (h, i1, i2);
  iv_queue : NoDup (aq ++ v_pending s ++ uq);
  iv_avail : ring_holds (dk_ring (vd s)) (v_seen s) aq (dk_idx (vd s));
  iv_used : ring_holds (dk_done (vd s)) (dk_used_idx (vd s)) uq (dk_done_idx (vd s));
  iv_idle b bp : vbufs s !! b = Some bp → length (v_data bp) = Z.to_nat BSIZE ∧ (b ∉ c_buf <$> calls → v_disk bp = false);
  iv_range b bp : vbufs s !! b = Some bp → 0 ≤ v_blockno bp < 2 ^ 31
}.

(** ** Lemmas *)

#[local] Arguments taken : simpl never.
#[local] Arguments block_of : simpl never.

(** *** The rings *)

Lemma u16_mod z : u16 z mod Z.of_nat NUM = z mod Z.of_nat NUM.
Proof. unfold u16. symmetry. apply Znumtheory.Zmod_div_mod; [done|done|]. by exists (2 ^ 13). Qed.
Lemma ring_slot z : (Z.to_nat (z mod Z.of_nat NUM) < NUM)%nat.
Proof. pose proof (Z.mod_pos_bound z (Z.of_nat NUM) ltac:(done)). unfold NUM in *. lia. Qed.

Lemma ring_push r f q t x : ring_holds r f q t → (length q < NUM)%nat →
  ring_holds (<[Z.to_nat (t mod Z.of_nat NUM) := x]> r) f (q ++ [x]) (u16 (t + 1)).
Proof.
  intros [Hs Hf -> Hl Ha] Hq. split.
  - by rewrite length_insert.
  - done.
  - rewrite length_app. simpl. unfold u16. rewrite Zplus_mod_idemp_l. f_equal. lia.
  - rewrite length_app. simpl. lia.
  - intros k y Hk. rewrite u16_mod. destruct (decide (k < length q)%nat) as [Hlt|Hge].
    + rewrite lookup_app_l in Hk by done. rewrite list_lookup_insert_ne; [by apply Ha|]. intros E.
      apply Z2Nat.inj in E; [|apply Z.mod_pos_bound; done..]. unfold NUM in *. div_lia.
    + rewrite lookup_app_r in Hk by lia. destruct (k - length q)%nat as [|n] eqn:En; [|done]. simpl in Hk. injection Hk as <-.
      assert (k = length q) as -> by lia. apply list_lookup_insert_eq. rewrite Hs. apply ring_slot.
Qed.

Lemma ring_pop r f x q t : ring_holds r f (x :: q) t →
  f ≠ t ∧ r !! Z.to_nat (f mod Z.of_nat NUM) = Some x ∧ ring_holds r (u16 (f + 1)) q t.
Proof.
  intros [Hs Hf -> Hl Ha]. simpl length in *. split; [|split].
  - unfold u16, NUM in *. intros E. rewrite E in Hf at 1. rewrite E in Hf. div_lia.
  - rewrite <- (Ha O x eq_refl). do 2 f_equal. by rewrite Z.add_0_r.
  - split; [done|unfold u16; apply Z.mod_pos_bound; done| |lia|].
    + unfold u16. rewrite Zplus_mod_idemp_l. f_equal. lia.
    + intros k y Hk. rewrite <- (Ha (S k) y Hk). f_equal. f_equal. unfold u16, NUM. div_lia.
Qed.

Lemma ring_nil r f q : ring_holds r f q f → q = [].
Proof. intros [Hs Hf Ht Hl _]. destruct q; [done|]. simpl in *. unfold u16, NUM in *. exfalso. div_lia. Qed.

(** *** Descriptors *)

Lemma first_free_spec l i : match first_free l i with
  | Some k => ∃ j, k = (i + j)%nat ∧ l !! j = Some true
  | None => ∀ j, l !! j ≠ Some true
  end.
Proof.
  revert i. induction l as [|[] l IH]; intros i; simpl; [done|by exists O; split; [lia|]|].
  specialize (IH (S i)). destruct (first_free l (S i)) as [k|].
  - destruct IH as (j & -> & Hj). exists (S j). split; [lia|done].
  - intros [|j]; [done|]. apply IH.
Qed.

(** The state [s] with other descriptors and free flags. *)
Definition with_descs (d : list virtq_desc) (f : list bool) (s : vst) : vst := set_vd (set_desc d (set_free f (vd s))) s.
Lemma with_descs_id s : with_descs (dk_desc (vd s)) (dk_free (vd s)) s = s.
Proof. by destruct s as [[]]. Qed.

(** [idx] has been taken from what was free in [s0]. *)
Definition marked (s0 : vst) (idx : list nat) (s : vst) : Prop :=
  ∃ f, s = with_descs (dk_desc (vd s0)) f s0 ∧ NoDup idx ∧ (∀ i, i ∈ idx → dk_free (vd s0) !! i = Some true) ∧
    ∀ i, f !! i = if decide (i ∈ idx) then Some false else dk_free (vd s0) !! i.
(** The same flags as in [s0]; the descriptors in use are the same. *)
Definition restored (s0 s : vst) : Prop :=
  ∃ d, s = with_descs d (dk_free (vd s0)) s0 ∧ length d = length (dk_desc (vd s0)) ∧
    ∀ i, dk_free (vd s0) !! i ≠ Some true → d !! i = dk_desc (vd s0) !! i.

Lemma free_desc_spec i d f s : (i < NUM)%nat → f !! i = Some false →
  wp (free_desc i) (with_descs d f s) (λ _ s', s' = with_descs (<[i := null_desc]> d) (<[i := true]> f) s).
Proof. intros Hi Hf. unfold free_desc. rewrite (proj2 (Nat.leb_gt _ _) Hi). wp_steps. simpl. rewrite Hf. simpl. by wp_steps. Qed.

Lemma give_back s0 idx s : length (dk_free (vd s0)) = NUM → marked s0 idx s → wp (foreach free_desc idx) s (λ _ s', restored s0 s').
Proof.
  intros Hlen (f0 & -> & Hnd & Hfree & Hf0).
  apply (wp_foreach (λ l1 s, ∃ d f l2, idx = l1 ++ l2 ∧ s = with_descs d f s0 ∧ length d = length (dk_desc (vd s0)) ∧
    (∀ i, i ∉ idx → d !! i = dk_desc (vd s0) !! i) ∧ ∀ i, f !! i = if decide (i ∈ l2) then Some false else dk_free (vd s0) !! i)).
  - exists (dk_desc (vd s0)), f0, idx. done.
  - intros l1 x l2' s' E (d & f & l2 & E2 & -> & Hd & Hdo & Hf). assert (l2 = x :: l2') as -> by (rewrite E in E2; by simplify_list_eq).
    assert (x ∈ idx) as Hx by (rewrite E; set_solver).
    eapply wp_mono; [apply free_desc_spec|].
    + rewrite <- Hlen. eapply lookup_lt_Some. by apply Hfree.
    + rewrite Hf, decide_True by set_solver. done.
    + intros _ s' ->. exists (<[x := null_desc]> d), (<[x := true]> f), l2'. split; [by rewrite <- app_assoc|]. split; [done|].
      split; [by rewrite length_insert|]. split; [intros i Hi; rewrite list_lookup_insert_ne by set_solver; by apply Hdo|].
      assert (x ∉ l2') as Hx2 by (rewrite E in Hnd; apply NoDup_app in Hnd as (_ & _ & Hn); by apply NoDup_cons in Hn as [? _]).
      intros i. destruct (decide (i = x)) as [->|Hne].
      * rewrite list_lookup_insert_eq; [by rewrite decide_False, (Hfree x Hx)|]. apply lookup_lt_is_Some. rewrite Hf, decide_True by set_solver. done.
      * rewrite list_lookup_insert_ne by done. rewrite Hf. by repeat case_decide; set_solver.
  - intros s' (d & f & l2 & E & -> & Hd & Hdo & Hf). assert (l2 = []) as -> by (destruct l2; [done|]; apply (f_equal length) in E; rewrite length_app in E; simpl in E; lia).
    exists d. split; [f_equal; apply list_eq; intros i; by rewrite Hf, decide_False by set_solver|]. split; [done|].
    intros i Hi. apply Hdo. intros Hin. by apply Hi, Hfree.
Qed.

Lemma alloc_descs_spec n idx s0 s : length (dk_free (vd s0)) = NUM → marked s0 idx s →
  wp (alloc_descs n idx) s (λ r s', match r with Some l => marked s0 l s' ∧ length l = (length idx + n)%nat | None => restored s0 s' end).
Proof.
  intros Hlen. revert idx s. induction n as [|n IH]; intros idx s Hm; simpl; [apply wp_ret; split; [done|lia]|].
  unfold alloc_desc. wp_steps. pose proof (first_free_spec (dk_free (vd s)) 0) as Hff. destruct (first_free _ _) as [i|].
  - destruct Hff as (j & -> & Hj). simpl in *. unfold upd_disk. wp_steps. eapply wp_mono; [apply IH|].
    + destruct Hm as (f & -> & Hnd & Hfree & Hf). simpl in Hj. rewrite Hf in Hj. case_decide as Hji; [done|].
      exists (<[j := false]> f). split; [done|]. split; [apply NoDup_app; split; [done|]; split; [set_solver|apply NoDup_singleton]|].
      split; [intros i Hi; apply elem_of_app in Hi as [Hi|Hi]; [by apply Hfree|]; apply list_elem_of_singleton in Hi as ->; done|].
      intros i. destruct (decide (i = j)) as [->|Hne].
      * rewrite list_lookup_insert_eq, decide_True; [done|set_solver|]. apply lookup_lt_is_Some. by rewrite Hf, decide_False.
      * rewrite list_lookup_insert_ne by done. rewrite Hf. by repeat case_decide; set_solver.
    + intros [l|] s' Hr; [|done]. destruct Hr as [Hm' Hl]. split; [done|]. rewrite Hl, length_app. simpl. lia.
  - wp_steps. eapply wp_mono; [by apply (give_back s0)|]. intros ? s' Hr. by wp_steps.
Qed.

Lemma alloc3_spec s : length (dk_free (vd s)) = NUM → wp alloc3_desc s (λ r s', match r with
  | Some (i0, i1, i2) => marked s [i0; i1; i2] s'
  | None => restored s s'
  end).
Proof.
  intros Hlen. unfold alloc3_desc. apply wp_bind. eapply wp_mono; [apply (alloc_descs_spec 3 [] s s Hlen)|].
  - exists (dk_free (vd s)). rewrite with_descs_id. split; [done|]. split; [apply NoDup_nil_2|]. split; [set_solver|]. intros i. by rewrite decide_False by set_solver.
  - intros [l|] s' Hr; [|by apply wp_ret]. destruct Hr as [Hm Hl]. destruct l as [|i0 [|i1 [|i2 [|? ?]]]]; try done.
Qed.

(** *** The invariant, step by step *)

Lemma taken_cons c calls : taken (c :: calls) = idxs c ++ taken calls.
Proof. done. Qed.
Lemma taken_perm calls calls' : calls ≡ₚ calls' → taken calls ≡ₚ taken calls'.
Proof. intros Hp. by apply bind_Permutation. Qed.
Lemma in_taken c calls i : c ∈ calls → i ∈ idxs c → i ∈ taken calls.
Proof. intros Hc Hi. apply list_elem_of_bind. by exists c. Qed.
Lemma few (l : list nat) : NoDup l → Forall (λ i, (i < NUM)%nat) l → (length l ≤ NUM)%nat.
Proof.
  intros Hn Hl. rewrite <- (length_seq NUM 0). apply submseteq_length, NoDup_submseteq; [done|].
  intros x Hx. rewrite Forall_forall in Hl. apply elem_of_seq. specialize (Hl x Hx). lia.
Qed.

Lemma vinv_perm s calls calls' aq uq : calls ≡ₚ calls' → vinv s calls aq uq → vinv s calls' aq uq.
Proof.
  intros Hp [A1 A2 A3 A4 A5 A6 A7 A8 A9 A10 A11 A12 A13]. pose proof (taken_perm _ _ Hp) as Ht. split; try done.
  - by rewrite A1.
  - intros i Hi. rewrite (A3 i Hi). f_equal. apply bool_decide_ext. by rewrite Ht.
  - rewrite <- Ht. done.
  - intros c Hc. apply A5. by rewrite Hp.
  - by rewrite <- Hp.
  - intros c c' bp bp' Hc Hc'. apply A7; by rewrite Hp.
  - intros h Hh. destruct (A8 h Hh) as (c & i1 & i2 & Hc & E). exists c, i1, i2. by rewrite <- Hp.
  - intros b bp Hb. destruct (A12 b bp Hb) as [H1 H2]. split; [done|]. intros Hn. apply H2. by rewrite Hp.
Qed.

Lemma call_ok_frame s s' aq uq aq' uq' c : call_ok s aq uq c → vbufs s' !! c_buf c = vbufs s !! c_buf c →
  (∀ i, i ∈ idxs c → dk_desc (vd s') !! i = dk_desc (vd s) !! i ∧ dk_ops (vd s') !! i = dk_ops (vd s) !! i ∧
     dk_info (vd s') !! i = dk_info (vd s) !! i) →
  (∀ h, h ∈ idxs c → (h ∈ aq' ++ v_pending s' ++ uq' ↔ h ∈ aq ++ v_pending s ++ uq) ∧
     (h ∉ aq' → h ∉ v_pending s' → h ∉ aq ∧ h ∉ v_pending s) ∧ (h ∈ uq' → h ∈ uq)) →
  (∀ bp, vbufs s !! c_buf c = Some bp → block_of (medium s') (v_blockno bp) = block_of (medium s) (v_blockno bp)) →
  call_ok s' aq' uq' c.
Proof.
  intros (bp & Hb & Hw & Hi) Eb Ei Eq Em. exists bp. split; [by rewrite Eb|]. split; [done|].
  unfold idxs in *. destruct (c_idx c) as [[[h i1] i2]|]; [|done]. destruct Hi as ([F1 F2 F3 F4] & Hd & Ha & st & Hst & Hu).
  destruct (Ei h) as (D1 & D2 & D3); [set_solver|]. destruct (Ei i1) as (E1 & _ & _); [set_solver|]. destruct (Ei i2) as (G1 & _ & _); [set_solver|].
  destruct (Eq h) as (Q1 & Q2 & Q3); [set_solver|]. split; [split; congruence|]. split; [|split].
  - by rewrite Q1.
  - intros H1 H2. unfold agrees. rewrite (Em bp Hb). apply Ha; by apply Q2.
  - exists st. rewrite D3. split; [done|]. auto.
Qed.

Lemma heads_taken s calls aq uq h : vinv s calls aq uq → h ∈ aq ++ v_pending s ++ uq → h ∈ taken calls.
Proof. intros Hv Hh. destruct (iv_heads _ _ _ _ Hv h Hh) as (c & i1 & i2 & Hc & E). apply (in_taken c); [done|]. unfold idxs. rewrite E. set_solver. Qed.
Lemma heads_lt s calls aq uq h : vinv s calls aq uq → h ∈ aq ++ v_pending s ++ uq → (h < NUM)%nat.
Proof. intros Hv Hh. destruct (iv_taken _ _ _ _ Hv) as [_ Hf]. rewrite Forall_forall in Hf. by eapply Hf, heads_taken. Qed.

(** A call begins. *)
Lemma vinv_enter s calls aq uq b write bp : vinv s calls aq uq → vbufs s !! b = Some bp → not_in_use s b (v_blockno bp) →
  vinv (set_vcalls (vcalls s ++ [VCall b write None (v_data bp)]) s) (VCall b write None (v_data bp) :: calls) aq uq.
Proof.
  intros Hv Hb Hn. pose proof Hv as [A1 A2 A3 A4 A5 A6 A7 A8 A9 A10 A11 A12 A13].
  assert (b ∉ c_buf <$> calls) as Hnb.
  { intros (c & -> & Hc)%list_elem_of_fmap. destruct (A5 c Hc) as (bp' & Hb' & _). rewrite <- A1 in Hc. by destruct (Hn c bp' Hc Hb'). }
  set (c0 := VCall b write None (v_data bp)). split; try done.
  - simpl. rewrite A1. by rewrite Permutation_app_comm.
  - intros c [->|Hc]%elem_of_cons.
    + exists bp. split; [done|]. split; [done|]. simpl. by apply (A12 b).
    + by apply A5.
  - simpl. by apply NoDup_cons.
  - simpl. intros c c' x x' Hc Hc' Hne Hx Hx'. apply elem_of_cons in Hc as [->|Hc], Hc' as [->|Hc'].
    + by destruct Hne.
    + rewrite <- A1 in Hc'. destruct (Hn c' x' Hc' Hx') as [_ Hbn]. simpl in Hx. assert (x = bp) as -> by congruence. done.
    + rewrite <- A1 in Hc. destruct (Hn c x Hc Hx) as [_ Hbn]. simpl in Hx'. assert (x' = bp) as -> by congruence. done.
    + by apply (A7 c c').
  - intros h Hh. destruct (A8 h Hh) as (c & i1 & i2 & Hc & E). exists c, i1, i2. split; [by right|done].
  - intros b' bp' Hb'. destruct (A12 b' bp' Hb') as [H1 H2]. split; [done|]. simpl. intros Hn'. apply H2. set_solver.
Qed.

(** The free flags of a call's descriptors. *)
Lemma taken_free s calls aq uq i : vinv s calls aq uq → dk_free (vd s) !! i = Some true ↔ (i < NUM)%nat ∧ i ∉ taken calls.
Proof.
  intros Hv. destruct (decide (i < NUM)%nat) as [Hi|Hi].
  - rewrite (iv_free _ _ _ _ Hv i Hi). split; [intros [= E%bool_decide_eq_true]; done|]. intros [_ Hn]. by rewrite bool_decide_eq_true_2.
  - split; [|lia]. intros Hf%lookup_lt_Some. destruct (iv_sizes _ _ _ _ Hv) as (_ & _ & _ & Hl). lia.
Qed.

(** A call does not get descriptors. *)
Lemma vinv_restored s calls aq uq s' : vinv s calls aq uq → restored s s' → vinv s' calls aq uq.
Proof.
  intros Hv (d & -> & Hd & Hdo). pose proof Hv as [A1 A2 A3 A4 A5 A6 A7 A8 A9 A10 A11 A12 A13]. split; try done.
  - simpl. rewrite Hd. done.
  - intros c Hc. apply (call_ok_frame s _ aq uq); [by apply A5|done| |by intros h _|done]. intros i Hi. simpl. split; [|done].
    apply Hdo. rewrite (taken_free _ _ _ _ i Hv). intros [_ Hn]. by apply Hn, (in_taken c).
Qed.

(** The fields of a state that was just changed. *)
Ltac v_simpl := cbn [set_vd set_vbufs set_vcalls set_desc set_ring set_done set_free set_used_idx set_info set_ops
  vd vbufs vcalls medium v_seen v_pending dk_desc dk_ring dk_idx dk_done dk_done_idx dk_free dk_used_idx dk_info dk_ops
  v_blockno v_data v_disk in_b in_status].

(** The state after [submit]. *)
Definition submitted (b : nat) (write : bool) (bp : vbuf) (i0 i1 i2 : nat) (st : Z) (s : vst) : vst :=
  let k := vd s in
  VSt (Disk
         (<[i2 := VDesc (VStatus i0) 1 VRING_DESC_F_WRITE 0]>
            (<[i1 := VDesc (VData b) BSIZE (Z.lor (if write then 0 else VRING_DESC_F_WRITE) VRING_DESC_F_NEXT) i2]>
               (<[i0 := VDesc (VOp i0) REQ_SIZE VRING_DESC_F_NEXT i1]> (dk_desc k))))
         (<[Z.to_nat (dk_idx k mod Z.of_nat NUM) := i0]> (dk_ring k)) (u16 (dk_idx k + 1)) (dk_done k) (dk_done_idx k) (dk_free k) (dk_used_idx k)
         (<[i0 := VInfo (Some b) st]> (dk_info k))
         (<[i0 := VReq (if write then VIRTIO_BLK_T_OUT else VIRTIO_BLK_T_IN) 0 (u32 (v_blockno bp * (BSIZE / 512)))]> (dk_ops k)))
    (<[b := VBuf (v_blockno bp) (v_data bp) true]> (vbufs s)) (vcalls s) (medium s) (v_seen s) (v_pending s).

Lemma submit_spec b write i0 i1 i2 s bp : vbufs s !! b = Some bp → (i0 < length (dk_info (vd s)))%nat →
  wp (submit b write i0 i1 i2) s (λ _ s', s' = submitted b write bp i0 i1 i2 0xff s).
Proof.
  intros Hb Hi. destruct (lookup_lt_is_Some_2 _ _ Hi) as [x Hx].
  unfold submit, vbuf_at, put_desc, upd_disk, upd_vbuf. apply wp_bind, wp_gets. rewrite Hb. cbn [default from_option id].
  destruct s as [[desc ring idx done didx free uidx info ops] bufs calls m seen pend]. cbn [vbufs vd dk_info] in *.
  do 7 (apply wp_bind, wp_modify; v_simpl). apply wp_modify. v_simpl. unfold submitted. v_simpl.
  rewrite (alter_insert _ _ _ _ Hb), (alter_insert _ _ _ _ Hx). erewrite alter_insert; [|by apply list_lookup_insert_eq].
  by rewrite list_insert_insert_eq.
Qed.

(** A call's request goes to the device. *)
Lemma vinv_submit s b write i0 i1 i2 data rest aq uq bp st f :
  let c := VCall b write None data in let c' := VCall b write (Some (i0, i1, i2)) data in
  vinv s (c :: rest) aq uq → vbufs s !! b = Some bp → NoDup [i0; i1; i2] →
  (∀ i, i ∈ [i0; i1; i2] → dk_free (vd s) !! i = Some true) →
  (∀ i, f !! i = if decide (i ∈ [i0; i1; i2]) then Some false else dk_free (vd s) !! i) →
  ∀ calls', calls' ≡ₚ c' :: rest →
  vinv (set_vcalls calls' (submitted b write bp i0 i1 i2 st (set_vd (set_free f (vd s)) s))) (c' :: rest) (aq ++ [i0]) uq.
Proof.
  intros c c' Hv Hb Hnd Hfree Hf calls' Hcalls. pose proof Hv as [A1 (S1 & S2 & S3 & S4) A3 [T1 T2] A5 A6 A7 A8 A9 A10 A11 A12 A13].
  assert (∀ i, i ∈ [i0; i1; i2] → (i < NUM)%nat ∧ i ∉ taken rest) as Hnew.
  { intros i Hi. specialize (Hfree i Hi). rewrite (taken_free _ _ _ _ i Hv) in Hfree. exact Hfree. }
  assert (i0 ∉ aq ++ v_pending s ++ uq) as Hi0.
  { intros Hin%(heads_taken _ _ _ _ _ Hv). by apply (Hnew i0); [set_solver|]. }
  assert (i0 ≠ i1 ∧ i0 ≠ i2 ∧ i1 ≠ i2) as (N1 & N2 & N3) by (apply NoDup_cons in Hnd as [? [? _]%NoDup_cons]; set_solver).
  destruct (Hnew i0) as [L0 _]; [set_solver|]. destruct (Hnew i1) as [L1 _]; [set_solver|]. destruct (Hnew i2) as [L2 _]; [set_solver|].
  assert (c ∈ c :: rest) as Hcin by set_solver. destruct (A5 c Hcin) as (bp' & Hb' & Hw & Hd). simpl in Hb', Hw, Hd.
  assert (bp' = bp) as -> by congruence. apply NoDup_cons in A6 as [Hnb A6].
  split; simpl.
  - exact Hcalls.
  - rewrite !length_insert. split_and!; try done. rewrite <- S4.
    assert (∀ i, is_Some (f !! i) ↔ is_Some (dk_free (vd s) !! i)) as Hs.
    { intros i. rewrite Hf. case_decide as Hi; [|done]. rewrite (Hfree i Hi). by split. }
    apply Nat.le_antisymm; apply Nat.nlt_ge; intros Hlt; apply lookup_lt_is_Some_2 in Hlt; apply Hs in Hlt as Hlt'; apply lookup_lt_is_Some_1 in Hlt'; lia.
  - intros i Hi. rewrite Hf. rewrite taken_cons. simpl idxs. case_decide as Hd1.
    + by rewrite bool_decide_eq_false_2 by set_solver.
    + rewrite (A3 i Hi). f_equal. apply bool_decide_ext. rewrite taken_cons. set_solver.
  - rewrite taken_cons. simpl idxs. split.
    + apply NoDup_app. split; [done|]. split; [intros i Hi; by apply Hnew|]. done.
    + apply Forall_app. split; [|done]. apply Forall_forall. intros i Hi. by apply Hnew.
  - intros x [->|Hx]%elem_of_cons.
    + exists (VBuf (v_blockno bp) (v_data bp) true). split; [simpl; apply list_lookup_insert_eq; by eapply lookup_lt_Some|]. split; [done|]. simpl.
      split; [split; simpl|split; [|split]].
      * rewrite !list_lookup_insert_ne by done. apply list_lookup_insert_eq. lia.
      * rewrite list_lookup_insert_ne by done. apply list_lookup_insert_eq. rewrite length_insert. lia.
      * apply list_lookup_insert_eq. rewrite !length_insert. lia.
      * apply list_lookup_insert_eq. lia.
      * split; [intros _; set_solver|done].
      * intros H1. exfalso. set_solver.
      * exists st. split; [apply list_lookup_insert_eq; lia|]. intros Hu. exfalso. set_solver.
    + assert (c_buf x ≠ b) as Hxb by (intros E; apply Hnb, list_elem_of_fmap; by exists x).
      assert (∀ i, i ∈ idxs x → i ∉ [i0; i1; i2]) as Hxi.
      { intros i Hi Hin. apply (Hnew i Hin). by apply (in_taken x). }
      apply (call_ok_frame s _ aq uq); [apply A5; set_solver| | | |done]; simpl.
      * by rewrite list_lookup_insert_ne.
      * intros i Hi. specialize (Hxi i Hi). assert (i ≠ i0 ∧ i ≠ i1 ∧ i ≠ i2) as (M1 & M2 & M3) by set_solver.
        rewrite !list_lookup_insert_ne by done. done.
      * intros h Hh. specialize (Hxi h Hh). split; [set_solver|]. split; [set_solver|done].
  - apply NoDup_cons. done.
  - intros x x' y y' Hx Hx' Hne Hy Hy'.
    assert (∀ z y, z ∈ c' :: rest → <[b:=VBuf (v_blockno bp) (v_data bp) true]> (vbufs s) !! c_buf z = Some y →
      ∃ z0 y0, z0 ∈ c :: rest ∧ c_buf z0 = c_buf z ∧ vbufs s !! c_buf z0 = Some y0 ∧ v_blockno y0 = v_blockno y) as Hback.
    { intros z w [->|Hz]%elem_of_cons Hw'.
      - exists c, bp. split; [set_solver|]. split; [done|]. split; [done|]. simpl in Hw'. rewrite list_lookup_insert_eq in Hw' by (by eapply lookup_lt_Some).
        by injection Hw' as <-.
      - exists z, w. split; [set_solver|]. split; [done|]. split; [|done]. rewrite list_lookup_insert_ne in Hw'; [done|].
        intros E. apply Hnb, list_elem_of_fmap. exists z. by split. }
    destruct (Hback x y Hx Hy) as (z & w & Hz & Ez & Hw1 & <-). destruct (Hback x' y' Hx' Hy') as (z' & w' & Hz' & Ez' & Hw2 & <-).
    apply (A7 z z'); try done. congruence.
  - intros h Hh. destruct (decide (h = i0)) as [->|Hne]; [exists c', i1, i2; split; [set_solver|done]|].
    destruct (A8 h) as (x & j1 & j2 & Hx & Ex); [set_solver|]. apply elem_of_cons in Hx as [->|Hx]; [done|]. exists x, j1, j2. split; [set_solver|done].
  - rewrite <- app_assoc. simpl. rewrite <- (Permutation_middle aq (v_pending s ++ uq) i0). apply NoDup_cons. done.
  - apply ring_push; [done|]. assert (NoDup (i0 :: aq)) as Hn by (apply NoDup_cons; apply NoDup_app in A9 as [? _]; set_solver).
    pose proof (few (i0 :: aq) Hn) as Hfew. simpl in Hfew. apply Hfew. apply Forall_cons. split; [done|].
    apply Forall_forall. intros i Hi. eapply (heads_lt _ _ _ _ _ Hv). set_solver.
  - done.
  - intros b' y Hy. destruct (decide (b' = b)) as [->|Hne].
    + rewrite list_lookup_insert_eq in Hy by (by eapply lookup_lt_Some). injection Hy as <-. cbn [v_data v_disk]. split; [by apply (A12 b)|]. intros Hn. exfalso. apply Hn. apply list_elem_of_here.
    + rewrite list_lookup_insert_ne in Hy by done. by apply (A12 b').
  - intros b' y Hy. destruct (decide (b' = b)) as [->|Hne].
    + rewrite list_lookup_insert_eq in Hy by (by eapply lookup_lt_Some). injection Hy as <-. by apply (A13 b bp).
    + rewrite list_lookup_insert_ne in Hy by done. by apply (A13 b').
Qed.

(** The device takes a request. *)
Lemma vinv_fetch s s' calls aq uq : vinv s calls aq uq → dev_fetches s s' → ∃ aq', vinv s' calls aq' uq.
Proof.
  intros Hv (h & Hne & Hh & ->). pose proof Hv as [A1 A2 A3 A4 A5 A6 A7 A8 A9 A10 A11 A12 A13].
  destruct aq as [|h' aq].
  { destruct A10 as [_ Hf Ht _ _]. exfalso. apply Hne. rewrite Ht. unfold u16. simpl. rewrite Z.add_0_r. symmetry. by apply Z.mod_small. }
  destruct (ring_pop _ _ _ _ _ A10) as (_ & Hh' & Hr). assert (h' = h) as -> by congruence.
  assert (∀ x, x ∈ aq ++ (v_pending s ++ [h]) ++ uq ↔ x ∈ (h :: aq) ++ v_pending s ++ uq) as Hin by set_solver.
  exists aq. split; try done.
  - intros c Hc. apply (call_ok_frame s _ (h :: aq) uq); [by apply A5|done|by intros i _| |done].
    intros x _. simpl. split; [apply Hin|]. split; [|done]. set_solver.
  - intros x Hx. apply A8, Hin, Hx.
  - simpl in A9 |- *. rewrite <- app_assoc. simpl. rewrite (app_assoc aq), <- (Permutation_middle (aq ++ v_pending s) uq h). by rewrite <- app_assoc.
Qed.

Lemma block_put_same m n d : length d = Z.to_nat BSIZE → block_of (medium_put m (n * BSIZE) d) n = d.
Proof.
  intros Hd. unfold block_of, medium_get. apply list_eq. intros i. rewrite list_lookup_fmap. destruct (decide (i < Z.to_nat BSIZE)%nat) as [Hi|Hi].
  - rewrite lookup_seq_lt by done. simpl. unfold medium_put. rewrite Hd.
    destruct ((_ <=? _) && _) eqn:E; [|exfalso; apply andb_false_iff in E as [E%Z.leb_gt|E%Z.ltb_ge]; unfold BSIZE in *; lia].
    replace (Z.to_nat (n * BSIZE + Z.of_nat i - n * BSIZE)) with i by lia. destruct (lookup_lt_is_Some_2 d i) as [x Hx]; [lia|]. by rewrite Hx.
  - rewrite lookup_seq_ge by lia. symmetry. apply lookup_ge_None. lia.
Qed.
Lemma block_put_other m n n' d : length d = Z.to_nat BSIZE → n ≠ n' → block_of (medium_put m (n * BSIZE) d) n' = block_of m n'.
Proof.
  intros Hd Hn. unfold block_of, medium_get. apply list_fmap_ext. intros j i Hi. apply lookup_seq in Hi as [-> Hi]. simpl. unfold medium_put. rewrite Hd.
  case_if; [|done]. exfalso. unfold BSIZE in *. bool_prop. nia.
Qed.
Lemma block_length m n : length (block_of m n) = Z.to_nat BSIZE.
Proof. unfold block_of, medium_get. by rewrite length_fmap, length_seq. Qed.

(** The state after the device has done the request [h] of buffer [b]. *)
Definition completed (h b : nat) (write : bool) (bp : vbuf) (l1 l2 : list nat) (s : vst) : vst :=
  let k := vd s in
  VSt (set_done (<[Z.to_nat (dk_done_idx k mod Z.of_nat NUM) := h]> (dk_done k)) (u16 (dk_done_idx k + 1))
         (set_info (alter (λ x, VInfo (in_b x) 0) h (dk_info k)) k))
      (if write then vbufs s else <[b := VBuf (v_blockno bp) (block_of (medium s) (v_blockno bp)) (v_disk bp)]> (vbufs s)) (vcalls s)
      (if write then medium_put (medium s) (v_blockno bp * BSIZE) (v_data bp) else medium s) (v_seen s) (l1 ++ l2).

(** What the device does is determined by the call whose request it is. *)
Lemma completes_call s s' calls aq uq : vinv s calls aq uq → dev_completes s s' →
  ∃ l1 h l2 c i1 i2 bp rest, v_pending s = l1 ++ h :: l2 ∧ calls ≡ₚ c :: rest ∧ c_idx c = Some (h, i1, i2) ∧ vbufs s !! c_buf c = Some bp ∧
    s' = completed h (c_buf c) (c_write c) bp l1 l2 s.
Proof.
  intros Hv (l1 & h & l2 & d0 & d1 & d2 & i & q & b & bp & j & bufs' & m' & Hp & Hd0 & _ & Hd1 & _ & Hd2 & Hi & Hq & Hb & Hbp & Hj & Hrw & ->).
  destruct (iv_heads _ _ _ _ Hv h) as (c & i1 & i2 & Hc & E); [rewrite Hp; set_solver|].
  destruct (iv_call _ _ _ _ Hv c Hc) as (bp' & Hbp' & Hw & Hci). rewrite E in Hci. destruct Hci as ([F1 F2 F3 F4] & _).
  assert (d0 = VDesc (VOp h) REQ_SIZE VRING_DESC_F_NEXT i1) as -> by congruence. simpl in *. injection Hi as <-.
  assert (d1 = VDesc (VData (c_buf c)) BSIZE (Z.lor (if c_write c then 0 else VRING_DESC_F_WRITE) VRING_DESC_F_NEXT) i2) as -> by congruence.
  simpl in *. injection Hb as <-. assert (d2 = VDesc (VStatus h) 1 VRING_DESC_F_WRITE 0) as -> by congruence. simpl in Hj. injection Hj as <-.
  assert (bp' = bp) as -> by congruence. rewrite F4 in Hq. injection Hq as <-. simpl in Hrw.
  apply elem_of_Permutation in Hc as [rest Hperm]. exists l1, h, l2, c, i1, i2, bp, rest. split_and!; try done.
  pose proof (iv_range _ _ _ _ Hv _ _ Hbp) as Hrange.
  assert (u32 (v_blockno bp * (BSIZE / 512)) * 512 = v_blockno bp * BSIZE) as Eoff.
  { unfold BSIZE, u32. change (1024 / 512) with 2. rewrite Z.mod_small by lia. lia. } rewrite Eoff in Hrw.
  destruct (iv_idle _ _ _ _ Hv _ _ Hbp) as [Hlen _]. unfold completed. destruct (c_write c).
  - destruct Hrw as [(_ & _ & -> & ->)|(E' & _)]; [|done]. by rewrite take_ge by lia.
  - destruct Hrw as [(E' & _)|(_ & _ & -> & ->)]; [done|]. done.
Qed.

Lemma vinv_complete s l1 h l2 c i1 i2 bp rest aq uq : vinv s (c :: rest) aq uq → v_pending s = l1 ++ h :: l2 → c_idx c = Some (h, i1, i2) →
  vbufs s !! c_buf c = Some bp → vinv (completed h (c_buf c) (c_write c) bp l1 l2 s) (c :: rest) aq (uq ++ [h]).
Proof.
  intros Hv Hp Ec Hb. pose proof Hv as [A1 (S1 & S2 & S3 & S4) A3 [T1 T2] A5 A6 A7 A8 A9 A10 A11 A12 A13].
  assert (∀ x, x ∈ aq ++ (l1 ++ l2) ++ uq ++ [h] ↔ x ∈ aq ++ v_pending s ++ uq) as Hin by (rewrite Hp; set_solver).
  assert (h ∈ aq ++ v_pending s ++ uq) as Hh by (rewrite Hp; set_solver).
  destruct (A5 c ltac:(set_solver)) as (bp' & Hb' & Hw & Hci). assert (bp' = bp) as -> by congruence. rewrite Ec in Hci.
  destruct Hci as ([F1 F2 F3 F4] & Hd & Ha & st & Hst & Hu). destruct (A12 _ _ Hb) as [Hlen _].
  apply NoDup_cons in A6 as [Hnb A6]. rewrite taken_cons in T1. apply NoDup_app in T1 as (T0 & T3 & T1).
  assert (NoDup (aq ++ (l1 ++ l2) ++ uq ++ [h])) as Hnd.
  { eapply NoDup_Permutation_proper; [|exact A9]. rewrite Hp. solve_Permutation. }
  assert (∀ b y, vbufs (completed h (c_buf c) (c_write c) bp l1 l2 s) !! b = Some y → ∃ y0, vbufs s !! b = Some y0 ∧ v_blockno y0 = v_blockno y ∧
    v_disk y0 = v_disk y ∧ length (v_data y) = Z.to_nat BSIZE) as Hback.
  { intros b y Hy. simpl in Hy. destruct (c_write c); [exists y; split_and!; try done; by apply (A12 b)|].
    destruct (decide (b = c_buf c)) as [->|Hne].
    - rewrite list_lookup_insert_eq in Hy by (by eapply lookup_lt_Some). injection Hy as <-. exists bp. split_and!; [done|done|done|apply block_length].
    - rewrite list_lookup_insert_ne in Hy by done. exists y. split_and!; try done. by apply (A12 b). }
  split; simpl.
  - done.
  - rewrite length_alter. done.
  - done.
  - rewrite taken_cons. split; [by apply NoDup_app|done].
  - intros x [->|Hx]%elem_of_cons.
    + exists (if c_write c then bp else VBuf (v_blockno bp) (block_of (medium s) (v_blockno bp)) (v_disk bp)).
      split; [destruct (c_write c); [done|]; apply list_lookup_insert_eq; by eapply lookup_lt_Some|]. split; [by destruct (c_write c)|].
      rewrite Ec. assert (v_blockno (if c_write c then bp else VBuf (v_blockno bp) (block_of (medium s) (v_blockno bp)) (v_disk bp)) = v_blockno bp) as Ebn
        by (by destruct (c_write c)).
      split; [rewrite Ebn; by split|]. split; [|split].
      * simpl v_pending. rewrite Hin, <- Hd. by destruct (c_write c).
      * intros _ _. unfold agrees. rewrite Ebn. simpl. destruct (c_write c); [by rewrite block_put_same|done].
      * exists 0. split; [|done]. simpl. rewrite list_lookup_alter_eq, Hst. done.
    + assert (c_buf x ≠ c_buf c) as Hxb by (intros E; apply Hnb, list_elem_of_fmap; exists x; by split).
      assert (∀ i, i ∈ idxs x → i ≠ h) as Hxi.
      { intros i Hi ->. apply (T3 h); [unfold idxs; rewrite Ec; set_solver|by apply (in_taken x)]. }
      apply (call_ok_frame s _ aq uq); [apply A5; set_solver| | | |]; simpl.
      * destruct (c_write c); [done|]. by rewrite list_lookup_insert_ne.
      * intros i Hi. specialize (Hxi i Hi). by rewrite list_lookup_alter_ne.
      * intros y Hy. specialize (Hxi y Hy). split; [apply Hin|]. rewrite Hp. split; set_solver.
      * intros y Hy. destruct (c_write c); [|done]. apply block_put_other; [done|].
        apply (A7 c x); [set_solver|set_solver|done|done|done].
  - by apply NoDup_cons.
  - intros x x' y y' Hx Hx' Hne Hy Hy'. apply Hback in Hy as (y0 & Hy & <- & _). apply Hback in Hy' as (y0' & Hy' & <- & _).
    by apply (A7 x x').
  - intros x Hx. apply A8, Hin, Hx.
  - done.
  - done.
  - apply ring_push; [done|]. assert (NoDup (h :: uq)) as Hn.
    { apply NoDup_app in Hnd as (_ & _ & Hnd). apply NoDup_app in Hnd as (_ & _ & Hnd). by rewrite (Permutation_app_comm uq) in Hnd. }
    pose proof (few (h :: uq) Hn) as Hfew. simpl in Hfew. apply Hfew. apply Forall_forall. intros i Hi. eapply (heads_lt _ _ _ _ _ Hv).
    apply elem_of_cons in Hi as [->|Hi]; [done|]. set_solver.
  - intros b y Hy. destruct (Hback b y Hy) as (y0 & Hy0 & _ & <- & Hl). split; [done|]. by apply (A12 b y0).
  - intros b y Hy. destruct (Hback b y Hy) as (y0 & Hy0 & <- & _). by apply (A13 b y0).
Qed.

(** An interrupt takes an entry of the used ring. *)
Definition interrupted (b : nat) (bp : vbuf) (s : vst) : vst :=
  set_vd (set_used_idx (u16 (dk_used_idx (vd s) + 1)) (vd s)) (set_vbufs (<[b := VBuf (v_blockno bp) (v_data bp) false]> (vbufs s)) s).

Lemma vinv_interrupt s h c i1 i2 bp rest aq uq : vinv s (c :: rest) aq (h :: uq) → c_idx c = Some (h, i1, i2) → vbufs s !! c_buf c = Some bp →
  vinv (interrupted (c_buf c) bp s) (c :: rest) aq uq.
Proof.
  intros Hv Ec Hb. pose proof Hv as [A1 A2 A3 [T1 T2] A5 A6 A7 A8 A9 A10 A11 A12 A13].
  destruct (ring_pop _ _ _ _ _ A11) as (_ & _ & Hr).
  assert (h ∉ aq ∧ h ∉ v_pending s ∧ h ∉ uq) as (Q1 & Q2 & Q3).
  { apply NoDup_app in A9 as (_ & N1 & A9). apply NoDup_app in A9 as (_ & N2 & A9). apply NoDup_cons in A9 as [N3 _].
    split_and!; [intros Hh; apply (N1 h Hh); set_solver|intros Hh; apply (N2 h Hh); set_solver|done]. }
  assert (NoDup (aq ++ v_pending s ++ uq)) as Hnd.
  { rewrite (app_assoc aq), <- (Permutation_middle (aq ++ v_pending s) uq h) in A9. apply NoDup_cons in A9 as [_ A9]. by rewrite app_assoc. }
  destruct (A5 c (list_elem_of_here _ _)) as (bp' & Hb' & Hw & Hci). assert (bp' = bp) as -> by congruence. rewrite Ec in Hci.
  destruct Hci as ([F1 F2 F3 F4] & Hd & Ha & st & Hst & Hu). apply NoDup_cons in A6 as [Hnb A6]. rewrite taken_cons in T1.
  apply NoDup_app in T1 as (T0 & T3 & T1).
  assert (∀ b y, vbufs (interrupted (c_buf c) bp s) !! b = Some y → ∃ y0, vbufs s !! b = Some y0 ∧ v_blockno y0 = v_blockno y ∧
    v_data y = v_data y0 ∧ (b ≠ c_buf c → v_disk y = v_disk y0)) as Hback.
  { intros b y Hy. unfold interrupted in Hy. cbn [vbufs set_vd set_vbufs] in Hy. destruct (decide (b = c_buf c)) as [->|Hne].
    - rewrite list_lookup_insert_eq in Hy by (by eapply lookup_lt_Some). injection Hy as <-. by exists bp.
    - rewrite list_lookup_insert_ne in Hy by done. by exists y. }
  unfold interrupted. split; v_simpl; try done.
  - rewrite taken_cons. split; [by apply NoDup_app|done].
  - intros x [->|Hx]%elem_of_cons.
    + exists (VBuf (v_blockno bp) (v_data bp) false). split; [v_simpl; apply list_lookup_insert_eq; by eapply lookup_lt_Some|]. split; [done|].
      rewrite Ec. v_simpl. split; [by split|]. split; [split; [done|]; intros Hin; set_solver|]. split; [intros _ _; by apply Ha|].
      exists st. split; [done|]. intros Hh. by destruct Q3.
    + assert (c_buf x ≠ c_buf c) as Hxb by (intros E; apply Hnb, list_elem_of_fmap; exists x; by split).
      assert (h ∉ idxs x) as Hxi.
      { intros Hi. apply (T3 h); [unfold idxs; rewrite Ec; apply list_elem_of_here|by apply (in_taken x)]. }
      apply (call_ok_frame s _ aq (h :: uq)); [apply A5; by right|v_simpl; by rewrite list_lookup_insert_ne|done| |done].
      intros y Hy. v_simpl. assert (y ≠ h) as Hyh by congruence. rewrite !elem_of_app, elem_of_cons. tauto.
  - by apply NoDup_cons.
  - intros x x' y y' Hx Hx' Hne Hy Hy'. apply Hback in Hy as (y0 & Hy & <- & _). apply Hback in Hy' as (y0' & Hy' & <- & _).
    by apply (A7 x x').
  - intros x Hx. apply A8. rewrite !elem_of_app, elem_of_cons in *. tauto.
  - intros b y Hy. destruct (Hback b y Hy) as (y0 & Hy0 & _ & -> & Hdk). destruct (A12 b y0 Hy0) as [Hl Hi]. split; [done|].
    intros Hn. rewrite Hdk; [by apply Hi|]. intros ->. apply Hn. apply list_elem_of_here.
  - intros b y Hy. destruct (Hback b y Hy) as (y0 & Hy0 & <- & _). by apply (A13 b y0).
Qed.

Lemma intr_spec s calls aq uq : vinv s calls aq uq →
  wp virtio_disk_intr s (λ _ s', (∃ calls', vinv s' calls' aq [] ∧ calls' ≡ₚ calls) ∧ vcalls s' = vcalls s ∧ medium s' = medium s).
Proof.
  intros Hv. unfold virtio_disk_intr. assert (length uq < S (Z.to_nat (2 ^ 16)))%nat as Hlen.
  { destruct (iv_used _ _ _ _ Hv) as [_ _ _ Hl _]. unfold NUM in Hl. lia. }
  remember (S (Z.to_nat (2 ^ 16))) as fuel eqn:Ef. clear Ef. revert fuel s calls Hv Hlen.
  induction uq as [|h uq IH]; intros [|fuel] s calls Hv Hlen; simpl in Hlen; try lia; simpl while_; apply wp_bind, wp_bind, wp_gets.
  - pose proof (rh_to _ _ _ _ (iv_used _ _ _ _ Hv)) as Ht. pose proof (rh_from _ _ _ _ (iv_used _ _ _ _ Hv)) as Hf. simpl in Ht. rewrite Z.add_0_r in Ht.
    unfold u16 in Ht. rewrite Z.mod_small in Ht by done. rewrite Ht, Z.eqb_refl. do 2 apply wp_ret. split; [|done]. by exists calls.
  - destruct (ring_pop _ _ _ _ _ (iv_used _ _ _ _ Hv)) as (Hne & Hh & _). rewrite (proj2 (Z.eqb_neq _ _) Hne). cbv zeta. rewrite Hh. cbn [default from_option id].
    destruct (iv_heads _ _ _ _ Hv h) as (c & i1 & i2 & Hc & Ec); [rewrite !elem_of_app, elem_of_cons; tauto|].
    apply elem_of_Permutation in Hc as [rest Hperm]. pose proof (vinv_perm _ _ _ _ _ Hperm Hv) as Hv'.
    destruct (iv_call _ _ _ _ Hv' c (list_elem_of_here _ _)) as (bp & Hb & Hw & Hci). rewrite Ec in Hci. destruct Hci as (_ & _ & _ & st & Hst & Hu).
    rewrite Hst. cbn [default from_option id in_status in_b]. rewrite (Hu (list_elem_of_here _ _)). simpl negb. cbv iota.
    unfold upd_vbuf, upd_disk. apply wp_bind, wp_modify, wp_bind, wp_modify, wp_ret.
    pose proof (vinv_interrupt s h c i1 i2 bp rest aq uq Hv' Ec Hb) as Hv2.
    eapply wp_mono; [eapply (IH fuel _ (c :: rest)); [|lia]|].
    + unfold interrupted in Hv2. rewrite (alter_insert _ _ _ _ Hb). exact Hv2.
    + intros ? s' ((calls' & Hv3 & Hp3) & H1 & H2). split; [exists calls'; split; [done|by rewrite Hperm]|]. by rewrite H1, H2.
Qed.

(** A call ends and gives its descriptors back. *)
Definition finished (b h i1 i2 : nat) (s : vst) : vst :=
  let k := vd s in
  set_vd (Disk (<[i2 := null_desc]> (<[i1 := null_desc]> (<[h := null_desc]> (dk_desc k)))) (dk_ring k) (dk_idx k) (dk_done k) (dk_done_idx k)
    (<[i2 := true]> (<[i1 := true]> (<[h := true]> (dk_free k)))) (dk_used_idx k) (alter (λ x, VInfo None (in_status x)) h (dk_info k)) (dk_ops k)) s.

Lemma free_desc_run i s : (i < NUM)%nat → dk_free (vd s) !! i = Some false →
  wp (free_desc i) s (λ _ s', s' = with_descs (<[i := null_desc]> (dk_desc (vd s))) (<[i := true]> (dk_free (vd s))) s).
Proof. intros Hi Hf. rewrite <- (with_descs_id s) at 1. by apply free_desc_spec. Qed.

Lemma finish_spec s c rest aq uq h i1 i2 bp : vinv s (c :: rest) aq uq → c_idx c = Some (h, i1, i2) → vbufs s !! c_buf c = Some bp →
  wp (rw_finish (c_buf c) h) s (λ r s', r = negb (v_disk bp) ∧ s' = if r then finished (c_buf c) h i1 i2 s else s).
Proof.
  intros Hv Ec Hb. destruct (iv_call _ _ _ _ Hv c (list_elem_of_here _ _)) as (bp' & Hb' & Hw & Hci). assert (bp' = bp) as -> by congruence.
  rewrite Ec in Hci. destruct Hci as ([F1 F2 F3 F4] & _).
  destruct (iv_taken _ _ _ _ Hv) as [T1 T2]. rewrite taken_cons in T1, T2. unfold idxs in T1, T2. rewrite Ec in T1, T2.
  assert (∀ i, i ∈ [h; i1; i2] → (i < NUM)%nat ∧ dk_free (vd s) !! i = Some false) as Hfree.
  { intros i Hi. rewrite Forall_forall in T2. assert (i < NUM)%nat as Hlt by (apply T2, elem_of_app; by left). split; [done|].
    rewrite (iv_free _ _ _ _ Hv i Hlt). f_equal. apply bool_decide_eq_false_2. intros Hn. apply Hn. rewrite taken_cons. unfold idxs. rewrite Ec. apply elem_of_app. by left. }
  apply NoDup_app in T1 as (T1 & _ & _). apply NoDup_cons in T1 as [N1 [N2 _]%NoDup_cons]. rewrite !elem_of_cons in N1. rewrite elem_of_cons in N2.
  destruct (Hfree h) as [L0 R0]; [by left|]. destruct (Hfree i1) as [L1 R1]; [by right; left|]. destruct (Hfree i2) as [L2 R2]; [by right; right; left|].
  assert (h ≠ i1 ∧ h ≠ i2 ∧ i1 ≠ i2) as (M1 & M2 & M3) by (split_and!; intros ->; tauto).
  destruct s as [[desc ring idx done didx free uidx info ops] bufs calls m seen pend]. v_simpl. cbn [vbufs vd dk_desc dk_free dk_info] in *.
  unfold rw_finish, vbuf_at, upd_disk, free_chain, desc_at. apply wp_bind, wp_gets. v_simpl. rewrite Hb. cbn [default from_option id].
  destruct (v_disk bp); [by apply wp_ret|]. apply wp_bind, wp_modify. v_simpl. apply wp_bind. unfold NUM. cbn [while_].
  apply wp_bind, wp_bind, wp_gets. v_simpl. rewrite F1. cbn [default from_option id d_flags d_next]. apply wp_bind.
  eapply wp_mono; [apply free_desc_run; [done|exact R0]|]. intros _ s1 ->. unfold with_descs. v_simpl. apply wp_ret.
  apply wp_bind, wp_bind, wp_gets. v_simpl. rewrite list_lookup_insert_ne by done. rewrite F2. cbn [default from_option id d_flags d_next]. apply wp_bind.
  eapply wp_mono; [apply free_desc_run; [done|v_simpl; by rewrite list_lookup_insert_ne]|]. intros _ s1 ->. unfold with_descs. v_simpl.
  replace (has (Z.lor (if c_write c then 0 else VRING_DESC_F_WRITE) VRING_DESC_F_NEXT) VRING_DESC_F_NEXT) with true by (by destruct (c_write c)). apply wp_ret.
  apply wp_bind, wp_bind, wp_gets. v_simpl. rewrite !list_lookup_insert_ne by done. rewrite F3. cbn [default from_option id d_flags d_next]. apply wp_bind.
  eapply wp_mono; [apply free_desc_run; [done|v_simpl; by rewrite !list_lookup_insert_ne]|]. intros _ s1 ->. unfold with_descs. v_simpl. do 3 apply wp_ret.
  done.
Qed.

Lemma vinv_finish s c rest aq uq h i1 i2 bp calls' : vinv s (c :: rest) aq uq → c_idx c = Some (h, i1, i2) → vbufs s !! c_buf c = Some bp →
  v_disk bp = false → calls' ≡ₚ rest → vinv (set_vcalls calls' (finished (c_buf c) h i1 i2 s)) rest aq uq.
Proof.
  intros Hv Ec Hb Hdisk Hcalls. pose proof Hv as [A1 (S1 & S2 & S3 & S4) A3 [T1 T2] A5 A6 A7 A8 A9 A10 A11 A12 A13].
  destruct (A5 c (list_elem_of_here _ _)) as (bp' & Hb' & Hw & Hci). assert (bp' = bp) as -> by congruence. rewrite Ec in Hci.
  destruct Hci as (_ & Hd & _). apply NoDup_cons in A6 as [Hnb A6].
  assert (idxs c = [h; i1; i2]) as Ei by (unfold idxs; by rewrite Ec). rewrite taken_cons, Ei in T1, T2.
  apply NoDup_app in T1 as (T0 & T3 & T1). apply Forall_app in T2 as [T4 T2]. rewrite Forall_forall in T4.
  assert (h ∉ aq ++ v_pending s ++ uq) as Hh by (rewrite <- Hd; congruence).
  unfold finished. split; v_simpl; try done.
  - by rewrite !length_insert, length_alter.
  - intros i Hi. destruct (decide (i ∈ [h; i1; i2])) as [Hin|Hin].
    + rewrite bool_decide_eq_true_2 by (by apply T3).
      destruct (decide (i = i2)) as [->|]; [apply list_lookup_insert_eq; by rewrite !length_insert, S4|rewrite list_lookup_insert_ne by done].
      destruct (decide (i = i1)) as [->|]; [apply list_lookup_insert_eq; by rewrite length_insert, S4|rewrite list_lookup_insert_ne by done].
      destruct (decide (i = h)) as [->|]; [apply list_lookup_insert_eq; by rewrite S4|]. exfalso. rewrite !elem_of_cons in Hin.
      destruct Hin as [?|[?|[?|?%elem_of_nil]]]; done.
    + rewrite !elem_of_cons in Hin. rewrite !list_lookup_insert_ne by naive_solver. rewrite (A3 i Hi). f_equal. apply bool_decide_ext.
      rewrite taken_cons, Ei, elem_of_app, !elem_of_cons. naive_solver.
  - intros x Hx. apply (call_ok_frame s _ aq uq); [apply A5; by right|done| |done|done]. intros i Hi. v_simpl.
    assert (i ∉ [h; i1; i2]) as Hn by (intros Hin; apply (T3 i Hin); by apply (in_taken x)). rewrite !elem_of_cons in Hn.
    rewrite !list_lookup_insert_ne by naive_solver. rewrite list_lookup_alter_ne by naive_solver. done.
  - intros x x' y y' Hx Hx'. apply A7; by right.
  - intros x Hx. destruct (A8 x Hx) as (z & j1 & j2 & Hz & Ez). apply elem_of_cons in Hz as [->|Hz]; [|by exists z, j1, j2].
    exfalso. apply Hh. congruence.
  - intros b y Hy. destruct (A12 b y Hy) as [Hl Hi]. split; [done|]. intros Hn. destruct (decide (b = c_buf c)) as [->|Hne]; [congruence|].
    apply Hi. rewrite fmap_cons, elem_of_cons. naive_solver.
Qed.

Section reach.
Context `{BD : BlockDevice}.

Lemma calls_split (calls : list vcall) j c : calls !! j = Some c → calls ≡ₚ c :: delete j calls.
Proof. intros Hj. by apply delete_Permutation. Qed.
Lemma calls_insert (calls : list vcall) j c c' : calls !! j = Some c → <[j := c']> calls ≡ₚ c' :: delete j calls.
Proof.
  revert j. induction calls as [|x calls IH]; intros [|j] Hj; try done. change (x :: <[j := c']> calls ≡ₚ c' :: x :: delete j calls).
  rewrite (IH j Hj). apply perm_swap.
Qed.

Lemma start_spec s j c rest aq uq : vinv s (c :: rest) aq uq → c_idx c = None → vcalls s !! j = Some c →
  wp (rw_start (c_buf c) (c_write c)) s (λ r s',
    ∃ calls aq', vinv (set_vcalls (<[j := VCall (c_buf c) (c_write c) r (c_data c)]> (vcalls s')) s') calls aq' uq ∧ medium s' = medium s ∧ vcalls s' = vcalls s).
Proof.
  intros Hv Ec Hj. destruct c as [b write o data]. simpl in Ec. subst o. simpl.
  assert (delete j (vcalls s) ≡ₚ rest) as Hrest.
  { pose proof (iv_calls _ _ _ _ Hv) as A1. rewrite (calls_split _ _ _ Hj) in A1. by apply (Permutation_cons_inv (a := VCall b write None data)). }
  destruct (iv_call _ _ _ _ Hv _ (list_elem_of_here _ _)) as (bp & Hb & _). simpl in Hb.
  destruct (iv_sizes _ _ _ _ Hv) as (_ & Si & _ & Sf).
  unfold rw_start. apply wp_bind. eapply wp_mono; [by apply alloc3_spec|]. intros [[[i0 i1] i2]|] s1 Hs1; cbv beta iota in Hs1.
  - destruct Hs1 as (f & -> & Hnd & Hfree & Hf). apply wp_bind. assert (i0 < NUM)%nat as Hi0.
    { rewrite <- Sf. eapply lookup_lt_Some, Hfree. apply list_elem_of_here. }
    assert (with_descs (dk_desc (vd s)) f s = set_vd (set_free f (vd s)) s) as -> by (by destruct s as [[]]).
    eapply wp_mono; [apply (submit_spec b write i0 i1 i2 _ bp); [done|simpl; lia]|]. intros ? s2 ->. apply wp_ret.
    eexists _, _. split; [|done]. apply (vinv_submit s b write i0 i1 i2 data rest aq uq bp 0xff f Hv Hb Hnd Hfree Hf).
    simpl. by rewrite (calls_insert _ _ _ _ Hj), Hrest.
  - apply wp_ret. pose proof (vinv_restored _ _ _ _ _ Hv Hs1) as Hv1. destruct Hs1 as (d & -> & _). unfold with_descs, set_vd. v_simpl.
    exists (VCall b write None data :: rest), aq. split; [|done]. rewrite list_insert_id by done. exact Hv1.
Qed.

Lemma vstep_inv s s' : vstep s s' → (∃ calls aq uq, vinv s calls aq uq) → ∃ calls aq uq, vinv s' calls aq uq.
Proof.
  intros Hs (calls & aq & uq & Hv). destruct Hs as [b write bp Hb Hn|j c r s' Hj Ec E|j c i0 i1 i2 s' Hj Ec E|s' E|s' Hd|b bp bp' Hb Hc Hn Hlen Hrg Hdk].
  - eexists _, _, _. by eapply vinv_enter.
  - assert (calls ≡ₚ c :: delete j (vcalls s)) as Hp by (rewrite <- (iv_calls _ _ _ _ Hv); by apply calls_split).
    pose proof (start_spec s j c _ aq uq (vinv_perm _ _ _ _ _ Hp Hv) Ec Hj) as Hw. unfold wp in Hw. rewrite E in Hw.
    destruct Hw as (calls' & aq' & Hv' & _). by eexists _, _, _.
  - assert (calls ≡ₚ c :: delete j (vcalls s)) as Hp by (rewrite <- (iv_calls _ _ _ _ Hv); by apply calls_split).
    pose proof (vinv_perm _ _ _ _ _ Hp Hv) as Hv'. destruct (iv_call _ _ _ _ Hv' c (list_elem_of_here _ _)) as (bp & Hb & _).
    pose proof (finish_spec s c _ aq uq i0 i1 i2 bp Hv' Ec Hb) as Hw. unfold wp in Hw. rewrite E in Hw. destruct Hw as [Hr ->].
    eexists _, _, _. eapply vinv_finish; [exact Hv'|done|done|by destruct (v_disk bp)|]. done.
  - pose proof (intr_spec s calls aq uq Hv) as Hw. unfold wp in Hw. rewrite E in Hw. destruct Hw as ((calls' & Hv' & _) & _). by eexists _, _, _.
  - destruct (dev_step_ok s s' Hd) as [Hf|Hcm].
    + destruct (vinv_fetch s s' calls aq uq Hv Hf) as [aq' Hv']. by eexists _, _, _.
    + destruct (completes_call s s' calls aq uq Hv Hcm) as (l1 & h & l2 & c & i1 & i2 & bp & rest & Hp & Hperm & Ec & Hb & ->).
      eexists _, _, _. eapply vinv_complete; [exact (vinv_perm _ _ _ _ _ Hperm Hv)|done|done|done].
  - exists calls, aq, uq. destruct Hv as [A1 A2 A3 A4 A5 A6 A7 A8 A9 A10 A11 A12 A13].
    assert (b ∉ c_buf <$> calls) as Hnb.
    { intros (c & -> & Hin)%list_elem_of_fmap. rewrite <- A1 in Hin. by apply (Hc c Hin). }
    assert (∀ c, c ∈ calls → c_buf c ≠ b) as Hne by (intros c Hin E; apply Hnb, list_elem_of_fmap; by exists c).
    split; v_simpl; try done.
    + intros c Hin. apply (call_ok_frame s _ aq uq); [by apply A5|v_simpl; rewrite list_lookup_insert_ne by (intros ->; by destruct (Hne c Hin)); done|done|done|done].
    + intros c c' x x' Hin Hin'. rewrite !list_lookup_insert_ne by (intros E'; first [by destruct (Hne c Hin)|by destruct (Hne c' Hin')]). by apply A7.
    + intros b' y Hy. destruct (decide (b' = b)) as [->|Hbb].
      * rewrite list_lookup_insert_eq in Hy by (by eapply lookup_lt_Some). injection Hy as <-. split; [done|]. intros _. rewrite Hdk. by apply (A12 b).
      * rewrite list_lookup_insert_ne in Hy by done. by apply A12.
    + intros b' y Hy. destruct (decide (b' = b)) as [->|Hbb].
      * rewrite list_lookup_insert_eq in Hy by (by eapply lookup_lt_Some). by injection Hy as <-.
      * rewrite list_lookup_insert_ne in Hy by done. by apply (A13 b').
Qed.

Lemma ring_start : ring_holds (replicate NUM O) 0 [] 0.
Proof. split; [by rewrite length_replicate|done|done|simpl; lia|done]. Qed.
Lemma vready_inv s : vready s → vinv s [] [] [].
Proof.
  intros (Ed & Ec & Es & Ep & Hb). rewrite Forall_forall in Hb. split; rewrite ?Ed, ?Ec, ?Es, ?Ep; try done.
  - intros i Hi. change (replicate NUM true !! i = Some (bool_decide (i ∉ taken []))). rewrite lookup_replicate_2 by done.
    done.
  - split; [apply NoDup_nil_2|done].
  - by intros c ?%elem_of_nil.
  - apply NoDup_nil_2.
  - by intros c c' x x' ?%elem_of_nil.
  - by intros h ?%elem_of_nil.
  - apply NoDup_nil_2.
  - apply ring_start.
  - apply ring_start.
  - intros b bp Hbp. destruct (Hb bp) as (H1 & H2 & H3); [by eapply list_elem_of_lookup_2|]. done.
  - intros b bp Hbp. destruct (Hb bp) as (H1 & H2 & H3); [by eapply list_elem_of_lookup_2|]. done.
Qed.

Lemma vreachable_inv s : vreachable s → ∃ calls aq uq, vinv s calls aq uq.
Proof.
  intros (s0 & H0 & Hs). assert (∃ calls aq uq, vinv s0 calls aq uq) as Hv by (eexists _, _, _; by apply vready_inv).
  clear H0. induction Hs as [|s1 s2 s3 H1 _ IH]; [done|]. apply IH. by eapply vstep_inv.
Qed.
End reach.

(** *** An example: one buffer, for block 3, is written *)

Module DiskExample.
#[local] Instance device : BlockDevice := {| dev_step := λ s s', dev_fetches s s' ∨ dev_completes s s'; dev_step_ok := λ _ _ H, H |}.
Definition data : list Z := replicate (Z.to_nat BSIZE) 7.
Definition s0 : vst := VSt init_disk [VBuf 3 data false] [] (λ _, 0) 0 [].
Definition s1 : vst := set_vcalls [VCall 0 true None data] s0.
Definition call : vcall := VCall 0 true (Some (0, 1, 2)%nat) data.
Definition started (r : res (option (nat * nat * nat) * vst)) : vst :=
  match r with Ok (r, s) => set_vcalls [VCall 0 true r data] s | _ => s0 end.
Definition s2 : vst := started (rw_start 0 true s1).
Definition s3 : vst := VSt (vd s2) (vbufs s2) (vcalls s2) (medium s2) 1 [O].
Definition s4 : vst := completed 0 0 true (VBuf 3 data true) [] [] s3.
Definition final (r : res (unit * vst)) : vst := match r with Ok (_, s) => s | _ => s0 end.
Definition s5 : vst := final (virtio_disk_intr s4).
End DiskExample.
#[local] Existing Instance DiskExample.device.

Lemma example_started : vreachable DiskExample.s2.
Proof.
  exists DiskExample.s0. split.
  { split_and!; try done. apply Forall_singleton. split; [done|]. split; [apply length_replicate|done]. }
  apply (rtc_l _ _ DiskExample.s1).
  { apply (v_enter DiskExample.s0 0 true (VBuf 3 DiskExample.data false)); [done|]. by intros c bp ?%elem_of_nil. }
  apply rtc_once. destruct (rw_start 0 true DiskExample.s1) as [[r s']| |] eqn:E.
  - assert (vcalls s' = [VCall 0 true None DiskExample.data]) as Ec.
    { assert (vcalls (match rw_start 0 true DiskExample.s1 with Ok (_, s) => s | _ => DiskExample.s0 end) = [VCall 0 true None DiskExample.data]) as Ec
        by (vm_compute; reflexivity). by rewrite E in Ec. }
    pose proof (v_start DiskExample.s1 0 (VCall 0 true None DiskExample.data) r s' eq_refl eq_refl E) as Hs. rewrite Ec in Hs.
    unfold DiskExample.s2. rewrite E. exact Hs.
  - exfalso. revert E. vm_compute. discriminate.
  - exfalso. revert E. vm_compute. discriminate.
Qed.
Lemma example_fetched : vreachable DiskExample.s3.
Proof.
  destruct example_started as (s0 & H0 & Hs). exists s0. split; [done|]. eapply rtc_r; [exact Hs|].
  apply (v_dev _ DiskExample.s3). left. exists O. split; [by vm_compute|]. split; [by vm_compute|]. unfold DiskExample.s3. f_equal; by vm_compute.
Qed.
Lemma example_completes : vstep DiskExample.s3 DiskExample.s4.
Proof.
  apply (v_dev _ DiskExample.s4). right. exists [], O, []. do 3 eexists. exists O. eexists. exists O. eexists. exists O. do 2 eexists.
  split_and!; try (vm_compute; reflexivity). left. split_and!; try (vm_compute; reflexivity).
Qed.
Lemma example_done : vreachable DiskExample.s5.
Proof.
  destruct example_fetched as (s0 & H0 & Hs). exists s0. split; [done|]. eapply rtc_r; [eapply rtc_r; [exact Hs|exact example_completes]|].
  apply (v_intr _ DiskExample.s5). unfold DiskExample.s5. destruct (virtio_disk_intr DiskExample.s4) as [[[] s']| |] eqn:E; [done|..];
    exfalso; revert E; vm_compute; discriminate.
Qed.

(** ** Properties *)

(** C19: No turn of the driver panics: in every state that processes, interrupts
    and the device can reach, a process that looks for descriptors, one that
    comes back from its sleep, and the interrupt handler all return.  (So a
    descriptor is never freed twice, and the handler finds a buffer and a good
    status for each request that the device has done.) *)
Theorem virtio_never_panics `{BD : BlockDevice} (s : vst) : vreachable s →
  wp virtio_disk_intr s (λ _ _, True) ∧
  ∀ j c, vcalls s !! j = Some c → match c_idx c with
    | None => wp (rw_start (c_buf c) (c_write c)) s (λ _ _, True)
    | Some (i0, _, _) => wp (rw_finish (c_buf c) i0) s (λ _ _, True)
    end.
Proof.
  intros (calls & aq & uq & Hv)%vreachable_inv. split; [eapply wp_mono; [by eapply intr_spec|done]|]. intros j c Hj.
  assert (calls ≡ₚ c :: delete j (vcalls s)) as Hp by (rewrite <- (iv_calls _ _ _ _ Hv); by apply calls_split).
  pose proof (vinv_perm _ _ _ _ _ Hp Hv) as Hv'. destruct (c_idx c) as [[[i0 i1] i2]|] eqn:Ec.
  - destruct (iv_call _ _ _ _ Hv' c (list_elem_of_here _ _)) as (bp & Hb & _). eapply wp_mono; [by eapply finish_spec|done].
  - eapply wp_mono; [by eapply start_spec|done].
Qed.

Lemma virtio_never_panics_witness : wp virtio_disk_intr DiskExample.s5 (λ _ _, True) ∧
  wp (rw_finish 0 0) DiskExample.s5 (λ _ _, True).
Proof.
  destruct (virtio_never_panics DiskExample.s5 example_done) as [H1 H2]. split; [exact H1|].
  exact (H2 O DiskExample.call ltac:(vm_compute; reflexivity)).
Defined.

(** C9: When [virtio_disk_rw] returns, the buffer and its block of the disk are
    equal, the buffer of a write is what it was at the call, and the three
    descriptors are free. *)
Theorem virtio_rw_transfers `{BD : BlockDevice} (s : vst) j c i0 i1 i2 : vreachable s → vcalls s !! j = Some c → c_idx c = Some (i0, i1, i2) →
  wp (rw_finish (c_buf c) i0) s (λ r s', r = true → ∃ bp, vbufs s' !! c_buf c = Some bp ∧
    v_data bp = block_of (medium s') (v_blockno bp) ∧ (c_write c = true → v_data bp = c_data c) ∧
    (∀ i, i ∈ [i0; i1; i2] → dk_free (vd s') !! i = Some true)).
Proof.
  intros (calls & aq & uq & Hv)%vreachable_inv Hj Ec.
  assert (calls ≡ₚ c :: delete j (vcalls s)) as Hp by (rewrite <- (iv_calls _ _ _ _ Hv); by apply calls_split).
  pose proof (vinv_perm _ _ _ _ _ Hp Hv) as Hv'. destruct (iv_call _ _ _ _ Hv' c (list_elem_of_here _ _)) as (bp & Hb & Hw & Hci).
  rewrite Ec in Hci. destruct Hci as (_ & Hd & Ha & _).
  eapply wp_mono; [by eapply finish_spec|]. intros r s' [-> ->] Hr. assert (v_disk bp = false) as Hdk by (by destruct (v_disk bp)).
  rewrite Hdk. simpl negb. cbv iota. pose proof (vinv_finish s c _ aq uq i0 i1 i2 bp _ Hv' Ec Hb Hdk (Permutation_refl _)) as Hv2.
  exists bp. split; [done|]. split; [|split; [done|]].
  - apply Ha; intros Hin; assert (v_disk bp = true) as Ht by (apply Hd; rewrite !elem_of_app; tauto); congruence.
  - intros i Hi. change (dk_free (vd (set_vcalls (delete j (vcalls s)) (finished (c_buf c) i0 i1 i2 s))) !! i = Some true).
    apply (taken_free _ _ _ _ i Hv2). destruct (iv_taken _ _ _ _ Hv') as [T1 T2]. rewrite taken_cons in T1, T2. unfold idxs in T1, T2. rewrite Ec in T1, T2.
    apply NoDup_app in T1 as (_ & T3 & _). apply Forall_app in T2 as [T4 _]. rewrite Forall_forall in T4. split; [by apply T4|by apply T3].
Qed.

Lemma virtio_rw_transfers_witness :
  wp (rw_finish 0 0) DiskExample.s5 (λ r s', r = true → ∃ bp, vbufs s' !! O = Some bp ∧
    v_data bp = block_of (medium s') (v_blockno bp) ∧ (true = true → v_data bp = DiskExample.data) ∧
    (∀ i, i ∈ [0; 1; 2]%nat → dk_free (vd s') !! i = Some true)) ∧
  match rw_finish 0 0 DiskExample.s5 with Ok (r, s') => r = true ∧ medium s' (3 * BSIZE + 5) = 7 | _ => False end.
Proof.
  split; [|by vm_compute].
  exact (virtio_rw_transfers DiskExample.s5 0 DiskExample.call 0 1 2 example_done ltac:(vm_compute; reflexivity) eq_refl).
Defined.

(** C30: The disk changes only by writes: a step of the system leaves a block as
    it was unless a process is writing that block; a process that waits has
    not got its block wrong. *)
Theorem virtio_writes_own_block `{BD : BlockDevice} (s s' : vst) n : vreachable s → vstep s s' →
  block_of (medium s') n = block_of (medium s) n ∨
  ∃ c bp, c ∈ vcalls s ∧ c_write c = true ∧ vbufs s !! c_buf c = Some bp ∧ v_blockno bp = n ∧ block_of (medium s') n = c_data c.
Proof.
  intros (calls & aq & uq & Hv)%vreachable_inv Hs.
  destruct Hs as [b write bp Hb Hn|j c r s' Hj Ec E|j c i0 i1 i2 s' Hj Ec E|s' E|s' Hd|b bp bp' Hb Hc Hn Hlen Hrg Hdk]; try (by left).
  - left. assert (calls ≡ₚ c :: delete j (vcalls s)) as Hp by (rewrite <- (iv_calls _ _ _ _ Hv); by apply calls_split).
    pose proof (start_spec s j c _ aq uq (vinv_perm _ _ _ _ _ Hp Hv) Ec Hj) as Hw. unfold wp in Hw. rewrite E in Hw.
    destruct Hw as (_ & _ & _ & Hm & _). simpl. by rewrite Hm.
  - left. assert (calls ≡ₚ c :: delete j (vcalls s)) as Hp by (rewrite <- (iv_calls _ _ _ _ Hv); by apply calls_split).
    pose proof (vinv_perm _ _ _ _ _ Hp Hv) as Hv'. destruct (iv_call _ _ _ _ Hv' c (list_elem_of_here _ _)) as (bp & Hb & _).
    pose proof (finish_spec s c _ aq uq i0 i1 i2 bp Hv' Ec Hb) as Hw. unfold wp in Hw. rewrite E in Hw. by destruct Hw as [_ ->].
  - left. pose proof (intr_spec s calls aq uq Hv) as Hw. unfold wp in Hw. rewrite E in Hw. destruct Hw as (_ & _ & Hm). by rewrite Hm.
  - destruct (dev_step_ok s s' Hd) as [(h & _ & _ & ->)|Hcm]; [by left|].
    destruct (completes_call s s' calls aq uq Hv Hcm) as (l1 & h & l2 & c & i1 & i2 & bp & rest & Hp & Hperm & Ec & Hb & ->).
    simpl. destruct (c_write c) eqn:Ew; [|by left]. destruct (iv_idle _ _ _ _ Hv _ _ Hb) as [Hl _].
    destruct (decide (v_blockno bp = n)) as [<-|Hne]; [|left; by apply block_put_other].
    right. exists c, bp. assert (c ∈ calls) as Hin by (rewrite Hperm; apply list_elem_of_here).
    split; [by rewrite (iv_calls _ _ _ _ Hv)|]. split; [done|]. split; [done|]. split; [done|]. rewrite block_put_same by done.
    destruct (iv_call _ _ _ _ Hv c Hin) as (bp' & Hb' & Hw & _). assert (bp' = bp) as -> by congruence. by apply Hw.
Qed.
Lemma virtio_writes_own_block_witness :
  (block_of (medium DiskExample.s4) 3 = block_of (medium DiskExample.s3) 3 ∨
   ∃ c bp, c ∈ vcalls DiskExample.s3 ∧ c_write c = true ∧ vbufs DiskExample.s3 !! c_buf c = Some bp ∧ v_blockno bp = 3 ∧
     block_of (medium DiskExample.s4) 3 = c_data c) ∧ medium DiskExample.s3 (3 * BSIZE) = 0 ∧ medium DiskExample.s4 (3 * BSIZE) = 7.
Proof.
  split; [|by vm_compute]. exact (virtio_writes_own_block DiskExample.s3 DiskExample.s4 3 example_fetched example_completes).
Defined.
