(* ===== verification/Ulib.v ===== *)
(** The library of user programs: user/ulib.c, the formatting of user/printf.c
    and kernel/printf.c, and user/wc.c, which counts with it. *)
From S2P Require Import Prelude Memory Sh.

(** ** Definitions *)

(** A C string is the list of its bytes before the NUL. *)
Definition ZERO : Z := 48.
Definition NINE : Z := 57.
Definition MINUS : Z := 45.
Definition PERCENT : Z := 37.
Definition NEWLINE : Z := 10.

(** *** printf *)

(** [digits] of user/printf.c and of kernel/printf.c. *)
Definition digits : list Z := [48; 49; 50; 51; 52; 53; 54; 55; 56; 57; 65; 66; 67; 68; 69; 70].
Definition kdigits : list Z := [48; 49; 50; 51; 52; 53; 54; 55; 56; 57; 97; 98; 99; 100; 101; 102].
Definition digit (ds : list Z) (i : Z) : Z := default 0 (ds !! Z.to_nat i).

(** The do-while loop of [printint], over a 32-bit [x]. *)
Fixpoint digits_loop (ds : list Z) (base : Z) (fuel : nat) (x : Z) (buf : list Z) : list Z :=
  match fuel with
  | O => buf
  | S fuel' =>
      let buf := buf ++ [digit ds (x mod base)] in
      let x := x / base in
      if x =? 0 then buf else digits_loop ds base fuel' x buf
  end.
Definition printint_of (ds : list Z) (xx base : Z) (sgn : bool) : list Z :=
  let neg := sgn && (xx <? 0) in
  let x := if neg then u32 (- xx) else u32 xx in
  let buf := digits_loop ds base 32 x [] in
  let buf := if neg then buf ++ [MINUS] else buf in
  reverse buf.
Definition printint : Z → Z → bool → list Z := printint_of digits.
Definition kprintint : Z → Z → bool → list Z := printint_of kdigits.

Fixpoint ptr_loop (ds : list Z) (n : nat) (x : Z) : list Z :=
  match n with
  | O => []
  | S n' => digit ds (Z.shiftr x 60) :: ptr_loop ds n' (u64 (Z.shiftl x 4))
  end.
Definition printptr_of (ds : list Z) (x : Z) : list Z := [48; 120] ++ ptr_loop ds 16 x.
Definition printptr : Z → list Z := printptr_of digits.
Definition kprintptr : Z → list Z := printptr_of kdigits.

(** A variadic argument: a number, or a string pointer that may be null. *)
Inductive varg := ANum (z : Z) | AStr (s : option (list Z)).
Definition null_str : list Z := [40; 110; 117; 108; 108; 41].

(** [vprintf], from [fmt] on, in its state; none when an argument is missing or
    of the wrong kind. *)
Fixpoint vprintf (fmt : list Z) (state : bool) (ap : list varg) : option (list Z) :=
  match fmt with
  | [] => Some []
  | c :: fmt' =>
      if negb state then
        if c =? PERCENT then vprintf fmt' true ap else cons c <$> vprintf fmt' false ap
      else if c =? 100 then
        match ap with ANum z :: ap' => app (printint (i32 z) 10 true) <$> vprintf fmt' false ap' | _ => None end
      else if c =? 108 then
        match ap with ANum z :: ap' => app (printint (i32 z) 10 false) <$> vprintf fmt' false ap' | _ => None end
      else if c =? 120 then
        match ap with ANum z :: ap' => app (printint (i32 z) 16 false) <$> vprintf fmt' false ap' | _ => None end
      else if c =? 112 then
        match ap with ANum z :: ap' => app (printptr (u64 z)) <$> vprintf fmt' false ap' | _ => None end
      else if c =? 115 then
        match ap with AStr s :: ap' => app (default null_str s) <$> vprintf fmt' false ap' | _ => None end
      else if c =? 99 then
        match ap with ANum z :: ap' => cons (u8 z) <$> vprintf fmt' false ap' | _ => None end
      else if c =? PERCENT then cons c <$> vprintf fmt' false ap
      else app [PERCENT; c] <$> vprintf fmt' false ap
  end.
Definition fprintf (fmt : list Z) (ap : list varg) : option (list Z) := vprintf fmt false ap.

(** kernel/printf.c: [printf], which takes the directive with its percent. *)
Fixpoint kprintf (fmt : list Z) (ap : list varg) : option (list Z) :=
  match fmt with
  | [] => Some []
  | c :: fmt' =>
      if negb (c =? PERCENT) then cons c <$> kprintf fmt' ap
      else
        match fmt' with
        | [] => Some []
        | c :: fmt' =>
            if c =? 100 then
              match ap with ANum z :: ap' => app (kprintint (i32 z) 10 true) <$> kprintf fmt' ap' | _ => None end
            else if c =? 120 then
              match ap with ANum z :: ap' => app (kprintint (i32 z) 16 true) <$> kprintf fmt' ap' | _ => None end
            else if c =? 112 then
              match ap with ANum z :: ap' => app (kprintptr (u64 z)) <$> kprintf fmt' ap' | _ => None end
            else if c =? 115 then
              match ap with AStr s :: ap' => app (default null_str s) <$> kprintf fmt' ap' | _ => None end
            else if c =? PERCENT then cons PERCENT <$> kprintf fmt' ap
            else app [PERCENT; c] <$> kprintf fmt' ap
        end
  end.

(** *** user/ulib.c *)

Definition isdigit (c : Z) : bool := (ZERO <=? c) && (c <=? NINE).
Fixpoint atoi_loop (s : list Z) (n : Z) : Z :=
  match s with
  | c :: s' => if isdigit c then atoi_loop s' (i32 (n * 10 + c - ZERO)) else n
  | [] => n
  end.
Definition atoi (s : list Z) : Z := atoi_loop s 0.

Fixpoint strcmp (p q : list Z) : Z :=
  match p, q with
  | a :: p', b :: q' => if a =? b then strcmp p' q' else a - b
  | a :: _, [] => a
  | [], b :: _ => - b
  | [], [] => 0
  end.

(** [memmove] of the library, which compares the addresses only. *)
Definition umemmove (m : mem) (dst src n : Z) : mem :=
  if src >? dst then copy_up m dst src (Z.to_nat n) else copy_down m (dst + n) (src + n) (Z.to_nat n).

(** *** user/wc.c *)

Record wcst := Wc { wc_l : Z; wc_w : Z; wc_c : Z; wc_in : bool }.
Definition blanks : list Z := [32; 13; 9; 10; 11].
Definition wc_byte (s : wcst) (x : Z) : wcst :=
  let c := i32 (wc_c s + 1) in
  let l := if x =? NEWLINE then i32 (wc_l s + 1) else wc_l s in
  if strchr blanks x then Wc l (wc_w s) c false
  else if negb (wc_in s) then Wc l (i32 (wc_w s + 1)) c true
  else Wc l (wc_w s) c (wc_in s).

(** The loop of [wc] over what [read] answers: the bytes, or none for an error;
    no bytes at the end of the file.  None when it ends in a read error. *)
Fixpoint wc_loop (reads : list (option (list Z))) (s : wcst) : option wcst :=
  match reads with
  | [] => Some s
  | None :: _ => None
  | Some buf :: reads' =>
      match buf with
      | [] => Some s
      | _ => wc_loop reads' (foldl wc_byte s buf)
      end
  end.
(** What [wc] prints for the file [name]. *)
Definition wc (reads : list (option (list Z))) (name : list Z) : option (list Z) :=
  match wc_loop reads (Wc 0 0 0 false) with
  | None => fprintf [119; 99; 58; 32; 114; 101; 97; 100; 32; 101; 114; 114; 111; 114; 10] []
  | Some s => fprintf [37; 100; 32; 37; 100; 32; 37; 100; 32; 37; 115; 10] [ANum (wc_l s); ANum (wc_w s); ANum (wc_c s); AStr (Some name)]
  end.

(** The words of a text: the longest runs without blanks. *)
Fixpoint words_from (s : list Z) (cur : list Z) : list (list Z) :=
  match s with
  | [] => match cur with [] => [] | _ => [cur] end
  | x :: s' =>
      if bool_decide (x ∈ blanks) then match cur with [] => words_from s' [] | _ => cur :: words_from s' [] end
      else words_from s' (cur ++ [x])
  end.
Definition words (s : list Z) : list (list Z) := words_from s [].
Definition lines (s : list Z) : nat := length (filter (λ x, x = NEWLINE) s).

(** ** Numbers and their digits *)

Definition horner (base : Z) (l : list Z) : Z := foldl (λ a d, a * base + d) 0 l.

Lemma digits_loop_value ds base fuel : 1 < base → ∀ x buf, 0 ≤ x < 2 ^ Z.of_nat fuel → (0 < fuel)%nat →
  ∃ l, digits_loop ds base fuel x buf = buf ++ (digit ds <$> l) ∧ l ≠ [] ∧ Forall (λ d, 0 ≤ d < base) l ∧
    horner base (reverse l) = x ∧ (∀ k : nat, (0 < k)%nat → x < base ^ Z.of_nat k → (length l ≤ k)%nat).
Proof.
  intros Hb. induction fuel as [|fuel IH]; intros x buf Hx Hf; [lia|]. cbn [digits_loop].
  pose proof (Z.mod_pos_bound x base ltac:(lia)). pose proof (Z.div_mod x base ltac:(lia)).
  destruct (x / base =? 0) eqn:E; bool_prop.
  - exists [x mod base]. repeat split; [done|by constructor|unfold horner; simpl; lia|simpl; lia].
  - assert (0 < x / base) by (pose proof (Z.div_pos x base); lia).
    assert (x / base < 2 ^ Z.of_nat fuel) as Hq.
    { apply Z.div_lt_upper_bound; [lia|]. rewrite Nat2Z.inj_succ, Z.pow_succ_r in Hx by lia. nia. }
    destruct fuel as [|fuel]; [simpl in Hq; lia|].
    destruct (IH (x / base) (buf ++ [digit ds (x mod base)])) as (l & -> & _ & Hl & Hv & Hk); [lia|lia|].
    exists (x mod base :: l). rewrite fmap_cons, <- app_assoc. repeat split; [done|by constructor| |].
    + unfold horner in *. rewrite reverse_cons, foldl_app, Hv. simpl. lia.
    + intros k Hk0 Hxk. destruct k as [|[|k]]; [lia|rewrite Z.pow_1_r in Hxk; rewrite Z.div_small in *; lia|].
      simpl. enough (length l ≤ S k)%nat by lia. apply Hk; [lia|]. apply Z.div_lt_upper_bound; [lia|].
      rewrite Nat2Z.inj_succ, Z.pow_succ_r in Hxk by lia. lia.
Qed.

(** What [printint] prints: the digits of the absolute value after a sign. *)
Lemma printint_digits ds xx base sgn : 1 < base → - 2 ^ 31 ≤ xx < 2 ^ 31 →
  let neg := sgn && (xx <? 0) in
  let x := if neg then - xx else u32 xx in
  ∃ l, printint_of ds xx base sgn = (if neg then [MINUS] else []) ++ (digit ds <$> l) ∧ l ≠ [] ∧
    Forall (λ d, 0 ≤ d < base) l ∧ horner base l = x ∧
    (∀ k : nat, (0 < k)%nat → x < base ^ Z.of_nat k → (length l ≤ k)%nat).
Proof.
  intros Hb Hxx neg x. unfold printint_of. fold neg.
  assert ((if neg then u32 (- xx) else u32 xx) = x) as ->.
  { unfold x. destruct neg eqn:E; [|done]. unfold neg in E. bool_prop. apply u32_small. lia. }
  destruct (digits_loop_value ds base 32 Hb x []) as (l & -> & Hn & Hl & Hv & Hk); [|lia|].
  { unfold x. destruct neg eqn:E; [|apply u32_range]. unfold neg in E. bool_prop. simpl. lia. }
  exists (reverse l). rewrite app_nil_l. repeat split.
  - destruct neg; [rewrite reverse_app|]; by rewrite fmap_reverse.
  - intros E. apply Hn. by rewrite <- (reverse_involutive l), E.
  - by apply Forall_reverse.
  - done.
  - intros k Hk0 Hxk. rewrite length_reverse. by apply Hk.
Qed.

Lemma digit_dec d : 0 ≤ d < 10 → digit digits d = ZERO + d ∧ digit kdigits d = ZERO + d.
Proof.
  intros Hd. assert (d ∈ seqZ 0 10) as Hin by (apply elem_of_seqZ; lia).
  clear Hd. revert d Hin. apply Forall_forall. vm_compute. repeat constructor.
Qed.

Lemma horner_mono l a b : a ≤ b → foldl (λ a d, a * 10 + d) a l ≤ foldl (λ a d, a * 10 + d) b l.
Proof. revert a b. induction l as [|d l IH]; intros a b Hab; simpl; [done|]. apply IH. lia. Qed.
Lemma horner_ge l a : 0 ≤ a → Forall (λ d, 0 ≤ d < 10) l → a ≤ foldl (λ a d, a * 10 + d) a l.
Proof.
  intros Ha Hl. revert a Ha. induction Hl as [|d l Hd Hl IH]; intros a Ha; simpl; [done|].
  specialize (IH (a * 10 + d)). lia.
Qed.

Definition no_digit (s : list Z) : Prop := match s with c :: _ => isdigit c = false | [] => True end.

Lemma atoi_digits l rest a : 0 ≤ a → Forall (λ d, 0 ≤ d < 10) l → foldl (λ a d, a * 10 + d) a l < 2 ^ 31 → no_digit rest →
  atoi_loop ((digit digits <$> l) ++ rest) a = foldl (λ a d, a * 10 + d) a l.
Proof.
  intros Ha Hl. revert a Ha. induction Hl as [|d l Hd Hl IH]; intros a Ha Hlt Hr.
  - destruct rest as [|c rest]; simpl in *; [done|]. by rewrite Hr.
  - simpl. rewrite (proj1 (digit_dec d Hd)). unfold isdigit, ZERO, NINE. simpl in Hlt.
    pose proof (horner_ge l (a * 10 + d) ltac:(lia) Hl).
    destruct ((48 <=? 48 + d) && (48 + d <=? 57)) eqn:E; [|bool_prop; lia].
    replace (a * 10 + (48 + d) - 48) with (a * 10 + d) by lia. rewrite i32_small by lia. apply IH; [lia|done|done].
Qed.

(** The decimal digits of the kernel and of the library are the same. *)
Lemma digits_loop_decimal fuel x buf : digits_loop kdigits 10 fuel x buf = digits_loop digits 10 fuel x buf.
Proof.
  revert x buf. induction fuel as [|fuel IH]; intros x buf; [done|]. cbn [digits_loop].
  destruct (digit_dec (x mod 10)) as [-> ->]; [by apply Z.mod_pos_bound|]. by rewrite IH.
Qed.
Lemma kdigits_decimal n sgn : kprintint n 10 sgn = printint n 10 sgn.
Proof.
  unfold kprintint, printint, printint_of. cbv zeta. by rewrite digits_loop_decimal.
Qed.

(** The buffer of [printint] has room for every number, in both bases. *)
Lemma printint_fits ds xx base sgn : base = 10 ∨ base = 16 → - 2 ^ 31 ≤ xx < 2 ^ 31 →
  (length (printint_of ds xx base sgn) ≤ 11)%nat.
Proof.
  intros Hb Hxx. destruct (printint_digits ds xx base sgn) as (l & -> & _ & _ & _ & Hk); [lia|done|].
  rewrite length_app, length_fmap.
  assert (length l ≤ 10)%nat; [|by destruct (sgn && (xx <? 0)); simpl; lia].
  apply Hk; [lia|]. pose proof (u32_range xx).
  destruct (sgn && (xx <? 0)) eqn:E; bool_prop; destruct Hb as [-> | ->]; simpl; lia.
Qed.

(** [atoi] reads the digits that [printint] printed back as the absolute value,
    in 32 bits. *)
Lemma atoi_printint n : - 2 ^ 31 ≤ n < 2 ^ 31 →
  ∃ l, printint n 10 true = (if n <? 0 then [MINUS] else []) ++ (digit digits <$> l) ∧ l ≠ [] ∧
    Forall (λ d, 0 ≤ d < 10) l ∧ horner 10 l = Z.abs n ∧
    ∀ rest, no_digit rest → atoi ((digit digits <$> l) ++ rest) = i32 (Z.abs n).
Proof.
  intros Hn. destruct (decide (n = - 2 ^ 31)) as [->|Hmin].
  { exists [2; 1; 4; 7; 4; 8; 3; 6; 4; 8]. split; [by vm_compute|]. split; [done|]. split; [repeat constructor; lia|]. split; [done|].
    intros rest Hr. change (atoi_loop rest (- 2 ^ 31) = - 2 ^ 31). destruct rest as [|c rest]; [done|]. cbn [atoi_loop]. unfold no_digit in Hr. by rewrite Hr. }
  destruct (printint_digits digits n 10 true) as (l & E & Hne & Hl & Hv & _); [lia|lia|].
  simpl andb in *. exists l. split; [exact E|]. split; [exact Hne|]. split; [exact Hl|].
  assert (horner 10 l = Z.abs n) as Hx.
  { rewrite Hv. destruct (n <? 0) eqn:En; bool_prop; [lia|]. rewrite u32_small; lia. }
  split; [exact Hx|]. intros rest Hr. rewrite i32_small by lia.
  unfold atoi. rewrite atoi_digits; try done; unfold horner in *; lia.
Qed.
Lemma atoi_minus s : atoi (MINUS :: s) = 0.
Proof. done. Qed.

(** ** [wc] *)

Lemma strchr_member s c : strchr s c = bool_decide (c ∈ s).
Proof.
  unfold strchr. apply eq_true_iff_eq. rewrite existsb_exists, bool_decide_eq_true.
  split; [intros (x & Hx & E); bool_prop; subst x; by apply list_elem_of_In|].
  intros Hc. exists c. split; [by apply list_elem_of_In|]. by apply Z.eqb_refl.
Qed.

Definition cur_in (cur : list Z) : bool := match cur with [] => false | _ => true end.
Definition pending (cur : list Z) : nat := if cur_in cur then 1 else 0.

Lemma words_from_count s : ∀ cur, (pending cur ≤ length (words_from s cur) ≤ length s + pending cur)%nat.
Proof.
  induction s as [|x s IH]; intros cur; simpl; [destruct cur; unfold pending; simpl; lia|].
  case_bool_decide.
  - destruct cur; specialize (IH []); unfold pending in *; simpl in *; lia.
  - specialize (IH (cur ++ [x])). destruct cur; unfold pending in *; simpl in *; lia.
Qed.

Lemma lines_le s : (lines s ≤ length s)%nat.
Proof. unfold lines. apply length_filter. Qed.

(** The counters after any bytes, while nothing overflows. *)
Lemma wc_bytes s : ∀ cur l w c, 0 ≤ l → 0 ≤ w → 0 ≤ c →
  l + Z.of_nat (length s) < 2 ^ 31 → w + Z.of_nat (length s) < 2 ^ 31 → c + Z.of_nat (length s) < 2 ^ 31 →
  ∃ b, foldl wc_byte (Wc l w c (cur_in cur)) s =
    Wc (l + Z.of_nat (lines s)) (w + Z.of_nat (length (words_from s cur)) - Z.of_nat (pending cur)) (c + Z.of_nat (length s)) b.
Proof.
  induction s as [|x s IH]; intros cur l w c Hl Hw Hc Bl Bw Bc.
  - eexists. simpl. f_equal; destruct cur; unfold pending, lines; simpl; try lia.
  - cbn [foldl]. cbn [length] in *.
    assert (lines (x :: s) = ((if (x =? NEWLINE)%Z then 1 else 0) + lines s)%nat) as ->.
    { unfold lines. rewrite filter_cons. destruct (x =? NEWLINE) eqn:E; bool_prop; [by rewrite decide_True|by rewrite decide_False]. }
    unfold wc_byte at 2. cbn [wc_l wc_w wc_c wc_in].
    rewrite (i32_small (c + 1)), (i32_small (l + 1)), (i32_small (w + 1)) by lia.
    rewrite strchr_member. cbn [words_from].
    set (l' := if x =? NEWLINE then l + 1 else l).
    assert (l' = l + Z.of_nat (if x =? NEWLINE then 1 else 0)) as El by (unfold l'; destruct (x =? NEWLINE); lia).
    assert (0 ≤ l' ≤ l + 1) as Hl' by (unfold l'; destruct (x =? NEWLINE); lia).
    case_bool_decide.
    + destruct (IH [] l' w (c + 1)) as [b Eb]; try lia. simpl cur_in in Eb. rewrite Eb. exists b.
      destruct cur; unfold pending; simpl; f_equal; lia.
    + destruct cur as [|y cur].
      * destruct (IH [x] l' (w + 1) (c + 1)) as [b Eb]; try lia. simpl. unfold pending in *. simpl in *. rewrite Eb. exists b. f_equal; lia.
      * destruct (IH (y :: cur ++ [x]) l' w (c + 1)) as [b Eb]; try lia. simpl. simpl in Eb. rewrite Eb. exists b. f_equal; lia.
Qed.

Lemma wc_loop_chunks chunks more : Forall (λ b, b ≠ []) chunks → ∀ s,
  wc_loop ((Some <$> chunks) ++ more) s = wc_loop more (foldl wc_byte s (concat chunks)).
Proof.
  induction 1 as [|b chunks Hb Hc IH]; intros s; [done|]. simpl. rewrite foldl_app, <- IH.
  by destruct b.
Qed.

(** ** The other routines *)

(** [memmove] of the library copies also between overlapping areas. *)
Lemma umemmove_moves m d s n a : ld8 (umemmove m d s n) a = if decide (d ≤ a < d + n) then ld8 m (s + (a - d)) else ld8 m a.
Proof.
  unfold umemmove. destruct (decide (0 ≤ n)) as [Hn|Hn].
  - destruct (s >? d) eqn:E; bool_prop.
    + rewrite ld8_copy_up by lia. by rewrite Z2Nat.id.
    + rewrite ld8_copy_down by lia. rewrite Z2Nat.id by done. replace (d + n - n) with d by lia.
      destruct (decide _); [|done]. f_equal. lia.
  - rewrite decide_False by lia. replace (Z.to_nat n) with O by lia. by destruct (s >? d).
Qed.

Lemma gets_line_splits n input : let '(l, r) := gets_line n input in l ++ r = input ∧ (length l ≤ n)%nat ∧
  (∀ i, l !! i = Some NEWLINE → S i = length l).
Proof.
  revert input. induction n as [|n IH]; intros [|c input]; simpl; try (split; [done|split; [lia|done]]).
  destruct ((c =? 10) || (c =? 13)) eqn:E; bool_prop.
  - split; [done|]. split; [simpl; lia|]. intros [|i]; [done|]. by rewrite lookup_cons.
  - specialize (IH input). destruct (gets_line n input) as [l r]. destruct IH as (<- & Hl & Hn).
    split; [done|]. split; [simpl; lia|]. intros [|i]; simpl; [intros [= ?]; unfold NEWLINE in *; lia|].
    intros Hi. by rewrite (Hn i Hi).
Qed.

Lemma strcmp_zero p q : Forall (λ c, 0 < c) p → Forall (λ c, 0 < c) q → strcmp p q = 0 ↔ p = q.
Proof.
  intros Hp. revert q. induction Hp as [|a p Ha Hp IH]; intros q Hq; destruct Hq as [|b q Hb Hq]; simpl; [done| | |].
  - split; [lia|done].
  - split; [lia|done].
  - destruct (a =? b) eqn:E; bool_prop; [rewrite IH by done; naive_solver|]. split; [lia|]. intros [= ??]. done.
Qed.

(** The directive for 64-bit numbers prints the low 32 bits only. *)
Example percent_l_truncates : fprintf [PERCENT; 108] [ANum (2 ^ 32 + 7)] = Some [ZERO + 7].
Proof. reflexivity. Qed.

(** ** Properties *)

(** C29: printf and atoi on decimal numbers.  For every 32-bit number the decimal
    conversion of the library's and of the kernel's printf prints a minus sign
    exactly when it is negative and then decimal digits whose value is the
    absolute value.  atoi, which stops at the first byte that is not a digit,
    reads a number that is not negative back; of a printed negative number it
    makes 0, since it knows no sign, and of the digits after the sign the
    absolute value as an int (the least int comes back as itself).  Every
    conversion in base 10 or 16 stays within the 16 bytes of the buffer it is
    made in. *)
Theorem printint_atoi_roundtrip n : - 2 ^ 31 ≤ n < 2 ^ 31 →
  (∃ l, let s := digit digits <$> l in
     printint n 10 true = (if n <? 0 then [MINUS] else []) ++ s ∧ kprintint n 10 true = printint n 10 true ∧
     l ≠ [] ∧ Forall (λ d, 0 ≤ d < 10) l ∧ horner 10 l = Z.abs n ∧
     ∀ rest, no_digit rest → atoi (printint n 10 true ++ rest) = (if n <? 0 then 0 else n) ∧ atoi (s ++ rest) = i32 (Z.abs n)) ∧
  (∀ base sgn, base = 10 ∨ base = 16 → (length (printint n base sgn) ≤ 16)%nat ∧ (length (kprintint n base sgn) ≤ 16)%nat).
Proof.
  intros Hn. split.
  - destruct (atoi_printint n Hn) as (l & E & Hne & Hl & Hv & Hs). exists l. cbv zeta. split; [done|]. split; [apply kdigits_decimal|].
    split; [done|]. split; [done|]. split; [done|]. intros rest Hr. split; [|by apply Hs]. rewrite E.
    destruct (n <? 0) eqn:En; bool_prop; [apply atoi_minus|]. simpl app. rewrite (Hs rest Hr), Z.abs_eq by lia. by apply i32_small.
  - intros base sgn Hb. unfold printint, kprintint.
    pose proof (printint_fits digits n base sgn Hb ltac:(lia)). pose proof (printint_fits kdigits n base sgn Hb ltac:(lia)). lia.
Qed.

Lemma printint_atoi_roundtrip_witness :
  printint (-205) 10 true = [MINUS; 50; 48; 53] ∧ atoi [MINUS; 50; 48; 53] = 0 ∧ atoi [50; 48; 53] = 205 ∧
  ∃ l, printint (-205) 10 true = [MINUS] ++ (digit digits <$> l) ∧ kprintint (-205) 10 true = printint (-205) 10 true ∧
    l ≠ [] ∧ Forall (λ d, 0 ≤ d < 10) l ∧ horner 10 l = 205 ∧
    ∀ rest, no_digit rest → atoi (printint (-205) 10 true ++ rest) = 0 ∧ atoi ((digit digits <$> l) ++ rest) = 205.
Proof.
  do 3 (split; [by vm_compute|]).
  refine (proj1 (printint_atoi_roundtrip (-205) _)). lia.
Defined.

(** C28: wc counts lines, words and bytes.  However read splits the file into
    non-empty pieces, wc prints the number of newlines, of the words and of the
    bytes of the whole text and the name; a word that a piece ends in the
    middle of is counted once.  After a read error it prints the message
    instead. *)
Theorem wc_counts chunks more name :
  let text := concat chunks in
  Forall (λ b, b ≠ []) chunks → Z.of_nat (length text) < 2 ^ 31 →
  wc ((Some <$> chunks) ++ Some [] :: more) name =
    Some (printint (Z.of_nat (lines text)) 10 true ++ [32] ++ printint (Z.of_nat (length (words text))) 10 true ++ [32] ++
      printint (Z.of_nat (length text)) 10 true ++ [32] ++ name ++ [NEWLINE]) ∧
  wc ((Some <$> chunks) ++ None :: more) name = Some [119; 99; 58; 32; 114; 101; 97; 100; 32; 101; 114; 114; 111; 114; 10].
Proof.
  intros text Hc Hlen. unfold wc. rewrite !wc_loop_chunks by done. split; [|done]. simpl wc_loop.
  destruct (wc_bytes text [] 0 0 0) as [b Eb]; try lia. simpl cur_in in Eb. fold text. rewrite Eb.
  pose proof (lines_le text). pose proof (words_from_count text []) as Hw. unfold words, pending in *. simpl in Hw.
  unfold fprintf. simpl. rewrite !i32_small by lia. rewrite !Z.sub_0_r.
  repeat (progress rewrite <- ?app_assoc; simpl). by rewrite ?app_nil_r.
Qed.

Lemma wc_counts_witness :
  wc [Some [104; 105]; Some [33; 32; 120; 10]; Some []] [102] = Some [49; 32; 50; 32; 54; 32; 102; 10] ∧
  wc ((Some <$> [[104; 105]; [33; 32; 120; 10]]) ++ Some [] :: []) [102] =
    Some (printint 1 10 true ++ [32] ++ printint 2 10 true ++ [32] ++ printint 6 10 true ++ [32] ++ [102] ++ [NEWLINE]).
Proof.
  split; [reflexivity|].
  refine (proj1 (wc_counts [[104; 105]; [33; 32; 120; 10]] [] [102] _ _)); [by repeat constructor|simpl; lia].
Defined.
